(* ===== verification/_CoqProject ===== *)
-Q . S2P
Prelude.v
PyStd.v
Externals.v
Receipt.v
Attestation.v
Merkle.v
Accumulator.v
Published.v
Effects.v
Client.v
ClientDurable.v
ClientSafety.v
ClientTheorems.v
ClientExample.v
Emission.v
EmissionTheorems.v
Payment.v
PaymentStores.v
PaymentVerifier.v
RelayerSafety.v
EpochRun.v
EpochSafety.v
PerStageSplit.v
PerStageAuth.v
PerStageExample.v
Retention.v
PerStageReceiver.v
ClientOwned.v
StageNode.v
StageSafety.v
StageExample.v
Registry.v
Grouping.v
Detectors.v
ConsensusTheorems.v
Challenges.v
ChallengeTheorems.v
AuditEngine.v
AuditTheorems.v
ChallengeExample.v
RequesterDefense.v
RequesterTheorems.v
PyNumbers.v
PyBase64.v
PyJson.v
DagLedger.v
DagSteps.v
ActivationChain.v
InferenceModels.v
CreditPolicy.v
InferenceAdapter.v
ReceiptSigning.v
ChallengeVerifier.v
SettleWiring.v
ClientLiveness.v
SettleTheorems.v
SettleExample.v
FieldPoly.v
Gf256.v
AesGcm.v
StorageModels.v
KeyManager.v
Shamir.v
Zfec.v
Erasure.v
ManifestJson.v
BlobStore.v
ShardEngine.v
Lru.v
ContentStore.v
StorageExample.v
StorageProof.v
Distribution.v
Encryption.v
Escrow.v
EscrowSafety.v
DagSafety.v
DagSolo.v
DagExample.v
EscrowExample.v
