(* ===== verification/Prelude.v ===== *)
(** * PRSM: a verification library for settlement and content storage

    PRSM is a Python peer-to-peer compute network.  A node that executes a shard
    of a job signs a receipt; receipts are queued, committed on chain in Merkle
    batches, finalized after a challenge window and rewarded once per emission
    epoch; a requester pays through a signed authorization or through a relayer
    it has delegated a budget to.  A node keeps its own balances in a ledger of
    transactions and holds the payment of a job in escrow until the job is done.
    Its content is kept in encrypted shards that other nodes hold and can be asked to
    prove.  This library models the settlement core (src/prsm/settlement and the
    receipt code it uses), the signed inference receipts (src/prsm/compute/inference),
    the ledger and the escrow (src/prsm/node) and the content storage
    (src/prsm/storage), and proves the properties money and data depend on: nothing
    is settled, paid or spent twice, nothing that may have been sent is forgotten,
    what is on chain can be proved and is what was earned; a signature binds what it
    is read to say; content comes back as it was stored from what is left of it, and
    nothing else ever does.

    ** The program's parts and the files that model them

    Each file models the Python module of the same role; the definitions keep the
    source's names.

    - Prelude.v (this file): results and exceptions, Python dicts with their
      insertion order, sorting, sums; lemmas and tactics shared by all files.
      PyStd.v: the standard-library calls of the code (bytes, [hex], [int],
      [str.lower], [str.strip], base64, SHA-2, SHA-3), executable.
      Externals.v: the third-party functions (keccak, ABI encoding, checksum
      addresses) as a class of parameters, their documented laws, and [Toy], an
      instance that satisfies all of them.
    - Receipt.v, Attestation.v: compute/shard_receipt.py with verify_signature of
      node/identity.py and the tier order of enterprise/tee_policy.py.  The
      receipt record, its JSON form, the signed text, Tier-A verification of a
      received receipt, the attestation commitment of a batch.
    - Merkle.v: settlement/merkle.py.  The leaf conversion, the leaf hash, the
      tree, its proofs.
    - Accumulator.v: settlement/accumulator.py.  The state is the record
      [ReceiptAccumulator]: a dict of [PendingBatch] by (requester, provider,
      group, slash rate).  add, ready_batches, pop, restore and queries.
    - Published.v: settlement/published_batch_store.py and the load of
      settlement/state_store.py.
    - Effects.v: programs with effects, a weakest precondition with a crash
      condition, processes (a memory state running one program at a time over a
      world, dying and restarting), and pools: programs that interleave at their
      effects over one world, with a rely-guarantee logic and a scheduler that runs
      them.
    - Client.v: settlement/client.py.  [Client] is the BatchSettlementClient
      object; each async method is a program over it that performs the effects
      [settle] (clock, state file, retention file, contract).
      ClientDurable.v: the state file round trip.  ClientSafety.v: the node as a
      transition system and its invariant.  ClientTheorems.v: the theorems.
      ClientExample.v: a deployment that runs.
    - Emission.v, EmissionTheorems.v: settlement/reward_epoch.py (entitlement
      tree) and settlement/emission_epoch.py (attribution and apportionment).
    - EpochRun.v: settlement/epoch_watermark.py and settlement/epoch_runner.py,
      as programs over the effects [epoch] (watermark file, manifests, reward
      pool).  EpochSafety.v: the job over a whole history, and runs.
    - Payment.v: settlement/payment_authorization.py and
      settlement/payment_delegation.py over the class [Eip712] (typed-data hash,
      key recovery).  PaymentStores.v: the nonce stores and
      settlement/delegation_budget.py behind the interfaces [NonceStore] and
      [BudgetStore] with their laws, discharged by the in-memory and the durable
      implementation of each.  PaymentVerifier.v: the verifiers of
      settlement/payment_authorization_verifier.py, proved against the
      interfaces.  RelayerSafety.v: the relayer with the durable stores over a
      whole history, and runs.
    - PerStageSplit.v, PerStageAuth.v: settlement/per_stage_settlement_split.py
      with node/compute_wallet_map.py; settlement/per_stage_payment_authorization.py
      and settlement/per_stage_routing.py.  A multi-stage inference is paid one
      share per node; the requester signs the set of payees.  PerStageExample.v:
      runs.
    - Retention.v: the discipline shared by
      settlement/per_stage_receiver_store.py and
      settlement/issued_authorization_store.py, against the interface
      [RetentionEntry] with its laws, and its abstract specification.
      PerStageReceiver.v: the receiver store, the ingest, the delivery parser.
      StageNode.v: the commit driver and the per-stage cycles of
      settlement/client_wiring.py, over the store and the client of Client.v.
      ClientOwned.v: what the client owns, for its callers.  StageSafety.v: the
      node over a whole history.  StageExample.v: a run.
    - Registry.v: contracts/contracts/BatchSettlementRegistry.sol (commit,
      challenge, finalize), with what it calls in the class [ContractEnv], and the
      contract over a whole history.
    - Grouping.v, Detectors.v: the detectors (settlement/double_spend_detector.py,
      expired_receipt_detector.py, consensus_mismatch_detector.py) and the
      grouping and sorting they share.  ConsensusTheorems.v: the
      slots of the consensus detector.
    - Challenges.v: the assemblers (settlement/challenge_assembler.py,
      double_spend_assembler.py, no_escrow_assembler.py, expired_assembler.py,
      consensus_mismatch_assembler.py) and the root cross-check of
      receipt_set_blob.py.  ChallengeTheorems.v: against the contract.
    - AuditEngine.v, AuditTheorems.v: settlement/settlement_audit_engine.py with
      the challenge attempt of marketplace/consensus_submitter.py.
      ChallengeExample.v: a chain and an observer that run.
    - RequesterDefense.v: settlement/issued_authorization_store.py and the scan and
      assembly of no_escrow_assembler.py.  RequesterTheorems.v, with runs.

    - PyNumbers.v: Python's decimal arithmetic at a precision and its floats, with
      the text they print as.  CreditPolicy.v: economy/credit_policy.py.  PyBase64.v, InferenceAdapter.v:
      settlement/inference_adapter.py with the node identity that signs.
      SettleWiring.v: the booking of a settled inference and the poll cycle of
      settlement/client_wiring.py, over Client.v.  ClientLiveness.v,
      SettleTheorems.v, SettleExample.v.
    - ActivationChain.v: texts of lines, and
      compute/inference/stage_activation_proof.py, the chain of the stages' signed
      activations.  InferenceModels.v: the records of compute/inference/models.py,
      topology_rotation.py, activation_dp.py and partial_completion.py, and the text
      a receipt's settler signs.  ReceiptSigning.v: compute/inference/receipt.py and
      the JSON of receipts and results.  ChallengeVerifier.v:
      settlement/challenge_verifier.py.

    Ledger and escrow (src/prsm/node):

    - DagLedger.v: an SQLite connection, and dag_ledger.py over it with log_gossip of
      ledger_node_services.py and the rebuild of balances of node.py, as programs over
      the effects [ledger_io].  DagSteps.v: a logic for programs that hold the write
      lock, and what each locked operation does.  DagSafety.v: the ledger over every
      interleaving.  DagSolo.v: the weight update and the start.  DagExample.v: runs.
    - Escrow.v: payment_escrow.py as programs over the effects [escrow_io].
      EscrowSafety.v: one job under its lock, every interleaving, and the split
      release.  EscrowExample.v: runs.

    Content storage (src/prsm/storage):

    - StorageModels.v, ManifestJson.v: models.py, with the text of a manifest.
      PyJson.v: the json module, for the values the code writes and reads, its sorted
      keys, and its round trip.
    - Gf256.v, KeyManager.v, Shamir.v: key_manager.py.  The field from the code's
      tables, sharing and reconstruction; FieldPoly.v: polynomials over a field
      given by a class of laws.  AesGcm.v: the cipher as a class of parameters.
    - Erasure.v: erasure.py, over the class of Zfec.v.
    - BlobStore.v: blob_store.py, programs over the effects [storage] (files).
      ShardEngine.v: shard_engine.py.
    - Lru.v: the manifest cache of content_store.py.  ContentStore.v:
      the rest of it.  StorageExample.v: runs.
    - StorageProof.v: proof.py.
    - Distribution.v: distribution.py.
    - Encryption.v: encryption.py.
    How they interact: the client (Client.v) calls the accumulator, the Merkle
    tree, the attestation commitment and the published-batch store, and writes
    its whole state as one JSON file after every step.  The epoch job (EpochRun.v)
    reads the batches that were finalized on chain, plans with Emission.v and
    publishes the root.  The payment verifiers gate a job before it runs; they
    share no state with the client.  A stage node (StageNode.v) drains its receiver
    store into a client of its own.  An observer (AuditEngine.v) caches the receipt
    sets that match the roots on chain, and its challenges, like a requester's
    (RequesterDefense.v), are sent to the contract (Registry.v), which a commit of
    the client reaches as an effect.  The tasks of one node's event loop share the
    ledger object, its database connection and its write lock (DagLedger.v); the
    escrow (Escrow.v) calls the ledger through its transfer and balance and keeps one
    lock per job.

    ** What the theorems show

    - Receipts: a received receipt verifies exactly when it is signed by the key
      of its provider over its own fields and the expected hash
      ([Attestation.verify_exact]); a batch's attestation is that of its weakest
      member whatever the order ([attestation_weakest_link]).
    - Trees: completeness and soundness of proofs up to a collision among the
      strings actually hashed ([Merkle.verify_complete], [verify_sound]); equal
      leaves come from equal receipts ([leaf_binding]); when the conversion
      succeeds ([leaf_conversion_exact]); the tree checks its own proofs
      ([tree_self_check]).
    - Accumulator: each queued receipt is in one queue, under its own key, once,
      after any sequence of operations ([accumulator_invariant]); what [add] and
      [ready_batches] return ([add_functional], [ready_exact]); a snapshot
      restores the same queues ([snapshot_restore]).
    - Client: in every state reachable through calls, crashes at any effect and
      restarts, no escrow is committed twice ([no_double_settlement]), every
      commit that was sent is tracked, quarantined, intended or finalized
      ([no_stranded_commit]), a queued receipt was never sent
      ([queued_is_unsettled]), a sent commit carries the root and attestation of
      its receipts and passes the signer check ([sent_commits_faithful]); each
      branch of one commit ([commit_iteration_outcome]); a client booted from a
      snapshot is the client that wrote it ([durable_state_exact]); a damaged file
      stops the boot ([boot_is_loud]); the dedup ledger forgets only the oldest
      entries above its bound ([ledger_retention]); the retention store is
      bounded, lossless and restart-safe ([published_store_retains]).
    - Emission: the split pays exactly the pot, within one wei of each exact
      share among the recipients kept ([allocate_exact]); each batch counts once, for its provider and
      in the window ([plan_attribution]); every entitlement of a plan can be
      published and claimed ([plan_publishable]) and nothing else can
      ([reward_proof_sound]); the plan does not depend on the order of the inputs
      ([plan_order_independent]); [aggregate_exact].
    - Epoch job: over any history of runs, failures, crashes and lost files, no
      batch is paid twice ([emission_exactly_once]) and a batch recorded as
      consumed was paid ([emission_late_not_lost]).
    - Payments: what one call admits, on every branch ([authorization_exact],
      [delegated_authorization_exact]); over any history of the relayer, accepted
      ceilings never exceed a delegation's cap ([relayer_no_overspend]) and no
      nonce is accepted twice ([relayer_no_replay]); all spellings of a delegation
      nonce share one budget ([budget_bucket_canonical]); signing and verifying
      agree ([sign_verify_roundtrip]).
    - Per-stage settlement: the split pays exactly the total ([split_exact]); the
      signed set determines its payees ([payee_set_binding]); the verifier accepts
      what its documentation lists ([per_stage_authorization_exact]); an honest
      payment passes every gate ([routed_tasks_authorized]); an ingest stages what
      its gate authorizes ([ingest_exact]); over any history of a stage node
      nothing is settled without authority or twice ([stage_node_safe]) and no
      share is lost ([drain_keeps_shares]).
    - Retention stores: they implement a bounded list with a durable copy
      ([retention_refines]).
    - Contract: over any history a batch is paid once, its value less what was
      challenged off it ([registry_pays_once]).
    - Challenges: the detectors report what they should ([double_spend_exact],
      [expired_exact], [consensus_exact]); the cross-check and the cache admit only
      what was committed ([cross_check_sound], [cache_gate]); an assembled
      challenge is accepted by the contract ([challenge_accepted],
      [audit_actionable]), except that double spends are challenged in the wrong
      direction ([double_spend_rejected]).
    - Requester: it is warned of exactly the batches it did not sign for
      ([requester_alerts_exact]) and disputes those and only those
      ([escrow_defended]); batches of its own stage nodes are recognised
      ([stage_batches_recognised]).
    - The Example files also prove, on concrete runs, where the code falls short of
      what it documents (a lemma each, named for the defect).

    - Wiring: the settlement decision stays within the escrow
      ([settlement_decision_sound]); an adapted receipt passes every later check
      ([adapter_exact]); booking never loses a receipt ([booking_exact]); a due
      batch is committed and finalized by the poll cycles ([settlement_progress]).
    - Inference receipts: a settler's signature binds every settled field
      ([inference_receipt_binds]); signed receipts verify, and without a key only as
      their settler's ([signed_receipt_verifies]); they survive the wire
      ([receipt_wire_roundtrip]); a chain is accepted exactly when it proves the
      computation ([chain_exact]), and the verdict on a challenged receipt is exact
      ([challenge_report_exact]).
    - Ledger: over every interleaving the transactions are a chain whose replay is the
      balance cache, and every payment was covered ([dag_ledger_safe]); the start
      reaches the state this asks for ([start_boots]); the weight update ends and
      counts each transaction once ([update_weights_exact]).
    - Escrow: over every interleaving an escrow is settled once
      ([escrow_settles_once]); each way a split release can end
      ([split_release_exact]).
    - Storage: any threshold of shares gives the secret ([shamir_any_threshold])
      and fewer say nothing about it ([shamir_secrecy]); content survives the
      shards that may be lost ([shard_roundtrip]), is found where it was stored
      ([local_roundtrip]) and travels with its artefacts ([artifacts_roundtrip]);
      over any history, with any files, what the store answers is genuine
      ([content_history]); the cache is bounded and least recently used
      ([cache_lru]); an honest provider is verified and a verified chunk is the
      chunk ([honest_provider_verified], [verified_chunk]); placement keeps its
      rules ([placement_constraints]); a descriptor's signature binds it
      ([descriptor_signature_binds]); content encryption is authentic, whole and
      in chunks ([encryption_authentic], [streaming_matches_one_shot]).
    ** Modelling decisions

    - A Python [int] is a [Z]; where the code or the encoding bounds it (uint64,
      uint256, bytes32) the check is in the definition.  A [str] is its UTF-8
      bytes.  A dict is an association list in insertion order.  A call that may
      raise returns [result]; exception messages are not modelled except the
      reason of [AuthorizationRejected].
    - A JSON file is absent, not JSON, or a JSON value; decoding functions raise
      what the code's subscripts and conversions raise on a value of another type.
    - A method of the ledger or of the escrow is a program whose every [await] is an
      effect, and any number of calls interleave between effects; the locks are those
      of the code.  The ledger's SQLite connection is modelled with its implicit
      transaction and its savepoint; the ledger's random choice of tips and its
      identifiers are answers of the world.  An amount is an IEEE double, computed
      exactly and rounded; SQL's sum is a parameter.  The escrow sees any ledger:
      every call of it may answer or raise, and a call that raises moved nothing.
    - A client method holds the client's lock, so methods do not interleave; an
      [await] is an effect, and the process may die between any two effects.  An
      atomic file write replaces the whole file or fails and leaves it.
    - The contract answers a commit with success (the batch landed), with
      OnChainPendingError or BroadcastFailedError (it may have landed), or with
      another exception (it did not land).  A published epoch has landed when the
      call returns; when the call raises it has landed or never will.
      EpochSafety.v shows what the code does when the first half fails.
    - [CommitBatch] and [PublishEpoch] carry a ghost argument, the receipts or the
      paid batch ids, which the world records to state the theorems; no definition
      of the code reads it.
    - A stage node has one client for its node, and its deliveries and cycles run
      one at a time: a delivery that arrives while a cycle awaits the contract is
      not interleaved with it.  A float clock is a rational.
    - A transaction of the contract returns the new storage and its external calls,
      or reverts; re-entrancy is not modelled (the registry writes its storage
      before it calls out).  The audit engine's retained inference receipts are an
      abstract type.
    - The payment verifier's release of a reservation is not interleaved within
      another call.  A request arrives as JSON, so its fields are strings, integers
      or null.
    - The methods of a content store run one at a time, though the code awaits
      between files.  Outcomes for which the model has no value (a field of a
      decoded manifest that is not of its declared type) are the error [Untyped].
      In a manifest or a receipt a float is the text that Python writes for it.
    - Cryptographic laws are hypotheses: signature recovery inverts signing,
      checksum and ABI encodings are injective on well-typed values.  Collision
      freedom of keccak is assumed only among the strings a proof hashes.

    Fuel.  [Merkle.reduce_layers] takes the number of leaves (a layer of n > 1
    nodes has fewer than n above it), [Emission.allocate_loop] the number of
    recipients (every round but the last drops one), the digests the length of
    the padded message; the theorems show the results are those of the loops that
    run to the end, so no result is truncated.
    [AuditEngine.cache_evict] takes the number of entries, and each turn removes
    one.

    [PyJson.loads] takes the length of the text, and each call consumes a
    character; [StorageProof.pad_target] and [build_up] take the number of leaves,
    which doubling reaches and halving exhausts sooner.
    [DagLedger.update_weights] takes one turn for each parent and for each pair of
    transactions; a turn takes one entry off the queue, and only the first turn of a
    transaction puts its children on it ([update_weights_exact] has the end of it).
    ** What is not modelled

    In the settlement core: settlement/per_stage_commit.py, challenge_preparer.py
    (a dispatch to the modelled assemblers),
    the scan of retained inference receipts (scan_inference_receipts), the
    builders of payment_client.py and the canonical JSON of an inference request
    (the request hash is an opaque value).  Of the storage, key_sharing.py and
    paid_unlock.py.  Of the contract, the owner's functions and the views, and
    the pool and bond it calls.  Of the ledger, the history queries, the schema
    migration and the mixin's tables (the commit of one writer of it, log_gossip, is
    modelled, and excluded from the safety theorem it breaks); of the escrow, the
    periodic task.  Wiring from environment variables, preflight
    scripts, Web3 submission, the audit loop and gossip are construction and I/O
    over the modelled parts.  The rest of the repository (node runtime, model
    execution, network, economy, interfaces, data stores) is process orchestration and I/O
    around third-party libraries; the settlement core meets it only through the
    effects above. *)

From Stdlib Require Import ZArith Lia.
From stdpp Require Export strings gmap option sorting base list.

#[global] Open Scope Z_scope.
#[export] Set Warnings "-clear-no-such-hyp".

(** ** Exceptions and results

    A Python call either returns or raises.  [exn] lists the exception
    classes the modelled code raises or catches by name; message texts are not
    modelled, except the machine-readable [reason] of
    [AuthorizationRejected]. *)

Inductive exn : Type :=
| ValueError
| TypeError
| IndexError
| KeyError
| AttributeError
| AssertionError
| OverflowError
| BinasciiError                    (* binascii.Error, a subclass of ValueError *)
| InvalidSignatureFormat           (* settlement: subclass of ValueError *)
| DelegatedAuthError               (* settlement: subclass of ValueError *)
| AuthorizationRejected (reason : string)
| SettlementStateCorruptError
| ProviderAddressMismatchError
| OnChainPendingError (tx_hash : string)
| BroadcastFailedError
| OnChainRevertedError
| OSError
| WatermarkIntegrityError
| EpochRunAborted
| WatermarkLostError               (* subclass of EpochRunAborted *)
| ErasureError
| InsufficientShardsError          (* subclasses of ErasureError *)
| DuplicateShardError
| CorruptShardError
| PayloadChecksumError
| ShamirError
| InsufficientSharesError          (* subclass of ShamirError *)
| ContentNotFoundError
| ShardIntegrityError
| DecimalException                 (* decimal: an ArithmeticError *)
| ZeroDivisionError
| UnicodeDecodeError               (* subclasses of ValueError *)
| JSONDecodeError
| InvalidTag                       (* cryptography.exceptions *)
| KeyReconstructionError           (* storage *)
| ManifestError
| PlacementError
| EncryptionError
| EncryptionAuthError              (* subclass of EncryptionError *)
| PaidUnlockError
| IntegrityError                   (* sqlite3 *)
| OperationalError (message : string)
| InsufficientBalanceError         (* DAG ledger: AtomicOperationErrors *)
| ConcurrentModificationError
| BalanceLockError
| MissingSignatureError            (* DAG signatures *)
| InvalidSignatureError
| EscrowAlreadyFinalizedError      (* escrow: a RuntimeError *)
| Untyped                          (* an outcome the model has no value for *)
| ExternalError.                   (* any other exception of code not under src/ *)

#[export] Instance exn_eq_dec : EqDecision exn.
Proof. solve_decision. Defined.

(** [isinstance(e, ValueError)]. *)
Definition is_value_error (e : exn) : bool :=
  match e with
  | ValueError | BinasciiError | InvalidSignatureFormat | DelegatedAuthError
  | UnicodeDecodeError | JSONDecodeError => true
  | _ => false
  end.

Inductive result (A : Type) : Type :=
| Ok (a : A)
| Err (e : exn).
Arguments Ok {A} a.
Arguments Err {A} e.

#[export] Instance result_ret : MRet result := fun A a => Ok a.
#[export] Instance result_bind : MBind result := fun A B f m =>
  match m with Ok a => f a | Err e => Err e end.
#[export] Instance result_fmap : FMap result := fun A B f m =>
  match m with Ok a => Ok (f a) | Err e => Err e end.

Definition is_Ok {A} (r : result A) : Prop := ∃ a, r = Ok a.

(** [if c: raise e] *)
Definition raise_if (c : bool) (e : exn) : result unit :=
  if c then Err e else Ok tt.

Definition of_option {A} (e : exn) (o : option A) : result A :=
  match o with Some a => Ok a | None => Err e end.

(** [try: m except C: raise e'] where [C] holds of the caught exceptions. *)
Definition rethrow {A} (catches : exn → bool) (e' : exn) (m : result A) : result A :=
  match m with
  | Ok a => Ok a
  | Err e => if catches e then Err e' else Err e
  end.

Lemma bind_Ok_inv {A B} (m : result A) (f : A → result B) b :
  (m ≫= f) = Ok b → ∃ a, m = Ok a ∧ f a = Ok b.
Proof. destruct m; simpl; [eauto | discriminate]. Qed.

Lemma raise_if_Ok c e u : raise_if c e = Ok u ↔ c = false.
Proof. destruct c, u; simpl; split; congruence. Qed.

Lemma raise_if_Err c e e' : raise_if c e = Err e' ↔ c = true ∧ e' = e.
Proof. destruct c; simpl; naive_solver. Qed.

Lemma of_option_Ok {A} e (o : option A) a : of_option e o = Ok a ↔ o = Some a.
Proof. destruct o; simpl; split; congruence. Qed.

Lemma rethrow_Ok {A} c e (m : result A) a : rethrow c e m = Ok a ↔ m = Ok a.
Proof. destruct m; simpl; [done |]. split; [by case_match | done]. Qed.

(** [mapM] in the result monad: a Python list comprehension whose element
    expression may raise. *)
Fixpoint result_mapM {A B} (f : A → result B) (l : list A) : result (list B) :=
  match l with
  | [] => Ok []
  | x :: l' => y ← f x; ys ← result_mapM f l'; Ok (y :: ys)
  end.

(** [for x in l: acc = f(acc, x)] with early exit by exception. *)
Fixpoint result_foldM {A S} (f : S → A → result S) (s : S) (l : list A) : result S :=
  match l with
  | [] => Ok s
  | x :: l' => s' ← f s x; result_foldM f s' l'
  end.

(** Repeatedly open the binds of a hypothesis [_ ≫= _ = Ok _]. *)
Ltac inv_bind H :=
  lazymatch type of H with
  | (_ ≫= _) = Ok _ =>
      let a := fresh "r" in let H1 := fresh "Hr" in
      apply bind_Ok_inv in H as (a & H1 & H); cbv beta in H
  end.
Ltac inv_result :=
  repeat match goal with
  | H : (_ ≫= _) = Ok _ |- _ => inv_bind H
  | H : raise_if _ _ = Ok _ |- _ => apply raise_if_Ok in H
  | H : of_option _ _ = Ok _ |- _ => apply of_option_Ok in H
  | H : rethrow _ _ _ = Ok _ |- _ => apply rethrow_Ok in H
  | H : Ok _ = Ok _ |- _ => injection H as H; subst
  | H : Err _ = Ok _ |- _ => discriminate H
  end.

Lemma result_mapM_Forall2 {A B} (f : A → result B) l ys :
  result_mapM f l = Ok ys ↔ Forall2 (λ x y, f x = Ok y) l ys.
Proof.
  split.
  - revert ys; induction l as [|x l IH]; simpl; intros ys H; inv_result; eauto.
  - induction 1 as [|x y l ys Hx _ IH]; simpl; [done|]. by rewrite Hx; simpl; rewrite IH.
Qed.

Lemma result_mapM_length {A B} (f : A → result B) l ys :
  result_mapM f l = Ok ys → length ys = length l.
Proof. intros H%result_mapM_Forall2. symmetry. by eapply Forall2_length. Qed.

Lemma result_mapM_fmap {A B} (f : A → result B) (g : A → B) l :
  (∀ x, x ∈ l → f x = Ok (g x)) → result_mapM f l = Ok (g <$> l).
Proof.
  induction l as [|x l IH]; intros Hf; simpl; [done|].
  rewrite Hf by set_solver. simpl. rewrite IH; [done | set_solver].
Qed.

Lemma result_foldM_app {A S} (f : S → A → result S) s l1 l2 :
  result_foldM f s (l1 ++ l2) = (s' ← result_foldM f s l1; result_foldM f s' l2).
Proof.
  revert s; induction l1 as [|x l1 IH]; intros s; simpl; [done|].
  destruct (f s x); simpl; [apply IH | done].
Qed.

(** An invariant of the loop body is an invariant of the loop. *)
Lemma result_foldM_inv {A S} (f : S → A → result S) (P : S → Prop) s l s' :
  P s → (∀ s0 x s1, x ∈ l → P s0 → f s0 x = Ok s1 → P s1) →
  result_foldM f s l = Ok s' → P s'.
Proof.
  revert s; induction l as [|x l IH]; intros s Hs Hstep H; simpl in *.
  - by inv_result.
  - inv_result. eapply (IH r); [| |done].
    + eapply Hstep; eauto; set_solver.
    + intros; eapply Hstep; eauto; set_solver.
Qed.

(** ** Python dictionaries

    A [dict] keeps insertion order: assigning an existing key replaces its
    value in place, a new key goes last, and iteration follows that order.
    Modelled as an association list with unique keys ([dict_wf]). *)

Definition dict (K V : Type) : Type := list (K * V).

Section Dict.
Context {K V : Type} `{!EqDecision K}.
Implicit Types (d : dict K V) (k : K) (v : V).

Fixpoint dict_get k d : option V :=
  match d with
  | [] => None
  | (k', v) :: d' => if decide (k = k') then Some v else dict_get k d'
  end.

(** [d[k] = v] *)
Fixpoint dict_set k v d : dict K V :=
  match d with
  | [] => [(k, v)]
  | (k', v') :: d' =>
      if decide (k = k') then (k, v) :: d' else (k', v') :: dict_set k v d'
  end.

(** [d.pop(k, None)] / [del d[k]]: the dictionary without [k]. *)
Fixpoint dict_del k d : dict K V :=
  match d with
  | [] => []
  | (k', v') :: d' => if decide (k = k') then d' else (k', v') :: dict_del k d'
  end.

(** [k in d] *)
Definition dict_mem k d : bool := bool_decide (is_Some (dict_get k d)).

Definition dict_keys d : list K := d.*1.
Definition dict_values d : list V := d.*2.
Definition dict_wf d : Prop := NoDup (dict_keys d).

Lemma dict_get_elem k v d : dict_get k d = Some v → (k, v) ∈ d.
Proof.
  induction d as [|[k' v'] d IH]; simpl; [done|].
  case_decide; intros; simplify_eq; set_solver.
Qed.

Lemma dict_get_None k d : dict_get k d = None ↔ k ∉ dict_keys d.
Proof.
  induction d as [|[k' v'] d IH]; simpl; [set_solver|].
  rewrite elem_of_cons. case_decide as Hk.
  - split; [done|]. intros []. by left.
  - rewrite IH. tauto.
Qed.

Lemma elem_dict_get k v d : dict_wf d → (k, v) ∈ d → dict_get k d = Some v.
Proof.
  unfold dict_wf. induction d as [|[k' v'] d IH]; simpl; [set_solver|].
  intros [Hn Hd]%NoDup_cons Hin. apply elem_of_cons in Hin as [Heq|Hin].
  - simplify_eq. by rewrite decide_True.
  - rewrite decide_False; [auto|]. intros ->. apply Hn.
    apply list_elem_of_fmap. by exists (k', v).
Qed.

Lemma dict_get_set k k' v d :
  dict_get k' (dict_set k v d) = if decide (k = k') then Some v else dict_get k' d.
Proof.
  induction d as [|[k1 v1] d IH]; simpl.
  - repeat case_decide; congruence.
  - repeat (case_decide; simpl); try congruence; rewrite ?IH; repeat case_decide; congruence.
Qed.

Lemma dict_get_set_eq k v d : dict_get k (dict_set k v d) = Some v.
Proof. rewrite dict_get_set. by rewrite decide_True. Qed.

Lemma dict_get_set_ne k k' v d : k ≠ k' → dict_get k' (dict_set k v d) = dict_get k' d.
Proof. intros. rewrite dict_get_set. by rewrite decide_False. Qed.

Lemma dict_keys_set k v d :
  dict_keys (dict_set k v d) = if decide (k ∈ dict_keys d) then dict_keys d
                               else dict_keys d ++ [k].
Proof.
  induction d as [|[k1 v1] d IH]; simpl.
  - done.
  - destruct (decide (k = k1)) as [->|Hk]; simpl.
    + by rewrite decide_True by (apply elem_of_cons; by left).
    + unfold dict_keys in *. simpl. rewrite IH.
      destruct (decide (k ∈ d.*1)) as [Hd|Hd].
      * by rewrite decide_True by (apply elem_of_cons; by right).
      * rewrite decide_False; [done|]. rewrite elem_of_cons. tauto.
Qed.

Lemma dict_wf_set k v d : dict_wf d → dict_wf (dict_set k v d).
Proof.
  unfold dict_wf. rewrite dict_keys_set. case_decide; [done|].
  intros ?. apply NoDup_app; split_and!; [done | set_solver | apply NoDup_singleton].
Qed.

Lemma elem_dict_keys_set k k' v d : k' ∈ dict_keys (dict_set k v d) ↔ k' = k ∨ k' ∈ dict_keys d.
Proof. rewrite dict_keys_set. case_decide; set_solver. Qed.

Lemma dict_get_del k k' d :
  dict_wf d → dict_get k' (dict_del k d) = if decide (k = k') then None else dict_get k' d.
Proof.
  unfold dict_wf. induction d as [|[k1 v1] d IH]; simpl; intros Hwf.
  - by case_decide.
  - apply NoDup_cons in Hwf as [Hn Hwf].
    destruct (decide (k = k1)) as [->|Hk].
    + destruct (decide (k1 = k')) as [->|Hk']; [by apply dict_get_None|].
      by rewrite decide_False.
    + simpl. destruct (decide (k' = k1)) as [->|Hk'].
      * by rewrite decide_False by congruence.
      * by apply IH.
Qed.

Lemma dict_get_del_eq k d : dict_wf d → dict_get k (dict_del k d) = None.
Proof. intros. rewrite dict_get_del by done. by rewrite decide_True. Qed.

Lemma dict_get_del_ne k k' d : dict_wf d → k ≠ k' → dict_get k' (dict_del k d) = dict_get k' d.
Proof. intros. rewrite dict_get_del by done. by rewrite decide_False. Qed.

Lemma dict_del_sublist k d : dict_del k d `sublist_of` d.
Proof.
  induction d as [|[k1 v1] d IH]; simpl; [constructor|].
  case_decide; [by apply sublist_cons | by apply sublist_skip].
Qed.

Lemma elem_dict_del_1 kv k d : kv ∈ dict_del k d → kv ∈ d.
Proof. apply (sublist_subseteq _ _ (dict_del_sublist k d)). Qed.

Lemma dict_wf_del k d : dict_wf d → dict_wf (dict_del k d).
Proof.
  unfold dict_wf. intros Hwf.
  eapply sublist_NoDup; [done|]. apply fmap_sublist, dict_del_sublist.
Qed.

Lemma dict_del_notin k d : k ∉ dict_keys d → dict_del k d = d.
Proof.
  induction d as [|[k1 v1] d IH]; simpl; [done|].
  intros Hn. rewrite decide_False by set_solver. rewrite IH by set_solver. done.
Qed.

Lemma elem_dict_del k k' v d :
  dict_wf d → (k', v) ∈ dict_del k d ↔ k' ≠ k ∧ (k', v) ∈ d.
Proof.
  intros Hwf. split.
  - intros Hin. assert (Hwf' := dict_wf_del k d Hwf).
    apply (elem_dict_get _ _ _ Hwf') in Hin as Hg. rewrite dict_get_del in Hg by done.
    case_decide; [done|]. split; [done|]. by apply dict_get_elem.
  - intros [Hne Hin]. apply dict_get_elem. rewrite dict_get_del_ne by done.
    by apply elem_dict_get.
Qed.

Lemma elem_dict_set k k' v v' d :
  dict_wf d → (k', v') ∈ dict_set k v d ↔ (k' = k ∧ v' = v) ∨ (k' ≠ k ∧ (k', v') ∈ d).
Proof.
  intros Hwf. split.
  - intros Hin%elem_dict_get; [|by apply dict_wf_set]. rewrite dict_get_set in Hin.
    case_decide; simplify_eq; [by left|]. right. split; [done|]. by apply dict_get_elem.
  - intros [[-> ->]|[Hne Hin]]; apply dict_get_elem.
    + apply dict_get_set_eq.
    + rewrite dict_get_set_ne by done. by apply elem_dict_get.
Qed.

Lemma dict_mem_true k d : dict_mem k d = true ↔ k ∈ dict_keys d.
Proof.
  unfold dict_mem. rewrite bool_decide_eq_true.
  destruct (dict_get k d) eqn:E.
  - split; [intros _ | eauto]. apply dict_get_elem in E.
    apply list_elem_of_fmap. by exists (k, v).
  - apply dict_get_None in E. split; [by intros [? ?] | done].
Qed.

Lemma dict_mem_false k d : dict_mem k d = false ↔ dict_get k d = None.
Proof.
  unfold dict_mem. rewrite bool_decide_eq_false. destruct (dict_get k d); naive_solver.
Qed.
End Dict.

(** [{... for ...}] built by successive assignment. *)
Definition dict_of_list {K V} `{!EqDecision K} (l : list (K * V)) : dict K V :=
  fold_left (λ d kv, dict_set kv.1 kv.2 d) l [].

Lemma dict_set_fresh {K V} `{!EqDecision K} (k : K) (v : V) d :
  k ∉ dict_keys d → dict_set k v d = d ++ [(k, v)].
Proof.
  induction d as [|[k1 v1] d IH]; simpl; [done|]. intros Hn.
  rewrite decide_False by set_solver. rewrite IH by set_solver. done.
Qed.

Lemma dict_of_list_NoDup {K V} `{!EqDecision K} (l : list (K * V)) :
  NoDup l.*1 → dict_of_list l = l.
Proof.
  unfold dict_of_list. intros Hnd.
  enough (∀ acc, NoDup (acc ++ l).*1 →
          fold_left (λ d kv, dict_set kv.1 kv.2 d) l acc = acc ++ l) as H by (by apply (H [])).
  clear Hnd. induction l as [|[k v] l IH]; intros acc Hnd; simpl.
  - by rewrite app_nil_r.
  - rewrite dict_set_fresh.
    + rewrite IH; by rewrite <- app_assoc.
    + rewrite fmap_app in Hnd. simpl in Hnd. unfold dict_keys.
      apply NoDup_app in Hnd as (_ & Hd & _). set_solver.
Qed.

(** Two dictionaries with the same entries in another order. *)
Lemma dict_perm_get {K V} `{!EqDecision K} (d1 d2 : dict K V) :
  dict_wf d1 → d1 ≡ₚ d2 → ∀ k, dict_get k d1 = dict_get k d2.
Proof.
  intros Hwf Hp k. assert (dict_wf d2) as Hwf2.
  { unfold dict_wf, dict_keys in *. by rewrite <-(fmap_Permutation fst _ _ Hp). }
  destruct (dict_get k d1) as [v|] eqn:E.
  - symmetry. apply elem_dict_get; [done|]. rewrite <-Hp. by apply dict_get_elem.
  - symmetry. apply dict_get_None. apply dict_get_None in E. unfold dict_keys in *.
    by rewrite <-(fmap_Permutation fst _ _ Hp).
Qed.

Lemma dict_get_perm {K V} `{!EqDecision K} (d1 d2 : dict K V) :
  dict_wf d1 → dict_wf d2 → (∀ k v, dict_get k d1 = Some v ↔ dict_get k d2 = Some v) → d1 ≡ₚ d2.
Proof.
  intros H1 H2 Hg. apply NoDup_Permutation; [by eapply NoDup_fmap_1..|]. intros [k v]. split; intros Hin.
  - by apply dict_get_elem, Hg, elem_dict_get.
  - by apply dict_get_elem, Hg, elem_dict_get.
Qed.

(** Looking every key up gives the values, in order. *)
Lemma dict_get_keys {K V} `{!EqDecision K} (d : dict K V) (default_ : V) :
  dict_wf d → (λ k, default default_ (dict_get k d)) <$> dict_keys d = dict_values d.
Proof.
  intros Hwf. apply list_eq. intros i. unfold dict_keys, dict_values, dict in *.
  rewrite !list_lookup_fmap. destruct (d !! i) as [[k v]|] eqn:Hi; [|done]. simpl.
  by rewrite (elem_dict_get k v d Hwf (list_elem_of_lookup_2 _ _ _ Hi)).
Qed.

Lemma dict_wf_of_list {K V} `{!EqDecision K} (l : list (K * V)) : dict_wf (dict_of_list l).
Proof.
  unfold dict_of_list. assert (dict_wf ([] : dict K V)) as H by constructor.
  revert H. generalize ([] : dict K V). induction l as [|kv l IH]; intros d Hd; simpl; [done|].
  apply IH. by apply dict_wf_set.
Qed.

(** ** [sorted(l, key=...)]

    Python's sort is stable; [le x y] stands for [key(x) <= key(y)]. *)

Section Sort.
Context {A : Type} (le : A → A → bool).

Fixpoint insert_by (x : A) (l : list A) : list A :=
  match l with
  | [] => [x]
  | y :: l' => if le x y then x :: y :: l' else y :: insert_by x l'
  end.

Fixpoint sort_by (l : list A) : list A :=
  match l with
  | [] => []
  | x :: l' => insert_by x (sort_by l')
  end.

Lemma insert_by_perm x l : insert_by x l ≡ₚ x :: l.
Proof.
  induction l as [|y l IH]; simpl; [done|].
  case_match; [done|]. rewrite IH. apply Permutation_swap.
Qed.

Lemma sort_by_perm l : sort_by l ≡ₚ l.
Proof. induction l as [|x l IH]; simpl; [done|]. by rewrite insert_by_perm, IH. Qed.

Lemma sort_by_length l : length (sort_by l) = length l.
Proof. by rewrite sort_by_perm. Qed.

Lemma elem_of_sort_by x l : x ∈ sort_by l ↔ x ∈ l.
Proof. by rewrite sort_by_perm. Qed.

Definition sorted_by (l : list A) : Prop := StronglySorted (λ x y, le x y = true) l.

Lemma insert_by_sorted x l :
  (∀ x y, le x y = true ∨ le y x = true) →
  (∀ x y z, le x y = true → le y z = true → le x z = true) →
  sorted_by l → sorted_by (insert_by x l).
Proof.
  intros Htot Htr. unfold sorted_by. induction 1 as [|y l Hl IH Hy]; simpl.
  - repeat constructor.
  - destruct (le x y) eqn:E.
    + constructor; [by constructor|]. constructor; [done|].
      eapply Forall_impl; [exact Hy|]. simpl. eauto.
    + constructor; [done|]. rewrite insert_by_perm. constructor; [|done].
      destruct (Htot x y); congruence.
Qed.

Lemma sort_by_sorted l :
  (∀ x y, le x y = true ∨ le y x = true) →
  (∀ x y z, le x y = true → le y z = true → le x z = true) →
  sorted_by (sort_by l).
Proof.
  intros Htot Htr. induction l as [|x l IH]; simpl; [constructor|].
  by apply insert_by_sorted.
Qed.

(** A sorted list is left as it is: sorting is idempotent. *)
Lemma sort_by_id l : sorted_by l → sort_by l = l.
Proof.
  unfold sorted_by. induction 1 as [|x l Hl IH Hx]; simpl; [done|].
  rewrite IH. destruct l as [|y l]; simpl; [done|].
  apply Forall_cons in Hx as [-> _]. done.
Qed.

(** When no two distinct elements tie, the sorted list does not depend on the
    input order. *)
Lemma sort_by_unique l1 l2 :
  (∀ x y, le x y = true ∨ le y x = true) →
  (∀ x y z, le x y = true → le y z = true → le x z = true) →
  (∀ x y, x ∈ l1 → y ∈ l1 → le x y = true → le y x = true → x = y) →
  l1 ≡ₚ l2 → sort_by l1 = sort_by l2.
Proof.
  intros Htot Htr Hanti Hp.
  apply (StronglySorted_unique_strong (λ x y, le x y = true)).
  - intros x y Hx Hy. apply Hanti.
    + by apply elem_of_sort_by.
    + rewrite Hp. by apply elem_of_sort_by.
  - by apply sort_by_sorted.
  - by apply sort_by_sorted.
  - by rewrite !sort_by_perm.
Qed.
End Sort.

(** ** Integer sums and small list facts *)

(** [sum(l)] *)
Definition Zsum (l : list Z) : Z := foldr Z.add 0 l.
#[global] Arguments Zsum : simpl never.

Lemma Zsum_app l1 l2 : Zsum (l1 ++ l2) = Zsum l1 + Zsum l2.
Proof. unfold Zsum. induction l1; simpl; lia. Qed.

Lemma Zsum_cons x l : Zsum (x :: l) = x + Zsum l.
Proof. done. Qed.

#[export] Instance Zsum_perm : Proper ((≡ₚ) ==> (=)) Zsum.
Proof. induction 1; rewrite ?Zsum_cons; lia. Qed.

Lemma Zsum_nil : Zsum [] = 0.
Proof. done. Qed.

Lemma Zsum_nonneg l : Forall (λ x, 0 <= x) l → 0 <= Zsum l.
Proof. induction 1; rewrite ?Zsum_cons; [done | lia]. Qed.

Lemma Zsum_elem_le l x : Forall (λ x, 0 <= x) l → x ∈ l → x <= Zsum l.
Proof.
  induction 1 as [|y l Hy Hl IH]; intros Hin; [by apply not_elem_of_nil in Hin|].
  rewrite Zsum_cons. apply Zsum_nonneg in Hl as Hs.
  apply elem_of_cons in Hin as [->|Hin]; [lia|]. specialize (IH Hin). lia.
Qed.

(** A sum over a dictionary's values after [d[k] = v]. *)
Lemma dict_values_set_sum {K V} `{!EqDecision K} (f : V → Z) (k : K) v (d : dict K V) :
  Zsum (f <$> dict_values (dict_set k v d)) =
  Zsum (f <$> dict_values d) + (f v - match dict_get k d with Some v' => f v' | None => 0 end).
Proof.
  unfold dict_values. induction d as [|[k1 v1] d IH]; simpl.
  - rewrite Zsum_cons. unfold Zsum; simpl. lia.
  - case_decide; csimpl; rewrite !Zsum_cons; [lia|]. rewrite IH. lia.
Qed.

(** [enumerate(l)] *)
Definition enumerate_from {A} (n : Z) (l : list A) : list (Z * A) :=
  imap (λ i x, (n + Z.of_nat i, x)) l.
Definition enumerate {A} (l : list A) : list (Z * A) := enumerate_from 0 l.

Lemma enumerate_from_cons {A} n (x : A) l :
  enumerate_from n (x :: l) = (n, x) :: enumerate_from (n + 1) l.
Proof.
  unfold enumerate_from. simpl. f_equal; [f_equal; lia|].
  apply imap_ext. intros i y _. simpl. f_equal. lia.
Qed.

Lemma enumerate_from_snd {A} n (l : list A) : (enumerate_from n l).*2 = l.
Proof.
  revert n; induction l as [|x l IH]; intros n; [done|].
  rewrite enumerate_from_cons. simpl. by rewrite IH.
Qed.

Lemma elem_of_enumerate {A} (l : list A) i x :
  (i, x) ∈ enumerate l ↔ ∃ n : nat, i = Z.of_nat n ∧ l !! n = Some x.
Proof.
  unfold enumerate, enumerate_from. rewrite list_elem_of_lookup.
  setoid_rewrite list_lookup_imap. split.
  - intros [n Hn]. exists n. destruct (l !! n); simplify_eq/=. split; [lia | done].
  - intros (n & -> & Hn). exists n. rewrite Hn. done.
Qed.

Lemma filter_all {A} (P : A → Prop) `{!∀ x, Decision (P x)} (l : list A) :
  Forall P l → filter P l = l.
Proof.
  induction 1 as [|x l Hx _ IH]; [done|].
  rewrite filter_cons_True by done. by rewrite IH.
Qed.

Lemma filter_ext_on {A} (P Q : A → Prop) `{!∀ x, Decision (P x), !∀ x, Decision (Q x)} (l : list A) :
  (∀ x, x ∈ l → P x ↔ Q x) → filter P l = filter Q l.
Proof.
  induction l as [|x l IH]; intros Hpq; [done|]. rewrite !filter_cons.
  rewrite (IH (λ y Hy, Hpq y (list_elem_of_further _ _ _ Hy))). pose proof (Hpq x (list_elem_of_here _ _)).
  repeat case_decide; tauto.
Qed.

(** A function without repeated values on a list is injective on it. *)
Lemma NoDup_fmap_inj_on {A B} (f : A → B) (l : list A) x y :
  NoDup (f <$> l) → x ∈ l → y ∈ l → f x = f y → x = y.
Proof.
  intros Hnd [i Hi]%list_elem_of_lookup [j Hj]%list_elem_of_lookup Heq.
  assert (i = j) as ->; [|congruence].
  apply (NoDup_lookup (f <$> l) i j (f x)); [done | | rewrite Heq]; rewrite list_lookup_fmap; by rewrite ?Hi, ?Hj.
Qed.

(** Membership in a list given by its elements. *)
(** Python sets, as lists: [s.add(k)] and [s | t]. *)
Definition set_add {A} `{!EqDecision A} (k : A) (s : list A) : list A :=
  if bool_decide (k ∈ s) then s else s ++ [k].
Definition set_union {A} `{!EqDecision A} (s t : list A) : list A := foldr set_add s t.

Lemma elem_set_add {A} `{!EqDecision A} (k x : A) s : x ∈ set_add k s ↔ x = k ∨ x ∈ s.
Proof. unfold set_add. case_bool_decide; set_solver. Qed.

Lemma elem_set_union {A} `{!EqDecision A} (x : A) s t : x ∈ set_union s t ↔ x ∈ s ∨ x ∈ t.
Proof.
  unfold set_union. induction t as [|y t IH]; simpl; [set_solver|]. rewrite elem_set_add, IH. set_solver.
Qed.

Ltac in_list := apply list_elem_of_In; simpl; tauto.

(** Bind the length of a list as an integer. *)
Abbreviation zlen l := (Z.of_nat (length l)).

(** [l[a:b]] for [0 <= a] and [0 <= b]. *)
Definition slice {A} (a b : Z) (l : list A) : list A :=
  take (Z.to_nat b - Z.to_nat a) (drop (Z.to_nat a) l).

(** The development's hint databases: facts about dictionaries and results that
    close side conditions. *)
Create HintDb prsm.
Create Rewrite HintDb prsm.
#[export] Hint Resolve dict_wf_set dict_wf_del dict_wf_of_list : prsm.
#[export] Hint Rewrite @dict_get_set_eq @Zsum_app @Zsum_cons @Zsum_nil : prsm.
