(* ===== verification/PyStd.v ===== *)
(** * The Python standard-library operations the modelled code uses

    Bytes, ASCII strings, hexadecimal, decimal [int()], [base64.b64decode] and
    the [hashlib] digests, as executable functions.

    A [str] is modelled by its UTF-8 bytes ([String.string]); the operations
    that depend on the character set ([lower], [strip], [int]) act on ASCII,
    which is what addresses, nonces and hex digests consist of. *)
From Stdlib Require Export Strings.Byte Strings.String Strings.Ascii.
From Stdlib Require Import ZArith Lia DecimalString DecimalZ.
From S2P Require Import Prelude.

#[local] Open Scope Z_scope.

(** ** Bytes *)

Definition bytes : Type := list byte.

#[export] Instance byte_eq_decision : EqDecision byte := Byte.byte_eq_dec.

Definition b2z (b : byte) : Z := Z.of_N (Byte.to_N b).
Definition z2b (z : Z) : byte :=
  match Byte.of_N (Z.to_N (z mod 256)) with Some b => b | None => x00 end.

Lemma b2z_range b : 0 <= b2z b < 256.
Proof. unfold b2z. pose proof (Byte.to_N_bounded b). lia. Qed.

Lemma z2b_b2z b : z2b (b2z b) = b.
Proof.
  unfold z2b. rewrite Z.mod_small by apply b2z_range. unfold b2z.
  by rewrite N2Z.id, Byte.of_to_N.
Qed.

Lemma b2z_z2b z : 0 <= z < 256 → b2z (z2b z) = z.
Proof.
  intros Hz. unfold z2b. rewrite Z.mod_small by done.
  destruct (Byte.of_N (Z.to_N z)) as [b|] eqn:E.
  - apply Byte.to_of_N in E. unfold b2z. lia.
  - pose proof (Byte.to_of_N_option_map (Z.to_N z)) as H. rewrite E in H. simpl in H.
    destruct (N.leb_spec (Z.to_N z) 255); [done | lia].
Qed.

#[export] Instance b2z_inj : Inj (=) (=) b2z.
Proof. intros a b H. by rewrite <-(z2b_b2z a), <-(z2b_b2z b), H. Qed.

#[export] Program Instance byte_countable : Countable byte :=
  inj_countable' b2z z2b _.
Next Obligation. intros. apply z2b_b2z. Qed.

(** [a < b] on [bytes]: lexicographic. *)
Fixpoint bytes_ltb (a b : bytes) : bool :=
  match a, b with
  | _, [] => false
  | [], _ :: _ => true
  | x :: a', y :: b' =>
      if decide (x = y) then bytes_ltb a' b' else b2z x <? b2z y
  end.

Definition bytes_leb (a b : bytes) : bool := negb (bytes_ltb b a).

Lemma bytes_ltb_irrefl a : bytes_ltb a a = false.
Proof. induction a as [|x a IH]; simpl; [done|]. by rewrite decide_True. Qed.

Lemma bytes_ltb_total a b : bytes_ltb a b = true ∨ a = b ∨ bytes_ltb b a = true.
Proof.
  revert b; induction a as [|x a IH]; intros [|y b]; simpl; auto.
  destruct (decide (x = y)) as [->|Hne].
  - rewrite decide_True by done. destruct (IH b) as [?|[->|?]]; auto.
  - rewrite decide_False by done.
    assert (b2z x ≠ b2z y) by (intros ?%(inj b2z); done).
    destruct (Z.lt_ge_cases (b2z x) (b2z y)); [left | right; right]; lia.
Qed.

Lemma bytes_ltb_trans a b c : bytes_ltb a b = true → bytes_ltb b c = true → bytes_ltb a c = true.
Proof.
  revert b c; induction a as [|x a IH]; intros [|y b] [|z c]; simpl; try done.
  repeat case_decide; subst; try done; eauto; intros; try lia.
Qed.

Lemma bytes_leb_total a b : bytes_leb a b = true ∨ bytes_leb b a = true.
Proof.
  unfold bytes_leb. destruct (bytes_ltb b a) eqn:E; [right | by left].
  destruct (bytes_ltb a b) eqn:E'; [|done].
  pose proof (bytes_ltb_trans _ _ _ E E') as H. by rewrite bytes_ltb_irrefl in H.
Qed.

Lemma bytes_leb_antisym a b : bytes_leb a b = true → bytes_leb b a = true → a = b.
Proof.
  unfold bytes_leb. rewrite !negb_true_iff. intros H1 H2.
  destruct (bytes_ltb_total a b) as [?|[?|?]]; congruence.
Qed.

Lemma bytes_leb_trans a b c : bytes_leb a b = true → bytes_leb b c = true → bytes_leb a c = true.
Proof.
  unfold bytes_leb. rewrite !negb_true_iff. intros H1 H2.
  destruct (bytes_ltb c a) eqn:E; [|done].
  destruct (bytes_ltb_total a b) as [Hab|[->|Hab]]; [|congruence|congruence].
  by rewrite (bytes_ltb_trans _ _ _ E Hab) in H2.
Qed.

(** ** Strings *)

(** [s.encode("utf-8")] *)
Definition utf8 (s : string) : bytes := list_byte_of_string s.

Lemma utf8_inj s1 s2 : utf8 s1 = utf8 s2 → s1 = s2.
Proof.
  unfold utf8. intros H. rewrite <-(string_of_list_byte_of_string s1).
  by rewrite H, string_of_list_byte_of_string.
Qed.

(** Python orders strings by code point, which is the order of their UTF-8 bytes. *)
Definition string_leb (a b : string) : bool := bytes_leb (utf8 a) (utf8 b).

Lemma string_leb_total a b : string_leb a b = true ∨ string_leb b a = true.
Proof. apply bytes_leb_total. Qed.

Lemma string_leb_trans a b c : string_leb a b = true → string_leb b c = true → string_leb a c = true.
Proof. apply bytes_leb_trans. Qed.

Lemma string_leb_antisym a b : string_leb a b = true → string_leb b a = true → a = b.
Proof. intros H1 H2. apply utf8_inj. by apply bytes_leb_antisym. Qed.

Fixpoint smap (f : ascii → ascii) (s : string) : string :=
  match s with
  | EmptyString => EmptyString
  | String c s' => String (f c) (smap f s')
  end.

Definition ascii_lower (c : ascii) : ascii :=
  let n := N_of_ascii c in
  if ((65 <=? n) && (n <=? 90))%N then ascii_of_N (n + 32) else c.

(** [s.lower()] *)
Definition lower (s : string) : string := smap ascii_lower s.

Lemma ascii_lower_idemp c : ascii_lower (ascii_lower c) = ascii_lower c.
Proof. destruct c as [[] [] [] [] [] [] [] []]; reflexivity. Qed.

Lemma lower_idemp s : lower (lower s) = lower s.
Proof. induction s as [|c s IH]; unfold lower in *; simpl; [done|]. by rewrite IH, ascii_lower_idemp. Qed.

Definition str_nonempty (s : string) : bool :=
  match s with EmptyString => false | _ => true end.

(** White space as [bytes.fromhex] and as [str.strip] see it. *)
Definition is_space (c : ascii) : bool :=
  let n := N_of_ascii c in ((9 <=? n) && (n <=? 13) || (n =? 32))%N.
Definition is_str_space (c : ascii) : bool :=
  let n := N_of_ascii c in is_space c || ((28 <=? n) && (n <=? 31))%N.

Fixpoint lstrip (s : string) : string :=
  match s with
  | String c s' => if is_str_space c then lstrip s' else s
  | EmptyString => s
  end.
Fixpoint rstrip (s : string) : string :=
  match s with
  | EmptyString => EmptyString
  | String c s' =>
      match rstrip s' with
      | EmptyString => if is_str_space c then EmptyString else String c EmptyString
      | r => String c r
      end
  end.

(** [s.strip()] *)
Definition strip (s : string) : string := rstrip (lstrip s).

(** [s.startswith("0x")] and [s[2:]]. *)
Definition starts_0x (s : string) : bool := String.prefix "0x" s.
Fixpoint sdrop (n : nat) (s : string) : string :=
  match n, s with
  | O, _ => s
  | S n', String _ s' => sdrop n' s'
  | S _, EmptyString => EmptyString
  end.
Fixpoint stake (n : nat) (s : string) : string :=
  match n, s with
  | S n', String c s' => String c (stake n' s')
  | _, _ => EmptyString
  end.

(** ** Hexadecimal *)

Definition hex_digit (z : Z) : ascii :=
  ascii_of_N (Z.to_N (if z <? 10 then 48 + z else 87 + z)).

Definition hex_val (c : ascii) : option Z :=
  let n := Z.of_N (N_of_ascii c) in
  if (48 <=? n) && (n <=? 57) then Some (n - 48)
  else if (97 <=? n) && (n <=? 102) then Some (n - 87)
  else if (65 <=? n) && (n <=? 70) then Some (n - 55)
  else None.

(** [b.hex()] *)
Fixpoint hex (bs : bytes) : string :=
  match bs with
  | [] => EmptyString
  | b :: bs' =>
      String (hex_digit (b2z b / 16)) (String (hex_digit (b2z b mod 16)) (hex bs'))
  end.

(** [bytes.fromhex(s)]: two hex digits per byte, white space between bytes
    ignored; [None] stands for [ValueError]. *)
Fixpoint fromhex (s : string) : option bytes :=
  match s with
  | EmptyString => Some []
  | String c s' =>
      if is_space c then fromhex s'
      else match s' with
           | EmptyString => None
           | String d s'' =>
               h ← hex_val c; l ← hex_val d; r ← fromhex s''; Some (z2b (h * 16 + l) :: r)
           end
  end.

Lemma hex_val_digit z : 0 <= z < 16 → hex_val (hex_digit z) = Some z ∧ is_space (hex_digit z) = false.
Proof.
  intros Hz. assert (Hc : z ∈ ([0;1;2;3;4;5;6;7;8;9;10;11;12;13;14;15] : list Z)).
  { apply list_elem_of_lookup. exists (Z.to_nat z).
    assert (Hn : (Z.to_nat z < 16)%nat) by lia. revert Hz Hn.
    generalize (Z.to_nat z) (Z2Nat.id z). intros n Hid Hz Hn.
    assert (z = Z.of_nat n) as -> by (symmetry; apply Hid; lia).
    do 16 (destruct n as [|n]; [done|]). lia. }
  repeat (apply elem_of_cons in Hc as [->|Hc]; [done|]). by apply not_elem_of_nil in Hc.
Qed.

(** [bytes.fromhex(b.hex()) == b] *)
Lemma fromhex_hex bs : fromhex (hex bs) = Some bs.
Proof.
  induction bs as [|b bs IH]; [done|]. pose proof (b2z_range b) as Hr.
  cbn [hex fromhex].
  destruct (hex_val_digit (b2z b / 16)) as [H1 H2].
  { split; [apply Z.div_pos; lia | apply Z.div_lt_upper_bound; lia]. }
  destruct (hex_val_digit (b2z b mod 16)) as [H3 _]; [apply Z.mod_pos_bound; lia|].
  rewrite H2, H1, H3, IH. simpl. f_equal. f_equal.
  replace (b2z b / 16 * 16 + b2z b mod 16) with (b2z b).
  - apply z2b_b2z.
  - pose proof (Z.div_mod (b2z b) 16). lia.
Qed.

#[export] Instance hex_inj : Inj (=) (=) hex.
Proof. intros a b H. apply (f_equal fromhex) in H. rewrite !fromhex_hex in H. by simplify_eq. Qed.

(** ** Decimal integers *)

(** [str(z)] *)
Definition str_of_int (z : Z) : string := NilZero.string_of_int (Z.to_int z).

(** The body of [int(s)] after the sign: digits with single underscores
    between them. *)
Fixpoint digits_of_str (s : string) (acc : Z) (after_digit : bool) : option Z :=
  match s with
  | EmptyString => if after_digit then Some acc else None
  | String c s' =>
      let n := Z.of_N (N_of_ascii c) in
      if (48 <=? n) && (n <=? 57) then digits_of_str s' (acc * 10 + (n - 48)) true
      else if (n =? 95) && after_digit then digits_of_str s' acc false
      else None
  end.

(** [int(s)] for a [str]: surrounding white space, an optional sign, digits;
    [None] stands for [ValueError]. *)
Definition int_of_str (s : string) : option Z :=
  match strip s with
  | String "-" s' => Z.opp <$> digits_of_str s' 0 false
  | String "+" s' => digits_of_str s' 0 false
  | s' => digits_of_str s' 0 false
  end.

Fixpoint no_space (s : string) : bool :=
  match s with
  | EmptyString => true
  | String c s' => negb (is_str_space c) && no_space s'
  end.

Lemma strip_no_space s : no_space s = true → strip s = s.
Proof.
  intros Hs. unfold strip.
  assert (lstrip s = s) as ->.
  { destruct s as [|c s]; [done|]. simpl in *. apply andb_true_iff in Hs as [Hc _].
    by apply negb_true_iff in Hc as ->. }
  induction s as [|c s IH]; [done|]. simpl in *. apply andb_true_iff in Hs as [Hc Hs].
  rewrite IH by done. apply negb_true_iff in Hc. destruct s; [by rewrite Hc | done].
Qed.

Lemma no_space_uint d : no_space (NilEmpty.string_of_uint d) = true.
Proof. induction d; simpl; auto. Qed.

Lemma digits_of_uint_acc d p :
  digits_of_str (NilEmpty.string_of_uint d) (Z.pos p) true =
  Some (Z.pos (Pos.of_uint_acc d p)).
Proof.
  revert p; induction d; intros p; [reflexivity | ..]; cbn -[Z.add Z.mul Z.sub Pos.mul Pos.add];
    rewrite <-IHd; f_equal; lia.
Qed.

Lemma digits_of_uint d af :
  (d = Decimal.Nil → af = true) →
  digits_of_str (NilEmpty.string_of_uint d) 0 af = Some (Z.of_N (Pos.of_uint d)).
Proof.
  revert af; induction d; intros af Haf; try (exact (digits_of_uint_acc d _)).
  - simpl. by rewrite Haf.
  - apply (IHd true). done.
Qed.

(** [int(str(z)) == z] *)
Lemma int_of_str_of_int z : int_of_str (str_of_int z) = Some z.
Proof.
  unfold int_of_str, str_of_int. destruct z as [|p|p]; [reflexivity | ..]; cbn [Z.to_int].
  - assert (NilZero.string_of_int (Decimal.Pos (Pos.to_uint p)) =
            NilEmpty.string_of_uint (Pos.to_uint p)) as ->.
    { pose proof (DecimalPos.Unsigned.to_uint_nonnil p). simpl.
      by destruct (Pos.to_uint p). }
    rewrite strip_no_space by apply no_space_uint.
    pose proof (digits_of_uint (Pos.to_uint p) false) as H.
    rewrite DecimalPos.Unsigned.of_to in H.
    pose proof (DecimalPos.Unsigned.to_uint_nonnil p) as Hn.
    specialize (H (λ e, False_ind _ (Hn e))). simpl in H. rewrite <-H.
    destruct (Pos.to_uint p); done.
  - assert (NilZero.string_of_int (Decimal.Neg (Pos.to_uint p)) =
            String "-" (NilEmpty.string_of_uint (Pos.to_uint p))) as ->.
    { pose proof (DecimalPos.Unsigned.to_uint_nonnil p). simpl.
      by destruct (Pos.to_uint p). }
    rewrite strip_no_space by (simpl; apply no_space_uint).
    rewrite digits_of_uint.
    + by rewrite DecimalPos.Unsigned.of_to.
    + intros H. by apply DecimalPos.Unsigned.to_uint_nonnil in H.
Qed.

#[export] Instance str_of_int_inj : Inj (=) (=) str_of_int.
Proof.
  intros a b H. apply (f_equal int_of_str) in H. rewrite !int_of_str_of_int in H.
  by simplify_eq.
Qed.

(** [n.to_bytes(len, "big")] and [int.from_bytes(b, "big")]. *)
Fixpoint be_bytes (len : nat) (n : Z) : bytes :=
  match len with
  | O => []
  | S len' => be_bytes len' (n / 256) ++ [z2b n]
  end.
Definition to_bytes_be (len : nat) (n : Z) : result bytes :=
  if (n <? 0) || (2 ^ (8 * Z.of_nat len) <=? n) then Err OverflowError
  else Ok (be_bytes len n).
Definition from_bytes_be (bs : bytes) : Z := fold_left (λ acc b, acc * 256 + b2z b) bs 0.

Lemma be_bytes_length len n : length (be_bytes len n) = len.
Proof. revert n; induction len; intros n; simpl; [done|]. rewrite length_app, IHlen. simpl. lia. Qed.

Lemma from_bytes_be_snoc bs b : from_bytes_be (bs ++ [b]) = from_bytes_be bs * 256 + b2z b.
Proof. unfold from_bytes_be. by rewrite fold_left_app. Qed.

(** [int.from_bytes(n.to_bytes(len, "big"), "big") == n] *)
Lemma from_be_bytes len n :
  0 <= n < 2 ^ (8 * Z.of_nat len) → from_bytes_be (be_bytes len n) = n.
Proof.
  revert n; induction len as [|len IH]; intros n Hn; simpl be_bytes.
  - change (2 ^ (8 * Z.of_nat 0)) with 1 in Hn. unfold from_bytes_be; simpl; lia.
  - replace (8 * Z.of_nat (S len)) with (8 + 8 * Z.of_nat len) in Hn by lia.
    rewrite Z.pow_add_r in Hn by lia. change (2 ^ 8) with 256 in Hn.
    rewrite from_bytes_be_snoc, IH.
    + unfold z2b. destruct (Byte.of_N (Z.to_N (n mod 256))) as [b|] eqn:E.
      * apply Byte.to_of_N in E. unfold b2z. rewrite E.
        pose proof (Z.mod_pos_bound n 256). rewrite Z2N.id by lia.
        pose proof (Z.div_mod n 256). lia.
      * pose proof (Byte.to_of_N_option_map (Z.to_N (n mod 256))) as H.
        pose proof (Z.mod_pos_bound n 256).
        rewrite E in H. simpl in H. destruct (N.leb_spec (Z.to_N (n mod 256)) 255); [done | lia].
    + split; [apply Z.div_pos; lia | apply Z.div_lt_upper_bound; lia].
Qed.

#[global] Arguments be_bytes : simpl never.

(** ** Base64

    [base64.b64decode(s)] in its default, non-validating mode: characters
    outside the alphabet are skipped, decoding stops at a completed padding,
    and a dangling quantum raises [binascii.Error] ([None]). *)
Definition b64_val (c : ascii) : option Z :=
  let n := Z.of_N (N_of_ascii c) in
  if (65 <=? n) && (n <=? 90) then Some (n - 65)
  else if (97 <=? n) && (n <=? 122) then Some (n - 71)
  else if (48 <=? n) && (n <=? 57) then Some (n + 4)
  else if n =? 43 then Some 62
  else if n =? 47 then Some 63
  else None.

(** [quad] is the position in the current group of four, [left] the bits not
    yet emitted, [pads] the '=' seen since the last data character. *)
Fixpoint b64_scan (s : string) (quad left pads : Z) : option bytes :=
  match s with
  | EmptyString => if quad =? 0 then Some [] else None
  | String c s' =>
      if decide (c = "="%char) then
        let pads' := if 2 <=? quad then pads + 1 else pads in
        if (2 <=? quad) && (4 <=? quad + pads') then Some []
        else b64_scan s' quad left pads'
      else match b64_val c with
      | None => b64_scan s' quad left pads
      | Some v =>
          if quad =? 0 then b64_scan s' 1 v 0
          else if quad =? 1 then
            cons (z2b (left * 4 + v / 16)) <$> b64_scan s' 2 (v mod 16) 0
          else if quad =? 2 then
            cons (z2b (left * 16 + v / 4)) <$> b64_scan s' 3 (v mod 4) 0
          else cons (z2b (left * 64 + v)) <$> b64_scan s' 0 0 0
      end
  end.

Definition b64decode (s : string) : option bytes := b64_scan s 0 0 0.

Example b64decode_ex : b64decode "UFJTTQ==" = Some (utf8 "PRSM").
Proof. reflexivity. Qed.

(** ** hashlib: SHA-256 *)

Definition w32 (x : Z) : Z := Z.land x 4294967295.
Definition rotr32 (n x : Z) : Z := Z.lor (Z.shiftr x n) (w32 (Z.shiftl x (32 - n))).

Definition is_prime (n : Z) : bool :=
  forallb (λ d, negb (n `mod` Z.of_nat d =? 0)) (seq 2 (Z.to_nat n - 2)).

Definition first_primes (count : nat) : list Z :=
  take count (List.filter is_prime (Z.of_nat <$> seq 2 320)).

(** The integer cube root of [n], one binary digit at a time from [2^bits]. *)
Fixpoint cube_root (bits : nat) (root n : Z) : Z :=
  let up := root + 2 ^ Z.of_nat bits in
  let root' := if up * up * up <=? n then up else root in
  match bits with O => root' | S bits' => cube_root bits' root' n end.

(** FIPS 180-4: the constants are the first 32 bits of the fractional parts
    of the cube roots of the first 64 primes, and the initial state those of
    the square roots of the first 8. *)
Definition sha256_k : list Z :=
  Eval vm_compute in
    (λ p, cube_root 40 0 (p * 2 ^ 96) `mod` 2 ^ 32) <$> first_primes 64.

Definition sha256_init : list Z :=
  Eval vm_compute in
    (λ p, Z.sqrt (p * 2 ^ 64) `mod` 2 ^ 32) <$> first_primes 8.

Definition sha256_pad (m : bytes) : bytes :=
  m ++ [x80] ++ replicate (Z.to_nat ((55 - zlen m) mod 64)) x00 ++ be_bytes 8 (8 * zlen m).

Fixpoint words32 (fuel : nat) (m : bytes) : list Z :=
  match fuel, m with
  | S fuel', a :: b :: c :: d :: m' => from_bytes_be [a; b; c; d] :: words32 fuel' m'
  | _, _ => []
  end.

(** The message schedule, most recent word first. *)
Fixpoint sha256_schedule (fuel : nat) (w : list Z) : list Z :=
  match fuel with
  | O => w
  | S fuel' =>
      let g i := nth i w 0 in
      let s0 := let x := g 14%nat in
                Z.lxor (Z.lxor (rotr32 7 x) (rotr32 18 x)) (Z.shiftr x 3) in
      let s1 := let x := g 1%nat in
                Z.lxor (Z.lxor (rotr32 17 x) (rotr32 19 x)) (Z.shiftr x 10) in
      sha256_schedule fuel' (w32 (s1 + g 6%nat + s0 + g 15%nat) :: w)
  end.

Definition sha256_round (st : list Z) (kw : Z * Z) : list Z :=
  match st with
  | [a; b; c; d; e; f; g; h] =>
      let s1 := Z.lxor (Z.lxor (rotr32 6 e) (rotr32 11 e)) (rotr32 25 e) in
      let ch := Z.lxor (Z.land e f) (Z.land (Z.lxor e 4294967295) g) in
      let t1 := h + s1 + ch + kw.1 + kw.2 in
      let s0 := Z.lxor (Z.lxor (rotr32 2 a) (rotr32 13 a)) (rotr32 22 a) in
      let mj := Z.lxor (Z.lxor (Z.land a b) (Z.land a c)) (Z.land b c) in
      [w32 (t1 + s0 + mj); a; b; c; w32 (d + t1); e; f; g]
  | _ => st
  end.

Definition sha256_block (st : list Z) (blk : bytes) : list Z :=
  let w := rev (sha256_schedule 48 (rev (words32 16 blk))) in
  zip_with (λ a b, w32 (a + b)) st (fold_left sha256_round (zip sha256_k w) st).

Fixpoint sha256_blocks (fuel : nat) (st : list Z) (m : bytes) : list Z :=
  match fuel, m with
  | S fuel', _ :: _ => sha256_blocks fuel' (sha256_block st (take 64 m)) (drop 64 m)
  | _, _ => st
  end.

(** [hashlib.sha256(m).digest()] *)
Definition sha256 (m : bytes) : bytes :=
  let p := sha256_pad m in
  be_bytes 32 (fold_left (λ acc w, acc * 4294967296 + w)
                 (sha256_blocks (length p) sha256_init p) 0).

Example sha256_abc :
  hex (sha256 (utf8 "abc")) =
  "ba7816bf8f01cfea414140de5dae2223b00361a396177a9cb410ff61f20015ad"%string.
Proof. vm_compute. reflexivity. Qed.

Lemma sha256_length m : length (sha256 m) = 32%nat.
Proof. apply be_bytes_length. Qed.

#[global] Opaque sha256.
#[global] Arguments sha256 : simpl never.

(** [hashlib.sha256(m).hexdigest()] *)
Definition sha256_hex (m : bytes) : string := hex (sha256 m).

(** ** hashlib: SHA3-256 (Keccak-f[1600], rate 136, domain byte [0x06]) *)

Definition w64 (x : Z) : Z := Z.land x 18446744073709551615.
Definition rotl64 (x n : Z) : Z := w64 (Z.lor (Z.shiftl x n) (Z.shiftr x (64 - n))).

Definition keccak_rot : list Z :=
  [0;1;62;28;27; 36;44;6;55;20; 3;10;43;25;39; 41;45;15;21;8; 18;2;61;56;14].

Definition keccak_rc : list Z :=
  [0x0000000000000001;0x0000000000008082;0x800000000000808A;0x8000000080008000;
   0x000000000000808B;0x0000000080000001;0x8000000080008081;0x8000000000008009;
   0x000000000000008A;0x0000000000000088;0x0000000080008009;0x000000008000000A;
   0x000000008000808B;0x800000000000008B;0x8000000000008089;0x8000000000008003;
   0x8000000000008002;0x8000000000000080;0x000000000000800A;0x800000008000000A;
   0x8000000080008081;0x8000000000008080;0x0000000080000001;0x8000000080008008].

Definition keccak_round (a : list Z) (rc : Z) : list Z :=
  let at_ (l : list Z) (x y : nat) := nth (x mod 5 + 5 * (y mod 5))%nat l 0 in
  let col x := Z.lxor (Z.lxor (Z.lxor (Z.lxor (at_ a x 0%nat) (at_ a x 1%nat))
                                             (at_ a x 2%nat)) (at_ a x 3%nat))
                      (at_ a x 4%nat) in
  let cs := col <$> seq 0 5 in
  let ds := (λ x, Z.lxor (nth ((x + 4) mod 5)%nat cs 0)
                         (rotl64 (nth ((x + 1) mod 5)%nat cs 0) 1)) <$> seq 0 5 in
  let a1 := imap (λ i v, Z.lxor v (nth (i mod 5)%nat ds 0)) a in
  let b := (λ i, let x := (i mod 5)%nat in let y := (i / 5)%nat in
                 let sx := ((3 * y + x) mod 5)%nat in
                 rotl64 (at_ a1 sx x) (nth (sx + 5 * x)%nat keccak_rot 0)) <$> seq 0 25 in
  let a2 := imap (λ i v, let x := (i mod 5)%nat in let y := (i / 5)%nat in
                 Z.lxor v (Z.land (Z.lxor (at_ b (x + 1)%nat y) 18446744073709551615)
                                  (at_ b (x + 2)%nat y))) b in
  match a2 with v :: r => Z.lxor v rc :: r | [] => [] end.

Definition from_bytes_le (bs : bytes) : Z := foldr (λ b acc, b2z b + 256 * acc) 0 bs.
Fixpoint le_bytes (len : nat) (n : Z) : bytes :=
  match len with O => [] | S len' => z2b n :: le_bytes len' (n / 256) end.

Fixpoint words64 (fuel : nat) (m : bytes) : list Z :=
  match fuel, m with
  | S fuel', _ :: _ => from_bytes_le (take 8 m) :: words64 fuel' (drop 8 m)
  | _, _ => []
  end.

Definition keccak_absorb (st : list Z) (blk : bytes) : list Z :=
  let ws := words64 17 blk ++ replicate 8 0 in
  fold_left keccak_round keccak_rc (zip_with Z.lxor st ws).

Fixpoint keccak_blocks (fuel : nat) (st : list Z) (m : bytes) : list Z :=
  match fuel, m with
  | S fuel', _ :: _ => keccak_blocks fuel' (keccak_absorb st (take 136 m)) (drop 136 m)
  | _, _ => st
  end.

Definition sha3_pad (m : bytes) : bytes :=
  let r := 136 - (zlen m mod 136) in
  if r =? 1 then m ++ [x86]
  else m ++ [x06] ++ replicate (Z.to_nat (r - 2)) x00 ++ [x80].

(** [hashlib.sha3_256(m).digest()] *)
Definition sha3_256 (m : bytes) : bytes :=
  let p := sha3_pad m in
  let st := keccak_blocks (length p) (replicate 25 0) p in
  le_bytes 8 (nth 0 st 0) ++ le_bytes 8 (nth 1 st 0) ++
  le_bytes 8 (nth 2 st 0) ++ le_bytes 8 (nth 3 st 0).

Example sha3_256_empty :
  hex (sha3_256 []) =
  "a7ffc6f8bf1ed76651c14756a061d662f580ff4de43b49fa82d80a4b80f8434a"%string.
Proof. vm_compute. reflexivity. Qed.

#[global] Opaque sha3_256.

(** ** Order and length facts shared by the components *)

Lemma length_hex bs : String.length (hex bs) = (2 * length bs)%nat.
Proof. induction bs as [|b bs IH]; simpl; [done|]. rewrite IH. lia. Qed.

Lemma string_app_inv_length s1 s2 t1 t2 :
  String.length s1 = String.length s2 → s1 +:+ t1 = s2 +:+ t2 → s1 = s2.
Proof.
  revert s2. induction s1 as [|c s1 IH]; intros [|c2 s2]; simpl; try done.
  intros Hl Heq. injection Hl as Hl. injection Heq as -> Heq. f_equal. by apply IH.
Qed.

Lemma string_length_app s t : String.length (s +:+ t) = (String.length s + String.length t)%nat.
Proof. induction s as [|c s IH]; simpl; [done|]. by rewrite IH. Qed.

Lemma str_app_assoc (s t u : string) : (s +:+ t) +:+ u = s +:+ (t +:+ u).
Proof. induction s as [|c s IH]; [done|]. change (String c ((s +:+ t) +:+ u) = String c (s +:+ (t +:+ u))). by rewrite IH. Qed.

Lemma str_app_nil_r s : s +:+ "" = s.
Proof. induction s as [|c s IH]; [done|]. change (String c (s +:+ "") = String c s). by rewrite IH. Qed.

(** A common suffix can be cancelled. *)
Lemma string_app_inj_r s1 s2 t : s1 +:+ t = s2 +:+ t → s1 = s2.
Proof.
  intros Heq. apply (string_app_inv_length s1 s2 t t); [|done].
  apply (f_equal String.length) in Heq. rewrite !string_length_app in Heq. lia.
Qed.
