(* ===== verification/Externals.v ===== *)
(** * Code outside the repository that the model is parameterised by

    [eth_utils.keccak], [eth_abi.encode], [eth_utils.to_checksum_address] and
    [eth_utils.is_address] are third-party: the definitions that call them take
    them from the class [Externals], and the theorems that rely on their
    documented behaviour say so with the law classes below.  [Toy] is a
    concrete, executable instance that satisfies every law; the witnesses run
    on it. *)
From Stdlib Require Import ZArith Lia.
From S2P Require Import PyStd.
From S2P Require Import Prelude.

(** The static ABI values the code encodes. *)
Inductive abi_value : Type :=
| AbiBytes32 (b : bytes)
| AbiUint (width : Z) (v : Z)
| AbiBool (b : bool)
| AbiAddress (a : string).

Class Externals : Type := {
  (** [eth_utils.keccak(primitive)] *)
  keccak : bytes → bytes;
  (** [eth_abi.encode(types, values)], the types being carried by the values *)
  abi_encode : list abi_value → bytes;
  (** [eth_utils.to_checksum_address(value)]; raises on a non-address *)
  to_checksum_address : string → result string;
  (** [eth_utils.is_address(value)] *)
  is_address : string → bool;
  (** [Ed25519PublicKey.from_public_bytes(key).verify(signature, message)] raises
      nothing; arguments: key, message, signature *)
  ed25519_verify : bytes → bytes → bytes → bool
}.

(** The 20 bytes an address string names. *)
Definition address_bytes (a : string) : option bytes := fromhex (sdrop 2 a).
#[global] Arguments address_bytes : simpl never.

(** Two values of the same ABI type, both encodable. *)
Definition abi_same_type (a b : abi_value) : Prop :=
  match a, b with
  | AbiBytes32 x, AbiBytes32 y => length x = 32%nat ∧ length y = 32%nat
  | AbiUint w v, AbiUint w' v' => w = w' ∧ w <= 256 ∧ 0 <= v < 2 ^ w ∧ 0 <= v' < 2 ^ w
  | AbiBool _, AbiBool _ => True
  | AbiAddress x, AbiAddress y =>
      (∃ b, address_bytes x = Some b ∧ length b = 20%nat) ∧
      (∃ b, address_bytes y = Some b ∧ length b = 20%nat)
  | _, _ => False
  end.

(** The same ABI value: equal, or spellings of one address. *)
Definition abi_equiv (a b : abi_value) : Prop :=
  match a, b with
  | AbiAddress x, AbiAddress y => address_bytes x = address_bytes y
  | _, _ => a = b
  end.

(** keccak-256 digests are 32 bytes long. *)
Class KeccakLaws `{Externals} : Prop :=
  keccak_length : ∀ m, length (keccak m) = 32%nat.

(** ABI encoding of static values: one 32-byte word per value, and injective on
    sequences of values of equal types. *)
Class AbiLaws `{Externals} : Prop := {
  abi_encode_length : ∀ vs, length (abi_encode vs) = (32 * length vs)%nat;
  abi_encode_equiv : ∀ vs ws,
    Forall2 abi_same_type vs ws → abi_encode vs = abi_encode ws → Forall2 abi_equiv vs ws
}.

(** EIP-55: a checksum address is 0x and 40 hex digits, the same address as its
    argument with a canonical case; the case of the argument does not matter. *)
Class ChecksumLaws `{Externals} : Prop := {
  checksum_idemp : ∀ a c, to_checksum_address a = Ok c → to_checksum_address c = Ok c;
  checksum_lower : ∀ a a', lower a = lower a' → to_checksum_address a = to_checksum_address a';
  checksum_hex : ∀ a c, to_checksum_address a = Ok c →
    ∃ b, length b = 20%nat ∧ address_bytes c = Some b ∧ lower c = "0x" +:+ hex b
}.

(** Two checksum addresses of the same 20 bytes are equal. *)
Lemma checksum_inj `{ChecksumLaws} a1 a2 c1 c2 :
  to_checksum_address a1 = Ok c1 → to_checksum_address a2 = Ok c2 →
  address_bytes c1 = address_bytes c2 → c1 = c2.
Proof.
  intros H1 H2 Hb. destruct (checksum_hex _ _ H1) as (b1 & _ & Hb1 & Hl1).
  destruct (checksum_hex _ _ H2) as (b2 & _ & Hb2 & Hl2).
  assert (lower c1 = lower c2) as Hl by congruence.
  apply checksum_idemp in H1, H2. rewrite (checksum_lower _ _ Hl) in H1. congruence.
Qed.

(** keccak is injective on a finite list of inputs: the hypothesis of the
    soundness theorems, and a decision procedure for it. *)
Definition no_collision `{Externals} (inputs : list bytes) : Prop :=
  ∀ x y, x ∈ inputs → y ∈ inputs → keccak x = keccak y → x = y.

Definition no_collision_b `{Externals} (inputs : list bytes) : bool :=
  forallb (λ x, forallb (λ y, bool_decide (x = y) || negb (bool_decide (keccak x = keccak y)))
                        inputs) inputs.

Lemma no_collision_b_correct `{Externals} inputs :
  no_collision_b inputs = true → no_collision inputs.
Proof.
  unfold no_collision_b. intros Hb x y Hx Hy Heq.
  rewrite forallb_forall in Hb. specialize (Hb x). rewrite <-list_elem_of_In in Hb.
  specialize (Hb Hx). rewrite forallb_forall in Hb. specialize (Hb y).
  rewrite <-list_elem_of_In in Hb. specialize (Hb Hy).
  apply orb_true_iff in Hb as [Hb|Hb].
  - by apply bool_decide_eq_true in Hb.
  - apply negb_true_iff, bool_decide_eq_false in Hb. done.
Qed.

(** ** A concrete instance *)

Module Toy.
Fixpoint mix (m : bytes) (acc : Z) : Z :=
  match m with
  | [] => acc
  | b :: m' => mix m' (Z.land (acc * 1099511628211 + b2z b + 1) 18446744073709551615)
  end.
Definition keccak_ (m : bytes) : bytes := be_bytes 32 (mix m 7).

Definition word (bs : bytes) : bytes := take 32 (bs ++ replicate 32 x00).
Definition encode_value (v : abi_value) : bytes :=
  match v with
  | AbiBytes32 b => word b
  | AbiUint _ n => be_bytes 32 n
  | AbiBool b => be_bytes 32 (if b then 1 else 0)
  | AbiAddress a => word (default [] (address_bytes a))
  end.
Definition abi_encode_ (vs : list abi_value) : bytes := flat_map encode_value vs.

Definition is_address_ (s : string) : bool :=
  match address_bytes s with
  | Some b => bool_decide (lower s = "0x" +:+ hex b) && (length b =? 20)%nat
  | None => false
  end.
Definition checksum_ (s : string) : result string :=
  if is_address_ (lower s) then Ok (lower s) else Err ValueError.

#[export] Instance toy : Externals := {|
  keccak := keccak_;
  abi_encode := abi_encode_;
  to_checksum_address := checksum_;
  is_address := is_address_;
  ed25519_verify := λ key msg sig, bool_decide (sig = keccak_ (key ++ msg))
|}.

#[export] Instance toy_keccak : KeccakLaws.
Proof. intros m. apply be_bytes_length. Qed.

Lemma word_length b : length (word b) = 32%nat.
Proof. unfold word. rewrite length_take, length_app, length_replicate. lia. Qed.

Lemma encode_value_length v : length (encode_value v) = 32%nat.
Proof. destruct v; simpl; auto using word_length, be_bytes_length. Qed.

Lemma word_id b : length b = 32%nat → word b = b.
Proof. intros H. unfold word. by rewrite take_app_length'. Qed.

Lemma encode_value_inj v w :
  abi_same_type v w → encode_value v = encode_value w → abi_equiv v w.
Proof.
  destruct v, w; simpl; try done.
  - intros [H1 H2]. rewrite !word_id by done. by intros ->.
  - intros (-> & Hw & Hv & Hv0) Heq. f_equal.
    apply (f_equal from_bytes_be) in Heq.
    assert (2 ^ width0 <= 2 ^ 256).
    { destruct (Z.lt_ge_cases width0 0); [by rewrite Z.pow_neg_r by lia|].
      apply Z.pow_le_mono_r; lia. }
    rewrite !from_be_bytes in Heq by (simpl; lia). done.
  - intros _ Heq. apply (f_equal from_bytes_be) in Heq.
    rewrite !from_be_bytes in Heq by (destruct b, b0; simpl; lia).
    by destruct b, b0.
  - intros [(b1 & H1 & L1) (b2 & H2 & L2)]. rewrite H1, H2. simpl.
    unfold word. rewrite !take_app_ge by lia. rewrite L1, L2.
    intros [-> _]%app_inj_1; [done | lia].
Qed.

#[export] Instance toy_abi : AbiLaws.
Proof.
  split; simpl; unfold abi_encode_.
  - intros vs. induction vs as [|v vs IH]; simpl; [done|].
    rewrite length_app, encode_value_length, IH. lia.
  - intros vs ws H2. induction H2 as [|v w vs ws Hvw H2 IH]; simpl; [done|].
    intros Heq. apply app_inj_1 in Heq as [H1 H3]; [|by rewrite !encode_value_length].
    constructor; [by apply encode_value_inj | by apply IH].
Qed.

#[export] Instance toy_checksum : ChecksumLaws.
Proof.
  split; simpl; unfold checksum_.
  - intros a c. case_match eqn:E; intros [= <-]. by rewrite lower_idemp, E.
  - by intros a a' ->.
  - intros a c. case_match eqn:E; intros [= <-]. unfold is_address_ in E.
    destruct (address_bytes (lower a)) as [b|]; [|done].
    apply andb_true_iff in E as [El%bool_decide_eq_true Eb%Nat.eqb_eq]. by exists b.
Qed.
End Toy.
