(* ===== verification/Receipt.v ===== *)
(** * Receipts: [ShardExecutionReceipt] and [BatchedReceipt]

    Models prsm/compute/shard_receipt.py (the signed receipt, its canonical
    signing payload and the derived settlement job ids), the [BatchedReceipt]
    wrapper of prsm/settlement/accumulator.py and its JSON form in
    prsm/settlement/published_batch_store.py. *)
From Stdlib Require Import ZArith Lia.
From S2P Require Import PyStd.
From S2P Require Import Externals.
From S2P Require Import Prelude.

#[local] Open Scope string_scope.
#[local] Open Scope list_scope.
#[local] Open Scope Z_scope.

(** ** JSON values

    What [json.load] returns.  The typed records below cannot hold a value of
    the wrong JSON type: reading a field at the wrong type is a [TypeError]
    here, where Python would carry the ill-typed value on. *)
#[warnings="-register-all"]
Inductive json : Type :=
| JNull
| JBool (b : bool)
| JInt (z : Z)
| JStr (s : string)
| JArr (l : list json)
| JObj (o : dict string json).

(** [d[key]] *)
Definition jget (key : string) (j : json) : result json :=
  match j with
  | JObj o => of_option KeyError (dict_get key o)
  | _ => Err TypeError
  end.
(** [d.get(key)] *)
Definition jget_opt (key : string) (j : json) : result (option json) :=
  match j with
  | JObj o => Ok (dict_get key o)
  | _ => Err AttributeError
  end.
Definition jstr (j : json) : result string :=
  match j with JStr s => Ok s | _ => Err TypeError end.
Definition jint (j : json) : result Z :=
  match j with JInt z => Ok z | _ => Err TypeError end.
Definition jarr (j : json) : result (list json) :=
  match j with JArr l => Ok l | _ => Err TypeError end.
(** [int(x)] *)
Definition int_of_json (j : json) : result Z :=
  match j with
  | JInt z => Ok z
  | JBool b => Ok (if b then 1 else 0)
  | JStr s => of_option ValueError (int_of_str s)
  | _ => Err TypeError
  end.
(** [bytes.fromhex(x)] *)
Definition fromhex_json (j : json) : result bytes :=
  s ← jstr j; of_option ValueError (fromhex s).

Lemma fromhex_json_hex b : fromhex_json (JStr (hex b)) = Ok b.
Proof. unfold fromhex_json. simpl. by rewrite fromhex_hex. Qed.

Lemma int_of_json_str z : int_of_json (JStr (str_of_int z)) = Ok z.
Proof. simpl. by rewrite int_of_str_of_int. Qed.

#[export] Hint Rewrite fromhex_json_hex int_of_json_str : prsm.

(** ** ShardExecutionReceipt *)

Record ShardExecutionReceipt : Type := {
  job_id : string;
  shard_index : Z;
  provider_id : string;
  provider_pubkey_b64 : string;
  output_hash : string;
  executed_at_unix : Z;
  signature : string;
  tee_attestation : option json
}.

Section Payload.
Context `{Externals}.

(** The text the provider signs, before hashing. *)
Definition receipt_signing_text (job : string) (shard : Z) (out : string) (at_ : Z) : string :=
  job +:+ "||" +:+ str_of_int shard +:+ "||" +:+ out +:+ "||" +:+ str_of_int at_.

Definition build_receipt_signing_payload (job : string) (shard : Z) (out : string) (at_ : Z)
  : bytes := keccak (utf8 (receipt_signing_text job shard out at_)).
End Payload.

(** A non-[str] [request_id] is not representable; [None] stands for it. *)
Definition settlement_job_id (request_id : option string) (streamed : bool) : result string :=
  match request_id with
  | Some r =>
      if negb (str_nonempty r) then Err ValueError
      else Ok ((if streamed then "parallax-stream-job" else "parallax-job") +:+ "-" +:+ r)
  | None => Err ValueError
  end.

Definition per_stage_leaf_job_id (request_id : option string) : result string :=
  settlement_job_id request_id false.

Definition derive_node_id_from_pubkey_b64 (pubkey_b64 : string) : option string :=
  pub ← b64decode pubkey_b64; Some (stake 32 (sha256_hex pub)).

Definition ShardExecutionReceipt_to_dict (r : ShardExecutionReceipt) : json :=
  JObj [("job_id", JStr (job_id r)); ("shard_index", JInt (shard_index r));
        ("provider_id", JStr (provider_id r));
        ("provider_pubkey_b64", JStr (provider_pubkey_b64 r));
        ("output_hash", JStr (output_hash r));
        ("executed_at_unix", JInt (executed_at_unix r));
        ("signature", JStr (signature r));
        ("tee_attestation", match tee_attestation r with Some t => t | None => JNull end)].

Definition ShardExecutionReceipt_from_dict (d : json) : result ShardExecutionReceipt :=
  j ← jget "job_id" d ≫= jstr;
  s ← jget "shard_index" d ≫= jint;
  p ← jget "provider_id" d ≫= jstr;
  k ← jget "provider_pubkey_b64" d ≫= jstr;
  o ← jget "output_hash" d ≫= jstr;
  e ← jget "executed_at_unix" d ≫= jint;
  g ← jget "signature" d ≫= jstr;
  t ← jget_opt "tee_attestation" d;
  Ok {| job_id := j; shard_index := s; provider_id := p; provider_pubkey_b64 := k;
        output_hash := o; executed_at_unix := e; signature := g;
        tee_attestation := match t with Some JNull | None => None | Some v => Some v end |}.

(** A receipt whose attestation, if any, is not the JSON [null]. *)
Definition attestation_ok (r : ShardExecutionReceipt) : Prop := tee_attestation r ≠ Some JNull.

Lemma receipt_dict_roundtrip r :
  attestation_ok r → ShardExecutionReceipt_from_dict (ShardExecutionReceipt_to_dict r) = Ok r.
Proof.
  destruct r as [? ? ? ? ? ? ? [t|]]; unfold attestation_ok; simpl; intros H; [|done].
  by destruct t.
Qed.

#[global] Arguments ShardExecutionReceipt_to_dict : simpl never.
#[global] Arguments ShardExecutionReceipt_from_dict : simpl never.
#[global] Arguments int_of_str : simpl never.
#[global] Arguments str_of_int : simpl never.
#[global] Arguments fromhex : simpl never.
#[global] Arguments hex : simpl never.

(** ** BatchedReceipt *)

Definition zero32 : bytes := replicate 32 x00.

Record BatchedReceipt : Type := {
  receipt : ShardExecutionReceipt;
  requester_address : string;
  provider_address : string;
  value_ftns : Z;
  local_escrow_id : string;
  tier_slash_rate_bps : Z;
  consensus_group_id : bytes
}.

(** [BatchedReceipt.__post_init__]: the constructed object, or the raise. *)
Definition BatchedReceipt_post_init (br : BatchedReceipt) : result BatchedReceipt :=
  _ ← raise_if (negb ((0 <=? tier_slash_rate_bps br) && (tier_slash_rate_bps br <=? 10000)))
               ValueError;
  _ ← raise_if (negb (zlen (consensus_group_id br) =? 32)) ValueError;
  Ok br.

(** What construction guarantees of every [BatchedReceipt]. *)
Definition batched_ok (br : BatchedReceipt) : Prop :=
  0 <= tier_slash_rate_bps br <= 10000 ∧ length (consensus_group_id br) = 32%nat ∧
  attestation_ok (receipt br).

Lemma post_init_Ok br : batched_ok br → BatchedReceipt_post_init br = Ok br.
Proof.
  intros (Ht & Hg & _). unfold BatchedReceipt_post_init. rewrite Hg.
  replace (0 <=? tier_slash_rate_bps br) with true by lia.
  replace (tier_slash_rate_bps br <=? 10000) with true by lia. done.
Qed.

Definition batched_receipt_to_dict (br : BatchedReceipt) : json :=
  JObj [("receipt", ShardExecutionReceipt_to_dict (receipt br));
        ("requester_address", JStr (requester_address br));
        ("provider_address", JStr (provider_address br));
        ("value_ftns", JStr (str_of_int (value_ftns br)));
        ("local_escrow_id", JStr (local_escrow_id br));
        ("tier_slash_rate_bps", JInt (tier_slash_rate_bps br));
        ("consensus_group_id", JStr (hex (consensus_group_id br)))].

Definition batched_receipt_from_dict (d : json) : result BatchedReceipt :=
  r ← jget "receipt" d ≫= ShardExecutionReceipt_from_dict;
  q ← jget "requester_address" d ≫= jstr;
  p ← jget "provider_address" d ≫= jstr;
  v ← jget "value_ftns" d ≫= int_of_json;
  e ← jget "local_escrow_id" d ≫= jstr;
  t ← jget "tier_slash_rate_bps" d ≫= jint;
  g ← jget "consensus_group_id" d ≫= fromhex_json;
  BatchedReceipt_post_init
    {| receipt := r; requester_address := q; provider_address := p; value_ftns := v;
       local_escrow_id := e; tier_slash_rate_bps := t; consensus_group_id := g |}.

Lemma batched_receipt_dict_roundtrip br :
  batched_ok br → batched_receipt_from_dict (batched_receipt_to_dict br) = Ok br.
Proof.
  intros Hok. unfold batched_receipt_from_dict.
  change (jget "receipt" (batched_receipt_to_dict br) ≫= ShardExecutionReceipt_from_dict)
    with (ShardExecutionReceipt_from_dict (ShardExecutionReceipt_to_dict (receipt br))).
  rewrite receipt_dict_roundtrip by apply Hok. simpl. rewrite int_of_str_of_int. simpl.
  rewrite fromhex_json_hex. simpl. rewrite post_init_Ok; destruct br; done.
Qed.

Lemma batched_receipts_roundtrip brs :
  Forall batched_ok brs →
  result_mapM batched_receipt_from_dict (batched_receipt_to_dict <$> brs) = Ok brs.
Proof.
  induction 1 as [|br brs Hbr _ IH]; [done|]. rewrite fmap_cons. simpl.
  rewrite batched_receipt_dict_roundtrip by done. simpl. by rewrite IH.
Qed.

(** ** A concrete receipt, for the witnesses *)

Definition sample_receipt (shard : Z) : ShardExecutionReceipt :=
  {| job_id := "parallax-job-1"; shard_index := shard; provider_id := "node";
     provider_pubkey_b64 := "UFJTTQ=="; output_hash := hex zero32;
     executed_at_unix := 1000; signature := "c2ln"; tee_attestation := None |}.

Definition sample_batched (shard value : Z) (escrow : string) : BatchedReceipt :=
  {| receipt := sample_receipt shard; requester_address := "0xreq";
     provider_address := "0xprov"; value_ftns := value; local_escrow_id := escrow;
     tier_slash_rate_bps := 500; consensus_group_id := zero32 |}.
