(* ===== verification/Attestation.v ===== *)
(** * Receipt verification and the batch attestation commitment

    Models the rest of prsm/compute/shard_receipt.py: Tier-A verification of a
    receipt received as a JSON object ([ReceiptOnlyVerification.verify], with
    [verify_signature] of prsm/node/identity.py) and the on-chain attestation
    commitment of a batch ([batch_attestation_commitment], with the tier order of
    prsm/enterprise/tee_policy.py). *)
From Stdlib Require Import ZArith Lia.
From S2P Require Import PyStd.
From S2P Require Import Externals.
From S2P Require Import Receipt.
From S2P Require Import Prelude.

#[local] Open Scope string_scope.
#[local] Open Scope list_scope.
#[local] Open Scope Z_scope.

(** [bool(x)] *)
Definition truthy (j : json) : bool :=
  match j with
  | JNull => false
  | JBool b => b
  | JInt z => negb (z =? 0)
  | JStr s => str_nonempty s
  | JArr l => match l with [] => false | _ => true end
  | JObj o => match o with [] => false | _ => true end
  end.

(** [d.get(key)], [None] being the JSON null. *)
Definition get_or_null (key : string) (o : dict string json) : json :=
  default JNull (dict_get key o).

(** ** Tier-A verification *)

Section Verify.
Context `{Externals}.
(** [str()] of a list or a dict, met only in a malformed receipt. *)
Variable str_of_container : json → string.

(** f"{x}" *)
Definition format_json (j : json) : string :=
  match j with
  | JNull => "None"
  | JBool b => if b then "True" else "False"
  | JInt z => str_of_int z
  | JStr s => s
  | JArr _ | JObj _ => str_of_container j
  end.

Definition verify_signature (public_key_b64 : json) (data : bytes) (signature_b64 : json) : bool :=
  match public_key_b64, signature_b64 with
  | JStr pk, JStr sg =>
      match b64decode pk, b64decode sg with
      | Some p, Some s => ed25519_verify p data s
      | _, _ => false
      end
  | _, _ => false
  end.

Definition derive_node_id (pubkey_b64 : json) : option string :=
  match pubkey_b64 with JStr s => derive_node_id_from_pubkey_b64 s | _ => None end.

(** [ReceiptOnlyVerification.verify]; [declared == actual] on a field that is
    not a string is [False]. *)
Definition verify_receipt (receipt : dict string json) (output_bytes : bytes)
    (expected_provider_id : option string) : bool :=
  match get_or_null "output_hash" receipt with
  | JStr declared_hash =>
      if negb (bool_decide (declared_hash = sha256_hex output_bytes)) then false
      else
        match dict_get "provider_id" receipt, dict_get "provider_pubkey_b64" receipt,
              dict_get "signature" receipt, dict_get "job_id" receipt,
              dict_get "shard_index" receipt, dict_get "executed_at_unix" receipt with
        | Some provider_id, Some pubkey_b64, Some signature, Some job, Some shard, Some at_ =>
            let payload := keccak (utf8 (format_json job +:+ "||" +:+ format_json shard +:+
                                         "||" +:+ declared_hash +:+ "||" +:+ format_json at_)) in
            match derive_node_id pubkey_b64, provider_id with
            | Some derived, JStr pid =>
                if negb (bool_decide (derived = pid)) then false
                else if match expected_provider_id with
                        | Some e => negb (bool_decide (e = pid)) | None => false end then false
                else verify_signature pubkey_b64 payload signature
            | _, _ => false
            end
        | _, _, _, _, _, _ => false
        end
  | _ => false
  end.

(** A receipt's fields as the wire object [to_dict] builds. *)
Definition wire (r : ShardExecutionReceipt) : dict string json :=
  match ShardExecutionReceipt_to_dict r with JObj o => o | _ => [] end.

(** Tier-A verification accepts exactly the receipts it should.  On the
    wire form of a receipt, [verify] returns [True] iff the declared hash is
    the SHA-256 of the returned bytes, the provider id is the node id of the
    attached public key, it is the expected provider when one is given, and
    the Ed25519 signature is valid under that key over exactly the canonical
    payload of the receipt's job, shard, output hash and time. *)
Theorem verify_exact (r : ShardExecutionReceipt) out expected :
  verify_receipt (wire r) out expected = true ↔
    output_hash r = sha256_hex out ∧
    derive_node_id_from_pubkey_b64 (provider_pubkey_b64 r) = Some (provider_id r) ∧
    (∀ e, expected = Some e → e = provider_id r) ∧
    ∃ key sig, b64decode (provider_pubkey_b64 r) = Some key ∧
      b64decode (signature r) = Some sig ∧
      ed25519_verify key (build_receipt_signing_payload (job_id r) (shard_index r)
                            (output_hash r) (executed_at_unix r)) sig = true.
Proof.
  destruct r as [job shard pid pk oh at_ sg tee].
  unfold verify_receipt, wire, ShardExecutionReceipt_to_dict, build_receipt_signing_payload,
    receipt_signing_text, verify_signature, derive_node_id. simpl.
  destruct (bool_decide_reflect (oh = sha256_hex out)) as [->|Hne]; simpl;
    [|split; [done | by intros []]].
  destruct (derive_node_id_from_pubkey_b64 pk) as [d|]; [|split; [done | by intros (_ & ? & _)]].
  destruct (bool_decide_reflect (d = pid)) as [->|Hd]; simpl;
    [|split; [done | intros (_ & [=] & _); done]].
  assert (match expected with Some e => negb (bool_decide (e = pid)) | None => false end = false
          ↔ ∀ e, expected = Some e → e = pid) as He.
  { destruct expected as [e|]; [|by split].
    destruct (bool_decide_reflect (e = pid)) as [->|]; simpl.
    - split; [by intros _ ? [= ->] | done].
    - split; [done | intros Hx; by specialize (Hx e eq_refl)]. }
  destruct (match expected with Some e => _ | None => false end).
  - split; [done|]. intros (_ & _ & Hx & _). by apply He in Hx.
  - destruct (b64decode pk) as [k|], (b64decode sg) as [s|];
      (split; [| intros (_ & _ & _ & ? & ? & ? & ? & ?); by simplify_eq]).
    + intros Hv. split_and!; [done | done | by apply He | eauto].
    + done.
    + done.
    + done.
Qed.
End Verify.

(** ** The batch attestation commitment *)

(** Ranks in [_TIER_ORDER]. *)
Inductive AttestationTier : Type := NONE | SOFTWARE | HARDWARE_UNVERIFIED | HARDWARE_VERIFIED.

Definition tier_rank (t : AttestationTier) : Z :=
  match t with NONE => 0 | SOFTWARE => 1 | HARDWARE_UNVERIFIED => 2 | HARDWARE_VERIFIED => 3 end.

(** [d.get("tee_type") or ""]; a truthy value of another type than [str] has no
    [lower] method. *)
Definition tee_type_of (o : dict string json) : result string :=
  let v := get_or_null "tee_type" o in
  if truthy v then match v with JStr s => Ok s | _ => Err AttributeError end else Ok "".

Definition attestation_tier_from_audit_dict (d : option json) : result AttestationTier :=
  match d with
  | Some (JObj o) =>
      if negb (truthy (JObj o)) then Ok NONE
      else if truthy (get_or_null "is_dev_only" o) then Ok SOFTWARE
      else
        t ← tee_type_of o;
        let t := lower t in
        if bool_decide (t ∈ ["sgx"; "tdx"; "sev"; "secure_enclave"]) then Ok HARDWARE_UNVERIFIED
        else if bool_decide (t = "software") then Ok SOFTWARE
        else Ok NONE
  | _ => Ok NONE
  end.

(** One [tier_rank, tee_type, is_multi_stage] row. *)
Definition triple : Type := Z * string * bool.

(** Row order of [sorted]: lexicographic, [False < True]. *)
Definition triple_leb (a b : triple) : bool :=
  let '(r1, s1, m1) := a in let '(r2, s2, m2) := b in
  (r1 <? r2) || (r1 =? r2) &&
  (bytes_ltb (utf8 s1) (utf8 s2) || bool_decide (s1 = s2) && implb m1 m2).

Definition attestation_triple (d : option json) : result triple :=
  t ← attestation_tier_from_audit_dict d;
  match d with
  | Some (JObj o) =>
      ty ← tee_type_of o;
      Ok (tier_rank t, ty, truthy (get_or_null "is_multi_stage" o))
  | Some j => if truthy j then Err AttributeError else Ok (tier_rank t, "", false)
  | None => Ok (tier_rank t, "", false)
  end.

(** [json.dumps] of a string: the escapes of the ASCII range; a tee type outside
    ASCII is left as it is (the code only ever writes ASCII names). *)
Definition json_escape_char (c : ascii) : string :=
  match nat_of_ascii c with
  | 34%nat => "\" +:+ String c EmptyString
  | 92%nat => "\\"
  | 10%nat => "\n" | 13%nat => "\r" | 9%nat => "\t" | 8%nat => "\b" | 12%nat => "\f"
  | n => if (n <? 32)%nat
         then "\u00" +:+ hex [z2b (Z.of_nat n)]
         else String c EmptyString
  end.
Fixpoint json_escape (s : string) : string :=
  match s with EmptyString => "" | String c s' => json_escape_char c +:+ json_escape s' end.

Definition quote : string := String (ascii_of_nat 34) EmptyString.

Definition dump_triple (t : triple) : string :=
  let '(r, s, m) := t in
  "[" +:+ str_of_int r +:+ "," +:+ quote +:+ json_escape s +:+ quote +:+ "," +:+
  (if m then "true" else "false") +:+ "]".

Definition dump_triples (l : list triple) : string :=
  "[" +:+ String.concat "," (dump_triple <$> l) +:+ "]".

Section Commitment.
Context `{Externals}.

Definition falsy (d : option json) : bool :=
  match d with Some j => negb (truthy j) | None => true end.

Definition min_list (l : list Z) : Z :=
  match l with [] => 0 | x :: l' => fold_left Z.min l' x end.

Definition commitment_of (triples : list triple) : bytes :=
  let triples := sort_by triple_leb triples in
  let measurement := keccak (utf8 (dump_triples triples)) in
  keccak (abi_encode [AbiUint 8 (min_list ((λ t : triple, t.1.1) <$> triples));
                      AbiBytes32 measurement;
                      AbiBool (forallb (λ t : triple, t.2) triples)]).

Definition batch_attestation_commitment (audit_dicts : list (option json)) : result bytes :=
  if forallb falsy audit_dicts then Ok zero32
  else triples ← result_mapM attestation_triple audit_dicts; Ok (commitment_of triples).
End Commitment.

Lemma triple_leb_total a b : triple_leb a b = true ∨ triple_leb b a = true.
Proof.
  destruct a as [[r1 s1] m1], b as [[r2 s2] m2]. unfold triple_leb.
  destruct (Z.ltb_spec r1 r2); [by left|]. destruct (Z.ltb_spec r2 r1); [by right|].
  assert (r1 = r2) as -> by lia. rewrite Z.eqb_refl. simpl.
  destruct (bytes_ltb_total (utf8 s1) (utf8 s2)) as [-> | [Heq%utf8_inj | ->]]; [by left| |by right].
  subst. rewrite bool_decide_true by done. rewrite bytes_ltb_irrefl. simpl.
  destruct m1, m2; auto.
Qed.

Lemma triple_leb_trans a b c : triple_leb a b = true → triple_leb b c = true → triple_leb a c = true.
Proof.
  destruct a as [[r1 s1] m1], b as [[r2 s2] m2], c as [[r3 s3] m3]. unfold triple_leb.
  destruct (Z.ltb_spec r1 r2), (Z.ltb_spec r2 r3), (Z.ltb_spec r1 r3); simpl; try done; try lia;
    destruct (Z.eqb_spec r1 r2), (Z.eqb_spec r2 r3), (Z.eqb_spec r1 r3); simpl; try done; try lia.
  destruct (bytes_ltb (utf8 s1) (utf8 s2)) eqn:E1, (bytes_ltb (utf8 s2) (utf8 s3)) eqn:E2; simpl;
    intros Ha Hb.
  - by rewrite (bytes_ltb_trans _ _ _ E1 E2).
  - apply andb_true_iff in Hb as [<-%bool_decide_eq_true _]. by rewrite E1.
  - apply andb_true_iff in Ha as [->%bool_decide_eq_true _]. by rewrite E2.
  - apply andb_true_iff in Ha as [->%bool_decide_eq_true Ha].
    apply andb_true_iff in Hb as [->%bool_decide_eq_true Hb].
    rewrite (bool_decide_true (s3 = s3)) by done. apply orb_true_iff. right.
    by destruct m1, m2, m3.
Qed.

Lemma triple_leb_antisym a b : triple_leb a b = true → triple_leb b a = true → a = b.
Proof.
  destruct a as [[r1 s1] m1], b as [[r2 s2] m2]. unfold triple_leb.
  destruct (Z.ltb_spec r1 r2), (Z.ltb_spec r2 r1); simpl; try lia;
    destruct (Z.eqb_spec r1 r2), (Z.eqb_spec r2 r1); simpl; try done; try lia. subst.
  destruct (bytes_ltb (utf8 s1) (utf8 s2)) eqn:E1, (bytes_ltb (utf8 s2) (utf8 s1)) eqn:E2; simpl;
    intros Ha Hb.
  - pose proof (bytes_ltb_trans _ _ _ E1 E2) as Hc. by rewrite bytes_ltb_irrefl in Hc.
  - apply andb_true_iff in Hb as [<-%bool_decide_eq_true _]. by rewrite bytes_ltb_irrefl in E1.
  - apply andb_true_iff in Ha as [->%bool_decide_eq_true _]. by rewrite bytes_ltb_irrefl in E2.
  - apply andb_true_iff in Ha as [->%bool_decide_eq_true Ha].
    apply andb_true_iff in Hb as [_ Hb]. f_equal. by destruct m1, m2.
Qed.

(** The least rank is at most every rank and is one of them. *)
Lemma min_list_spec l : l ≠ [] → min_list l ∈ l ∧ ∀ x, x ∈ l → min_list l <= x.
Proof.
  destruct l as [|x l]; [done|]. intros _. simpl.
  assert (∀ l a, (fold_left Z.min l a = a ∨ fold_left Z.min l a ∈ l) ∧
                 fold_left Z.min l a <= a ∧ ∀ y, y ∈ l → fold_left Z.min l a <= y) as Hg.
  { clear. induction l as [|z l IH]; intros a; simpl.
    - split_and!; [by left | lia | intros y Hy; by apply not_elem_of_nil in Hy].
    - destruct (IH (Z.min a z)) as (Hin & Hle & Hall). split_and!.
      + destruct Hin as [->|Hin]; [|right; by right].
        destruct (Z.min_spec a z) as [[_ ->]|[_ ->]]; [by left | right; by left].
      + lia.
      + intros y [->|Hy]%elem_of_cons; [lia | by apply Hall]. }
  destruct (Hg l x) as ([->|Hin] & Hle & Hall).
  - split; [by left|]. intros y [->|Hy]%elem_of_cons; [lia | by apply Hall].
  - split; [by right|]. intros y [->|Hy]%elem_of_cons; [lia | by apply Hall].
Qed.

#[global] Arguments attestation_triple : simpl never.

(** Mapping over a permutation of a list gives a permutation of the results. *)
Lemma result_mapM_perm {A B} (f : A → result B) l1 l2 ys1 :
  l1 ≡ₚ l2 → result_mapM f l1 = Ok ys1 → ∃ ys2, result_mapM f l2 = Ok ys2 ∧ ys1 ≡ₚ ys2.
Proof.
  intros Hp. revert ys1. induction Hp as [|x l1 l2 _ IH|x y l|l1 l2 l3 _ IH1 _ IH2]; simpl; intros ys1 H.
  - eauto.
  - inv_result. destruct (IH _ Hr0) as (ys2 & -> & Hp). rewrite Hr. simpl.
    eexists. split; [done|]. by rewrite Hp.
  - inv_result. simplify_eq/=. rewrite Hr1, Hr. simpl. rewrite Hr2. simpl. eexists. split; [done|].
    constructor.
  - destruct (IH1 _ H) as (ys2 & H2 & Hp2). destruct (IH2 _ H2) as (ys3 & H3 & Hp3).
    exists ys3. split; [done|]. by rewrite Hp2.
Qed.

Lemma commitment_of_perm `{Externals} ts1 ts2 : ts1 ≡ₚ ts2 → commitment_of ts1 = commitment_of ts2.
Proof.
  intros Hp. unfold commitment_of.
  rewrite (sort_by_unique triple_leb ts1 ts2); [done | | | | done].
  - apply triple_leb_total.
  - apply triple_leb_trans.
  - intros; by apply triple_leb_antisym.
Qed.

(** The attestation commitment is weakest-link and order-independent.  It is
    zero exactly-by-construction when no receipt is attested; otherwise the
    committed tier is the lowest rank over the receipts (0 as soon as one receipt
    has no attestation), the multi-stage bit is set only when it is set for every
    receipt, and any reordering of the receipts gives the same 32 bytes. *)
Theorem attestation_weakest_link `{Externals} ds ds' c :
  batch_attestation_commitment ds = Ok c → ds ≡ₚ ds' →
  batch_attestation_commitment ds' = Ok c ∧
  ((∀ d, d ∈ ds → falsy d = true) → c = zero32) ∧
  ((∃ d, d ∈ ds ∧ falsy d = false) →
   ∃ rows rank multi,
     Forall2 (λ d row, attestation_triple d = Ok row) ds rows ∧
     c = keccak (abi_encode [AbiUint 8 rank;
           AbiBytes32 (keccak (utf8 (dump_triples (sort_by triple_leb rows)))); AbiBool multi]) ∧
     (∃ row, row ∈ rows ∧ row.1.1 = rank) ∧ (∀ row, row ∈ rows → rank <= row.1.1) ∧
     (multi = true ↔ ∀ row, row ∈ rows → row.2 = true) ∧
     (None ∈ ds → rank <= 0)).
Proof.
  unfold batch_attestation_commitment. intros Hc Hp.
  assert (forallb falsy ds = true ↔ ∀ d, d ∈ ds → falsy d = true) as Hall.
  { rewrite forallb_forall. by setoid_rewrite list_elem_of_In. }
  assert (forallb falsy ds' = forallb falsy ds) as Hf.
  { apply eq_true_iff_eq. rewrite Hall, forallb_forall. setoid_rewrite <- list_elem_of_In.
    by setoid_rewrite Hp. }
  rewrite Hf. destruct (forallb falsy ds).
  { injection Hc as <-. split_and!; [done | done |]. intros (d & Hd & Hfd).
    rewrite (proj1 Hall) in Hfd by done. done. }
  inv_result. rename r into rows. destruct (result_mapM_perm _ _ _ _ Hp Hr) as (rows' & -> & Hp').
  simpl. split; [by rewrite (commitment_of_perm _ _ Hp')|].
  split; [intros Hx; apply Hall in Hx; done|]. intros (d & Hd & Hfd).
  apply result_mapM_Forall2 in Hr.
  assert (sort_by triple_leb rows ≡ₚ rows) as Hs by apply sort_by_perm.
  assert ((λ t : triple, t.1.1) <$> sort_by triple_leb rows ≠ []) as Hne.
  { intros E%fmap_nil_inv. rewrite E in Hs. apply Permutation_nil_l in Hs. subst.
    apply Forall2_nil_inv_r in Hr. subst. by apply not_elem_of_nil in Hd. }
  assert (∀ z, z ∈ (λ t : triple, t.1.1) <$> sort_by triple_leb rows ↔
               ∃ row, row ∈ rows ∧ row.1.1 = z) as Hmem.
  { intros z. rewrite list_elem_of_fmap. setoid_rewrite Hs. naive_solver. }
  destruct (min_list_spec _ Hne) as [Hin Hmin]. apply Hmem in Hin.
  eexists rows, _, _. split_and!; [done | done | done | | |].
  - intros row' Hr'. apply Hmin, Hmem. eauto.
  - rewrite forallb_forall. setoid_rewrite <- list_elem_of_In. by setoid_rewrite Hs.
  - intros [i Hi]%list_elem_of_lookup.
    destruct (Forall2_lookup_l _ _ _ _ _ Hr Hi) as (row0 & Hi' & Ht).
    unfold attestation_triple in Ht. simpl in Ht. injection Ht as <-.
    apply (Hmin 0), Hmem. eexists. split; [by eapply list_elem_of_lookup_2|]. done.
Qed.

(** The only exception is the [AttributeError] of a non-string tee type. *)
Lemma commitment_error `{Externals} ds e :
  batch_attestation_commitment ds = Err e → e = AttributeError.
Proof.
  unfold batch_attestation_commitment. destruct (forallb falsy ds); [done|].
  assert (∀ d e, attestation_triple d = Err e → e = AttributeError) as Hone.
  { clear. intros d e.
    assert (∀ o e, tee_type_of o = Err e → e = AttributeError) as Ht.
    { intros o e0. unfold tee_type_of. repeat case_match; simpl; congruence. }
    unfold attestation_triple.
    destruct (attestation_tier_from_audit_dict d) as [t|e1] eqn:E1; simpl.
    - repeat case_match; try congruence.
      destruct (tee_type_of o) eqn:E2; simpl; [done|]. intros [= <-]. eauto.
    - intros [= <-]. unfold attestation_tier_from_audit_dict in E1.
      repeat case_match; try done.
      destruct (tee_type_of o) eqn:E2; simpl in E1; [by repeat case_match|].
      injection E1 as <-. eauto. }
  destruct (result_mapM attestation_triple ds) as [ts|e1] eqn:E; simpl; [done|].
  intros [= <-]. revert E. induction ds as [|d ds IH]; simpl; [done|].
  destruct (attestation_triple d) as [t|e2] eqn:E1; simpl; [|intros [= <-]; eauto].
  destruct (result_mapM attestation_triple ds) as [ts|e2]; simpl; [done|]. intros [= <-]. auto.
Qed.

(** ** Witness *)

Import Toy.

Definition sample_dicts : list (option json) :=
  [Some (JObj [("tee_type", JStr "sgx"); ("is_multi_stage", JBool true)]); None].

Lemma attestation_weakest_link_witness :
  ∃ c, @batch_attestation_commitment Toy.toy sample_dicts = Ok c ∧
       @batch_attestation_commitment Toy.toy (rev sample_dicts) = Ok c.
Proof.
  eexists. split; [vm_compute; reflexivity|].
  apply (attestation_weakest_link sample_dicts (rev sample_dicts)).
  - vm_compute. reflexivity.
  - apply Permutation_rev.
Defined.
