(* ===== verification/Merkle.v ===== *)
(** * The canonical receipt leaf and the settlement Merkle tree

    Models prsm/settlement/merkle.py: the leaf conversion with its bounds
    checks, the ABI leaf hash, and the sorted-pair Merkle tree whose odd nodes
    are promoted.  [verify_complete] and [verify_sound] are the two halves of
    what the on-chain challenge flow relies on. *)
From Stdlib Require Import ZArith Lia.
From S2P Require Import PyStd.
From S2P Require Import Externals.
From S2P Require Import Receipt.
From S2P Require Import Prelude.

#[local] Open Scope string_scope.
#[local] Open Scope list_scope.
#[local] Open Scope Z_scope.

(** ** ReceiptLeaf *)

Definition MAX_UINT32 : Z := 2 ^ 32 - 1.
Definition MAX_UINT64 : Z := 2 ^ 64 - 1.
Definition MAX_UINT128 : Z := 2 ^ 128 - 1.

Record ReceiptLeaf : Type := {
  leaf_job_id_hash : bytes;
  leaf_shard_index : Z;
  leaf_provider_id_hash : bytes;
  leaf_provider_pubkey_hash : bytes;
  leaf_output_hash : bytes;
  leaf_executed_at_unix : Z;
  leaf_value_ftns : Z;
  leaf_signature_hash : bytes;
  leaf_signing_message_hash : bytes
}.

Definition check_bytes32 (value : bytes) : result unit :=
  raise_if (negb (zlen value =? 32)) ValueError.

Definition check_uint (value max_value : Z) : result unit :=
  raise_if ((value <? 0) || (max_value <? value)) ValueError.

(** [ReceiptLeaf.__post_init__] *)
Definition ReceiptLeaf_post_init (l : ReceiptLeaf) : result ReceiptLeaf :=
  _ ← check_bytes32 (leaf_job_id_hash l);
  _ ← check_uint (leaf_shard_index l) MAX_UINT32;
  _ ← check_bytes32 (leaf_provider_id_hash l);
  _ ← check_bytes32 (leaf_provider_pubkey_hash l);
  _ ← check_bytes32 (leaf_output_hash l);
  _ ← check_uint (leaf_executed_at_unix l) MAX_UINT64;
  _ ← check_uint (leaf_value_ftns l) MAX_UINT128;
  _ ← check_bytes32 (leaf_signature_hash l);
  _ ← check_bytes32 (leaf_signing_message_hash l);
  Ok l.

Section Leaf.
Context `{Externals}.

Definition batched_receipt_to_leaf (br : BatchedReceipt) : result ReceiptLeaf :=
  let r := receipt br in
  output_hash_bytes ← of_option ValueError (fromhex (output_hash r));
  _ ← raise_if (negb (zlen output_hash_bytes =? 32)) ValueError;
  let signing_message_hash :=
    keccak (utf8 (receipt_signing_text (job_id r) (shard_index r) (output_hash r)
                    (executed_at_unix r))) in
  pubkey ← of_option BinasciiError (b64decode (provider_pubkey_b64 r));
  sig ← of_option BinasciiError (b64decode (signature r));
  ReceiptLeaf_post_init {|
    leaf_job_id_hash := keccak (utf8 (job_id r));
    leaf_shard_index := shard_index r;
    leaf_provider_id_hash := keccak (utf8 (provider_id r));
    leaf_provider_pubkey_hash := keccak pubkey;
    leaf_output_hash := output_hash_bytes;
    leaf_executed_at_unix := executed_at_unix r;
    leaf_value_ftns := value_ftns br;
    leaf_signature_hash := keccak sig;
    leaf_signing_message_hash := signing_message_hash
  |}.

(** The tuple [encode_leaf] hands to [eth_abi.encode] under
    [_LEAF_SIGNATURE]. *)
Definition leaf_values (l : ReceiptLeaf) : list abi_value :=
  [AbiBytes32 (leaf_job_id_hash l); AbiUint 32 (leaf_shard_index l);
   AbiBytes32 (leaf_provider_id_hash l); AbiBytes32 (leaf_provider_pubkey_hash l);
   AbiBytes32 (leaf_output_hash l); AbiUint 64 (leaf_executed_at_unix l);
   AbiUint 128 (leaf_value_ftns l); AbiBytes32 (leaf_signature_hash l);
   AbiBytes32 (leaf_signing_message_hash l)].

Definition encode_leaf (l : ReceiptLeaf) : bytes := abi_encode (leaf_values l).

Definition hash_leaf (l : ReceiptLeaf) : bytes := keccak (encode_leaf l).

(** ** The tree *)

Definition hash_pair (a b : bytes) : bytes :=
  if bytes_ltb a b then keccak (a ++ b) else keccak (b ++ a).

(** One pass of the [for i in range(0, len(layer), 2)] loop. *)
Fixpoint next_layer (layer : list bytes) : list bytes :=
  match layer with
  | a :: b :: rest => hash_pair a b :: next_layer rest
  | [a] => [a]
  | [] => []
  end.

(** [while len(layer) > 1: layer = next_layer]; each pass shortens the layer,
    so its length is enough fuel. *)
Fixpoint reduce_layers (fuel : nat) (layer : list bytes) : list bytes :=
  match fuel with
  | O => layer
  | S fuel' => if 1 <? zlen layer then reduce_layers fuel' (next_layer layer) else layer
  end.

Definition build_merkle_root (leaf_hashes : list bytes) : result bytes :=
  match leaf_hashes with
  | [] => Err ValueError
  | _ => of_option IndexError (head (reduce_layers (length leaf_hashes) leaf_hashes))
  end.

(** [layer[i]] for a non-negative index. *)
Definition layer_at (layer : list bytes) (i : Z) : result bytes :=
  of_option IndexError (layer !! Z.to_nat i).

(** The sibling recorded for [idx] at one layer. *)
Definition layer_sibling (layer : list bytes) (idx : Z) : result (list bytes) :=
  if idx mod 2 =? 0 then
    if idx + 1 <? zlen layer then s ← layer_at layer (idx + 1); Ok [s] else Ok []
  else s ← layer_at layer (idx - 1); Ok [s].

Fixpoint proof_loop (fuel : nat) (layer : list bytes) (idx : Z) : result (list bytes) :=
  match fuel with
  | O => Ok []
  | S fuel' =>
      if 1 <? zlen layer then
        s ← layer_sibling layer idx;
        rest ← proof_loop fuel' (next_layer layer) (idx / 2);
        Ok (s ++ rest)
      else Ok []
  end.

Definition build_merkle_proof (leaf_hashes : list bytes) (leaf_index : Z)
  : result (list bytes) :=
  _ ← raise_if (bool_decide (leaf_hashes = [])) IndexError;
  _ ← raise_if ((leaf_index <? 0) || (zlen leaf_hashes <=? leaf_index)) IndexError;
  proof_loop (length leaf_hashes) leaf_hashes leaf_index.

Definition verify_merkle_proof (proof : list bytes) (root leaf_hash : bytes) : bool :=
  bool_decide (fold_left hash_pair proof leaf_hash = root).

(** ** MerkleTree *)

Record MerkleTree : Type := {
  tree_root : bytes;
  tree_leaf_hashes : list bytes;
  tree_proofs : dict Z (list bytes)
}.

Definition build_tree_and_proofs (leaf_hashes : list bytes) : result MerkleTree :=
  root ← build_merkle_root leaf_hashes;
  proofs ← result_mapM (λ ix : Z * bytes, p ← build_merkle_proof leaf_hashes ix.1; Ok (ix.1, p))
                       (enumerate leaf_hashes);
  Ok {| tree_root := root; tree_leaf_hashes := leaf_hashes;
        tree_proofs := dict_of_list proofs |}.

Definition tree_proof (t : MerkleTree) (leaf_index : Z) : result (list bytes) :=
  of_option IndexError (dict_get leaf_index (tree_proofs t)).

Definition tree_verify (t : MerkleTree) (leaf_index : Z) (leaf_hash : bytes) : result bool :=
  p ← tree_proof t leaf_index; Ok (verify_merkle_proof p (tree_root t) leaf_hash).

(** ** Lemmas: layers *)

Lemma hash_pair_comm a b : hash_pair a b = hash_pair b a.
Proof.
  unfold hash_pair. destruct (bytes_ltb a b) eqn:E1, (bytes_ltb b a) eqn:E2; try done.
  - pose proof (bytes_ltb_trans _ _ _ E1 E2) as E. by rewrite bytes_ltb_irrefl in E.
  - destruct (bytes_ltb_total a b) as [?|[->|?]]; congruence.
Qed.

(** Induction two elements at a time. *)
Lemma pairs_ind (P : list bytes → Prop) :
  P [] → (∀ a, P [a]) → (∀ a b l, P l → P (a :: b :: l)) → ∀ l, P l.
Proof.
  intros H0 H1 H2 l. enough (P l ∧ ∀ a, P (a :: l)) by tauto.
  induction l as [|b l [IH1 IH2]]; split; eauto.
Qed.

Lemma next_layer_length l : length (next_layer l) = ((length l + 1) / 2)%nat.
Proof.
  induction l using pairs_ind; simpl length in *; [done|done|].
  rewrite IHl. replace (S (S (length l)) + 1)%nat with (1 * 2 + (length l + 1))%nat by lia.
  rewrite Nat.div_add_l; lia.
Qed.

Lemma next_layer_lookup l i :
  next_layer l !! i =
  a ← l !! (2 * i)%nat;
  Some (match l !! (2 * i + 1)%nat with Some b => hash_pair a b | None => a end).
Proof.
  revert i; induction l using pairs_ind; intros i.
  - done.
  - destruct i as [|i]; [done|]. simpl. by rewrite lookup_nil.
  - destruct i as [|i]; [done|].
    replace (2 * S i)%nat with (S (S (2 * i))) by lia. cbn [next_layer].
    change (S (S (2 * i)) + 1)%nat with (S (S (2 * i + 1))). simpl lookup at 1.
    rewrite IHl. done.
Qed.

Lemma layer_gt1 (l : list bytes) : (1 <? zlen l) = true ↔ (1 < length l)%nat.
Proof. rewrite Z.ltb_lt. lia. Qed.

Lemma half_lt n : (1 < n → (n + 1) / 2 < n)%nat.
Proof. intros. apply Nat.Div0.div_lt_upper_bound. lia. Qed.

Lemma half_pos n : (0 < n → 0 < (n + 1) / 2)%nat.
Proof. intros. apply Nat.div_str_pos. lia. Qed.

(** The loop ends on a single node: the length is enough fuel. *)
Lemma reduce_layers_single fuel l :
  (0 < length l)%nat → (length l <= fuel)%nat → ∃ r, reduce_layers fuel l = [r].
Proof.
  revert l; induction fuel as [|fuel IH]; intros l H0 Hf; simpl; [lia|].
  destruct (1 <? zlen l) eqn:E.
  - apply layer_gt1 in E. pose proof (half_lt _ E).
    apply IH; rewrite next_layer_length; [apply half_pos|]; lia.
  - apply Z.ltb_ge in E. destruct l as [|r [|? ?]]; simpl in *; [lia | eauto | lia].
Qed.

Lemma build_merkle_root_Ok ls :
  ls ≠ [] → ∃ root, build_merkle_root ls = Ok root ∧ reduce_layers (length ls) ls = [root].
Proof.
  intros Hne. destruct (reduce_layers_single (length ls) ls) as [r Hr].
  - destruct ls; [done | simpl; lia].
  - done.
  - exists r. split; [|done]. unfold build_merkle_root. rewrite Hr. by destruct ls.
Qed.

(** ** Lemmas: proofs *)

(** What one recorded sibling does to the running hash: it moves from
    position [i] of a layer to position [i/2] of the next. *)
Lemma layer_sibling_fold l (i : nat) h :
  l !! i = Some h →
  ∃ s, layer_sibling l (Z.of_nat i) = Ok s ∧ (length s <= 1)%nat ∧
       next_layer l !! (i / 2)%nat = Some (fold_left hash_pair s h).
Proof.
  intros Hi. pose proof (lookup_lt_Some _ _ _ Hi) as Hlt.
  unfold layer_sibling, layer_at.
  pose proof (Nat.div_mod_eq i 2) as Hdm. pose proof (Nat.mod_upper_bound i 2) as Hm.
  change 2 with (Z.of_nat 2) at 1. rewrite <-Nat2Z.inj_mod.
  rewrite next_layer_lookup. destruct (Z.eqb_spec (Z.of_nat (i mod 2)) 0) as [E|E].
  - assert (i = 2 * (i / 2))%nat as Hev by lia. rewrite <-Hev, Hi. simpl.
    replace (Z.to_nat (Z.of_nat i + 1)) with (i + 1)%nat by lia.
    destruct (Z.ltb_spec (Z.of_nat i + 1) (zlen l)) as [Hb|Hb].
    + destruct (lookup_lt_is_Some_2 l (i + 1)) as [b Hb']; [lia|].
      rewrite Hb'. simpl. exists [b]. simpl. auto.
    + rewrite lookup_ge_None_2 by lia. exists []. simpl. auto.
  - assert (i = 2 * (i / 2) + 1)%nat as Hod by lia. rewrite <-Hod, Hi.
    replace (Z.to_nat (Z.of_nat i - 1)) with (2 * (i / 2))%nat by lia.
    destruct (lookup_lt_is_Some_2 l (2 * (i / 2))) as [a Ha]; [lia|].
    rewrite Ha. simpl. exists [a]. simpl. by rewrite hash_pair_comm.
Qed.

Lemma proof_loop_complete fuel l (i : nat) h :
  (length l <= fuel)%nat → l !! i = Some h →
  ∃ p, proof_loop fuel l (Z.of_nat i) = Ok p ∧
       head (reduce_layers fuel l) = Some (fold_left hash_pair p h) ∧
       (∀ k, length l <= 2 ^ k → length p <= k)%nat.
Proof.
  revert l i h; induction fuel as [|fuel IH]; intros l i h Hf Hi;
    pose proof (lookup_lt_Some _ _ _ Hi) as Hlt; simpl; [lia|].
  destruct (1 <? zlen l) eqn:E.
  - apply layer_gt1 in E. pose proof (half_lt _ E).
    destruct (layer_sibling_fold l i h Hi) as (s & -> & Hs & Hn). simpl.
    change 2 with (Z.of_nat 2) at 1. rewrite <-Nat2Z.inj_div.
    destruct (IH (next_layer l) (i / 2)%nat (fold_left hash_pair s h)) as (p & -> & Hp & Hlen);
      [rewrite next_layer_length; lia | done|].
    simpl. exists (s ++ p). split_and!; [done | by rewrite fold_left_app |].
    intros [|k] Hk; [simpl in Hk; lia|]. rewrite Nat.pow_succ_r' in Hk.
    rewrite length_app. rewrite next_layer_length in Hlen.
    enough (length p <= k)%nat by lia. apply Hlen.
    apply Nat.lt_succ_r, Nat.Div0.div_lt_upper_bound. lia.
  - apply Z.ltb_ge in E. destruct l as [|r [|? ?]]; simpl in *; [lia | | lia].
    destruct i; [|lia]. simplify_eq/=. exists []. simpl. split_and!; [done | done | intros; lia].
Qed.

(** Everything [build_merkle_proof] promises, in one lemma. *)
Lemma build_merkle_proof_spec ls (i : nat) h :
  ls !! i = Some h →
  ∃ proof root,
    build_merkle_proof ls (Z.of_nat i) = Ok proof ∧ build_merkle_root ls = Ok root ∧
    verify_merkle_proof proof root h = true ∧
    (∀ k, length ls <= 2 ^ k → length proof <= k)%nat.
Proof.
  intros Hi. assert (ls ≠ []) as Hne by by intros ->.
  pose proof (lookup_lt_Some _ _ _ Hi) as Hlt.
  destruct (build_merkle_root_Ok ls Hne) as (root & Hroot & Hred).
  destruct (proof_loop_complete (length ls) ls i h) as (p & Hp & Hh & Hlen); [done | done|].
  rewrite Hred in Hh. simplify_eq/=.
  exists p, (fold_left hash_pair p h). split_and!; [|done| |done].
  - unfold build_merkle_proof. rewrite bool_decide_false by done. simpl.
    replace ((Z.of_nat i <? 0) || (zlen ls <=? Z.of_nat i)) with false by lia. done.
  - unfold verify_merkle_proof. by apply bool_decide_eq_true.
Qed.

Lemma build_merkle_proof_range ls i :
  is_Ok (build_merkle_proof ls i) → 0 <= i < zlen ls.
Proof.
  unfold build_merkle_proof. intros [p Hp]. inv_result.
  destruct (Z.ltb_spec i 0), (Z.leb_spec (zlen ls) i); simpl in *; try done; lia.
Qed.

(** ** Lemmas: soundness *)

(** The preimages hashed by one pass over a layer, and by all passes. *)
Definition pair_input (a b : bytes) : bytes := if bytes_ltb a b then a ++ b else b ++ a.
Fixpoint layer_inputs (layer : list bytes) : list bytes :=
  match layer with
  | a :: b :: rest => pair_input a b :: layer_inputs rest
  | _ => []
  end.
Fixpoint tree_inputs (fuel : nat) (layer : list bytes) : list bytes :=
  match fuel with
  | O => []
  | S fuel' => if 1 <? zlen layer then layer_inputs layer ++ tree_inputs fuel' (next_layer layer)
               else []
  end.
(** The preimages hashed while folding a proof. *)
Fixpoint fold_inputs (proof : list bytes) (h : bytes) : list bytes :=
  match proof with
  | [] => []
  | s :: proof' => pair_input h s :: fold_inputs proof' (hash_pair h s)
  end.

Lemma hash_pair_input a b : hash_pair a b = keccak (pair_input a b).
Proof. unfold hash_pair, pair_input. by case_match. Qed.

Lemma pair_input_length a b : length (pair_input a b) = (length a + length b)%nat.
Proof. unfold pair_input. case_match; rewrite length_app; lia. Qed.

(** Two 32-byte halves determine the pair up to order. *)
Lemma pair_input_inv a b c d :
  length a = 32%nat → length b = 32%nat → length c = 32%nat →
  pair_input c d = pair_input a b → c = a ∨ c = b.
Proof.
  intros Ha Hb Hc Heq. pose proof (pair_input_length c d) as Hl.
  rewrite Heq, pair_input_length in Hl.
  unfold pair_input in Heq.
  repeat case_match; apply app_inj_1 in Heq as [? ?]; naive_solver lia.
Qed.

Lemma fold_inputs_snoc p s h :
  fold_inputs (p ++ [s]) h = fold_inputs p h ++ [pair_input (fold_left hash_pair p h) s].
Proof. revert h; induction p as [|x p IH]; intros h; simpl; [done|]. by rewrite IH. Qed.

Lemma elem_next_layer l x :
  x ∈ next_layer l →
  x ∈ l ∨ ∃ a b, a ∈ l ∧ b ∈ l ∧ x = hash_pair a b ∧ pair_input a b ∈ layer_inputs l.
Proof.
  induction l as [|a|a b l IH] using pairs_ind; simpl; [tauto|tauto|].
  intros [->|Hx]%elem_of_cons.
  - right. exists a, b. rewrite !elem_of_cons. auto.
  - destruct (IH Hx) as [?|(c & d & ? & ? & ? & ?)]; [left|right]; rewrite ?elem_of_cons; [auto|].
    exists c, d. rewrite !elem_of_cons. auto.
Qed.
End Leaf.

Section Soundness.
Context `{KeccakLaws}.
Variable S : bytes → Prop.
Hypothesis S_inj : ∀ x y, S x → S y → keccak x = keccak y → x = y.

(** [h] is the hash of a preimage that is not a pair of digests. *)
Definition leaf_hash_of (e h : bytes) : Prop := h = keccak e ∧ S e ∧ length e ≠ 64%nat.

Lemma fold_hash_length e h p :
  leaf_hash_of e h → length (fold_left hash_pair p h) = 32%nat.
Proof.
  intros (-> & _ & _). destruct p as [|s p] using rev_ind.
  - apply keccak_length.
  - rewrite fold_left_app. simpl. rewrite hash_pair_input. apply keccak_length.
Qed.

Lemma fold_step_down e h p l :
  leaf_hash_of e h → Forall S (fold_inputs p h) → Forall S (layer_inputs l) →
  Forall (λ x, length x = 32%nat) l →
  fold_left hash_pair p h ∈ next_layer l →
  ∃ p', p' `prefix_of` p ∧ fold_left hash_pair p' h ∈ l.
Proof.
  intros He Hp Hl H32 Hin.
  apply elem_next_layer in Hin as [Hin|(a & b & Ha & Hb & Heq & Hi)]; [by exists p|].
  rewrite Forall_forall in Hl, H32. rewrite hash_pair_input in Heq.
  destruct p as [|s q _] using rev_ind; simpl in Heq.
  - destruct He as (-> & He & Hlen). apply S_inj in Heq; [|done|by apply Hl].
    rewrite Heq, pair_input_length, !H32 in Hlen by done. done.
  - rewrite fold_left_app in Heq. simpl in Heq. rewrite hash_pair_input in Heq.
    rewrite fold_inputs_snoc in Hp. apply Forall_app in Hp as [_ Hp].
    rewrite Forall_singleton in Hp. apply S_inj in Heq; [|done|by apply Hl].
    exists q. split; [by apply prefix_app_r|].
    apply pair_input_inv in Heq as [->| ->]; eauto using fold_hash_length.
Qed.

Lemma next_layer_32 l :
  Forall (λ x, length x = 32%nat) l → Forall (λ x, length x = 32%nat) (next_layer l).
Proof.
  intros H32. apply Forall_forall. intros x Hx.
  apply elem_next_layer in Hx as [Hx|(a & b & _ & _ & -> & _)].
  - rewrite Forall_forall in H32. auto.
  - rewrite hash_pair_input. apply keccak_length.
Qed.

Lemma fold_inputs_prefix p' p h :
  p' `prefix_of` p → Forall S (fold_inputs p h) → Forall S (fold_inputs p' h).
Proof.
  intros [k ->]. revert h. induction p' as [|x p' IH]; intros h; simpl; [constructor|].
  intros [? ?]%Forall_cons. constructor; auto.
Qed.

Lemma reduce_layers_down fuel e h p l :
  leaf_hash_of e h → Forall S (fold_inputs p h) → Forall S (tree_inputs fuel l) →
  Forall (λ x, length x = 32%nat) l →
  fold_left hash_pair p h ∈ reduce_layers fuel l →
  ∃ p', p' `prefix_of` p ∧ fold_left hash_pair p' h ∈ l.
Proof.
  revert l; induction fuel as [|fuel IH]; intros l He Hp Hl H32 Hin; simpl in *; [by exists p|].
  destruct (1 <? zlen l); [|by exists p]. apply Forall_app in Hl as [Hl Hl'].
  destruct (IH (next_layer l)) as (p1 & Hp1 & Hin1); auto using next_layer_32.
  destruct (fold_step_down e h p1 l) as (p2 & Hp2 & Hin2); eauto using fold_inputs_prefix.
  exists p2. split; [by etrans | done].
Qed.

(** A proof of 32-byte siblings accepted against the root of [l0] places its
    leaf in [l0]. *)
Lemma fold_sound fuel e h p l0 :
  leaf_hash_of e h → Forall S (fold_inputs p h) → Forall S (tree_inputs fuel l0) →
  Forall (λ x, ∃ e', leaf_hash_of e' x) l0 → Forall (λ x, length x = 32%nat) p →
  fold_left hash_pair p h ∈ reduce_layers fuel l0 → h ∈ l0.
Proof.
  intros He Hp Hl Hleaf H32 Hin.
  destruct (reduce_layers_down fuel e h p l0) as (p' & Hp' & Hin'); auto.
  { eapply Forall_impl; [exact Hleaf|]. intros x (e' & -> & _). apply keccak_length. }
  destruct p' as [|s q _] using rev_ind; [done|]. exfalso.
  rewrite fold_left_app in Hin'. simpl in Hin'. rewrite hash_pair_input in Hin'.
  rewrite Forall_forall in Hleaf. destruct (Hleaf _ Hin') as (e' & Heq & He' & Hlen).
  apply (fold_inputs_prefix _ _ _ Hp') in Hp. rewrite fold_inputs_snoc in Hp.
  apply Forall_app in Hp as [_ Hp]. rewrite Forall_singleton in Hp.
  apply S_inj in Heq; [|done|done]. apply Hlen. rewrite <-Heq, pair_input_length.
  rewrite (fold_hash_length e) by done. destruct Hp' as [k ->].
  rewrite !Forall_app, Forall_singleton in H32. destruct H32 as [[_ H32] _]. lia.
Qed.
End Soundness.

(** ** Lemmas: leaves *)

Section LeafFacts.
Context `{Externals}.

Definition leaf_ok (l : ReceiptLeaf) : Prop := ReceiptLeaf_post_init l = Ok l.

Lemma check_bytes32_Ok b u : check_bytes32 b = Ok u → length b = 32%nat.
Proof.
  intros Hc. apply raise_if_Ok in Hc. apply negb_false_iff, Z.eqb_eq in Hc. lia.
Qed.

Lemma check_uint_Ok v m u : check_uint v m = Ok u → 0 <= v <= m.
Proof. intros Hc. apply raise_if_Ok in Hc. apply orb_false_iff in Hc as [? ?]. lia. Qed.

(** The bounds a constructed leaf satisfies. *)
Lemma leaf_ok_bounds l :
  leaf_ok l →
  0 <= leaf_shard_index l < 2 ^ 32 ∧ 0 <= leaf_executed_at_unix l < 2 ^ 64 ∧
  0 <= leaf_value_ftns l < 2 ^ 128 ∧
  Forall (λ b, length b = 32%nat)
    [leaf_job_id_hash l; leaf_provider_id_hash l; leaf_provider_pubkey_hash l;
     leaf_output_hash l; leaf_signature_hash l; leaf_signing_message_hash l].
Proof.
  unfold leaf_ok, ReceiptLeaf_post_init. intros Hl. inv_result.
  repeat match goal with
  | Hc : check_bytes32 _ = _ |- _ => apply check_bytes32_Ok in Hc
  | Hc : check_uint _ _ = _ |- _ =>
      apply check_uint_Ok in Hc; unfold MAX_UINT32, MAX_UINT64, MAX_UINT128 in Hc
  end.
  split_and!; try lia. repeat constructor; done.
Qed.

Lemma post_init_leaf_ok l l' : ReceiptLeaf_post_init l = Ok l' → l' = l ∧ leaf_ok l'.
Proof.
  intros Hl. assert (l' = l) as ->; [|done].
  unfold ReceiptLeaf_post_init in Hl. by inv_result.
Qed.

Lemma batched_receipt_to_leaf_ok br l : batched_receipt_to_leaf br = Ok l → leaf_ok l.
Proof. unfold batched_receipt_to_leaf. intros Hl. inv_result. by eapply post_init_leaf_ok. Qed.
End LeafFacts.

Lemma leaf_values_inj `{AbiLaws} l1 l2 :
  leaf_ok l1 → leaf_ok l2 → encode_leaf l1 = encode_leaf l2 → l1 = l2.
Proof.
  intros H1%leaf_ok_bounds H2%leaf_ok_bounds Heq.
  destruct H1 as (? & ? & ? & F1), H2 as (? & ? & ? & F2).
  repeat apply Forall_cons in F1 as [? F1]. repeat apply Forall_cons in F2 as [? F2].
  apply abi_encode_equiv in Heq.
  - unfold leaf_values in Heq. repeat apply Forall2_cons in Heq as [? Heq].
    destruct l1, l2; simpl in *; by simplify_eq.
  - unfold leaf_values. repeat constructor; simpl; try done; lia.
Qed.

Lemma encode_leaf_length `{AbiLaws} l : length (encode_leaf l) = 288%nat.
Proof. unfold encode_leaf. by rewrite abi_encode_length. Qed.

(** ** Properties *)

(** The byte strings that building the tree over [ls] and checking [proof] for
    [l] feed to keccak. *)
Definition hashed_inputs `{Externals} (ls : list ReceiptLeaf) (proof : list bytes)
    (l : ReceiptLeaf) : list bytes :=
  encode_leaf l :: (encode_leaf <$> ls) ++
  tree_inputs (length ls) (hash_leaf <$> ls) ++ fold_inputs proof (hash_leaf l).

(** Completeness of the settlement Merkle tree: for every non-empty list of
    leaf hashes and every index in range, [build_merkle_proof] returns a proof,
    [build_merkle_root] returns a root, and [verify_merkle_proof] accepts the
    leaf at that index; the proof has at most ceil(log2 n) siblings. *)
Theorem verify_complete `{Externals} ls i h :
  0 <= i → ls !! Z.to_nat i = Some h →
  ∃ proof root,
    build_merkle_proof ls i = Ok proof ∧ build_merkle_root ls = Ok root ∧
    verify_merkle_proof proof root h = true ∧
    (∀ k, length ls <= 2 ^ k → length proof <= k)%nat.
Proof.
  intros Hi Hh. rewrite <-(Z2Nat.id i) by done. by apply build_merkle_proof_spec.
Qed.

(** C8 Soundness of the settlement Merkle tree: if keccak has no collision among
    the byte strings actually hashed, a proof of 32-byte siblings that
    [verify_merkle_proof] accepts for a receipt leaf against the root committed
    for [ls] exists only for a leaf of [ls].  No proof, of any length, makes a
    leaf that was not committed verify: an internal node cannot pass for a leaf
    because a leaf preimage is 288 bytes and a pair preimage 64. *)
Theorem verify_sound `{KeccakLaws, !AbiLaws} ls l proof root :
  Forall leaf_ok ls → leaf_ok l → Forall (λ s, length s = 32%nat) proof →
  no_collision (hashed_inputs ls proof l) →
  build_merkle_root (hash_leaf <$> ls) = Ok root →
  verify_merkle_proof proof root (hash_leaf l) = true → l ∈ ls.
Proof.
  intros Hls Hl H32 Hinj Hroot Hv.
  apply bool_decide_eq_true in Hv.
  destruct (build_merkle_root_Ok (hash_leaf <$> ls)) as (r & Hr & Hred).
  { by intros Hnil; rewrite Hnil in Hroot. }
  rewrite Hroot in Hr. simplify_eq. rewrite length_fmap in Hred.
  assert (hash_leaf l ∈ hash_leaf <$> ls) as Hin.
  { eapply (fold_sound (λ x, x ∈ hashed_inputs ls proof l) Hinj (length ls) (encode_leaf l)).
    - split_and!; [done | by left | by rewrite encode_leaf_length].
    - apply Forall_forall. intros x Hx. unfold hashed_inputs. set_solver.
    - apply Forall_forall. intros x Hx. unfold hashed_inputs. set_solver.
    - apply Forall_forall. intros x (l' & -> & Hl')%list_elem_of_fmap.
      exists (encode_leaf l'). split_and!; [done | unfold hashed_inputs; set_solver |].
      by rewrite encode_leaf_length.
    - done.
    - rewrite Hred. by left. }
  apply list_elem_of_fmap in Hin as (l' & Heq & Hl').
  unfold hash_leaf in Heq. apply Hinj in Heq; [|by left|unfold hashed_inputs; set_solver].
  apply leaf_values_inj in Heq as ->; [done | done |].
  rewrite Forall_forall in Hls. auto.
Qed.

(** The byte strings hashed to build the leaf of a receipt and its hash. *)
Definition leaf_inputs `{Externals} (br : BatchedReceipt) (l : ReceiptLeaf) : list bytes :=
  [encode_leaf l; utf8 (job_id (receipt br)); utf8 (provider_id (receipt br));
   default [] (b64decode (provider_pubkey_b64 (receipt br)));
   default [] (b64decode (signature (receipt br)))].

Lemma batched_receipt_to_leaf_inv `{Externals} br l :
  batched_receipt_to_leaf br = Ok l →
  let r := receipt br in
  ∃ out pub sig,
    fromhex (output_hash r) = Some out ∧ b64decode (provider_pubkey_b64 r) = Some pub ∧
    b64decode (signature r) = Some sig ∧ leaf_ok l ∧
    l = {| leaf_job_id_hash := keccak (utf8 (job_id r)); leaf_shard_index := shard_index r;
           leaf_provider_id_hash := keccak (utf8 (provider_id r));
           leaf_provider_pubkey_hash := keccak pub; leaf_output_hash := out;
           leaf_executed_at_unix := executed_at_unix r; leaf_value_ftns := value_ftns br;
           leaf_signature_hash := keccak sig;
           leaf_signing_message_hash :=
             build_receipt_signing_payload (job_id r) (shard_index r) (output_hash r)
               (executed_at_unix r) |}.
Proof.
  unfold batched_receipt_to_leaf. intros Hl. inv_result.
  match goal with Hp : ReceiptLeaf_post_init _ = Ok _ |- _ =>
    apply post_init_leaf_ok in Hp as [-> Hok] end.
  eexists _, _, _. split_and!; eauto.
Qed.

(** Binding of the leaf hash: two receipts with the same leaf hash are the
    same work.  If keccak has no collision among the strings hashed for the two
    leaves, equal leaf hashes mean equal job id, shard index, provider id,
    output digest, execution time, value, public key and signature bytes, so a
    duplicated leaf is a duplicated receipt. *)
Theorem leaf_binding `{KeccakLaws, !AbiLaws} b1 b2 l1 l2 :
  batched_receipt_to_leaf b1 = Ok l1 → batched_receipt_to_leaf b2 = Ok l2 →
  no_collision (leaf_inputs b1 l1 ++ leaf_inputs b2 l2) →
  hash_leaf l1 = hash_leaf l2 →
  job_id (receipt b1) = job_id (receipt b2) ∧
  shard_index (receipt b1) = shard_index (receipt b2) ∧
  provider_id (receipt b1) = provider_id (receipt b2) ∧
  fromhex (output_hash (receipt b1)) = fromhex (output_hash (receipt b2)) ∧
  executed_at_unix (receipt b1) = executed_at_unix (receipt b2) ∧
  value_ftns b1 = value_ftns b2 ∧
  b64decode (provider_pubkey_b64 (receipt b1)) = b64decode (provider_pubkey_b64 (receipt b2)) ∧
  b64decode (signature (receipt b1)) = b64decode (signature (receipt b2)).
Proof.
  intros Hl1 Hl2 Hinj Heq.
  destruct (batched_receipt_to_leaf_inv _ _ Hl1) as (o1 & p1 & s1 & Ho1 & Hp1 & Hs1 & K1 & E1).
  destruct (batched_receipt_to_leaf_inv _ _ Hl2) as (o2 & p2 & s2 & Ho2 & Hp2 & Hs2 & K2 & E2).
  unfold leaf_inputs in Hinj. rewrite Hp1, Hp2, Hs1, Hs2 in Hinj. simpl in Hinj.
  assert (l1 = l2) as El.
  { apply leaf_values_inj; [done..|]. apply Hinj; [in_list..|exact Heq]. }
  rewrite El in E1. rewrite E1 in E2. injection E2 as Hj Hsi Hpr Hpu Ho Ht Hv Hsg _.
  apply Hinj in Hj; [|in_list..]. apply Hinj in Hpr; [|in_list..].
  apply Hinj in Hpu; [|in_list..]. apply Hinj in Hsg; [|in_list..].
  apply utf8_inj in Hj. apply utf8_inj in Hpr.
  rewrite Ho1, Ho2, Hp1, Hp2, Hs1, Hs2. split_and!; congruence.
Qed.

(** When conversion succeeds: [batched_receipt_to_leaf] returns a leaf
    exactly when the output hash is 32 hex bytes, the key and the signature are
    base64 and the integers fit uint32, uint64 and uint128; every other receipt
    raises before anything is hashed into a tree. *)
Theorem leaf_conversion_exact `{KeccakLaws} br :
  is_Ok (batched_receipt_to_leaf br) ↔
  (∃ out, fromhex (output_hash (receipt br)) = Some out ∧ length out = 32%nat) ∧
  is_Some (b64decode (provider_pubkey_b64 (receipt br))) ∧
  is_Some (b64decode (signature (receipt br))) ∧
  0 <= shard_index (receipt br) < 2 ^ 32 ∧ 0 <= executed_at_unix (receipt br) < 2 ^ 64 ∧
  0 <= value_ftns br < 2 ^ 128.
Proof.
  split.
  - intros [l Hl]. destruct (batched_receipt_to_leaf_inv _ _ Hl)
      as (o & p & s & Ho & Hp & Hs & Hok & ->).
    apply leaf_ok_bounds in Hok as (? & ? & ? & F). simpl in *.
    repeat apply Forall_cons in F as [? F]. eauto 10.
  - intros ((o & Ho & Hlo) & [p Hp] & [s Hs] & Hi & He & Hv).
    unfold batched_receipt_to_leaf. rewrite Ho, Hp, Hs. simpl. rewrite Hlo. simpl.
    unfold ReceiptLeaf_post_init, check_bytes32, check_uint, MAX_UINT32, MAX_UINT64, MAX_UINT128.
    simpl. rewrite !keccak_length, Hlo.
    replace ((shard_index (receipt br) <? 0) || (2 ^ 32 - 1 <? shard_index (receipt br)))
      with false by lia.
    replace ((executed_at_unix (receipt br) <? 0) || (2 ^ 64 - 1 <? executed_at_unix (receipt br)))
      with false by lia.
    replace ((value_ftns br <? 0) || (2 ^ 128 - 1 <? value_ftns br)) with false by lia.
    by eexists.
Qed.

Lemma build_tree_ok `{Externals} ls :
  ls ≠ [] →
  ∃ t, build_tree_and_proofs ls = Ok t ∧ build_merkle_root ls = Ok (tree_root t) ∧
       tree_leaf_hashes t = ls ∧
       ∀ i, (∀ h, 0 <= i → ls !! Z.to_nat i = Some h →
               ∃ p, build_merkle_proof ls i = Ok p ∧ dict_get i (tree_proofs t) = Some p) ∧
            (¬ 0 <= i < zlen ls → dict_get i (tree_proofs t) = None).
Proof.
  intros Hne. destruct (build_merkle_root_Ok ls Hne) as (root & Hroot & _).
  unfold build_tree_and_proofs. rewrite Hroot. simpl.
  set (f := λ ix : Z * bytes, p ← build_merkle_proof ls ix.1; Ok (ix.1, p)).
  set (g := λ ix : Z * bytes,
              (ix.1, match build_merkle_proof ls ix.1 with Ok p => p | Err _ => [] end)).
  assert (∀ x, x ∈ enumerate ls → f x = Ok (g x)) as Hfg.
  { intros [i h] (n & -> & Hn)%elem_of_enumerate. unfold f, g. simpl.
    destruct (build_merkle_proof_spec ls n h Hn) as (p & _ & -> & _). done. }
  rewrite (result_mapM_fmap f g) by done. simpl. eexists. split; [done|]. simpl.
  assert (∀ l : list (Z * bytes), (g <$> l).*1 = l.*1) as Hg1.
  { intros l. induction l; [done|]. rewrite !fmap_cons. by f_equal. }
  assert (NoDup (enumerate ls).*1) as Hnd.
  { unfold enumerate, enumerate_from. rewrite fmap_imap. apply NoDup_alt.
    intros i j x. rewrite !list_lookup_imap.
    destruct (ls !! i), (ls !! j); simpl; intros; simplify_eq/=; lia. }
  assert (dict_wf (g <$> enumerate ls)) as Hwf by (unfold dict_wf, dict_keys; by rewrite Hg1).
  rewrite dict_of_list_NoDup by done. split_and!; [done | done |].
  intros i. split.
  - intros h Hi Hh.
    destruct (build_merkle_proof_spec ls (Z.to_nat i) h Hh) as (p & _ & Hp & _).
    rewrite Z2Nat.id in Hp by done. exists p. split; [done|].
    apply elem_dict_get; [done|]. apply list_elem_of_fmap. exists (i, h). unfold g; simpl.
    rewrite Hp. split; [done|]. apply elem_of_enumerate. exists (Z.to_nat i). split; [lia|done].
  - intros Hi. apply dict_get_None. unfold dict_keys. rewrite Hg1.
    intros ([j h] & -> & Hin)%list_elem_of_fmap.
    apply elem_of_enumerate in Hin as (n & -> & Hn). apply lookup_lt_Some in Hn. simpl in Hi. lia.
Qed.

(** The precomputed tree answers for all its leaves: [build_tree_and_proofs]
    succeeds on a non-empty list with the root [build_merkle_root] computes,
    [MerkleTree.verify] accepts every leaf at its own index, and an index
    outside the tree raises [IndexError]. *)
Theorem tree_self_check `{Externals} ls :
  ls ≠ [] →
  ∃ t, build_tree_and_proofs ls = Ok t ∧ build_merkle_root ls = Ok (tree_root t) ∧
    (∀ i h, 0 <= i → ls !! Z.to_nat i = Some h → tree_verify t i h = Ok true) ∧
    (∀ i h, ¬ 0 <= i < zlen ls → tree_verify t i h = Err IndexError).
Proof.
  intros Hne. destruct (build_tree_ok ls Hne) as (t & Ht & Hroot & _ & Hall).
  exists t. split_and!; [done | done | |]; intros i h; unfold tree_verify, tree_proof.
  - intros Hi Hh. destruct (Hall i) as [Hin _]. destruct (Hin h Hi Hh) as (p & Hp & ->).
    destruct (build_merkle_proof_spec ls (Z.to_nat i) h Hh) as (p' & r & Hp' & Hr & Hv & _).
    rewrite Z2Nat.id in Hp' by done. rewrite Hp in Hp'. rewrite Hroot in Hr.
    injection Hp' as ->. injection Hr as ->. simpl. by rewrite Hv.
  - intros Hi. destruct (Hall i) as [_ Hout]. by rewrite Hout.
Qed.

(** ** Witnesses *)

Import Toy.

Definition sample_leaf (shard : Z) : ReceiptLeaf :=
  match @batched_receipt_to_leaf Toy.toy (sample_batched shard 10 "e") with
  | Ok l => l
  | Err _ => {| leaf_job_id_hash := []; leaf_shard_index := 0; leaf_provider_id_hash := [];
                leaf_provider_pubkey_hash := []; leaf_output_hash := [];
                leaf_executed_at_unix := 0; leaf_value_ftns := 0;
                leaf_signature_hash := []; leaf_signing_message_hash := [] |}
  end.

Definition sample_root : bytes :=
  match @build_merkle_root Toy.toy (@hash_leaf Toy.toy <$> [sample_leaf 0; sample_leaf 1]) with
  | Ok r => r | Err _ => [] end.

Lemma verify_complete_witness :
  ∃ proof root,
    @build_merkle_proof Toy.toy [sample_root; zero32; sample_root] 1 = Ok proof ∧
    @build_merkle_root Toy.toy [sample_root; zero32; sample_root] = Ok root ∧
    @verify_merkle_proof Toy.toy proof root zero32 = true ∧
    (∀ k, 3 <= 2 ^ k → length proof <= k)%nat.
Proof.
  apply (@verify_complete Toy.toy [sample_root; zero32; sample_root] 1 zero32); [lia | reflexivity].
Defined.

Lemma verify_sound_witness :
  sample_leaf 1 ∈ [sample_leaf 0; sample_leaf 1].
Proof.
  apply (@verify_sound Toy.toy _ _ [sample_leaf 0; sample_leaf 1] (sample_leaf 1)
           [@hash_leaf Toy.toy (sample_leaf 0)] sample_root).
  - repeat constructor; vm_compute; reflexivity.
  - vm_compute. reflexivity.
  - repeat constructor; vm_compute; reflexivity.
  - apply no_collision_b_correct. vm_compute. reflexivity.
  - vm_compute. reflexivity.
  - vm_compute. reflexivity.
Defined.

Lemma leaf_binding_witness :
  job_id (sample_receipt 3) = job_id (sample_receipt 3) ∧ shard_index (sample_receipt 3) = 3.
Proof.
  destruct (@leaf_binding Toy.toy _ _ (sample_batched 3 10 "e") (sample_batched 3 10 "f")
              (sample_leaf 3) (sample_leaf 3)) as (Hj & Hs & _).
  - vm_compute. reflexivity.
  - vm_compute. reflexivity.
  - apply no_collision_b_correct. vm_compute. reflexivity.
  - reflexivity.
  - split; [exact Hj | exact Hs].
Defined.

Lemma leaf_conversion_exact_witness : is_Ok (@batched_receipt_to_leaf Toy.toy (sample_batched 3 10 "e")).
Proof.
  apply (@leaf_conversion_exact Toy.toy _ (sample_batched 3 10 "e")).
  split; [exists zero32; split; vm_compute; reflexivity|].
  split; [vm_compute; eexists; reflexivity|].
  split; [vm_compute; eexists; reflexivity|]. repeat split; vm_compute; congruence.
Defined.

Lemma tree_self_check_witness :
  ∃ t, @build_tree_and_proofs Toy.toy [zero32; sample_root; zero32] = Ok t ∧
       @build_merkle_root Toy.toy [zero32; sample_root; zero32] = Ok (tree_root t) ∧
       (∀ i h, 0 <= i → [zero32; sample_root; zero32] !! Z.to_nat i = Some h →
               @tree_verify Toy.toy t i h = Ok true) ∧
       (∀ i h, ¬ 0 <= i < 3 → @tree_verify Toy.toy t i h = Err IndexError).
Proof. apply (@tree_self_check Toy.toy [zero32; sample_root; zero32]). discriminate. Defined.
