(* ===== verification/Accumulator.v ===== *)
(** * ReceiptAccumulator: queues of receipts awaiting a batch commit

    Models prsm/settlement/accumulator.py: [PendingBatch], [ReadyBatch],
    [AccumulatorConfig] and every operation of [ReceiptAccumulator].  The
    accumulator is a value passed and returned; [time.time()] is the [now]
    argument.  The wrapper [BatchedReceipt] of the same source file is in
    Receipt.v. *)
From Stdlib Require Import ZArith Lia.
From S2P Require Import PyStd.
From S2P Require Import Receipt.
From S2P Require Import Prelude.

#[local] Open Scope string_scope.
#[local] Open Scope list_scope.
#[local] Open Scope Z_scope.

(** ** Data *)

Inductive TriggerReason : Type := COUNT | TIME | VALUE.

#[export] Instance TriggerReason_eq_dec : EqDecision TriggerReason.
Proof. solve_decision. Defined.

Record PendingBatch : Type := {
  batch_receipts : list BatchedReceipt;
  batch_started_at_unix : Z;
  batch_total_value_ftns : Z;
  batch_tier_slash_rate_bps : Z;
  batch_consensus_group_id : bytes;
  batch_seen_escrow_ids : gset string
}.

(** [PendingBatch()] *)
Definition PendingBatch_empty : PendingBatch :=
  {| batch_receipts := []; batch_started_at_unix := 0; batch_total_value_ftns := 0;
     batch_tier_slash_rate_bps := 0; batch_consensus_group_id := zero32;
     batch_seen_escrow_ids := ∅ |}.

Definition batch_count (b : PendingBatch) : Z := zlen (batch_receipts b).

Definition batch_is_empty (b : PendingBatch) : bool :=
  match batch_receipts b with [] => true | _ => false end.

(** [PendingBatch.append] *)
Definition batch_append (b : PendingBatch) (br : BatchedReceipt) (at_unix : Z)
  : result PendingBatch :=
  if str_nonempty (local_escrow_id br) &&
     bool_decide (local_escrow_id br ∈ batch_seen_escrow_ids b)
  then Ok b
  else
    b' ← (if batch_is_empty b
          then Ok {| batch_receipts := batch_receipts b; batch_started_at_unix := at_unix;
                     batch_total_value_ftns := batch_total_value_ftns b;
                     batch_tier_slash_rate_bps := tier_slash_rate_bps br;
                     batch_consensus_group_id := consensus_group_id br;
                     batch_seen_escrow_ids := batch_seen_escrow_ids b |}
          else
            _ ← raise_if (negb (tier_slash_rate_bps br =? batch_tier_slash_rate_bps b)) ValueError;
            _ ← raise_if (bool_decide (consensus_group_id br ≠ batch_consensus_group_id b))
                         ValueError;
            Ok b);
    Ok {| batch_receipts := batch_receipts b' ++ [br];
          batch_started_at_unix := batch_started_at_unix b';
          batch_total_value_ftns := batch_total_value_ftns b' + value_ftns br;
          batch_tier_slash_rate_bps := batch_tier_slash_rate_bps b';
          batch_consensus_group_id := batch_consensus_group_id b';
          batch_seen_escrow_ids :=
            if str_nonempty (local_escrow_id br)
            then {[ local_escrow_id br ]} ∪ batch_seen_escrow_ids b'
            else batch_seen_escrow_ids b' |}.

(** (requester, provider, group_id, slash_rate_bps) *)
Definition AccumulatorKey : Type := string * string * bytes * Z.

#[export] Instance AccumulatorKey_eq_dec : EqDecision AccumulatorKey.
Proof. unfold AccumulatorKey. apply _. Defined.

Record ReadyBatch : Type := {
  ready_key : AccumulatorKey;
  ready_batch : PendingBatch;
  ready_trigger : TriggerReason
}.

Record AccumulatorConfig : Type := {
  count_threshold : Z;
  time_threshold_seconds : Z;
  value_threshold_ftns : Z
}.

Definition AccumulatorConfig_default : AccumulatorConfig :=
  {| count_threshold := 1000; time_threshold_seconds := 3600;
     value_threshold_ftns := 100 * 10 ^ 18 |}.

Definition AccumulatorConfig_post_init (c : AccumulatorConfig) : result AccumulatorConfig :=
  _ ← raise_if (count_threshold c <=? 0) ValueError;
  _ ← raise_if (time_threshold_seconds c <=? 0) ValueError;
  _ ← raise_if (value_threshold_ftns c <=? 0) ValueError;
  Ok c.

Record ReceiptAccumulator : Type := {
  acc_config : AccumulatorConfig;
  acc_pending : dict AccumulatorKey PendingBatch
}.

Definition set_pending (a : ReceiptAccumulator) (p : dict AccumulatorKey PendingBatch)
  : ReceiptAccumulator := {| acc_config := acc_config a; acc_pending := p |}.

(** ** Operations *)

Definition receipt_key (br : BatchedReceipt) : AccumulatorKey :=
  (requester_address br, provider_address br, consensus_group_id br, tier_slash_rate_bps br).

(** [add]: [setdefault] has already run when [append] raises, so the new
    accumulator is returned beside the outcome. *)
Definition acc_add (a : ReceiptAccumulator) (br : BatchedReceipt) (now : Z)
  : ReceiptAccumulator * result unit :=
  let key := receipt_key br in
  let batch := default PendingBatch_empty (dict_get key (acc_pending a)) in
  match batch_append batch br now with
  | Ok batch' => (set_pending a (dict_set key batch' (acc_pending a)), Ok tt)
  | Err e => (set_pending a (dict_set key batch (acc_pending a)), Err e)
  end.

Definition check_triggers (c : AccumulatorConfig) (b : PendingBatch) (now : Z)
  : option TriggerReason :=
  if batch_is_empty b then None
  else if count_threshold c <=? batch_count b then Some COUNT
  else if time_threshold_seconds c <=? now - batch_started_at_unix b then Some TIME
  else if value_threshold_ftns c <=? batch_total_value_ftns b then Some VALUE
  else None.

Definition ready_batches (a : ReceiptAccumulator) (now : Z) : list ReadyBatch :=
  omap (λ kb : AccumulatorKey * PendingBatch,
          t ← check_triggers (acc_config a) kb.2 now;
          Some {| ready_key := kb.1; ready_batch := kb.2; ready_trigger := t |})
       (acc_pending a).

Definition pop_batch (a : ReceiptAccumulator) (key : AccumulatorKey)
  : option PendingBatch * ReceiptAccumulator :=
  (dict_get key (acc_pending a), set_pending a (dict_del key (acc_pending a))).

Definition peek_batch (a : ReceiptAccumulator) (key : AccumulatorKey) : option PendingBatch :=
  dict_get key (acc_pending a).

Definition pending_items (a : ReceiptAccumulator) : list (AccumulatorKey * PendingBatch) :=
  filter (λ kb : AccumulatorKey * PendingBatch, batch_is_empty kb.2 = false) (acc_pending a).

Definition pending_keys (a : ReceiptAccumulator) : list AccumulatorKey := (pending_items a).*1.

Definition total_receipt_count (a : ReceiptAccumulator) : Z :=
  Zsum (batch_count <$> dict_values (acc_pending a)).

Definition total_pending_value_ftns (a : ReceiptAccumulator) : Z :=
  Zsum (batch_total_value_ftns <$> dict_values (acc_pending a)).

(** [batch.started_at_unix = at_unix] *)
Definition with_started (b : PendingBatch) (at_unix : Z) : PendingBatch :=
  {| batch_receipts := batch_receipts b; batch_started_at_unix := at_unix;
     batch_total_value_ftns := batch_total_value_ftns b;
     batch_tier_slash_rate_bps := batch_tier_slash_rate_bps b;
     batch_consensus_group_id := batch_consensus_group_id b;
     batch_seen_escrow_ids := batch_seen_escrow_ids b |}.

Definition restore_pending (a : ReceiptAccumulator) (key : AccumulatorKey)
    (receipts : list BatchedReceipt) (started_at_unix : Z) : result ReceiptAccumulator :=
  batch ← result_foldM (λ b br, batch_append b br started_at_unix) PendingBatch_empty receipts;
  if batch_is_empty batch then Ok a
  else Ok (set_pending a (dict_set key (with_started batch started_at_unix) (acc_pending a))).

(** ** Invariant *)

(** The non-empty escrow ids of a list of receipts, in order. *)
Definition escrow_ids (rs : list BatchedReceipt) : list string :=
  filter (λ s, str_nonempty s = true) (local_escrow_id <$> rs).

#[global] Arguments escrow_ids : simpl never.

(** What holds of the batch queued under [k]. *)
Record batch_wf (k : AccumulatorKey) (b : PendingBatch) : Prop := {
  bwf_nonempty : batch_receipts b ≠ [];
  bwf_keys : Forall (λ br, receipt_key br = k) (batch_receipts b);
  bwf_total : batch_total_value_ftns b = Zsum (value_ftns <$> batch_receipts b);
  bwf_bps : batch_tier_slash_rate_bps b = k.2;
  bwf_group : batch_consensus_group_id b = k.1.2;
  bwf_seen : batch_seen_escrow_ids b = list_to_set (escrow_ids (batch_receipts b));
  bwf_nodup : NoDup (escrow_ids (batch_receipts b))
}.

Record acc_wf (a : ReceiptAccumulator) : Prop := {
  awf_keys : dict_wf (acc_pending a);
  awf_batches : Forall (λ kb : AccumulatorKey * PendingBatch, batch_wf kb.1 kb.2) (acc_pending a)
}.

Lemma escrow_ids_app rs1 rs2 : escrow_ids (rs1 ++ rs2) = escrow_ids rs1 ++ escrow_ids rs2.
Proof. unfold escrow_ids. by rewrite fmap_app, filter_app. Qed.

Lemma escrow_ids_one br :
  escrow_ids [br] = if str_nonempty (local_escrow_id br) then [local_escrow_id br] else [].
Proof.
  unfold escrow_ids. simpl. rewrite filter_cons, filter_nil.
  by destruct (str_nonempty (local_escrow_id br)).
Qed.

Lemma elem_escrow_ids e rs :
  e ∈ escrow_ids rs ↔ str_nonempty e = true ∧ ∃ br, br ∈ rs ∧ local_escrow_id br = e.
Proof.
  unfold escrow_ids. rewrite list_elem_of_filter, list_elem_of_fmap. naive_solver.
Qed.

(** ** One append *)

(** Whether [append] ignores [br] as already counted. *)
Definition batch_dup (b : PendingBatch) (br : BatchedReceipt) : bool :=
  str_nonempty (local_escrow_id br) &&
  bool_decide (local_escrow_id br ∈ batch_seen_escrow_ids b).

(** The batch a receipt joins: [PendingBatch_empty] stands for a new one. *)
Definition slot_wf (k : AccumulatorKey) (b : PendingBatch) : Prop :=
  b = PendingBatch_empty ∨ batch_wf k b.

Lemma batch_append_dup b br now : batch_dup b br = true → batch_append b br now = Ok b.
Proof. unfold batch_dup, batch_append. by intros ->. Qed.

Lemma batch_append_fresh b br now :
  slot_wf (receipt_key br) b → batch_dup b br = false →
  ∃ b', batch_append b br now = Ok b' ∧ batch_wf (receipt_key br) b' ∧
    batch_receipts b' = batch_receipts b ++ [br] ∧
    batch_started_at_unix b' = (if batch_is_empty b then now else batch_started_at_unix b) ∧
    batch_total_value_ftns b' = batch_total_value_ftns b + value_ftns br.
Proof.
  unfold batch_dup, batch_append. intros Hb Hdup. rewrite Hdup.
  assert (∀ e, e ∈ escrow_ids [br] → e ∉ batch_seen_escrow_ids b) as Hfresh.
  { rewrite escrow_ids_one. destruct (str_nonempty _) eqn:E; [|set_solver].
    simpl in Hdup. apply bool_decide_eq_false in Hdup. set_solver. }
  destruct Hb as [->|Hb].
  - simpl. eexists. split; [done|]. split; [|by rewrite ?Z.add_0_l].
    split; simpl; try done.
    + by repeat constructor.
    + autorewrite with prsm. lia.
    + rewrite escrow_ids_one. destruct (str_nonempty _); set_solver.
    + rewrite escrow_ids_one. destruct (str_nonempty _); repeat constructor; set_solver.
  - pose proof (bwf_nonempty _ _ Hb) as Hne.
    assert (batch_is_empty b = false) as Hemp by (unfold batch_is_empty; by destruct (batch_receipts b)).
    rewrite Hemp, (bwf_bps _ _ Hb), (bwf_group _ _ Hb). simpl.
    rewrite Z.eqb_refl. simpl. rewrite bool_decide_false by naive_solver. simpl.
    eexists. split; [done|]. split; [|done].
    split; simpl.
    + intros E. by destruct (batch_receipts b).
    + apply Forall_app. split; [apply Hb | by repeat constructor].
    + rewrite fmap_app, (bwf_total _ _ Hb). csimpl. autorewrite with prsm. lia.
    + apply Hb.
    + apply Hb.
    + rewrite escrow_ids_app, list_to_set_app_L, (bwf_seen _ _ Hb), escrow_ids_one.
      destruct (str_nonempty _); set_solver.
    + rewrite escrow_ids_app. apply NoDup_app. split_and!.
      * apply Hb.
      * rewrite (bwf_seen _ _ Hb) in Hfresh. set_solver.
      * rewrite escrow_ids_one. destruct (str_nonempty _); repeat constructor; set_solver.
Qed.

Lemma batch_append_wf b br now :
  slot_wf (receipt_key br) b →
  ∃ b', batch_append b br now = Ok b' ∧ batch_wf (receipt_key br) b' ∧
    batch_receipts b' = batch_receipts b ++ (if batch_dup b br then [] else [br]) ∧
    batch_total_value_ftns b' =
      batch_total_value_ftns b + (if batch_dup b br then 0 else value_ftns br).
Proof.
  intros Hb. destruct (batch_dup b br) eqn:Hd.
  - exists b. rewrite batch_append_dup by done. rewrite app_nil_r, Z.add_0_r.
    split_and!; try done. destruct Hb as [->|Hb]; [|done].
    unfold batch_dup in Hd. simpl in Hd. rewrite bool_decide_false in Hd by set_solver.
    by rewrite andb_false_r in Hd.
  - destruct (batch_append_fresh b br now Hb Hd) as (b' & ? & ? & ? & ? & ?). eauto 10.
Qed.

(** Replaying a list of fresh receipts of one key onto a batch. *)
Lemma batch_replay k t rs b :
  slot_wf k b → Forall (λ br, receipt_key br = k) rs →
  NoDup (escrow_ids (batch_receipts b ++ rs)) →
  ∃ b', result_foldM (λ b br, batch_append b br t) b rs = Ok b' ∧
    batch_receipts b' = batch_receipts b ++ rs ∧ slot_wf k b'.
Proof.
  revert b. induction rs as [|br rs IH]; intros b Hb Hk Hnd; simpl.
  - exists b. by rewrite app_nil_r.
  - apply Forall_cons in Hk as [<- Hk].
    assert (batch_dup b br = false) as Hd.
    { unfold batch_dup. destruct (str_nonempty _) eqn:E; [|done]. simpl.
      apply bool_decide_eq_false. rewrite !escrow_ids_app in Hnd.
      apply NoDup_app in Hnd as (_ & Hdisj & _).
      assert (local_escrow_id br ∈ escrow_ids (br :: rs)) as Hin
        by (apply elem_escrow_ids; split; [done | exists br; split; [left|done]]).
      destruct Hb as [->|Hb]; [set_solver|]. rewrite (bwf_seen _ _ Hb). set_solver. }
    destruct (batch_append_fresh b br t Hb Hd) as (b1 & -> & Hwf & Hrs & _). simpl.
    destruct (IH b1) as (b' & -> & Hr & Hs).
    + by right.
    + done.
    + rewrite Hrs, <- app_assoc. done.
    + exists b'. rewrite Hr, Hrs, <- app_assoc. done.
Qed.

Lemma result_foldM_append_empty k t rs :
  rs ≠ [] → Forall (λ br, receipt_key br = k) rs → NoDup (escrow_ids rs) →
  ∃ b', result_foldM (λ b br, batch_append b br t) PendingBatch_empty rs = Ok b' ∧
    batch_receipts b' = rs ∧ batch_wf k b'.
Proof.
  intros Hne Hk Hnd. destruct (batch_replay k t rs PendingBatch_empty) as (b' & Hf & Hr & Hs);
    [by left | done | done |]. exists b'. split_and!; [done | done |].
  destruct Hs as [->|]; [|done]. simpl in Hr. congruence.
Qed.

(** Two well-formed batches with the same key, receipts and start are equal. *)
Lemma batch_wf_unique k b1 b2 :
  batch_wf k b1 → batch_wf k b2 → batch_receipts b1 = batch_receipts b2 →
  batch_started_at_unix b1 = batch_started_at_unix b2 → b1 = b2.
Proof.
  intros [] [] Hr Hs. destruct b1, b2. simpl in *. subst. f_equal; congruence.
Qed.

(** ** The operations preserve the invariant *)

Lemma acc_wf_get a k b : acc_wf a → dict_get k (acc_pending a) = Some b → batch_wf k b.
Proof.
  intros [_ Hf] Hg%dict_get_elem. rewrite Forall_forall in Hf. apply (Hf (k, b) Hg).
Qed.

Lemma acc_wf_slot a k : acc_wf a → slot_wf k (default PendingBatch_empty (dict_get k (acc_pending a))).
Proof.
  intros Ha. destruct (dict_get k (acc_pending a)) eqn:E; simpl; [|by left].
  right. by eapply acc_wf_get.
Qed.

Lemma acc_wf_set a k b : acc_wf a → batch_wf k b → acc_wf (set_pending a (dict_set k b (acc_pending a))).
Proof.
  intros [Hwf Hf] Hb. split; simpl; [by apply dict_wf_set|].
  apply Forall_forall. intros [k' b'] Hin. simpl.
  apply elem_dict_get in Hin; [|by apply dict_wf_set].
  rewrite dict_get_set in Hin. case_decide; simplify_eq; [done|].
  apply dict_get_elem in Hin. rewrite Forall_forall in Hf. apply (Hf _ Hin).
Qed.

Lemma acc_wf_del a k : acc_wf a → acc_wf (set_pending a (dict_del k (acc_pending a))).
Proof.
  intros [Hwf Hf]. split; simpl; [by apply dict_wf_del|].
  apply Forall_forall. intros [k' b'] Hin. apply elem_dict_del in Hin as [_ Hin]; [|done].
  rewrite Forall_forall in Hf. apply (Hf _ Hin).
Qed.

Lemma acc_wf_empty c : acc_wf {| acc_config := c; acc_pending := [] |}.
Proof. split; constructor. Qed.

#[export] Hint Resolve acc_wf_set acc_wf_del acc_wf_empty : prsm.

(** The effect of [add] on a well-formed accumulator. *)
Lemma acc_add_spec a br now :
  acc_wf a →
  ∃ b', let k := receipt_key br in
    let b := default PendingBatch_empty (dict_get k (acc_pending a)) in
    acc_add a br now = (set_pending a (dict_set k b' (acc_pending a)), Ok tt) ∧
    batch_wf k b' ∧
    batch_receipts b' = batch_receipts b ++ (if batch_dup b br then [] else [br]) ∧
    batch_total_value_ftns b' =
      batch_total_value_ftns b + (if batch_dup b br then 0 else value_ftns br).
Proof.
  intros Ha. pose proof (acc_wf_slot a (receipt_key br) Ha) as Hs.
  destruct (batch_append_wf _ _ now Hs) as (b' & Happ & Hwf & Hr & Ht).
  exists b'. unfold acc_add. rewrite Happ. done.
Qed.

Lemma acc_add_wf a br now : acc_wf a → acc_wf (acc_add a br now).1.
Proof.
  intros Ha. destruct (acc_add_spec a br now Ha) as (b' & -> & Hb & _). simpl.
  by apply acc_wf_set.
Qed.

Lemma restore_pending_wf a k rs t :
  acc_wf a → Forall (λ br, receipt_key br = k) rs → NoDup (escrow_ids rs) → rs ≠ [] →
  ∃ b, restore_pending a k rs t = Ok (set_pending a (dict_set k b (acc_pending a))) ∧
       batch_receipts b = rs ∧ batch_started_at_unix b = t ∧ batch_wf k b.
Proof.
  intros Ha Hk Hnd Hne. unfold restore_pending.
  destruct (result_foldM_append_empty k t rs Hne Hk Hnd) as (b & -> & Hr & Hb). simpl.
  assert (batch_is_empty b = false) as ->.
  { unfold batch_is_empty. rewrite Hr. by destruct rs. }
  exists (with_started b t). split_and!; [done | done | done |]. by destruct Hb.
Qed.

Lemma pending_items_wf a : acc_wf a → pending_items a = acc_pending a.
Proof.
  intros [_ Hf]. unfold pending_items. apply filter_all.
  eapply Forall_impl; [exact Hf|]. intros [k b] Hb. simpl in *.
  unfold batch_is_empty. pose proof (bwf_nonempty _ _ Hb). by destruct (batch_receipts _).
Qed.

(** Restoring one saved item puts back the same batch. *)
Lemma restore_item a k b :
  acc_wf a → batch_wf k b →
  restore_pending a k (batch_receipts b) (batch_started_at_unix b) =
    Ok (set_pending a (dict_set k b (acc_pending a))).
Proof.
  intros Ha Hb. destruct (restore_pending_wf a k (batch_receipts b) (batch_started_at_unix b))
    as (b' & -> & Hr & Hs & Hb'); [done | apply Hb | apply Hb | apply Hb |].
  by rewrite (batch_wf_unique k b' b).
Qed.

Lemma restore_items_from a items :
  acc_wf a → Forall (λ kb : AccumulatorKey * PendingBatch, batch_wf kb.1 kb.2) items →
  NoDup (dict_keys (acc_pending a) ++ items.*1) →
  result_foldM (λ a (kb : AccumulatorKey * PendingBatch),
      restore_pending a kb.1 (batch_receipts kb.2) (batch_started_at_unix kb.2)) a items =
    Ok (set_pending a (acc_pending a ++ items)).
Proof.
  intros Ha Hf. revert a Ha. induction Hf as [|[k b] items Hb Hf IH]; intros a Ha Hnd; simpl.
  - rewrite app_nil_r. by destruct a.
  - simpl in Hb. rewrite restore_item by done. simpl.
    rewrite dict_set_fresh by (apply NoDup_app in Hnd as (_ & Hd & _); set_solver).
    rewrite IH; simpl.
    + rewrite <- app_assoc. done.
    + rewrite <- dict_set_fresh; [by apply acc_wf_set|].
      apply NoDup_app in Hnd as (_ & Hd & _). set_solver.
    + unfold dict_keys in *. rewrite fmap_app, <- app_assoc. done.
Qed.

(** ** Reachable accumulators *)

(** One call made on an accumulator by its owner.  [OpRestore] is the call made
    with a snapshot written by [pending_items]: its receipts carry the key they
    are saved under. *)
Inductive acc_op : Type :=
| OpAdd (br : BatchedReceipt) (now : Z)
| OpPop (k : AccumulatorKey)
| OpRestore (k : AccumulatorKey) (rs : list BatchedReceipt) (started : Z).

Definition acc_step (a : ReceiptAccumulator) (o : acc_op) : ReceiptAccumulator * result unit :=
  match o with
  | OpAdd br now => acc_add a br now
  | OpPop k => ((pop_batch a k).2, Ok tt)
  | OpRestore k rs t =>
      match restore_pending a k rs t with Ok a' => (a', Ok tt) | Err e => (a, Err e) end
  end.

Definition acc_run (a : ReceiptAccumulator) (ops : list acc_op) : ReceiptAccumulator :=
  fold_left (λ a o, (acc_step a o).1) ops a.

Definition op_ok (o : acc_op) : Prop :=
  match o with
  | OpRestore k rs _ => Forall (λ br, receipt_key br = k) rs ∧ NoDup (escrow_ids rs)
  | _ => True
  end.

Lemma acc_step_wf a o : acc_wf a → op_ok o → acc_wf (acc_step a o).1 ∧ (acc_step a o).2 = Ok tt.
Proof.
  intros Ha Ho. destruct o as [br now|k|k rs t]; simpl.
  - destruct (acc_add_spec a br now Ha) as (b' & -> & Hb & _). split; [|done].
    by apply acc_wf_set.
  - split; [by apply acc_wf_del | done].
  - destruct Ho as [Hk Hnd]. destruct (decide (rs = [])) as [->|Hne].
    + done.
    + destruct (restore_pending_wf a k rs t Ha Hk Hnd Hne) as (b & -> & _ & _ & Hb).
      split; [by apply acc_wf_set | done].
Qed.

Lemma acc_run_wf a ops : acc_wf a → Forall op_ok ops → acc_wf (acc_run a ops).
Proof.
  intros Ha Ho. revert a Ha. induction Ho as [|o ops Ho _ IH]; intros a Ha; simpl; [done|].
  apply IH. by apply acc_step_wf.
Qed.

(** ** Properties *)

(** The accumulator's invariant.  After any sequence of adds, pops and
    restores from the empty accumulator: no operation has raised, keys are
    unique, every queued batch is non-empty, all its receipts have the key it is
    queued under (so one requester, provider, consensus group and slash rate),
    its total is the sum of its receipts' values, its dedup set is exactly their
    escrow ids, and no escrow id is counted twice. *)
Theorem accumulator_invariant c ops o :
  Forall op_ok (ops ++ [o]) →
  let a := acc_run {| acc_config := c; acc_pending := [] |} ops in
  acc_wf a ∧ (acc_step a o).2 = Ok tt.
Proof.
  intros [Hops Ho]%Forall_app. rewrite Forall_singleton in Ho.
  assert (acc_wf (acc_run {| acc_config := c; acc_pending := [] |} ops)) as Ha
    by (apply acc_run_wf; [apply acc_wf_empty | done]).
  split; [done|]. by apply acc_step_wf.
Qed.

(** [add] is idempotent on escrow ids and conserves value.  On a well-formed
    accumulator it raises nothing; a receipt whose escrow id is already counted
    in its batch changes nothing; any other receipt is appended last to the batch
    of its key, adds one to the receipt count and its value to the pending value,
    and leaves every other batch as it was. *)
Theorem add_functional a br now :
  acc_wf a →
  let k := receipt_key br in
  let b := default PendingBatch_empty (dict_get k (acc_pending a)) in
  let a' := (acc_add a br now).1 in
  let dup := batch_dup b br in
  (acc_add a br now).2 = Ok tt ∧
  (∃ b', dict_get k (acc_pending a') = Some b' ∧
         batch_receipts b' = batch_receipts b ++ (if dup then [] else [br])) ∧
  (∀ k', k' ≠ k → dict_get k' (acc_pending a') = dict_get k' (acc_pending a)) ∧
  total_receipt_count a' = total_receipt_count a + (if dup then 0 else 1) ∧
  total_pending_value_ftns a' = total_pending_value_ftns a + (if dup then 0 else value_ftns br).
Proof.
  intros Ha k b. destruct (acc_add_spec a br now Ha) as (b' & -> & Hb & Hr & Ht).
  simpl. fold k b in Hr, Ht |- *.
  assert (∀ (f : PendingBatch → Z), f PendingBatch_empty = 0 →
            Zsum (f <$> dict_values (dict_set k b' (acc_pending a))) =
            Zsum (f <$> dict_values (acc_pending a)) + (f b' - f b)) as Hsum.
  { intros f Hf. rewrite dict_values_set_sum. subst b. destruct (dict_get k _); simpl; lia. }
  split_and!.
  - done.
  - exists b'. by rewrite dict_get_set_eq.
  - intros k' Hk'. by rewrite dict_get_set_ne.
  - unfold total_receipt_count. simpl. rewrite Hsum by done.
    unfold batch_count. rewrite Hr, length_app. destruct (batch_dup b br); simpl; lia.
  - unfold total_pending_value_ftns. simpl. rewrite Hsum by done. rewrite Ht. lia.
Qed.

(** The threshold that fires for a batch, as documented: count, then time, then
    value; none for an empty batch. *)
Definition fires (c : AccumulatorConfig) (b : PendingBatch) (now : Z) (t : TriggerReason) : Prop :=
  batch_receipts b ≠ [] ∧
  let count := count_threshold c <= zlen (batch_receipts b) in
  let time := time_threshold_seconds c <= now - batch_started_at_unix b in
  let value := value_threshold_ftns c <= batch_total_value_ftns b in
  match t with
  | COUNT => count
  | TIME => ¬ count ∧ time
  | VALUE => ¬ count ∧ ¬ time ∧ value
  end.

Lemma check_triggers_fires c b now t : check_triggers c b now = Some t ↔ fires c b now t.
Proof.
  unfold check_triggers, fires, batch_is_empty, batch_count.
  destruct (batch_receipts b) as [|br rs]; [by split; [|intros []]|].
  assert (br :: rs ≠ []) by done.
  destruct (Z.leb_spec (count_threshold c) (zlen (br :: rs)));
  destruct (Z.leb_spec (time_threshold_seconds c) (now - batch_started_at_unix b));
  destruct (Z.leb_spec (value_threshold_ftns c) (batch_total_value_ftns b));
  destruct t; split; intros; simplify_eq; try done; try (split; [done|]; lia);
  exfalso; naive_solver lia.
Qed.

(** Readiness is exact.  A batch is listed by [ready_batches], with its key
    and contents as queued, exactly when it is queued and a threshold has fired,
    and its trigger is the first threshold, in the order count, time, value, that
    has; no batch is listed under two triggers. *)
Theorem ready_exact a now r :
  acc_wf a →
  (r ∈ ready_batches a now ↔
     dict_get (ready_key r) (acc_pending a) = Some (ready_batch r) ∧
     fires (acc_config a) (ready_batch r) now (ready_trigger r)) ∧
  (∀ r', r ∈ ready_batches a now → r' ∈ ready_batches a now → ready_key r = ready_key r' → r = r').
Proof.
  intros Ha.
  assert (∀ r, r ∈ ready_batches a now ↔
     dict_get (ready_key r) (acc_pending a) = Some (ready_batch r) ∧
     fires (acc_config a) (ready_batch r) now (ready_trigger r)) as Hiff.
  { clear r. intros r. unfold ready_batches. rewrite list_elem_of_omap.
    setoid_rewrite <- check_triggers_fires. split.
    - intros ([k b] & Hin & Hr). simpl in Hr.
      destruct (check_triggers _ b now) eqn:E; simplify_eq/=.
      split; [|done]. apply elem_dict_get; [apply Ha | done].
    - intros [Hg%dict_get_elem Ht]. eexists. split; [exact Hg|]. simpl. rewrite Ht.
      by destruct r. }
  split; [apply Hiff|]. intros r' [Hg Ht]%Hiff [Hg' Ht']%Hiff Hk.
  rewrite Hk in Hg. rewrite Hg in Hg'. simplify_eq.
  assert (ready_batch r = ready_batch r') as Hb by congruence.
  apply check_triggers_fires in Ht, Ht'. rewrite Hb in Ht. rewrite Ht in Ht'.
  destruct r, r'; simpl in *; congruence.
Qed.

(** Snapshot and restore.  Replaying the snapshot [pending_items] of a
    reachable accumulator through [restore_pending] into an empty one rebuilds it
    exactly: the same keys in the same order, the same receipts, totals and dedup
    sets, and the original [started_at_unix], so the time threshold is not pushed
    out by a restart. *)
Theorem snapshot_restore c ops :
  Forall op_ok ops →
  let a := acc_run {| acc_config := c; acc_pending := [] |} ops in
  result_foldM (λ a' (kb : AccumulatorKey * PendingBatch),
      restore_pending a' kb.1 (batch_receipts kb.2) (batch_started_at_unix kb.2))
    {| acc_config := c; acc_pending := [] |} (pending_items a) =
  Ok {| acc_config := c; acc_pending := acc_pending a |}.
Proof.
  intros Hops a. assert (acc_wf a) as Ha by (apply acc_run_wf; [apply acc_wf_empty | done]).
  rewrite pending_items_wf by done. rewrite restore_items_from; [done | apply acc_wf_empty | |].
  - apply Ha.
  - simpl. apply Ha.
Qed.

(** ** Witnesses *)

Definition sample_config : AccumulatorConfig :=
  {| count_threshold := 2; time_threshold_seconds := 3600; value_threshold_ftns := 100 |}.

Definition sample_ops : list acc_op :=
  [OpAdd (sample_batched 0 10 "e0") 1000; OpAdd (sample_batched 0 10 "e0") 1001;
   OpAdd (sample_batched 1 20 "e1") 1002].

Definition sample_acc : ReceiptAccumulator :=
  acc_run {| acc_config := sample_config; acc_pending := [] |} sample_ops.

Lemma accumulator_invariant_witness :
  acc_wf sample_acc ∧ (acc_step sample_acc (OpPop (receipt_key (sample_batched 0 10 "e0")))).2 = Ok tt.
Proof.
  apply (accumulator_invariant sample_config sample_ops). repeat constructor.
Defined.

Lemma add_functional_witness :
  total_receipt_count (acc_add sample_acc (sample_batched 2 30 "e2") 1003).1 = 3 ∧
  total_pending_value_ftns (acc_add sample_acc (sample_batched 0 10 "e0") 1003).1 = 30.
Proof.
  assert (acc_wf sample_acc) as Ha by (apply acc_run_wf; [apply acc_wf_empty | repeat constructor]).
  split.
  - destruct (add_functional sample_acc (sample_batched 2 30 "e2") 1003 Ha) as (_ & _ & _ & -> & _).
    vm_compute. reflexivity.
  - destruct (add_functional sample_acc (sample_batched 0 10 "e0") 1003 Ha) as (_ & _ & _ & _ & ->).
    vm_compute. reflexivity.
Defined.

Lemma ready_exact_witness :
  ∃ r, r ∈ ready_batches sample_acc 1003 ∧ fires sample_config (ready_batch r) 1003 COUNT.
Proof.
  assert (acc_wf sample_acc) as Ha by (apply acc_run_wf; [apply acc_wf_empty | repeat constructor]).
  destruct (ready_batches sample_acc 1003) as [|r rs] eqn:E; [vm_compute in E; discriminate E|].
  exists r. assert (r ∈ ready_batches sample_acc 1003) as Hr by (rewrite E; left).
  split; [rewrite <- E; exact Hr|].
  destruct (ready_exact sample_acc 1003 r Ha) as [Hiff _].
  apply Hiff in Hr as [_ Hf].
  replace COUNT with (ready_trigger r); [exact Hf|].
  vm_compute in E. injection E as <- _. reflexivity.
Defined.

Lemma snapshot_restore_witness :
  result_foldM (λ a' (kb : AccumulatorKey * PendingBatch),
      restore_pending a' kb.1 (batch_receipts kb.2) (batch_started_at_unix kb.2))
    {| acc_config := sample_config; acc_pending := [] |} (pending_items sample_acc) =
  Ok {| acc_config := sample_config; acc_pending := acc_pending sample_acc |}.
Proof. apply (snapshot_restore sample_config sample_ops). repeat constructor. Defined.
