(* ===== verification/Published.v ===== *)
(** * Durable files: the state store and the published-batch store

    Models prsm/settlement/state_store.py ([load]; an atomic [save] replaces the
    whole file or leaves it) and prsm/settlement/published_batch_store.py, the
    bounded store of committed receipt sets.  A file is what reading it gives:
    absent, not JSON, or a JSON value. *)
From Stdlib Require Import ZArith Lia.
From S2P Require Import PyStd.
From S2P Require Import Externals.
From S2P Require Import Receipt.
From S2P Require Import Merkle.
From S2P Require Import Prelude.

#[local] Open Scope string_scope.
#[local] Open Scope list_scope.
#[local] Open Scope Z_scope.

Inductive file : Type := Absent | NotJson | Json (j : json).

(** [SettlementStateStore.load] *)
Definition store_load (f : file) : result (option (dict string json)) :=
  match f with
  | Absent => Ok None
  | NotJson => Err SettlementStateCorruptError
  | Json (JObj o) => Ok (Some o)
  | Json _ => Err SettlementStateCorruptError
  end.

(** ** Published batches *)

Definition MAX_RECEIPTS_PER_BATCH : Z := 100000.

Record PublishedBatch : Type := {
  pb_batch_id : bytes;
  pb_merkle_root : bytes;
  pb_commit_timestamp : Z;
  pb_receipts : list BatchedReceipt
}.

Definition PublishedBatch_to_dict (pb : PublishedBatch) : json :=
  JObj [("batch_id", JStr (hex (pb_batch_id pb)));
        ("merkle_root", JStr (hex (pb_merkle_root pb)));
        ("commit_timestamp", JInt (pb_commit_timestamp pb));
        ("receipts", JArr (batched_receipt_to_dict <$> pb_receipts pb))].

Definition PublishedBatch_from_dict (d : json) : result PublishedBatch :=
  receipts_raw ← jget "receipts" d;
  raw ← match receipts_raw with JArr l => Ok l | _ => Err ValueError end;
  _ ← raise_if (MAX_RECEIPTS_PER_BATCH <? zlen raw) ValueError;
  b ← jget "batch_id" d ≫= fromhex_json;
  m ← jget "merkle_root" d ≫= fromhex_json;
  t ← jget "commit_timestamp" d ≫= int_of_json;
  rs ← result_mapM batched_receipt_from_dict raw;
  Ok {| pb_batch_id := b; pb_merkle_root := m; pb_commit_timestamp := t; pb_receipts := rs |}.

Record PublishedBatchStore : Type := {
  ps_max_batches : Z;
  ps_batches : dict string PublishedBatch
}.

(** [while len(d) > max: d.popitem(last=False)] *)
Fixpoint evict_oldest {A} (max : Z) (d : list A) : list A :=
  match d with
  | [] => []
  | x :: d' => if max <? zlen (x :: d') then evict_oldest max d' else x :: d'
  end.

(** The JSON [_persist] hands to the file. *)
Definition ps_state (s : PublishedBatchStore) : json :=
  JObj [("version", JInt 1);
        ("batches", JObj (prod_map id PublishedBatch_to_dict <$> ps_batches s))].

(** [put]: the new in-memory store; the write of [ps_state] that follows is
    best-effort and never raises. *)
Definition ps_put (s : PublishedBatchStore) (batch_id : bytes) (receipts : list BatchedReceipt)
    (merkle_root : bytes) (commit_timestamp : Z) : PublishedBatchStore :=
  let pb := {| pb_batch_id := batch_id; pb_merkle_root := merkle_root;
               pb_commit_timestamp := commit_timestamp; pb_receipts := receipts |} in
  let key := hex batch_id in
  let batches := dict_set key pb (dict_del key (ps_batches s)) in
  {| ps_max_batches := ps_max_batches s;
     ps_batches := evict_oldest (ps_max_batches s) batches |}.

Definition ps_get (s : PublishedBatchStore) (batch_id : bytes) : option PublishedBatch :=
  dict_get (hex batch_id) (ps_batches s).

Definition ps_all (s : PublishedBatchStore) : list PublishedBatch := dict_values (ps_batches s).

(** [prune], at clock [now]: the store and the number dropped. *)
Definition ps_prune (s : PublishedBatchStore) (now retention_seconds : Z)
  : PublishedBatchStore * Z :=
  let cutoff := now - retention_seconds in
  let expired := filter (λ kb : string * PublishedBatch, pb_commit_timestamp kb.2 < cutoff)
                        (ps_batches s) in
  ({| ps_max_batches := ps_max_batches s;
      ps_batches := fold_left (λ d (kb : string * PublishedBatch), dict_del kb.1 d) expired
                              (ps_batches s) |}, zlen expired).

(** [_load]: a malformed entry is skipped, an unreadable file gives an empty
    store; nothing is raised. *)
Definition ps_load (max : Z) (f : file) : PublishedBatchStore :=
  let empty := {| ps_max_batches := max; ps_batches := [] |} in
  match store_load f with
  | Ok (Some raw) =>
      match dict_get "batches" raw with
      | Some (JObj entries) =>
          {| ps_max_batches := max;
             ps_batches :=
               fold_left (λ d (kv : string * json),
                 match PublishedBatch_from_dict kv.2 with
                 | Ok pb => dict_set (hex (pb_batch_id pb)) pb d
                 | Err _ => d
                 end) entries [] |}
      | _ => empty
      end
  | _ => empty
  end.

(** [PublishedBatchStore(path, max_batches)] *)
Definition ps_init (max : Z) (f : file) : result PublishedBatchStore :=
  if max <=? 0 then Err ValueError else Ok (ps_load max f).

(** ** Invariant *)

Definition pb_ok (pb : PublishedBatch) : Prop :=
  Forall batched_ok (pb_receipts pb) ∧ zlen (pb_receipts pb) <= MAX_RECEIPTS_PER_BATCH.

(** Keys are the hex batch ids, without repetition, within the bound. *)
Record ps_wf (s : PublishedBatchStore) : Prop := {
  psw_max : 0 < ps_max_batches s;
  psw_keys : dict_wf (ps_batches s);
  psw_ids : ∀ k pb, (k, pb) ∈ ps_batches s → k = hex (pb_batch_id pb) ∧ pb_ok pb;
  psw_bound : zlen (ps_batches s) <= ps_max_batches s
}.

Lemma evict_oldest_spec {A} max (d : list A) :
  0 <= max →
  zlen (evict_oldest max d) = Z.min max (zlen d) ∧
  ∃ old, d = old ++ evict_oldest max d ∧ (zlen d <= max → old = []).
Proof.
  intros Hm. induction d as [|x d [IHl (old & IHd & _)]].
  - simpl. split; [lia|]. by exists [].
  - cbn [evict_oldest]. destruct (Z.ltb_spec max (zlen (x :: d))) as [Hlt|Hle].
    + split.
      * rewrite IHl. simpl in *. lia.
      * exists (x :: old). simpl. rewrite <- IHd. split; [done | simpl in *; lia].
    + split; [lia|]. by exists [].
Qed.

Lemma dict_set_del_last {V} k (v : V) (d : dict string V) :
  dict_wf d → dict_set k v (dict_del k d) = dict_del k d ++ [(k, v)].
Proof. intros Hd. apply dict_set_fresh, dict_get_None, dict_get_del_eq, Hd. Qed.

Lemma ps_put_decomp s b rs root ts :
  ps_wf s →
  let pb := {| pb_batch_id := b; pb_merkle_root := root;
               pb_commit_timestamp := ts; pb_receipts := rs |} in
  ∃ old kept, dict_del (hex b) (ps_batches s) = old ++ kept ∧
    ps_batches (ps_put s b rs root ts) = kept ++ [(hex b, pb)] ∧
    zlen (kept ++ [(hex b, pb)]) <= ps_max_batches s ∧
    (zlen (dict_del (hex b) (ps_batches s)) < ps_max_batches s → old = []).
Proof.
  intros Hs pb. unfold ps_put. simpl. fold pb.
  rewrite dict_set_del_last by apply Hs.
  set (d := dict_del (hex b) (ps_batches s)).
  pose proof (psw_max _ Hs) as Hm.
  destruct (evict_oldest_spec (ps_max_batches s) (d ++ [(hex b, pb)]) ltac:(lia))
    as [Hlen (old & Hd & Hold)].
  remember (evict_oldest (ps_max_batches s) (d ++ [(hex b, pb)])) as kept'.
  assert (zlen (d ++ [(hex b, pb)]) = zlen d + 1) as Hz by (rewrite length_app; simpl; lia).
  destruct (exists_last (l := kept')) as (kept & x & Hk).
  { intros ->. simpl in Hlen. rewrite Hz in Hlen. lia. }
  rewrite Hk in Hd. rewrite app_assoc in Hd. apply app_inj_tail in Hd as [Hd <-].
  exists old, kept. split_and!; [done | done | rewrite <- Hk; lia|].
  intros Hlt. apply Hold. lia.
Qed.

Lemma ps_put_wf s b rs root ts :
  ps_wf s → Forall batched_ok rs → zlen rs <= MAX_RECEIPTS_PER_BATCH →
  ps_wf (ps_put s b rs root ts).
Proof.
  intros Hs Hrs Hcap. destruct (ps_put_decomp s b rs root ts Hs) as (old & kept & Hd & Hb & Hl & _).
  assert (dict_wf (old ++ kept)) as Hwf by (rewrite <- Hd; apply dict_wf_del, Hs).
  unfold dict_wf, dict_keys in Hwf. rewrite fmap_app in Hwf.
  apply NoDup_app in Hwf as (_ & _ & Hwf).
  assert (∀ kv, kv ∈ kept → kv.1 ≠ hex b ∧ kv ∈ ps_batches s) as Hkept.
  { intros [k v] Hin. assert ((k, v) ∈ dict_del (hex b) (ps_batches s)) as Hin'
      by (rewrite Hd; set_solver).
    apply elem_dict_del in Hin'; [done | apply Hs]. }
  split.
  - apply Hs.
  - rewrite Hb. unfold dict_wf, dict_keys. rewrite fmap_app. apply NoDup_app. split_and!.
    + done.
    + intros k ([k' v] & -> & Hin)%list_elem_of_fmap. apply Hkept in Hin. simpl in *. set_solver.
    + apply NoDup_singleton.
  - intros k pb. rewrite Hb. intros [Hin|Hin]%elem_of_app.
    + apply Hkept in Hin as [_ Hin]. by apply (psw_ids _ Hs).
    + apply list_elem_of_singleton in Hin. by simplify_eq.
  - by rewrite Hb.
Qed.

Lemma fold_dict_del {V} (ks : list (string * V)) (d : dict string V) :
  dict_wf d →
  dict_wf (fold_left (λ d (kb : string * V), dict_del kb.1 d) ks d) ∧
  ∀ k v, (k, v) ∈ fold_left (λ d (kb : string * V), dict_del kb.1 d) ks d ↔
         (k, v) ∈ d ∧ k ∉ ks.*1.
Proof.
  revert d. induction ks as [|[k1 v1] ks IH]; intros d Hd; simpl.
  - split; [done|]. set_solver.
  - destruct (IH (dict_del k1 d)) as [Hwf Hin]; [by apply dict_wf_del|].
    split; [done|]. intros k v. rewrite Hin, elem_dict_del by done. set_solver.
Qed.

Lemma ps_prune_elem s now ret k pb :
  ps_wf s →
  (k, pb) ∈ ps_batches (ps_prune s now ret).1 ↔
  (k, pb) ∈ ps_batches s ∧ now - ret <= pb_commit_timestamp pb.
Proof.
  intros Hs. simpl. destruct (fold_dict_del
    (filter (λ kb : string * PublishedBatch, pb_commit_timestamp kb.2 < now - ret) (ps_batches s))
    (ps_batches s) (psw_keys _ Hs)) as [_ Hin].
  rewrite Hin. rewrite list_elem_of_fmap. split.
  - intros [Hk Hn]. split; [done|]. apply Z.nlt_ge. intros Hlt. apply Hn.
    exists (k, pb). split; [done|]. by apply list_elem_of_filter.
  - intros [Hk Hle]. split; [done|]. intros ([k' pb'] & -> & [Hlt Hk']%list_elem_of_filter).
    simpl in *. apply elem_dict_get in Hk, Hk'; try apply Hs. rewrite Hk in Hk'.
    simplify_eq. lia.
Qed.

Lemma ps_prune_wf s now ret : ps_wf s → ps_wf (ps_prune s now ret).1.
Proof.
  intros Hs. pose proof (psw_keys _ Hs) as Hd.
  destruct (fold_dict_del
    (filter (λ kb : string * PublishedBatch, pb_commit_timestamp kb.2 < now - ret) (ps_batches s))
    (ps_batches s) Hd) as [Hwf _].
  split; [apply Hs | done | |].
  - intros k pb Hin. apply (ps_prune_elem _ _ _ _ _ Hs) in Hin as [Hin _]. by apply Hs.
  - simpl. enough (∀ ks d, zlen (fold_left (λ d (kb : string * PublishedBatch), dict_del kb.1 d) ks d)
              <= zlen d) as Hle by (etrans; [apply Hle | apply Hs]).
    clear. induction ks as [|kb ks IH]; intros d; simpl; [lia|].
    etrans; [apply IH|]. pose proof (sublist_length _ _ (dict_del_sublist kb.1 d)). lia.
Qed.

Lemma published_roundtrip pb :
  pb_ok pb → PublishedBatch_from_dict (PublishedBatch_to_dict pb) = Ok pb.
Proof.
  intros [Hrs Hcap]. unfold PublishedBatch_from_dict, PublishedBatch_to_dict. simpl.
  rewrite length_fmap. replace (MAX_RECEIPTS_PER_BATCH <? _) with false by lia. simpl.
  rewrite !fromhex_json_hex. simpl. rewrite batched_receipts_roundtrip by done. by destruct pb.
Qed.

#[global] Arguments PublishedBatch_from_dict : simpl never.
#[global] Arguments PublishedBatch_to_dict : simpl never.

Lemma ps_load_state s : ps_wf s → ps_load (ps_max_batches s) (Json (ps_state s)) = s.
Proof.
  intros Hs. unfold ps_load, ps_state. simpl.
  enough (∀ l acc,
    (∀ k pb, (k, pb) ∈ l → k = hex (pb_batch_id pb) ∧ pb_ok pb) → NoDup (acc ++ l).*1 →
    fold_left (λ d (kv : string * json),
      match PublishedBatch_from_dict kv.2 with
      | Ok pb => dict_set (hex (pb_batch_id pb)) pb d | Err _ => d end)
      (prod_map id PublishedBatch_to_dict <$> l) acc = acc ++ l) as H.
  { rewrite (H _ []); [by destruct s | apply Hs | apply Hs]. }
  induction l as [|[k pb] l IH]; intros acc Hl Hnd.
  - by rewrite app_nil_r.
  - csimpl. destruct (Hl k pb) as [-> Hok]; [by left|].
    rewrite published_roundtrip by done. rewrite dict_set_fresh.
    + rewrite IH; [by rewrite <- app_assoc | intros; apply Hl; by right | by rewrite <- app_assoc].
    + rewrite fmap_app in Hnd. apply NoDup_app in Hnd as (_ & Hdis & _).
      intros Hin. apply (Hdis _ Hin). by left.
Qed.

(** ** Reachable stores *)

Inductive ps_op : Type :=
| PsPut (batch_id : bytes) (receipts : list BatchedReceipt) (root : bytes) (ts : Z)
| PsPrune (now retention : Z)
| PsRestart.   (* a new process loads the last file written *)

Definition ps_step (s : PublishedBatchStore) (o : ps_op) : PublishedBatchStore :=
  match o with
  | PsPut b rs root ts => ps_put s b rs root ts
  | PsPrune now ret => (ps_prune s now ret).1
  | PsRestart => ps_load (ps_max_batches s) (Json (ps_state s))
  end.

Definition ps_op_ok (o : ps_op) : Prop :=
  match o with
  | PsPut _ rs _ _ => Forall batched_ok rs ∧ zlen rs <= MAX_RECEIPTS_PER_BATCH
  | _ => True
  end.

Definition ps_run (s : PublishedBatchStore) (ops : list ps_op) : PublishedBatchStore :=
  fold_left ps_step ops s.

Lemma ps_run_wf s ops : ps_wf s → Forall ps_op_ok ops → ps_wf (ps_run s ops).
Proof.
  intros Hs Ho. revert s Hs. induction Ho as [|o ops Ho _ IH]; intros s Hs; simpl; [done|].
  apply IH. destruct o as [b rs root ts|now ret|]; simpl.
  - destruct Ho. by apply ps_put_wf.
  - by apply ps_prune_wf.
  - by rewrite ps_load_state.
Qed.

Lemma ps_run_max s ops : ps_max_batches (ps_run s ops) = ps_max_batches s.
Proof.
  revert s. induction ops as [|o ops IH]; intros s; simpl; [done|]. rewrite IH.
  by destruct o.
Qed.

(** ** Properties *)

(** Retention is lossless, bounded and restart-safe.  In every store reached
    from an empty one by puts, prunes and restarts: keys are unique and name
    their own batch, at most [max_batches] are held, a restart gives back the
    same store (so every retained batch recomputes the root it was committed
    under), and a put retains the ordered receipt set under its id, evicting
    nothing while there is room. *)
Theorem published_store_retains max ops b rs root ts :
  0 < max → Forall ps_op_ok (ops ++ [PsPut b rs root ts]) →
  let s := ps_run {| ps_max_batches := max; ps_batches := [] |} ops in
  let s' := ps_step s (PsPut b rs root ts) in
  ps_wf s ∧ ps_step s PsRestart = s ∧
  ps_get s' b = Some {| pb_batch_id := b; pb_merkle_root := root;
                        pb_commit_timestamp := ts; pb_receipts := rs |} ∧
  zlen (ps_batches s') <= max ∧
  (zlen (ps_batches s) < max → ∀ b', b' ≠ b → ps_get s' b' = ps_get s b').
Proof.
  intros Hmax [Hops Hput]%Forall_app s s'. rewrite Forall_singleton in Hput.
  assert (ps_wf s) as Hs.
  { apply ps_run_wf; [|done]. split; simpl; [done | constructor | | lia].
    intros k pb Hin. by apply not_elem_of_nil in Hin. }
  assert (ps_wf s') as Hs' by (destruct Hput; by apply ps_put_wf).
  assert (ps_max_batches s = max) as Hm by (subst s; by rewrite ps_run_max).
  destruct (ps_put_decomp s b rs root ts Hs) as (old & kept & Hd & Hb & Hl & Hold).
  split_and!; [done | by apply ps_load_state | | by rewrite <- Hm; apply Hs' |].
  - unfold ps_get. apply elem_dict_get; [apply Hs'|].
    subst s'. cbn [ps_step]. rewrite Hb. apply elem_of_app. right. by left.
  - intros Hroom b' Hne. unfold ps_get. subst s'. cbn [ps_step]. rewrite Hb.
    assert (zlen (dict_del (hex b) (ps_batches s)) < ps_max_batches s) as Hlt.
    { pose proof (sublist_length _ _ (dict_del_sublist (hex b) (ps_batches s))). lia. }
    rewrite (Hold Hlt) in Hd. simpl in Hd. rewrite <- Hd.
    assert (hex b' ≠ hex b) by (intros E; by apply (inj hex) in E).
    rewrite <- dict_set_del_last by apply Hs. rewrite dict_get_set_ne by done.
    rewrite dict_get_del_ne; [done | apply Hs | done].
Qed.

(** ** Witness *)

Definition sample_puts : list ps_op :=
  [PsPut [x01] [sample_batched 0 10 "e0"] zero32 1000;
   PsPut [x02] [sample_batched 1 10 "e1"] zero32 1001; PsRestart; PsPrune 5000 3999].

Lemma published_store_retains_witness :
  ps_get (ps_run {| ps_max_batches := 2; ps_batches := [] |}
            (sample_puts ++ [PsPut [x03] [sample_batched 2 10 "e2"] zero32 5000])) [x03] ≠ None.
Proof.
  destruct (published_store_retains 2 sample_puts [x03] [sample_batched 2 10 "e2"] zero32 5000)
    as (_ & _ & Hg & _).
  - lia.
  - repeat constructor; simpl; try lia; discriminate.
  - unfold ps_run. rewrite fold_left_app. simpl. simpl in Hg. rewrite Hg. discriminate.
Defined.
