(* ===== verification/Effects.v ===== *)
(** * Coroutines that perform effects: a crash-safety logic and a rely-guarantee logic

    An [async] method is a [prog]: it either returns or performs one effect
    (a file write, a contract call) and continues with its response.  [wp] is a
    weakest precondition with a crash condition: [wp I p Q w] says that [p]
    started in world [w] keeps [I] true between any two effects, hence at every
    point where the process may die, and establishes [Q] if it returns.  The
    step relation [pstep] is the small-step semantics [wp] is sound for. *)
From Stdlib Require Import ZArith Lia.
From S2P Require Import Prelude.
From stdpp Require Import relations.

#[local] Open Scope list_scope.

(** An effect signature: the requests, and the type of each one's response. *)
Structure signature : Type := {
  request :> Type;
  response : request → Type
}.
Arguments response {_} _.

Section Prog.
Context {E : signature}.

Inductive prog (A : Type) : Type :=
| Ret (a : A)
| Do (e : E) (k : response e → prog A).
#[global] Arguments Ret {A} a.
#[global] Arguments Do {A} e k.

Fixpoint prog_bind {A B} (p : prog A) (f : A → prog B) : prog B :=
  match p with
  | Ret a => f a
  | Do e k => Do e (λ r, prog_bind (k r) f)
  end.
End Prog.
Arguments prog E A : clear implicits.

(** ** Methods of an object

    A method reads and writes its object of type [S] and may raise: a state and
    exception monad over [prog]. *)
Definition M (E : signature) (S A : Type) : Type := S → prog E (result A * S).

Section Method.
Context {E : signature} {S : Type}.

#[export] Instance M_ret : MRet (M E S) := λ A a s, Ret (Ok a, s).
#[export] Instance M_bind : MBind (M E S) := λ A B f m s,
  prog_bind (m s) (λ rs, match rs.1 with Ok a => f a rs.2 | Err e => Ret (Err e, rs.2) end).

Definition raise {A} (e : exn) : M E S A := λ s, Ret (Err e, s).
Definition lift {A} (r : result A) : M E S A := λ s, Ret (r, s).
Definition get : M E S S := λ s, Ret (Ok s, s).
Definition gets {A} (f : S → A) : M E S A := λ s, Ret (Ok (f s), s).
Definition modify (f : S → S) : M E S unit := λ s, Ret (Ok tt, f s).
(** Perform an effect; its response is a value. *)
Definition perform (e : E) : M E S (response e) := λ s, Do e (λ r, Ret (Ok r, s)).
(** [try: m ... except Exception as exc] *)
Definition try {A} (m : M E S A) : M E S (result A) :=
  λ s, prog_bind (m s) (λ rs, Ret (Ok rs.1, rs.2)).

(** [for x in l: f(x)] *)
Fixpoint for_each {A} (l : list A) (f : A → M E S unit) : M E S unit :=
  match l with
  | [] => mret ()
  | x :: l' => _ ← f x; for_each l' f
  end.
(** A loop that collects what its body appends. *)
Fixpoint for_collect {A B} (l : list A) (f : A → M E S (list B)) : M E S (list B) :=
  match l with
  | [] => mret []
  | x :: l' => ys ← f x; zs ← for_collect l' f; mret (ys ++ zs)
  end.
End Method.

(** ** Semantics and weakest preconditions *)

Section Wp.
Context {E : signature} {W : Type} (exec : ∀ e : E, W → response e → W → Prop).

Inductive pstep {A} : prog E A * W → prog E A * W → Prop :=
| pstep_do e k w r w' : exec e w r w' → pstep (Do e k, w) (k r, w').

Fixpoint wp {A} (I : W → Prop) (p : prog E A) (Q : A → W → Prop) (w : W) : Prop :=
  match p with
  | Ret a => I w ∧ Q a w
  | Do e k => I w ∧ ∀ r w', exec e w r w' → wp I (k r) Q w'
  end.

Lemma wp_crash {A} I (p : prog E A) Q w : wp I p Q w → I w.
Proof. destruct p; by intros [? _]. Qed.

Lemma wp_mono {A} I (p : prog E A) (Q Q' : A → W → Prop) w :
  wp I p Q w → (∀ a w, I w → Q a w → Q' a w) → wp I p Q' w.
Proof.
  intros Hp Hq. revert w Hp. induction p as [a|e k IH]; simpl; intros w [Hi Hp].
  - eauto.
  - split; [done|]. intros r w' Hr. apply IH. by apply Hp.
Qed.

Lemma wp_bind {A B} I (p : prog E A) (f : A → prog E B) Q w :
  wp I p (λ a w', wp I (f a) Q w') w → wp I (prog_bind p f) Q w.
Proof.
  revert w. induction p as [a|e k IH]; simpl; intros w [Hi Hp]; [done|].
  split; [done|]. intros r w' Hr. apply IH. by apply Hp.
Qed.

Lemma wp_pstep {A} I (p p' : prog E A) Q w w' :
  wp I p Q w → pstep (p, w) (p', w') → wp I p' Q w'.
Proof.
  intros Hp Hs. inversion Hs as [e k w1 r w2 Hx]; subst. simpl in Hp. by apply Hp.
Qed.

(** *** Methods *)
Context {S : Type}.

Definition wpm {A} (I : W → Prop) (m : M E S A) (Q : result A → S → W → Prop) (s : S) (w : W)
  : Prop := wp I (m s) (λ rs w', Q rs.1 rs.2 w') w.

Lemma wpm_mono {A} I (m : M E S A) (Q Q' : result A → S → W → Prop) s w :
  wpm I m Q s w → (∀ r s w, I w → Q r s w → Q' r s w) → wpm I m Q' s w.
Proof. intros Hm Hq. eapply wp_mono; [exact Hm|]. intros [r s'] w'. simpl. apply Hq. Qed.

Lemma wpm_bind {A B} I (m : M E S A) (f : A → M E S B) (Q : result B → S → W → Prop) s w :
  wpm I m (λ r s' w', match r with
                      | Ok a => wpm I (f a) Q s' w'
                      | Err e => Q (Err e) s' w' end) s w →
  wpm I (m ≫= f) Q s w.
Proof.
  intros Hm. unfold wpm, mbind, M_bind. apply wp_bind. eapply wp_mono; [exact Hm|].
  intros [[a|e] s'] w' Hi; simpl; [done|]. done.
Qed.

Lemma wpm_ret {A} I (a : A) (Q : result A → S → W → Prop) s w :
  I w → Q (Ok a) s w → wpm I (mret a) Q s w.
Proof. by split. Qed.

Lemma wpm_raise {A} I e (Q : result A → S → W → Prop) s w :
  I w → Q (Err e) s w → wpm I (raise e) Q s w.
Proof. by split. Qed.

Lemma wpm_lift {A} I (r : result A) (Q : result A → S → W → Prop) s w :
  I w → Q r s w → wpm I (lift r) Q s w.
Proof. by split. Qed.

Lemma wpm_gets {A} I (f : S → A) (Q : result A → S → W → Prop) s w :
  I w → Q (Ok (f s)) s w → wpm I (gets f) Q s w.
Proof. by split. Qed.

Lemma wpm_get I (Q : result S → S → W → Prop) s w :
  I w → Q (Ok s) s w → wpm I get Q s w.
Proof. by split. Qed.

Lemma wpm_modify I (f : S → S) (Q : result unit → S → W → Prop) s w :
  I w → Q (Ok tt) (f s) w → wpm I (modify f) Q s w.
Proof. by split. Qed.

Lemma wpm_perform I (e : E) (Q : result (response e) → S → W → Prop) s w :
  I w → (∀ r w', exec e w r w' → I w' ∧ Q (Ok r) s w') → wpm I (perform e) Q s w.
Proof. intros Hi H. split; [done|]. intros r w' Hr. simpl. by apply H. Qed.

Lemma wpm_try {A} I (m : M E S A) (Q : result (result A) → S → W → Prop) s w :
  wpm I m (λ r s' w', Q (Ok r) s' w') s w → wpm I (try m) Q s w.
Proof.
  intros Hm. unfold wpm, try. apply wp_bind. eapply wp_mono; [exact Hm|].
  intros [r s'] w' Hi Hq. by split.
Qed.

(** A pure step: it raises, or goes on with its value. *)
Lemma wpm_check {A B} I (r : result A) (f : A → M E S B) (Q : result B → S → W → Prop) s w :
  I w → (∀ a, r = Ok a → wpm I (f a) Q s w) → (∀ e, r = Err e → Q (Err e) s w) →
  wpm I (x ← lift r; f x) Q s w.
Proof. intros Hi Hok Herr. apply wpm_bind, wpm_lift; [done|]. destruct r; auto. Qed.

(** A loop keeps the invariant [J] of its remaining iterations; an exception
    leaves it with [Q]. *)
Lemma wpm_for_each {A} I (l : list A) (f : A → M E S unit) (J : list A → S → W → Prop)
    (Q : result unit → S → W → Prop) s w :
  (∀ w, (∃ s l, J l s w) → I w) →
  J l s w →
  (∀ x l s w, J (x :: l) s w →
     wpm I (f x) (λ r s' w', match r with Ok _ => J l s' w' | Err e => Q (Err e) s' w' end) s w) →
  (∀ s w, J [] s w → Q (Ok tt) s w) →
  wpm I (for_each l f) Q s w.
Proof.
  intros HI HJ Hstep Hend. revert s w HJ. induction l as [|x l IH]; intros s w HJ; simpl.
  - apply wpm_ret; [apply HI; eauto | auto].
  - apply wpm_bind. eapply wpm_mono; [by apply Hstep|].
    intros [[]|e] s' w' _ Hq; [by apply IH | done].
Qed.

Lemma wpm_for_collect {A B} I (l : list A) (f : A → M E S (list B))
    (J : list A → list B → S → W → Prop) (Q : result (list B) → S → W → Prop) s w acc :
  (∀ w, (∃ s l ys, J l ys s w) → I w) →
  J l acc s w →
  (∀ x l ys s w, J (x :: l) ys s w →
     wpm I (f x) (λ r s' w', match r with
                  | Ok zs => J l (ys ++ zs) s' w' | Err e => Q (Err e) s' w' end) s w) →
  (∀ ys s w, J [] (acc ++ ys) s w → Q (Ok ys) s w) →
  wpm I (for_collect l f) Q s w.
Proof.
  intros HI HJ Hstep. revert s w acc Q HJ Hstep. induction l as [|x l IH];
    intros s w acc Q HJ Hstep Hend; simpl.
  - apply wpm_ret; [apply HI; eauto|]. apply Hend. by rewrite app_nil_r.
  - apply wpm_bind. eapply wpm_mono; [by eapply Hstep|].
    intros [zs|e] s' w' _ Hq; [|done]. apply wpm_bind.
    apply (IH s' w' (acc ++ zs)); [done | |].
    + intros x' l' ys s1 w1 HJ1. eapply wpm_mono; [by eapply Hstep|].
      intros [zs'|e] s2 w2 _ Hq2; done.
    + intros ys s1 w1 HJ1. apply wpm_ret; [apply HI; eauto|].
      apply Hend. by rewrite app_assoc.
Qed.
End Wp.

(** ** Methods of a part of an object *)

Section Zoom.
Context {E : signature} {S T : Type} (part : S → T) (put : T → S → S).

(** A method of the component [part] of an object. *)
Definition zoom {A} (m : M E T A) : M E S A :=
  λ s, prog_bind (m (part s)) (λ rt, Ret (rt.1, put rt.2 s)).

Lemma wpm_zoom {W A} (exec : ∀ e : E, W → response e → W → Prop) I (m : M E T A)
    (Q : result A → S → W → Prop) s w :
  wpm exec I m (λ r t w', Q r (put t s) w') (part s) w → wpm exec I (zoom m) Q s w.
Proof.
  intros Hm. unfold wpm, zoom. apply wp_bind. eapply wp_mono; [exact Hm|].
  intros [r t] w' Hi Hq. by split.
Qed.
End Zoom.

(** ** Methods over a larger signature *)

Section Embed.
Context {E F : signature} (req : E → F) (resp : ∀ e : E, response (req e) → response e).

(** A program over [E] run where the effects of [E] are some of [F]'s. *)
Fixpoint embed {A} (p : prog E A) : prog F A :=
  match p with
  | Ret a => Ret a
  | Do e k => Do (req e) (λ r, embed (k (resp e r)))
  end.
Definition embed_method {S A} (m : M E S A) : M F S A := λ s, embed (m s).

(** The effects of [E] act on the part [view w] of the larger world; [J] holds of
    the rest and is not disturbed. *)
Context {V W : Type} (execE : ∀ e : E, V → response e → V → Prop)
  (execF : ∀ f : F, W → response f → W → Prop) (view : W → V) (J : W → Prop).
Hypothesis embed_exec : ∀ e w r w', execF (req e) w r w' → J w → execE e (view w) (resp e r) (view w') ∧ J w'.

Lemma wp_embed {A} I (p : prog E A) Q w :
  J w → wp execE I p Q (view w) →
  wp execF (λ w, I (view w) ∧ J w) (embed p) (λ a w, Q a (view w) ∧ J w) w.
Proof.
  revert w. induction p as [a|e k IH]; simpl; intros w HJ [Hi Hp]; [done|].
  split; [done|]. intros r w' Hr. destruct (embed_exec e w r w' Hr HJ). by apply IH; [|apply Hp].
Qed.

Lemma wpm_embed {S A} I (m : M E S A) (Q : result A → S → V → Prop) s w :
  J w → wpm execE I m Q s (view w) →
  wpm execF (λ w, I (view w) ∧ J w) (embed_method m) (λ r s w, Q r s (view w) ∧ J w) s w.
Proof. apply wp_embed. Qed.
End Embed.

(** Two specifications of one program hold together. *)
Lemma wp_and {E : signature} {W A} (exec : ∀ e : E, W → response e → W → Prop) I1 I2 (p : prog E A)
    (Q1 Q2 : A → W → Prop) w :
  wp exec I1 p Q1 w → wp exec I2 p Q2 w → wp exec (λ w, I1 w ∧ I2 w) p (λ a w, Q1 a w ∧ Q2 a w) w.
Proof.
  revert w. induction p as [a|e k IH]; simpl; intros w [Hi1 H1] [Hi2 H2]; [done|].
  split; [done|]. intros r w' Hr. apply IH; auto.
Qed.

(** A weaker crash condition. *)
Lemma wp_weaken {E : signature} {W A} (exec : ∀ e : E, W → response e → W → Prop) (I1 I2 : W → Prop)
    (p : prog E A) (Q : A → W → Prop) w :
  (∀ w, I1 w → I2 w) → wp exec I1 p Q w → wp exec I2 p Q w.
Proof.
  intros HI. revert w. induction p as [a|e k IH]; simpl; intros w [Hi H]; [auto|].
  split; [auto|]. intros r w' Hr. apply IH. by apply H.
Qed.

(** ** A process that serves calls, crashes and restarts

    [calls] starts a call, [returns] is what its return adds to the world (the
    theorems' ledgers), [boots] says which object a restart builds. *)
Section Process.
Context {E : signature} {W S A : Type} (exec : ∀ e : E, W → response e → W → Prop)
  (calls : S → W → prog E (A * S) → W → Prop) (returns : A → W → W → Prop)
  (boots : W → S → Prop).

Inductive process : Type :=
| Idle (s : S)
| Running (p : prog E (A * S))
| Crashed.

Inductive process_step : process * W → process * W → Prop :=
| process_call s w p w' : calls s w p w' → process_step (Idle s, w) (Running p, w')
| process_effect p p' w w' : pstep exec (p, w) (p', w') → process_step (Running p, w) (Running p', w')
| process_return a s w w' : returns a w w' → process_step (Running (Ret (a, s)), w) (Idle s, w')
| process_crash n w : process_step (n, w) (Crashed, w)
| process_boot s w : boots w s → process_step (Crashed, w) (Idle s, w).

Context (I : W → Prop) (J : S → W → Prop).
Hypothesis calls_ok : ∀ s w p w', calls s w p w' → I w → J s w →
  wp exec I p (λ rs w1, ∀ w2, returns rs.1 w1 w2 → I w2 ∧ J rs.2 w2) w'.
Hypothesis boots_ok : ∀ w s, boots w s → I w → J s w.

Definition process_inv (n : process * W) : Prop :=
  match n.1 with
  | Idle s => I n.2 ∧ J s n.2
  | Running p => wp exec I p (λ rs w1, ∀ w2, returns rs.1 w1 w2 → I w2 ∧ J rs.2 w2) n.2
  | Crashed => I n.2
  end.

Lemma process_step_inv n n' : process_step n n' → process_inv n → process_inv n'.
Proof.
  intros Hs. destruct Hs as [s w p w' Hc|p p' w w' Hp|a s w w' Hr|n w|s w Hb]; unfold process_inv; simpl.
  - intros [Hi Hj]. by eapply calls_ok.
  - intros Hw. by eapply wp_pstep.
  - intros [_ Hq]. by apply Hq.
  - destruct n; [by intros [] | apply wp_crash | done].
  - intros Hi. eauto.
Qed.

(** In every reachable state, also in the middle of a call, the world keeps its
    invariant. *)
Lemma process_reachable_inv w0 n : I w0 → rtc process_step (Crashed, w0) n → process_inv n ∧ I n.2.
Proof.
  intros H0 Hr. assert (process_inv n) as Hn.
  { assert (∀ a b, rtc process_step a b → process_inv a → process_inv b) as Hall.
    { induction 1 as [|a b c Hs _ IH]; [done|]. intros Hi. by apply IH, (process_step_inv a). }
    by apply (Hall _ _ Hr). }
  split; [done|]. destruct n as [[s|p|] w]; unfold process_inv in Hn; simpl in *; [by destruct Hn | by eapply wp_crash | done].
Qed.
End Process.
Arguments process _ _ _ : clear implicits.

(** Running a program against a scripted environment: [answer] gives the response
    to each request, and [None] where the script ends. *)
Fixpoint run {E : signature} {A W} (answer : ∀ e : E, W → option (response e * W))
    (p : prog E A) (w : W) : option (A * W) :=
  match p with
  | Ret a => Some (a, w)
  | Do e k => '(r, w') ← answer e w; run answer (k r) w'
  end.

Lemma run_wp {E : signature} {A W} (exec : ∀ e : E, W → response e → W → Prop)
    (answer : ∀ e : E, W → option (response e * W)) I (p : prog E A) Q w a w' :
  (∀ e w r w', answer e w = Some (r, w') → exec e w r w') →
  wp exec I p Q w → run answer p w = Some (a, w') → Q a w'.
Proof.
  intros Hx. revert w. induction p as [b|e k IH]; simpl; intros w [Hi Hp] Hr.
  - by simplify_eq.
  - destruct (answer e w) as [[r w1]|] eqn:Ha; [|done]. simpl in Hr.
    eapply IH; [|exact Hr]. by apply Hp, Hx.
Qed.

(** A scripted run is a run of the process. *)
Lemma run_process {E : signature} {W S A} (exec : ∀ e : E, W → response e → W → Prop) calls returns boots
    (answer : ∀ e : E, W → option (response e * W)) (p : prog E (A * S)) w a w' :
  (∀ e w r w', answer e w = Some (r, w') → exec e w r w') →
  run answer p w = Some (a, w') →
  rtc (process_step exec calls returns boots) (Running p, w) (Running (Ret a), w').
Proof.
  intros Hx. revert w. induction p as [b|e k IH]; simpl; intros w Hr.
  - by simplify_eq.
  - destruct (answer e w) as [[r w1]|] eqn:Ha; [|done]. simpl in Hr.
    eapply rtc_l; [apply process_effect, pstep_do, (Hx _ _ _ _ Ha)|]. by apply IH.
Qed.

(** * Coroutines that interleave

    An event loop runs a pool of coroutines; each of their effects is atomic, and they
    interleave in any order.  [rg] is a rely-guarantee logic for one coroutine: it holds
    a set of tokens (locks), relies on what the others may do to the world while it holds
    them, and guarantees that it does nothing the others rely on not being done. *)

#[local] Open Scope list_scope.

Section Pool.
Context {E : signature} {W : Type} (exec : ∀ e : E, W → response e → W → Prop).
Context {T : Type} `{Countable T} (held : W → gset T).
(** What the tokens a coroutine holds become after an effect *)
Context (after : E → gset T → gset T).
(** What the others may do while a coroutine holds tokens *)
Context (rely : gset T → W → W → Prop) (I : W → Prop).

Fixpoint rg {A} (L : gset T) (p : prog E A) (Q : A → gset T → W → Prop) (w : W) : Prop :=
  match p with
  | Ret a => Q a L w
  | Do e k => ∀ w1, rely L w w1 → I w1 → L ⊆ held w1 → ∀ r w2, exec e w1 r w2 →
      I w2 ∧ (∀ M, M ⊆ held w1 ∖ L → rely M w1 w2) ∧
      held w2 = (held w1 ∖ L) ∪ after e L ∧ after e L ## held w1 ∖ L ∧
      rg (after e L) (k r) Q w2
  end.

Lemma rg_mono {A} L (p : prog E A) (Q Q' : A → gset T → W → Prop) w :
  (∀ a L w, Q a L w → Q' a L w) → rg L p Q w → rg L p Q' w.
Proof.
  intros HQ. revert L w. induction p as [a|e k IH]; intros L w; simpl; [apply HQ|].
  intros Hp w1 Hr Hi HL r w2 Hx. destruct (Hp w1 Hr Hi HL r w2 Hx) as (? & ? & ? & ? & Hk). split_and!; [done..|]. by apply IH.
Qed.

Lemma rg_bind {A B} L (p : prog E A) (f : A → prog E B) Q w :
  rg L p (λ a L' w', rg L' (f a) Q w') w → rg L (prog_bind p f) Q w.
Proof.
  revert L w. induction p as [a|e k IH]; intros L w; simpl; [done|].
  intros Hp w1 Hr Hi HL r w2 Hx. destruct (Hp w1 Hr Hi HL r w2 Hx) as (? & ? & ? & ? & Hk). split_and!; [done..|]. by apply IH.
Qed.

Context {A : Type}.

(** The pool: the coroutines that run, and what a new one may be. *)
Context (calls : prog E A → Prop).

Inductive pool_step : list (prog E A) * W → list (prog E A) * W → Prop :=
| pool_call ps p w : calls p → pool_step (ps, w) (ps ++ [p], w)
| pool_effect ps i p p' w w' :
    ps !! i = Some p → pstep exec (p, w) (p', w') → pool_step (ps, w) (<[i := p']> ps, w').

Hypothesis rely_refl : ∀ L w, rely L w w.
Hypothesis rely_trans : ∀ L w1 w2 w3, rely L w1 w2 → rely L w2 w3 → rely L w1 w3.
Hypothesis calls_ok : ∀ p w, calls p → rg ∅ p (λ _ L _, L = ∅) w.

Lemma rg_stable L (p : prog E A) Q w w' : rely L w w' → (∀ a, Q a L w → Q a L w') → rg L p Q w → rg L p Q w'.
Proof.
  intros Hr HQ. destruct p as [a|e k]; simpl; [apply HQ|].
  intros Hp w1 Hr1. apply Hp. by eapply rely_trans.
Qed.

(** Every coroutine is safe, and their tokens are those held, each once. *)
Definition pool_inv (n : list (prog E A) * W) : Prop :=
  ∃ Ls : list (gset T), Forall2 (λ L p, rg L p (λ _ L _, L = ∅) n.2) Ls n.1 ∧ I n.2 ∧
    held n.2 = ⋃ Ls ∧ ∀ i j L M, i ≠ j → Ls !! i = Some L → Ls !! j = Some M → L ## M.

Lemma union_insert (Ls : list (gset T)) i L' (t : T) :
  i < length Ls → t ∈ ⋃ (<[i := L']> Ls) ↔ t ∈ L' ∨ ∃ j M, j ≠ i ∧ Ls !! j = Some M ∧ t ∈ M.
Proof.
  intros Hi. rewrite elem_of_union_list. split.
  - intros (M & [j Hj]%list_elem_of_lookup & Ht). apply list_lookup_insert_Some in Hj as [(_ & -> & _)|[Hne Hj]]; [by left|].
    right. exists j, M. by split_and!.
  - intros [Ht | (j & M & Hne & Hj & Ht)].
    + exists L'. split; [|done]. apply list_elem_of_lookup. exists i. by apply list_lookup_insert_eq.
    + exists M. split; [|done]. apply list_elem_of_lookup. exists j. by rewrite list_lookup_insert_ne.
Qed.

Definition tokens_apart (Ls : list (gset T)) : Prop :=
  ∀ i j L M, i ≠ j → Ls !! i = Some L → Ls !! j = Some M → L ## M.

(** The tokens of the others *)
Lemma union_others (Ls : list (gset T)) i L t :
  tokens_apart Ls → Ls !! i = Some L →
  t ∈ ⋃ Ls ∖ L ↔ ∃ j M, j ≠ i ∧ Ls !! j = Some M ∧ t ∈ M.
Proof.
  intros Hd Hi. rewrite elem_of_difference, elem_of_union_list. split.
  - intros [(M & [j Hj]%list_elem_of_lookup & Ht) HtL]. exists j, M. split_and!; [|done..]. intros ->. by simplify_eq.
  - intros (j & M & Hne & Hj & Ht). split.
    + exists M. split; [|done]. apply list_elem_of_lookup. eauto.
    + intros HtL. by apply (Hd j i M L Hne Hj Hi t).
Qed.

Lemma pool_call_inv ps p w : calls p → pool_inv (ps, w) → pool_inv (ps ++ [p], w).
Proof.
  intros Hc (Ls & Hrg & Hi & Hh & Hd). exists (Ls ++ [∅]). simpl in *. split_and!; [| done | |].
  - apply Forall2_app; [done|]. constructor; [by apply calls_ok | constructor].
  - rewrite Hh, union_list_app_L. simpl. by rewrite !(right_id_L ∅ (∪)).
  - intros i j L M Hne HL HM. rewrite lookup_app_Some, list_lookup_singleton_Some in HL.
    rewrite lookup_app_Some, list_lookup_singleton_Some in HM.
    destruct HL as [HL|(_ & _ & <-)]; [|set_solver]. destruct HM as [HM|(_ & _ & <-)]; [by eapply Hd | set_solver].
Qed.

Lemma pool_effect_inv ps i p p' w w' :
  ps !! i = Some p → pstep exec (p, w) (p', w') → pool_inv (ps, w) → pool_inv (<[i := p']> ps, w').
Proof.
  intros Hp Hs (Ls & Hrg & Hi & Hh & Hd). simpl in *.
  destruct (Forall2_lookup_r _ _ _ _ _ Hrg Hp) as (L & HL & Hpr).
  inversion Hs as [e k w0 r w0' Hx]; subst. simpl in Hpr.
  assert (L ⊆ held w) as HLh.
  { rewrite Hh. intros t Ht. apply elem_of_union_list. exists L. split; [|done]. apply list_elem_of_lookup. eauto. }
  destruct (Hpr w (rely_refl _ _) Hi HLh r w' Hx) as (Hi' & Hg & Hh' & Hdisj & Hk).
  pose proof (lookup_lt_Some _ _ _ HL) as Hlt. exists (<[i := after e L]> Ls). simpl. split_and!; [| done | |].
  - apply Forall2_same_length_lookup. split; [rewrite !length_insert; by eapply Forall2_length|].
    intros j M q HM Hq. apply list_lookup_insert_Some in HM as [(<- & <- & _)|[Hne HM]].
    + rewrite list_lookup_insert_eq in Hq by (by eapply lookup_lt_Some). by injection Hq as <-.
    + rewrite list_lookup_insert_ne in Hq by done. pose proof (Forall2_lookup_lr _ _ _ _ _ _ Hrg HM Hq) as Hold.
      eapply rg_stable; [|done|exact Hold]. apply Hg. rewrite Hh. intros t Ht. apply (union_others Ls i L t Hd HL).
      exists j, M. by split_and!.
  - rewrite Hh'. apply set_eq. intros t. rewrite elem_of_union, union_insert by done. rewrite Hh, (union_others Ls i L t Hd HL). tauto.
  - assert (∀ j M, j ≠ i → Ls !! j = Some M → after e L ## M) as Hap.
    { intros j M Hne HM t Ht HtM. apply (Hdisj t Ht). rewrite Hh. apply (union_others Ls i L t Hd HL). exists j, M. by split_and!. }
    intros j1 j2 L1 L2 Hne H1 H2. apply list_lookup_insert_Some in H1 as [(<- & <- & _)|[Hn1 H1]];
      apply list_lookup_insert_Some in H2 as [(<- & <- & _)|[Hn2 H2]]; [done | by eapply Hap | | exact (Hd j1 j2 L1 L2 Hne H1 H2)].
    symmetry. by eapply Hap.
Qed.

(** In every reachable state, however the coroutines interleave, the world keeps its
    invariant. *)
Lemma pool_reachable w n :
  I w → held w = ∅ → rtc pool_step ([], w) n → pool_inv n ∧ I n.2.
Proof.
  intros Hi Hh Hs. assert (pool_inv n) as Hn; [|split; [done | by destruct Hn as (? & _ & ? & _)]].
  assert (pool_inv ([], w)) as H0 by (exists []; simpl; split_and!; [constructor | done | done | by intros ? ? ? ? ? ?]).
  remember ([], w) as n0 eqn:Hn0. clear Hn0 Hi Hh w. induction Hs as [n|n1 n2 n3 Hst _ IH]; [done|].
  apply IH. destruct Hst as [ps p w Hc|ps i p p' w w' Hp Hst]; [by apply pool_call_inv | by eapply pool_effect_inv].
Qed.
End Pool.

(** ** A scheduler

    Runs a pool: the coroutine with number [i] takes its next step, if [step] allows it. *)
Section Scheduler.
Context {E : signature} {W A : Type} (exec : ∀ e : E, W → response e → W → Prop).
Context (step : ∀ e : E, W → option (response e * W)) (calls : prog E A → Prop).

Definition run_one (n : list (prog E A) * W) (i : nat) : list (prog E A) * W :=
  match n.1 !! i with
  | Some (Do e k) => match step e n.2 with Some (r, w') => (<[i := k r]> n.1, w') | None => n end
  | _ => n
  end.

Definition run_pool (schedule : list nat) (n : list (prog E A) * W) : list (prog E A) * W := fold_left run_one schedule n.

Lemma run_pool_sound schedule n :
  (∀ e w r w', step e w = Some (r, w') → exec e w r w') → rtc (pool_step exec calls) n (run_pool schedule n).
Proof.
  intros Hstep. revert n. induction schedule as [|i schedule IH]; intros n; [done|]. cbn [run_pool fold_left].
  etrans; [|apply IH]. destruct n as [ps w]. unfold run_one. cbn [fst snd].
  destruct (ps !! i) as [[|e k]|] eqn:Ep; [done | | done]. destruct (step e w) as [[r w']|] eqn:Es; [|done].
  apply rtc_once. eapply pool_effect; [exact Ep|]. constructor. by apply Hstep.
Qed.

Lemma call_all ps0 ps w : Forall calls ps → rtc (pool_step exec calls) (ps0, w) (ps0 ++ ps, w).
Proof.
  revert ps0. induction ps as [|p ps IH]; intros ps0 Hc; [by rewrite app_nil_r|]. inversion Hc; subst.
  eapply rtc_l; [by apply pool_call|]. change (p :: ps) with ([p] ++ ps). rewrite app_assoc. by apply IH.
Qed.
End Scheduler.

(** Everyone takes a step in turn. *)
Definition round_robin (n rounds : nat) : list nat := concat (repeat (seq 0 n) rounds).
