(* ===== verification/Client.v ===== *)
(** * BatchSettlementClient: definitions

    Models prsm/settlement/client.py.  Every public method is a program
    ([Effects.M]) over the client object [Client], performing the effects of
    [settle]: the clock, writes of the state file and of the retention file, and
    calls on the contract.  The methods run one at a time under the client's lock,
    so an [await] suspends the method but no other method runs meanwhile; a crash
    can happen at any effect.

    The contract is the abstract [SettlementContractClient] protocol: its answers
    are the responses to the effects.  [contract.address], a plain attribute, is a
    field of the client. *)
From Stdlib Require Import ZArith Lia.
From S2P Require Import PyStd.
From S2P Require Import Externals.
From S2P Require Import Receipt.
From S2P Require Import Attestation.
From S2P Require Import Merkle.
From S2P Require Import Accumulator.
From S2P Require Import Published.
From S2P Require Import Effects.
From S2P Require Import Prelude.

#[local] Open Scope string_scope.
#[local] Open Scope list_scope.
#[local] Open Scope Z_scope.

Definition STATE_VERSION : Z := 1.
Definition MAX_COMMITTED_ESCROW_IDS : Z := 200000.

(** ** Data *)

Record CommittedBatch : Type := {
  cb_batch_id : bytes;
  cb_tx_hash : string;
  cb_provider_address : string;
  cb_requester_address : string;
  cb_merkle_root : bytes;
  cb_receipt_count : Z;
  cb_total_value_ftns : Z;
  cb_commit_timestamp : Z;
  cb_leaf_hashes : list bytes;
  cb_trigger_reason : TriggerReason
}.

Record FinalizedBatch : Type := { fb_batch_id : bytes; fb_tx_submitted : bool }.

Record CommitIntent : Type := {
  ci_accumulator_key : AccumulatorKey;
  ci_merkle_root : bytes;
  ci_leaf_hashes : list bytes;
  ci_receipt_count : Z;
  ci_total_value_ftns : Z;
  ci_provider_address : string;
  ci_requester_address : string;
  ci_trigger_reason : TriggerReason
}.

Record PendingCommit : Type := {
  pc_accumulator_key : AccumulatorKey;
  pc_tx_hash : string;
  pc_merkle_root : bytes;
  pc_leaf_hashes : list bytes;
  pc_receipt_count : Z;
  pc_total_value_ftns : Z;
  pc_provider_address : string;
  pc_requester_address : string;
  pc_trigger_reason : TriggerReason
}.

(** The arguments of [commitBatch]. *)
Record CommitCall : Type := {
  cc_provider_address : string;
  cc_requester_address : string;
  cc_merkle_root : bytes;
  cc_receipt_count : Z;
  cc_total_value_ftns : Z;
  cc_tier_slash_rate_bps : Z;
  cc_consensus_group_id : bytes;
  cc_metadata_uri : string;
  cc_attestation_commitment : bytes
}.

(** The client object.  [c_committed_escrow_ids] lists the keys of the
    [OrderedDict], oldest first. *)
Record Client : Type := {
  c_accumulator : ReceiptAccumulator;
  c_provider : string;
  c_address : option string;
  c_can_scan : bool;
  c_has_store : bool;
  c_published : option PublishedBatchStore;
  c_tracked : dict bytes CommittedBatch;
  c_finalized_ids : gset bytes;
  c_pending_commits : dict string PendingCommit;
  c_committing : dict string CommitIntent;
  c_committed_escrow_ids : list string
}.

(** ** Effects *)

Inductive settle_request : Type :=
| Now                                                  (* int(time.time()) *)
| Save (state : json)                                  (* SettlementStateStore.save *)
| SavePublished (state : json)                         (* the retention file *)
| CommitBatch (call : CommitCall) (receipts : list BatchedReceipt)
    (* [receipts] is not an argument of the call: it names, for the theorems,
       the receipts the committed root stands for *)
| IsFinalizable (batch_id : bytes)
| FinalizeBatch (batch_id : bytes)
| GetBatchStatus (batch_id : bytes)
| GetCommittedBatchForTx (tx_hash : string)
| FindCommittedBatchByRoot (provider : string) (root : bytes).

Definition settle_response (e : settle_request) : Type :=
  match e with
  | Now => Z
  | Save _ | SavePublished _ | FinalizeBatch _ => result unit
  | CommitBatch _ _ => result (bytes * Z)
  | IsFinalizable _ => result bool
  | GetBatchStatus _ => result Z
  | GetCommittedBatchForTx _ | FindCommittedBatchByRoot _ _ => result (option (bytes * Z))
  end.

Definition settle : signature := {| request := settle_request; response := settle_response |}.

(** ** Field updates *)

Definition with_accumulator (f : ReceiptAccumulator → ReceiptAccumulator) (c : Client) : Client :=
  {| c_accumulator := f (c_accumulator c); c_provider := c_provider c; c_address := c_address c;
     c_can_scan := c_can_scan c; c_has_store := c_has_store c; c_published := c_published c;
     c_tracked := c_tracked c; c_finalized_ids := c_finalized_ids c;
     c_pending_commits := c_pending_commits c; c_committing := c_committing c;
     c_committed_escrow_ids := c_committed_escrow_ids c |}.
Definition with_published (p : option PublishedBatchStore) (c : Client) : Client :=
  {| c_accumulator := c_accumulator c; c_provider := c_provider c; c_address := c_address c;
     c_can_scan := c_can_scan c; c_has_store := c_has_store c; c_published := p;
     c_tracked := c_tracked c; c_finalized_ids := c_finalized_ids c;
     c_pending_commits := c_pending_commits c; c_committing := c_committing c;
     c_committed_escrow_ids := c_committed_escrow_ids c |}.
Definition with_tracked (f : dict bytes CommittedBatch → dict bytes CommittedBatch) (c : Client)
  : Client :=
  {| c_accumulator := c_accumulator c; c_provider := c_provider c; c_address := c_address c;
     c_can_scan := c_can_scan c; c_has_store := c_has_store c; c_published := c_published c;
     c_tracked := f (c_tracked c); c_finalized_ids := c_finalized_ids c;
     c_pending_commits := c_pending_commits c; c_committing := c_committing c;
     c_committed_escrow_ids := c_committed_escrow_ids c |}.
Definition with_finalized (b : bytes) (c : Client) : Client :=
  {| c_accumulator := c_accumulator c; c_provider := c_provider c; c_address := c_address c;
     c_can_scan := c_can_scan c; c_has_store := c_has_store c; c_published := c_published c;
     c_tracked := c_tracked c; c_finalized_ids := {[ b ]} ∪ c_finalized_ids c;
     c_pending_commits := c_pending_commits c; c_committing := c_committing c;
     c_committed_escrow_ids := c_committed_escrow_ids c |}.
Definition with_pending (f : dict string PendingCommit → dict string PendingCommit) (c : Client)
  : Client :=
  {| c_accumulator := c_accumulator c; c_provider := c_provider c; c_address := c_address c;
     c_can_scan := c_can_scan c; c_has_store := c_has_store c; c_published := c_published c;
     c_tracked := c_tracked c; c_finalized_ids := c_finalized_ids c;
     c_pending_commits := f (c_pending_commits c); c_committing := c_committing c;
     c_committed_escrow_ids := c_committed_escrow_ids c |}.
Definition with_committing (f : dict string CommitIntent → dict string CommitIntent) (c : Client)
  : Client :=
  {| c_accumulator := c_accumulator c; c_provider := c_provider c; c_address := c_address c;
     c_can_scan := c_can_scan c; c_has_store := c_has_store c; c_published := c_published c;
     c_tracked := c_tracked c; c_finalized_ids := c_finalized_ids c;
     c_pending_commits := c_pending_commits c; c_committing := f (c_committing c);
     c_committed_escrow_ids := c_committed_escrow_ids c |}.
Definition with_ledger (f : list string → list string) (c : Client) : Client :=
  {| c_accumulator := c_accumulator c; c_provider := c_provider c; c_address := c_address c;
     c_can_scan := c_can_scan c; c_has_store := c_has_store c; c_published := c_published c;
     c_tracked := c_tracked c; c_finalized_ids := c_finalized_ids c;
     c_pending_commits := c_pending_commits c; c_committing := c_committing c;
     c_committed_escrow_ids := f (c_committed_escrow_ids c) |}.

Definition pop_key (key : AccumulatorKey) : Client → Client :=
  with_accumulator (λ a, (pop_batch a key).2).

(** ** The committed-escrow-id ledger *)

(** [_record_committed_escrow_id] on the ledger: move to newest, then evict the
    oldest over the cap. *)
Definition ledger_record (escrow_id : string) (l : list string) : list string :=
  if str_nonempty escrow_id
  then evict_oldest MAX_COMMITTED_ESCROW_IDS (filter (λ e, e ≠ escrow_id) l ++ [escrow_id])
  else l.

(** [_discard_committed_escrow_id] *)
Definition ledger_discard (escrow_id : string) (l : list string) : list string :=
  if str_nonempty escrow_id then filter (λ e, e ≠ escrow_id) l else l.

Definition ledger_has (escrow_id : string) (l : list string) : bool :=
  str_nonempty escrow_id && bool_decide (escrow_id ∈ l).

Definition has_committed_escrow_id (c : Client) (escrow_id : string) : bool :=
  ledger_has escrow_id (c_committed_escrow_ids c).

Definition record_all (rs : list BatchedReceipt) (l : list string) : list string :=
  fold_left (λ l br, ledger_record (local_escrow_id br) l) rs l.
Definition discard_all (rs : list BatchedReceipt) (l : list string) : list string :=
  fold_left (λ l br, ledger_discard (local_escrow_id br) l) rs l.

(** ** Durable state *)

Definition trigger_value (t : TriggerReason) : string :=
  match t with COUNT => "count" | TIME => "time" | VALUE => "value" end.
(** [TriggerReason(x)] *)
Definition trigger_of_json (j : json) : result TriggerReason :=
  s ← jstr j;
  if bool_decide (s = "count") then Ok COUNT
  else if bool_decide (s = "time") then Ok TIME
  else if bool_decide (s = "value") then Ok VALUE
  else Err ValueError.

Definition key_to_json (k : AccumulatorKey) : json :=
  let '(requester, provider, group_id, slash_bps) := k in
  JArr [JStr requester; JStr provider; JStr (hex group_id); JInt slash_bps].
Definition key_of_json (j : json) : result AccumulatorKey :=
  match j with
  | JArr [r; p; g; s] =>
      r ← jstr r; p ← jstr p; g ← fromhex_json g; s ← jint s; Ok (r, p, g, s)
  | JArr _ => Err ValueError
  | _ => Err TypeError
  end.

Definition hashes_to_json (l : list bytes) : json := JArr (JStr <$> (hex <$> l)).
Definition hashes_of_json (j : json) : result (list bytes) :=
  l ← jarr j; result_mapM fromhex_json l.

Definition committed_to_dict (cb : CommittedBatch) : json :=
  JObj [("batch_id", JStr (hex (cb_batch_id cb)));
        ("tx_hash", JStr (cb_tx_hash cb));
        ("provider_address", JStr (cb_provider_address cb));
        ("requester_address", JStr (cb_requester_address cb));
        ("merkle_root", JStr (hex (cb_merkle_root cb)));
        ("receipt_count", JInt (cb_receipt_count cb));
        ("total_value_ftns", JInt (cb_total_value_ftns cb));
        ("commit_timestamp", JInt (cb_commit_timestamp cb));
        ("leaf_hashes", hashes_to_json (cb_leaf_hashes cb));
        ("trigger_reason", JStr (trigger_value (cb_trigger_reason cb)))].

Definition committed_from_dict (d : json) : result CommittedBatch :=
  b ← jget "batch_id" d ≫= fromhex_json;
  tx ← jget "tx_hash" d ≫= jstr;
  p ← jget "provider_address" d ≫= jstr;
  q ← jget "requester_address" d ≫= jstr;
  m ← jget "merkle_root" d ≫= fromhex_json;
  n ← jget "receipt_count" d ≫= jint;
  v ← jget "total_value_ftns" d ≫= jint;
  ts ← jget "commit_timestamp" d ≫= jint;
  ls ← jget "leaf_hashes" d ≫= hashes_of_json;
  t ← jget "trigger_reason" d ≫= trigger_of_json;
  Ok {| cb_batch_id := b; cb_tx_hash := tx; cb_provider_address := p; cb_requester_address := q;
        cb_merkle_root := m; cb_receipt_count := n; cb_total_value_ftns := v;
        cb_commit_timestamp := ts; cb_leaf_hashes := ls; cb_trigger_reason := t |}.

Definition pending_to_dict (pc : PendingCommit) : json :=
  JObj [("accumulator_key", key_to_json (pc_accumulator_key pc));
        ("tx_hash", JStr (pc_tx_hash pc));
        ("merkle_root", JStr (hex (pc_merkle_root pc)));
        ("leaf_hashes", hashes_to_json (pc_leaf_hashes pc));
        ("receipt_count", JInt (pc_receipt_count pc));
        ("total_value_ftns", JInt (pc_total_value_ftns pc));
        ("provider_address", JStr (pc_provider_address pc));
        ("requester_address", JStr (pc_requester_address pc));
        ("trigger_reason", JStr (trigger_value (pc_trigger_reason pc)))].

Definition pending_from_dict (d : json) : result PendingCommit :=
  k ← jget "accumulator_key" d ≫= key_of_json;
  tx ← jget "tx_hash" d ≫= jstr;
  m ← jget "merkle_root" d ≫= fromhex_json;
  ls ← jget "leaf_hashes" d ≫= hashes_of_json;
  n ← jget "receipt_count" d ≫= jint;
  v ← jget "total_value_ftns" d ≫= jint;
  p ← jget "provider_address" d ≫= jstr;
  q ← jget "requester_address" d ≫= jstr;
  t ← jget "trigger_reason" d ≫= trigger_of_json;
  Ok {| pc_accumulator_key := k; pc_tx_hash := tx; pc_merkle_root := m; pc_leaf_hashes := ls;
        pc_receipt_count := n; pc_total_value_ftns := v; pc_provider_address := p;
        pc_requester_address := q; pc_trigger_reason := t |}.

Definition intent_to_dict (ci : CommitIntent) : json :=
  JObj [("accumulator_key", key_to_json (ci_accumulator_key ci));
        ("merkle_root", JStr (hex (ci_merkle_root ci)));
        ("leaf_hashes", hashes_to_json (ci_leaf_hashes ci));
        ("receipt_count", JInt (ci_receipt_count ci));
        ("total_value_ftns", JInt (ci_total_value_ftns ci));
        ("provider_address", JStr (ci_provider_address ci));
        ("requester_address", JStr (ci_requester_address ci));
        ("trigger_reason", JStr (trigger_value (ci_trigger_reason ci)))].

Definition intent_from_dict (d : json) : result CommitIntent :=
  k ← jget "accumulator_key" d ≫= key_of_json;
  m ← jget "merkle_root" d ≫= fromhex_json;
  ls ← jget "leaf_hashes" d ≫= hashes_of_json;
  n ← jget "receipt_count" d ≫= jint;
  v ← jget "total_value_ftns" d ≫= jint;
  p ← jget "provider_address" d ≫= jstr;
  q ← jget "requester_address" d ≫= jstr;
  t ← jget "trigger_reason" d ≫= trigger_of_json;
  Ok {| ci_accumulator_key := k; ci_merkle_root := m; ci_leaf_hashes := ls;
        ci_receipt_count := n; ci_total_value_ftns := v; ci_provider_address := p;
        ci_requester_address := q; ci_trigger_reason := t |}.

Definition pending_entry_to_json (kb : AccumulatorKey * PendingBatch) : json :=
  JObj [("accumulator_key", key_to_json kb.1);
        ("started_at_unix", JInt (batch_started_at_unix kb.2));
        ("receipts", JArr (batched_receipt_to_dict <$> batch_receipts kb.2))].

Definition serialize_pending (c : Client) : json :=
  JArr (pending_entry_to_json <$> pending_items (c_accumulator c)).

Definition serialize_state (c : Client) : json :=
  JObj [("version", JInt STATE_VERSION);
        ("tracked", JObj ((λ kv : bytes * CommittedBatch, (hex kv.1, committed_to_dict kv.2))
                          <$> c_tracked c));
        ("finalized_ids", JArr (JStr <$> sort_by string_leb (hex <$> elements (c_finalized_ids c))));
        ("pending_commits", JObj (prod_map id pending_to_dict <$> c_pending_commits c));
        ("committing", JObj (prod_map id intent_to_dict <$> c_committing c));
        ("pending_batches", serialize_pending c);
        ("committed_escrow_ids", JArr (JStr <$> c_committed_escrow_ids c))].

(** [(state.get(key) or {}).items()] *)
Definition items_or_empty (key : string) (state : dict string json)
  : result (list (string * json)) :=
  let v := get_or_null key state in
  if truthy v then match v with JObj o => Ok o | _ => Err AttributeError end else Ok [].
(** iteration over [state.get(key) or []] *)
Definition list_or_empty (key : string) (state : dict string json) : result (list json) :=
  let v := get_or_null key state in if truthy v then jarr v else Ok [].

(** A dict comprehension over JSON items: keys and values decoded in turn. *)
Definition decode_items {K V} `{!EqDecision K} (dk : string → result K) (dv : json → result V)
    (items : list (string * json)) : result (dict K V) :=
  kvs ← result_mapM (λ kv : string * json, k ← dk kv.1; v ← dv kv.2; Ok (k, v)) items;
  Ok (dict_of_list kvs).

(** [OrderedDict.fromkeys] *)
Definition fromkeys (l : list string) : list string :=
  fold_left (λ acc e, if bool_decide (e ∈ acc) then acc else acc ++ [e]) l [].

Definition intent_keys (c : Client) : list AccumulatorKey :=
  ci_accumulator_key <$> dict_values (c_committing c).

(** One iteration of [_restore_pending]. *)
Definition restore_entry (keys : list AccumulatorKey) (a : ReceiptAccumulator) (entry : json)
  : result ReceiptAccumulator :=
  key ← jget "accumulator_key" entry ≫= key_of_json;
  if bool_decide (key ∈ keys) then Ok a
  else
    raw ← jget "receipts" entry ≫= jarr;
    rs ← result_mapM batched_receipt_from_dict raw;
    t ← jget "started_at_unix" entry ≫= int_of_json;
    restore_pending a key rs t.

Definition restore_all (c : Client) (entries : list json) : result Client :=
  a ← result_foldM (restore_entry (intent_keys c)) (c_accumulator c) entries;
  Ok (with_accumulator (λ _, a) c).

(** [version != _STATE_VERSION] ([True == 1] in Python). *)
Definition version_ok (j : json) : bool :=
  match j with JInt z => z =? STATE_VERSION | JBool b => b | _ => false end.

(** The exceptions [_apply_state] reports as a corrupt state. *)
Definition schema_error (e : exn) : bool :=
  is_value_error e ||
  match e with KeyError | TypeError | AttributeError => true | _ => false end.

Definition apply_state (c : Client) (state : dict string json) : result Client :=
  _ ← raise_if (negb (version_ok (get_or_null "version" state))) SettlementStateCorruptError;
  rethrow schema_error SettlementStateCorruptError
    (tracked ← items_or_empty "tracked" state ≫=
       decode_items (λ h, of_option ValueError (fromhex h)) committed_from_dict;
     finalized ← list_or_empty "finalized_ids" state ≫= result_mapM fromhex_json;
     pending ← items_or_empty "pending_commits" state ≫= decode_items Ok pending_from_dict;
     committing ← items_or_empty "committing" state ≫= decode_items Ok intent_from_dict;
     ledger ← list_or_empty "committed_escrow_ids" state ≫= result_mapM jstr;
     entries ← list_or_empty "pending_batches" state;
     restore_all
       {| c_accumulator := c_accumulator c; c_provider := c_provider c; c_address := c_address c;
          c_can_scan := c_can_scan c; c_has_store := c_has_store c; c_published := c_published c;
          c_tracked := tracked; c_finalized_ids := list_to_set finalized;
          c_pending_commits := pending; c_committing := committing;
          c_committed_escrow_ids := fromkeys ledger |} entries).

(** [BatchSettlementClient(...)]: an empty client, rehydrated from the state file
    when a store is configured.  [c] carries the constructor's arguments. *)
Definition fresh_client (c : Client) : Client :=
  {| c_accumulator := set_pending (c_accumulator c) []; c_provider := c_provider c;
     c_address := c_address c; c_can_scan := c_can_scan c; c_has_store := c_has_store c;
     c_published := c_published c; c_tracked := []; c_finalized_ids := ∅;
     c_pending_commits := []; c_committing := []; c_committed_escrow_ids := [] |}.

Definition client_init (c : Client) (f : file) : result Client :=
  if c_has_store c then
    persisted ← store_load f;
    match persisted with
    | Some state => apply_state (fresh_client c) state
    | None => Ok (fresh_client c)
    end
  else Ok (fresh_client c).

(** ** Methods *)

Abbreviation method A := (M settle Client A).

Definition persist : method unit :=
  c ← get;
  if c_has_store c then r ← perform (E := settle) (Save (serialize_state c)); lift r
  else mret ().

(** [accumulate] *)
Definition accumulate (br : BatchedReceipt) : method unit :=
  c ← get;
  if bool_decide (provider_address br ≠ c_provider c ∧ requester_address br ≠ c_provider c)
  then raise ValueError
  else if ledger_has (local_escrow_id br) (c_committed_escrow_ids c) then mret ()
  else
    now ← perform (E := settle) Now;
    let '(a, r) := acc_add (c_accumulator c) br now in
    _ ← modify (with_accumulator (λ _, a));
    _ ← lift r;
    persist.

Section Settle.
Context `{Externals}.

(** [_build_leaves_root] *)
Definition build_leaves_root (rs : list BatchedReceipt) : result (list bytes * bytes) :=
  leaf_hashes ← result_mapM (λ br, hash_leaf <$> batched_receipt_to_leaf br) rs;
  tree ← build_tree_and_proofs leaf_hashes;
  Ok (leaf_hashes, tree_root tree).

(** [_intent_key] *)
Definition intent_key (k : AccumulatorKey) (root : bytes) : string :=
  let '(requester, provider, group_id, slash_bps) := k in
  hex root +:+ "|" +:+ requester +:+ "|" +:+ provider +:+ "|" +:+ hex group_id +:+ "|" +:+
  str_of_int slash_bps.

(** [_build_intent] *)
Definition build_intent (ready : ReadyBatch) (leaf_hashes : list bytes) (root : bytes)
  : CommitIntent :=
  let '(requester, provider, _, _) := ready_key ready in
  {| ci_accumulator_key := ready_key ready; ci_merkle_root := root;
     ci_leaf_hashes := leaf_hashes; ci_receipt_count := zlen leaf_hashes;
     ci_total_value_ftns := batch_total_value_ftns (ready_batch ready);
     ci_provider_address := provider; ci_requester_address := requester;
     ci_trigger_reason := ready_trigger ready |}.

Definition pending_of (ready : ReadyBatch) (tx_hash : string) (leaf_hashes : list bytes)
    (root : bytes) : PendingCommit :=
  let '(requester, provider, _, _) := ready_key ready in
  {| pc_accumulator_key := ready_key ready; pc_tx_hash := tx_hash; pc_merkle_root := root;
     pc_leaf_hashes := leaf_hashes; pc_receipt_count := zlen leaf_hashes;
     pc_total_value_ftns := batch_total_value_ftns (ready_batch ready);
     pc_provider_address := provider; pc_requester_address := requester;
     pc_trigger_reason := ready_trigger ready |}.

(** [_quarantine_pending] *)
Definition quarantine_pending (ready : ReadyBatch) (tx_hash : string) (leaf_hashes : list bytes)
    (root : bytes) : method unit :=
  _ ← modify (pop_key (ready_key ready));
  _ ← modify (with_pending (dict_set tx_hash (pending_of ready tx_hash leaf_hashes root)));
  persist.

(** The write-time check of [_commit_one]: does the signing key control the
    batch's provider address? *)
Definition signer_check (signer : option string) (provider : string) : result unit :=
  match signer with
  | Some signer =>
      if starts_0x signer && (String.length signer =? 42)%nat then
        let want := strip provider in
        let want := if str_nonempty want && negb (starts_0x want) then "0x" +:+ want else want in
        raise_if (str_nonempty want && bool_decide (lower signer ≠ lower want))
                 ProviderAddressMismatchError
      else Ok tt
  | None => Ok tt
  end.

Definition commit_call (ready : ReadyBatch) (leaf_hashes : list bytes) (root attestation : bytes)
  : CommitCall :=
  let '(requester, provider, group_id, slash_bps) := ready_key ready in
  {| cc_provider_address := provider; cc_requester_address := requester;
     cc_merkle_root := root; cc_receipt_count := zlen leaf_hashes;
     cc_total_value_ftns := batch_total_value_ftns (ready_batch ready);
     cc_tier_slash_rate_bps := slash_bps; cc_consensus_group_id := group_id;
     cc_metadata_uri := ""; cc_attestation_commitment := attestation |}.

Definition committed_of (ready : ReadyBatch) (leaf_hashes : list bytes) (root : bytes)
    (batch_id : bytes) (commit_ts : Z) : CommittedBatch :=
  let '(requester, provider, _, _) := ready_key ready in
  {| cb_batch_id := batch_id; cb_tx_hash := ""; cb_provider_address := provider;
     cb_requester_address := requester; cb_merkle_root := root;
     cb_receipt_count := zlen leaf_hashes;
     cb_total_value_ftns := batch_total_value_ftns (ready_batch ready);
     cb_commit_timestamp := commit_ts; cb_leaf_hashes := leaf_hashes;
     cb_trigger_reason := ready_trigger ready |}.

(** [_commit_one] *)
Definition commit_one (ready : ReadyBatch) (leaf_hashes : list bytes) (root : bytes)
  : method CommittedBatch :=
  c ← get;
  _ ← lift (signer_check (c_address c) (ready_key ready).1.1.2);
  attestation ← lift (batch_attestation_commitment
                        ((λ br, tee_attestation (receipt br)) <$> batch_receipts (ready_batch ready)));
  r ← perform (E := settle) (CommitBatch (commit_call ready leaf_hashes root attestation)
                                         (batch_receipts (ready_batch ready)));
  '(batch_id, commit_ts) ← lift r;
  mret (committed_of ready leaf_hashes root batch_id commit_ts).

(** [getattr(exc, "tx_hash", None)] *)
Definition exn_tx_hash (e : exn) : option string :=
  match e with OnChainPendingError tx => Some tx | _ => None end.

(** The tail of a successful commit: promote, re-assert, persist, retain. *)
Definition promote (ready : ReadyBatch) (ik : string) (record : CommittedBatch) : method unit :=
  _ ← modify (pop_key (ready_key ready));
  _ ← modify (with_tracked (dict_set (cb_batch_id record) record));
  _ ← modify (with_committing (dict_del ik));
  _ ← modify (with_ledger (record_all (batch_receipts (ready_batch ready))));
  _ ← persist;
  c ← get;
  match c_published c with
  | Some ps =>
      let ps' := ps_put ps (cb_batch_id record) (batch_receipts (ready_batch ready))
                        (cb_merkle_root record) (cb_commit_timestamp record) in
      _ ← modify (with_published (Some ps'));
      _ ← perform (E := settle) (SavePublished (ps_state ps'));
      mret ()
  | None => mret ()
  end.

(** One iteration of the loop of [commit_ready_batches]; the records it
    appends to [committed]. *)
Definition commit_iteration (ready : ReadyBatch) : method (list CommittedBatch) :=
  let rs := batch_receipts (ready_batch ready) in
  '(leaf_hashes, root) ← lift (build_leaves_root rs);
  let ik := intent_key (ready_key ready) root in
  _ ← modify (with_committing (dict_set ik (build_intent ready leaf_hashes root)));
  _ ← modify (with_ledger (record_all rs));
  _ ← persist;
  outcome ← try (commit_one ready leaf_hashes root);
  match outcome with
  | Ok record => _ ← promote ready ik record; mret [record]
  | Err exc =>
      match exn_tx_hash exc with
      | Some tx_hash =>
          _ ← modify (with_committing (dict_del ik));
          _ ← quarantine_pending ready tx_hash leaf_hashes root;
          mret []
      | None =>
          if bool_decide (exc = BroadcastFailedError) then
            _ ← modify (pop_key (ready_key ready));
            _ ← persist;
            mret []
          else
            _ ← modify (with_committing (dict_del ik));
            _ ← modify (with_ledger (discard_all rs));
            _ ← persist;
            mret []
      end
  end.

Definition commit_ready_batches (force : bool) : method (list CommittedBatch) :=
  at_unix ← (if force then mret (2 ^ 62) else perform (E := settle) Now);
  c ← get;
  for_collect (ready_batches (c_accumulator c) at_unix) commit_iteration.

(** One iteration of [finalize_ready_batches]. *)
Definition finalize_iteration (batch_id : bytes) : method (list FinalizedBatch) :=
  c ← get;
  if bool_decide (batch_id ∈ c_finalized_ids c) then mret []
  else
    eligible ← perform (E := settle) (IsFinalizable batch_id);
    match eligible with
    | Ok true =>
        r ← perform (E := settle) (FinalizeBatch batch_id);
        match r with
        | Ok _ =>
            _ ← modify (with_finalized batch_id);
            _ ← persist;
            mret [{| fb_batch_id := batch_id; fb_tx_submitted := true |}]
        | Err _ => mret [{| fb_batch_id := batch_id; fb_tx_submitted := false |}]
        end
    | _ => mret []
    end.

Definition finalize_ready_batches : method (list FinalizedBatch) :=
  c ← get;
  for_collect (dict_keys (c_tracked c)) finalize_iteration.

Definition adopt_intent (ci : CommitIntent) (batch_id : bytes) (commit_ts : Z) : CommittedBatch :=
  {| cb_batch_id := batch_id; cb_tx_hash := ""; cb_provider_address := ci_provider_address ci;
     cb_requester_address := ci_requester_address ci; cb_merkle_root := ci_merkle_root ci;
     cb_receipt_count := ci_receipt_count ci; cb_total_value_ftns := ci_total_value_ftns ci;
     cb_commit_timestamp := commit_ts; cb_leaf_hashes := ci_leaf_hashes ci;
     cb_trigger_reason := ci_trigger_reason ci |}.

(** One iteration of [recover_committing_intents]; one unit per adoption. *)
Definition recover_iteration (ki : string * CommitIntent) : method (list unit) :=
  let '(ik, intent) := ki in
  c ← get;
  let scan_provider := match c_address c with
                       | Some a => if str_nonempty a then a else ci_provider_address intent
                       | None => ci_provider_address intent end in
  r ← perform (E := settle) (FindCommittedBatchByRoot scan_provider (ci_merkle_root intent));
  match r with
  | Ok (Some (batch_id, commit_ts)) =>
      _ ← modify (with_tracked (dict_set batch_id (adopt_intent intent batch_id commit_ts)));
      _ ← modify (with_committing (dict_del ik));
      _ ← modify (pop_key (ci_accumulator_key intent));
      _ ← persist;
      mret [()]
  | _ => mret []
  end.

Definition recover_committing_intents : method Z :=
  c ← get;
  if c_can_scan c then
    adopted ← for_collect (c_committing c) recover_iteration;
    mret (zlen adopted)
  else mret 0.

Definition adopt_pending (tx_hash : string) (pc : PendingCommit) (batch_id : bytes)
    (commit_ts : Z) : CommittedBatch :=
  {| cb_batch_id := batch_id; cb_tx_hash := tx_hash;
     cb_provider_address := pc_provider_address pc;
     cb_requester_address := pc_requester_address pc; cb_merkle_root := pc_merkle_root pc;
     cb_receipt_count := pc_receipt_count pc; cb_total_value_ftns := pc_total_value_ftns pc;
     cb_commit_timestamp := commit_ts; cb_leaf_hashes := pc_leaf_hashes pc;
     cb_trigger_reason := pc_trigger_reason pc |}.

(** One iteration of [reconcile_pending_commits]. *)
Definition reconcile_iteration (kp : string * PendingCommit) : method (list unit) :=
  let '(tx_hash, pc) := kp in
  r ← perform (E := settle) (GetCommittedBatchForTx tx_hash);
  match r with
  | Ok (Some (batch_id, commit_ts)) =>
      _ ← modify (with_tracked (dict_set batch_id (adopt_pending tx_hash pc batch_id commit_ts)));
      _ ← modify (with_pending (dict_del tx_hash));
      _ ← persist;
      mret [()]
  | _ => mret []
  end.

Definition reconcile_pending_commits : method Z :=
  c ← get;
  adopted ← for_collect (c_pending_commits c) reconcile_iteration;
  mret (zlen adopted).

(** One iteration of [reconcile_finalized]; 2 is FINALIZED. *)
Definition reconcile_finalized_iteration (batch_id : bytes) : method (list unit) :=
  c ← get;
  if bool_decide (batch_id ∈ c_finalized_ids c) then mret []
  else
    r ← perform (E := settle) (GetBatchStatus batch_id);
    match r with
    | Ok 2 => _ ← modify (with_finalized batch_id); _ ← persist; mret [()]
    | _ => mret []
    end.

Definition reconcile_finalized : method Z :=
  c ← get;
  marked ← for_collect (dict_keys (c_tracked c)) reconcile_finalized_iteration;
  mret (zlen marked).
End Settle.

(** ** Introspection *)

Definition tracked_batches (c : Client) : list CommittedBatch := dict_values (c_tracked c).
Definition get_tracked (c : Client) (batch_id : bytes) : option CommittedBatch :=
  dict_get batch_id (c_tracked c).
Definition pending_commits (c : Client) : list PendingCommit := dict_values (c_pending_commits c).
Definition committing_intents (c : Client) : list CommitIntent := dict_values (c_committing c).
Definition is_finalized_locally (c : Client) (batch_id : bytes) : bool :=
  bool_decide (batch_id ∈ c_finalized_ids c).

Record ClientStatus : Type := {
  st_provider_address : string;
  st_write_capable : bool;
  st_durable_state : bool;
  st_tracked_batches : Z;
  st_finalized_locally : Z;
  st_pending_commits : Z;
  st_committing_intents : Z;
  st_funds_in_flight : bool
}.

Definition client_status (c : Client) : ClientStatus :=
  {| st_provider_address := c_provider c;
     st_write_capable := bool_decide (is_Some (c_address c));
     st_durable_state := c_has_store c;
     st_tracked_batches := zlen (c_tracked c);
     st_finalized_locally := Z.of_nat (size (c_finalized_ids c));
     st_pending_commits := zlen (c_pending_commits c);
     st_committing_intents := zlen (c_committing c);
     st_funds_in_flight := negb (zlen (c_pending_commits c) =? 0) ||
                           negb (zlen (c_committing c) =? 0) |}.
