(* ===== verification/ClientDurable.v ===== *)
(** * BatchSettlementClient: the durable state

    What a client writes is what it reads back: the JSON of the state file
    decodes to the same tracked batches, finalized ids, quarantined commits,
    commit intents, dedup ledger and queued batches, except the queued batches
    that a commit intent owns ([restored]). *)
From Stdlib Require Import ZArith Lia.
From S2P Require Import PyStd.
From S2P Require Import Externals.
From S2P Require Import Receipt.
From S2P Require Import Attestation.
From S2P Require Import Accumulator.
From S2P Require Import Published.
From S2P Require Import Client.
From S2P Require Import Prelude.

#[local] Open Scope string_scope.
#[local] Open Scope list_scope.
#[local] Open Scope Z_scope.

(** ** Records *)

Lemma fromhex_jsons l : result_mapM fromhex_json (JStr <$> (hex <$> l)) = Ok l.
Proof.
  induction l as [|b l IH]; [done|]. csimpl. rewrite fromhex_json_hex. simpl. by rewrite IH.
Qed.

Lemma hashes_roundtrip l : hashes_of_json (hashes_to_json l) = Ok l.
Proof. apply fromhex_jsons. Qed.

Lemma key_roundtrip k : key_of_json (key_to_json k) = Ok k.
Proof.
  destruct k as [[[r p] g] s]. simpl. by rewrite fromhex_json_hex.
Qed.

Lemma trigger_roundtrip t : trigger_of_json (JStr (trigger_value t)) = Ok t.
Proof. by destruct t. Qed.

#[global] Arguments hashes_to_json : simpl never.
#[global] Arguments key_to_json : simpl never.
#[global] Arguments trigger_value : simpl never.
#[export] Hint Rewrite fromhex_json_hex hashes_roundtrip key_roundtrip trigger_roundtrip : prsm.

Lemma committed_roundtrip cb : committed_from_dict (committed_to_dict cb) = Ok cb.
Proof.
  unfold committed_from_dict, committed_to_dict. simpl.
  repeat (autorewrite with prsm; simpl). by destruct cb.
Qed.

Lemma pending_roundtrip pc : pending_from_dict (pending_to_dict pc) = Ok pc.
Proof.
  unfold pending_from_dict, pending_to_dict. simpl.
  repeat (autorewrite with prsm; simpl). by destruct pc.
Qed.

Lemma intent_roundtrip ci : intent_from_dict (intent_to_dict ci) = Ok ci.
Proof.
  unfold intent_from_dict, intent_to_dict. simpl.
  repeat (autorewrite with prsm; simpl). by destruct ci.
Qed.

(** ** Intent keys *)

(** An intent key names one root. *)
Lemma intent_key_root k1 k2 r1 r2 :
  length r1 = length r2 → intent_key k1 r1 = intent_key k2 r2 → r1 = r2.
Proof.
  destruct k1 as [[[q1 p1] g1] s1], k2 as [[[q2 p2] g2] s2]. unfold intent_key. intros Hl Heq.
  apply (inj hex). eapply string_app_inv_length; [|exact Heq]. rewrite !length_hex. lia.
Qed.

(** ** Collections *)

Lemma decode_items_roundtrip {K V} `{!EqDecision K} (ek : K → string) (ev : V → json)
    (dk : string → result K) (dv : json → result V) (d : dict K V) :
  dict_wf d → (∀ k, dk (ek k) = Ok k) → (∀ v, dv (ev v) = Ok v) →
  decode_items dk dv ((λ kv : K * V, (ek kv.1, ev kv.2)) <$> d) = Ok d.
Proof.
  intros Hd Hk Hv. unfold decode_items.
  assert (∀ l : list (K * V), result_mapM (λ kv : string * json, k ← dk kv.1; v ← dv kv.2; Ok (k, v))
            ((λ kv : K * V, (ek kv.1, ev kv.2)) <$> l) = Ok l) as ->.
  { induction l as [|[k v] l IH]; [done|]. csimpl. rewrite Hk, Hv. simpl. by rewrite IH. }
  simpl. by rewrite dict_of_list_NoDup.
Qed.

Lemma items_or_empty_obj key state o :
  dict_get key state = Some (JObj o) → items_or_empty key state = Ok o.
Proof. intros H. unfold items_or_empty, get_or_null. rewrite H. by destruct o. Qed.

Lemma list_or_empty_arr key state l :
  dict_get key state = Some (JArr l) → list_or_empty key state = Ok l.
Proof. intros H. unfold list_or_empty, get_or_null. rewrite H. by destruct l. Qed.

Lemma finalized_roundtrip (s : gset bytes) :
  ∃ l, result_mapM fromhex_json (JStr <$> sort_by string_leb (hex <$> elements s)) = Ok l ∧
       list_to_set l = s.
Proof.
  destruct (Permutation_map_inv hex (elements s) (sort_by_perm string_leb (hex <$> elements s)))
    as (l & Hl & Hp).
  exists l.
  assert (sort_by string_leb (hex <$> elements s) = hex <$> l) as -> by exact Hl.
  rewrite fromhex_jsons. split; [done|].
  apply set_eq. intros x. rewrite elem_of_list_to_set, <- Hp. by rewrite elem_of_elements.
Qed.

Lemma jstrs_roundtrip l : result_mapM jstr (JStr <$> l) = Ok l.
Proof. induction l as [|s l IH]; [done|]. csimpl. by rewrite IH. Qed.

Lemma fromkeys_NoDup l : NoDup l → fromkeys l = l.
Proof.
  unfold fromkeys. enough (∀ acc, NoDup (acc ++ l) →
    fold_left (λ acc e, if bool_decide (e ∈ acc) then acc else acc ++ [e]) l acc = acc ++ l) as H
    by apply (H []).
  induction l as [|e l IH]; intros acc Hnd; simpl; [by rewrite app_nil_r|].
  rewrite bool_decide_false.
  - rewrite IH; by rewrite <- app_assoc.
  - apply NoDup_app in Hnd as (_ & Hd & _). intros Hin. apply (Hd _ Hin). by left.
Qed.

(** ** Queued batches *)

Definition unowned (keys : list AccumulatorKey) (items : list (AccumulatorKey * PendingBatch))
  : list (AccumulatorKey * PendingBatch) :=
  filter (λ kb : AccumulatorKey * PendingBatch, kb.1 ∉ keys) items.

Definition batch_ok (kb : AccumulatorKey * PendingBatch) : Prop :=
  batch_wf kb.1 kb.2 ∧ Forall batched_ok (batch_receipts kb.2).

#[global] Arguments batched_receipt_to_dict : simpl never.
#[global] Arguments batched_receipt_from_dict : simpl never.
#[global] Arguments restore_pending : simpl never.

Lemma restore_entry_roundtrip keys a kb :
  acc_wf a → batch_ok kb →
  restore_entry keys a (pending_entry_to_json kb) =
    Ok (if bool_decide (kb.1 ∈ keys) then a else set_pending a (dict_set kb.1 kb.2 (acc_pending a))).
Proof.
  intros Ha [Hb Hok]. unfold restore_entry, pending_entry_to_json. simpl.
  rewrite key_roundtrip. simpl. case_bool_decide; [done|].
  rewrite batched_receipts_roundtrip by done. simpl. by apply restore_item.
Qed.

Lemma restore_entries_roundtrip keys items a :
  acc_wf a → Forall batch_ok items → NoDup (dict_keys (acc_pending a) ++ items.*1) →
  result_foldM (restore_entry keys) a (pending_entry_to_json <$> items) =
    Ok (set_pending a (acc_pending a ++ unowned keys items)).
Proof.
  intros Ha Hf. revert a Ha. induction Hf as [|kb items Hb Hf IH]; intros a Ha Hnd.
  - simpl. rewrite app_nil_r. by destruct a.
  - csimpl. rewrite restore_entry_roundtrip by done. simpl. unfold unowned.
    destruct (bool_decide_reflect (kb.1 ∈ keys)) as [Hin|Hin].
    + rewrite filter_cons_False by tauto. apply IH; [done|].
      eapply sublist_NoDup; [exact Hnd|]. csimpl.
      apply sublist_app; [done | by apply sublist_cons].
    + rewrite filter_cons_True by done. csimpl in Hnd.
      assert (kb.1 ∉ dict_keys (acc_pending a)) as Hfresh.
      { apply NoDup_app in Hnd as (_ & Hd & _). intros Hk. apply (Hd _ Hk). by left. }
      rewrite IH.
      * simpl. rewrite dict_set_fresh by done. rewrite <- app_assoc. by destruct kb.
      * apply acc_wf_set; [done | apply Hb].
      * simpl. rewrite dict_keys_set, decide_False by done. by rewrite <- app_assoc.
Qed.

(** ** The whole state *)

(** What a client must satisfy for its state file to be exact. *)
Record durable_wf (c : Client) : Prop := {
  dwf_acc : acc_wf (c_accumulator c);
  dwf_receipts : ∀ k b, (k, b) ∈ acc_pending (c_accumulator c) → Forall batched_ok (batch_receipts b);
  dwf_tracked : dict_wf (c_tracked c);
  dwf_pending : dict_wf (c_pending_commits c);
  dwf_committing : dict_wf (c_committing c);
  dwf_ledger : NoDup (c_committed_escrow_ids c)
}.

(** The client a restart with constructor arguments [c0] makes of [c]'s file. *)
Definition restored (c0 c : Client) : Client :=
  {| c_accumulator := set_pending (c_accumulator c0)
       (unowned (intent_keys c) (acc_pending (c_accumulator c)));
     c_provider := c_provider c0; c_address := c_address c0; c_can_scan := c_can_scan c0;
     c_has_store := c_has_store c0; c_published := c_published c0;
     c_tracked := c_tracked c; c_finalized_ids := c_finalized_ids c;
     c_pending_commits := c_pending_commits c; c_committing := c_committing c;
     c_committed_escrow_ids := c_committed_escrow_ids c |}.

Lemma client_init_restored c0 c :
  c_has_store c0 = true → durable_wf c →
  client_init c0 (Json (serialize_state c)) = Ok (restored c0 c).
Proof.
  intros Hst Hc. unfold client_init. rewrite Hst. cbn [store_load mbind result_bind serialize_state].
  unfold apply_state.
  set (st := [("version", _); _; _; _; _; _; _]).
  change (version_ok (get_or_null "version" st)) with true. cbn [negb raise_if mbind result_bind].
  rewrite (items_or_empty_obj "tracked" st _ eq_refl). cbn [mbind result_bind].
  rewrite (decode_items_roundtrip hex committed_to_dict);
    [| apply Hc | intros; by rewrite fromhex_hex | apply committed_roundtrip].
  rewrite (list_or_empty_arr "finalized_ids" st _ eq_refl). cbn [mbind result_bind].
  destruct (finalized_roundtrip (c_finalized_ids c)) as (fin & -> & Hfin). cbn [mbind result_bind].
  rewrite (items_or_empty_obj "pending_commits" st _ eq_refl). cbn [mbind result_bind].
  rewrite (decode_items_roundtrip id pending_to_dict);
    [| apply Hc | done | apply pending_roundtrip]. cbn [mbind result_bind].
  rewrite (items_or_empty_obj "committing" st _ eq_refl). cbn [mbind result_bind].
  rewrite (decode_items_roundtrip id intent_to_dict);
    [| apply Hc | done | apply intent_roundtrip]. cbn [mbind result_bind].
  rewrite (list_or_empty_arr "committed_escrow_ids" st _ eq_refl). cbn [mbind result_bind].
  rewrite jstrs_roundtrip. cbn [mbind result_bind].
  rewrite (list_or_empty_arr "pending_batches" st _ eq_refl). cbn [mbind result_bind].
  rewrite pending_items_wf by apply Hc. unfold restore_all. cbn [c_accumulator fresh_client].
  rewrite restore_entries_roundtrip.
  - cbn. rewrite Hfin, fromkeys_NoDup by apply Hc. done.
  - apply acc_wf_empty.
  - pose proof (awf_batches _ (dwf_acc _ Hc)) as Hb. rewrite Forall_forall in Hb.
    apply Forall_forall. intros [k b] Hin. split; [by apply (Hb _ Hin)|].
    by apply (dwf_receipts _ Hc k).
  - simpl. apply Hc.
Qed.
