(* ===== verification/ClientSafety.v ===== *)
(** * BatchSettlementClient: crash safety

    The node that runs the client as a state machine: it calls a method, the
    method's program takes steps against the world (the state file and the
    contract), the process may die between any two effects, and a new process
    boots from the file.  The theorems hold in every reachable state. *)
From Stdlib Require Import ZArith Lia.
From S2P Require Import PyStd.
From S2P Require Import Externals.
From S2P Require Import Receipt.
From S2P Require Import Attestation.
From S2P Require Import Merkle.
From S2P Require Import Accumulator.
From S2P Require Import Published.
From S2P Require Import Effects.
From S2P Require Import Client.
From S2P Require Import ClientDurable.
From S2P Require Import Prelude.
From stdpp Require Import relations.

#[local] Open Scope string_scope.
#[local] Open Scope list_scope.
#[local] Open Scope Z_scope.

(** ** The deployment

    What the node is used for and what the chain promises.  [known] are the
    receipts ever handed to the client: built through their constructor, with a
    non-empty escrow id of the finite set [ids], which determines the batch they
    belong in.  [signer] is the address of the signing key, if there is one.
    [distinct_work]: two sets of receipts with the same Merkle root
    share an escrow id (hash binding, Merkle.v, and one escrow per piece of work).
    A batch id and a transaction hash determine the root committed under them. *)
Class Deployment `{KeccakLaws} : Type := {
  known : BatchedReceipt → Prop;
  ids : gset string;
  key_of : string → AccumulatorKey;
  batch_root : bytes → bytes;
  tx_root : string → bytes;
  signer : option string;
  known_ok : ∀ br, known br → batched_ok br;
  known_id : ∀ br, known br → str_nonempty (local_escrow_id br) = true ∧
                              local_escrow_id br ∈ ids ∧ key_of (local_escrow_id br) = receipt_key br;
  ids_bounded : Z.of_nat (size ids) <= MAX_COMMITTED_ESCROW_IDS;
  distinct_work : ∀ rs1 rs2 ls1 ls2 root,
    Forall known rs1 → Forall known rs2 → NoDup (escrow_ids rs1) → NoDup (escrow_ids rs2) →
    build_leaves_root rs1 = Ok (ls1, root) → build_leaves_root rs2 = Ok (ls2, root) →
    ∃ e, e ∈ escrow_ids rs1 ∧ e ∈ escrow_ids rs2
}.

(** ** The world *)

(** [w_sent]: the commits that reached the chain or may still reach it, with the
    receipts they settle. *)
Record World : Type := {
  w_disk : file;
  w_sent : list (CommitCall * list BatchedReceipt)
}.

Definition w_save (s : json) (w : World) : World := {| w_disk := Json s; w_sent := w_sent w |}.
Definition w_send (x : CommitCall * list BatchedReceipt) (w : World) : World :=
  {| w_disk := w_disk w; w_sent := w_sent w ++ [x] |}.

(** The escrow ids settled, or possibly settled, so far: one per settlement. *)
Definition settled_ids (sent : list (CommitCall * list BatchedReceipt)) : list string :=
  sent.*2 ≫= escrow_ids.

Section World.
Context `{Deployment}.

(** The responses the world may give.  A write is atomic.  A commit that
    returned, is pending, or whose broadcast failed may have landed; any other
    exception means the chain was left as it was.  Lookups answer truthfully
    when they answer. *)
Definition exec (e : settle_request) : World → settle_response e → World → Prop :=
  match e return World → settle_response e → World → Prop with
  | Now => λ w r w', w' = w
  | Save s => λ w r w', (r = Ok tt ∧ w' = w_save s w) ∨ (∃ x, r = Err x ∧ w' = w)
  | SavePublished _ => λ w r w', w' = w
  | CommitBatch call rs => λ w r w',
      match r with
      | Ok (b, _) => batch_root b = cc_merkle_root call ∧ w' = w_send (call, rs) w
      | Err (OnChainPendingError tx) => tx_root tx = cc_merkle_root call ∧ w' = w_send (call, rs) w
      | Err BroadcastFailedError => w' = w_send (call, rs) w
      | Err _ => w' = w
      end
  | IsFinalizable _ => λ w r w', w' = w
  | FinalizeBatch _ => λ w r w', w' = w
  | GetBatchStatus _ => λ w r w', w' = w
  | GetCommittedBatchForTx tx => λ w r w',
      w' = w ∧ ∀ b t, r = Ok (Some (b, t)) → batch_root b = tx_root tx
  | FindCommittedBatchByRoot _ root => λ w r w',
      w' = w ∧ ∀ b t, r = Ok (Some (b, t)) → batch_root b = root
  end.

(** ** The node *)

Inductive op : Type :=
| Accumulate (br : BatchedReceipt)
| CommitReady (force : bool)
| FinalizeReady
| RecoverIntents
| ReconcilePending
| ReconcileFinalized.

Definition op_body (o : op) : method unit :=
  match o with
  | Accumulate br => accumulate br
  | CommitReady force => _ ← commit_ready_batches force; mret ()
  | FinalizeReady => _ ← finalize_ready_batches; mret ()
  | RecoverIntents => _ ← recover_committing_intents; mret ()
  | ReconcilePending => _ ← reconcile_pending_commits; mret ()
  | ReconcileFinalized => _ ← reconcile_finalized; mret ()
  end.

Definition op_known (o : op) : Prop :=
  match o with Accumulate br => known br | _ => True end.

Inductive node : Type :=
| Up (c : Client)
| Busy (p : prog settle (result unit * Client))
| Down.

(** [c0] carries the constructor's arguments. *)
Inductive node_step (c0 : Client) : node * World → node * World → Prop :=
| step_call c o w : op_known o → node_step c0 (Up c, w) (Busy (op_body o c), w)
| step_effect p p' w w' : pstep (E := settle) exec (p, w) (p', w') → node_step c0 (Busy p, w) (Busy p', w')
| step_return r c w : node_step c0 (Busy (Ret (r, c)), w) (Up c, w)
| step_crash n w : node_step c0 (n, w) (Down, w)
| step_boot c ps w : client_init (with_published ps c0) (w_disk w) = Ok c →
                     node_step c0 (Down, w) (Up c, w).

Definition world0 : World := {| w_disk := Absent; w_sent := [] |}.

Definition reachable (c0 : Client) (s : node * World) : Prop :=
  rtc (node_step c0) (Down, world0) s.

(** ** Invariant *)

(** The call describes its receipts: they all have its parties, group and slash
    rate, it states their number and total value, and the signing key controls
    its provider. *)
Definition call_ok (x : CommitCall * list BatchedReceipt) : Prop :=
  Forall (λ br, receipt_key br = (cc_requester_address x.1, cc_provider_address x.1,
                                  cc_consensus_group_id x.1, cc_tier_slash_rate_bps x.1)) x.2 ∧
  cc_receipt_count x.1 = zlen x.2 ∧ cc_total_value_ftns x.1 = Zsum (value_ftns <$> x.2) ∧
  signer_check signer (cc_provider_address x.1) = Ok tt.

Definition sent_ok (x : CommitCall * list BatchedReceipt) : Prop :=
  Forall known x.2 ∧ NoDup (escrow_ids x.2) ∧
  (∃ ls, build_leaves_root x.2 = Ok (ls, cc_merkle_root x.1)) ∧ call_ok x.

(** The constructor arguments of the deployed client. *)
Definition deployed (c0 : Client) : Prop := c_has_store c0 = true ∧ c_address c0 = signer.

(** A root the client holds a record of. *)
Definition recorded (c : Client) (root : bytes) : Prop :=
  (∃ b cb, (b, cb) ∈ c_tracked c ∧ cb_merkle_root cb = root) ∨
  (∃ k ci, (k, ci) ∈ c_committing c ∧ ci_merkle_root ci = root) ∨
  (∃ t pc, (t, pc) ∈ c_pending_commits c ∧ pc_merkle_root pc = root).

Definition intent_ok (ki : string * CommitIntent) : Prop :=
  length (ci_merkle_root ki.2) = 32%nat ∧
  ki.1 = intent_key (ci_accumulator_key ki.2) (ci_merkle_root ki.2).

(** Well-formedness of the client alone. *)
Record client_wf (c : Client) : Prop := {
  cw_store : c_has_store c = true;
  cw_signer : c_address c = signer;
  cw_acc : acc_wf (c_accumulator c);
  cw_known : ∀ k b, (k, b) ∈ acc_pending (c_accumulator c) → Forall known (batch_receipts b);
  cw_tracked : dict_wf (c_tracked c);
  cw_pending : dict_wf (c_pending_commits c);
  cw_committing : dict_wf (c_committing c);
  cw_ledger : NoDup (c_committed_escrow_ids c);
  cw_ledger_ids : ∀ e, e ∈ c_committed_escrow_ids c → e ∈ ids;
  cw_tracked_root : ∀ b cb, (b, cb) ∈ c_tracked c → cb_merkle_root cb = batch_root b;
  cw_pending_root : ∀ t pc, (t, pc) ∈ c_pending_commits c → pc_merkle_root pc = tx_root t;
  cw_intents : Forall intent_ok (c_committing c)
}.

(** The client against the commits sent; batches queued under a key in [X] are
    exempt from being unsent. *)
Record client_inv (X : AccumulatorKey → Prop) (c : Client)
    (sent : list (CommitCall * list BatchedReceipt)) : Prop := {
  ci_wf : client_wf c;
  ci_sent : Forall sent_ok sent;
  ci_once : NoDup (settled_ids sent);
  ci_armed : ∀ e, e ∈ settled_ids sent → e ∈ c_committed_escrow_ids c;
  ci_recorded : ∀ x, x ∈ sent → recorded c (cc_merkle_root x.1);
  ci_unsent : ∀ k b, (k, b) ∈ acc_pending (c_accumulator c) → ¬ X k →
              ∀ e, e ∈ escrow_ids (batch_receipts b) → e ∉ settled_ids sent
}.

Definition mem_inv := client_inv (λ _, False).
Definition snap_inv (c : Client) := client_inv (λ k, k ∈ intent_keys c) c.

(** What holds of the world at every instant, so at every crash. *)
Definition disk_inv (w : World) : Prop :=
  match w_disk w with
  | Absent => w_sent w = []
  | NotJson => False
  | Json j => ∃ c, j = serialize_state c ∧ snap_inv c (w_sent w)
  end.

Lemma client_inv_weaken (X Y : AccumulatorKey → Prop) c sent :
  client_inv X c sent → (∀ k, X k → Y k) → client_inv Y c sent.
Proof. intros [] HXY. split; [done..|]. intros k b Hin HY. eauto. Qed.

Lemma mem_snap c sent : mem_inv c sent → snap_inv c sent.
Proof. intros Hm. eapply client_inv_weaken; [exact Hm | done]. Qed.

Lemma client_wf_durable c : client_wf c → durable_wf c.
Proof.
  intros [Hst Hsg Ha Hk]. split; try done.
  intros k b Hin. eapply Forall_impl; [by eapply Hk | apply known_ok].
Qed.

(** *** Booting *)

Lemma boot_restores c0 c sent :
  deployed c0 → snap_inv c sent → mem_inv (restored c0 c) sent.
Proof.
  intros [Hst Hsg] Hs. pose proof (ci_wf _ _ _ Hs) as Hw.
  assert (∀ kb, kb ∈ acc_pending (c_accumulator (restored c0 c)) ↔
            (¬ kb.1 ∈ intent_keys c) ∧ kb ∈ acc_pending (c_accumulator c)) as Hel.
  { intros kb. simpl. unfold unowned. by rewrite list_elem_of_filter. }
  split; [split | apply Hs | apply Hs | apply Hs | apply Hs |]; try (apply Hw); try done.
  - split.
    + simpl. unfold dict_wf, dict_keys, unowned. eapply sublist_NoDup; [apply (awf_keys _ (cw_acc _ Hw))|].
      apply fmap_sublist, sublist_filter.
    + apply Forall_forall. intros kb [_ Hin]%Hel.
      pose proof (awf_batches _ (cw_acc _ Hw)) as Hb. rewrite Forall_forall in Hb. by apply Hb.
  - intros k b [_ Hin]%Hel. by apply (cw_known _ Hw k).
  - intros k b [Hk Hin]%Hel _. by apply (ci_unsent _ _ _ Hs k).
Qed.

Lemma fresh_inv c0 : deployed c0 → mem_inv (fresh_client c0) [].
Proof.
  intros [Hst Hsg].
  assert (∀ {A} (x : A) (P : Prop), x ∈ [] → P) as Hnil
    by (intros A x P Hx; by apply not_elem_of_nil in Hx).
  split; simpl; try (constructor; fail); try (intros; by eapply Hnil).
  split; simpl; try done; try (constructor; fail); try (intros; by eapply Hnil).
  - apply acc_wf_empty.
  - intros e He. exact (Hnil _ e _ He).
Qed.

Lemma boot_inv c0 w :
  deployed c0 → disk_inv w →
  ∃ c, client_init c0 (w_disk w) = Ok c ∧ mem_inv c (w_sent w).
Proof.
  intros Hdep Hd. pose proof Hdep as [Hst _]. unfold disk_inv in Hd. destruct (w_disk w) as [| |j].
  - exists (fresh_client c0). unfold client_init. rewrite Hst, Hd. split; [done|].
    by apply fresh_inv.
  - done.
  - destruct Hd as (c & -> & Hs). exists (restored c0 c).
    rewrite client_init_restored; [|done | apply client_wf_durable, Hs].
    split; [done|]. by apply boot_restores.
Qed.

(** *** The ledger *)

Lemma ids_length l : NoDup l → (∀ e, e ∈ l → e ∈ ids) → zlen l <= MAX_COMMITTED_ESCROW_IDS.
Proof.
  intros Hnd Hin. etrans; [|apply ids_bounded].
  rewrite <- (size_list_to_set (C := gset string) l) by done.
  apply Nat2Z.inj_le, subseteq_size. intros e He%elem_of_list_to_set. auto.
Qed.

(** Within the cap nothing is evicted. *)
Lemma ledger_record_spec e l :
  NoDup l → (∀ x, x ∈ l → x ∈ ids) → str_nonempty e = true → e ∈ ids →
  NoDup (ledger_record e l) ∧ ∀ x, x ∈ ledger_record e l ↔ x = e ∨ x ∈ l.
Proof.
  intros Hnd Hids He Hei. unfold ledger_record. rewrite He.
  set (l' := filter (λ x, x ≠ e) l ++ [e]).
  assert (∀ x, x ∈ l' ↔ x = e ∨ x ∈ l) as Hel.
  { intros x. unfold l'. rewrite elem_of_app, list_elem_of_filter, list_elem_of_singleton.
    destruct (decide (x = e)); naive_solver. }
  assert (NoDup l') as Hnd'.
  { unfold l'. apply NoDup_app. split_and!; [by apply NoDup_filter | | apply NoDup_singleton].
    intros x [? _]%list_elem_of_filter. by rewrite list_elem_of_singleton. }
  destruct (evict_oldest_spec MAX_COMMITTED_ESCROW_IDS l') as [_ (old & Hl & Hold)]; [done|].
  rewrite Hold in Hl by (apply ids_length; [done | naive_solver]).
  simpl in Hl. by rewrite <- Hl.
Qed.

Lemma record_all_spec rs l :
  NoDup l → (∀ x, x ∈ l → x ∈ ids) → Forall known rs →
  NoDup (record_all rs l) ∧ (∀ x, x ∈ record_all rs l ↔ x ∈ escrow_ids rs ∨ x ∈ l) ∧
  (∀ x, x ∈ record_all rs l → x ∈ ids).
Proof.
  intros Hnd Hids Hk. revert l Hnd Hids.
  induction Hk as [|br rs Hbr Hk IH]; intros l Hnd Hids; simpl.
  - split_and!; [done | | done]. intros x. split; [by right|].
    intros [Hx|]; [|done]. by apply not_elem_of_nil in Hx.
  - destruct (known_id br Hbr) as (Hne & Hin & _).
    destruct (ledger_record_spec (local_escrow_id br) l) as [Hnd1 Hel1]; [done..|].
    destruct (IH (ledger_record (local_escrow_id br) l)) as (Hnd2 & Hel2 & Hids2); [done | |].
    { intros x [->|?]%Hel1; auto. }
    split_and!; [done | | done]. intros x. rewrite Hel2, Hel1.
    change (br :: rs) with ([br] ++ rs). rewrite escrow_ids_app, escrow_ids_one, Hne.
    rewrite elem_of_app, list_elem_of_singleton. tauto.
Qed.

Lemma discard_all_spec rs l :
  NoDup l → Forall known rs →
  NoDup (discard_all rs l) ∧ ∀ x, x ∈ discard_all rs l ↔ (¬ x ∈ escrow_ids rs) ∧ x ∈ l.
Proof.
  intros Hnd Hk. revert l Hnd. induction Hk as [|br rs Hbr Hk IH]; intros l Hnd; simpl.
  - split; [done|]. intros x. split; [|by intros []].
    intros ?. split; [apply not_elem_of_nil | done].
  - destruct (known_id br Hbr) as (Hne & _).
    destruct (IH (ledger_discard (local_escrow_id br) l)) as [Hnd2 Hel2].
    { unfold ledger_discard. rewrite Hne. by apply NoDup_filter. }
    split; [done|]. intros x. rewrite Hel2. unfold ledger_discard. rewrite Hne.
    rewrite list_elem_of_filter. change (br :: rs) with ([br] ++ rs).
    rewrite escrow_ids_app, escrow_ids_one, Hne, elem_of_app, list_elem_of_singleton. tauto.
Qed.

(** *** Batches and sends *)

Lemma settled_ids_snoc sent x : settled_ids (sent ++ [x]) = settled_ids sent ++ escrow_ids x.2.
Proof.
  unfold settled_ids. rewrite fmap_app, bind_app. simpl. by rewrite app_nil_r.
Qed.

(** Two queued batches that share an escrow id have the same key. *)
Lemma batch_id_key c k b e :
  client_wf c → (k, b) ∈ acc_pending (c_accumulator c) → e ∈ escrow_ids (batch_receipts b) →
  key_of e = k.
Proof.
  intros Hw Hin He. apply elem_escrow_ids in He as (_ & br & Hbr & <-).
  pose proof (cw_known _ Hw _ _ Hin) as Hk. rewrite Forall_forall in Hk.
  destruct (known_id br (Hk br Hbr)) as (_ & _ & ->).
  pose proof (awf_batches _ (cw_acc _ Hw)) as Hb. rewrite Forall_forall in Hb.
  pose proof (bwf_keys _ _ (Hb _ Hin)) as Hkk. rewrite Forall_forall in Hkk. by apply Hkk.
Qed.

(** Sending the batch queued under [k], once its ids are armed and its root
    recorded, keeps the invariant with [k] exempt. *)
Lemma send_inv (X : AccumulatorKey → Prop) c sent k b call ls :
  client_inv (λ _, False) c sent →
  dict_get k (acc_pending (c_accumulator c)) = Some b →
  build_leaves_root (batch_receipts b) = Ok (ls, cc_merkle_root call) →
  call_ok (call, batch_receipts b) →
  (∀ e, e ∈ escrow_ids (batch_receipts b) → e ∈ c_committed_escrow_ids c) →
  recorded c (cc_merkle_root call) → X k →
  client_inv X c (sent ++ [(call, batch_receipts b)]).
Proof.
  intros Hi Hget Hroot Hcall Harm Hrec HX. pose proof (ci_wf _ _ _ Hi) as Hw.
  apply dict_get_elem in Hget as Hin.
  pose proof (awf_batches _ (cw_acc _ Hw)) as Hb. rewrite Forall_forall in Hb.
  pose proof (Hb _ Hin) as Hbk. simpl in Hbk.
  assert (∀ e, e ∈ escrow_ids (batch_receipts b) → e ∉ settled_ids sent) as Hfresh
    by exact (ci_unsent _ _ _ Hi k b Hin (λ x, x)).
  split.
  - done.
  - apply Forall_app. split; [apply Hi|]. rewrite Forall_singleton. split_and!; simpl.
    + by apply (cw_known _ Hw k).
    + apply Hbk.
    + by exists ls.
    + done.
  - rewrite settled_ids_snoc. apply NoDup_app. split_and!; simpl.
    + apply Hi.
    + intros e He He'. exact (Hfresh e He' He).
    + apply Hbk.
  - intros e. rewrite settled_ids_snoc, elem_of_app. intros [He|He]; [by apply Hi | by apply Harm].
  - intros x [Hx|Hx]%elem_of_app; [by apply (ci_recorded _ _ _ Hi)|].
    apply list_elem_of_singleton in Hx as ->. done.
  - intros k' b' Hin' HX' e He. rewrite settled_ids_snoc, elem_of_app. intros [Hs|Hs].
    + exact (ci_unsent _ _ _ Hi k' b' Hin' (λ x, x) e He Hs).
    + apply HX'. rewrite <- (batch_id_key c k' b' e) by done. by rewrite (batch_id_key c k b e).
Qed.

(** *** Field updates *)

Ltac wf_fields := intros []; split; simpl; auto with prsm.

Lemma wf_committing_set c ik ci :
  client_wf c → intent_ok (ik, ci) → client_wf (with_committing (dict_set ik ci) c).
Proof.
  wf_fields. apply Forall_forall. intros [k' ci'] Hin.
  apply elem_dict_set in Hin as [[-> ->]|[_ Hin]]; [done | | done].
  rewrite Forall_forall in cw_intents0. by apply cw_intents0.
Qed.

Lemma wf_committing_del c ik : client_wf c → client_wf (with_committing (dict_del ik) c).
Proof.
  wf_fields. apply Forall_forall. intros ki Hin.
  apply elem_dict_del_1 in Hin.
  rewrite Forall_forall in cw_intents0. by apply cw_intents0.
Qed.

Lemma wf_ledger c f :
  client_wf c → NoDup (f (c_committed_escrow_ids c)) →
  (∀ e, e ∈ f (c_committed_escrow_ids c) → e ∈ ids) → client_wf (with_ledger f c).
Proof. wf_fields. Qed.

Lemma wf_pop c k : client_wf c → client_wf (pop_key k c).
Proof.
  wf_fields. intros k' b' Hin. apply elem_dict_del_1 in Hin. eauto.
Qed.

Lemma wf_tracked_set c b cb :
  client_wf c → cb_merkle_root cb = batch_root b → client_wf (with_tracked (dict_set b cb) c).
Proof.
  wf_fields. intros b' cb' Hin. apply elem_dict_set in Hin as [[-> ->]|[_ Hin]]; eauto.
Qed.

Lemma wf_pending_set c t pc :
  client_wf c → pc_merkle_root pc = tx_root t → client_wf (with_pending (dict_set t pc) c).
Proof.
  wf_fields. intros t' pc' Hin. apply elem_dict_set in Hin as [[-> ->]|[_ Hin]]; eauto.
Qed.

Lemma wf_pending_del c t : client_wf c → client_wf (with_pending (dict_del t) c).
Proof.
  wf_fields. intros t' pc' Hin. apply elem_dict_del_1 in Hin. eauto.
Qed.

Lemma wf_finalized c b : client_wf c → client_wf (with_finalized b c).
Proof. wf_fields. Qed.

Lemma wf_published c ps : client_wf c → client_wf (with_published ps c).
Proof. wf_fields. Qed.

(** *** Records of roots *)

Lemma recorded_committing_set c ik ci r :
  client_wf c → intent_ok (ik, ci) → recorded c r ∨ r = ci_merkle_root ci →
  recorded (with_committing (dict_set ik ci) c) r.
Proof.
  intros Hw Hci Hr. pose proof (cw_committing _ Hw) as Hd. unfold recorded. simpl.
  assert ((ik, ci) ∈ dict_set ik ci (c_committing c)) as Hself
    by (apply elem_dict_set; [done | by left]).
  destruct Hr as [[Ht|[(k & ci' & Hin & <-)|Hp]]| ->]; [by left | | by right; right |].
  - right; left. destruct (decide (k = ik)) as [->|Hne].
    + exists ik, ci. split; [done|].
      pose proof (cw_intents _ Hw) as Hf. rewrite Forall_forall in Hf.
      destruct (Hf _ Hin) as [Hl1 He1]. destruct Hci as [Hl2 He2]. simpl in *.
      rewrite He1 in He2. symmetry. eapply intent_key_root; [|exact He2]. congruence.
    + exists k, ci'. split; [|done]. apply elem_dict_set; [done|]. by right.
  - right; left. by exists ik, ci.
Qed.

(** Removing the intent under [ik] loses at most [ik]'s own root. *)
Lemma recorded_committing_del c ik k r root :
  client_wf c → ik = intent_key k root → length root = 32%nat → recorded c r → r ≠ root →
  recorded (with_committing (dict_del ik) c) r.
Proof.
  intros Hw Hik Hlen Hr Hne. unfold recorded. simpl.
  destruct Hr as [Ht|[(k' & ci' & Hin & <-)|Hp]]; [by left | | by right; right].
  right; left. exists k', ci'. split; [|done].
  apply elem_dict_del; [apply Hw|]. split; [|done]. intros ->. apply Hne.
  pose proof (cw_intents _ Hw) as Hf. rewrite Forall_forall in Hf.
  destruct (Hf _ Hin) as [Hl1 He1]. simpl in *. rewrite Hik in He1. symmetry.
  eapply intent_key_root; [|exact He1]. congruence.
Qed.

Lemma recorded_tracked_set c b cb r :
  client_wf c → cb_merkle_root cb = batch_root b → recorded c r ∨ r = cb_merkle_root cb →
  recorded (with_tracked (dict_set b cb) c) r.
Proof.
  intros Hw Hcb Hr. unfold recorded. simpl.
  assert ((b, cb) ∈ dict_set b cb (c_tracked c)) as Hself
    by (apply elem_dict_set; [apply Hw | by left]).
  destruct Hr as [[(b' & cb' & Hin & <-)|[Hc|Hp]]| ->];
    [left | by right; left | by right; right | left].
  - destruct (decide (b' = b)) as [->|Hne].
    + exists b, cb. split; [done|]. rewrite Hcb. symmetry. by apply (cw_tracked_root _ Hw).
    + exists b', cb'. split; [|done]. apply elem_dict_set; [apply Hw|]. by right.
  - by exists b, cb.
Qed.

Lemma recorded_pending_set c t pc r :
  client_wf c → pc_merkle_root pc = tx_root t → recorded c r ∨ r = pc_merkle_root pc →
  recorded (with_pending (dict_set t pc) c) r.
Proof.
  intros Hw Hpc Hr. unfold recorded. simpl.
  assert ((t, pc) ∈ dict_set t pc (c_pending_commits c)) as Hself
    by (apply elem_dict_set; [apply Hw | by left]).
  destruct Hr as [[Ht|[Hc|(t' & pc' & Hin & <-)]]| ->];
    [by left | by right; left | right; right | right; right].
  - destruct (decide (t' = t)) as [->|Hne].
    + exists t, pc. split; [done|]. rewrite Hpc. symmetry. by apply (cw_pending_root _ Hw).
    + exists t', pc'. split; [|done]. apply elem_dict_set; [apply Hw|]. by right.
  - by exists t, pc.
Qed.

Lemma recorded_pending_del c t r :
  client_wf c → recorded c r → r ≠ tx_root t → recorded (with_pending (dict_del t) c) r.
Proof.
  intros Hw Hr Hne. unfold recorded. simpl.
  destruct Hr as [Ht|[Hc|(t' & pc' & Hin & <-)]]; [by left | by right; left |].
  right; right. exists t', pc'. split; [|done]. apply elem_dict_del; [apply Hw|].
  split; [|done]. intros ->. apply Hne. by apply (cw_pending_root _ Hw).
Qed.

Lemma recorded_frame c c' r :
  c_tracked c' = c_tracked c → c_committing c' = c_committing c →
  c_pending_commits c' = c_pending_commits c → recorded c r → recorded c' r.
Proof. unfold recorded. by intros -> -> ->. Qed.

(** A step of the client that sends nothing keeps the invariant. *)
Lemma client_inv_update X c c' sent :
  client_inv X c sent → client_wf c' →
  (∀ e, e ∈ settled_ids sent → e ∈ c_committed_escrow_ids c → e ∈ c_committed_escrow_ids c') →
  (∀ x, x ∈ sent → recorded c (cc_merkle_root x.1) → recorded c' (cc_merkle_root x.1)) →
  (∀ k b, (k, b) ∈ acc_pending (c_accumulator c') →
     ∀ e, e ∈ escrow_ids (batch_receipts b) → e ∈ settled_ids sent →
     (k, b) ∈ acc_pending (c_accumulator c) ∧ ¬ X k) →
  mem_inv c' sent.
Proof.
  intros Hi Hw Hl Hr Hp. split; [done | apply Hi | apply Hi | | |].
  - intros e He. apply Hl; [done|]. by apply (ci_armed _ _ _ Hi).
  - intros x Hx. apply Hr; [done|]. by apply (ci_recorded _ _ _ Hi).
  - intros k b Hin _ e He Hs. destruct (Hp k b Hin e He Hs) as [Hin' HX].
    exact (ci_unsent _ _ _ Hi k b Hin' HX e He Hs).
Qed.

(** *** Persisting *)

Abbreviation wpc := (wpm (E := settle) exec disk_inv).

Ltac wp_perform :=
  apply wpm_bind;
  lazymatch goal with |- wpm _ _ (@perform _ _ ?e) _ _ _ => apply (wpm_perform (E := settle) exec _ e) end.

Lemma persist_spec c w (Q : result unit → Client → World → Prop) :
  disk_inv w → snap_inv c (w_sent w) →
  (∀ r w', disk_inv w' → w_sent w' = w_sent w →
           (r = Ok tt → w_disk w' = Json (serialize_state c)) → Q r c w') →
  wpc persist Q c w.
Proof.
  intros Hd Hs HQ. unfold persist. apply wpm_bind, wpm_get; [done|].
  rewrite (cw_store _ (ci_wf _ _ _ Hs)).
  wp_perform; [done|]. intros r w' Hx.
  assert (disk_inv w' ∧ w_sent w' = w_sent w ∧
          (r = Ok tt → w_disk w' = Json (serialize_state c))) as (Hd' & Hsent & Hdisk).
  { destruct Hx as [[-> ->]|(x & -> & ->)]; [|done]. split; [|done].
    by exists c. }
  split; [done|]. apply wpm_lift; auto.
Qed.

(** *** Committing one ready batch *)

Lemma root_32 rs ls root : build_leaves_root rs = Ok (ls, root) → length root = 32%nat.
Proof.
  unfold build_leaves_root. intros Hb. inv_result. simplify_eq/=.
  assert (Forall (λ x, length x = 32%nat) ls) as H32.
  { apply result_mapM_Forall2 in Hr. apply Forall_forall. intros x Hx.
    apply list_elem_of_lookup in Hx as [i Hi].
    destruct (Forall2_lookup_r _ _ _ _ _ Hr Hi) as (br & _ & Hbr).
    destruct (batched_receipt_to_leaf br); [|done]. simpl in Hbr. simplify_eq.
    apply keccak_length. }
  unfold build_tree_and_proofs in Hr0.
  destruct (build_merkle_root ls) as [root'|] eqn:Hroot; [|done]. cbn [mbind result_bind] in Hr0.
  inv_result. cbn [tree_root].
  assert (ls ≠ []) as Hne by (by intros ->).
  destruct (build_merkle_root_Ok ls Hne) as (root & Hroot' & Hred).
  rewrite Hroot in Hroot'. simplify_eq.
  assert (∀ fuel l, Forall (λ x, length x = 32%nat) l →
            Forall (λ x, length x = 32%nat) (reduce_layers fuel l)) as Hall.
  { induction fuel as [|fuel IH]; intros l Hl; simpl; [done|].
    case_match; [apply IH; by apply next_layer_32 | done]. }
  specialize (Hall (length ls) ls H32). rewrite Hred in Hall. by rewrite Forall_singleton in Hall.
Qed.

(** The client that has written its intent and armed its ledger. *)
Definition armed (r : ReadyBatch) (ls : list bytes) (root : bytes) (c : Client) : Client :=
  with_ledger (record_all (batch_receipts (ready_batch r)))
    (with_committing (dict_set (intent_key (ready_key r) root) (build_intent r ls root)) c).

(** The ready batch [r] is queued and its Merkle root is [root]. *)
Definition queued (r : ReadyBatch) (ls : list bytes) (root : bytes) (c : Client) : Prop :=
  dict_get (ready_key r) (acc_pending (c_accumulator c)) = Some (ready_batch r) ∧
  build_leaves_root (batch_receipts (ready_batch r)) = Ok (ls, root).

Lemma build_intent_fields r ls root :
  ci_accumulator_key (build_intent r ls root) = ready_key r ∧
  ci_merkle_root (build_intent r ls root) = root.
Proof. unfold build_intent. by destruct (ready_key r) as [[[? ?] ?] ?]. Qed.

Lemma queued_known r ls root c :
  client_wf c → queued r ls root c →
  Forall known (batch_receipts (ready_batch r)) ∧ NoDup (escrow_ids (batch_receipts (ready_batch r))).
Proof.
  intros Hw [Hg%dict_get_elem _]. split; [by apply (cw_known _ Hw (ready_key r))|].
  pose proof (awf_batches _ (cw_acc _ Hw)) as Hb. rewrite Forall_forall in Hb. apply (Hb _ Hg).
Qed.

Lemma armed_inv r ls root c sent :
  mem_inv c sent → queued r ls root c →
  let c1 := armed r ls root c in
  mem_inv c1 sent ∧ queued r ls root c1 ∧ recorded c1 root ∧
  (∀ e, e ∈ escrow_ids (batch_receipts (ready_batch r)) → e ∈ c_committed_escrow_ids c1) ∧
  ready_key r ∈ intent_keys c1.
Proof.
  intros Hi Hq c1. pose proof (ci_wf _ _ _ Hi) as Hw.
  destruct (queued_known _ _ _ _ Hw Hq) as [Hk Hnd].
  destruct (build_intent_fields r ls root) as [Hfk Hfr].
  set (ik := intent_key (ready_key r) root) in *.
  assert (intent_ok (ik, build_intent r ls root)) as Hok.
  { split; simpl; [|by rewrite Hfk, Hfr]. rewrite Hfr. eapply root_32, Hq. }
  destruct (record_all_spec (batch_receipts (ready_batch r)) (c_committed_escrow_ids c))
    as (Hl1 & Hl2 & Hl3); [apply Hw | apply Hw | done |].
  assert (∀ x, recorded c x ∨ x = root → recorded c1 x) as Hrec.
  { intros x Hx. eapply recorded_frame; [done..|].
    apply (recorded_committing_set c ik (build_intent r ls root)); [done | done |].
    by rewrite Hfr. }
  split_and!.
  - apply (client_inv_update _ _ _ _ Hi).
    + apply wf_ledger; [by apply wf_committing_set | done | done].
    + intros e _ He. apply Hl2. by right.
    + auto.
    + intros k b Hin e He _. split; [exact Hin | tauto].
  - exact Hq.
  - auto.
  - intros e He. apply Hl2. by left.
  - apply list_elem_of_fmap. exists (build_intent r ls root). split; [done|].
    apply list_elem_of_fmap. exists (ik, build_intent r ls root). split; [done|].
    simpl. apply elem_dict_set; [apply Hw | by left].
Qed.

Lemma signer_check_error signer p e :
  signer_check signer p = Err e → e = ProviderAddressMismatchError.
Proof.
  unfold signer_check. destruct signer as [s|]; [|done]. case_match; [|done].
  by intros [_ ->]%raise_if_Err.
Qed.

Lemma commit_call_ok r ls root c att :
  client_wf c → queued r ls root c → signer_check signer (ready_key r).1.1.2 = Ok tt →
  call_ok (commit_call r ls root att, batch_receipts (ready_batch r)).
Proof.
  intros Hw [Hget Hb] Hsc. apply dict_get_elem in Hget.
  pose proof (awf_batches _ (cw_acc _ Hw)) as Hall. rewrite Forall_forall in Hall.
  destruct (Hall _ Hget) as [_ Hkeys Htot _ _ _ _]. simpl in *.
  assert (length ls = length (batch_receipts (ready_batch r))) as Hlen.
  { unfold build_leaves_root in Hb. inv_result. simplify_eq/=. by apply result_mapM_length in Hr. }
  unfold call_ok, commit_call. destruct (ready_key r) as [[[q p] g] s]. simpl in *.
  rewrite Hlen. done.
Qed.

(** The effects of [commit_one]: nothing is sent, or the call is sent after
    which the batch's key is exempt. *)
Lemma commit_one_spec r ls root c w (Q : result CommittedBatch → Client → World → Prop) :
  disk_inv w → w_disk w = Json (serialize_state c) → mem_inv c (w_sent w) →
  queued r ls root c → recorded c root → ready_key r ∈ intent_keys c →
  (∀ e, e ∈ escrow_ids (batch_receipts (ready_batch r)) → e ∈ c_committed_escrow_ids c) →
  (∀ e w', disk_inv w' → mem_inv c (w_sent w') → exn_tx_hash e = None → e ≠ BroadcastFailedError →
     Q (Err e) c w') →
  (∀ res w', disk_inv w' → client_inv (λ k, k = ready_key r) c (w_sent w') →
     match res with
     | Ok rec => cb_merkle_root rec = root ∧ batch_root (cb_batch_id rec) = root
     | Err (OnChainPendingError tx) => tx_root tx = root
     | Err e => e = BroadcastFailedError
     end → Q res c w') →
  wpc (commit_one r ls root) Q c w.
Proof.
  intros Hd Hdisk Hi Hq Hrec Hown Harm Hfail Hsent. unfold commit_one.
  pose proof (commit_call_ok r ls root c) as Hcall.
  assert (∀ e, exn_tx_hash e = None → e ≠ BroadcastFailedError → Q (Err e) c w) as Herr by eauto.
  apply wpm_bind, wpm_get; [done|]. apply wpm_bind, wpm_lift; [done|].
  rewrite (cw_signer _ (ci_wf _ _ _ Hi)).
  destruct (signer_check _ _) as [[]|e] eqn:Hsc.
  2: { apply signer_check_error in Hsc as ->. by apply Herr. }
  apply wpm_bind, wpm_lift; [done|].
  destruct (batch_attestation_commitment _) as [att|e] eqn:Hatt.
  2: { apply commitment_error in Hatt as ->. by apply Herr. }
  wp_perform; [done|]. intros res w' Hx.
  specialize (Hcall att (ci_wf _ _ _ Hi) Hq eq_refl).
  set (call := commit_call r ls root att) in *.
  assert (cc_merkle_root call = root) as Hroot.
  { unfold call, commit_call. by destruct (ready_key r) as [[[? ?] ?] ?]. }
  destruct Hq as [Hget Hbuild].
  assert (w' = w_send (call, batch_receipts (ready_batch r)) w →
          disk_inv w' ∧ client_inv (λ k, k = ready_key r) c (w_sent w')) as Hsend.
  { intros ->. simpl. split.
    - unfold disk_inv. simpl. rewrite Hdisk. exists c. split; [done|].
      eapply send_inv; [exact Hi | exact Hget | by rewrite Hroot | done | done | by rewrite Hroot | done].
    - eapply send_inv; [exact Hi | exact Hget | by rewrite Hroot | done | done | by rewrite Hroot | done]. }
  cbn [exec] in Hx. rewrite Hroot in Hx.
  assert (disk_inv w' ∧ match res with
     | Ok (b, _) => batch_root b = root ∧ client_inv (λ k, k = ready_key r) c (w_sent w')
     | Err (OnChainPendingError tx) => tx_root tx = root ∧ client_inv (λ k, k = ready_key r) c (w_sent w')
     | Err BroadcastFailedError => client_inv (λ k, k = ready_key r) c (w_sent w')
     | Err _ => mem_inv c (w_sent w')
     end) as [Hd' Hres].
  { destruct res as [[b t]|e].
    - destruct Hx as [Hb Hx]. destruct (Hsend Hx). auto.
    - destruct e; first [ rewrite Hx; done
                        | by destruct (Hsend Hx)
                        | destruct Hx as [Htx Hx]; destruct (Hsend Hx); auto ]. }
  split; [done|]. apply wpm_bind, wpm_lift; [done|].
  destruct res as [[b t]|e].
  - destruct Hres as [Hb Hinv]. apply wpm_ret; [done|]. apply Hsent; [done | done |].
    unfold committed_of. by destruct (ready_key r) as [[[? ?] ?] ?].
  - destruct (decide (e = BroadcastFailedError)) as [->|Hne]; [by apply Hsent|].
    destruct (exn_tx_hash e) as [tx|] eqn:Htx.
    + destruct e; try done. simpl in Htx. simplify_eq. destruct Hres. by apply Hsent.
    + apply Hfail; [done | by destruct e | done | done].
Qed.

(** What every step of a method establishes: the invariants, and that no queue
    but [k]'s has changed. *)
Definition step_post (k : AccumulatorKey) (c : Client) {A} (r : result A) (c' : Client) (w' : World)
  : Prop :=
  disk_inv w' ∧ mem_inv c' (w_sent w') ∧
  ∀ k', k' ≠ k → dict_get k' (acc_pending (c_accumulator c')) =
                 dict_get k' (acc_pending (c_accumulator c)).

Lemma pop_other c k k' :
  client_wf c → k' ≠ k →
  dict_get k' (acc_pending (c_accumulator (pop_key k c))) = dict_get k' (acc_pending (c_accumulator c)).
Proof. intros Hw Hk. simpl. apply dict_get_del_ne; [apply (awf_keys _ (cw_acc _ Hw)) | done]. Qed.

Lemma pop_elem c k k' b :
  client_wf c → (k', b) ∈ acc_pending (c_accumulator (pop_key k c)) →
  k' ≠ k ∧ (k', b) ∈ acc_pending (c_accumulator c).
Proof. intros Hw Hin. simpl in Hin. apply elem_dict_del in Hin; [done | apply (awf_keys _ (cw_acc _ Hw))]. Qed.

(** Popping the exempt batch, after re-recording its root, restores the invariant. *)
Lemma settle_inv k c c' sent :
  client_inv (λ k', k' = k) c sent → client_wf c' →
  (∀ e, e ∈ c_committed_escrow_ids c → e ∈ c_committed_escrow_ids c') →
  (∀ x, recorded c x → recorded c' x) →
  acc_pending (c_accumulator c') = acc_pending (c_accumulator (pop_key k c)) →
  mem_inv c' sent.
Proof.
  intros Hi Hw Hl Hr Hp. apply (client_inv_update _ _ _ _ Hi); [done | auto | auto |].
  intros k' b Hin e He _. rewrite Hp in Hin.
  apply pop_elem in Hin; [|apply Hi]. tauto.
Qed.

Lemma promote_spec r root rec c w (Q : result unit → Client → World → Prop) :
  disk_inv w → client_inv (λ k, k = ready_key r) c (w_sent w) →
  Forall known (batch_receipts (ready_batch r)) → length root = 32%nat →
  cb_merkle_root rec = root → batch_root (cb_batch_id rec) = root →
  (∀ r' c' w', step_post (ready_key r) c r' c' w' → Q r' c' w') →
  wpc (promote r (intent_key (ready_key r) root) rec) Q c w.
Proof.
  intros Hd Hi Hk Hlen Hrec Hbr HQ. unfold promote.
  do 4 (apply wpm_bind, wpm_modify; [done|]).
  set (ct := with_tracked _ (pop_key _ c)). set (cd := with_committing _ ct).
  set (c' := with_ledger _ cd).
  pose proof (ci_wf _ _ _ Hi) as Hw.
  assert (client_wf ct) as Hwt by (apply wf_tracked_set; [by apply wf_pop | congruence]).
  assert (client_wf cd) as Hwd by by apply wf_committing_del.
  destruct (record_all_spec (batch_receipts (ready_batch r)) (c_committed_escrow_ids c))
    as (Hl1 & Hl2 & Hl3); [apply Hw | apply Hw | done |].
  assert (mem_inv c' (w_sent w)) as Hi'.
  { apply (settle_inv (ready_key r) c); [done | by apply wf_ledger | | | done].
    - intros e He. apply Hl2. by right.
    - intros x Hx. eapply recorded_frame; [done..|].
      assert (∀ y, recorded c y ∨ y = root → recorded ct y) as Ht.
      { intros y Hy. apply recorded_tracked_set; [by apply wf_pop | congruence |].
        destruct Hy as [Hy| ->]; [left|by right]. by eapply recorded_frame. }
      destruct (decide (x = root)) as [->|Hne].
      + left. exists (cb_batch_id rec), rec. split; [|done]. simpl.
        apply elem_dict_set; [apply Hw | by left].
      + eapply recorded_committing_del; [done | done | done | auto | done]. }
  assert (∀ k', k' ≠ ready_key r → dict_get k' (acc_pending (c_accumulator c')) =
                 dict_get k' (acc_pending (c_accumulator c))) as Hp by (intros; by apply pop_other).
  apply wpm_bind, persist_spec; [done | by apply mem_snap |].
  intros [[]|e] w' Hd' Hs' _; [|apply HQ; rewrite <- Hs' in Hi'; done].
  rewrite <- Hs' in Hi'. apply wpm_bind, wpm_get; [done|].
  destruct (c_published c') as [ps|]; [|apply wpm_ret; [done | by apply HQ]].
  apply wpm_bind, wpm_modify; [done|]. wp_perform; [done|]. intros r' w2 ->.
  split; [done|]. apply wpm_ret; [done|]. apply HQ. split_and!; [done | | done].
  apply (client_inv_update _ _ _ _ Hi'); [apply wf_published, Hi' | done | done |].
  intros k b Hin e _ _. split; [exact Hin | tauto].
Qed.

(** A revert: the batch stays queued, its ids are unarmed, its intent dropped. *)
Lemma revert_inv r ls root c sent :
  mem_inv c sent → queued r ls root c →
  mem_inv (with_ledger (discard_all (batch_receipts (ready_batch r)))
             (with_committing (dict_del (intent_key (ready_key r) root)) c)) sent.
Proof.
  intros Hi [Hget Hbuild]. pose proof (ci_wf _ _ _ Hi) as Hw.
  destruct (queued_known r ls root c Hw (conj Hget Hbuild)) as [Hk Hnd].
  destruct (discard_all_spec (batch_receipts (ready_batch r)) (c_committed_escrow_ids c)) as [Hl1 Hl2];
    [apply Hw | done |].
  apply dict_get_elem in Hget as Hin.
  pose proof (ci_unsent _ _ _ Hi _ _ Hin (λ x, x)) as Hun.
  apply (client_inv_update _ _ _ _ Hi).
  - apply wf_ledger; [by apply wf_committing_del | done |].
    intros e [_ He]%Hl2. by apply (cw_ledger_ids _ Hw).
  - intros e Hs He. apply Hl2. split; [|done]. intros He'. by apply (Hun e).
  - intros x Hx Hr. eapply recorded_frame; [done..|].
    apply (recorded_committing_del _ _ (ready_key r) _ root); [done | done | by eapply root_32 | done |].
    intros Heq. pose proof (ci_sent _ _ _ Hi) as Hs. rewrite Forall_forall in Hs.
    destruct (Hs x Hx) as (Hk' & Hnd' & (ls' & Hb') & _). rewrite Heq in Hb'.
    destruct (distinct_work _ _ _ _ _ Hk Hk' Hnd Hnd' Hbuild Hb') as (e & He1 & He2).
    apply (Hun e He1). unfold settled_ids. apply list_elem_of_bind.
    exists x.2. split; [done|]. apply list_elem_of_fmap. by exists x.
  - intros k b Hb e _ _. split; [exact Hb | tauto].
Qed.

Lemma quarantine_inv r ls root tx c sent :
  client_inv (λ k, k = ready_key r) c sent → length root = 32%nat → tx_root tx = root →
  mem_inv (with_pending (dict_set tx (pending_of r tx ls root))
    (pop_key (ready_key r) (with_committing (dict_del (intent_key (ready_key r) root)) c))) sent.
Proof.
  intros Hi Hlen Htx. pose proof (ci_wf _ _ _ Hi) as Hw.
  assert (pc_merkle_root (pending_of r tx ls root) = root) as Hpc.
  { unfold pending_of. by destruct (ready_key r) as [[[? ?] ?] ?]. }
  set (cd := pop_key _ _) in *.
  assert (client_wf cd) as Hwd by by apply wf_pop, wf_committing_del.
  apply (settle_inv (ready_key r) c); [done | | done | | done].
  - apply wf_pending_set; [done | congruence].
  - intros x Hx. apply recorded_pending_set; [done | congruence |]. rewrite Hpc.
    destruct (decide (x = root)) as [->|Hne]; [by right|left].
    eapply recorded_frame; [done..|].
    by apply (recorded_committing_del _ _ (ready_key r) _ root).
Qed.

(** A step ends by writing the snapshot. *)
Lemma persist_step {A} k c (x : A) (Q : result A → Client → World → Prop) c' w :
  disk_inv w → mem_inv c' (w_sent w) →
  (∀ k', k' ≠ k → dict_get k' (acc_pending (c_accumulator c')) =
                  dict_get k' (acc_pending (c_accumulator c))) →
  (∀ r' c' w', step_post k c r' c' w' → Q r' c' w') →
  wpc (_ ← persist; mret x) Q c' w.
Proof.
  intros Hd Hi Hsame HQ. apply wpm_bind, persist_spec; [done | by apply mem_snap |].
  intros r' w2 Hd2 Hs2 _. rewrite <- Hs2 in Hi.
  assert (∀ r : result A, step_post k c r c' w2) as Hpost by (intros; split_and!; done).
  destruct r' as [[]|e]; [apply wpm_ret; [done|]|]; apply HQ, Hpost.
Qed.

(** The transaction may have been sent: its receipts leave the queue for the
    quarantine. *)
Lemma quarantine_spec r ls root tx c c1 (Q : result (list CommittedBatch) → Client → World → Prop) w :
  disk_inv w → client_inv (λ k, k = ready_key r) c1 (w_sent w) →
  length root = 32%nat → tx_root tx = root →
  acc_pending (c_accumulator c1) = acc_pending (c_accumulator c) →
  (∀ r' c' w', step_post (ready_key r) c r' c' w' → Q r' c' w') →
  wpc (_ ← modify (with_committing (dict_del (intent_key (ready_key r) root)));
       _ ← quarantine_pending r tx ls root; mret []) Q c1 w.
Proof.
  intros Hd Hi Hlen Htx Hsame HQ. apply wpm_bind, wpm_modify; [done|].
  apply wpm_bind. unfold quarantine_pending. do 2 (apply wpm_bind, wpm_modify; [done|]).
  pose proof (quarantine_inv r ls root tx c1 (w_sent w) Hi Hlen Htx) as Hi3.
  apply persist_spec; [done | by apply mem_snap|]. intros r' w' Hd' Hs' _.
  rewrite <- Hs' in Hi3.
  assert (∀ x : result (list CommittedBatch), step_post (ready_key r) c x
            (with_pending (dict_set tx (pending_of r tx ls root))
              (pop_key (ready_key r) (with_committing (dict_del (intent_key (ready_key r) root)) c1)))
            w') as Hpost.
  { intros. split_and!; [done | done |]. intros k' Hk'. rewrite <- Hsame.
    exact (pop_other c1 (ready_key r) k' (ci_wf _ _ _ Hi) Hk'). }
  destruct r' as [[]|e']; [apply wpm_ret; [done|]|]; apply HQ, Hpost.
Qed.

Lemma commit_iteration_spec r c w (Q : result (list CommittedBatch) → Client → World → Prop) :
  disk_inv w → mem_inv c (w_sent w) →
  dict_get (ready_key r) (acc_pending (c_accumulator c)) = Some (ready_batch r) →
  (∀ r' c' w', step_post (ready_key r) c r' c' w' → Q r' c' w') →
  wpc (commit_iteration r) Q c w.
Proof.
  intros Hd Hi Hget HQ. unfold commit_iteration.
  apply wpm_bind, wpm_lift; [done|].
  destruct (build_leaves_root _) as [[ls root]|e] eqn:Hbuild; [|by apply HQ].
  do 2 (apply wpm_bind, wpm_modify; [done|]).
  change (with_ledger _ _) with (armed r ls root c).
  destruct (armed_inv r ls root c (w_sent w)) as (Hi1 & Hq1 & Hrec1 & Harm1 & Hown1); [done | done |].
  destruct (queued_known r ls root c) as [Hk Hnd]; [apply Hi | done |].
  pose proof (root_32 _ _ _ Hbuild) as Hlen.
  set (c1 := armed r ls root c) in *.
  assert (∀ k', dict_get k' (acc_pending (c_accumulator c1)) =
                dict_get k' (acc_pending (c_accumulator c))) as Hsame by done.
  set (ik := intent_key (ready_key r) root).
  apply wpm_bind, persist_spec; [done | by apply mem_snap |].
  intros [[]|e] w1 Hd1 Hs1 Hdisk1; [|apply HQ; rewrite <- Hs1 in Hi1; done].
  rewrite <- Hs1 in Hi1.
  apply wpm_bind, wpm_try.
  apply commit_one_spec; try done; [by apply Hdisk1 | |].
  - (* definitely not sent *)
    intros e w2 Hd2 Hi2 Htx Hne. cbn [mbind M_bind]. rewrite Htx, bool_decide_false by done.
    do 2 (apply wpm_bind, wpm_modify; [done|]).
    by apply (persist_step (ready_key r) c []); [|apply (revert_inv r ls)| |].
  - (* sent, or perhaps sent *)
    intros res w2 Hd2 Hi2 Hres. cbn [mbind M_bind]. destruct res as [rec|e].
    + destruct Hres as [Hroot Hb]. apply wpm_bind.
      apply promote_spec; [done | done | done | done | done | done |].
      intros r' c' w' (Hd' & Hi' & Hp').
      assert (∀ A (x : result A), step_post (ready_key r) c x c' w') as Hpost
        by (intros; split_and!; [done | done | intros; by rewrite Hp']).
      destruct r' as [[]|e]; [apply wpm_ret; [done|]|]; apply HQ, Hpost.
    + destruct (exn_tx_hash e) as [tx|] eqn:Htx.
      * assert (tx_root tx = root) as Htxr by (destruct e; simplify_eq/=; done).
        by apply (quarantine_spec r ls root tx c).
      * assert (e = BroadcastFailedError) as -> by (destruct e; simplify_eq/=; done).
        rewrite bool_decide_true by done. apply wpm_bind, wpm_modify; [done|].
        apply (persist_step (ready_key r) c []); [done | | by intros; rewrite pop_other; [|apply Hi2|] | done].
        apply (settle_inv (ready_key r) c1); [done | by apply wf_pop, Hi1 | done | | done].
        intros x. by apply recorded_frame.
Qed.

(** *** The methods *)

Definition inv_post {A} (r : result A) (c : Client) (w : World) : Prop :=
  disk_inv w ∧ mem_inv c (w_sent w).

(** A method that keeps the invariants, whatever it returns or raises. *)
Definition keeps {A} (m : method A) : Prop :=
  ∀ c w, disk_inv w → mem_inv c (w_sent w) → wpc m inv_post c w.

Lemma keeps_ret {A} (x : A) : keeps (mret x).
Proof. intros c w Hd Hi. by apply wpm_ret. Qed.

Lemma keeps_bind {A B} (m : method A) (f : A → method B) :
  keeps m → (∀ x, keeps (f x)) → keeps (m ≫= f).
Proof.
  intros Hm Hf c w Hd Hi. apply wpm_bind. eapply wpm_mono; [by apply Hm|].
  intros [x|e] c' w' _ [Hd' Hi']; [by apply Hf | done].
Qed.

Lemma keeps_get {A} (f : Client → method A) :
  (∀ c w, disk_inv w → mem_inv c (w_sent w) → wpc (f c) inv_post c w) → keeps (c ← get; f c).
Proof. intros Hf c w Hd Hi. apply wpm_bind, wpm_get; [done | by apply Hf]. Qed.

Lemma keeps_persist : keeps persist.
Proof.
  intros c w Hd Hi. apply persist_spec; [done | by apply mem_snap |].
  intros r w' Hd' Hs' _. split; [done | by rewrite Hs'].
Qed.

(** Change the client in a way that keeps the invariant, save, and return. *)
Lemma save_keeps {A} (x : A) c w :
  disk_inv w → mem_inv c (w_sent w) → wpc (_ ← persist; mret x) inv_post c w.
Proof. apply (keeps_bind persist); [apply keeps_persist | intros; apply keeps_ret]. Qed.

Lemma for_collect_keeps {A B} (P : A → Prop) (l : list A) (f : A → method (list B)) :
  Forall P l → (∀ x, P x → keeps (f x)) → keeps (for_collect l f).
Proof.
  intros Hl Hf. induction Hl as [|x l Hx Hl IH]; simpl; [apply keeps_ret|].
  apply keeps_bind; [by apply Hf|]. intros ys. apply keeps_bind; [done|]. intros; apply keeps_ret.
Qed.

Lemma mem_inv_set_acc c a sent :
  mem_inv c sent → acc_wf a →
  (∀ k b, (k, b) ∈ acc_pending a → Forall known (batch_receipts b)) →
  (∀ k b e, (k, b) ∈ acc_pending a → e ∈ escrow_ids (batch_receipts b) → e ∉ settled_ids sent) →
  mem_inv (with_accumulator (λ _, a) c) sent.
Proof.
  intros Hi Ha Hk He. split; try apply Hi.
  - destruct (ci_wf _ _ _ Hi). by split.
  - intros k b Hin _ e. by apply (He k b).
Qed.

Lemma accumulate_keeps br : known br → keeps (accumulate br).
Proof.
  intros Hbr c w Hd Hi. unfold accumulate. apply wpm_bind, wpm_get; [done|].
  destruct (bool_decide _); [by apply wpm_raise|].
  destruct (ledger_has _ _) eqn:Hled; [by apply wpm_ret|].
  wp_perform; [done|]. intros now w' ->. split; [done|].
  pose proof (ci_wf _ _ _ Hi) as Hw.
  destruct (acc_add_spec (c_accumulator c) br now (cw_acc _ Hw)) as (b' & Hadd & Hb' & Hr & _).
  rewrite Hadd. set (a := set_pending _ _).
  apply wpm_bind, wpm_modify; [done|]. apply wpm_bind, wpm_lift; [done|].
  destruct (known_id br Hbr) as (Hne & _).
  assert (∀ br', br' ∈ batch_receipts b' →
            br' = br ∨ ∃ b, (receipt_key br, b) ∈ acc_pending (c_accumulator c) ∧
                            br' ∈ batch_receipts b) as Hfrom.
  { intros br'. rewrite Hr. intros [Hin|Hin]%elem_of_app.
    - right. destruct (dict_get (receipt_key br) (acc_pending (c_accumulator c))) as [b|] eqn:Hg.
      + exists b. split; [by apply dict_get_elem | done].
      + by apply not_elem_of_nil in Hin.
    - left. destruct (batch_dup _ br); [by apply not_elem_of_nil in Hin|].
      by apply list_elem_of_singleton in Hin. }
  apply keeps_persist; [done|]. apply mem_inv_set_acc; [done | apply acc_wf_set; [apply Hw | exact Hb'] | |].
  - intros k b Hin0. apply elem_dict_set in Hin0 as [[-> ->]|[_ Hin]];
      [| by apply (cw_known _ Hw k) | apply (awf_keys _ (cw_acc _ Hw))].
    apply Forall_forall. intros br' [->|(b & Hin & Hb)]%Hfrom; [done|].
    pose proof (cw_known _ Hw _ _ Hin) as Hf. rewrite Forall_forall in Hf. by apply Hf.
  - intros k b e Hin0 He.
    apply elem_dict_set in Hin0 as [[-> ->]|[_ Hin]]; [| |apply (awf_keys _ (cw_acc _ Hw))].
    + apply elem_escrow_ids in He as (Hen & br' & Hbr' & <-).
      destruct (Hfrom br' Hbr') as [->|(b & Hin & Hb)].
      * intros Hs. apply (ci_armed _ _ _ Hi) in Hs. unfold ledger_has in Hled.
        rewrite Hne, bool_decide_true in Hled by done. done.
      * apply (ci_unsent _ _ _ Hi _ _ Hin (λ x, x)). apply elem_escrow_ids. eauto.
    + by apply (ci_unsent _ _ _ Hi _ _ Hin (λ x, x)).
Qed.

Lemma ready_keys_NoDup a now : acc_wf a → NoDup (ready_key <$> ready_batches a now).
Proof.
  intros [Hwf _]. unfold ready_batches, dict_wf, dict_keys in *.
  induction (acc_pending a) as [|[k b] p IH]; [constructor|]. simpl in Hwf.
  apply NoDup_cons in Hwf as [Hn Hwf]. specialize (IH Hwf). simpl.
  destruct (check_triggers _ b now); simpl; [|done]. apply NoDup_cons. split; [|done].
  intros ([k' b' t'] & -> & Hr)%list_elem_of_fmap. simpl in Hn.
  apply list_elem_of_omap in Hr as ([k2 b2] & Hin & Hr). simpl in Hr.
  destruct (check_triggers _ b2 now); simplify_eq/=. apply Hn.
  apply list_elem_of_fmap. by exists (k', b').
Qed.

Lemma ready_batches_queued a now :
  acc_wf a → Forall (λ r, dict_get (ready_key r) (acc_pending a) = Some (ready_batch r)) (ready_batches a now).
Proof.
  intros Ha. apply Forall_forall. intros r Hr. apply list_elem_of_omap in Hr as ([k b] & Hin & Hr). simpl in Hr.
  destruct (check_triggers _ b now); simplify_eq/=. by apply elem_dict_get; [apply (awf_keys _ Ha)|].
Qed.

Lemma commit_ready_batches_keeps force : keeps (commit_ready_batches force).
Proof.
  unfold commit_ready_batches. apply keeps_bind.
  { destruct force; [apply keeps_ret|]. intros c w Hd Hi.
    apply (wpm_perform (E := settle) exec _ Now); [done|]. by intros r w' ->. }
  intros now. apply keeps_get. intros c w Hd Hi.
  apply (wpm_for_collect (E := settle) exec disk_inv _ _
    (λ l (_ : list CommittedBatch) c w, disk_inv w ∧ mem_inv c (w_sent w) ∧ NoDup (ready_key <$> l) ∧
       Forall (λ r, dict_get (ready_key r) (acc_pending (c_accumulator c)) = Some (ready_batch r)) l)
    _ _ _ []).
  - by intros ? (? & ? & ? & ? & _).
  - split_and!; [done | done | apply ready_keys_NoDup, Hi | apply ready_batches_queued, Hi].
  - intros r l ys c1 w1 (Hd1 & Hi1 & Hnd & Hall). apply Forall_cons in Hall as [Hr Hall].
    apply NoDup_cons in Hnd as [Hn Hnd].
    apply commit_iteration_spec; [done | done | done |].
    intros r' c' w' (Hd' & Hi' & Hp). destruct r' as [zs|e]; [|by split].
    split_and!; [done | done | done |]. apply Forall_forall. intros r2 Hr2.
    rewrite Hp; [by rewrite Forall_forall in Hall; apply Hall|].
    intros Heq. apply Hn. rewrite <- Heq. apply list_elem_of_fmap. by exists r2.
  - intros ys c' w' (Hd' & Hi' & _). by split.
Qed.
Lemma mem_inv_finalized b c sent : mem_inv c sent → mem_inv (with_finalized b c) sent.
Proof.
  intros Hi. apply (client_inv_update _ _ _ _ Hi); [apply wf_finalized, Hi | done | done |].
  intros k b' Hin e _ _. split; [exact Hin | tauto].
Qed.

Lemma finalize_keeps : keeps finalize_ready_batches.
Proof.
  apply keeps_get. intros c0 w0 Hd0 Hi0.
  apply (for_collect_keeps (λ _, True)); [by apply Forall_true | | done | done].
  intros b _. unfold finalize_iteration. apply keeps_get. intros c w Hd Hi.
  destruct (bool_decide _); [by apply wpm_ret|].
  wp_perform; [done|]. intros r w' ->. split; [done|].
  destruct r as [[|]|e]; [|by apply wpm_ret..].
  wp_perform; [done|]. intros r w' ->. split; [done|].
  destruct r as [u|e]; [|by apply wpm_ret].
  apply wpm_bind, wpm_modify; [done|]. by apply save_keeps, mem_inv_finalized.
Qed.

Lemma reconcile_finalized_keeps : keeps reconcile_finalized.
Proof.
  apply keeps_get. intros c0 w0 Hd0 Hi0.
  apply (keeps_bind (for_collect _ _)); [|intros; apply keeps_ret | done | done].
  apply (for_collect_keeps (λ _, True)); [by apply Forall_true |].
  intros b _. unfold reconcile_finalized_iteration. apply keeps_get. intros c w Hd Hi.
  destruct (bool_decide _); [by apply wpm_ret|].
  wp_perform; [done|]. intros r w' ->. split; [done|].
  assert (wpc (mret ([] : list unit)) inv_post c w) as Hret by by apply wpm_ret.
  assert (wpc (_ ← modify (with_finalized b); _ ← persist; mret [()]) inv_post c w) as Hmark
    by (apply wpm_bind, wpm_modify; [done|]; by apply save_keeps, mem_inv_finalized).
  destruct r as [z|e]; [|exact Hret].
  destruct z as [|[p|[p|p|]|]|p]; first [exact Hret | exact Hmark].
Qed.

(** Adopting a landed batch: tracked under its id, its marker removed. *)
Lemma recover_keeps : keeps recover_committing_intents.
Proof.
  apply keeps_get. intros c0 w0 Hd0 Hi0. destruct (c_can_scan c0); [|by apply wpm_ret].
  apply (keeps_bind (for_collect _ _)); [|intros; apply keeps_ret | done | done].
  apply (for_collect_keeps intent_ok); [apply (cw_intents _ (ci_wf _ _ _ Hi0))|].
  intros [ik ci] [Hlen Hik]. simpl in *. unfold recover_iteration. apply keeps_get. intros c w Hd Hi.
  wp_perform; [done|]. intros r w' [-> Htrue]. split; [done|].
  destruct r as [[[b t]|]|e]; [|by apply wpm_ret..]. specialize (Htrue b t eq_refl).
  do 3 (apply wpm_bind, wpm_modify; [done|]). apply save_keeps; [done|].
  pose proof (ci_wf _ _ _ Hi) as Hw.
  set (ct := with_tracked _ c). set (cd := with_committing _ ct).
  assert (client_wf ct) as Hwt by by apply wf_tracked_set.
  assert (client_wf cd) as Hwd by by apply wf_committing_del.
  apply (client_inv_update _ _ _ _ Hi); [by apply wf_pop | done | |].
  - intros x _ Hx. eapply recorded_frame; [done..|].
    assert (∀ y, recorded c y → recorded ct y) as Ht
      by (intros y Hy; apply recorded_tracked_set; [done | done | by left]).
    destruct (decide (cc_merkle_root x.1 = ci_merkle_root ci)) as [->|Hne].
    + left. exists b, (adopt_intent ci b t). split; [|done]. simpl.
      apply elem_dict_set; [apply Hw | by left].
    + eapply recorded_committing_del; [done | exact Hik | done | auto | done].
  - intros k b' Hin e _ _. apply pop_elem in Hin as [_ Hin]; [|done]. split; [exact Hin | tauto].
Qed.

Lemma reconcile_pending_keeps : keeps reconcile_pending_commits.
Proof.
  apply keeps_get. intros c0 w0 Hd0 Hi0.
  apply (keeps_bind (for_collect _ _)); [|intros; apply keeps_ret | done | done].
  apply (for_collect_keeps (λ tp : string * PendingCommit, pc_merkle_root tp.2 = tx_root tp.1)).
  { apply Forall_forall. intros [tx pc] Hin. by apply (cw_pending_root _ (ci_wf _ _ _ Hi0)). }
  intros [tx pc] Htx. simpl in Htx. unfold reconcile_iteration. intros c w Hd Hi.
  wp_perform; [done|]. intros r w' [-> Htrue]. split; [done|].
  destruct r as [[[b t]|]|e]; [|by apply wpm_ret..]. specialize (Htrue b t eq_refl).
  do 2 (apply wpm_bind, wpm_modify; [done|]). apply save_keeps; [done|].
  pose proof (ci_wf _ _ _ Hi) as Hw.
  assert (cb_merkle_root (adopt_pending tx pc b t) = batch_root b) as Hroot by (simpl; congruence).
  set (ct := with_tracked _ c).
  assert (client_wf ct) as Hwt by by apply wf_tracked_set.
  apply (client_inv_update _ _ _ _ Hi); [by apply wf_pending_del | done | |].
  - intros x _ Hx. destruct (decide (cc_merkle_root x.1 = tx_root tx)) as [Heq|Hne].
    + left. exists b, (adopt_pending tx pc b t). split; [|simpl; congruence]. simpl.
      apply elem_dict_set; [apply Hw | by left].
    + apply recorded_pending_del; [done | | done].
      apply recorded_tracked_set; [done | done | by left].
  - intros k b' Hin e _ _. split; [exact Hin | tauto].
Qed.

Lemma op_keeps o : op_known o → keeps (op_body o).
Proof.
  destruct o; simpl; intros Ho.
  - by apply accumulate_keeps.
  - apply keeps_bind; [apply commit_ready_batches_keeps | intros; apply keeps_ret].
  - apply keeps_bind; [apply finalize_keeps | intros; apply keeps_ret].
  - apply keeps_bind; [apply recover_keeps | intros; apply keeps_ret].
  - apply keeps_bind; [apply reconcile_pending_keeps | intros; apply keeps_ret].
  - apply keeps_bind; [apply reconcile_finalized_keeps | intros; apply keeps_ret].
Qed.

(** *** Reachable states *)

Definition node_inv (s : node * World) : Prop :=
  match s.1 with
  | Up c => disk_inv s.2 ∧ mem_inv c (w_sent s.2)
  | Busy p => wp (E := settle) exec disk_inv p (λ rc w, mem_inv rc.2 (w_sent w)) s.2
  | Down => disk_inv s.2
  end.

Lemma node_step_inv c0 s s' :
  deployed c0 → node_step c0 s s' → node_inv s → node_inv s'.
Proof.
  intros Hst Hs. destruct Hs as [c o w Ho|p p' w w' Hp|r c w|n w|c ps w Hb]; unfold node_inv; simpl.
  - intros [Hd Hi]. pose proof (op_keeps o Ho c w Hd Hi) as Hk.
    eapply wp_mono; [exact Hk|]. by intros [r c'] w' _ [_ Hm].
  - intros Hw. by eapply wp_pstep.
  - done.
  - destruct n; [by intros [] | apply wp_crash | done].
  - intros Hd. split; [done|].
    destruct (boot_inv (with_published ps c0) w) as (c' & Hc' & Hi); [done | done |].
    rewrite Hb in Hc'. by injection Hc' as <-.
Qed.

Lemma reachable_inv c0 s : deployed c0 → reachable c0 s → node_inv s.
Proof.
  intros Hst Hr.
  assert (∀ s1 s2, rtc (node_step c0) s1 s2 → node_inv s1 → node_inv s2) as Hall.
  { induction 1 as [|s1 s2 s3 Hs _ IH]; [done|]. intros Hi. by apply IH, (node_step_inv c0 s1). }
  by apply (Hall _ _ Hr).
Qed.

Lemma node_inv_disk s : node_inv s → disk_inv s.2.
Proof. destruct s as [[c|p|] w]; simpl; [by intros [] | apply wp_crash | done]. Qed.

Lemma disk_inv_once w : disk_inv w → NoDup (settled_ids (w_sent w)).
Proof.
  unfold disk_inv. destruct (w_disk w) as [| |j].
  - intros ->. constructor.
  - done.
  - intros (c & _ & Hs). apply Hs.
Qed.
End World.
