(* ===== verification/ClientTheorems.v ===== *)
(** * BatchSettlementClient: theorems

    The properties of the client: no work is settled twice, no commit is lost
    across crashes, the outcome of one commit on every branch, exact durable
    state, the write-time signer guard and the dedup ledger's retention. *)
From Stdlib Require Import ZArith Lia.
From S2P Require Import PyStd.
From S2P Require Import Externals.
From S2P Require Import Receipt.
From S2P Require Import Attestation.
From S2P Require Import Merkle.
From S2P Require Import Accumulator.
From S2P Require Import Published.
From S2P Require Import Effects.
From S2P Require Import Client.
From S2P Require Import ClientDurable.
From S2P Require Import ClientSafety.
From S2P Require Import Prelude.
From stdpp Require Import relations.

#[local] Open Scope string_scope.
#[local] Open Scope list_scope.
#[local] Open Scope Z_scope.

(** ** Settlement safety *)


(** C6 No stranded commit.  In every reachable state, running, idle or crashed, a
    restart succeeds, and the client it boots holds a record (tracked batch,
    write-ahead intent or quarantined transaction) of the root of every commit
    that landed or may have landed; a client that is up holds one as well. *)
Theorem no_stranded_commit `{Deployment} c0 n w call rs :
  deployed c0 → reachable c0 (n, w) → (call, rs) ∈ w_sent w →
  (∃ c, client_init c0 (w_disk w) = Ok c ∧ recorded c (cc_merkle_root call)) ∧
  (∀ c, n = Up c → recorded c (cc_merkle_root call)).
Proof.
  intros Hst Hr Hin. pose proof (reachable_inv c0 _ Hst Hr) as Hi. split.
  - destruct (boot_inv c0 w Hst) as (c & Hc & Hm); [by apply (node_inv_disk (n, w))|].
    exists c. split; [done|]. by apply (ci_recorded _ _ _ Hm _ Hin).
  - intros c ->. destruct Hi as [_ Hm]. by apply (ci_recorded _ _ _ Hm _ Hin).
Qed.

(** What is queued is unsettled.  In every reachable idle client, a queued
    receipt's escrow id belongs to no commit that landed or may have landed, every
    such commit's ids are in the dedup ledger, so [accumulate] refuses their
    re-delivery, and the client is the same after a restart except for queues
    owned by a write-ahead intent. *)
Theorem queued_is_unsettled `{Deployment} c0 c w :
  deployed c0 → reachable c0 (Up c, w) →
  (∀ k b br, (k, b) ∈ acc_pending (c_accumulator c) → br ∈ batch_receipts b →
     local_escrow_id br ∉ settled_ids (w_sent w)) ∧
  (∀ e, e ∈ settled_ids (w_sent w) → has_committed_escrow_id c e = true) ∧
  client_init c0 (Json (serialize_state c)) = Ok (restored c0 c).
Proof.
  intros Hst Hr. destruct (reachable_inv c0 _ Hst Hr) as [_ Hm]. simpl in Hm.
  pose proof (ci_wf _ _ _ Hm) as Hw. split_and!.
  - intros k b br Hin Hbr.
    pose proof (cw_known _ Hw _ _ Hin) as Hk. rewrite Forall_forall in Hk.
    destruct (known_id br (Hk br Hbr)) as (Hne & _).
    apply (ci_unsent _ _ _ Hm k b Hin (λ x, x)). apply elem_escrow_ids. eauto.
  - intros e He. unfold has_committed_escrow_id, ledger_has. rewrite bool_decide_true by by apply Hm.
    unfold settled_ids in He. apply list_elem_of_bind in He as (rs & He & _).
    apply elem_escrow_ids in He as [-> _]. done.
  - apply client_init_restored; [apply Hst | by apply client_wf_durable].
Qed.

(** ** One commit, branch by branch *)

(** A contract whose next commit answers [resp], with a working disk. *)
Definition commit_answer (resp : result (bytes * Z)) (e : settle) (w : World)
  : option (response e * World) :=
  match e return option (settle_response e * World) with
  | Now => Some (1000, w)
  | Save s => Some (Ok tt, w_save s w)
  | SavePublished _ => Some (Ok tt, w)
  | CommitBatch call rs =>
      Some (resp, match resp with
                  | Ok _ | Err (OnChainPendingError _) | Err BroadcastFailedError => w_send (call, rs) w
                  | Err _ => w end)
  | _ => None
  end.

(** What the client must be after committing [r], for each answer. *)
Definition committed_client (r : ReadyBatch) (ls : list bytes) (root : bytes)
    (resp : result (bytes * Z)) (c : Client) : Client :=
  let ik := intent_key (ready_key r) root in
  let rs := batch_receipts (ready_batch r) in
  let c1 := armed r ls root c in
  match resp with
  | Ok (b, t) =>
      with_ledger (record_all rs) (with_committing (dict_del ik)
        (with_tracked (dict_set b (committed_of r ls root b t)) (pop_key (ready_key r) c1)))
  | Err (OnChainPendingError tx) =>
      with_pending (dict_set tx (pending_of r tx ls root))
        (pop_key (ready_key r) (with_committing (dict_del ik) c1))
  | Err BroadcastFailedError => pop_key (ready_key r) c1
  | Err _ => with_ledger (discard_all rs) (with_committing (dict_del ik) c1)
  end.

(** The outcome of one commit, on every branch.  For a ready batch whose leaves
    build and whose provider the signing key controls, the iteration returns (it
    raises nothing), its last write is its final state, and that state is: on
    success the batch popped, tracked and its ids armed; on a pending transaction
    the batch popped and quarantined under the transaction hash; on a failed
    broadcast the batch popped and its write-ahead intent kept; on a definite
    revert, or any exception before the call, the batch still queued, its ids
    unarmed and its intent gone, so that it is committed again later. *)
Theorem commit_iteration_outcome `{Externals} r ls root att resp c w :
  c_has_store c = true → c_published c = None →
  build_leaves_root (batch_receipts (ready_batch r)) = Ok (ls, root) →
  batch_attestation_commitment
    ((λ br, tee_attestation (receipt br)) <$> batch_receipts (ready_batch r)) = Ok att →
  let c1 := armed r ls root c in
  let sc := signer_check (c_address c) (ready_key r).1.1.2 in
  let resp' := match sc with Ok _ => resp | Err e => Err e end in
  let c' := committed_client r ls root resp' c in
  ∃ w', run (commit_answer resp) (commit_iteration r c) w =
          Some ((Ok (match resp' with Ok (b, t) => [committed_of r ls root b t] | Err _ => [] end), c'), w') ∧
    w_disk w' = Json (serialize_state c') ∧
    w_sent w' = w_sent w ++
      (match sc, resp with
       | Ok _, (Ok _ | Err (OnChainPendingError _) | Err BroadcastFailedError) =>
           [(commit_call r ls root att, batch_receipts (ready_batch r))]
       | _, _ => [] end).
Proof.
  intros Hst Hpub Hbuild Hatt c1 sc resp' c'.
  assert (∀ e, sc = Err e → e = ProviderAddressMismatchError) as Hsc by apply signer_check_error.
  assert (∀ b t, cb_batch_id (committed_of r ls root b t) = b) as Hcb.
  { intros. unfold committed_of. by destruct (ready_key r) as [[[? ?] ?] ?]. }
  destruct c as [acc prov addr scan store pub tr fin pend comm led].
  cbn [c_has_store c_published c_address] in *. subst store pub c1 c' resp' sc.
  unfold commit_iteration, commit_one, try, promote, quarantine_pending, persist, perform, lift,
    modify, get, mbind, M_bind. cbn beta. rewrite Hbuild.
  cbn -[serialize_state build_intent intent_key signer_check record_all discard_all].
  destruct (signer_check addr (ready_key r).1.1.2) as [[]|e].
  - rewrite Hatt. destruct resp as [[b t]|e]; [|destruct e].
    all: cbn -[serialize_state build_intent intent_key record_all discard_all].
    all: rewrite ?Hcb; eexists; (split; [reflexivity | by rewrite ?app_nil_r]).
  - rewrite (Hsc e eq_refl). cbn -[serialize_state build_intent intent_key record_all discard_all].
    eexists. (split; [reflexivity | by rewrite ?app_nil_r]).
Qed.

(** ** Durable state *)

Lemma unowned_idemp keys items : unowned keys (unowned keys items) = unowned keys items.
Proof.
  unfold unowned. apply filter_all, Forall_forall. intros kb Hin.
  by apply list_elem_of_filter in Hin as [? _].
Qed.

Lemma restored_durable c0 c : durable_wf c → durable_wf (restored c0 c).
Proof.
  intros [Ha Hr Ht Hp Hc Hl].
  assert (∀ kb, kb ∈ unowned (intent_keys c) (acc_pending (c_accumulator c)) →
                kb ∈ acc_pending (c_accumulator c)) as Hsub
    by (intros kb; unfold unowned; rewrite list_elem_of_filter; tauto).
  split; simpl; try done.
  - destruct Ha as [Hk Hb]. split; simpl.
    + eapply sublist_NoDup; [exact Hk|]. apply fmap_sublist, sublist_filter.
    + apply Forall_forall. intros kb Hin%Hsub. rewrite Forall_forall in Hb. by apply Hb.
  - intros k b Hin%Hsub. by apply (Hr k).
Qed.

(** The state file is exact.  A client that restarts from the file another
    client wrote has the same tracked batches, finalized ids, quarantined
    transactions, intents and ledger (in the same order), and exactly the queued
    batches that no write-ahead intent owns, with their contents and start times;
    restarting again changes nothing. *)
Theorem durable_state_exact c0 c :
  c_has_store c0 = true → durable_wf c →
  client_init c0 (Json (serialize_state c)) = Ok (restored c0 c) ∧
  client_init c0 (Json (serialize_state (restored c0 c))) = Ok (restored c0 c) ∧
  (∀ k b, (k, b) ∈ acc_pending (c_accumulator (restored c0 c)) ↔
          (k, b) ∈ acc_pending (c_accumulator c) ∧ (¬ k ∈ intent_keys c)).
Proof.
  intros Hst Hc. split; [|split].
  - by apply client_init_restored.
  - rewrite client_init_restored; [|done | by apply restored_durable].
    unfold restored at 1. simpl. change (intent_keys (restored c0 c)) with (intent_keys c).
    rewrite unowned_idemp. done.
  - intros k b. simpl. unfold unowned. rewrite list_elem_of_filter. simpl. tauto.
Qed.

(** The exceptions of [m] are all reported as a corrupt state. *)
Definition schema_only {A} (m : result A) : Prop := ∀ e, m = Err e → schema_error e = true.

Lemma schema_bind {A B} (m : result A) (f : A → result B) :
  schema_only m → (∀ a, schema_only (f a)) → schema_only (m ≫= f).
Proof. intros Hm Hf e. destruct m; simpl; [apply Hf | intros [= <-]; by apply Hm]. Qed.

Lemma schema_ok {A} (a : A) : schema_only (Ok a).
Proof. by intros e. Qed.

Lemma schema_option {A} e (o : option A) : schema_error e = true → schema_only (of_option e o).
Proof. destruct o; simpl; intros ? e'; congruence. Qed.

Lemma schema_mapM {A B} (f : A → result B) l : (∀ x, schema_only (f x)) → schema_only (result_mapM f l).
Proof.
  intros Hf. induction l as [|x l IH]; simpl; [apply schema_ok|].
  apply schema_bind; [done|]. intros y. apply schema_bind; [done|]. intros; apply schema_ok.
Qed.

Lemma schema_foldM {A S} (f : S → A → result S) s l :
  (∀ s x, schema_only (f s x)) → schema_only (result_foldM f s l).
Proof.
  intros Hf. revert s. induction l as [|x l IH]; intros s; simpl; [apply schema_ok|].
  by apply schema_bind.
Qed.

Create HintDb schema.
Create HintDb schema_dec.
#[local] Hint Resolve schema_bind schema_ok schema_option schema_mapM schema_foldM : schema.
#[local] Hint Extern 1 (schema_error _ = true) => reflexivity : schema.
Ltac schema := repeat (first [ solve [auto 1 with schema_dec] | apply schema_bind | apply schema_mapM | apply schema_foldM
  | apply schema_ok | apply schema_option; reflexivity | intros ]); eauto with schema.
Ltac schema_cases := intros; repeat case_match; schema; try (intros ? [= <-]; reflexivity).

Lemma schema_jget key j : schema_only (jget key j).
Proof. destruct j; simpl; schema_cases. Qed.
Lemma schema_jstr j : schema_only (jstr j).
Proof. destruct j; simpl; schema_cases. Qed.
Lemma schema_jint j : schema_only (jint j).
Proof. destruct j; simpl; schema_cases. Qed.
Lemma schema_jarr j : schema_only (jarr j).
Proof. destruct j; simpl; schema_cases. Qed.
Lemma schema_int j : schema_only (int_of_json j).
Proof. destruct j; simpl; schema_cases. Qed.
#[local] Hint Resolve schema_jget schema_jstr schema_jint schema_jarr schema_int : schema_dec.
Lemma schema_hex j : schema_only (fromhex_json j).
Proof. unfold fromhex_json. schema. Qed.
#[local] Hint Resolve schema_hex : schema_dec.
Lemma schema_key j : schema_only (key_of_json j).
Proof. unfold key_of_json. schema_cases. Qed.
Lemma schema_trigger j : schema_only (trigger_of_json j).
Proof. unfold trigger_of_json. schema. schema_cases. Qed.
Lemma schema_hashes j : schema_only (hashes_of_json j).
Proof. unfold hashes_of_json. schema. Qed.
#[local] Hint Resolve schema_key schema_trigger schema_hashes : schema_dec.
Lemma schema_committed j : schema_only (committed_from_dict j).
Proof. unfold committed_from_dict. schema. Qed.
Lemma schema_pending j : schema_only (pending_from_dict j).
Proof. unfold pending_from_dict. schema. Qed.
Lemma schema_intent j : schema_only (intent_from_dict j).
Proof. unfold intent_from_dict. schema. Qed.
Lemma schema_jget_opt key j : schema_only (jget_opt key j).
Proof. destruct j; simpl; schema_cases. Qed.
Lemma schema_raise b e : schema_error e = true → schema_only (raise_if b e).
Proof. destruct b; simpl; [|intros; apply schema_ok]. by intros He e' [= <-]. Qed.
#[local] Hint Resolve schema_jget_opt : schema_dec.
#[local] Hint Resolve schema_raise : schema.
Lemma schema_receipt j : schema_only (batched_receipt_from_dict j).
Proof.
  unfold batched_receipt_from_dict, ShardExecutionReceipt_from_dict, BatchedReceipt_post_init. schema.
Qed.
#[local] Hint Resolve schema_committed schema_pending schema_intent schema_receipt : schema_dec.

Lemma schema_items key o : schema_only (items_or_empty key o).
Proof. unfold items_or_empty. schema_cases. Qed.
Lemma schema_list key o : schema_only (list_or_empty key o).
Proof. unfold list_or_empty. schema_cases. Qed.
Lemma schema_decode {K V} `{!EqDecision K} (dk : string → result K) (dv : json → result V) items :
  (∀ s, schema_only (dk s)) → (∀ j, schema_only (dv j)) → schema_only (decode_items dk dv items).
Proof. intros Hk Hv. unfold decode_items. schema. Qed.
Lemma schema_append b br t : schema_only (batch_append b br t).
Proof. unfold batch_append. schema_cases. Qed.
#[local] Hint Resolve schema_items schema_list schema_append : schema_dec.
Lemma schema_entry keys a j : schema_only (restore_entry keys a j).
Proof. unfold restore_entry. schema. case_match; schema. unfold restore_pending. schema_cases. Qed.
#[local] Hint Resolve schema_entry : schema_dec.

(** Booting is loud.  Starting a client either succeeds or raises
    [SettlementStateCorruptError], whatever the file holds; with a store it starts
    empty only when there is no file: an unparseable file, a JSON value that is not
    an object and a state of another version always raise. *)
Theorem boot_is_loud c0 f :
  (∀ e, client_init c0 f = Err e → e = SettlementStateCorruptError) ∧
  (∀ c, c_has_store c0 = true → client_init c0 f = Ok c →
     f = Absent ∧ c = fresh_client c0 ∨
     ∃ o, f = Json (JObj o) ∧ version_ok (get_or_null "version" o) = true ∧
          apply_state (fresh_client c0) o = Ok c).
Proof.
  assert (∀ o e, apply_state (fresh_client c0) o = Err e → e = SettlementStateCorruptError) as Happly.
  { intros o e. unfold apply_state. destruct (version_ok _); [|by intros [= <-]].
    cbn [negb raise_if mbind result_bind]. intros Hr.
    match type of Hr with rethrow _ _ ?m = _ => assert (schema_only m) as Hs end.
    { repeat first [ apply schema_decode; intros | schema ]. }
    unfold rethrow in Hr. case_match; [done|]. rewrite (Hs _ eq_refl) in Hr. by injection Hr as <-. }
  unfold client_init. split.
  - intros e. case_match; [|done]. destruct f as [| |[]]; simpl; try done; try (by intros [= <-]).
    apply Happly.
  - intros c ->. destruct f as [| |j]; simpl.
    + intros [= <-]. by left.
    + done.
    + destruct j as [| | | | |o]; simpl; try done. intros Ha. right. exists o. split_and!; [done | | done].
      unfold apply_state in Ha. by destruct (version_ok _).
Qed.

(** ** What reaches the chain *)

Lemma disk_inv_sent `{Deployment} w : disk_inv w → Forall sent_ok (w_sent w).
Proof.
  unfold disk_inv. destruct (w_disk w) as [| |j]; [by intros -> | done |].
  intros (c & _ & Hs). apply Hs.
Qed.

(** An address-shaped signer accepts a provider that is blank or its own address,
    up to case, surrounding space and a missing 0x. *)
Lemma signer_check_controls s p :
  starts_0x s = true → String.length s = 42%nat → signer_check (Some s) p = Ok tt →
  strip p = "" ∨ lower s = lower (if starts_0x (strip p) then strip p else "0x" +:+ strip p).
Proof.
  unfold signer_check. intros -> ->. simpl.
  destruct (strip p) as [|a p'] eqn:E; [by left|]. intros Hsc. right. revert Hsc. rewrite <- E.
  replace (str_nonempty (strip p)) with true by by rewrite E. simpl.
  destruct (starts_0x (strip p)) eqn:Ex; simpl; intros Hc%raise_if_Ok;
    rewrite ?E in *; simpl in *; apply bool_decide_eq_false, dec_stable in Hc; done.
Qed.

(** Commits are faithful and name the signer.  Every commit that reached the
    chain or may have states the Merkle root, the number and the total value of
    its receipts; each receipt has the call's requester, provider, consensus group
    and slash rate; and a node with a signing key only ever commits for a provider
    address that key controls, also for batches restored from disk. *)
Theorem sent_commits_faithful `{Deployment} c0 n w call rs :
  deployed c0 → reachable c0 (n, w) → (call, rs) ∈ w_sent w →
  (∃ ls, build_leaves_root rs = Ok (ls, cc_merkle_root call)) ∧
  cc_receipt_count call = zlen rs ∧ cc_total_value_ftns call = Zsum (value_ftns <$> rs) ∧
  (∀ br, br ∈ rs → requester_address br = cc_requester_address call ∧
     provider_address br = cc_provider_address call ∧
     consensus_group_id br = cc_consensus_group_id call ∧
     tier_slash_rate_bps br = cc_tier_slash_rate_bps call) ∧
  (∀ s, signer = Some s → starts_0x s = true → String.length s = 42%nat →
     let p := strip (cc_provider_address call) in
     p = "" ∨ lower s = lower (if starts_0x p then p else "0x" +:+ p)).
Proof.
  intros Hdep Hr Hin. pose proof (node_inv_disk _ (reachable_inv c0 _ Hdep Hr)) as Hd.
  apply disk_inv_sent in Hd. rewrite Forall_forall in Hd.
  destruct (Hd _ Hin) as (_ & _ & Hroot & Hkeys & Hcount & Htotal & Hsc). simpl in *.
  split_and!; [done | done | done | |].
  - intros br Hbr. rewrite Forall_forall in Hkeys. specialize (Hkeys br Hbr).
    unfold receipt_key in Hkeys. by simplify_eq.
  - intros s Hs Hx Hl. rewrite Hs in Hsc. by apply signer_check_controls.
Qed.

(** ** The dedup ledger *)

Lemma evict_le {A} max (l : list A) : 0 <= max → zlen (evict_oldest max l) <= max.
Proof. intros Hm. destruct (evict_oldest_spec max l Hm) as [-> _]. lia. Qed.

Lemma evict_suffix {A} max (pre : list A) x post :
  zlen (x :: post) <= max → ∃ pre', evict_oldest max (pre ++ x :: post) = pre' ++ x :: post.
Proof.
  intros Hl. induction pre as [|y pre IH].
  - exists []. cbn [app evict_oldest]. by replace (max <? zlen (x :: post)) with false by lia.
  - cbn [app evict_oldest]. case_match; [done|]. by exists (y :: pre).
Qed.

(** The ids recorded after [e], itself excluded. *)
Definition later_ids (e : string) (es : list string) : gset string :=
  list_to_set (filter (λ x, x ≠ e ∧ str_nonempty x = true) es).

Lemma ledger_tail e es l pre post (seen : gset string) :
  l = pre ++ e :: post → NoDup l → e ∉ post → (∀ x, x ∈ post → x ∈ seen) →
  str_nonempty e = true →
  Z.of_nat (size (seen ∪ later_ids e es)) < MAX_COMMITTED_ESCROW_IDS →
  e ∈ fold_left (λ l x, ledger_record x l) es l.
Proof.
  intros -> Hnd He Hpost Hne. revert pre post seen Hnd He Hpost.
  induction es as [|x es IH]; intros pre post seen Hnd He Hpost Hsz; simpl.
  { apply elem_of_app. right. by left. }
  unfold ledger_record at 2. destruct (str_nonempty x) eqn:Hx.
  2: { apply (IH pre post seen); [done..|]. unfold later_ids in Hsz.
       rewrite filter_cons_False in Hsz by (intros []; congruence). done. }
  assert (∀ pre0 post0 seen0, NoDup (pre0 ++ e :: post0) → (∀ y, y ∈ post0 → y ∈ seen0) →
            seen0 ∪ later_ids e es ⊆ seen ∪ later_ids e (x :: es) →
            e ∈ fold_left (λ l x, ledger_record x l) es
                  (evict_oldest MAX_COMMITTED_ESCROW_IDS (pre0 ++ e :: post0))) as Hnext.
  { intros pre0 post0 seen0 Hnd0 Hpost0 Hsub.
    apply NoDup_app in Hnd0 as Hnd'. destruct Hnd' as (_ & _ & [Hep Hndp]%NoDup_cons).
    assert (Z.of_nat (size (seen0 ∪ later_ids e es)) < MAX_COMMITTED_ESCROW_IDS) as Hsz0
      by (apply subseteq_size in Hsub; lia).
    assert (zlen (e :: post0) <= MAX_COMMITTED_ESCROW_IDS) as Hlen.
    { simpl. enough (zlen post0 <= Z.of_nat (size (seen0 ∪ later_ids e es))) by lia.
      rewrite <- (size_list_to_set (C := gset string) post0) by done.
      apply Nat2Z.inj_le, subseteq_size. set_solver. }
    destruct (evict_suffix _ pre0 e post0 Hlen) as [pre' Hev]. rewrite Hev.
    apply (IH pre' post0 seen0); [| done | done | done].
    destruct (evict_oldest_spec MAX_COMMITTED_ESCROW_IDS (pre0 ++ e :: post0)) as [_ (old & Hold & _)];
      [done|]. rewrite Hold in Hnd0. rewrite Hev in Hnd0. by apply NoDup_app in Hnd0 as (_ & _ & ?). }
  assert (NoDup (filter (λ y, y ≠ x) (pre ++ e :: post) ++ [x])) as Hnd1.
  { apply NoDup_app. split_and!; [by apply NoDup_filter | | apply NoDup_singleton].
    intros y [? _]%list_elem_of_filter. by rewrite list_elem_of_singleton. }
  rewrite filter_app in Hnd1 |- *. destruct (decide (x = e)) as [->|Hxe].
  - rewrite filter_cons_False in Hnd1 |- * by tauto.
    apply (Hnext _ [] ∅); [done | set_solver |].
    unfold later_ids. rewrite filter_cons_False by tauto. set_solver.
  - rewrite filter_cons_True in Hnd1 |- * by done. rewrite <- app_assoc in Hnd1 |- *. simpl in Hnd1 |- *.
    apply (Hnext _ _ ({[x]} ∪ seen)); [done | |].
    + intros y [Hy|Hy]%elem_of_app; [|set_solver]. apply list_elem_of_filter in Hy. set_solver.
    + unfold later_ids. rewrite filter_cons_True by done. set_solver.
Qed.

(** The dedup ledger is a bounded FIFO that remembers.  After recording any
    sequence of escrow ids it holds no id twice, at most 200000 of them, and still
    holds an id recorded at any point as long as fewer than 200000 distinct other
    ids were recorded after it; [accumulate] then drops a re-delivery of it. *)
Theorem ledger_retention es e es' :
  str_nonempty e = true →
  Z.of_nat (size (later_ids e es')) < MAX_COMMITTED_ESCROW_IDS →
  let l := fold_left (λ l x, ledger_record x l) (es ++ e :: es') [] in
  NoDup l ∧ zlen l <= MAX_COMMITTED_ESCROW_IDS ∧ ledger_has e l = true.
Proof.
  intros He Hsz l.
  assert (∀ es l0, NoDup l0 ∧ zlen l0 <= MAX_COMMITTED_ESCROW_IDS →
            let l := fold_left (λ l x, ledger_record x l) es l0 in
            NoDup l ∧ zlen l <= MAX_COMMITTED_ESCROW_IDS) as Hinv.
  { clear. induction es as [|x es IH]; intros l0 [Hnd Hl]; simpl; [done|]. apply IH.
    unfold ledger_record. destruct (str_nonempty x); [|done]. split; [|by apply evict_le].
    assert (NoDup (filter (λ y, y ≠ x) l0 ++ [x])) as Hnd1.
    { apply NoDup_app. split_and!; [by apply NoDup_filter | | apply NoDup_singleton].
      intros y [? _]%list_elem_of_filter. by rewrite list_elem_of_singleton. }
    destruct (evict_oldest_spec MAX_COMMITTED_ESCROW_IDS (filter (λ y, y ≠ x) l0 ++ [x]))
      as [_ (old & Hold & _)]; [done|].
    rewrite Hold in Hnd1. by apply NoDup_app in Hnd1 as (_ & _ & ?). }
  destruct (Hinv (es ++ e :: es') []) as [Hnd Hl]; [split; [constructor | done]|].
  split_and!; [done | done |]. unfold ledger_has. rewrite He. simpl. apply bool_decide_eq_true.
  unfold l. rewrite fold_left_app. simpl.
  destruct (Hinv es []) as [Hnd1 Hl1]; [split; [constructor | done]|].
  set (l1 := fold_left _ es []) in *. unfold ledger_record at 2. rewrite He.
  assert (NoDup (filter (λ y, y ≠ e) l1 ++ [e])) as Hnd2.
  { apply NoDup_app. split_and!; [by apply NoDup_filter | | apply NoDup_singleton].
    intros y [? _]%list_elem_of_filter. by rewrite list_elem_of_singleton. }
  destruct (evict_suffix MAX_COMMITTED_ESCROW_IDS (filter (λ y, y ≠ e) l1) e []) as [pre Hev]; [done|].
  rewrite Hev. apply (ledger_tail e es' _ pre [] ∅); [done | | set_solver | set_solver | done |].
  - destruct (evict_oldest_spec MAX_COMMITTED_ESCROW_IDS (filter (λ y, y ≠ e) l1 ++ [e]))
      as [_ (old & Hold & _)]; [done|].
    rewrite Hold in Hnd2. rewrite Hev in Hnd2. by apply NoDup_app in Hnd2 as (_ & _ & ?).
  - by rewrite (left_id_L ∅ (∪)).
Qed.
