(* ===== verification/ClientExample.v ===== *)
(** * BatchSettlementClient: a concrete deployment

    A deployment with two receipts, executed: the witnesses of the client's
    theorems, and a run in which adopting a landed batch drops a queued receipt. *)
From Stdlib Require Import ZArith Lia.
From S2P Require Import PyStd.
From S2P Require Import Externals.
From S2P Require Import Receipt.
From S2P Require Import Attestation.
From S2P Require Import Merkle.
From S2P Require Import Accumulator.
From S2P Require Import Published.
From S2P Require Import Effects.
From S2P Require Import Client.
From S2P Require Import ClientDurable.
From S2P Require Import ClientSafety.
From S2P Require Import ClientTheorems.
From S2P Require Import Prelude.
From stdpp Require Import relations.

#[local] Open Scope string_scope.
#[local] Open Scope list_scope.
#[local] Open Scope Z_scope.

Import Toy.

Definition ra : BatchedReceipt := sample_batched 0 10 "e0".
Definition rb : BatchedReceipt := sample_batched 1 20 "e1".

Definition two_known (br : BatchedReceipt) : Prop := br = ra ∨ br = rb.

(** Every list of the two receipts without a repeated escrow id. *)
Lemma two_lists rs :
  Forall two_known rs → NoDup (escrow_ids rs) → rs ∈ [[]; [ra]; [rb]; [ra; rb]; [rb; ra]].
Proof.
  intros Hk Hnd.
  assert (length rs <= 2)%nat as Hlen.
  { assert (escrow_ids rs ⊆+ ["e0"; "e1"]) as Hsub.
    { apply NoDup_submseteq; [done|]. intros e (_ & br & Hbr & <-)%elem_escrow_ids.
      rewrite Forall_forall in Hk. destruct (Hk br Hbr) as [-> | ->]; in_list. }
    apply submseteq_length in Hsub. simpl in Hsub. etrans; [|exact Hsub].
    clear -Hk. induction Hk as [|br rs Hbr Hk IH]; [done|].
    change (br :: rs) with ([br] ++ rs). rewrite escrow_ids_app, !length_app.
    destruct Hbr as [-> | ->]; simpl; lia. }
  destruct rs as [|x [|y [|z rs]]]; [in_list | | | simpl in Hlen; lia].
  - apply Forall_cons in Hk as [[-> | ->] _]; in_list.
  - apply Forall_cons in Hk as [Hx Hk]. apply Forall_cons in Hk as [Hy _].
    destruct Hx as [-> | ->], Hy as [-> | ->]; try in_list.
    all: exfalso; apply NoDup_cons in Hnd as [Hn _]; apply Hn; left.
Qed.

Definition root_of_result (r : result (list bytes * bytes)) : option bytes :=
  match r with Ok (_, root) => Some root | Err _ => None end.

Lemma two_distinct rs1 rs2 ls1 ls2 root :
  Forall two_known rs1 → Forall two_known rs2 → NoDup (escrow_ids rs1) → NoDup (escrow_ids rs2) →
  @build_leaves_root Toy.toy rs1 = Ok (ls1, root) → @build_leaves_root Toy.toy rs2 = Ok (ls2, root) →
  ∃ e, e ∈ escrow_ids rs1 ∧ e ∈ escrow_ids rs2.
Proof.
  intros H1 H2 N1 N2 B1 B2. pose proof (two_lists rs1 H1 N1) as L1. pose proof (two_lists rs2 H2 N2) as L2.
  clear H1 H2 N1 N2. rewrite !elem_of_cons in L1, L2.
  destruct L1 as [-> |[-> |[-> |[-> |[-> |L1]]]]]; [discriminate B1| | | | |destruct (not_elem_of_nil _ L1)].
  all: destruct L2 as [-> |[-> |[-> |[-> |[-> |L2]]]]];
    [discriminate B2| | | | |destruct (not_elem_of_nil _ L2)].
  all: try (exists "e0"; split; apply (bool_decide_eq_true_1 _); vm_compute; reflexivity).
  all: try (exists "e1"; split; apply (bool_decide_eq_true_1 _); vm_compute; reflexivity).
  all: exfalso; apply (f_equal root_of_result) in B1, B2; cbn [root_of_result] in B1, B2; rewrite <- B2 in B1; vm_compute in B1;
    discriminate B1.
Qed.

(** A transaction hash or a batch id is the hex, or the bytes, of the root. *)
#[local] Instance two_receipts : @Deployment Toy.toy Toy.toy_keccak.
Proof.
  refine (@Build_Deployment Toy.toy Toy.toy_keccak two_known {[ "e0"; "e1" ]}
            (λ _, receipt_key ra) id (λ tx, default [] (fromhex tx)) None _ _ _ _).
  - intros br [-> | ->]; (split_and!; [simpl; lia | simpl; lia | reflexivity | discriminate]).
  - intros br [-> | ->]; (split_and!; [reflexivity | set_solver | reflexivity]).
  - vm_compute. discriminate.
  - apply two_distinct.
Defined.

(** The constructor's arguments: a client bound to the provider, with a store. *)
Definition args0 : Client :=
  {| c_accumulator := {| acc_config := sample_config; acc_pending := [] |};
     c_provider := "0xprov"; c_address := None; c_can_scan := true; c_has_store := true;
     c_published := None; c_tracked := []; c_finalized_ids := ∅; c_pending_commits := [];
     c_committing := []; c_committed_escrow_ids := [] |}.

(** A world whose next commit answers [resp] and whose scans find every batch. *)
Definition toy_answer (resp : bytes → result (bytes * Z)) (e : settle) (w : World)
  : option (response e * World) :=
  match e return option (settle_response e * World) with
  | Now => Some (1000, w)
  | Save s => Some (Ok tt, w_save s w)
  | SavePublished _ => Some (Ok tt, w)
  | CommitBatch call rs =>
      let r := resp (cc_merkle_root call) in
      Some (r, match r with
               | Ok _ | Err (OnChainPendingError _) | Err BroadcastFailedError => w_send (call, rs) w
               | Err _ => w end)
  | IsFinalizable _ => Some (Ok true, w)
  | FinalizeBatch _ => Some (Ok tt, w)
  | GetBatchStatus _ => Some (Ok 2, w)
  | GetCommittedBatchForTx tx => Some (Ok (Some (default [] (fromhex tx), 1001)), w)
  | FindCommittedBatchByRoot _ root => Some (Ok (Some (root, 1001)), w)
  end.

Definition lands (root : bytes) : result (bytes * Z) := Ok (root, 1001).
Definition pends (root : bytes) : result (bytes * Z) := Err (OnChainPendingError (hex root)).
Definition fails_broadcast (root : bytes) : result (bytes * Z) := Err BroadcastFailedError.
Definition reverts (root : bytes) : result (bytes * Z) := Err OnChainRevertedError.

Lemma toy_answer_exec resp (e : settle) w r w' :
  resp ∈ [lands; pends; fails_broadcast; reverts] →
  toy_answer resp e w = Some (r, w') → exec e w r w'.
Proof.
  intros Hresp. rewrite !elem_of_cons in Hresp. destruct e; simpl; intros [= <- <-]; try done.
  - by left.
  - destruct Hresp as [-> |[-> |[-> |[-> |Hn]]]]; simpl; [done | | done | done | by apply not_elem_of_nil in Hn].
    by rewrite fromhex_hex.
  - split; [done|]. by intros ? ? [= <- <-].
  - split; [done|]. by intros ? ? [= <- <-].
Qed.

Lemma run_rtc {A} (answer : ∀ e : settle, World → option (response e * World)) (p : prog settle A) w a w' :
  (∀ e w r w', answer e w = Some (r, w') → exec e w r w') →
  run answer p w = Some (a, w') → rtc (pstep (E := settle) exec) (p, w) (Ret a, w').
Proof.
  intros Hx. revert w. induction p as [b|e k IH]; simpl; intros w Hr; [by simplify_eq|].
  destruct (answer e w) as [[r w1]|] eqn:Ha; [|done]. simpl in Hr.
  eapply rtc_l; [constructor; by apply Hx, Ha | by apply IH].
Qed.

(** Run one method of an idle node. *)
Lemma reach_op c0 c w o resp r c' w' :
  reachable c0 (Up c, w) → op_known o → resp ∈ [lands; pends; fails_broadcast; reverts] →
  run (toy_answer resp) (op_body o c) w = Some ((r, c'), w') → reachable c0 (Up c', w').
Proof.
  intros Hr Ho Hresp Hrun.
  assert (∀ x y : prog settle (result unit * Client) * World, rtc (pstep (E := settle) exec) x y →
            rtc (node_step c0) (Busy x.1, x.2) (Busy y.1, y.2)) as Hlift.
  { induction 1 as [|[p1 w1] [p2 w2] y Hs _ IH]; [done|].
    eapply rtc_l; [by apply step_effect | exact IH]. }
  unfold reachable in *; etrans; [exact Hr|]. eapply rtc_l; [by apply (step_call c0 c o)|].
  etrans; [|apply rtc_once, step_return].
  apply (Hlift (op_body o c, w) (Ret (r, c'), w')).
  apply (run_rtc (toy_answer resp)); [|exact Hrun].
  intros e w0 r0 w0'. by apply toy_answer_exec.
Qed.

(** Crash and boot. *)
Lemma reach_restart c0 c w c' :
  reachable c0 (Up c, w) → client_init c0 (w_disk w) = Ok c' → reachable c0 (Up c', w).
Proof.
  intros Hr Hi. unfold reachable in *; etrans; [exact Hr|].
  eapply rtc_l; [apply step_crash|]. apply rtc_once. apply (step_boot c0 c' (c_published c0)).
  by replace (with_published (c_published c0) c0) with c0 by by destruct c0.
Qed.

Lemma reach_boot c0 c :
  client_init c0 Absent = Ok c → reachable c0 (Up c, world0).
Proof.
  intros Hi. apply rtc_once. apply (step_boot c0 c (c_published c0)).
  by replace (with_published (c_published c0) c0) with c0 by by destruct c0.
Qed.

(** ** A run: accumulate, commit, crash, re-deliver, commit the rest *)

Definition exec_op (resp : bytes → result (bytes * Z)) (o : op) (s : Client * World) : Client * World :=
  match run (toy_answer resp) (op_body o s.1) s.2 with
  | Some ((_, c'), w') => (c', w')
  | None => s
  end.

Definition restart (s : Client * World) : Client * World :=
  match client_init args0 (w_disk s.2) with Ok c => (c, s.2) | Err _ => s end.

Definition s0 : Client * World := (fresh_client args0, world0).
(** The first receipt is accumulated and its commit left pending. *)
Definition s1 : Client * World := exec_op pends (CommitReady true) (exec_op lands (Accumulate ra) s0).
(** After a crash it is delivered again, with the second; the rest is committed. *)
Definition s2 : Client * World :=
  exec_op lands (CommitReady true)
    (exec_op lands (Accumulate rb) (exec_op lands (Accumulate ra) (restart s1))).

Lemma reach_exec c0 s o resp :
  reachable c0 (Up s.1, s.2) → op_known o → resp ∈ [lands; pends; fails_broadcast; reverts] →
  reachable c0 (Up (exec_op resp o s).1, (exec_op resp o s).2).
Proof.
  intros Hr Ho Hresp. unfold exec_op.
  destruct (run _ _ _) as [[[r c'] w']|] eqn:E; [|exact Hr]. simpl. by eapply reach_op.
Qed.

Lemma reach_restart_fn s :
  reachable args0 (Up s.1, s.2) → reachable args0 (Up (restart s).1, (restart s).2).
Proof.
  intros Hr. unfold restart. destruct (client_init _ _) as [c|] eqn:E; [|exact Hr]. simpl.
  by eapply reach_restart.
Qed.

Lemma s0_reachable : reachable args0 (Up s0.1, s0.2).
Proof. apply reach_boot. reflexivity. Qed.

Lemma s1_reachable : reachable args0 (Up s1.1, s1.2).
Proof.
  apply reach_exec; [apply reach_exec; [apply s0_reachable | by left | in_list] | done | in_list].
Qed.

Lemma s2_reachable : reachable args0 (Up s2.1, s2.2).
Proof.
  apply reach_exec; [|done | in_list].
  apply reach_exec; [|by right | in_list].
  apply reach_exec; [|by left | in_list]. apply reach_restart_fn, s1_reachable.
Qed.

(** Two commits were sent, one receipt each: the re-delivery was refused. *)
Example s2_sent : (w_sent s2.2).*2 = [[ra]; [rb]].
Proof. vm_compute. reflexivity. Qed.

(** ** Witnesses *)


Definition first_root : bytes :=
  default [] (root_of_result (@build_leaves_root Toy.toy [ra])).

Lemma no_stranded_commit_witness :
  ∃ call c, (call, [ra]) ∈ w_sent s1.2 ∧ client_init args0 (w_disk s1.2) = Ok c ∧
            recorded c (cc_merkle_root call).
Proof.
  destruct (w_sent s1.2) as [|[call rs] l] eqn:E; [vm_compute in E; discriminate E|].
  assert (rs = [ra]) as -> by (apply (f_equal (λ l, snd <$> head l)) in E; vm_compute in E;
                               injection E as <-; reflexivity).
  assert ((call, [ra]) ∈ w_sent s1.2) as Hin by (rewrite E; left).
  destruct (no_stranded_commit args0 (Up s1.1) s1.2 call [ra]) as [(c & Hc & Hr) _];
    [split; reflexivity | exact s1_reachable | exact Hin |].
  exists call, c. split; [left|]. split; [exact Hc | exact Hr].
Defined.

Lemma queued_is_unsettled_witness :
  has_committed_escrow_id s2.1 "e0" = true.
Proof.
  destruct (queued_is_unsettled args0 s2.1 s2.2) as (_ & H & _);
    [split; reflexivity | exact s2_reachable |].
  apply H. apply (bool_decide_eq_true_1 _). vm_compute. reflexivity.
Defined.

Lemma sent_commits_faithful_witness :
  ∃ call, (call, [rb]) ∈ w_sent s2.2 ∧ cc_receipt_count call = 1 ∧ cc_total_value_ftns call = 20.
Proof.
  destruct (w_sent s2.2) as [|x [|[call rs] l]] eqn:E; [vm_compute in E; discriminate E..|].
  assert (rs = [rb]) as -> by (apply (f_equal (λ l, snd <$> l !! 1%nat)) in E; vm_compute in E;
                               injection E as <-; reflexivity).
  assert ((call, [rb]) ∈ w_sent s2.2) as Hin by (rewrite E; right; left).
  destruct (sent_commits_faithful args0 (Up s2.1) s2.2 call [rb]) as (_ & Hn & Hv & _);
    [split; reflexivity | exact s2_reachable | exact Hin |].
  exists call. split; [right; left|]. split; [exact Hn | exact Hv].
Defined.

Definition ready_a : ReadyBatch :=
  {| ready_key := receipt_key ra;
     ready_batch := default PendingBatch_empty
       (dict_get (receipt_key ra) (acc_pending (acc_add (c_accumulator args0) ra 1000).1));
     ready_trigger := TIME |}.

Lemma commit_iteration_outcome_witness :
  ∃ ls root w', @build_leaves_root Toy.toy [ra] = Ok (ls, root) ∧
    run (commit_answer (Err OnChainRevertedError)) (@commit_iteration Toy.toy ready_a args0) world0 =
      Some ((Ok [], committed_client ready_a ls root (Err OnChainRevertedError) args0), w').
Proof.
  destruct (@build_leaves_root Toy.toy [ra]) as [[ls root]|e] eqn:E; [|vm_compute in E; discriminate E].
  destruct (@commit_iteration_outcome Toy.toy ready_a ls root zero32 (Err OnChainRevertedError)
              args0 world0) as (w' & Hr & _).
  - reflexivity.
  - reflexivity.
  - exact E.
  - vm_compute. reflexivity.
  - exists ls, root, w'. split; [reflexivity | exact Hr].
Defined.

Lemma s2_durable : durable_wf s2.1.
Proof.
  destruct (reachable_inv args0 (Up s2.1, s2.2)) as [_ Hm]; [split; reflexivity | exact s2_reachable |].
  apply client_wf_durable, Hm.
Qed.

Lemma durable_state_exact_witness :
  client_init args0 (Json (serialize_state s2.1)) = Ok (restored args0 s2.1).
Proof. apply (durable_state_exact args0 s2.1); [reflexivity | exact s2_durable]. Defined.

Lemma ledger_retention_witness :
  ledger_has "a" (fold_left (λ l x, ledger_record x l) (["b"] ++ "a" :: ["c"; EmptyString; "b"])%list []) = true.
Proof.
  apply (ledger_retention ["b"] "a" ["c"; EmptyString; "b"]); [reflexivity | vm_compute; reflexivity].
Defined.

(** ** A finding: adoption drops an unrelated queued receipt

    After a failed broadcast the first receipt's batch is popped and its intent
    kept.  A second receipt with the same key is then accumulated.  When recovery
    adopts the first batch it pops that key again, and a restart at that point
    skips the key: either way the second receipt, accepted and persisted, is gone
    without having been settled. *)

Definition s_before : Client * World :=
  exec_op lands (Accumulate rb)
    (exec_op fails_broadcast (CommitReady true) (exec_op lands (Accumulate ra) s0)).

Lemma s_before_reachable : reachable args0 (Up s_before.1, s_before.2).
Proof.
  apply reach_exec; [|by right | in_list].
  apply reach_exec; [|done | in_list].
  apply reach_exec; [apply s0_reachable | by left | in_list].
Qed.

Definition client_mentions (c : Client) (w : World) (br : BatchedReceipt) : bool :=
  existsb (λ kb : AccumulatorKey * PendingBatch,
             bool_decide (local_escrow_id br ∈ local_escrow_id <$> batch_receipts kb.2))
          (acc_pending (c_accumulator c)) ||
  bool_decide (local_escrow_id br ∈ settled_ids (w_sent w)) ||
  has_committed_escrow_id c (local_escrow_id br).

(** The second receipt is queued in a reachable client; after [RecoverIntents],
    and after a restart, nothing holds it any more: it is neither queued, nor
    settled, nor in the ledger. *)
Theorem adoption_drops_queued_receipt :
  reachable args0 (Up s_before.1, s_before.2) ∧
  client_mentions s_before.1 s_before.2 rb = true ∧
  (let s := exec_op lands RecoverIntents s_before in client_mentions s.1 s.2 rb = false) ∧
  (let s := restart s_before in client_mentions s.1 s.2 rb = false).
Proof. split; [exact s_before_reachable|]. vm_compute. done. Qed.
