(* ===== verification/Emission.v ===== *)
(** * Emission epochs and operator rewards

    Models prsm/settlement/reward_epoch.py (the Merkle tree of reward
    entitlements and its proofs) and prsm/settlement/emission_epoch.py (who
    earned what: exactly-once attribution of finalized batches and the exact
    largest-remainder split of the pot). *)
From Stdlib Require Import ZArith Lia.
From S2P Require Import PyStd.
From S2P Require Import Externals.
From S2P Require Import Receipt.
From S2P Require Import Merkle.
From S2P Require Import Prelude.

#[local] Open Scope string_scope.
#[local] Open Scope list_scope.
#[local] Open Scope Z_scope.

Definition UINT256_MAX : Z := 2 ^ 256 - 1.

(** ** Reward trees *)

Record RewardEntry : Type := { account : string; amount_wei : Z }.

Record RewardEpoch : Type := {
  re_epoch_id : Z;
  re_merkle_root : bytes;
  re_total_amount_wei : Z;
  re_entries : list RewardEntry;
  re_leaf_hashes : list bytes;
  re_proofs : dict string (list bytes)
}.

(** [int(account, 16)] of a checksum address. *)
Definition account_num (a : string) : Z := from_bytes_be (default [] (address_bytes a)).

Section Reward.
Context `{Externals}.

Definition reward_leaf_values (epoch_id : Z) (acct : string) (amount : Z) : list abi_value :=
  [AbiUint 256 epoch_id; AbiAddress acct; AbiUint 256 amount].

Definition reward_leaf_hash (epoch_id : Z) (acct : string) (amount : Z) : result bytes :=
  _ ← raise_if ((epoch_id <? 0) || (UINT256_MAX <? epoch_id)) ValueError;
  _ ← raise_if ((amount <? 0) || (UINT256_MAX <? amount)) ValueError;
  a ← to_checksum_address acct;
  Ok (keccak (keccak (abi_encode (reward_leaf_values epoch_id a amount)))).

(** One iteration of the validation loop of [build_reward_epoch]: the accounts
    seen and the normalized entries. *)
Definition normalize_entry (st : list string * list RewardEntry) (e : RewardEntry)
  : result (list string * list RewardEntry) :=
  acct ← to_checksum_address (account e);
  _ ← raise_if (amount_wei e <=? 0) ValueError;
  _ ← raise_if (UINT256_MAX <? amount_wei e) ValueError;
  _ ← raise_if (bool_decide (acct ∈ st.1)) ValueError;
  Ok (acct :: st.1, st.2 ++ [{| account := acct; amount_wei := amount_wei e |}]).

Definition entry_leb (a b : RewardEntry) : bool := account_num (account a) <=? account_num (account b).

Definition build_reward_epoch (epoch_id : Z) (entries : list RewardEntry) : result RewardEpoch :=
  _ ← raise_if (bool_decide (entries = [])) ValueError;
  '(_, normalized) ← result_foldM normalize_entry ([], []) entries;
  let normalized := sort_by entry_leb normalized in
  leaves ← result_mapM (λ e, reward_leaf_hash epoch_id (account e) (amount_wei e)) normalized;
  root ← build_merkle_root leaves;
  proofs ← result_mapM (λ ie : Z * RewardEntry,
                          p ← build_merkle_proof leaves ie.1; Ok (account ie.2, p))
                       (enumerate normalized);
  Ok {| re_epoch_id := epoch_id; re_merkle_root := root;
        re_total_amount_wei := Zsum (amount_wei <$> normalized); re_entries := normalized;
        re_leaf_hashes := leaves; re_proofs := dict_of_list proofs |}.

(** [proof_hex], before the hex *)
Definition epoch_proof (ep : RewardEpoch) (acct : string) : result (list bytes) :=
  a ← to_checksum_address acct; of_option KeyError (dict_get a (re_proofs ep)).

Definition verify_reward_proof (epoch_id : Z) (acct : string) (amount : Z) (proof : list bytes)
    (root : bytes) : result bool :=
  leaf ← reward_leaf_hash epoch_id acct amount; Ok (verify_merkle_proof proof root leaf).

(** [d[k] = d.get(k, 0) + v] *)
Definition dict_add (k : string) (v : Z) (d : dict string Z) : dict string Z :=
  dict_set k (default 0 (dict_get k d) + v) d.

Definition acct_leb (a b : string * Z) : bool := account_num a.1 <=? account_num b.1.

(** [aggregate_entitlements]; a row is its account and its amount. *)
Definition aggregate_entitlements (rows : list (string * Z)) : result (list RewardEntry) :=
  totals ← result_foldM (λ d (row : string * Z),
                           a ← to_checksum_address row.1; Ok (dict_add a row.2 d)) [] rows;
  Ok ((λ kv : string * Z, {| account := kv.1; amount_wei := kv.2 |}) <$>
      filter (λ kv : string * Z, 0 < kv.2) (sort_by acct_leb totals)).

(** ** Splitting the pot *)

(** [remainders.sort(key=lambda t: (-t[0], t[1]))] *)
Definition remainder_leb (a b : Z * string) : bool :=
  (b.1 <? a.1) || (a.1 =? b.1) && string_leb a.2 b.2.

(** [base[acct] += 1] *)
Definition add_one (base : dict string Z) (acct : string) : result (dict string Z) :=
  v ← of_option KeyError (dict_get acct base); Ok (dict_set acct (v + 1) base).

(** One round of the [while True] loop: the shares it computes. *)
Definition apportion (live : dict string Z) (pot_wei : Z) : result (dict string Z) :=
  let total_weight := Zsum (dict_values live) in
  let base : dict string Z := (λ aw : string * Z, (aw.1, pot_wei * aw.2 / total_weight)) <$> live in
  let remainders :=
    sort_by remainder_leb ((λ aw : string * Z, (pot_wei * aw.2 mod total_weight, aw.1)) <$> live) in
  let leftover := pot_wei - Zsum (dict_values base) in
  result_foldM (λ b i, r ← of_option IndexError (remainders !! i); add_one b r.2) base
               (seq 0 (Z.to_nat leftover)).

(** The loop: each round either ends it or drops a recipient, so the number of
    recipients is enough fuel. *)
Fixpoint allocate_loop (fuel : nat) (live : dict string Z) (pot_wei : Z)
  : result (dict string Z) :=
  match fuel with
  | O => Ok []
  | S fuel' =>
      base ← apportion live pot_wei;
      let zeros := filter (λ av : string * Z, av.2 = 0) base in
      if bool_decide (zeros = []) then
        if Zsum (dict_values base) =? pot_wei then Ok base else Err AssertionError
      else
        let live' := fold_left (λ d (av : string * Z), dict_del av.1 d) zeros live in
        if bool_decide (live' = []) then Ok [] else allocate_loop fuel' live' pot_wei
  end.

Definition allocate_pro_rata (weights : dict string Z) (pot_wei : Z) : result (dict string Z) :=
  _ ← raise_if (pot_wei <? 0) ValueError;
  let live := filter (λ kv : string * Z, 0 < kv.2) weights in
  if bool_decide (live = []) || (pot_wei =? 0) then Ok []
  else allocate_loop (length live) live pot_wei.

(** ** Planning an epoch *)

Record FinalizedBatch : Type := {
  batch_id : string;
  provider : string;
  final_value_wei : Z;
  finalize_timestamp : Z
}.

Record EmissionEpochPlan : Type := {
  plan_epoch_id : Z;
  plan_pot_wei : Z;
  plan_entries : list RewardEntry;
  plan_consumed_batch_ids : list string;
  plan_skipped_already_consumed : list string;
  plan_contribution_wei : dict string Z
}.

Definition total_allocated_wei (p : EmissionEpochPlan) : Z := Zsum (amount_wei <$> plan_entries p).

Record ScanState : Type := {
  sc_contribution : dict string Z;
  sc_consumed : list string;
  sc_skipped : list string;
  sc_seen : list string
}.

Definition in_window (b : FinalizedBatch) (window_start window_end : option Z) : bool :=
  match window_start with Some s => negb (finalize_timestamp b <? s) | None => true end &&
  match window_end with Some e => negb (e <=? finalize_timestamp b) | None => true end.

(** One iteration of the scan of [build_emission_epoch]. *)
Definition scan_batch (consumed : list string) (window_start window_end : option Z)
    (st : ScanState) (b : FinalizedBatch) : result ScanState :=
  let bid := lower (batch_id b) in
  let skip := {| sc_contribution := sc_contribution st; sc_consumed := sc_consumed st;
                 sc_skipped := sc_skipped st ++ [batch_id b]; sc_seen := sc_seen st |} in
  if negb (in_window b window_start window_end) then Ok st
  else if bool_decide (bid ∈ consumed) then Ok skip
  else if bool_decide (bid ∈ sc_seen st) then Ok skip
  else
    contribution ←
      (if final_value_wei b <=? 0 then Ok (sc_contribution st)
       else a ← to_checksum_address (provider b);
            Ok (dict_add a (final_value_wei b) (sc_contribution st)));
    Ok {| sc_contribution := contribution; sc_consumed := sc_consumed st ++ [batch_id b];
          sc_skipped := sc_skipped st; sc_seen := bid :: sc_seen st |}.

Definition scan_start : ScanState :=
  {| sc_contribution := []; sc_consumed := []; sc_skipped := []; sc_seen := [] |}.

Definition build_emission_epoch (epoch_id : Z) (batches : list FinalizedBatch) (pot_wei : Z)
    (consumed_batch_ids : list string) (window_start window_end : option Z)
  : result EmissionEpochPlan :=
  let consumed := lower <$> consumed_batch_ids in
  st ← result_foldM (scan_batch consumed window_start window_end) scan_start batches;
  _ ← raise_if (bool_decide (sc_contribution st = [])) ValueError;
  allocation ← allocate_pro_rata (sc_contribution st) pot_wei;
  _ ← raise_if (bool_decide (allocation = [])) ValueError;
  Ok {| plan_epoch_id := epoch_id; plan_pot_wei := pot_wei;
        plan_entries := (λ kv : string * Z, {| account := kv.1; amount_wei := kv.2 |}) <$>
                        sort_by acct_leb allocation;
        plan_consumed_batch_ids := sc_consumed st;
        plan_skipped_already_consumed := sc_skipped st;
        plan_contribution_wei := sc_contribution st |}.

Definition plan_to_reward_epoch (plan : EmissionEpochPlan) : result RewardEpoch :=
  build_reward_epoch (plan_epoch_id plan) (plan_entries plan).
End Reward.

(** ** Lemmas: one round of the split *)

Lemma remainder_leb_total a b : remainder_leb a b = true ∨ remainder_leb b a = true.
Proof.
  unfold remainder_leb. destruct (Z.ltb_spec b.1 a.1); [by left|].
  destruct (Z.ltb_spec a.1 b.1); [by right|]. assert (a.1 = b.1) as -> by lia.
  rewrite Z.eqb_refl. simpl. apply string_leb_total.
Qed.

Lemma remainder_leb_spec a b :
  remainder_leb a b = true ↔ b.1 < a.1 ∨ a.1 = b.1 ∧ string_leb a.2 b.2 = true.
Proof.
  unfold remainder_leb. rewrite orb_true_iff, andb_true_iff, Z.ltb_lt, Z.eqb_eq. done.
Qed.

Lemma remainder_leb_trans a b c :
  remainder_leb a b = true → remainder_leb b c = true → remainder_leb a c = true.
Proof.
  rewrite !remainder_leb_spec. intros [H1|[E1 H1]] [H2|[E2 H2]]; [left; lia..|].
  right. split; [lia|]. by eapply string_leb_trans.
Qed.

Section Round.
Context (live : dict string Z) (pot : Z).

Definition round_total : Z := Zsum (dict_values live).
Definition round_rems : list (Z * string) :=
  sort_by remainder_leb ((λ aw : string * Z, (pot * aw.2 mod round_total, aw.1)) <$> live).
Definition round_leftover : Z := pot - Zsum ((λ w, pot * w / round_total) <$> dict_values live).
(** The accounts that get one of the leftover wei. *)
Definition round_top : list string := take (Z.to_nat round_leftover) (round_rems.*2).

Hypothesis Hwf : dict_wf live.
Hypothesis Hne : live ≠ [].
Hypothesis Hpos : ∀ a w, (a, w) ∈ live → 0 < w.
Hypothesis Hpot : 0 <= pot.

Lemma round_values_pos : Forall (λ w, 0 < w) (dict_values live).
Proof.
  apply Forall_forall. intros w ([a w'] & -> & Hin)%list_elem_of_fmap. by apply (Hpos a).
Qed.

Lemma round_total_pos : 0 < round_total.
Proof.
  unfold round_total, dict_values. destruct live as [|[a w] l]; [done|]. csimpl. rewrite Zsum_cons.
  assert (0 < w) by (apply (Hpos a); by left).
  enough (0 <= Zsum l.*2) by lia. apply Zsum_nonneg, Forall_forall.
  intros x ([a' x'] & -> & Hin)%list_elem_of_fmap. simpl.
  assert (0 < x') by (apply (Hpos a'); by right). lia.
Qed.

(** [T * leftover] is the sum of the remainders, so fewer than one wei per
    recipient is left over. *)
Lemma leftover_bounds : 0 <= round_leftover < zlen live.
Proof.
  pose proof round_total_pos as HT. unfold round_leftover.
  assert (∀ l T, 0 < T → let q := Zsum ((λ w, pot * w / T) <$> l) in
            let r := Zsum ((λ w, pot * w mod T) <$> l) in
            pot * Zsum l = T * q + r ∧ 0 <= r <= zlen l * (T - 1)) as Hsum.
  { clear. intros l T HT. induction l as [|w l [IH1 IH2]]; csimpl.
    - rewrite Zsum_nil. lia.
    - rewrite !Zsum_cons. pose proof (Z.div_mod (pot * w) T ltac:(lia)).
      pose proof (Z.mod_pos_bound (pot * w) T HT). split; [lia|].
      rewrite Nat2Z.inj_succ. lia. }
  destruct (Hsum (dict_values live) round_total HT) as [H1 H2]. fold round_total in H1.
  assert (zlen (dict_values live) = zlen live) as Hl by (unfold dict_values; by rewrite length_fmap).
  rewrite Hl in H2. assert (0 < zlen live) by (destruct live; [done | simpl; lia]).
  set (q := Zsum _) in *. nia.
Qed.

Lemma round_rems_accts : round_rems.*2 ≡ₚ dict_keys live.
Proof.
  unfold round_rems. rewrite (fmap_Permutation snd _ _ (sort_by_perm _ _)).
  rewrite <- list_fmap_compose. done.
Qed.

Lemma round_top_NoDup : NoDup round_top.
Proof.
  eapply sublist_NoDup; [|apply sublist_take]. by rewrite round_rems_accts.
Qed.

Lemma round_top_sub a : a ∈ round_top → a ∈ dict_keys live.
Proof. intros Ha. rewrite <- round_rems_accts. by eapply elem_of_take in Ha as (? & ? & _); eapply list_elem_of_lookup_2. Qed.

Lemma round_top_length : zlen round_top = round_leftover.
Proof.
  unfold round_top. rewrite length_take, round_rems_accts. unfold dict_keys. rewrite length_fmap.
  pose proof leftover_bounds. lia.
Qed.

Definition top_share (a : string) : Z := if bool_decide (a ∈ round_top) then 1 else 0.

(** The earners with larger remainders are served first. *)
Lemma top_share_mono a1 w1 a2 w2 :
  (a1, w1) ∈ live → (a2, w2) ∈ live →
  pot * w1 mod round_total < pot * w2 mod round_total → top_share a1 <= top_share a2.
Proof.
  intros H1 H2 Hlt. unfold top_share. case_bool_decide as E1; [|case_bool_decide; lia].
  rewrite bool_decide_true; [done|].
  assert (sorted_by remainder_leb round_rems) as Hs
    by (apply sort_by_sorted; [apply remainder_leb_total | apply remainder_leb_trans]).
  unfold sorted_by in Hs.
  set (k := Z.to_nat round_leftover) in *.
  rewrite <- (take_drop k round_rems) in Hs.
  assert (∀ a w, (a, w) ∈ live → ∃ x, x ∈ round_rems ∧ x = (pot * w mod round_total, a)) as Hin.
  { intros a w Ha. eexists. split; [|done]. unfold round_rems. apply elem_of_sort_by.
    apply list_elem_of_fmap. by exists (a, w). }
  destruct (Hin _ _ H2) as (x2 & Hx2 & ->). rewrite <- (take_drop k round_rems) in Hx2.
  unfold round_top. rewrite <- fmap_take. apply elem_of_app in Hx2 as [Hx2|Hx2].
  { apply list_elem_of_fmap. eexists. by split; [|exact Hx2]. }
  exfalso. unfold round_top in E1. rewrite <- fmap_take in E1.
  apply list_elem_of_fmap in E1 as ([r a] & -> & Ht). simpl in *.
  assert (r = pot * w1 mod round_total) as ->.
  { assert ((r, a) ∈ round_rems) as Hr by (rewrite <- (take_drop k round_rems); set_solver).
    unfold round_rems in Hr. apply elem_of_sort_by, list_elem_of_fmap in Hr as ([a' w'] & Heq & Hr).
    simplify_eq/=. f_equal. f_equal.
    apply (elem_dict_get _ _ _ Hwf) in Hr, H1. congruence. }
  opose proof (StronglySorted_app_1_elem_of _ _ _ _ _ Hs Ht Hx2) as Hle. cbn beta in Hle.
  apply remainder_leb_spec in Hle. simpl in Hle. lia.
Qed.
End Round.

(** [for acct in accts: base[acct] += 1], over distinct accounts of [base]. *)
Lemma add_ones accts base :
  dict_wf base → NoDup accts → (∀ a, a ∈ accts → a ∈ dict_keys base) →
  ∃ base', result_foldM add_one base accts = Ok base' ∧ dict_keys base' = dict_keys base ∧
    Zsum (dict_values base') = Zsum (dict_values base) + zlen accts ∧
    ∀ a v, dict_get a base = Some v →
           dict_get a base' = Some (v + if bool_decide (a ∈ accts) then 1 else 0).
Proof.
  intros Hwf Hnd. revert base Hwf. induction Hnd as [|a accts Ha Hnd IH]; intros base Hwf Hsub; simpl.
  - exists base. split_and!; [done | done | lia |].
    intros a v Hg. by rewrite Z.add_0_r.
  - destruct (dict_get a base) as [v|] eqn:Hg.
    2: { apply dict_get_None in Hg. destruct Hg. apply Hsub. by left. }
    assert (add_one base a = Ok (dict_set a (v + 1) base)) as ->
      by (unfold add_one; rewrite Hg; reflexivity).
    simpl.
    assert (dict_keys (dict_set a (v + 1) base) = dict_keys base) as Hk.
    { rewrite dict_keys_set, decide_True; [done|]. apply Hsub. by left. }
    destruct (IH (dict_set a (v + 1) base)) as (b' & -> & Hk' & Hs' & Hg'); [by apply dict_wf_set| |].
    { intros x Hx. rewrite Hk. apply Hsub. by right. }
    exists b'. split_and!; [done | congruence | |].
    + rewrite Hs'. pose proof (dict_values_set_sum id a (v + 1) base) as Hz.
      rewrite !list_fmap_id, Hg in Hz. rewrite Hz. unfold id. simpl. lia.
    + intros x u Hx. destruct (decide (a = x)) as [->|Hax].
      * rewrite Hg in Hx. simplify_eq. rewrite (Hg' x (u + 1)) by apply dict_get_set_eq.
        rewrite (bool_decide_false (x ∈ accts)) by done. rewrite bool_decide_true by by left. f_equal; lia.
      * rewrite (Hg' x u) by by rewrite dict_get_set_ne. f_equal. f_equal.
        case_bool_decide as E; case_bool_decide as E'; try done; set_solver.
Qed.

Lemma add_ones_indexed (rems : list (Z * string)) k base :
  (k <= length rems)%nat →
  result_foldM (λ b i, r ← of_option IndexError (rems !! i); add_one b r.2) base (seq 0 k) =
  result_foldM add_one base (take k rems.*2).
Proof.
  revert base. induction k as [|k IH]; intros base Hk; [done|].
  destruct (lookup_lt_is_Some_2 rems k) as [r Hr]; [lia|].
  rewrite seq_S, (take_S_r _ k r.2) by (by rewrite list_lookup_fmap, Hr).
  rewrite !result_foldM_app, IH by lia. simpl.
  destruct (result_foldM add_one base _) as [b|e]; simpl; [|done]. by rewrite Hr.
Qed.

(** One round: every recipient keeps its key and gets the floor of its share, and
    those of [round_top] one wei more; nothing is lost or created. *)
Lemma apportion_spec live pot :
  dict_wf live → live ≠ [] → (∀ a w, (a, w) ∈ live → 0 < w) → 0 <= pot →
  ∃ base, apportion live pot = Ok base ∧ dict_keys base = dict_keys live ∧
    Zsum (dict_values base) = pot ∧
    ∀ a w, (a, w) ∈ live →
      dict_get a base = Some (pot * w / round_total live + top_share live pot a).
Proof.
  intros Hwf Hne Hpos Hpot. unfold apportion. fold (round_total live). fold (round_rems live pot).
  set (base := (λ aw : string * Z, (aw.1, pot * aw.2 / round_total live)) <$> live).
  assert (dict_keys base = dict_keys live) as Hkeys.
  { unfold base, dict_keys. rewrite <- list_fmap_compose. done. }
  assert (dict_values base = (λ w, pot * w / round_total live) <$> dict_values live) as Hvals.
  { unfold base, dict_values. rewrite <- !list_fmap_compose. done. }
  rewrite Hvals. fold (round_leftover live pot).
  pose proof (leftover_bounds live pot Hwf Hne Hpos) as Hlo.
  rewrite add_ones_indexed.
  2: { rewrite <- (length_fmap snd), round_rems_accts. unfold dict_keys. rewrite length_fmap. lia. }
  change (take _ (round_rems live pot).*2) with (round_top live pot).
  destruct (add_ones (round_top live pot) base) as (b' & Hb & Hk & Hs & Hg).
  - unfold dict_wf. by rewrite Hkeys.
  - by apply round_top_NoDup.
  - intros a. rewrite Hkeys. apply round_top_sub.
  - exists b'. split_and!; [done | congruence | |].
    + rewrite Hs, Hvals, round_top_length by done. unfold round_leftover. lia.
    + intros a w Ha. apply Hg. apply elem_dict_get; [unfold dict_wf; by rewrite Hkeys|].
      apply list_elem_of_fmap. by exists (a, w).
Qed.

(** ** Lemmas: the loop *)

(** [for a in zeros: del live[a]] keeps the others, in order. *)
Lemma fold_del_filter (zs live : dict string Z) :
  dict_wf live →
  fold_left (λ d (av : string * Z), dict_del av.1 d) zs live =
  filter (λ kv : string * Z, kv.1 ∉ dict_keys zs) (live : list (string * Z)).
Proof.
  assert (∀ a (d : list (string * Z)), dict_wf d → dict_del a d = filter (λ kv, kv.1 ≠ a) d) as Hdel.
  { intros a d. unfold dict_wf. induction d as [|[k v] d IH]; intros Hwf; [done|].
    csimpl in Hwf. apply NoDup_cons in Hwf as [Hk Hwf]. simpl. case_decide as Hd.
    - subst. rewrite filter_cons_False by (simpl; tauto). symmetry. apply filter_all.
      apply Forall_forall. intros [k' v'] Hin Hkk. simpl in Hkk. subst. apply Hk. apply list_elem_of_fmap. by eexists (_, _).
    - rewrite filter_cons_True by (simpl; congruence). by rewrite IH. }
  revert live. induction zs as [|[z n] zs IH]; intros live Hwf; simpl.
  - symmetry. apply filter_all, Forall_forall. intros. apply not_elem_of_nil.
  - rewrite IH by by apply dict_wf_del. rewrite Hdel by done. rewrite list_filter_filter.
    apply list_filter_iff. intros [k v]. simpl. rewrite not_elem_of_cons. tauto.
Qed.

(** What the split promises: every wei of the pot is paid out, to recipients
    only, each of them getting at least one wei and its exact proportional share
    of the pot rounded down or up; a larger weight is never paid less. *)
Record allocation_ok (live : dict string Z) (pot : Z) (alloc : dict string Z) : Prop := {
  alloc_wf : dict_wf alloc;
  alloc_pos : ∀ a v, (a, v) ∈ alloc → 0 < v;
  alloc_sum : Zsum (dict_values alloc) = pot;
  alloc_share : ∃ paid, paid `sublist_of` live ∧ dict_keys alloc = dict_keys paid ∧
    ∀ a w v, (a, w) ∈ paid → dict_get a alloc = Some v →
      let q := pot * w / Zsum (dict_values paid) in q <= v <= q + 1;
  alloc_mono : ∀ a1 w1 a2 w2, (a1, w1) ∈ live → (a2, w2) ∈ live → w1 < w2 →
    default 0 (dict_get a1 alloc) <= default 0 (dict_get a2 alloc)
}.

Section Loop.
Context (live : dict string Z) (pot : Z) (base : dict string Z).
Hypothesis Hwf : dict_wf live.
Hypothesis Hne : live ≠ [].
Hypothesis Hpos : ∀ a w, (a, w) ∈ live → 0 < w.
Hypothesis Hpot : 0 < pot.
Hypothesis Hkeys : dict_keys base = dict_keys live.
Hypothesis Hsum : Zsum (dict_values base) = pot.
Hypothesis Hshare : ∀ a w, (a, w) ∈ live →
  dict_get a base = Some (pot * w / round_total live + top_share live pot a).

Definition round_zeros : dict string Z := filter (λ av : string * Z, av.2 = 0) (base : list (string * Z)).
Definition round_live : dict string Z :=
  fold_left (λ d (av : string * Z), dict_del av.1 d) round_zeros live.

Lemma round_base_wf : dict_wf base.
Proof. unfold dict_wf. by rewrite Hkeys. Qed.

Lemma round_share_nonneg a w : (a, w) ∈ live → 0 <= pot * w / round_total live.
Proof.
  intros Ha. pose proof (Hpos _ _ Ha). apply Z.div_pos; [nia|].
  by apply round_total_pos.
Qed.

Lemma top_share_01 a : 0 <= top_share live pot a <= 1.
Proof. unfold top_share. case_bool_decide; lia. Qed.

(** Within one round a larger weight gets at least as much. *)
Lemma round_mono a1 w1 a2 w2 :
  (a1, w1) ∈ live → (a2, w2) ∈ live → w1 < w2 →
  pot * w1 / round_total live + top_share live pot a1 <=
  pot * w2 / round_total live + top_share live pot a2.
Proof.
  intros H1 H2 Hlt. assert (0 < round_total live) as HT by by apply round_total_pos.
  pose proof (top_share_01 a1). pose proof (top_share_01 a2).
  pose proof (Z.div_le_mono (pot * w1) (pot * w2) _ HT ltac:(nia)) as Hd.
  destruct (decide (pot * w1 / round_total live = pot * w2 / round_total live)) as [Heq|]; [|lia].
  pose proof (Z.div_mod (pot * w1) (round_total live) ltac:(lia)).
  pose proof (Z.div_mod (pot * w2) (round_total live) ltac:(lia)).
  enough (top_share live pot a1 <= top_share live pot a2) by lia.
  apply top_share_mono with w1 w2; try assumption; nia.
Qed.

Lemma round_zero_keys a : a ∈ dict_keys round_zeros ↔ dict_get a base = Some 0.
Proof.
  split.
  - intros ([a' v] & -> & [Hv Hin]%list_elem_of_filter)%list_elem_of_fmap. simpl in Hv. subst v.
    apply elem_dict_get; [apply round_base_wf | done].
  - intros Ha%dict_get_elem. apply list_elem_of_fmap. exists (a, 0). split; [done|].
    by apply list_elem_of_filter.
Qed.

Lemma round_live_elem a w :
  (a, w) ∈ round_live ↔ (a, w) ∈ live ∧ dict_get a base ≠ Some 0.
Proof.
  unfold round_live. rewrite fold_del_filter by done. rewrite list_elem_of_filter. simpl.
  rewrite round_zero_keys. tauto.
Qed.

Lemma round_live_wf : dict_wf round_live.
Proof.
  unfold round_live. rewrite fold_del_filter by done. eapply sublist_NoDup; [exact Hwf|].
  apply fmap_sublist, sublist_filter.
Qed.

Lemma round_live_sublist : round_live `sublist_of` live.
Proof. unfold round_live. rewrite fold_del_filter by done. apply sublist_filter. Qed.

Lemma round_live_nonempty : round_live ≠ [].
Proof.
  intros Hnil. enough (Zsum (dict_values base) = 0) by lia.
  assert (Forall (λ v, v = 0) (dict_values base)) as Hz.
  { apply Forall_forall. intros v ([a v'] & -> & Hin)%list_elem_of_fmap. simpl.
    destruct (decide (v' = 0)) as [|Hv]; [done|]. exfalso.
    assert (a ∈ dict_keys live) as ([a' w] & -> & Hw)%list_elem_of_fmap
      by (rewrite <-Hkeys; apply list_elem_of_fmap; by eexists (_, _)).
    simpl in Hin. assert ((a', w) ∈ round_live) as Hl.
    { apply round_live_elem. split; [done|].
      rewrite (elem_dict_get a' v' base round_base_wf Hin). congruence. }
    rewrite Hnil in Hl. by apply not_elem_of_nil in Hl. }
  clear -Hz. induction Hz as [|v l -> Hl IH]; [done|]. by rewrite Zsum_cons, IH.
Qed.

Lemma round_live_shorter : round_zeros ≠ [] → (length round_live < length live)%nat.
Proof.
  intros Hz. destruct round_zeros as [|[a n] zs] eqn:E; [done|].
  assert (a ∈ dict_keys round_zeros) as Ha by (rewrite E; by left).
  assert (a ∈ dict_keys live) as ([a' w] & -> & Hw)%list_elem_of_fmap.
  { rewrite <-Hkeys. apply round_zero_keys, dict_get_elem in Ha.
    apply list_elem_of_fmap. by eexists (_, _). }
  unfold round_live. rewrite fold_del_filter by done. eapply length_filter_lt; [exact Hw|].
  simpl. tauto.
Qed.

(** The last round: nobody is left with zero. *)
Lemma round_done : round_zeros = [] → allocation_ok live pot base.
Proof.
  intros Hz. split.
  - apply round_base_wf.
  - intros a v Ha. assert (a ∈ dict_keys live) as ([a' w] & -> & Hw)%list_elem_of_fmap
      by (rewrite <-Hkeys; apply list_elem_of_fmap; by eexists (_, _)).
    pose proof (elem_dict_get _ _ _ round_base_wf Ha) as Hg. simpl in *.
    rewrite (Hshare _ _ Hw) in Hg. injection Hg as <-.
    pose proof (round_share_nonneg _ _ Hw). pose proof (top_share_01 a').
    enough (pot * w / round_total live + top_share live pot a' ≠ 0) by lia. intros Hzero.
    rewrite Hzero in Ha. enough ((a', 0) ∈ round_zeros) as Hin by (rewrite Hz in Hin; by apply not_elem_of_nil in Hin).
    by apply list_elem_of_filter.
  - done.
  - exists live. split_and!; [done | done |]. intros a w v Hw Hg.
    rewrite (Hshare _ _ Hw) in Hg. injection Hg as <-. fold (round_total live).
    pose proof (top_share_01 a). simpl. lia.
  - intros a1 w1 a2 w2 H1 H2 Hlt. rewrite (Hshare _ _ H1), (Hshare _ _ H2). simpl.
    by apply round_mono.
Qed.
End Loop.

Lemma allocate_loop_spec fuel live pot :
  dict_wf live → live ≠ [] → (∀ a w, (a, w) ∈ live → 0 < w) → 0 < pot →
  (length live <= fuel)%nat →
  ∃ alloc, allocate_loop fuel live pot = Ok alloc ∧ allocation_ok live pot alloc.
Proof.
  revert live. induction fuel as [|fuel IH]; intros live Hwf Hne Hpos Hpot Hfuel.
  { destruct live; [done | simpl in Hfuel; lia]. }
  destruct (apportion_spec live pot) as (base & Hb & Hk & Hs & Hg); [done..|lia|].
  cbn [allocate_loop]. rewrite Hb. simpl. fold (round_zeros base).
  case_bool_decide as Hz.
  - rewrite Hs, Z.eqb_refl. exists base. split; [done|]. by apply round_done.
  - fold (round_live live base). rewrite bool_decide_false
      by (eapply round_live_nonempty; eassumption).
    assert (∀ a w, (a, w) ∈ round_live live base ↔ (a, w) ∈ live ∧ dict_get a base ≠ Some 0) as Hel
      by (intros; eapply round_live_elem; eassumption).
    assert (round_live live base `sublist_of` live) as Hsub
      by (eapply round_live_sublist; eassumption).
    destruct (IH (round_live live base)) as (alloc & Ha & Hok).
    + eapply round_live_wf; eassumption.
    + eapply round_live_nonempty; eassumption.
    + intros a w [Hin _]%Hel. by apply (Hpos a).
    + done.
    + enough (length (round_live live base) < length live)%nat by lia.
      eapply round_live_shorter; eassumption.
    + exists alloc. split; [done|]. destruct Hok as [Hw Hp Hsum (paid & Hpa & Hkp & Hsh) Hm].
      split; [done | done | done | |].
      * exists paid. split; [by etrans | done].
      * intros a1 w1 a2 w2 H1 H2 Hlt.
        assert (∀ a w, (a, w) ∈ live → dict_get a base = Some 0 → dict_get a alloc = None) as Hdrop.
        { intros a w Hin H0. apply dict_get_None. rewrite Hkp. intros Hkin.
          apply (sublist_subseteq _ _ (fmap_sublist fst _ _ Hpa)) in Hkin.
          apply list_elem_of_fmap in Hkin as ([a' w'] & -> & [_ Hnz]%Hel). done. }
        assert (∀ a, 0 <= default 0 (dict_get a alloc)) as Hnn.
        { intros a. destruct (dict_get a alloc) eqn:E; simpl; [|done].
          apply dict_get_elem, Hp in E. lia. }
        destruct (decide (dict_get a2 base = Some 0)) as [H0|H0].
        { assert (dict_get a1 base = Some 0) as H01.
          { assert (pot * w1 / round_total live + top_share live pot a1 <=
                    pot * w2 / round_total live + top_share live pot a2) as Hle
              by (eapply round_mono; eassumption).
            rewrite (Hg _ _ H2) in H0. rewrite (Hg _ _ H1). injection H0 as H0.
            assert (0 <= pot * w1 / round_total live)
              by (eapply round_share_nonneg; eassumption).
            pose proof (top_share_01 live pot a1). f_equal. lia. }
          rewrite (Hdrop _ _ H1 H01), (Hdrop _ _ H2 H0). done. }
        destruct (decide (dict_get a1 base = Some 0)) as [H01|H01].
        { rewrite (Hdrop _ _ H1 H01). apply Hnn. }
        apply (Hm a1 w1 a2 w2); [by apply Hel.. | done].
Qed.

(** ** Lemmas: the split does not depend on the order of the recipients *)

Lemma top_share_perm live1 live2 pot a :
  dict_wf live1 → live1 ≡ₚ live2 → top_share live1 pot a = top_share live2 pot a.
Proof.
  intros Hwf Hp. unfold top_share, round_top.
  assert (dict_values live1 ≡ₚ dict_values live2) as Hv by by apply fmap_Permutation.
  assert (round_total live1 = round_total live2) as Ht by (unfold round_total; by rewrite Hv).
  assert (round_leftover live1 pot = round_leftover live2 pot) as ->
    by (unfold round_leftover; by rewrite Ht, Hv).
  enough (round_rems live1 pot = round_rems live2 pot) as -> by done.
  unfold round_rems. rewrite Ht. apply sort_by_unique.
  - apply remainder_leb_total.
  - apply remainder_leb_trans.
  - intros x y Hx Hy H1%remainder_leb_spec H2%remainder_leb_spec.
    assert (x.1 = y.1) as Hxy by lia. destruct H1 as [|[_ H1]], H2 as [|[_ H2]]; [lia..|].
    destruct x, y; simpl in *. f_equal; [done|]. by apply string_leb_antisym.
  - by apply fmap_Permutation.
Qed.

Lemma allocate_loop_perm fuel live1 live2 pot :
  dict_wf live1 → live1 ≠ [] → (∀ a w, (a, w) ∈ live1 → 0 < w) → 0 < pot →
  live1 ≡ₚ live2 → (length live1 <= fuel)%nat →
  ∃ a1 a2, allocate_loop fuel live1 pot = Ok a1 ∧ allocate_loop fuel live2 pot = Ok a2 ∧ a1 ≡ₚ a2.
Proof.
  revert live1 live2. induction fuel as [|fuel IH]; intros live1 live2 Hwf Hne Hpos Hpot Hp Hfuel.
  { destruct live1; [done | simpl in Hfuel; lia]. }
  assert (dict_wf live2) as Hwf2
    by (unfold dict_wf, dict_keys in *; by rewrite <-(fmap_Permutation fst _ _ Hp)).
  assert (live2 ≠ []) as Hne2 by (intros ->; by apply Permutation_nil_r in Hp).
  assert (∀ a w, (a, w) ∈ live2 → 0 < w) as Hpos2 by (intros a w; rewrite <-Hp; apply Hpos).
  destruct (apportion_spec live1 pot) as (b1 & Hb1 & Hk1 & Hs1 & Hg1); [done..|lia|].
  destruct (apportion_spec live2 pot) as (b2 & Hb2 & Hk2 & Hs2 & Hg2); [done..|lia|].
  assert (b1 ≡ₚ b2) as Hb.
  { assert (round_total live1 = round_total live2) as Ht
      by (unfold round_total, dict_values; by rewrite (fmap_Permutation snd _ _ Hp)).
    assert (∀ a w, (a, w) ∈ live1 → dict_get a b1 = dict_get a b2) as Hsame.
    { intros a w Hin. rewrite (Hg1 _ _ Hin), (Hg2 a w) by by rewrite <-Hp.
      by rewrite Ht, (top_share_perm live1 live2). }
    apply dict_get_perm; [unfold dict_wf; by rewrite ?Hk1, ?Hk2..|]. intros k v.
    destruct (decide (k ∈ dict_keys live1)) as [([k' w] & -> & Hin)%list_elem_of_fmap|Hk].
    { simpl. by rewrite (Hsame _ _ Hin). }
    assert (dict_get k b1 = None) as -> by (apply dict_get_None; by rewrite Hk1).
    assert (dict_get k b2 = None) as ->; [|done]. apply dict_get_None. rewrite Hk2.
    unfold dict_keys in *. by rewrite <-(fmap_Permutation fst _ _ Hp). }
  cbn [allocate_loop]. rewrite Hb1, Hb2. simpl. rewrite Hs1, Hs2, Z.eqb_refl.
  fold (round_zeros b1). fold (round_zeros b2).
  assert (round_zeros b1 ≡ₚ round_zeros b2) as Hz by (unfold round_zeros; by rewrite Hb).
  case_bool_decide as E1.
  { rewrite E1 in Hz. apply Permutation_nil_l in Hz. rewrite (bool_decide_true (round_zeros b2 = [])) by done. eauto. }
  rewrite (bool_decide_false (round_zeros b2 = [])) by (intros E2; rewrite E2 in Hz; by apply Permutation_nil_r in Hz).
  fold (round_live live1 b1). fold (round_live live2 b2).
  assert (dict_wf (round_live live1 b1)) as Hw1 by (eapply round_live_wf; eassumption).
  assert (dict_wf (round_live live2 b2)) as Hw2 by (eapply round_live_wf; eassumption).
  assert (∀ a w, (a, w) ∈ round_live live1 b1 ↔ (a, w) ∈ live1 ∧ dict_get a b1 ≠ Some 0) as Hel1
    by (intros; eapply round_live_elem; eassumption).
  assert (∀ a w, (a, w) ∈ round_live live2 b2 ↔ (a, w) ∈ live2 ∧ dict_get a b2 ≠ Some 0) as Hel2
    by (intros; eapply round_live_elem; eassumption).
  rewrite !bool_decide_false by (eapply round_live_nonempty; eassumption).
  apply IH; [done | eapply round_live_nonempty; eassumption | | done | |].
  - intros a w [Hin _]%Hel1. by apply (Hpos a).
  - apply NoDup_Permutation; [by eapply NoDup_fmap_1..|]. intros [a w].
    rewrite Hel1, Hel2, Hp, (dict_perm_get b1 b2); [done | | done]. unfold dict_wf. by rewrite Hk1.
  - enough (length (round_live live1 b1) < length live1)%nat by lia.
    eapply round_live_shorter; eassumption.
Qed.

(** ** Lemmas: the scan *)

Section Scan.
Context `{Externals} (consumed : list string) (ws we : option Z).

Definition bid (b : FinalizedBatch) : string := lower (batch_id b).

(** A batch the epoch may count. *)
Definition eligible (b : FinalizedBatch) : Prop :=
  in_window b ws we = true ∧ bid b ∉ consumed.

(** The settled value [b] adds to the account [a]. *)
Definition value_for (a : string) (b : FinalizedBatch) : Z :=
  match to_checksum_address (provider b) with
  | Ok c => if (0 <? final_value_wei b) && bool_decide (c = a) then final_value_wei b else 0
  | Err _ => 0
  end.

Record scan_inv (done : list FinalizedBatch) (counted : list FinalizedBatch) (st : ScanState)
  : Prop := {
  si_sub : counted `sublist_of` done;
  si_counted : ∀ b, b ∈ counted → eligible b;
  si_ids : NoDup (bid <$> counted);
  si_all : ∀ b, b ∈ done → eligible b → bid b ∈ bid <$> counted;
  si_consumed : sc_consumed st = batch_id <$> counted;
  si_seen : ∀ i, i ∈ sc_seen st ↔ i ∈ bid <$> counted;
  si_wf : dict_wf (sc_contribution st);
  si_value : ∀ a, default 0 (dict_get a (sc_contribution st)) = Zsum (value_for a <$> counted);
  si_pos : ∀ a v, (a, v) ∈ sc_contribution st → 0 < v;
  si_keys : ∀ a, a ∈ dict_keys (sc_contribution st) → ∃ p, to_checksum_address p = Ok a
}.

Lemma scan_inv_start : scan_inv [] [] scan_start.
Proof.
  split; simpl; try done; try constructor; intros;
    match goal with H : _ ∈ [] |- _ => by apply not_elem_of_nil in H end.
Qed.

Lemma value_for_nonneg a b : 0 <= value_for a b.
Proof.
  unfold value_for. destruct (to_checksum_address (provider b)); [|done].
  destruct (Z.ltb_spec 0 (final_value_wei b)); case_bool_decide; simpl; lia.
Qed.

(** A batch the scan does not count. *)
Lemma scan_inv_skip done counted st st' b :
  scan_inv done counted st → (eligible b → bid b ∈ bid <$> counted) →
  sc_contribution st' = sc_contribution st → sc_consumed st' = sc_consumed st →
  sc_seen st' = sc_seen st → scan_inv (done ++ [b]) counted st'.
Proof.
  intros [] Hb Hv Hc Hs. split; rewrite ?Hv, ?Hc, ?Hs; try done.
  - by apply sublist_inserts_r.
  - intros b' [Hin| ->%list_elem_of_singleton]%elem_of_app; auto.
Qed.

Lemma scan_batch_inv done counted st b st' :
  scan_inv done counted st → scan_batch consumed ws we st b = Ok st' →
  ∃ counted', scan_inv (done ++ [b]) counted' st'.
Proof.
  intros Hi Hs. unfold scan_batch in Hs. fold (bid b) in Hs.
  destruct (in_window b ws we) eqn:Hw; simpl in Hs; cycle 1.
  { simplify_eq. exists counted. eapply scan_inv_skip; [done | | done..]. intros [? _]. congruence. }
  case_bool_decide as Hc.
  { simplify_eq. exists counted. eapply scan_inv_skip; [done | | done..]. intros [_ ?]. done. }
  case_bool_decide as Hseen.
  { simplify_eq. exists counted. eapply scan_inv_skip; [done | | done..].
    intros _. by apply (si_seen _ _ _ Hi). }
  inv_bind Hs. rename r into contribution. simplify_eq. exists (counted ++ [b]).
  assert (dict_wf contribution ∧
          (∀ a, default 0 (dict_get a contribution) =
                default 0 (dict_get a (sc_contribution st)) + value_for a b) ∧
          (∀ a v, (a, v) ∈ contribution → 0 < v) ∧
          (∀ a, a ∈ dict_keys contribution → ∃ p, to_checksum_address p = Ok a)) as (Hw1 & Hv1 & Hp1 & Hk1).
  { destruct (Z.leb_spec (final_value_wei b) 0) as [Hle|Hgt].
    - simplify_eq. split_and!; [apply Hi | | apply Hi..]. intros a. unfold value_for.
      replace (0 <? final_value_wei b) with false by lia. simpl. destruct to_checksum_address; lia.
    - inv_bind Hr. rename r into a. simplify_eq. unfold dict_add.
      assert (0 <= default 0 (dict_get a (sc_contribution st))).
      { destruct (dict_get a _) eqn:E; simpl; [|done]. apply dict_get_elem, (si_pos _ _ _ Hi) in E. lia. }
      split_and!.
      + apply dict_wf_set, Hi.
      + intros a'. rewrite dict_get_set. unfold value_for.
        replace (0 <? final_value_wei b) with true by lia. rewrite Hr0. simpl. case_decide as Ha.
        * subst. rewrite bool_decide_true by done. done.
        * rewrite bool_decide_false by congruence. lia.
      + intros a' v' [[-> ->]|[_ Hin]]%elem_dict_set; [lia | by eapply (si_pos _ _ _ Hi) | apply Hi].
      + intros a' [->|Hin]%elem_dict_keys_set; [eauto | by eapply (si_keys _ _ _ Hi)]. }
  assert (bid b ∉ bid <$> counted) as Hfresh by (by rewrite <-(si_seen _ _ _ Hi)).
  destruct Hi. split; simpl; try done.
  - by apply sublist_app.
  - intros b' [Hin| ->%list_elem_of_singleton]%elem_of_app; [auto | by split].
  - rewrite fmap_app. apply NoDup_app. split_and!; [done | set_solver | apply NoDup_singleton].
  - intros b' Hin Hel. rewrite fmap_app. apply elem_of_app in Hin as [Hin|Hin]; [set_solver|].
    apply list_elem_of_singleton in Hin as ->. set_solver.
  - by rewrite fmap_app, si_consumed0.
  - intros i. rewrite fmap_app. csimpl. rewrite elem_of_cons, elem_of_app, si_seen0, list_elem_of_singleton. tauto.
  - intros a. rewrite Hv1, si_value0, fmap_app, Zsum_app. csimpl. rewrite Zsum_cons, Zsum_nil. lia.
Qed.

Lemma scan_spec batches st :
  result_foldM (scan_batch consumed ws we) scan_start batches = Ok st →
  ∃ counted, scan_inv batches counted st.
Proof.
  enough (∀ bs done counted st0, scan_inv done counted st0 →
    result_foldM (scan_batch consumed ws we) st0 bs = Ok st →
    ∃ counted, scan_inv (done ++ bs) counted st) as Hgen.
  { intros Hf. destruct (Hgen batches [] [] scan_start scan_inv_start Hf) as [c Hc]. by exists c. }
  induction bs as [|b bs IH]; intros done counted st0 Hi Hf; simpl in Hf.
  - simplify_eq. rewrite app_nil_r. eauto.
  - inv_bind Hf. destruct (scan_batch_inv _ _ _ _ _ Hi Hr) as [c Hc].
    destruct (IH _ _ _ Hc Hf) as [c' Hc']. exists c'.
    by rewrite <-app_assoc in Hc'.
Qed.
End Scan.
