(* ===== verification/EmissionTheorems.v ===== *)
(** * Correctness of emission epochs and operator rewards

    The claims about Emission.v: the split pays every wei of the pot, a finalized
    batch is counted at most once, every planned entitlement can be claimed with
    its proof and nothing else can, and the result does not depend on the order
    of the inputs. *)
From Stdlib Require Import ZArith Lia.
From S2P Require Import PyStd.
From S2P Require Import Externals.
From S2P Require Import Receipt.
From S2P Require Import Merkle.
From S2P Require Import Emission.
From S2P Require Import Prelude.

#[local] Open Scope string_scope.
#[local] Open Scope list_scope.
#[local] Open Scope Z_scope.

(** ** Lemmas: reward trees *)

Section RewardTree.
Context `{Externals}.

(** What the validation loop makes of an entry. *)
Definition normalized_as (e n : RewardEntry) : Prop :=
  to_checksum_address (account e) = Ok (account n) ∧ amount_wei n = amount_wei e ∧
  0 < amount_wei e <= UINT256_MAX.

Lemma normalize_entry_Ok seen acc e st :
  normalize_entry (seen, acc) e = Ok st ↔
  ∃ a, to_checksum_address (account e) = Ok a ∧ 0 < amount_wei e <= UINT256_MAX ∧ (¬ a ∈ seen) ∧
       st = (a :: seen, acc ++ [{| account := a; amount_wei := amount_wei e |}]).
Proof.
  unfold normalize_entry. simpl. split.
  - intros Hr. inv_result. exists r. apply bool_decide_eq_false in Hr3. split_and!; done || lia.
  - intros (a & -> & Hv & Ha & ->). simpl.
    replace (amount_wei e <=? 0) with false by lia.
    replace (UINT256_MAX <? amount_wei e) with false by lia.
    by rewrite bool_decide_false.
Qed.

Lemma normalize_fold es seen acc s norm :
  result_foldM normalize_entry (seen, acc) es = Ok (s, norm) ↔
  ∃ new, norm = acc ++ new ∧ Forall2 normalized_as es new ∧ NoDup (account <$> new) ∧
         (∀ a, a ∈ account <$> new → a ∉ seen) ∧ s = reverse (account <$> new) ++ seen.
Proof.
  revert seen acc. induction es as [|e es IH]; intros seen acc; simpl.
  - split.
    + intros Heq. simplify_eq. exists []. rewrite app_nil_r. split_and!; [done | done | constructor | | done].
      intros a Ha. by apply not_elem_of_nil in Ha.
    + intros (new & -> & Hf & _ & _ & ->). apply Forall2_nil_inv_l in Hf as ->. by rewrite app_nil_r.
  - split.
    + intros Hf. apply bind_Ok_inv in Hf as (st & (a & Ha & Hv & Hseen & ->)%normalize_entry_Ok & Hf).
      apply IH in Hf as (new & -> & Hf2 & Hnd & Hs & ->).
      exists ({| account := a; amount_wei := amount_wei e |} :: new). csimpl. split_and!.
      * by rewrite <-app_assoc.
      * by constructor.
      * constructor; [|done]. intros Hin. apply Hs in Hin. set_solver.
      * intros x [->|Hx]%elem_of_cons; [done|]. apply Hs in Hx. set_solver.
      * by rewrite reverse_cons, <-app_assoc.
    + intros (new & -> & Hf2 & Hnd & Hs & ->).
      apply Forall2_cons_inv_l in Hf2 as ([a v] & new' & (Ha & Hv & Hb) & Hf2 & ->).
      csimpl in *. subst v. apply NoDup_cons in Hnd as [Hn Hnd].
      assert (normalize_entry (seen, acc) e =
              Ok (a :: seen, acc ++ [{| account := a; amount_wei := amount_wei e |}])) as ->.
      { apply normalize_entry_Ok. exists a. split_and!; [done | lia | lia | | done]. apply Hs. by left. }
      simpl. apply IH. exists new'. split_and!; [by rewrite <-app_assoc | done | done | |].
      * intros x Hx [->|Hin]%elem_of_cons; [done|]. apply (Hs x); [by right | done].
      * by rewrite reverse_cons, <-app_assoc.
Qed.

(** The leaf of a validated entry. *)
Definition reward_preimage (epoch_id : Z) (e : RewardEntry) : bytes :=
  abi_encode (reward_leaf_values epoch_id (account e) (amount_wei e)).

Definition entry_ok (e : RewardEntry) : Prop :=
  to_checksum_address (account e) = Ok (account e) ∧ 0 < amount_wei e <= UINT256_MAX.

Lemma reward_leaf_hash_ok epoch_id a c v :
  0 <= epoch_id <= UINT256_MAX → 0 <= v <= UINT256_MAX → to_checksum_address a = Ok c →
  reward_leaf_hash epoch_id a v =
  Ok (keccak (keccak (reward_preimage epoch_id {| account := c; amount_wei := v |}))).
Proof.
  intros He Hv Ha. unfold reward_leaf_hash.
  replace ((epoch_id <? 0) || (UINT256_MAX <? epoch_id)) with false by lia.
  replace ((v <? 0) || (UINT256_MAX <? v)) with false by lia. simpl. by rewrite Ha.
Qed.

Lemma reward_leaf_hash_inv epoch_id a v h :
  reward_leaf_hash epoch_id a v = Ok h →
  0 <= epoch_id <= UINT256_MAX ∧ 0 <= v <= UINT256_MAX ∧ ∃ c, to_checksum_address a = Ok c ∧
    h = keccak (keccak (reward_preimage epoch_id {| account := c; amount_wei := v |})).
Proof.
  unfold reward_leaf_hash. intros Hh. inv_result.
  apply orb_false_iff in Hr as [? ?], Hr0 as [? ?]. split_and!; [lia..|]. by eexists.
Qed.

(** The built epoch, when the inputs are valid. *)
Lemma build_reward_epoch_ok epoch_id entries norm :
  0 <= epoch_id <= UINT256_MAX → norm ≠ [] → Forall entry_ok norm → NoDup (account <$> norm) →
  (∃ s, result_foldM normalize_entry ([], []) entries = Ok (s, norm)) →
  ∃ ep, build_reward_epoch epoch_id entries = Ok ep ∧
    re_epoch_id ep = epoch_id ∧ re_entries ep = sort_by entry_leb norm ∧
    re_total_amount_wei ep = Zsum (amount_wei <$> norm) ∧
    re_leaf_hashes ep = (λ e, keccak (keccak (reward_preimage epoch_id e))) <$> re_entries ep ∧
    build_merkle_root (re_leaf_hashes ep) = Ok (re_merkle_root ep) ∧
    ∀ e, e ∈ norm → ∃ p, dict_get (account e) (re_proofs ep) = Some p ∧
      verify_merkle_proof p (re_merkle_root ep) (keccak (keccak (reward_preimage epoch_id e))) = true.
Proof.
  intros He Hne Hok Hnd [s Hs]. unfold build_reward_epoch.
  rewrite bool_decide_false. 2: { intros ->. simpl in Hs. congruence. }
  simpl. rewrite Hs. simpl. set (sorted := sort_by entry_leb norm).
  assert (sorted ≡ₚ norm) as Hp by apply sort_by_perm.
  assert (∀ e, e ∈ sorted ↔ e ∈ norm) as Hel by (intros e; by rewrite Hp).
  set (leaf := λ e, keccak (keccak (reward_preimage epoch_id e))).
  rewrite Forall_forall in Hok.
  rewrite (result_mapM_fmap _ leaf).
  2: { intros e Hin%Hel. destruct (Hok _ Hin) as [Ha Hv]. rewrite (reward_leaf_hash_ok _ _ (account e)) by (done || lia).
       by destruct e. }
  simpl. assert (leaf <$> sorted ≠ []) as Hne2.
  { intros Hnil%fmap_nil_inv. rewrite Hnil in Hp. by apply Permutation_nil_l in Hp. }
  destruct (build_merkle_root_Ok _ Hne2) as (root & Hroot & _). rewrite Hroot. simpl.
  set (g := λ ie : Z * RewardEntry,
              (account ie.2, match build_merkle_proof (leaf <$> sorted) ie.1 with Ok p => p | Err _ => [] end)).
  rewrite (result_mapM_fmap _ g).
  2: { intros [i e] (n & -> & Hn)%elem_of_enumerate. unfold g. simpl.
       destruct (build_merkle_proof_spec (leaf <$> sorted) n (leaf e)) as (p & _ & -> & _); [|done].
       by rewrite list_lookup_fmap, Hn. }
  simpl. eexists. split; [done|]. simpl. split_and!; [done | done | | done | done |].
  { by rewrite Hp. }
  assert ((g <$> enumerate sorted).*1 = account <$> sorted) as Hkeys.
  { rewrite <-list_fmap_compose. rewrite <-(enumerate_from_snd 0 sorted) at 2.
    by rewrite <-list_fmap_compose. }
  assert (NoDup (g <$> enumerate sorted).*1) as Hnd2 by (rewrite Hkeys; by rewrite Hp).
  rewrite dict_of_list_NoDup by done.
  intros e Hin%Hel. apply list_elem_of_lookup in Hin as [i Hi].
  destruct (build_merkle_proof_spec (leaf <$> sorted) i (leaf e)) as (p & r & Hpr & Hr & Hv & _).
  { by rewrite list_lookup_fmap, Hi. }
  exists p. split; [|by rewrite Hroot in Hr; injection Hr as ->]. apply elem_dict_get; [done|].
  apply list_elem_of_fmap. exists (Z.of_nat i, e). split; [unfold g; simpl; by rewrite Hpr|].
  apply elem_of_enumerate. eauto.
Qed.

Lemma build_reward_epoch_inv `{!ChecksumLaws} epoch_id entries ep :
  build_reward_epoch epoch_id entries = Ok ep →
  ∃ norm s, result_foldM normalize_entry ([], []) entries = Ok (s, norm) ∧
    0 <= epoch_id <= UINT256_MAX ∧ norm ≠ [] ∧ Forall2 normalized_as entries norm ∧
    Forall entry_ok norm ∧ NoDup (account <$> norm).
Proof.
  unfold build_reward_epoch. intros Hb. inv_bind Hb. apply raise_if_Ok, bool_decide_eq_false in Hr.
  inv_bind Hb. destruct r0 as [s norm]. exists norm, s. split; [done|].
  apply normalize_fold in Hr0 as (new & Heq & Hf & Hnd & _). simpl in Heq. subst new.
  assert (norm ≠ []) as Hne by (intros ->; by apply Forall2_nil_inv_r in Hf).
  assert (Forall entry_ok norm) as Hok.
  { apply Forall_forall. intros n Hn. apply list_elem_of_lookup in Hn as [i Hi].
    destruct (Forall2_lookup_r _ _ _ _ _ Hf Hi) as (e & _ & Ha & Hv & Hb').
    split; [by eapply checksum_idemp | lia]. }
  split_and!; [| | done | done | done | done].
  all: inv_bind Hb; apply result_mapM_Forall2 in Hr0; destruct (sort_by entry_leb norm) as [|n0 l0] eqn:E;
    [by apply (f_equal length) in E; rewrite sort_by_length in E; destruct norm |];
    apply Forall2_cons_inv_l in Hr0 as (h & ? & Hh%reward_leaf_hash_inv & _ & _); lia.
Qed.
End RewardTree.

(** ** Lemmas: plans *)

Lemma allocate_pro_rata_spec weights pot :
  dict_wf weights → 0 < pot → filter (λ kv : string * Z, 0 < kv.2) (weights : list (string * Z)) ≠ [] →
  ∃ alloc, allocate_pro_rata weights pot = Ok alloc ∧
           allocation_ok (filter (λ kv : string * Z, 0 < kv.2) (weights : list (string * Z))) pot alloc.
Proof.
  intros Hwf Hpot Hne. unfold allocate_pro_rata.
  replace (pot <? 0) with false by lia. replace (pot =? 0) with false by lia.
  simpl. rewrite bool_decide_false by done. simpl.
  apply allocate_loop_spec; [| done | | done | reflexivity].
  - eapply sublist_NoDup; [exact Hwf|]. apply fmap_sublist, sublist_filter.
  - by intros a w [Ha _]%list_elem_of_filter.
Qed.

Lemma allocate_pro_rata_loop (weights : dict string Z) pot :
  (∀ a v, (a, v) ∈ weights → 0 < v) → weights ≠ [] → 0 < pot →
  allocate_pro_rata weights pot = allocate_loop (length weights) weights pot.
Proof.
  intros Hpos Hne Hpot. unfold allocate_pro_rata.
  replace (pot <? 0) with false by lia. replace (pot =? 0) with false by lia. simpl.
  set (live := filter _ _). assert (live = weights) as ->.
  { apply filter_all, Forall_forall. intros [a v]. apply Hpos. }
  by rewrite bool_decide_false.
Qed.

(** [entries] of a plan. *)
Definition to_entry (kv : string * Z) : RewardEntry := {| account := kv.1; amount_wei := kv.2 |}.

Section Plan.
Context `{Externals}.

Lemma plan_inv eid batches pot consumed ws we plan :
  build_emission_epoch eid batches pot consumed ws we = Ok plan →
  ∃ counted st alloc, scan_inv (lower <$> consumed) ws we batches counted st ∧
    result_foldM (scan_batch (lower <$> consumed) ws we) scan_start batches = Ok st ∧
    sc_contribution st ≠ [] ∧ 0 < pot ∧
    allocate_pro_rata (sc_contribution st) pot = Ok alloc ∧
    allocation_ok (sc_contribution st) pot alloc ∧
    plan = {| plan_epoch_id := eid; plan_pot_wei := pot;
              plan_entries := to_entry <$> sort_by acct_leb alloc;
              plan_consumed_batch_ids := batch_id <$> counted;
              plan_skipped_already_consumed := sc_skipped st;
              plan_contribution_wei := sc_contribution st |}.
Proof.
  unfold build_emission_epoch. intros Hb. inv_bind Hb. rename r into st.
  inv_bind Hb. apply raise_if_Ok, bool_decide_eq_false in Hr0.
  inv_bind Hb. rename r0 into alloc. inv_bind Hb. apply raise_if_Ok, bool_decide_eq_false in Hr2.
  destruct (scan_spec _ _ _ _ _ Hr) as [counted Hi]. simplify_eq.
  exists counted, st, alloc.
  assert (filter (λ kv : string * Z, 0 < kv.2) (sc_contribution st : list (string * Z)) =
          sc_contribution st) as Hpos.
  { apply filter_all, Forall_forall. intros [a v] Ha. by apply (si_pos _ _ _ _ _ _ Hi a). }
  assert (0 < pot) as Hpot.
  { unfold allocate_pro_rata in Hr1. inv_bind Hr1. apply raise_if_Ok in Hr3.
    destruct (decide (pot = 0)) as [->|]; [|lia]. rewrite orb_true_r in Hr1. congruence. }
  destruct (allocate_pro_rata_spec (sc_contribution st) pot) as (alloc' & Ha & Hok);
    [apply Hi | done | by rewrite Hpos |]. rewrite Ha in Hr1. simplify_eq. rewrite Hpos in Hok.
  split_and!; try done. by rewrite (si_consumed _ _ _ _ _ _ Hi).
Qed.

Lemma allocation_entries alloc :
  amount_wei <$> (to_entry <$> sort_by acct_leb alloc) ≡ₚ dict_values alloc ∧
  account <$> (to_entry <$> sort_by acct_leb alloc) ≡ₚ dict_keys alloc.
Proof. split; rewrite sort_by_perm; by rewrite <-list_fmap_compose. Qed.

Lemma allocation_keys live pot alloc a :
  allocation_ok live pot alloc → a ∈ dict_keys alloc → a ∈ dict_keys live.
Proof.
  intros Hok Ha. destruct (alloc_share _ _ _ Hok) as (paid & Hsub & Hk & _). rewrite Hk in Ha.
  by apply (sublist_subseteq _ _ (fmap_sublist fst _ _ Hsub)).
Qed.

(** The entries of a plan are valid rewards. *)
Lemma plan_entries_ok `{!ChecksumLaws} contribution pot alloc :
  allocation_ok contribution pot alloc → pot <= UINT256_MAX →
  (∀ a, a ∈ dict_keys contribution → ∃ p, to_checksum_address p = Ok a) →
  Forall entry_ok (to_entry <$> sort_by acct_leb alloc).
Proof.
  intros Hok Hmax Hk. apply Forall_forall. intros e ([a v] & -> & Hin%elem_of_sort_by)%list_elem_of_fmap.
  unfold entry_ok, to_entry. simpl.
  destruct (Hk a) as [p Hp].
  { eapply allocation_keys; [done|]. apply list_elem_of_fmap. by exists (a, v). }
  split; [by eapply checksum_idemp|]. pose proof (alloc_pos _ _ _ Hok _ _ Hin).
  enough (v <= pot) by lia. rewrite <-(alloc_sum _ _ _ Hok). apply Zsum_elem_le.
  - apply Forall_forall. intros x ([a' x'] & -> & Hx)%list_elem_of_fmap. simpl.
    pose proof (alloc_pos _ _ _ Hok _ _ Hx). lia.
  - apply list_elem_of_fmap. by exists (a, v).
Qed.

Lemma normalize_self es :
  Forall entry_ok es → NoDup (account <$> es) →
  ∃ s, result_foldM normalize_entry ([], []) es = Ok (s, es).
Proof.
  intros Hok Hnd. eexists. apply normalize_fold. exists es. split_and!; [done | | done | | done].
  - rewrite Forall2_same_length_lookup. split; [done|]. intros i x y Hx Hy. simplify_eq.
    rewrite Forall_lookup in Hok. destruct (Hok _ _ Hx). unfold normalized_as; auto.
  - intros a _. apply not_elem_of_nil.
Qed.
End Plan.

(** ** Lemmas: order independence *)

Lemma from_bytes_be_inj a b : length a = length b → from_bytes_be a = from_bytes_be b → a = b.
Proof.
  assert (∀ l, 0 <= from_bytes_be l) as Hnn.
  { intros l. induction l as [|x l IH] using rev_ind; [done|]. rewrite from_bytes_be_snoc.
    pose proof (b2z_range x). lia. }
  revert b. induction a as [|x a IH] using rev_ind; intros b Hl Heq.
  { by destruct b. }
  destruct b as [|y b _] using rev_ind; [rewrite length_app in Hl; simpl in Hl; lia|].
  rewrite !length_app in Hl. simpl in Hl. rewrite !from_bytes_be_snoc in Heq.
  pose proof (b2z_range x). pose proof (b2z_range y).
  assert (from_bytes_be a = from_bytes_be b ∧ b2z x = b2z y) as [Ha Hx] by lia.
  f_equal; [apply IH; [lia | done]|]. f_equal. rewrite <-(z2b_b2z x), <-(z2b_b2z y). by f_equal.
Qed.

Lemma account_num_inj `{ChecksumLaws} a b p q :
  to_checksum_address p = Ok a → to_checksum_address q = Ok b → account_num a = account_num b → a = b.
Proof.
  intros Ha Hb Heq. eapply checksum_inj; [exact Ha | exact Hb |].
  destruct (checksum_hex _ _ Ha) as (x & Hx & Hxa & _), (checksum_hex _ _ Hb) as (y & Hy & Hyb & _).
  unfold account_num in Heq. rewrite Hxa, Hyb in *. f_equal. simpl in Heq.
  apply from_bytes_be_inj; [congruence | done].
Qed.

(** Sorting accounts numerically forgets their order. *)
Lemma sort_accounts_perm `{ChecksumLaws} (d1 d2 : dict string Z) :
  (∀ a, a ∈ dict_keys d1 → ∃ p, to_checksum_address p = Ok a) → dict_wf d1 →
  d1 ≡ₚ d2 → sort_by acct_leb d1 = sort_by acct_leb d2.
Proof.
  intros Hk Hwf. apply sort_by_unique.
  - intros x y. unfold acct_leb. lia.
  - intros x y z. unfold acct_leb. lia.
  - intros [a v] [b w] Ha Hb H1 H2. unfold acct_leb in *. simpl in *.
    destruct (Hk a) as [p Hp]; [apply list_elem_of_fmap; by exists (a, v)|].
    destruct (Hk b) as [q Hq]; [apply list_elem_of_fmap; by exists (b, w)|].
    assert (a = b) as -> by (eapply account_num_inj; [exact Hp | exact Hq | lia]).
    apply (elem_dict_get _ _ _ Hwf) in Ha, Hb. congruence.
Qed.

(** When no batch id repeats, the batches counted are the eligible ones. *)
Lemma counted_perm `{Externals} consumed ws we bs1 bs2 c1 c2 st1 st2 :
  scan_inv consumed ws we bs1 c1 st1 → scan_inv consumed ws we bs2 c2 st2 →
  bs1 ≡ₚ bs2 → NoDup (bid <$> bs1) → c1 ≡ₚ c2.
Proof.
  intros H1 H2 Hp Hnd.
  assert (∀ bs c st, scan_inv consumed ws we bs c st → NoDup (bid <$> bs) →
            NoDup c ∧ ∀ b, b ∈ c ↔ b ∈ bs ∧ eligible consumed ws we b) as Hc.
  { intros bs c st Hi Hn. split; [eapply NoDup_fmap_1; apply (si_ids _ _ _ _ _ _ Hi)|].
    intros b. split.
    - intros Hb. split; [by apply (sublist_subseteq _ _ (si_sub _ _ _ _ _ _ Hi)) |].
      by apply (si_counted _ _ _ _ _ _ Hi).
    - intros [Hb He]. pose proof (si_all _ _ _ _ _ _ Hi b Hb He) as (b' & Heq & Hb')%list_elem_of_fmap.
      enough (b = b') as -> by done.
      apply (sublist_subseteq _ _ (si_sub _ _ _ _ _ _ Hi)) in Hb'.
      apply list_elem_of_lookup in Hb as [i Hi'], Hb' as [j Hj].
      rewrite NoDup_alt in Hn.
      enough (i = j) by congruence. eapply Hn; rewrite list_lookup_fmap, ?Hi', ?Hj; simpl; [done|].
      by f_equal. }
  destruct (Hc _ _ _ H1 Hnd) as [Hn1 He1].
  destruct (Hc _ _ _ H2) as [Hn2 He2]; [by rewrite <-Hp|].
  apply NoDup_Permutation; [done..|]. intros b. by rewrite He1, He2, Hp.
Qed.

(** ** Claims *)

(** C11 The emission split is exact: [allocate_pro_rata] rejects a negative pot,
    gives the empty allocation when there is no pot or no positive weight, and
    otherwise its loop ends (at most one round per recipient) with an allocation
    whose shares are all positive, belong to positive-weight accounts and sum to
    the pot, wei for wei; each paid account gets its exact proportional share
    among the paid ones rounded down, or one wei more, and an account of larger
    weight never gets less than one of smaller weight. *)
Theorem allocate_exact weights pot :
  dict_wf weights →
  let live := filter (λ kv : string * Z, 0 < kv.2) (weights : list (string * Z)) in
  (pot < 0 → allocate_pro_rata weights pot = Err ValueError) ∧
  (0 <= pot → live = [] ∨ pot = 0 → allocate_pro_rata weights pot = Ok []) ∧
  (0 < pot → live ≠ [] →
     ∃ alloc, allocate_pro_rata weights pot = Ok alloc ∧ allocation_ok live pot alloc).
Proof.
  intros Hwf live. split_and!.
  - intros Hp. unfold allocate_pro_rata. by replace (pot <? 0) with true by lia.
  - intros Hp Hor. unfold allocate_pro_rata. replace (pot <? 0) with false by lia. simpl.
    assert (bool_decide (live = []) || (pot =? 0) = true) as Hg.
    { destruct Hor as [Hl|Hl]; [by rewrite bool_decide_true | by rewrite Hl, orb_true_r]. }
    transitivity (if bool_decide (live = []) || (pot =? 0) then Ok []
                  else allocate_loop (length live) live pot); [reflexivity | by rewrite Hg].
  - intros Hp Hne. by apply allocate_pro_rata_spec.
Qed.

(** Attribution is exact and happens once: a plan counts a list of batches that
    all lie in the window and were not consumed before, each batch id (compared
    without case) once, and every such id of the input; it reports exactly those
    as consumed; an account's contribution is the sum of the positive settled
    values of the counted batches it provided; the entries sum to the pot and
    every entry is positive and goes to a contributing account. *)
Theorem plan_attribution `{Externals} eid batches pot consumed ws we plan :
  build_emission_epoch eid batches pot consumed ws we = Ok plan →
  ∃ counted,
    counted `sublist_of` batches ∧ NoDup (bid <$> counted) ∧
    (∀ b, b ∈ counted → eligible (lower <$> consumed) ws we b) ∧
    (∀ b, b ∈ batches → eligible (lower <$> consumed) ws we b → bid b ∈ bid <$> counted) ∧
    plan_consumed_batch_ids plan = batch_id <$> counted ∧
    (∀ a, default 0 (dict_get a (plan_contribution_wei plan)) = Zsum (value_for a <$> counted)) ∧
    total_allocated_wei plan = pot ∧ NoDup (account <$> plan_entries plan) ∧
    (∀ e, e ∈ plan_entries plan →
       0 < amount_wei e ∧ 0 < default 0 (dict_get (account e) (plan_contribution_wei plan))).
Proof.
  intros Hb. destruct (plan_inv _ _ _ _ _ _ _ Hb) as (counted & st & alloc & Hi & _ & _ & _ & _ & Hok & ->).
  exists counted. destruct (allocation_entries alloc) as [Hv Hk].
  destruct Hi. unfold total_allocated_wei. simpl. split_and!; try done.
  - rewrite Hv. by apply (alloc_sum _ _ _ Hok).
  - rewrite Hk. apply (alloc_wf _ _ _ Hok).
  - intros e ([a v] & -> & Hin%elem_of_sort_by)%list_elem_of_fmap. simpl.
    split; [by apply (alloc_pos _ _ _ Hok a)|].
    assert (a ∈ dict_keys (sc_contribution st)) as ([a' w] & -> & Hw)%list_elem_of_fmap.
    { eapply allocation_keys; [done|]. apply list_elem_of_fmap. by exists (a, v). }
    simpl. rewrite (elem_dict_get _ _ _ si_wf Hw). by apply (si_pos a').
Qed.

(** Every plan can be published and claimed: for an epoch id and a pot that fit
    in a uint256, [plan_to_reward_epoch] succeeds, reserves exactly the pot, keeps
    the plan's entries, and every one of them verifies with the proof the epoch
    hands out, under every spelling of its account. *)
Theorem plan_publishable `{ChecksumLaws} eid batches pot consumed ws we plan :
  build_emission_epoch eid batches pot consumed ws we = Ok plan →
  0 <= eid <= UINT256_MAX → pot <= UINT256_MAX →
  ∃ ep, plan_to_reward_epoch plan = Ok ep ∧ re_total_amount_wei ep = pot ∧
    re_entries ep ≡ₚ plan_entries plan ∧
    ∀ e a, e ∈ plan_entries plan → to_checksum_address a = Ok (account e) →
      ∃ p, epoch_proof ep a = Ok p ∧
           verify_reward_proof eid a (amount_wei e) p (re_merkle_root ep) = Ok true.
Proof.
  intros Hb He Hmax.
  destruct (plan_inv _ _ _ _ _ _ _ Hb) as (counted & st & alloc & Hi & _ & _ & Hpot & _ & Hok & ->).
  unfold plan_to_reward_epoch. simpl. destruct (allocation_entries alloc) as [Hv Hk].
  set (es := to_entry <$> sort_by acct_leb alloc) in *.
  assert (Forall entry_ok es) as Hes.
  { eapply plan_entries_ok; [done | done |]. apply (si_keys _ _ _ _ _ _ Hi). }
  assert (NoDup (account <$> es)) as Hnd by (rewrite Hk; apply (alloc_wf _ _ _ Hok)).
  assert (Zsum (amount_wei <$> es) = pot) as Hsum by (rewrite Hv; apply (alloc_sum _ _ _ Hok)).
  destruct (build_reward_epoch_ok eid es es) as (ep & Hep & _ & Hent & Htot & _ & _ & Hpr); try done.
  { intros Hnil. rewrite Hnil in Hsum. by rewrite <-Hsum in Hpot. }
  { by apply normalize_self. }
  exists ep. split_and!; [done | congruence | rewrite Hent; apply sort_by_perm |].
  intros e a Hin Ha. destruct (Hpr e Hin) as (p & Hp & Hver). exists p.
  unfold epoch_proof. rewrite Ha. simpl. rewrite Hp. split; [done|].
  rewrite Forall_forall in Hes. destruct (Hes e Hin) as [_ Hrange].
  unfold verify_reward_proof. rewrite (reward_leaf_hash_ok _ _ (account e)) by (done || lia).
  simpl. destruct e; simpl in *. by rewrite Hver.
Qed.

(** Independent rebuilding: two parties that plan the same epoch from the same
    finalized batches (no batch id twice), seen in any order, get the same
    entries, hence the same reward tree and root. *)
Theorem plan_order_independent `{ChecksumLaws} eid bs1 bs2 pot consumed ws we p1 p2 :
  bs1 ≡ₚ bs2 → NoDup (bid <$> bs1) →
  build_emission_epoch eid bs1 pot consumed ws we = Ok p1 →
  build_emission_epoch eid bs2 pot consumed ws we = Ok p2 →
  plan_entries p1 = plan_entries p2 ∧ plan_to_reward_epoch p1 = plan_to_reward_epoch p2 ∧
  plan_consumed_batch_ids p1 ≡ₚ plan_consumed_batch_ids p2.
Proof.
  intros Hp Hnd H1 H2.
  destruct (plan_inv _ _ _ _ _ _ _ H1) as (c1 & st1 & al1 & Hi1 & _ & Hne & Hpot & Ha1 & Hok1 & ->).
  destruct (plan_inv _ _ _ _ _ _ _ H2) as (c2 & st2 & al2 & Hi2 & _ & _ & _ & Ha2 & Hok2 & ->).
  assert (c1 ≡ₚ c2) as Hc by (eapply counted_perm; eassumption).
  assert (sc_contribution st1 ≡ₚ sc_contribution st2) as Hcon.
  { assert (∀ a, default 0 (dict_get a (sc_contribution st1)) =
                 default 0 (dict_get a (sc_contribution st2))) as Hg.
    { intros a. rewrite (si_value _ _ _ _ _ _ Hi1), (si_value _ _ _ _ _ _ Hi2). by rewrite Hc. }
    apply dict_get_perm; [apply Hi1 | apply Hi2 |]. intros k v. specialize (Hg k).
    split; intros E; rewrite E in Hg; simpl in Hg; apply dict_get_elem in E.
    - apply (si_pos _ _ _ _ _ _ Hi1) in E. destruct (dict_get k _); simpl in Hg; [by subst | lia].
    - apply (si_pos _ _ _ _ _ _ Hi2) in E. destruct (dict_get k _); simpl in Hg; [by subst | lia]. }
  assert (al1 ≡ₚ al2) as Hal.
  { assert (sc_contribution st2 ≠ []) as Hne2.
    { intros E. rewrite E in Hcon. by apply Permutation_nil_r in Hcon. }
    rewrite allocate_pro_rata_loop in Ha1 by (done || apply (si_pos _ _ _ _ _ _ Hi1)).
    rewrite allocate_pro_rata_loop in Ha2 by (done || apply (si_pos _ _ _ _ _ _ Hi2)).
    destruct (allocate_loop_perm (length (sc_contribution st1))
      (sc_contribution st1) (sc_contribution st2) pot) as (x & y & Hx & Hy & Hxy); try done.
    - apply Hi1.
    - apply (si_pos _ _ _ _ _ _ Hi1).
    - rewrite Hcon in Hy. congruence. }
  assert (sort_by acct_leb al1 = sort_by acct_leb al2) as Hs.
  { apply sort_accounts_perm; [| apply (alloc_wf _ _ _ Hok1) | done].
    intros a Ha. apply (si_keys _ _ _ _ _ _ Hi1). by eapply allocation_keys. }
  unfold plan_to_reward_epoch. simpl. rewrite Hs. split_and!; [done..|]. by rewrite Hc.
Qed.

(** The byte strings hashed to build the reward tree of [entries] and to check a
    proof for [e] in epoch [epoch_id]. *)
Definition reward_inputs `{Externals} (ep : RewardEpoch) (epoch_id : Z) (e : RewardEntry)
    (proof : list bytes) : list bytes :=
  let pre := λ n x, [reward_preimage n x; keccak (reward_preimage n x)] in
  pre epoch_id e ++ (re_entries ep ≫= pre (re_epoch_id ep)) ++
  tree_inputs (length (re_entries ep)) (re_leaf_hashes ep) ++
  fold_inputs proof (keccak (keccak (reward_preimage epoch_id e))).

(** Two leaf preimages are equal only for one epoch, account and amount. *)
Lemma reward_preimage_inj `{AbiLaws, !ChecksumLaws} n m a c amount x :
  to_checksum_address a = Ok c → entry_ok x →
  0 <= n <= UINT256_MAX → 0 <= m <= UINT256_MAX → 0 <= amount <= UINT256_MAX →
  reward_preimage n {| account := c; amount_wei := amount |} = reward_preimage m x →
  n = m ∧ {| account := c; amount_wei := amount |} = x.
Proof.
  intros Ha [Hxa Hxv] Hn Hm Hamount Heq. unfold UINT256_MAX in *.
  apply abi_encode_equiv in Heq.
  - apply Forall2_cons in Heq as [He1 [He2 [He3 _]%Forall2_cons]%Forall2_cons]. simpl in *.
    injection He1 as He1. injection He3 as He3. split; [done|].
    assert (c = account x) as -> by (eapply checksum_inj; [exact Ha | exact Hxa | done]).
    rewrite He3. by destruct x.
  - unfold reward_leaf_values. simpl.
    destruct (checksum_hex _ _ Ha) as (b1 & Hl1 & Hb1 & _), (checksum_hex _ _ Hxa) as (b2 & Hl2 & Hb2 & _).
    repeat constructor; simpl; eauto; lia.
Qed.

(** A proof folding to the root of the epoch's tree starts at the hash of one of
    its leaves. *)
Lemma folded_leaf_member `{KeccakLaws} ep epoch_id e proof :
  let leaf := keccak (keccak (reward_preimage epoch_id e)) in
  re_leaf_hashes ep = (λ x, keccak (keccak (reward_preimage (re_epoch_id ep) x))) <$> re_entries ep →
  Forall (λ s, length s = 32%nat) proof →
  no_collision (reward_inputs ep epoch_id e proof) →
  fold_left hash_pair proof leaf ∈ reduce_layers (length (re_entries ep)) (re_leaf_hashes ep) →
  ∃ x, x ∈ re_entries ep ∧ reward_preimage epoch_id e = reward_preimage (re_epoch_id ep) x.
Proof.
  intros leaf Hleaves H32 Hinj Hfold.
  assert (∀ x, x ∈ re_entries ep →
            [reward_preimage (re_epoch_id ep) x; keccak (reward_preimage (re_epoch_id ep) x)]
              ⊆ reward_inputs ep epoch_id e proof) as Hpre.
  { intros x Hx y Hy. unfold reward_inputs. apply elem_of_app; right; apply elem_of_app; left.
    apply list_elem_of_bind. by exists x. }
  assert (leaf ∈ re_leaf_hashes ep) as Hin.
  { eapply (fold_sound (λ x, x ∈ reward_inputs ep epoch_id e proof) Hinj (length (re_entries ep))
              (keccak (reward_preimage epoch_id e))); [| | | | exact H32 | exact Hfold].
    - split_and!; [done | unfold reward_inputs; set_solver | by rewrite keccak_length].
    - apply Forall_forall. intros x Hx. unfold reward_inputs. set_solver.
    - apply Forall_forall. intros x Hx. unfold reward_inputs. set_solver.
    - rewrite Hleaves. apply Forall_forall. intros x (x' & -> & Hx')%list_elem_of_fmap.
      exists (keccak (reward_preimage (re_epoch_id ep) x')).
      split_and!; [done | apply (Hpre x'); [done | set_solver] | by rewrite keccak_length]. }
  rewrite Hleaves in Hin. apply list_elem_of_fmap in Hin as (x & Heq & Hx). exists x. split; [done|].
  apply Hinj in Heq; [| unfold reward_inputs; set_solver | apply (Hpre x); [done | set_solver]].
  apply Hinj in Heq; [done | unfold reward_inputs; set_solver | apply (Hpre x); [done | set_solver]].
Qed.

(** C10 Soundness of reward claims: if keccak has no collision among the byte
    strings hashed, a proof of 32-byte siblings that [verify_reward_proof] accepts
    against the root of a built epoch is for that epoch's own id and for an entry
    of it with exactly that amount: neither another epoch's proof, nor another
    amount, nor an internal node of the tree is claimable. *)
Theorem reward_proof_sound `{KeccakLaws, !AbiLaws, !ChecksumLaws} eid entries ep epoch_id a amount proof c :
  build_reward_epoch eid entries = Ok ep →
  to_checksum_address a = Ok c →
  Forall (λ s, length s = 32%nat) proof →
  no_collision (reward_inputs ep epoch_id {| account := c; amount_wei := amount |} proof) →
  verify_reward_proof epoch_id a amount proof (re_merkle_root ep) = Ok true →
  epoch_id = eid ∧ {| account := c; amount_wei := amount |} ∈ re_entries ep.
Proof.
  intros Hb Ha H32 Hinj Hv.
  destruct (build_reward_epoch_inv _ _ _ Hb) as (norm & s & Hfold & He & Hne & _ & Hok & Hnd).
  destruct (build_reward_epoch_ok eid entries norm He Hne Hok Hnd) as
    (ep' & Hb' & Hid & Hent & _ & Hleaves & Hroot & _); [by exists s|].
  rewrite Hb in Hb'. injection Hb' as <-.
  unfold verify_reward_proof in Hv. inv_bind Hv. apply reward_leaf_hash_inv in Hr as (Hei & Ham & c' & Hc & ->).
  rewrite Ha in Hc. injection Hc as <-. injection Hv as Hv. apply bool_decide_eq_true in Hv.
  destruct (build_merkle_root_Ok (re_leaf_hashes ep)) as (r & Hr & Hred).
  { by intros Hnil; rewrite Hnil in Hroot. }
  rewrite Hroot in Hr. injection Hr as <-. rewrite Hleaves, length_fmap, <-Hleaves in Hred.
  destruct (folded_leaf_member ep epoch_id {| account := c; amount_wei := amount |} proof) as (x & Hx & Heq);
    [by rewrite Hid | done | done | by rewrite Hred, Hv; left |].
  assert (Forall entry_ok (re_entries ep)) as Hok' by (rewrite Hent; by rewrite sort_by_perm).
  rewrite Forall_forall in Hok'. rewrite Hid in Heq.
  destruct (reward_preimage_inj epoch_id eid a c amount x) as [-> ->]; auto.
Qed.

(** What a row adds to the account [a]. *)
Definition row_for `{Externals} (a : string) (row : string * Z) : Z :=
  match to_checksum_address row.1 with
  | Ok c => if bool_decide (c = a) then row.2 else 0
  | Err _ => 0
  end.

Lemma aggregate_fold `{Externals} rows d d' :
  result_foldM (λ d (row : string * Z),
                  a ← to_checksum_address row.1; Ok (dict_add a row.2 d)) d rows = Ok d' →
  dict_wf d → dict_wf d' ∧
  ∀ a, default 0 (dict_get a d') = default 0 (dict_get a d) + Zsum (row_for a <$> rows).
Proof.
  revert d. induction rows as [|row rows IH]; intros d Hf Hwf; simpl in Hf.
  - simplify_eq. split; [done|]. intros a. csimpl. rewrite Zsum_nil. lia.
  - apply bind_Ok_inv in Hf as (d1 & Hd & Hf). apply bind_Ok_inv in Hd as (c & Hc & Hd).
    injection Hd as <-. destruct (IH _ Hf) as [Hw Hg]; [by apply dict_wf_set|].
    split; [done|]. intros a. rewrite Hg. csimpl. rewrite Zsum_cons. unfold row_for at 2. rewrite Hc.
    unfold dict_add. rewrite dict_get_set. case_decide as Ha; simpl.
    + subst. rewrite bool_decide_true by done. lia.
    + rewrite bool_decide_false by done. lia.
Qed.

(** Aggregation loses nothing: [aggregate_entitlements] gives one entry per
    account, and an account has the entry [v] exactly when [v] is positive and is
    the sum of the amounts of that account's rows, whatever spelling each row
    uses; the accounts come in increasing numeric order. *)
Theorem aggregate_exact `{ChecksumLaws} rows es :
  aggregate_entitlements rows = Ok es →
  NoDup (account <$> es) ∧
  (∀ a v, {| account := a; amount_wei := v |} ∈ es ↔ 0 < v ∧ v = Zsum (row_for a <$> rows)) ∧
  StronglySorted (λ x y, account_num (account x) <= account_num (account y)) es.
Proof.
  unfold aggregate_entitlements. intros Ha. apply bind_Ok_inv in Ha as (totals & Hf & Ha).
  injection Ha as <-. destruct (aggregate_fold _ _ _ Hf) as [Hwf Hg]; [constructor|].
  set (kept := filter (λ kv : string * Z, 0 < kv.2) (sort_by acct_leb totals)).
  assert (∀ a v, (a, v) ∈ kept ↔ 0 < v ∧ dict_get a totals = Some v) as Hk.
  { intros a v. unfold kept. rewrite list_elem_of_filter, elem_of_sort_by. simpl. split; intros [? Hin].
    - split; [done|]. by apply elem_dict_get.
    - split; [done|]. by apply dict_get_elem. }
  split_and!.
  - rewrite <-list_fmap_compose. simpl. eapply (sublist_NoDup _ (sort_by acct_leb totals).*1).
    + by rewrite sort_by_perm.
    + apply (fmap_sublist fst), sublist_filter.
  - intros a v. rewrite list_elem_of_fmap. specialize (Hg a). simpl in Hg. split.
    + intros ([a' v'] & Heq & [Hv Hin]%Hk). simplify_eq/=. rewrite Hin in Hg. simpl in Hg. lia.
    + intros [Hv Heq]. exists (a, v). split; [done|]. apply Hk. split; [done|].
      rewrite <-Heq in Hg. destruct (dict_get a totals); simpl in Hg; [by subst | lia].
  - assert (sorted_by acct_leb (sort_by acct_leb totals)) as Hs.
    { apply sort_by_sorted; unfold acct_leb; intros; lia. }
    unfold sorted_by in Hs. fold kept. unfold kept. clear -Hs.
    induction Hs as [|x l Hl IH Hx]; [constructor|].
    destruct (decide (0 < x.2)) as [Hp|Hp].
    + rewrite filter_cons_True by done. csimpl. constructor; [done|].
      rewrite Forall_fmap. apply Forall_forall. intros y [_ Hy]%list_elem_of_filter.
      rewrite Forall_forall in Hx. apply Hx in Hy. unfold acct_leb in Hy. simpl in *. lia.
    + by rewrite filter_cons_False.
Qed.

(** ** Witnesses *)

Import Toy.

Definition alice : string := "0x00000000000000000000000000000000000000aa".
Definition bob : string := "0x00000000000000000000000000000000000000bb".
Definition carol : string := "0x00000000000000000000000000000000000000cc".

Definition sample_weights : dict string Z := [(alice, 5); (bob, 3); (carol, 0); ("x", 1)].

Definition sample_batches : list FinalizedBatch :=
  [{| batch_id := "0xA1"; provider := alice; final_value_wei := 50; finalize_timestamp := 10 |};
   {| batch_id := "0xA2"; provider := bob; final_value_wei := 30; finalize_timestamp := 11 |};
   {| batch_id := "0xA3"; provider := carol; final_value_wei := 0; finalize_timestamp := 12 |};
   {| batch_id := "0xA4"; provider := bob; final_value_wei := 7; finalize_timestamp := 13 |};
   {| batch_id := "0xA5"; provider := carol; final_value_wei := 7; finalize_timestamp := 99 |}].

Definition sample_plan : result EmissionEpochPlan :=
  build_emission_epoch 4 sample_batches 101 ["0xa4"] (Some 10) (Some 99).

Definition sample_plan_value : EmissionEpochPlan :=
  match sample_plan with Ok p => p | Err _ => {| plan_epoch_id := 0; plan_pot_wei := 0;
    plan_entries := []; plan_consumed_batch_ids := []; plan_skipped_already_consumed := [];
    plan_contribution_wei := [] |} end.

Example sample_plan_entries :
  plan_entries sample_plan_value =
    [{| account := alice; amount_wei := 63 |}; {| account := bob; amount_wei := 38 |}] ∧
  plan_consumed_batch_ids sample_plan_value = ["0xA1"; "0xA2"; "0xA3"] ∧
  plan_skipped_already_consumed sample_plan_value = ["0xA4"].
Proof. vm_compute. done. Qed.

Lemma allocate_exact_witness :
  ∃ alloc, allocate_pro_rata sample_weights 10 = Ok alloc ∧
           allocation_ok [(alice, 5); (bob, 3); ("x", 1)] 10 alloc.
Proof.
  destruct (allocate_exact sample_weights 10) as (_ & _ & H).
  - apply (bool_decide_eq_true_1 (NoDup (dict_keys sample_weights))). vm_compute. reflexivity.
  - apply H; [lia | discriminate].
Defined.

Lemma plan_attribution_witness : total_allocated_wei sample_plan_value = 101.
Proof.
  destruct (plan_attribution 4 sample_batches 101 ["0xa4"] (Some 10) (Some 99) sample_plan_value)
    as (counted & _ & _ & _ & _ & _ & _ & H & _).
  - vm_compute. reflexivity.
  - exact H.
Defined.

Lemma plan_publishable_witness :
  ∃ ep, plan_to_reward_epoch sample_plan_value = Ok ep ∧ re_total_amount_wei ep = 101.
Proof.
  destruct (plan_publishable 4 sample_batches 101 ["0xa4"] (Some 10) (Some 99) sample_plan_value)
    as (ep & H1 & H2 & _).
  - vm_compute. reflexivity.
  - unfold UINT256_MAX; lia.
  - unfold UINT256_MAX; lia.
  - exists ep. split; [exact H1 | exact H2].
Defined.

Lemma plan_order_independent_witness :
  ∃ p, build_emission_epoch 4 (reverse sample_batches) 101 ["0xa4"] (Some 10) (Some 99) = Ok p ∧
       plan_entries sample_plan_value = plan_entries p.
Proof.
  eexists. split; [vm_compute; reflexivity|].
  apply (plan_order_independent 4 sample_batches (reverse sample_batches) 101 ["0xa4"] (Some 10) (Some 99)).
  - symmetry. apply reverse_Permutation.
  - apply (bool_decide_eq_true_1 (NoDup (bid <$> sample_batches))). vm_compute. reflexivity.
  - vm_compute. reflexivity.
  - vm_compute. reflexivity.
Defined.

Definition sample_epoch : RewardEpoch :=
  match plan_to_reward_epoch sample_plan_value with
  | Ok ep => ep
  | Err _ => {| re_epoch_id := 0; re_merkle_root := []; re_total_amount_wei := 0; re_entries := [];
                re_leaf_hashes := []; re_proofs := [] |}
  end.

Definition sample_proof : list bytes := match epoch_proof sample_epoch alice with Ok p => p | Err _ => [] end.

Lemma reward_proof_sound_witness :
  4 = 4 ∧ {| account := alice; amount_wei := 63 |} ∈ re_entries sample_epoch.
Proof.
  apply (reward_proof_sound 4 (plan_entries sample_plan_value) sample_epoch 4 alice 63 sample_proof alice).
  - vm_compute. reflexivity.
  - vm_compute. reflexivity.
  - apply (bool_decide_eq_true_1 (Forall (λ s, length s = 32%nat) sample_proof)). vm_compute. reflexivity.
  - apply no_collision_b_correct. vm_compute. reflexivity.
  - vm_compute. reflexivity.
Defined.

Lemma aggregate_exact_witness :
  NoDup (account <$> [{| account := alice; amount_wei := 5 |}; {| account := carol; amount_wei := 2 |}]).
Proof.
  apply (aggregate_exact [(carol, 2); ("0X00000000000000000000000000000000000000AA", 3); (bob, 0); (alice, 2)]).
  vm_compute. reflexivity.
Defined.
