(* ===== verification/Payment.v ===== *)
(** * Payment authorizations and delegations

    Models prsm/settlement/payment_authorization.py (the EIP-712
    [PaymentAuthorization] a requester signs) and
    prsm/settlement/payment_delegation.py (the [PaymentDelegation] a funder signs
    for a relayer, and the check of the two-signature chain).  EIP-712 hashing and
    public-key recovery are third-party and come from the class [Eip712]. *)
From Stdlib Require Import ZArith Lia QArith.
From S2P Require Import PyStd.
From S2P Require Import Externals.
From S2P Require Import Prelude.

#[local] Open Scope string_scope.
#[local] Open Scope list_scope.
#[local] Open Scope Z_scope.

(** ** Payload values

    A payload is a [dict] whose values are text, integers, bytes or [None]. *)
Inductive pval : Type :=
| VStr (s : string)
| VInt (z : Z)
| VBytes (b : bytes)
| VNone.

Definition payload : Type := dict string pval.

Definition hex2 (n : Z) : string := String (hex_digit (n / 16)) (String (hex_digit (n mod 16)) EmptyString).

(** One byte of [repr] of a [bytes] quoted with [q]. *)
Definition repr_byte (q : Z) (b : byte) : string :=
  let n := b2z b in
  let c := ascii_of_N (Z.to_N n) in
  if (n =? 92) || (n =? q) then String "\" (String c EmptyString)
  else if n =? 9 then "\t" else if n =? 10 then "\n" else if n =? 13 then "\r"
  else if (n <? 32) || (126 <? n) then "\x" +:+ hex2 n
  else String c EmptyString.

(** [str(b)] of a [bytes]: single quotes, unless it holds one and no double one. *)
Definition repr_bytes (b : bytes) : string :=
  let has n := existsb (λ x, b2z x =? n) b in
  let q := if has 39 && negb (has 34) then 34 else 39 in
  let quote := String (ascii_of_N (Z.to_N q)) EmptyString in
  "b" +:+ quote +:+ foldr (λ x acc, repr_byte q x +:+ acc) "" b +:+ quote.

(** [str(v)] *)
Definition py_str (v : pval) : string :=
  match v with
  | VStr s => s
  | VInt z => str_of_int z
  | VBytes b => repr_bytes b
  | VNone => "None"
  end.

(** [int(v)] *)
Definition py_int (v : pval) : result Z :=
  match v with
  | VInt z => Ok z
  | VStr s => of_option ValueError (int_of_str s)
  | VBytes b => of_option ValueError (int_of_str (string_of_list_byte b))
  | VNone => Err TypeError
  end.

Definition truthy (v : pval) : bool :=
  match v with
  | VStr s => str_nonempty s
  | VInt z => negb (z =? 0)
  | VBytes b => negb (bool_decide (b = []))
  | VNone => false
  end.

Definition is_str (v : pval) : bool := match v with VStr _ => true | _ => false end.

(** [p[k]] *)
Definition pget (k : string) (p : payload) : result pval := of_option KeyError (dict_get k p).
(** [str(p.get(k, ""))] *)
Definition pget_str (k : string) (p : payload) : string := py_str (default (VStr "") (dict_get k p)).
(** [str(p.get(k) or "")] *)
Definition pget_or_empty (k : string) (p : payload) : string :=
  match dict_get k p with Some v => if truthy v then py_str v else "" | None => "" end.

(** [int(p[k])] *)
Definition pget_int (k : string) (p : payload) : result Z := v ← pget k p; py_int v.

(** ** Typed data *)

Definition DEFAULT_CHAIN_ID : Z := 8453.
Definition DOMAIN_NAME : string := "PRSM-Payment".
Definition DOMAIN_VERSION : string := "v1".

(** A value of the EIP-712 message. *)
Inductive td_value : Type :=
| TdAddress (s : string)
| TdUint256 (z : Z)
| TdBytes32 (b : bytes).

Record TypedData : Type := {
  td_types : list (string * list (string * string));
  td_primary : string;
  td_domain : string * string * Z;
  td_message : list (string * td_value)
}.

Definition EIP712Domain : string * list (string * string) :=
  ("EIP712Domain", [("name", "string"); ("version", "string"); ("chainId", "uint256")]).

(** [_to_bytes32] *)
Definition to_bytes32 (value : pval) : result bytes :=
  raw ← match value with
        | VBytes b => Ok b
        | VStr s => of_option ValueError (fromhex (if starts_0x s then sdrop 2 s else s))
        | _ => Err ValueError
        end;
  _ ← raise_if (negb (zlen raw =? 32)) ValueError;
  Ok raw.

Definition REQUIRED : list string :=
  ["requester"; "provider"; "max_spend_wei"; "job_nonce"; "expiry_unix"; "request_hash"].

Definition has_key (p : payload) (k : string) : bool := bool_decide (is_Some (dict_get k p)).

(** [_build_typed_data] of payment_authorization.py *)
Definition build_typed_data (p : payload) (chain_id : Z) : result TypedData :=
  _ ← raise_if (negb (forallb (has_key p) REQUIRED)) ValueError;
  requester ← pget "requester" p;
  _ ← raise_if (negb (is_str requester)) ValueError;
  provider ← pget "provider" p;
  _ ← raise_if (negb (is_str provider)) ValueError;
  max_spend_wei ← pget_int "max_spend_wei" p;
  job_nonce ← pget "job_nonce" p ≫= to_bytes32;
  expiry_unix ← pget_int "expiry_unix" p;
  request_hash ← pget "request_hash" p ≫= to_bytes32;
  Ok {|
    td_types := [EIP712Domain;
      ("PaymentAuthorization",
       [("requester", "address"); ("provider", "address"); ("max_spend_wei", "uint256");
        ("job_nonce", "bytes32"); ("expiry_unix", "uint256"); ("request_hash", "bytes32")])];
    td_primary := "PaymentAuthorization";
    td_domain := (DOMAIN_NAME, DOMAIN_VERSION, chain_id);
    td_message :=
      [("requester", TdAddress (py_str requester)); ("provider", TdAddress (py_str provider));
       ("max_spend_wei", TdUint256 max_spend_wei); ("job_nonce", TdBytes32 job_nonce);
       ("expiry_unix", TdUint256 expiry_unix); ("request_hash", TdBytes32 request_hash)]
  |}.

Definition DELEGATION_REQUIRED : list string :=
  ["requester"; "relayer"; "provider"; "max_total_spend_wei"; "delegation_nonce"; "expiry_unix"].

(** [_build_typed_data] of payment_delegation.py *)
Definition delegation_typed_data (p : payload) (chain_id : Z) : result TypedData :=
  _ ← raise_if (negb (forallb (has_key p) DELEGATION_REQUIRED)) ValueError;
  requester ← pget "requester" p;
  _ ← raise_if (negb (is_str requester)) ValueError;
  relayer ← pget "relayer" p;
  _ ← raise_if (negb (is_str relayer)) ValueError;
  provider ← pget "provider" p;
  _ ← raise_if (negb (is_str provider)) ValueError;
  max_total_spend_wei ← pget_int "max_total_spend_wei" p;
  delegation_nonce ← pget "delegation_nonce" p ≫= to_bytes32;
  expiry_unix ← pget_int "expiry_unix" p;
  Ok {|
    td_types := [EIP712Domain;
      ("PaymentDelegation",
       [("requester", "address"); ("relayer", "address"); ("provider", "address");
        ("max_total_spend_wei", "uint256"); ("delegation_nonce", "bytes32");
        ("expiry_unix", "uint256")])];
    td_primary := "PaymentDelegation";
    td_domain := (DOMAIN_NAME, DOMAIN_VERSION, chain_id);
    td_message :=
      [("requester", TdAddress (py_str requester)); ("relayer", TdAddress (py_str relayer));
       ("provider", TdAddress (py_str provider));
       ("max_total_spend_wei", TdUint256 max_total_spend_wei);
       ("delegation_nonce", TdBytes32 delegation_nonce); ("expiry_unix", TdUint256 expiry_unix)]
  |}.

(** ** Signatures *)

(** [eth_account]: a signable message is its header and body. *)
Class Eip712 : Type := {
  encode_typed_data : TypedData → result (bytes * bytes);
  recover_message : bytes * bytes → bytes → result string;
  (** [Account.sign_message(signable, private_key).signature] *)
  sign_message : bytes * bytes → bytes → bytes;
  (** the address of a private key *)
  account_of : bytes → string
}.

(** ECDSA recovery gives back the address of the key that signed; a signature
    has 65 bytes. *)
Class Eip712Laws `{Eip712} : Prop := {
  recover_sign : ∀ m k, recover_message m (sign_message m k) = Ok (account_of k);
  sign_length : ∀ m k, length (sign_message m k) = 65%nat
}.

(** The 65 bytes of a [signature] argument: text is stripped and may have a 0x. *)
Definition signature_bytes (signature : pval) : result bytes :=
  sig_bytes ← match signature with
              | VStr t =>
                  let s := strip t in
                  let s := if starts_0x s then s else "0x" +:+ s in
                  of_option InvalidSignatureFormat (fromhex (sdrop 2 s))
              | VBytes b => Ok b
              | _ => Err InvalidSignatureFormat
              end;
  _ ← raise_if (negb (zlen sig_bytes =? 65)) InvalidSignatureFormat;
  Ok sig_bytes.

Section Signatures.
Context `{Externals, Eip712}.

Definition typed_data_hash (typed : result TypedData) : result bytes :=
  td ← typed;
  signable ← encode_typed_data td;
  Ok (keccak ([x19; x01] ++ signable.1 ++ signable.2)).

Definition encode_payment_typed_data_hash (p : payload) (chain_id : Z) : result bytes :=
  typed_data_hash (build_typed_data p chain_id).
Definition encode_delegation_typed_data_hash (p : payload) (chain_id : Z) : result bytes :=
  typed_data_hash (delegation_typed_data p chain_id).

Definition sign_payment_authorization (p : payload) (private_key : bytes) (chain_id : Z)
  : result bytes :=
  td ← build_typed_data p chain_id;
  signable ← encode_typed_data td;
  Ok (sign_message signable private_key).
Definition sign_payment_delegation (p : payload) (private_key : bytes) (chain_id : Z)
  : result bytes :=
  td ← delegation_typed_data p chain_id;
  signable ← encode_typed_data td;
  Ok (sign_message signable private_key).

Definition verify_payment_authorization_signature (p : payload) (signature : pval) (chain_id : Z)
  : result string :=
  sig_bytes ← signature_bytes signature;
  td ← build_typed_data p chain_id;
  signable ← encode_typed_data td;
  recover_message signable sig_bytes.

Definition verify_payment_delegation_signature (p : payload) (signature : pval) (chain_id : Z)
  : result string :=
  sig_bytes ← signature_bytes signature;
  td ← delegation_typed_data p chain_id;
  signable ← encode_typed_data td;
  recover_message signable sig_bytes.

(** ** Expiry

    The clock is a float; [int(current)] truncates it. *)
Definition is_expired (p : payload) (now : Q) : result bool :=
  e ← pget_int "expiry_unix" p; Ok (e <? Z.quot (Qnum now) (Zpos (Qden now))).

(** Here the comparison is with the clock itself. *)
Definition is_delegation_expired (p : payload) (now : Q) : result bool :=
  e ← pget_int "expiry_unix" p; Ok (negb (Qle_bool now (inject_Z e))).

(** ** The relayer's two-signature chain

    [now_d] and [now_a] are the two clock readings.  Every [DelegatedAuthError]
    the code raises is that exception here. *)
Definition verify_delegated_authorization (auth : payload) (auth_signature : pval)
    (delegation : payload) (delegation_signature : pval) (chain_id : Z) (now_d now_a : Q)
  : result string :=
  let funder := pget_or_empty "requester" delegation in
  let relayer := pget_or_empty "relayer" delegation in
  let deleg_provider := pget_or_empty "provider" delegation in
  _ ← raise_if (negb (str_nonempty funder) || negb (str_nonempty relayer)) DelegatedAuthError;
  _ ← raise_if (negb (str_nonempty deleg_provider)) DelegatedAuthError;
  deleg_signer ← rethrow (λ e, bool_decide (e = InvalidSignatureFormat)) DelegatedAuthError
                   (verify_payment_delegation_signature delegation delegation_signature chain_id);
  _ ← raise_if (negb (lower deleg_signer =? lower funder)%string) DelegatedAuthError;
  auth_signer ← rethrow (λ e, bool_decide (e = InvalidSignatureFormat)) DelegatedAuthError
                  (verify_payment_authorization_signature auth auth_signature chain_id);
  _ ← raise_if (negb (lower auth_signer =? lower relayer)%string) DelegatedAuthError;
  let auth_requester := pget_or_empty "requester" auth in
  _ ← raise_if (negb (lower auth_requester =? lower funder)%string) DelegatedAuthError;
  let auth_provider := pget_or_empty "provider" auth in
  _ ← raise_if (negb (lower auth_provider =? lower deleg_provider)%string) DelegatedAuthError;
  d_expired ← is_delegation_expired delegation now_d;
  _ ← raise_if d_expired DelegatedAuthError;
  a_expired ← is_expired auth now_a;
  _ ← raise_if a_expired DelegatedAuthError;
  max_spend ← pget_int "max_spend_wei" auth;
  max_total ← pget_int "max_total_spend_wei" delegation;
  _ ← raise_if (max_total <? max_spend) DelegatedAuthError;
  Ok funder.
End Signatures.

(** ** Signing and verifying *)

Lemma hex_not_space c v : hex_val c = Some v → is_str_space c = false.
Proof. destruct c as [[] [] [] [] [] [] [] []]; vm_compute; congruence. Qed.

Lemma no_space_hex b : no_space (hex b) = true.
Proof.
  induction b as [|x b IH]; [done|]. pose proof (b2z_range x). cbn [hex no_space].
  destruct (hex_val_digit (b2z x / 16)) as [H1 _].
  { split; [apply Z.div_pos; lia | apply Z.div_lt_upper_bound; lia]. }
  destruct (hex_val_digit (b2z x mod 16)) as [H2 _]; [apply Z.mod_pos_bound; lia|].
  by rewrite (hex_not_space _ _ H1), (hex_not_space _ _ H2), IH.
Qed.

(** The spellings of a signature that a caller may hand in. *)
Definition spells (signature : pval) (sig : bytes) : Prop :=
  signature = VBytes sig ∨ signature = VStr (hex sig) ∨ signature = VStr ("0x" +:+ hex sig).

Lemma signature_bytes_spells signature sig :
  length sig = 65%nat → spells signature sig → signature_bytes signature = Ok sig.
Proof.
  intros Hl Hs. assert (∀ t, starts_0x (String "0" (String "x" t)) = true) as H0x by (by intros []).
  assert (of_option InvalidSignatureFormat (fromhex (hex sig)) = Ok sig) as Hf by by rewrite fromhex_hex.
  assert (∀ r, r = Ok sig → (sb ← r; _ ← raise_if (negb (zlen sb =? 65)) InvalidSignatureFormat; Ok sb) = Ok sig) as Hlen.
  { intros r ->. simpl. by rewrite Hl. }
  unfold signature_bytes. destruct Hs as [->|[->| ->]]; apply Hlen; [done| |].
  - rewrite strip_no_space by apply no_space_hex. destruct (starts_0x (hex sig)) eqn:Hp; [|done].
    exfalso. unfold starts_0x in Hp. apply prefix_correct in Hp. destruct sig as [|x sig]; [done|].
    cbn [hex] in Hp. simpl in Hp. injection Hp as _ Hx.
    pose proof (hex_val_digit (b2z x mod 16) (Z.mod_pos_bound _ 16 eq_refl)) as [Hv _].
    rewrite Hx in Hv. done.
  - change ("0x" +:+ hex sig) with (String "0" (String "x" (hex sig))).
    rewrite strip_no_space by (cbn [no_space]; apply no_space_hex). rewrite H0x. done.
Qed.

(** Sign and verify: the signature [sign_payment_authorization] makes with a
    key recovers that key's address from the same payload on the same chain, in
    each of the spellings the verifier accepts (raw bytes, hex, 0x and hex); and
    likewise for delegations. *)
Theorem sign_verify_roundtrip `{Eip712Laws} p key chain_id sig signature :
  spells signature sig →
  (sign_payment_authorization p key chain_id = Ok sig →
   verify_payment_authorization_signature p signature chain_id = Ok (account_of key)) ∧
  (sign_payment_delegation p key chain_id = Ok sig →
   verify_payment_delegation_signature p signature chain_id = Ok (account_of key)).
Proof.
  intros Hs. unfold sign_payment_authorization, sign_payment_delegation,
    verify_payment_authorization_signature, verify_payment_delegation_signature.
  split; intros Hsig; apply bind_Ok_inv in Hsig as (td & -> & Hsig);
    apply bind_Ok_inv in Hsig as (m & Hm & Hsig); injection Hsig as <-;
    rewrite (signature_bytes_spells _ _ (sign_length m key) Hs); simpl; rewrite Hm; simpl; apply recover_sign.
Qed.

(** ** A concrete instance *)

Module ToyEip712.
Definition td_bytes (v : td_value) : bytes :=
  match v with
  | TdAddress s => utf8 (lower s)
  | TdUint256 z => be_bytes 32 z
  | TdBytes32 b => b
  end.
Definition pad (n : nat) (b : bytes) : bytes := take n (b ++ replicate n x00).
Definition tag (m : bytes * bytes) (k : bytes) : bytes := Toy.keccak_ (k ++ m.1 ++ m.2).
Definition sign (m : bytes * bytes) (k : bytes) : bytes := pad 20 k ++ tag m (pad 20 k) ++ replicate 13 x00.

#[export] Instance toy_eip712 : Eip712 := {|
  encode_typed_data := λ td,
    Ok (Toy.keccak_ (utf8 (td_primary td) ++ be_bytes 32 (td_domain td).2),
        Toy.keccak_ (flat_map (λ kv : string * td_value, td_bytes kv.2) (td_message td)));
  recover_message := λ m sig,
    if bool_decide (sig = sign m (take 20 sig)) then Ok ("0x" +:+ hex (take 20 sig)) else Err ExternalError;
  sign_message := sign;
  account_of := λ k, "0x" +:+ hex (pad 20 k)
|}.

Lemma pad_length n b : length (pad n b) = n.
Proof. unfold pad. rewrite length_take, length_app, length_replicate. lia. Qed.

Lemma pad_idemp n b : pad n (pad n b) = pad n b.
Proof. unfold pad at 1. rewrite take_app_le, take_ge; rewrite ?pad_length; done. Qed.

#[export] Instance toy_eip712_laws : Eip712Laws.
Proof.
  split.
  - intros m k. simpl. assert (take 20 (sign m k) = pad 20 k) as ->.
    { unfold sign. rewrite take_app_le, take_ge; rewrite ?pad_length; done. }
    rewrite bool_decide_true; [done|]. unfold sign. by rewrite pad_idemp.
  - intros m k. simpl. unfold sign. rewrite !length_app, pad_length, length_replicate.
    unfold tag, Toy.keccak_. by rewrite be_bytes_length.
Qed.
End ToyEip712.

(** ** Witness *)

Import ToyEip712.

Definition sample_key : bytes := pad 20 [x11; x22; x33].
Definition sample_requester : string := "0x" +:+ hex sample_key.
Definition sample_provider : string := "0x00000000000000000000000000000000000000Bb".
Definition hex32 (c : string) : string := String.concat "" (repeat c 32).

Definition sample_authorization (nonce : string) : payload :=
  [("requester", VStr sample_requester); ("provider", VStr sample_provider);
   ("max_spend_wei", VInt 100); ("job_nonce", VStr nonce); ("expiry_unix", VInt 2000);
   ("request_hash", VStr ("0x" +:+ hex32 "ab"))].

Definition sample_signature (nonce : string) : bytes :=
  match sign_payment_authorization (sample_authorization nonce) sample_key DEFAULT_CHAIN_ID with
  | Ok s => s | Err _ => [] end.

Lemma sign_verify_roundtrip_witness :
  verify_payment_authorization_signature (sample_authorization (hex32 "01"))
    (VStr ("0x" +:+ hex (sample_signature (hex32 "01")))) DEFAULT_CHAIN_ID = Ok sample_requester.
Proof.
  assert (Hs : sign_payment_authorization (sample_authorization (hex32 "01")) sample_key DEFAULT_CHAIN_ID =
               Ok (sample_signature (hex32 "01"))) by (vm_compute; reflexivity).
  destruct (sign_verify_roundtrip (sample_authorization (hex32 "01")) sample_key DEFAULT_CHAIN_ID
              (sample_signature (hex32 "01")) (VStr ("0x" +:+ hex (sample_signature (hex32 "01"))))
              (or_intror (or_intror eq_refl))) as [Hv _].
  transitivity (Ok (account_of sample_key)); [exact (Hv Hs) | vm_compute; reflexivity].
Defined.
