(* ===== verification/PaymentStores.v ===== *)
(** * Nonce stores and delegation budgets

    Models the stores of prsm/settlement/payment_authorization_verifier.py
    ([InMemoryNonceStore], [DurableNonceStore]) and of
    prsm/settlement/delegation_budget.py (the two budget stores), the interfaces
    through which the verifiers use them, and the laws both implementations of
    each satisfy. *)
From Stdlib Require Import ZArith Lia.
From S2P Require Import PyStd.
From S2P Require Import Externals.
From S2P Require Import Receipt.
From S2P Require Import Published.
From S2P Require Import Effects.
From S2P Require Import Payment.
From S2P Require Import Prelude.

#[local] Open Scope string_scope.
#[local] Open Scope list_scope.
#[local] Open Scope Z_scope.

(** ** Effects: the two files and the balance reader *)

Inductive pay_request : Type :=
| SaveNonces (state : json)
| SaveBudget (state : json)
| ReadBalance (account : string).

Definition pay_response (e : pay_request) : Type :=
  match e with
  | SaveNonces _ | SaveBudget _ => result unit
  | ReadBalance _ => result Z
  end.

Definition pay : signature := {| request := pay_request; response := pay_response |}.

(** ** Interfaces *)

Class NonceStore (N : Type) : Type := {
  ns_seen : string → N → bool;
  ns_remember : string → M pay N unit
}.

Class BudgetStore (B : Type) : Type := {
  bs_consumed : string → B → Z;
  bs_reserve : string → Z → Z → M pay B bool;
  bs_release : string → Z → M pay B unit
}.

(** ** Nonce stores *)

(** [_key] of the nonce stores *)
Definition nonce_key (nonce : string) : string := lower nonce.

Record InMemoryNonceStore : Type := { im_seen : list string }.
Record DurableNonceStore : Type := { dn_seen : list string }.

#[export] Instance in_memory_nonces : NonceStore InMemoryNonceStore := {|
  ns_seen := λ nonce s, bool_decide (nonce_key nonce ∈ im_seen s);
  ns_remember := λ nonce, modify (λ s, {| im_seen := set_add (nonce_key nonce) (im_seen s) |})
|}.

(** What [remember] saves. *)
Definition nonce_state (s : DurableNonceStore) : json :=
  JObj [("version", JInt 1);
        ("seen_nonces", JArr (JStr <$> sort_by string_leb (dn_seen s)))].

#[export] Instance durable_nonces : NonceStore DurableNonceStore := {|
  ns_seen := λ nonce s, bool_decide (nonce_key nonce ∈ dn_seen s);
  ns_remember := λ nonce,
    _ ← modify (λ s, {| dn_seen := set_add (nonce_key nonce) (dn_seen s) |});
    s ← get;
    r ← perform (E := pay) (SaveNonces (nonce_state s));
    lift r
|}.

(** [DurableNonceStore(path)]: a corrupt file raises. *)
Definition durable_nonces_init (f : file) : result DurableNonceStore :=
  loaded ← store_load f;
  seen ← match dict_get "seen_nonces" (default [] loaded) with
         | None => Ok []
         | Some j => l ← jarr j; result_mapM jstr l
         end;
  Ok {| dn_seen := set_union [] seen |}.

(** ** Budget stores *)

(** [_key] of delegation_budget.py *)
Definition budget_key (nonce : string) : string :=
  let s := strip nonce in
  match to_bytes32 (VStr s) with
  | Ok b => "0x" +:+ hex b
  | Err _ => lower s
  end.

Record InMemoryDelegationBudgetStore : Type := { im_consumed : dict string Z }.
Record DurableDelegationBudgetStore : Type := { dd_consumed : dict string Z }.

Definition consumed_of (k : string) (d : dict string Z) : Z := default 0 (dict_get k d).

(** The body of [reserve]: [None] is [return False]. *)
Definition budget_reserve (nonce : string) (amount cap : Z) (d : dict string Z)
  : option (dict string Z) :=
  if amount <? 0 then None
  else
    let k := budget_key nonce in
    let new_total := consumed_of k d + amount in
    if cap <? new_total then None else Some (dict_set k new_total d).

Definition budget_release (nonce : string) (amount : Z) (d : dict string Z) : dict string Z :=
  let k := budget_key nonce in dict_set k (Z.max 0 (consumed_of k d - amount)) d.

#[export] Instance in_memory_budget : BudgetStore InMemoryDelegationBudgetStore := {|
  bs_consumed := λ nonce s, consumed_of (budget_key nonce) (im_consumed s);
  bs_reserve := λ nonce amount cap,
    s ← get;
    match budget_reserve nonce amount cap (im_consumed s) with
    | None => mret false
    | Some d => _ ← modify (λ _, {| im_consumed := d |}); mret true
    end;
  bs_release := λ nonce amount,
    if amount <=? 0 then mret ()
    else modify (λ s, {| im_consumed := budget_release nonce amount (im_consumed s) |})
|}.

(** [_persist] *)
Definition budget_state (s : DurableDelegationBudgetStore) : json :=
  JObj [("version", JInt 1);
        ("consumed", JObj ((λ kv : string * Z, (kv.1, JStr (str_of_int kv.2)))
                           <$> sort_by (λ a b, string_leb a.1 b.1) (dd_consumed s)))].

Definition budget_persist : M pay DurableDelegationBudgetStore unit :=
  s ← get; r ← perform (E := pay) (SaveBudget (budget_state s)); lift r.

#[export] Instance durable_budget : BudgetStore DurableDelegationBudgetStore := {|
  bs_consumed := λ nonce s, consumed_of (budget_key nonce) (dd_consumed s);
  bs_reserve := λ nonce amount cap,
    s ← get;
    match budget_reserve nonce amount cap (dd_consumed s) with
    | None => mret false
    | Some d => _ ← modify (λ _, {| dd_consumed := d |}); _ ← budget_persist; mret true
    end;
  bs_release := λ nonce amount,
    if amount <=? 0 then mret ()
    else _ ← modify (λ s, {| dd_consumed := budget_release nonce amount (dd_consumed s) |});
         budget_persist
|}.

(** [DurableDelegationBudgetStore(path)]: every key is put in canonical form. *)
Definition durable_budget_init (f : file) : result DurableDelegationBudgetStore :=
  loaded ← store_load f;
  items ← match dict_get "consumed" (default [] loaded) with
          | None => Ok []
          | Some (JObj o) => Ok o
          | Some _ => Err AttributeError
          end;
  kvs ← result_mapM (λ kv : string * json, v ← int_of_json kv.2; Ok (budget_key kv.1, v)) items;
  Ok {| dd_consumed := dict_of_list kvs |}.

(** ** Keys *)

Lemma fromhex_cons c s :
  fromhex (String c s) =
  if is_space c then fromhex s
  else match s with
       | EmptyString => None
       | String d s' => h ← hex_val c; l ← hex_val d; r ← fromhex s'; Some (z2b (h * 16 + l) :: r)
       end.
Proof. by destruct s. Qed.

Lemma fromhex_lstrip s b : fromhex s = Some b → fromhex (lstrip s) = Some b.
Proof.
  induction s as [|c s IH]; [done|]. cbn [lstrip]. rewrite fromhex_cons. intros Hf.
  destruct (is_space c) eqn:Hc.
  - assert (is_str_space c = true) as -> by (unfold is_str_space; by rewrite Hc). auto.
  - destruct s as [|d s]; [done|]. destruct (hex_val c) eqn:Hv; [|done].
    rewrite (hex_not_space _ _ Hv), fromhex_cons. by rewrite Hc, Hv.
Qed.

(** White space that [strip] removes at the end never changes what [fromhex]
    reads. *)
Lemma fromhex_rstrip n s b :
  (String.length s <= n)%nat → fromhex s = Some b → fromhex (rstrip s) = Some b.
Proof.
  revert s b. induction n as [|n IH]; intros s b Hn Hf.
  { destruct s; [done | simpl in Hn; lia]. }
  destruct s as [|c s]; [done|]. simpl in Hn. cbn [rstrip].
  assert (is_space c = true → is_str_space c = true) as Hsp
    by (intros Hc; unfold is_str_space; by rewrite Hc).
  rewrite fromhex_cons in Hf. destruct (is_space c) eqn:Hc.
  - apply IH in Hf; [|lia]. destruct (rstrip s) eqn:Hr.
    + by rewrite Hsp.
    + rewrite fromhex_cons. by rewrite Hc.
  - destruct s as [|d s]; [done|]. destruct (hex_val c) as [h|] eqn:Hh; [|done].
    destruct (hex_val d) as [l|] eqn:Hl; [|done]. simpl in Hf.
    destruct (fromhex s) as [r|] eqn:Hs; [|done]. simpl in Hf. injection Hf as <-.
    assert (rstrip (String d s) = String d (rstrip s)) as Hrd.
    { cbn [rstrip]. destruct (rstrip s); [|done]. by rewrite (hex_not_space d l). }
    rewrite Hrd, fromhex_cons, Hc, Hh, Hl. simpl.
    rewrite (IH s r); [done | simpl in Hn; lia | done].
Qed.

Lemma fromhex_strip s b : fromhex s = Some b → fromhex (strip s) = Some b.
Proof. intros Hf. unfold strip. by apply (fromhex_rstrip _ _ _ (le_n _)), fromhex_lstrip. Qed.

Lemma starts_0x_inv s : starts_0x s = true → ∃ t, s = String "0" (String "x" t).
Proof.
  unfold starts_0x. intros Hp%prefix_correct. destruct s as [|c0 [|c1 t]]; [done..|].
  simpl in Hp. injection Hp as -> -> _. by exists t.
Qed.

Lemma starts_0x_cons t : starts_0x (String "0" (String "x" t)) = true.
Proof. by destruct t. Qed.

(** The canonical spelling of a nonce that a signature can bind. *)
Lemma budget_key_bytes32 n b : to_bytes32 (VStr n) = Ok b → budget_key n = "0x" +:+ hex b.
Proof.
  intros Hb. unfold budget_key.
  enough (to_bytes32 (VStr (strip n)) = Ok b) as -> by done.
  unfold to_bytes32 in *. destruct (fromhex (if starts_0x n then sdrop 2 n else n)) as [r|] eqn:Hf; [|done].
  enough (fromhex (if starts_0x (strip n) then sdrop 2 (strip n) else strip n) = Some r) as -> by done.
  destruct (starts_0x n) eqn:Hp.
  - apply starts_0x_inv in Hp as (t & ->). change (sdrop 2 _) with t in Hf.
    assert (strip (String "0" (String "x" t)) = String "0" (String "x" (rstrip t))) as ->.
    { unfold strip. change (lstrip _) with (String "0" (String "x" t)). cbn [rstrip].
      by destruct (rstrip t). }
    rewrite starts_0x_cons. by apply (fromhex_rstrip _ _ _ (le_n _)).
  - apply fromhex_strip in Hf. destruct (starts_0x (strip n)) eqn:Hs; [|done]. exfalso.
    apply starts_0x_inv in Hs as (t & Ht). rewrite Ht in Hf. done.
Qed.

Lemma budget_key_canonical b : length b = 32%nat → budget_key ("0x" +:+ hex b) = "0x" +:+ hex b.
Proof.
  intros Hl. apply budget_key_bytes32. unfold to_bytes32.
  change ("0x" +:+ hex b) with (String "0" (String "x" (hex b))). rewrite starts_0x_cons.
  change (sdrop 2 _) with (hex b). rewrite fromhex_hex. simpl. by rewrite Hl.
Qed.

(** ** The contracts of the stores *)

(** A write of a state file succeeds or raises [OSError]. *)
Definition saves_ok {W} (exec : ∀ e : pay, W → response e → W → Prop) : Prop :=
  (∀ j w r w', exec (SaveNonces j) w r w' → r = Ok () ∨ r = Err OSError) ∧
  (∀ j w r w', exec (SaveBudget j) w r w' → r = Ok () ∨ r = Err OSError).

(** A nonce store is a set of keys: [seen] tests membership, [remember] adds one. *)
Class NonceLaws (N : Type) `{NonceStore N} (view : N → list string) : Prop := {
  seen_view : ∀ n s, ns_seen n s = bool_decide (nonce_key n ∈ view s);
  remember_view : ∀ W (exec : ∀ e : pay, W → response e → W → Prop) n s w, saves_ok exec →
    wpm exec (λ _, True) (ns_remember n)
      (λ r s' _, (∀ k, k ∈ view s' ↔ k = nonce_key n ∨ k ∈ view s) ∧ (r = Ok () ∨ r = Err OSError)) s w
}.

(** A budget store is a map from canonical nonces to consumed amounts: a refused
    [reserve] changes nothing, an accepted one adds its amount and stays within
    the cap. *)
Class BudgetLaws (B : Type) `{BudgetStore B} (view : B → dict string Z) : Prop := {
  consumed_view : ∀ n s, bs_consumed n s = consumed_of (budget_key n) (view s);
  reserve_view : ∀ W (exec : ∀ e : pay, W → response e → W → Prop) n a c s w, saves_ok exec →
    wpm exec (λ _, True) (bs_reserve n a c)
      (λ r s' _, match budget_reserve n a c (view s) with
                 | None => r = Ok false ∧ s' = s
                 | Some d => view s' = d ∧ (r = Ok true ∨ r = Err OSError)
                 end) s w;
  release_view : ∀ W (exec : ∀ e : pay, W → response e → W → Prop) n a s w, saves_ok exec →
    wpm exec (λ _, True) (bs_release n a)
      (λ r s' _, view s' = (if a <=? 0 then view s else budget_release n a (view s)) ∧
                 (r = Ok () ∨ r = Err OSError)) s w
}.

Ltac pay_perform exec :=
  apply wpm_bind;
  lazymatch goal with |- wpm _ _ (@perform _ _ ?e) _ _ _ => apply (wpm_perform (E := pay) exec _ e) end.

#[export] Instance in_memory_nonce_laws : NonceLaws InMemoryNonceStore im_seen.
Proof.
  split; [done|]. intros W exec n s w _. apply wpm_modify; [done|].
  split; [intros k; apply elem_set_add | by left].
Qed.

#[export] Instance durable_nonce_laws : NonceLaws DurableNonceStore dn_seen.
Proof.
  split; [done|]. intros W exec n s w [Hs _]. simpl.
  apply wpm_bind, wpm_modify; [done|]. apply wpm_bind, wpm_get; [done|].
  pay_perform exec; [done|]. intros r w' Hr. split; [done|].
  apply wpm_lift; [done|]. split; [intros k; apply elem_set_add | by eapply Hs].
Qed.

#[export] Instance in_memory_budget_laws : BudgetLaws InMemoryDelegationBudgetStore im_consumed.
Proof.
  split; [done| |]; intros W exec.
  - intros n a c s w _. simpl. apply wpm_bind, wpm_get; [done|].
    destruct budget_reserve as [d|]; [|by apply wpm_ret].
    apply wpm_bind, wpm_modify; [done|]. apply wpm_ret; [done|]. by split; [|left].
  - intros n a s w _. simpl. destruct (a <=? 0); [apply wpm_ret | apply wpm_modify]; (done || by split; [|left]).
Qed.

#[export] Instance durable_budget_laws : BudgetLaws DurableDelegationBudgetStore dd_consumed.
Proof.
  split; [done| |]; intros W exec.
  - intros n a c s w [_ Hs]. simpl. apply wpm_bind, wpm_get; [done|].
    destruct budget_reserve as [d|]; [|by apply wpm_ret].
    apply wpm_bind, wpm_modify; [done|]. apply wpm_bind. unfold budget_persist.
    apply wpm_bind, wpm_get; [done|]. pay_perform exec; [done|]. intros r w' Hr.
    split; [done|]. apply wpm_lift; [done|]. destruct (Hs _ _ _ _ Hr) as [->| ->].
    + apply wpm_ret; [done|]. by split; [|left].
    + by split; [|right].
  - intros n a s w [_ Hs]. simpl. destruct (a <=? 0); [apply wpm_ret; [done|by split; [|left]]|].
    apply wpm_bind, wpm_modify; [done|]. unfold budget_persist.
    apply wpm_bind, wpm_get; [done|]. pay_perform exec; [done|]. intros r w' Hr.
    split; [done|]. apply wpm_lift; [done|]. split; [done|]. by eapply Hs.
Qed.

(** ** Restart: loading what was saved *)

Lemma durable_nonces_restart s :
  ∃ s', durable_nonces_init (Json (nonce_state s)) = Ok s' ∧ ∀ k, k ∈ dn_seen s' ↔ k ∈ dn_seen s.
Proof.
  unfold durable_nonces_init, nonce_state. simpl.
  rewrite (result_mapM_fmap _ (λ j, match j with JStr t => t | _ => "" end)).
  2: { intros j (t & -> & _)%list_elem_of_fmap. done. }
  simpl. eexists. split; [done|]. intros k. simpl. rewrite elem_set_union.
  rewrite <-list_fmap_compose. rewrite (list_fmap_ext _ id) by done.
  rewrite list_fmap_id, elem_of_sort_by. set_solver.
Qed.

(** Keys in canonical form. *)
Definition budget_wf (d : dict string Z) : Prop :=
  dict_wf d ∧ ∀ k, k ∈ dict_keys d → ∃ b, length b = 32%nat ∧ k = "0x" +:+ hex b.

Lemma durable_budget_restart s :
  budget_wf (dd_consumed s) →
  ∃ s', durable_budget_init (Json (budget_state s)) = Ok s' ∧ dd_consumed s' ≡ₚ dd_consumed s.
Proof.
  intros [Hwf Hk]. unfold durable_budget_init, budget_state. simpl.
  set (sorted := sort_by _ (dd_consumed s)).
  assert (sorted ≡ₚ dd_consumed s) as Hp by apply sort_by_perm.
  rewrite (result_mapM_fmap _ (λ kv : string * json,
             (kv.1, match int_of_json kv.2 with Ok v => v | Err _ => 0 end))).
  2: { intros [k j] (kv & Heq & Hin)%list_elem_of_fmap. injection Heq as -> ->. cbn [fst snd].
       rewrite int_of_json_str. simpl. destruct (Hk kv.1) as (b & Hb & Hkey).
       { rewrite <-(fmap_Permutation fst _ _ Hp). apply list_elem_of_fmap. by exists kv. }
       by rewrite Hkey, budget_key_canonical. }
  simpl. eexists. split; [done|]. simpl. rewrite <-list_fmap_compose.
  assert ((λ kv : string * json, (kv.1, match int_of_json kv.2 with Ok v => v | Err _ => 0 end)) ∘
          (λ kv : string * Z, (kv.1, JStr (str_of_int kv.2))) <$> sorted = sorted) as ->.
  { rewrite <-(list_fmap_id sorted) at 2. apply list_fmap_ext. intros i [k v] _. simpl.
    rewrite int_of_str_of_int. done. }
  rewrite dict_of_list_NoDup; [done|]. unfold dict_wf, dict_keys in Hwf.
  by rewrite (fmap_Permutation fst _ _ Hp).
Qed.
