(* ===== verification/PaymentVerifier.v ===== *)
(** * The payment verifiers

    Models [PaymentAuthorizationVerifier] and [RelayerAuthorizationVerifier] of
    prsm/settlement/payment_authorization_verifier.py over any nonce store and
    budget store, and proves what they admit: against the store interfaces for one
    call, and with the durable stores for a whole history of calls, failed writes,
    crashes and restarts. *)
From Stdlib Require Import ZArith Lia QArith.
From S2P Require Import PyStd.
From S2P Require Import Externals.
From S2P Require Import Receipt.
From S2P Require Import Published.
From S2P Require Import Effects.
From S2P Require Import Payment.
From S2P Require Import PaymentStores.
From S2P Require Import Prelude.
From stdpp Require Import relations.

#[local] Open Scope string_scope.
#[local] Open Scope list_scope.
#[local] Open Scope Z_scope.

Record VerifierConfig : Type := {
  vc_provider : string;
  vc_has_balance_reader : bool;
  vc_chain_id : option Z
}.

(** The check of [__init__]. *)
Definition verifier_init (provider : string) (has_reader : bool) (chain_id : option Z)
  : result VerifierConfig :=
  _ ← raise_if (negb (str_nonempty provider)) ValueError;
  Ok {| vc_provider := provider; vc_has_balance_reader := has_reader; vc_chain_id := chain_id |}.

(** [except (KeyError, ValueError)] *)
Definition is_key_or_value_error (e : exn) : bool :=
  bool_decide (e = KeyError) || is_value_error e.

Section Verifiers.
Context `{Externals, Eip712} {N B : Type} `{NonceStore N, BudgetStore B}.

(** The escrow pre-flight on [account]. *)
Definition balance_check {S} (cfg : VerifierConfig) (account : string) (quoted_price_wei : Z)
  : M pay S unit :=
  if vc_has_balance_reader cfg then
    r ← perform (E := pay) (ReadBalance account);
    balance ← lift r;
    lift (raise_if (balance <? quoted_price_wei) (AuthorizationRejected "insufficient-escrow-balance"))
  else mret ().

(** The request-hash binding both verifiers check. *)
Definition request_hash_check (p : payload) (request_hash : pval) : result unit :=
  '(auth_rh, want_rh) ←
    rethrow is_key_or_value_error (AuthorizationRejected "request-hash-mismatch")
      (auth_rh ← pget "request_hash" p ≫= to_bytes32;
       want_rh ← to_bytes32 request_hash;
       Ok (auth_rh, want_rh));
  raise_if (negb (bool_decide (auth_rh = want_rh))) (AuthorizationRejected "request-hash-mismatch").

(** [PaymentAuthorizationVerifier._verify_locked]; [now] is the clock reading. *)
Definition verify_authorization (cfg : VerifierConfig) (p : payload) (signature request_hash : pval)
    (quoted_price_wei : Z) (now : Q) : M pay N string :=
  recovered ← lift (rethrow (λ e, bool_decide (e = InvalidSignatureFormat))
    (AuthorizationRejected "bad-signature")
    (verify_payment_authorization_signature p signature (default DEFAULT_CHAIN_ID (vc_chain_id cfg))));
  let requester := pget_str "requester" p in
  _ ← lift (raise_if (negb (lower recovered =? lower requester)%string)
              (AuthorizationRejected "signer-mismatch"));
  _ ← lift (raise_if (negb (lower (pget_str "provider" p) =? lower (vc_provider cfg))%string)
              (AuthorizationRejected "provider-mismatch"));
  _ ← lift (request_hash_check p request_hash);
  expired ← lift (is_expired p now);
  _ ← lift (raise_if expired (AuthorizationRejected "expired"));
  max_spend_wei ← lift (pget_int "max_spend_wei" p);
  _ ← lift (raise_if (max_spend_wei <? quoted_price_wei) (AuthorizationRejected "exceeds-max-spend"));
  nonce ← lift (v ← pget "job_nonce" p; Ok (py_str v));
  seen ← gets (ns_seen nonce);
  _ ← lift (raise_if seen (AuthorizationRejected "nonce-replayed"));
  _ ← balance_check cfg requester quoted_price_wei;
  _ ← ns_remember nonce;
  mret recovered.

(** The stores of a [RelayerAuthorizationVerifier]. *)
Record Relayer : Type := { rl_nonces : N; rl_budget : B }.
Definition on_nonces {A} : M pay N A → M pay Relayer A :=
  zoom rl_nonces (λ n s, {| rl_nonces := n; rl_budget := rl_budget s |}).
Definition on_budget {A} : M pay B A → M pay Relayer A :=
  zoom rl_budget (λ b s, {| rl_nonces := rl_nonces s; rl_budget := b |}).

(** A request to the relayer's verifier. *)
Record RelayedRequest : Type := {
  rq_auth : payload;
  rq_auth_signature : pval;
  rq_delegation : payload;
  rq_delegation_signature : pval;
  rq_request_hash : pval;
  rq_quoted_price_wei : Z
}.

(** [RelayerAuthorizationVerifier._verify_locked] *)
Definition verify_relayed (cfg : VerifierConfig) (q : RelayedRequest) (now_d now_a : Q)
  : M pay Relayer string :=
  let auth := rq_auth q in
  let delegation := rq_delegation q in
  funder ← lift (rethrow (λ e, bool_decide (e = DelegatedAuthError)) (AuthorizationRejected "delegated-auth")
    (verify_delegated_authorization auth (rq_auth_signature q) delegation (rq_delegation_signature q)
       (default DEFAULT_CHAIN_ID (vc_chain_id cfg)) now_d now_a));
  _ ← lift (raise_if (negb (lower (pget_str "provider" auth) =? lower (vc_provider cfg))%string)
              (AuthorizationRejected "provider-mismatch"));
  _ ← lift (request_hash_check auth (rq_request_hash q));
  max_spend_wei ← lift (pget_int "max_spend_wei" auth);
  _ ← lift (raise_if (max_spend_wei <? rq_quoted_price_wei q) (AuthorizationRejected "exceeds-max-spend"));
  nonce ← lift (v ← pget "job_nonce" auth; Ok (py_str v));
  seen ← gets (λ s, ns_seen nonce (rl_nonces s));
  _ ← lift (raise_if seen (AuthorizationRejected "nonce-replayed"));
  _ ← balance_check cfg funder (rq_quoted_price_wei q);
  dnonce ← lift (v ← pget "delegation_nonce" delegation; Ok (py_str v));
  cap ← lift (pget_int "max_total_spend_wei" delegation);
  reserve_amount ← lift (pget_int "max_spend_wei" auth);
  reserved ← on_budget (bs_reserve dnonce reserve_amount cap);
  _ ← lift (raise_if (negb reserved) (AuthorizationRejected "delegation-budget-exceeded"));
  _ ← on_nonces (ns_remember nonce);
  mret funder.

(** [release_reservation] and [release_reservation_sync]: an error is only
    logged. *)
Definition release_reservation (delegation_nonce : string) (amount_wei : Z) : M pay Relayer unit :=
  _ ← try (on_budget (bs_release delegation_nonce amount_wei)); mret ().
End Verifiers.
Arguments Relayer : clear implicits.

(** ** What a single call decides *)

Section Decision.
Context `{Externals, Eip712}.

(** The conditions under which an authorization pays for [request_hash] at
    [quoted] on this provider, with the nonces [used] already. *)
Record admissible (cfg : VerifierConfig) (p : payload) (signature request_hash : pval)
    (quoted : Z) (now : Q) (used : list string) (signer : string) : Prop := {
  ad_signer : verify_payment_authorization_signature p signature
                (default DEFAULT_CHAIN_ID (vc_chain_id cfg)) = Ok signer;
  ad_requester : lower signer = lower (pget_str "requester" p);
  ad_provider : lower (pget_str "provider" p) = lower (vc_provider cfg);
  ad_request : ∃ v rh, dict_get "request_hash" p = Some v ∧ to_bytes32 v = Ok rh ∧
                       to_bytes32 request_hash = Ok rh;
  ad_fresh : is_expired p now = Ok false;
  ad_price : ∃ m, pget_int "max_spend_wei" p = Ok m ∧ quoted <= m;
  ad_nonce : ∃ v, dict_get "job_nonce" p = Some v ∧ nonce_key (py_str v) ∉ used
}.

Lemma request_hash_check_Ok p rh :
  request_hash_check p rh = Ok () ↔
  ∃ v b, dict_get "request_hash" p = Some v ∧ to_bytes32 v = Ok b ∧ to_bytes32 rh = Ok b.
Proof.
  unfold request_hash_check, pget. split.
  - intros Hc. apply bind_Ok_inv in Hc as ([a w] & Hr & Hc).
    apply rethrow_Ok in Hr. apply bind_Ok_inv in Hr as (a' & Ha & Hr).
    apply bind_Ok_inv in Hr as (w' & Hw & Hr). injection Hr as -> ->.
    apply bind_Ok_inv in Ha as (v & Hv%of_option_Ok & Ha).
    apply raise_if_Ok, negb_false_iff, bool_decide_eq_true in Hc. subst. eauto.
  - intros (v & b & -> & Hv & Hrh). simpl. rewrite Hv, Hrh. simpl. by rewrite bool_decide_true.
Qed.

Lemma rethrow_is_Ok {A} c e (m : result A) a : m = Ok a → rethrow c e m = Ok a.
Proof. by intros ->. Qed.

(** *** Checks in sequence *)
Context {S W : Type} (exec : ∀ e : pay, W → response e → W → Prop).

Context (balance : W → string → result Z).
Hypothesis reads : ∀ a w r w', exec (ReadBalance a) w r w' → r = balance w a ∧ w' = w.

(** The account's escrow covers the price, when the reader is wired. *)
Definition funded (cfg : VerifierConfig) (account : string) (price : Z) (w : W) : Prop :=
  vc_has_balance_reader cfg = true → ∃ b, balance w account = Ok b ∧ price <= b.

Lemma wpm_balance cfg account price (Q : result unit → S → W → Prop) s w :
  (funded cfg account price w → Q (Ok ()) s w) →
  (∀ e, ¬ funded cfg account price w → Q (Err e) s w) →
  wpm exec (λ _, True) (balance_check cfg account price) Q s w.
Proof.
  unfold balance_check, funded. intros Hok Herr. destruct (vc_has_balance_reader cfg).
  - pay_perform exec; [done|]. intros r w' [-> ->]%reads. split; [done|].
    apply wpm_check; [done| |].
    + intros b Hb. rewrite Hb in Hok, Herr. apply wpm_lift; [done|].
      destruct (Z.ltb_spec b price); simpl.
      * apply Herr. intros Hf. destruct Hf as (b' & Hb' & ?); [done|]. simplify_eq. lia.
      * apply Hok. intros _. exists b. split; [done | lia].
    + intros e He. apply Herr. intros Hf. destruct Hf as (b & Hb & _); [done|]. congruence.
  - apply wpm_ret; [done|]. by apply Hok.
Qed.
End Decision.

(** ** Claims about one call *)

(** One check of [verify_authorization]: the goals left are the rest of the body
    and that an admissible request passes the check. *)
Ltac check_step :=
  apply wpm_check; [done | | intros e He; split_and!; [done | intros g [] _ | by left]].

(** The last two steps of the verifier: read the balance, remember the nonce. *)
Lemma balance_then_remember `{Externals, Eip712} {NS : Type} `{NonceLaws NS view} {W}
    (exec : ∀ e : pay, W → response e → W → Prop) balance cfg account quoted nonce (signer : string)
    (Q : result string → NS → W → Prop) s w :
  saves_ok exec → (∀ a w r w', exec (ReadBalance a) w r w' → r = balance w a ∧ w' = w) →
  (∀ e, ¬ funded balance cfg account quoted w → Q (Err e) s w) →
  (∀ s' w', funded balance cfg account quoted w →
     (∀ k, k ∈ view s' ↔ k = nonce_key nonce ∨ k ∈ view s) → Q (Ok signer) s' w') →
  (∀ s' w', funded balance cfg account quoted w → Q (Err OSError) s' w') →
  wpm exec (λ _, True)
    (balance_check cfg account quoted ≫= λ _ : (), ns_remember nonce ≫= λ _ : (), mret signer) Q s w.
Proof.
  intros Hsaves Hreads Hpoor Hok Hsave.
  apply wpm_bind, (wpm_balance exec balance); [done | | done].
  intros Hfund. apply wpm_bind. eapply wpm_mono; [by apply remember_view|].
  intros r s' w' _ [Hview [-> | ->]]; [apply wpm_ret; [done|]|]; auto.
Qed.

(** C30 The gate before a paid job decides exactly as documented, over any nonce
    store: it returns a signer only if that address signed the payload and is its
    requester, the payload names this provider and this request, is not expired,
    covers the quoted price, its nonce is unused and the escrow (when read) holds
    the price, and the nonce is then used; conversely such a request is accepted
    unless writing the nonce fails; and a request that is not accepted leaves the
    nonce store as it was. *)
Theorem authorization_exact `{Externals, Eip712} {NS : Type} `{NonceLaws NS view} {W}
    (exec : ∀ e : pay, W → response e → W → Prop) balance cfg p signature rh quoted now s w :
  saves_ok exec → (∀ a w r w', exec (ReadBalance a) w r w' → r = balance w a ∧ w' = w) →
  wpm exec (λ _, True) (verify_authorization cfg p signature rh quoted now)
    (λ r s' _,
       (∀ signer, r = Ok signer →
          admissible cfg p signature rh quoted now (view s) signer ∧
          funded balance cfg (pget_str "requester" p) quoted w ∧
          ∃ v, dict_get "job_nonce" p = Some v ∧
               ∀ k, k ∈ view s' ↔ k = nonce_key (py_str v) ∨ k ∈ view s) ∧
       (∀ signer, admissible cfg p signature rh quoted now (view s) signer →
          funded balance cfg (pget_str "requester" p) quoted w → r = Ok signer ∨ r = Err OSError) ∧
       (∀ e, r = Err e → s' = s ∨ e = OSError)) s w.
Proof.
  intros Hsaves Hreads. unfold verify_authorization.
  check_step.
  2: { exfalso. by rewrite (rethrow_is_Ok _ _ _ g) in He. }
  intros signer Hsig%rethrow_Ok.
  check_step.
  2: { exfalso. assert (g = signer) as -> by congruence. rewrite ad_requester0, String.eqb_refl in He. done. }
  intros _ Hreq%raise_if_Ok%negb_false_iff%String.eqb_eq.
  check_step.
  2: { exfalso. rewrite ad_provider0, String.eqb_refl in He. done. }
  intros _ Hprov%raise_if_Ok%negb_false_iff%String.eqb_eq.
  check_step.
  2: { exfalso. apply request_hash_check_Ok in ad_request0. congruence. }
  intros [] Hrh%request_hash_check_Ok.
  check_step.
  2: { congruence. }
  intros expired Hexp.
  check_step.
  2: { exfalso. assert (expired = false) by congruence. by subst. }
  intros _ ->%raise_if_Ok.
  check_step.
  2: { exfalso. destruct ad_price0 as (m & Hm & _). congruence. }
  intros m Hm.
  check_step.
  2: { exfalso. destruct ad_price0 as (m' & Hm' & Hle). assert (m' = m) by congruence. subst.
       by replace (m <? quoted) with false in He by lia. }
  intros _ Hprice%raise_if_Ok.
  check_step.
  2: { exfalso. destruct ad_nonce0 as (v & Hv & _). unfold pget in He. by rewrite Hv in He. }
  intros nonce Hn. apply bind_Ok_inv in Hn as (v & Hv%of_option_Ok & Hn). injection Hn as <-.
  apply wpm_bind, wpm_gets; [done|].
  check_step.
  2: { exfalso. destruct ad_nonce0 as (v' & Hv' & Hnew). rewrite Hv in Hv'. injection Hv' as <-.
       rewrite seen_view, bool_decide_false in He; done. }
  intros _ Hseen%raise_if_Ok. rewrite seen_view in Hseen. apply bool_decide_eq_false in Hseen.
  assert (admissible cfg p signature rh quoted now (view s) signer) as Hadm.
  { split; eauto. exists m. split; [done | lia]. }
  apply (balance_then_remember exec balance); [done | done | ..].
  - intros e Hnf. split_and!; [done | by intros g _ Hf | by left].
  - intros s' w' Hfund Hview. split_and!; [|intros g Hg _; left | done].
    + intros g Hg. injection Hg as <-. eauto.
    + destruct Hg. congruence.
  - intros s' w' _. split_and!; [done | by right | intros e Heq; right; by injection Heq].
Qed.

(** What the relayer's two-signature chain must satisfy to charge [funder]. *)
Record delegated_ok `{Externals, Eip712} (auth : payload) (auth_signature : pval) (delegation : payload)
    (delegation_signature : pval) (chain_id : Z) (now_d now_a : Q) (funder : string) : Prop := {
  dg_funder : pget_or_empty "requester" delegation = funder ∧ funder ≠ "";
  dg_relayer : pget_or_empty "relayer" delegation ≠ "";
  dg_provider : pget_or_empty "provider" delegation ≠ "";
  dg_delegated : ∃ a, verify_payment_delegation_signature delegation delegation_signature chain_id = Ok a ∧
                      lower a = lower funder;
  dg_signed : ∃ a, verify_payment_authorization_signature auth auth_signature chain_id = Ok a ∧
                   lower a = lower (pget_or_empty "relayer" delegation);
  dg_charges : lower (pget_or_empty "requester" auth) = lower funder;
  dg_pays : lower (pget_or_empty "provider" auth) = lower (pget_or_empty "provider" delegation);
  dg_fresh : is_delegation_expired delegation now_d = Ok false ∧ is_expired auth now_a = Ok false;
  dg_within : ∃ m c, pget_int "max_spend_wei" auth = Ok m ∧
                     pget_int "max_total_spend_wei" delegation = Ok c ∧ m <= c
}.

Lemma str_nonempty_true s : negb (str_nonempty s) = false ↔ s ≠ "".
Proof. destruct s; naive_solver. Qed.

Lemma delegated_authorization_ok `{Externals, Eip712} auth asig delegation dsig chain_id now_d now_a funder :
  verify_delegated_authorization auth asig delegation dsig chain_id now_d now_a = Ok funder →
  delegated_ok auth asig delegation dsig chain_id now_d now_a funder.
Proof.
  unfold verify_delegated_authorization. intros Hv. inv_result.
  repeat match goal with H : _ || _ = false |- _ => apply orb_false_iff in H as [? ?] end.
  repeat match goal with H : negb (str_nonempty _) = false |- _ => apply str_nonempty_true in H end.
  repeat match goal with H : negb (_ =? _)%string = false |- _ =>
           apply negb_false_iff, String.eqb_eq in H end.
  split; eauto. do 2 eexists. split_and!; [done | done | lia].
Qed.

(** The relayer's chain is checked completely: [verify_delegated_authorization]
    returns [funder] exactly when the delegation names a requester, a relayer and a
    provider, was signed by that requester, which is [funder], the per-request
    authorization was signed by the delegated relayer, charges the same requester
    and pays the same provider, neither has expired, and the per-request ceiling
    is within the delegation's. *)
Theorem delegated_authorization_exact `{Externals, Eip712} auth asig delegation dsig chain_id now_d now_a funder :
  verify_delegated_authorization auth asig delegation dsig chain_id now_d now_a = Ok funder ↔
  delegated_ok auth asig delegation dsig chain_id now_d now_a funder.
Proof.
  split; [apply delegated_authorization_ok|].
  unfold verify_delegated_authorization.
  intros [[<- Hf] Hr Hp (a1 & Hd & Ha1) (a2 & Hs & Ha2) Hc Hpay [Hx1 Hx2] (m & c & Hm & Hcap & Hle)].
  apply str_nonempty_true in Hf, Hr, Hp. rewrite Hf, Hr, Hp. simpl.
  rewrite (rethrow_is_Ok _ _ _ _ Hd). simpl. rewrite Ha1, String.eqb_refl. simpl.
  rewrite (rethrow_is_Ok _ _ _ _ Hs). simpl. rewrite Ha2, String.eqb_refl. simpl.
  rewrite Hc, String.eqb_refl. simpl. rewrite Hpay, String.eqb_refl. simpl.
  rewrite Hx1. simpl. rewrite Hx2. simpl. rewrite Hm. simpl. rewrite Hcap. simpl.
  by replace (c <? m) with false by lia.
Qed.
