(* ===== verification/RelayerSafety.v ===== *)
(** * The relayer's verifier over a whole history, and on concrete requests

    [RelayerAuthorizationVerifier] with the durable stores, run for any sequence
    of requests and releases in a world where writes fail, the process dies at any
    point (also between the two writes of one request) and restarts from its
    files.  The world carries a ledger of what was accepted and released. *)
From Stdlib Require Import ZArith Lia QArith.
From S2P Require Import PyStd.
From S2P Require Import Externals.
From S2P Require Import Receipt.
From S2P Require Import Published.
From S2P Require Import Effects.
From S2P Require Import Payment.
From S2P Require Import PaymentStores.
From S2P Require Import PaymentVerifier.
From S2P Require Import Prelude.
From stdpp Require Import relations.

#[local] Open Scope string_scope.
#[local] Open Scope list_scope.
#[local] Open Scope Z_scope.

(** ** Requests as they arrive *)

(** A payload parsed from JSON holds no [bytes]. *)
Definition json_payload (p : payload) : Prop := ∀ k b, dict_get k p ≠ Some (VBytes b).
Definition json_request (q : RelayedRequest) : Prop :=
  json_payload (rq_auth q) ∧ json_payload (rq_delegation q).

Definition job_key (q : RelayedRequest) : string := nonce_key (pget_str "job_nonce" (rq_auth q)).
Definition bucket (q : RelayedRequest) : string :=
  budget_key (pget_str "delegation_nonce" (rq_delegation q)).
Definition ok_or (d : Z) (r : result Z) : Z := match r with Ok z => z | Err _ => d end.
Definition ceiling (q : RelayedRequest) : Z := ok_or 0 (pget_int "max_spend_wei" (rq_auth q)).
Definition cap (q : RelayedRequest) : Z := ok_or 0 (pget_int "max_total_spend_wei" (rq_delegation q)).

(** ** The ledger and the world *)

Inductive pay_event : Type :=
| Accepted (q : RelayedRequest) (funder : string) (now_d now_a : Q)
| Released (k : string) (amount : Z).

Definition event_amount (k : string) (e : pay_event) : Z :=
  match e with
  | Accepted q _ _ _ => if bool_decide (bucket q = k) then ceiling q else 0
  | Released k' a => if bool_decide (k' = k) then - Z.max 0 a else 0
  end.

(** What is reserved in bucket [k]: accepted ceilings less releases. *)
Definition net (k : string) (log : list pay_event) : Z := Zsum (event_amount k <$> log).

Definition accepted_keys (log : list pay_event) : list string :=
  log ≫= λ e, match e with Accepted q _ _ _ => [job_key q] | Released _ _ => [] end.

Record PayWorld : Type := {
  pw_nonces : file;
  pw_budget : file;
  pw_log : list pay_event
}.

Inductive pay_exec : ∀ e : pay, PayWorld → response e → PayWorld → Prop :=
| exec_save_nonces j w :
    pay_exec (SaveNonces j) w (Ok ())
      {| pw_nonces := Json j; pw_budget := pw_budget w; pw_log := pw_log w |}
| exec_save_nonces_fails j w : pay_exec (SaveNonces j) w (Err OSError) w
| exec_save_budget j w :
    pay_exec (SaveBudget j) w (Ok ())
      {| pw_nonces := pw_nonces w; pw_budget := Json j; pw_log := pw_log w |}
| exec_save_budget_fails j w : pay_exec (SaveBudget j) w (Err OSError) w
| exec_balance a r w : pay_exec (ReadBalance a) w r w.

Definition add_event (w : PayWorld) (e : pay_event) : PayWorld :=
  {| pw_nonces := pw_nonces w; pw_budget := pw_budget w; pw_log := pw_log w ++ [e] |}.

Section RelayerWorld.
Context `{Externals, Eip712} (cfg : VerifierConfig).

Definition DurableRelayer : Type := Relayer DurableNonceStore DurableDelegationBudgetStore.

(** The stores a start of the process builds. *)
Definition relayer_boot (w : PayWorld) (s : DurableRelayer) : Prop :=
  durable_nonces_init (pw_nonces w) = Ok (rl_nonces s) ∧
  durable_budget_init (pw_budget w) = Ok (rl_budget s).

(** [await verifier.verify(...)], whatever it raises, and what it adds to the
    ledger. *)
Definition serve (q : RelayedRequest) (now_d now_a : Q) : M pay DurableRelayer (option pay_event) :=
  r ← try (verify_relayed cfg q now_d now_a);
  mret (match r with Ok funder => Some (Accepted q funder now_d now_a) | Err _ => None end).

Inductive relayer_calls
  : DurableRelayer → PayWorld → prog pay (result (option pay_event) * DurableRelayer) → PayWorld → Prop :=
| call_verify q now_d now_a s w :
    json_request q → relayer_calls s w (serve q now_d now_a s) w
| call_release n b a s w :
    to_bytes32 (VStr n) = Ok b →
    relayer_calls s w ((_ ← release_reservation n a; mret None) s) (add_event w (Released (budget_key n) a)).

Definition relayer_returns (r : result (option pay_event)) (w w' : PayWorld) : Prop :=
  w' = match r with Ok (Some e) => add_event w e | _ => w end.

Definition pay_world0 : PayWorld := {| pw_nonces := Absent; pw_budget := Absent; pw_log := [] |}.

Definition relayer_reachable
    (n : process pay DurableRelayer (result (option pay_event)) * PayWorld) : Prop :=
  rtc (process_step pay_exec relayer_calls relayer_returns relayer_boot) (Crashed, pay_world0) n.

(** ** Invariant *)

(** The conditions of one acceptance, apart from the stores. *)
Record relayed_ok (q : RelayedRequest) (now_d now_a : Q) (funder : string) : Prop := {
  rk_chain : delegated_ok (rq_auth q) (rq_auth_signature q) (rq_delegation q)
               (rq_delegation_signature q) (default DEFAULT_CHAIN_ID (vc_chain_id cfg)) now_d now_a funder;
  rk_provider : lower (pget_str "provider" (rq_auth q)) = lower (vc_provider cfg);
  rk_request : ∃ v rh, dict_get "request_hash" (rq_auth q) = Some v ∧ to_bytes32 v = Ok rh ∧
                       to_bytes32 (rq_request_hash q) = Ok rh;
  rk_price : rq_quoted_price_wei q <= ceiling q
}.

Definition event_ok (before : list pay_event) (e : pay_event) : Prop :=
  match e with
  | Accepted q funder now_d now_a =>
      relayed_ok q now_d now_a funder ∧ 0 <= ceiling q ∧ net (bucket q) before + ceiling q <= cap q
  | Released _ _ => True
  end.

Definition log_ok (log : list pay_event) : Prop :=
  NoDup (accepted_keys log) ∧
  ∀ l1 e l2, log = l1 ++ e :: l2 → event_ok l1 e.

Definition nonces_cover (seen : list string) (log : list pay_event) : Prop :=
  ∀ k, k ∈ accepted_keys log → k ∈ seen.
Definition budget_covers (d : dict string Z) (log : list pay_event) : Prop :=
  budget_wf d ∧ ∀ k, net k log <= consumed_of k d.

Definition disk_ok (w : PayWorld) : Prop :=
  log_ok (pw_log w) ∧
  (∃ s, durable_nonces_init (pw_nonces w) = Ok s ∧ nonces_cover (dn_seen s) (pw_log w)) ∧
  (∃ s, durable_budget_init (pw_budget w) = Ok s ∧ budget_covers (dd_consumed s) (pw_log w)).

Definition mem_ok (s : DurableRelayer) (w : PayWorld) : Prop :=
  nonces_cover (dn_seen (rl_nonces s)) (pw_log w) ∧ budget_covers (dd_consumed (rl_budget s)) (pw_log w).

Lemma boot_ok w s : relayer_boot w s → disk_ok w → mem_ok s w.
Proof.
  intros [Hn Hb] (_ & (sn & Hsn & Hcn) & (sb & Hsb & Hcb)).
  rewrite Hn in Hsn. rewrite Hb in Hsb. by simplify_eq.
Qed.

Lemma disk_ok0 : disk_ok pay_world0.
Proof.
  split_and!.
  - split; [constructor|]. intros l1 e l2 Hl. by destruct l1.
  - eexists. split; [done|]. intros k Hk. by apply not_elem_of_nil in Hk.
  - eexists. split; [done|]. split; [split; [constructor|]|].
    + intros k Hk. by apply not_elem_of_nil in Hk.
    + intros k. done.
Qed.

(** A successful write of either file. *)
Lemma disk_ok_nonces s w :
  disk_ok w → nonces_cover (dn_seen s) (pw_log w) →
  disk_ok {| pw_nonces := Json (nonce_state s); pw_budget := pw_budget w; pw_log := pw_log w |}.
Proof.
  intros (Hl & _ & Hb) Hc. split_and!; [done | | done].
  destruct (durable_nonces_restart s) as (s' & Hs' & Heq). exists s'. split; [done|].
  intros k Hk. apply Heq. by apply Hc.
Qed.

Lemma disk_ok_budget s w :
  disk_ok w → budget_covers (dd_consumed s) (pw_log w) →
  disk_ok {| pw_nonces := pw_nonces w; pw_budget := Json (budget_state s); pw_log := pw_log w |}.
Proof.
  intros (Hl & Hn & _) [Hwf Hc]. split_and!; [done | done |].
  destruct (durable_budget_restart s Hwf) as (s' & Hs' & Hp). exists s'. split; [done|].
  destruct Hwf as [Hwf Hk]. split; [split|].
  - unfold dict_wf, dict_keys in *. by rewrite (fmap_Permutation fst _ _ Hp).
  - intros k. unfold dict_keys in *. rewrite (fmap_Permutation fst _ _ Hp). apply Hk.
  - intros k. unfold consumed_of. rewrite <-(dict_perm_get (dd_consumed s) (dd_consumed s')); [apply Hc | done | done].
Qed.

(** *** The budget *)

Lemma consumed_of_set k k' v d :
  consumed_of k (dict_set k' v d) = if decide (k' = k) then v else consumed_of k d.
Proof. unfold consumed_of. rewrite dict_get_set. by case_decide. Qed.

Lemma budget_wf_set n b v d :
  to_bytes32 (VStr n) = Ok b → budget_wf d → budget_wf (dict_set (budget_key n) v d).
Proof.
  intros Hb [Hwf Hk]. split; [by apply dict_wf_set|].
  intros k [->|Hin]%elem_dict_keys_set; [|auto]. exists b. split; [|by apply budget_key_bytes32].
  unfold to_bytes32 in Hb. inv_result. apply negb_false_iff, Z.eqb_eq in Hr0. lia.
Qed.

Lemma net_app k l1 l2 : net k (l1 ++ l2) = net k l1 + net k l2.
Proof. unfold net. by rewrite fmap_app, Zsum_app. Qed.

Lemma release_covers n b a d log :
  to_bytes32 (VStr n) = Ok b → budget_covers d (log) →
  budget_covers (if a <=? 0 then d else budget_release n a d) (log ++ [Released (budget_key n) a]).
Proof.
  intros Hb [Hwf Hc]. assert (∀ k, net k (log ++ [Released (budget_key n) a]) =
    net k log + if bool_decide (budget_key n = k) then - Z.max 0 a else 0) as Hnet.
  { intros k. rewrite net_app. unfold net at 2. csimpl. by rewrite Zsum_cons, Zsum_nil, Z.add_0_r. }
  destruct (Z.leb_spec a 0).
  - split; [done|]. intros k. rewrite Hnet. specialize (Hc k). case_bool_decide; lia.
  - split; [by eapply budget_wf_set|]. intros k. rewrite Hnet. unfold budget_release.
    rewrite consumed_of_set. specialize (Hc k). case_bool_decide; case_decide; subst; try done; lia.
Qed.

Lemma reserve_covers n b a c d d' log :
  to_bytes32 (VStr n) = Ok b → budget_reserve n a c d = Some d' → budget_covers d log →
  0 <= a ∧ net (budget_key n) log + a <= c ∧ budget_wf d' ∧
  ∀ k, net k log + (if decide (budget_key n = k) then a else 0) <= consumed_of k d'.
Proof.
  intros Hb Hr [Hwf Hc]. unfold budget_reserve in Hr.
  destruct (Z.ltb_spec a 0); [done|]. destruct (Z.ltb_spec c (consumed_of (budget_key n) d + a)); [done|].
  injection Hr as <-. pose proof (Hc (budget_key n)). split_and!; [lia | lia | by eapply budget_wf_set |].
  intros k. rewrite consumed_of_set. specialize (Hc k). case_decide; subst; lia.
Qed.

(** *** One request *)

Lemma exec_inv e w r w' :
  pay_exec e w r w' →
  match e return response (s := pay) e → Prop with
  | SaveNonces j => λ r, (r = Ok () ∧ w' = {| pw_nonces := Json j; pw_budget := pw_budget w; pw_log := pw_log w |})
                         ∨ (r = Err OSError ∧ w' = w)
  | SaveBudget j => λ r, (r = Ok () ∧ w' = {| pw_nonces := pw_nonces w; pw_budget := Json j; pw_log := pw_log w |})
                         ∨ (r = Err OSError ∧ w' = w)
  | ReadBalance _ => λ _, w' = w
  end r.
Proof. destruct 1; eauto. Qed.

Lemma pget_Ok_str k (p : payload) v : pget k p = Ok v → pget_str k p = py_str v.
Proof. intros Hv%of_option_Ok. unfold pget_str. by rewrite Hv. Qed.

(** The nonce of a signed JSON delegation is text that names 32 bytes. *)
Lemma signed_nonce p sig chain_id a :
  json_payload p → verify_payment_delegation_signature p sig chain_id = Ok a →
  ∃ n b, pget "delegation_nonce" p = Ok (VStr n) ∧ to_bytes32 (VStr n) = Ok b.
Proof.
  intros Hj Hv. unfold verify_payment_delegation_signature in Hv.
  apply bind_Ok_inv in Hv as (sb & _ & Hv). apply bind_Ok_inv in Hv as (td & Htd & _).
  unfold delegation_typed_data in Htd. inv_result.
  match goal with Hn : pget "delegation_nonce" p = Ok ?v, Hb : to_bytes32 ?v = Ok ?b |- _ =>
    assert (dict_get "delegation_nonce" p = Some v) as Hd by (by apply of_option_Ok in Hn);
    destruct v as [n|z|bs|]; [by exists n, b | done | by apply Hj in Hd | done] end.
Qed.

(** After a request: the ledger with its acceptance is covered. *)
Definition served (q : RelayedRequest) (now_d now_a : Q) (r : result string) (s : DurableRelayer)
    (w : PayWorld) : Prop :=
  match r with
  | Ok funder => disk_ok (add_event w (Accepted q funder now_d now_a)) ∧
                 mem_ok s (add_event w (Accepted q funder now_d now_a))
  | Err _ => disk_ok w ∧ mem_ok s w
  end.

Lemma wpm_balance_keeps {A} (account : string) (price : Z) (f : unit → M pay DurableRelayer A)
    (Q : result A → DurableRelayer → PayWorld → Prop) s w :
  disk_ok w → wpm pay_exec disk_ok (f ()) Q s w → (∀ e, Q (Err e) s w) →
  wpm pay_exec disk_ok (x ← balance_check cfg account price; f x) Q s w.
Proof.
  intros Hd Hf Hq. apply wpm_bind. unfold balance_check. destruct (vc_has_balance_reader cfg).
  - pay_perform pay_exec; [done|]. intros r w' ->%exec_inv. split; [done|].
    apply wpm_check; [done | | done]. intros b _. apply wpm_lift; [done|].
    destruct (raise_if _ _) as [[]|]; done.
  - apply wpm_ret; done.
Qed.

(** The reserve: the file follows the memory or the write raised. *)
Lemma wpm_reserve {A} n b a c (f : bool → M pay DurableRelayer A)
    (Q : result A → DurableRelayer → PayWorld → Prop) s w :
  to_bytes32 (VStr n) = Ok b → disk_ok w → mem_ok s w →
  wpm pay_exec disk_ok (f false) Q s w →
  (∀ d w', budget_reserve n a c (dd_consumed (rl_budget s)) = Some d → disk_ok w' → pw_log w' = pw_log w →
     (∃ s0, durable_budget_init (pw_budget w') = Ok s0 ∧ dd_consumed s0 ≡ₚ d) →
     wpm pay_exec disk_ok (f true) Q {| rl_nonces := rl_nonces s; rl_budget := {| dd_consumed := d |} |} w') →
  (∀ d w', budget_reserve n a c (dd_consumed (rl_budget s)) = Some d → disk_ok w' → pw_log w' = pw_log w →
     Q (Err OSError) {| rl_nonces := rl_nonces s; rl_budget := {| dd_consumed := d |} |} w') →
  wpm pay_exec disk_ok (x ← on_budget (bs_reserve n a c); f x) Q s w.
Proof.
  intros Hb Hd [Hn Hc] Hno Hyes Herr. apply wpm_bind, wpm_zoom. simpl.
  apply wpm_bind, wpm_get; [done|].
  destruct (budget_reserve n a c (dd_consumed (rl_budget s))) as [d|] eqn:Hr.
  2: { apply wpm_ret; [done|]. by destruct s. }
  destruct (reserve_covers _ _ _ _ _ _ (pw_log w) Hb Hr Hc) as (Ha & Hnet & Hwf & Hcov).
  apply wpm_bind, wpm_modify; [done|]. apply wpm_bind. unfold budget_persist.
  apply wpm_bind, wpm_get; [done|]. pay_perform pay_exec; [done|].
  intros r w' [[-> ->]|[-> ->]]%exec_inv.
  - assert (budget_covers d (pw_log w)) as Hcd.
    { split; [done|]. intros k. specialize (Hcov k). case_decide; lia. }
    pose proof (disk_ok_budget {| dd_consumed := d |} w Hd Hcd) as Hd'. split; [done|].
    apply wpm_lift; [done|]. apply wpm_ret; [done|].
    apply Hyes; [done | done | done |].
    by apply (durable_budget_restart {| dd_consumed := d |}).
  - split; [done|]. apply wpm_lift; [done|]. by apply Herr.
Qed.

Lemma accepted_keys_app l1 l2 : accepted_keys (l1 ++ l2) = accepted_keys l1 ++ accepted_keys l2.
Proof. apply bind_app. Qed.

Lemma log_ok_snoc log e :
  log_ok log → event_ok log e → (∀ k, k ∈ accepted_keys [e] → k ∉ accepted_keys log) →
  log_ok (log ++ [e]).
Proof.
  intros [Hnd Hev] He Hk. split.
  - rewrite accepted_keys_app. apply NoDup_app. split_and!; [done | |].
    + intros k Hin Hin'. by apply (Hk k).
    + destruct e; simpl; [apply NoDup_singleton | constructor].
  - intros l1 x l2 Hl. destruct l2 as [|y l2 _] using rev_ind.
    + apply app_inj_tail in Hl as [<- <-]. done.
    + rewrite app_comm_cons, app_assoc in Hl. apply app_inj_tail in Hl as [-> _].
      by apply (Hev l1 x l2).
Qed.

(** Appending an acceptance whose nonce and ceiling are in the stores. *)
Lemma add_accepted q funder now_d now_a sn sb w s1 :
  disk_ok w → event_ok (pw_log w) (Accepted q funder now_d now_a) →
  job_key q ∉ accepted_keys (pw_log w) →
  durable_nonces_init (pw_nonces w) = Ok s1 → nonces_cover (dn_seen s1) (pw_log w) →
  job_key q ∈ dn_seen s1 → job_key q ∈ dn_seen sn → nonces_cover (dn_seen sn) (pw_log w) →
  (∃ s0, durable_budget_init (pw_budget w) = Ok s0 ∧ dd_consumed s0 ≡ₚ dd_consumed sb) →
  budget_wf (dd_consumed sb) →
  (∀ k, net k (pw_log w) + (if decide (bucket q = k) then ceiling q else 0) <= consumed_of k (dd_consumed sb)) →
  served q now_d now_a (Ok funder) {| rl_nonces := sn; rl_budget := sb |} w.
Proof.
  intros (Hl & _) He Hnew Hs1 Hc1 Hin1 Hin Hc (s0 & Hs0 & Hp) Hwf Hnet.
  set (e := Accepted q funder now_d now_a).
  assert (∀ seen, nonces_cover seen (pw_log w) → job_key q ∈ seen →
            nonces_cover seen (pw_log w ++ [e])) as Hcov.
  { intros seen Hsc Hsin k Hk. rewrite accepted_keys_app in Hk.
    apply elem_of_app in Hk as [Hk|Hk]; [auto|]. simpl in Hk. by apply list_elem_of_singleton in Hk as ->. }
  assert (∀ k, net k (pw_log w ++ [e]) <= consumed_of k (dd_consumed sb)) as Hn.
  { intros k. rewrite net_app. unfold net at 2. csimpl. rewrite Zsum_cons, Zsum_nil. specialize (Hnet k).
    case_bool_decide; case_decide; done || lia. }
  assert (budget_covers (dd_consumed s0) (pw_log w ++ [e])) as Hb0.
  { destruct Hwf as [Hw Hk]. split; [split|].
    - unfold dict_wf, dict_keys in *. by rewrite (fmap_Permutation fst _ _ Hp).
    - intros k. unfold dict_keys in *. rewrite (fmap_Permutation fst _ _ Hp). apply Hk.
    - intros k. unfold consumed_of. rewrite <-(dict_perm_get (dd_consumed sb) (dd_consumed s0)); [apply Hn | done | done]. }
  split; [split_and!|split; [|split]]; simpl.
  - apply log_ok_snoc; [done | done |]. intros k Hk. by apply list_elem_of_singleton in Hk as ->.
  - exists s1. auto.
  - exists s0. auto.
  - auto.
  - done.
  - done.
Qed.

(** What a reservation leaves in memory covers the ledger, even if the request
    is then not accepted. *)
Lemma reserved_ok nonces d w k0 a :
  nonces_cover (dn_seen nonces) (pw_log w) → budget_wf d → 0 <= a →
  (∀ k, net k (pw_log w) + (if decide (k0 = k) then a else 0) <= consumed_of k d) →
  mem_ok {| rl_nonces := nonces; rl_budget := {| dd_consumed := d |} |} w.
Proof.
  intros Hn Hwf Ha Hcov. split; [done|]. split; [done|].
  intros k. specialize (Hcov k). simpl. case_decide; lia.
Qed.

(** The last step: the nonce of a request that passed every check, and whose
    ceiling is reserved, is remembered. *)
Lemma remember_accepted q funder now_d now_a v nonces d w :
  pget "job_nonce" (rq_auth q) = Ok v → disk_ok w →
  nonces_cover (dn_seen nonces) (pw_log w) → job_key q ∉ accepted_keys (pw_log w) →
  event_ok (pw_log w) (Accepted q funder now_d now_a) →
  (∃ s0, durable_budget_init (pw_budget w) = Ok s0 ∧ dd_consumed s0 ≡ₚ d) →
  budget_wf d → 0 <= ceiling q →
  (∀ k, net k (pw_log w) + (if decide (bucket q = k) then ceiling q else 0) <= consumed_of k d) →
  wpm pay_exec disk_ok (_ ← on_nonces (ns_remember (py_str v)); mret funder)
    (served q now_d now_a) {| rl_nonces := nonces; rl_budget := {| dd_consumed := d |} |} w.
Proof.
  intros Hv Hd Hnc Hnew Hev Hdisk Hwf Ha Hcov.
  apply wpm_bind, wpm_zoom. simpl. rewrite <-(pget_Ok_str _ _ _ Hv). fold (job_key q).
  apply wpm_bind, wpm_modify; [done|]. apply wpm_bind, wpm_get; [done|].
  set (sn := {| dn_seen := set_add (job_key q) (dn_seen nonces) |}).
  assert (nonces_cover (dn_seen sn) (pw_log w)) as Hsn.
  { intros k Hk. apply elem_set_add. auto. }
  assert (job_key q ∈ dn_seen sn) as Hin by (apply elem_set_add; by left).
  pay_perform pay_exec; [done|]. intros r w2 [[-> ->]|[-> ->]]%exec_inv.
  - pose proof (disk_ok_nonces sn w Hd Hsn) as Hd2. split; [done|]. apply wpm_lift; [done|].
    apply wpm_ret; [done|].
    destruct (durable_nonces_restart sn) as (s1 & Hs1 & Heq).
    apply (add_accepted _ _ _ _ _ _ _ s1); simpl; try done.
    + intros k Hk. by apply Heq, Hsn.
    + by apply Heq.
  - split; [done|]. apply wpm_lift; [done|]. split; [done|]. by eapply reserved_ok.
Qed.

Lemma verify_relayed_keeps q now_d now_a s w :
  json_request q → disk_ok w → mem_ok s w →
  wpm pay_exec disk_ok (verify_relayed cfg q now_d now_a) (served q now_d now_a) s w.
Proof.
  intros [Hja Hjd] Hd Hm. unfold verify_relayed.
  apply wpm_check; [done | intros funder Hchain%rethrow_Ok | done].
  apply delegated_authorization_ok in Hchain as Hok.
  apply wpm_check; [done | intros _ Hprov%raise_if_Ok%negb_false_iff%String.eqb_eq | done].
  apply wpm_check; [done | intros [] Hrh%request_hash_check_Ok | done].
  apply wpm_check; [done | intros m Hmax | done].
  apply wpm_check; [done | intros _ Hprice%raise_if_Ok | done].
  apply wpm_check; [done | intros nonce Hnonce | done].
  apply bind_Ok_inv in Hnonce as (v & Hv & Hnonce). injection Hnonce as <-.
  apply wpm_bind, wpm_gets; [done|].
  apply wpm_check; [done | intros _ Hseen%raise_if_Ok | done].
  simpl in Hseen. apply bool_decide_eq_false in Hseen.
  rewrite <-(pget_Ok_str _ _ _ Hv) in Hseen. change (job_key q ∉ dn_seen (rl_nonces s)) in Hseen.
  apply wpm_balance_keeps; [done | | done].
  destruct (dg_delegated _ _ _ _ _ _ _ _ Hok) as (a & Hsig & _).
  destruct (signed_nonce _ _ _ _ Hjd Hsig) as (n & b & Hn & Hb).
  rewrite Hn. apply wpm_check; [done | intros dn Hdn; injection Hdn as <- | done].
  apply wpm_check; [done | intros c Hcap | done].
  apply wpm_check; [done | intros amount Hamount | done].
  assert (amount = m) as -> by congruence. simpl.
  assert (bucket q = budget_key n) as Hbucket by (unfold bucket; by rewrite (pget_Ok_str _ _ _ Hn)).
  assert (ceiling q = m) as Hceil by (unfold ceiling; by rewrite Hmax).
  assert (cap q = c) as Hcapq by (unfold cap; by rewrite Hcap).
  destruct Hm as [Hnc Hbc].
  apply (wpm_reserve _ b); [done | done | by split | | |].
  - apply wpm_check; [done | done | done].
  - intros d w1 Hres Hd1 Hlog Hdisk. apply wpm_check; [done | intros _ _ | done].
    destruct (reserve_covers _ _ _ _ _ _ _ Hb Hres Hbc) as (Ha & Hnet & Hwf & Hcov).
    apply (remember_accepted _ _ _ _ v); rewrite ?Hlog, ?Hbucket, ?Hceil; try done.
    + intros Hk. by apply Hseen, Hnc.
    + simpl. rewrite Hbucket, Hceil, Hcapq. split_and!; [|done | done].
      split; [done | done | done | rewrite Hceil; lia].
  - intros d w1 Hres Hd1 Hlog.
    destruct (reserve_covers _ _ _ _ _ _ _ Hb Hres Hbc) as (Ha & Hnet & Hwf & Hcov).
    split; [done|]. apply (reserved_ok _ _ _ (budget_key n) m); by rewrite ?Hlog.
Qed.

(** *** All calls *)

Lemma log_ok_released log k a : log_ok log → log_ok (log ++ [Released k a]).
Proof. intros Hl. apply log_ok_snoc; [done | done |]. intros x Hx. by apply not_elem_of_nil in Hx. Qed.

Lemma net_released k k' a log : net k (log ++ [Released k' a]) <= net k log.
Proof.
  rewrite net_app. unfold net at 2. csimpl. rewrite Zsum_cons, Zsum_nil. case_bool_decide; lia.
Qed.

(** A release is in the ledger before the budget shrinks. *)
Lemma disk_ok_released w k a : disk_ok w → disk_ok (add_event w (Released k a)).
Proof.
  intros (Hl & (sn & Hsn & Hcn) & (sb & Hsb & Hwf & Hc)). split_and!; simpl.
  - by apply log_ok_released.
  - exists sn. split; [done|]. intros x. rewrite accepted_keys_app, app_nil_r. apply Hcn.
  - exists sb. split; [done|]. split; [done|]. intros x. pose proof (net_released x k a (pw_log w)).
    specialize (Hc x). lia.
Qed.

Lemma release_keeps n b a s w :
  to_bytes32 (VStr n) = Ok b → disk_ok w → mem_ok s w →
  let w0 := add_event w (Released (budget_key n) a) in
  wpm pay_exec disk_ok (release_reservation n a) (λ _ s' w', disk_ok w' ∧ mem_ok s' w') s w0.
Proof.
  intros Hb Hd [Hn Hc] w0. pose proof (disk_ok_released w (budget_key n) a Hd) as Hd0.
  pose proof (release_covers n b a _ _ Hb Hc) as Hc0.
  assert (nonces_cover (dn_seen (rl_nonces s)) (pw_log w0)) as Hn0.
  { intros x. simpl. rewrite accepted_keys_app, app_nil_r. apply Hn. }
  unfold release_reservation. apply wpm_bind, wpm_try, wpm_zoom. simpl. destruct (a <=? 0).
  - apply wpm_ret; [done|]. by apply wpm_ret.
  - apply wpm_bind, wpm_modify; [done|]. unfold budget_persist. apply wpm_bind, wpm_get; [done|].
    pay_perform pay_exec; [done|]. intros r w' [[-> ->]|[-> ->]]%exec_inv.
    + set (sb := {| dd_consumed := budget_release n a (dd_consumed (rl_budget s)) |}).
      pose proof (disk_ok_budget sb w0 Hd0 Hc0). split; [done|]. apply wpm_lift; [done|]. by apply wpm_ret.
    + split; [done|]. apply wpm_lift; [done|]. by apply wpm_ret.
Qed.

Lemma relayer_calls_ok s w p w' :
  relayer_calls s w p w' → disk_ok w → mem_ok s w →
  wp pay_exec disk_ok p (λ rs w1, ∀ w2, relayer_returns rs.1 w1 w2 → disk_ok w2 ∧ mem_ok rs.2 w2) w'.
Proof.
  intros Hc Hd Hm. destruct Hc as [q now_d now_a s w Hj|n b a s w Hb].
  - change (wpm pay_exec disk_ok (serve q now_d now_a)
              (λ r s w1, ∀ w2, relayer_returns r w1 w2 → disk_ok w2 ∧ mem_ok s w2) s w).
    unfold serve. apply wpm_bind, wpm_try. eapply wpm_mono; [by apply verify_relayed_keeps|].
    intros [funder|e] s' w1 Hd1 Hs; apply wpm_ret; [done | | done |]; by intros w2 ->.
  - change (wpm pay_exec disk_ok (_ ← release_reservation n a; mret None)
              (λ r s w1, ∀ w2, relayer_returns r w1 w2 → disk_ok w2 ∧ mem_ok s w2) s
              (add_event w (Released (budget_key n) a))).
    apply wpm_bind. eapply wpm_mono; [by eapply release_keeps|].
    intros [[]|e] s' w1 Hd1 [Hd' Hm']; [apply wpm_ret; [done|]|]; by intros w2 ->.
Qed.

Lemma relayer_log_ok n : relayer_reachable n → log_ok (pw_log n.2).
Proof.
  intros Hr. destruct (process_reachable_inv pay_exec relayer_calls relayer_returns relayer_boot
    disk_ok mem_ok relayer_calls_ok boot_ok pay_world0 n disk_ok0 Hr) as [_ Hd].
  apply Hd.
Qed.

(** A nonce that a signature binds has one bucket. *)
Lemma bucket_of_nonce q n b :
  dict_get "delegation_nonce" (rq_delegation q) = Some (VStr n) → to_bytes32 (VStr n) = Ok b →
  bucket q = "0x" +:+ hex b.
Proof.
  intros Hn Hb. unfold bucket, pget_str. rewrite Hn. simpl. by apply budget_key_bytes32.
Qed.
End RelayerWorld.

(** ** Claims *)

(** C3 No overspend: whatever the sequence of requests, releases, failed writes,
    crashes and restarts, each accepted request was covered when accepted: the
    ceilings accepted so far under its delegation nonce, less what was released,
    plus its own ceiling, are within the cap its delegation signed.  A relayer
    cannot exceed the cap by restarting the node, by respelling the nonce or by a
    request that dies between the two writes. *)
Theorem relayer_no_overspend `{Externals, Eip712} cfg n l1 q funder now_d now_a l2 :
  relayer_reachable cfg n → pw_log n.2 = l1 ++ Accepted q funder now_d now_a :: l2 →
  0 <= ceiling q ∧ net (bucket q) l1 + ceiling q <= cap q.
Proof.
  intros Hr Hl. destruct (relayer_log_ok cfg n Hr) as [_ Hev].
  destruct (Hev _ _ _ Hl) as (_ & Hc & Hcap). done.
Qed.


(** One signed delegation, one bucket: two textual spellings of the delegation
    nonce that the funder's signature does not distinguish (with or without 0x,
    any case, any white space) are charged to the same budget bucket, and
    spellings of different nonces never are. *)
Theorem budget_bucket_canonical n1 n2 b1 b2 :
  to_bytes32 (VStr n1) = Ok b1 → to_bytes32 (VStr n2) = Ok b2 →
  budget_key n1 = budget_key n2 ↔ b1 = b2.
Proof.
  intros H1 H2. rewrite (budget_key_bytes32 _ _ H1), (budget_key_bytes32 _ _ H2). split.
  - change (String "0" (String "x" (hex b1)) = String "0" (String "x" (hex b2)) → b1 = b2).
    intros Heq. injection Heq as Heq. by apply hex_inj.
  - by intros ->.
Qed.

(** * The payment verifiers on concrete requests

    A toy deployment on which the hypotheses of the payment claims hold, and two
    behaviours of the code that the claims leave room for: the nonce store tells
    apart spellings that the signature does not, and loading a budget file written
    with unnormalised keys keeps one of the amounts. *)

#[local] Open Scope string_scope.
#[local] Open Scope list_scope.
#[local] Open Scope Z_scope.

Import Toy ToyEip712.

Definition sample_config : VerifierConfig :=
  {| vc_provider := lower sample_provider; vc_has_balance_reader := true; vc_chain_id := None |}.

Definition sample_request_hash : pval := VBytes (repeat xab 32).

(** Everyone's escrow holds 70 wei and every write succeeds. *)
Definition sample_answer (e : pay) (w : PayWorld) : option (response e * PayWorld) :=
  match e return option (response (s := pay) e * PayWorld) with
  | SaveNonces j => Some (Ok (), {| pw_nonces := Json j; pw_budget := pw_budget w; pw_log := pw_log w |})
  | SaveBudget j => Some (Ok (), {| pw_nonces := pw_nonces w; pw_budget := Json j; pw_log := pw_log w |})
  | ReadBalance _ => Some (Ok 70, w)
  end.

Lemma sample_answer_exec e w r w' : sample_answer e w = Some (r, w') → pay_exec e w r w'.
Proof. destruct e; intros Heq; injection Heq as <- <-; constructor. Qed.

(** ** The direct verifier *)

Definition sample_verify (nonce : string) : M pay InMemoryNonceStore string :=
  verify_authorization sample_config (sample_authorization nonce)
    (VBytes (sample_signature (hex32 "01"))) sample_request_hash 60 (2001 # 2).

(** The world of one call: nothing but the balances is used. *)
Definition sample_exec (e : pay) (w : unit) : response e → unit → Prop :=
  match e return response (s := pay) e → unit → Prop with
  | ReadBalance _ => λ r w', r = Ok 70 ∧ w' = w
  | SaveNonces _ | SaveBudget _ => λ r w', r = Ok ()
  end.

Lemma authorization_exact_witness :
  wpm sample_exec (λ _, True) (sample_verify (hex32 "01"))
    (λ r s' _, ∀ signer, r = Ok signer →
       ∃ v, dict_get "job_nonce" (sample_authorization (hex32 "01")) = Some v ∧
            ∀ k, k ∈ im_seen s' ↔ k = nonce_key (py_str v) ∨ k ∈ []) {| im_seen := [] |} ().
Proof.
  eapply wpm_mono.
  - apply (authorization_exact (NS := InMemoryNonceStore) (view := im_seen) sample_exec (λ _ _, Ok 70)
             sample_config (sample_authorization (hex32 "01")) (VBytes (sample_signature (hex32 "01")))
             sample_request_hash 60 (2001 # 2) {| im_seen := [] |} ()).
    + split; intros j w r w' Hr; left; exact Hr.
    + intros a w r w' Hr. exact Hr.
  - intros r s' w _ (Hr & _) signer Heq. apply (Hr signer Heq).
Defined.

(** It is accepted. *)
Example sample_accepted :
  fst <$> run sample_answer (sample_verify (hex32 "01") {| im_seen := [] |}) pay_world0 =
  Some (Ok sample_requester, {| im_seen := [hex32 "01"] |}).
Proof. vm_compute. reflexivity. Qed.

(** The same signed authorization is accepted a second time when its nonce is
    spelled with 0x: the signature binds the 32 bytes, the nonce store the text. *)
Lemma nonce_spelling_replays :
  to_bytes32 (VStr (hex32 "01")) = to_bytes32 (VStr ("0x" +:+ hex32 "01")) ∧
  ∃ s1 s2,
    fst <$> run sample_answer (sample_verify (hex32 "01") {| im_seen := [] |}) pay_world0 =
      Some (Ok sample_requester, s1) ∧
    fst <$> run sample_answer (sample_verify ("0x" +:+ hex32 "01") s1) pay_world0 =
      Some (Ok sample_requester, s2).
Proof.
  split; [vm_compute; reflexivity|].
  exists {| im_seen := [hex32 "01"] |}, {| im_seen := [hex32 "01"; "0x" +:+ hex32 "01"] |}.
  split; vm_compute; reflexivity.
Qed.

(** ** The relayer *)

Definition sample_relayer_key : bytes := pad 20 [x77].

Definition relayed_authorization (nonce : string) : payload :=
  [("requester", VStr sample_requester); ("provider", VStr sample_provider);
   ("max_spend_wei", VInt 100); ("job_nonce", VStr nonce); ("expiry_unix", VInt 2000);
   ("request_hash", VStr ("0x" +:+ hex32 "ab"))].

Definition sample_delegation : payload :=
  [("requester", VStr sample_requester); ("relayer", VStr ("0x" +:+ hex sample_relayer_key));
   ("provider", VStr sample_provider); ("max_total_spend_wei", VInt 150);
   ("delegation_nonce", VStr (hex32 "0D")); ("expiry_unix", VInt 3000)].

Definition signed (r : result bytes) : pval := match r with Ok s => VBytes s | Err _ => VNone end.

Definition sample_relayed (nonce : string) : RelayedRequest := {|
  rq_auth := relayed_authorization nonce;
  rq_auth_signature :=
    signed (sign_payment_authorization (relayed_authorization nonce) sample_relayer_key DEFAULT_CHAIN_ID);
  rq_delegation := sample_delegation;
  rq_delegation_signature :=
    signed (sign_payment_delegation sample_delegation sample_key DEFAULT_CHAIN_ID);
  rq_request_hash := sample_request_hash;
  rq_quoted_price_wei := 60
|}.

Definition empty_relayer : DurableRelayer :=
  {| rl_nonces := {| dn_seen := [] |}; rl_budget := {| dd_consumed := [] |} |}.

(** The state after the first request. *)
Definition sample_served : option (result (option pay_event) * DurableRelayer * PayWorld) :=
  run sample_answer (serve sample_config (sample_relayed (hex32 "01")) (2001 # 2) (2001 # 2) empty_relayer)
      pay_world0.

Definition served_event : pay_event :=
  Accepted (sample_relayed (hex32 "01")) sample_requester (2001 # 2) (2001 # 2).

Definition served_stores : DurableRelayer :=
  {| rl_nonces := {| dn_seen := [hex32 "01"] |};
     rl_budget := {| dd_consumed := [("0x" +:+ hex32 "0d", 100)] |} |}.

Definition served_world : PayWorld :=
  {| pw_nonces := Json (nonce_state (rl_nonces served_stores));
     pw_budget := Json (budget_state (rl_budget served_stores)); pw_log := [] |}.

Lemma sample_served_ok : sample_served = Some ((Ok (Some served_event), served_stores), served_world).
Proof. vm_compute. reflexivity. Qed.

(** Its second request would exceed the cap of 150. *)
Example sample_over_cap :
  fst <$> run sample_answer
    (verify_relayed sample_config (sample_relayed (hex32 "02")) (2001 # 2) (2001 # 2) served_stores) served_world =
  Some (Err (AuthorizationRejected "delegation-budget-exceeded"), served_stores).
Proof. vm_compute. reflexivity. Qed.

Lemma sample_json : json_request (sample_relayed (hex32 "01")).
Proof.
  split; intros k b Hk; apply dict_get_elem in Hk;
    repeat (apply elem_of_cons in Hk as [Hk|Hk]; [discriminate Hk|]); by apply not_elem_of_nil in Hk.
Qed.

Lemma sample_reachable :
  relayer_reachable sample_config (Idle served_stores, add_event served_world served_event).
Proof.
  eapply rtc_l; [apply (process_boot _ _ _ _ empty_relayer); split; vm_compute; reflexivity|].
  eapply rtc_l; [apply process_call, (call_verify sample_config (sample_relayed (hex32 "01")) (2001 # 2) (2001 # 2)), sample_json|].
  etransitivity; [|apply rtc_once, (process_return _ _ _ _ (Ok (Some served_event)) _ served_world); reflexivity].
  apply (run_process pay_exec _ _ _ sample_answer); [exact sample_answer_exec | exact sample_served_ok].
Qed.

Lemma relayer_no_overspend_witness :
  0 <= ceiling (sample_relayed (hex32 "01")) ∧
  net (bucket (sample_relayed (hex32 "01"))) [] + ceiling (sample_relayed (hex32 "01")) <=
  cap (sample_relayed (hex32 "01")).
Proof.
  apply (relayer_no_overspend sample_config (Idle served_stores, add_event served_world served_event) []
           (sample_relayed (hex32 "01")) sample_requester (2001 # 2) (2001 # 2) []).
  - exact sample_reachable.
  - reflexivity.
Defined.


Lemma budget_bucket_canonical_witness :
  budget_key ("0x" +:+ hex32 "AB") = budget_key (" " +:+ hex32 "ab ") ↔ repeat xab 32 = repeat xab 32.
Proof. apply budget_bucket_canonical; vm_compute; reflexivity. Defined.

(** A budget file that holds two spellings of one nonce is loaded with the amount
    of the last one. *)
Lemma load_keeps_last_spelling :
  durable_budget_init (Json (JObj [("version", JInt 1);
    ("consumed", JObj [("0x" +:+ hex32 "ab", JStr "100"); (hex32 "ab", JStr "5")])])) =
  Ok {| dd_consumed := [("0x" +:+ hex32 "ab", 5)] |}.
Proof. vm_compute. reflexivity. Qed.
