(* ===== verification/EpochRun.v ===== *)
(** * The epoch job and its watermark

    Models prsm/settlement/epoch_watermark.py ([EpochWatermarkStore], the durable
    set of batches already paid) and prsm/settlement/epoch_runner.py ([run_epoch]:
    plan, publish, persist, manifest).  The reward pool contract and the file
    system are effects. *)
From Stdlib Require Import ZArith Lia.
From S2P Require Import PyStd.
From S2P Require Import Externals.
From S2P Require Import Receipt.
From S2P Require Import Attestation.
From S2P Require Import Published.
From S2P Require Import Effects.
From S2P Require Import Emission.
From S2P Require Import Prelude.

#[local] Open Scope string_scope.
#[local] Open Scope list_scope.
#[local] Open Scope Z_scope.

(** ** Effects *)

Inductive epoch_request : Type :=
| ReadWatermark                                       (* the watermark file *)
| SaveWatermark (state : json)                        (* the atomic write of [_save] *)
| ReadManifest (name : string)
| WriteManifest (name : string) (manifest : json)     (* atomic, like the watermark *)
| EpochExists (epoch_id : Z)
| UnreservedBalance
| PublishEpoch (epoch_id : Z) (merkle_root : bytes) (total_amount_wei : Z) (paid : list string).
    (* [paid] is not an argument of the call: it names, for the theorems, the
       batches the published root pays *)

Definition epoch_response (e : epoch_request) : Type :=
  match e with
  | ReadWatermark | ReadManifest _ => file
  | SaveWatermark _ | WriteManifest _ _ => result unit
  | EpochExists _ => result bool
  | UnreservedBalance => result Z
  | PublishEpoch _ _ _ _ => result string
  end.

Definition epoch : signature := {| request := epoch_request; response := epoch_response |}.

(** An effect whose response may be an exception. *)
Definition perform_result {S A} (e : epoch) (f : response e → result A) : M epoch S A :=
  r ← perform (E := epoch) e; lift (f r).

(** ** The watermark *)

Record Watermark : Type := {
  wm_consumed : list string;
  wm_last_epoch_id : option Z;
  wm_loaded : bool
}.

(** [EpochWatermarkStore(path)] *)
Definition watermark_init : Watermark :=
  {| wm_consumed := []; wm_last_epoch_id := None; wm_loaded := false |}.

Section Watermark.
(** [str()] of a list or a dict, met only in a malformed file. *)
Context (str_of_container : json → string).

Definition lower_str (j : json) : string := lower (format_json str_of_container j).

Definition watermark_load : M epoch Watermark unit :=
  f ← perform (E := epoch) ReadWatermark;
  match f with
  | Absent => modify (λ w, {| wm_consumed := wm_consumed w; wm_last_epoch_id := wm_last_epoch_id w;
                              wm_loaded := true |})
  | Json (JObj raw) =>
      match dict_get "consumed_batch_ids" raw with
      | Some (JArr ids) =>
          _ ← modify (λ w, {| wm_consumed := set_union [] (lower_str <$> ids);
                              wm_last_epoch_id := wm_last_epoch_id w; wm_loaded := wm_loaded w |});
          last ← match dict_get "last_epoch_id" raw with
                 | None | Some JNull => mret None
                 | Some j => z ← lift (int_of_json j); mret (Some z)
                 end;
          modify (λ w, {| wm_consumed := wm_consumed w; wm_last_epoch_id := last; wm_loaded := true |})
      | _ => raise WatermarkIntegrityError
      end
  | _ => raise WatermarkIntegrityError
  end.

(** What [_save] writes. *)
Definition watermark_state (w : Watermark) : json :=
  JObj [("consumed_batch_ids", JArr (JStr <$> sort_by string_leb (wm_consumed w)));
        ("last_epoch_id", match wm_last_epoch_id w with Some z => JInt z | None => JNull end);
        ("count", JInt (zlen (wm_consumed w)))].

Definition watermark_save : M epoch Watermark unit :=
  w ← get; perform_result (SaveWatermark (watermark_state w)) id.

Definition require_loaded : M epoch Watermark unit :=
  l ← gets wm_loaded; lift (raise_if (negb l) WatermarkIntegrityError).

(** The properties [consumed] and [last_epoch_id], and [next_epoch_id()]. *)
Definition get_consumed : M epoch Watermark (list string) := _ ← require_loaded; gets wm_consumed.
Definition get_last_epoch_id : M epoch Watermark (option Z) := _ ← require_loaded; gets wm_last_epoch_id.
Definition next_id (w : Watermark) : Z :=
  match wm_last_epoch_id w with None => 1 | Some l => l + 1 end.
Definition next_epoch_id : M epoch Watermark Z := _ ← require_loaded; gets next_id.
Definition has_consumed (batch : string) : M epoch Watermark bool :=
  _ ← require_loaded; gets (λ w, bool_decide (lower batch ∈ wm_consumed w)).

Definition commit_epoch (epoch_id : Z) (consumed_batch_ids : list string) : M epoch Watermark Z :=
  _ ← require_loaded;
  w ← get;
  let ids := set_union [] (lower <$> consumed_batch_ids) in
  if match wm_last_epoch_id w with Some l => epoch_id <=? l | None => false end then
    let new := filter (λ b, b ∉ wm_consumed w) ids in
    if bool_decide (new = []) then mret 0
    else
      _ ← modify (λ w, {| wm_consumed := set_union (wm_consumed w) new;
                          wm_last_epoch_id := wm_last_epoch_id w; wm_loaded := wm_loaded w |});
      _ ← watermark_save;
      mret (zlen new)
  else
    let before := zlen (wm_consumed w) in
    _ ← modify (λ w, {| wm_consumed := set_union (wm_consumed w) ids;
                        wm_last_epoch_id := Some epoch_id; wm_loaded := wm_loaded w |});
    _ ← watermark_save;
    w' ← get;
    mret (zlen (wm_consumed w') - before).

Definition reconcile_from_chain (epoch_id : Z) (plan_batch_ids : list string)
    (published_on_chain : bool) : M epoch Watermark bool :=
  _ ← require_loaded;
  w ← get;
  if negb published_on_chain then mret false
  else if match wm_last_epoch_id w with Some l => epoch_id <=? l | None => false end then mret false
  else _ ← commit_epoch epoch_id plan_batch_ids; mret true.

(** ** The manifest *)

(** [_manifest_file]; [has_dir] says whether a directory was given. *)
Definition manifest_file (has_dir : bool) (epoch_id : Z) : option string :=
  if has_dir then Some ("epoch-" +:+ str_of_int epoch_id +:+ ".json") else None.

(** What [_load_manifest_batches] makes of the file; JSON that is not an object
    has no [get]. *)
Definition manifest_batches (f : file) : result (option (list string)) :=
  match f with
  | Json (JObj data) =>
      match dict_get "consumed_batch_ids" data with
      | Some (JArr ids) => Ok (Some (format_json str_of_container <$> ids))
      | _ => Ok None
      end
  | Json _ => Err AttributeError
  | _ => Ok None
  end.

Definition load_manifest_batches (has_dir : bool) (epoch_id : Z)
  : M epoch Watermark (option (list string)) :=
  match manifest_file has_dir epoch_id with
  | None => mret None
  | Some name => perform_result (ReadManifest name) manifest_batches
  end.

Definition hex0x (b : bytes) : string := "0x" +:+ hex b.

Section Runner.
Context `{Externals}.

Definition manifest_entry (reward : RewardEpoch) (e : RewardEntry) : result json :=
  proof ← epoch_proof reward (account e);
  Ok (JObj [("account", JStr (account e)); ("amount_wei", JStr (str_of_int (amount_wei e)));
            ("proof", JArr ((λ h, JStr (hex0x h)) <$> proof))]).

Definition manifest_payload (plan : EmissionEpochPlan) (reward : RewardEpoch) : result json :=
  entries ← result_mapM (manifest_entry reward) (plan_entries plan);
  Ok (JObj [("epoch_id", JInt (plan_epoch_id plan));
            ("merkle_root", JStr (hex0x (re_merkle_root reward)));
            ("total_amount_wei", JStr (str_of_int (total_allocated_wei plan)));
            ("recipients", JInt (zlen (plan_entries plan)));
            ("consumed_batch_ids", JArr (JStr <$> plan_consumed_batch_ids plan));
            ("entries", JArr entries)]).

Definition write_manifest (has_dir : bool) (plan : EmissionEpochPlan) (reward : RewardEpoch)
  : M epoch Watermark (option string) :=
  match manifest_file has_dir (plan_epoch_id plan) with
  | None => mret None
  | Some name =>
      payload ← lift (manifest_payload plan reward);
      _ ← perform_result (WriteManifest name payload) id;
      mret (Some name)
  end.

(** ** The job *)

Record EpochRunResult : Type := {
  er_epoch_id : Z;
  er_published : bool;
  er_dry_run : bool;
  er_tx_hash : option string;
  er_merkle_root : string;
  er_total_amount_wei : Z;
  er_recipients : Z;
  er_consumed_batches : Z;
  er_recovered_from_chain : bool;
  er_manifest_path : option string
}.

(** The arguments of [run_epoch] other than its collaborators. *)
Record EpochRunArgs : Type := {
  ra_batches : list FinalizedBatch;
  ra_pot_wei : option Z;
  ra_dry_run : bool;
  ra_window_start : option Z;
  ra_window_end : option Z
}.

(** Step 3: an epoch published but not persisted is adopted from its manifest. *)
Definition recover_published (has_dir : bool) (epoch_id : Z) : M epoch Watermark (bool * Z) :=
  prior ← load_manifest_batches has_dir epoch_id;
  match prior with
  | None => raise EpochRunAborted
  | Some prior =>
      recovered ← reconcile_from_chain epoch_id prior true;
      epoch_id' ← next_epoch_id;
      exists' ← perform_result (EpochExists epoch_id') id;
      _ ← lift (raise_if exists' EpochRunAborted);
      mret (recovered, epoch_id')
  end.

(** Step 4: the pot to distribute. *)
Definition choose_pot (pot_wei : option Z) : M epoch Watermark Z :=
  available ← perform_result UnreservedBalance id;
  pot ← match pot_wei with
        | None => mret available
        | Some pot => _ ← lift (raise_if (available <? pot) EpochRunAborted); mret pot
        end;
  _ ← lift (raise_if (pot <=? 0) EpochRunAborted);
  mret pot.

(** The start of step 1: an unloaded watermark is loaded. *)
Definition loaded_consumed : M epoch Watermark (list string) :=
  r ← try get_consumed;
  match r with
  | Err WatermarkIntegrityError => _ ← watermark_load; get_consumed
  | r => lift r
  end.

(** Steps 4 to 6, once the watermark has caught up with the chain. *)
Definition plan_and_publish (has_dir : bool) (a : EpochRunArgs) (recovered : bool) (epoch_id : Z)
  : M epoch Watermark EpochRunResult :=
  consumed ← get_consumed;
  pot ← choose_pot (ra_pot_wei a);
  plan ← lift (build_emission_epoch epoch_id (ra_batches a) pot consumed
                 (ra_window_start a) (ra_window_end a));
  reward ← lift (plan_to_reward_epoch plan);
  _ ← lift (raise_if (negb (total_allocated_wei plan =? pot)) AssertionError);
  let result := {|
    er_epoch_id := plan_epoch_id plan; er_published := false; er_dry_run := ra_dry_run a;
    er_tx_hash := None; er_merkle_root := hex0x (re_merkle_root reward);
    er_total_amount_wei := total_allocated_wei plan; er_recipients := zlen (plan_entries plan);
    er_consumed_batches := zlen (plan_consumed_batch_ids plan);
    er_recovered_from_chain := recovered; er_manifest_path := None |} in
  if ra_dry_run a then mret result
  else
    manifest_path ← write_manifest has_dir plan reward;
    tx_hash ← perform_result (PublishEpoch (plan_epoch_id plan) (re_merkle_root reward)
                                (total_allocated_wei plan) (plan_consumed_batch_ids plan)) id;
    _ ← commit_epoch (plan_epoch_id plan) (plan_consumed_batch_ids plan);
    mret {| er_epoch_id := er_epoch_id result; er_published := true; er_dry_run := er_dry_run result;
            er_tx_hash := Some tx_hash; er_merkle_root := er_merkle_root result;
            er_total_amount_wei := er_total_amount_wei result; er_recipients := er_recipients result;
            er_consumed_batches := er_consumed_batches result;
            er_recovered_from_chain := recovered; er_manifest_path := manifest_path |}.

Definition run_epoch (has_dir : bool) (a : EpochRunArgs) : M epoch Watermark EpochRunResult :=
  _ ← loaded_consumed;
  epoch_id ← next_epoch_id;
  last ← get_last_epoch_id;
  lost ← match last with
         | None => perform_result (EpochExists epoch_id) id
         | Some _ => mret false
         end;
  _ ← lift (raise_if lost WatermarkLostError);
  last ← get_last_epoch_id;
  behind ← match last with
           | Some _ => perform_result (EpochExists epoch_id) id
           | None => mret false
           end;
  '(recovered, epoch_id) ← (if (behind : bool) then recover_published has_dir epoch_id
                            else mret (false, epoch_id));
  plan_and_publish has_dir a recovered epoch_id.
End Runner.
End Watermark.
