(* ===== verification/EpochSafety.v ===== *)
(** * The epoch job over a whole history, and on concrete worlds

    [run_epoch] run for any arguments, in a world where every read and write may
    fail, the process dies at any point and restarts, and the watermark file may
    be lost.  The world's chain records, for each published epoch, the batches it
    paid. *)
From Stdlib Require Import ZArith Lia.
From S2P Require Import PyStd.
From S2P Require Import Externals.
From S2P Require Import Receipt.
From S2P Require Import Attestation.
From S2P Require Import Published.
From S2P Require Import Effects.
From S2P Require Import Emission.
From S2P Require Import EmissionTheorems.
From S2P Require Import EpochRun.
From S2P Require Import Prelude.
From stdpp Require Import relations.

#[local] Open Scope string_scope.
#[local] Open Scope list_scope.
#[local] Open Scope Z_scope.

Record EpochWorld : Type := {
  ew_watermark : file;
  ew_manifests : string → file;
  ew_chain : list (Z * list string)
}.

Definition with_watermark (f : file) (w : EpochWorld) : EpochWorld :=
  {| ew_watermark := f; ew_manifests := ew_manifests w; ew_chain := ew_chain w |}.
Definition with_manifest (name : string) (j : json) (w : EpochWorld) : EpochWorld :=
  {| ew_watermark := ew_watermark w;
     ew_manifests := λ n, if bool_decide (n = name) then Json j else ew_manifests w n;
     ew_chain := ew_chain w |}.
Definition with_published_epoch (e : Z) (paid : list string) (w : EpochWorld) : EpochWorld :=
  {| ew_watermark := ew_watermark w; ew_manifests := ew_manifests w;
     ew_chain := ew_chain w ++ [(e, paid)] |}.

(** The pool's answers are true; a publish of an existing id reverts, one that
    returns has landed, and one that raises has landed or never will. *)
Definition epoch_exec (e : epoch) (w : EpochWorld) : response e → EpochWorld → Prop :=
  match e return response (s := epoch) e → EpochWorld → Prop with
  | ReadWatermark => λ r w', r = ew_watermark w ∧ w' = w
  | SaveWatermark j => λ r w', (r = Ok () ∧ w' = with_watermark (Json j) w) ∨ (r = Err OSError ∧ w' = w)
  | ReadManifest name => λ r w', r = ew_manifests w name ∧ w' = w
  | WriteManifest name j => λ r w', (r = Ok () ∧ w' = with_manifest name j w) ∨ (r = Err OSError ∧ w' = w)
  | EpochExists i => λ r w', (r = Ok (bool_decide (i ∈ (ew_chain w).*1)) ∨ ∃ x, r = Err x) ∧ w' = w
  | UnreservedBalance => λ _ w', w' = w
  | PublishEpoch i _ _ paid => λ r w',
      ((¬ i ∈ (ew_chain w).*1) ∧ w' = with_published_epoch i paid w) ∨ (∃ x, r = Err x ∧ w' = w)
  end.

Section EpochWorld.
Context `{Externals} (str_of_container : json → string) (has_dir : bool).

Inductive epoch_calls
  : Watermark → EpochWorld → prog epoch (result EpochRunResult * Watermark) → EpochWorld → Prop :=
| call_run a s w : epoch_calls s w (run_epoch str_of_container has_dir a s) w
| call_lose s w x : epoch_calls s w (Ret (Err x, s)) (with_watermark Absent w).

Definition epoch_returns (r : result EpochRunResult) (w w' : EpochWorld) : Prop := w' = w.
Definition epoch_boot (w : EpochWorld) (s : Watermark) : Prop := s = watermark_init.

Definition epoch_world0 : EpochWorld :=
  {| ew_watermark := Absent; ew_manifests := λ _, Absent; ew_chain := [] |}.

Definition epoch_reachable (n : process epoch Watermark (result EpochRunResult) * EpochWorld) : Prop :=
  rtc (process_step epoch_exec epoch_calls epoch_returns epoch_boot) (Crashed, epoch_world0) n.

(** ** Invariant *)

(** The batches paid on chain. *)
Definition paid (chain : list (Z * list string)) : list string := chain ≫= λ c, lower <$> c.2.

(** Epoch ids are 1, 2, ..., and no batch is paid twice. *)
Record chain_ok (chain : list (Z * list string)) : Prop := {
  ch_paid : NoDup (paid chain);
  ch_ids : ∀ e, e ∈ chain.*1 → 1 <= e ∧ ∀ e', 1 <= e' <= e → e' ∈ chain.*1
}.

(** The batches a restart would adopt for epoch [e]. *)
Definition adoptable (man : string → file) (e : Z) : option (list string) :=
  match manifest_file has_dir e with
  | None => None
  | Some name => match manifest_batches str_of_container (man name) with Ok p => p | Err _ => None end
  end.

(** What a watermark must know: up to its last epoch every batch paid, for the
    epochs after it nothing but what their manifests say, and no batch that was
    not paid. *)
Record view_ok (chain : list (Z * list string)) (man : string → file) (consumed : list string) (l : Z)
  : Prop := {
  vw_last : l ∈ chain.*1;
  vw_covered : ∀ e ids, (e, ids) ∈ chain → e <= l → ∀ i, i ∈ ids → lower i ∈ consumed;
  vw_manifest : ∀ e ids, (e, ids) ∈ chain → l < e → ∀ p, adoptable man e = Some p → p = ids;
  vw_paid : ∀ c, c ∈ consumed → c ∈ paid chain
}.

Definition view_ok_opt (w : EpochWorld) (consumed : list string) (last : option Z) : Prop :=
  match last with
  | None => consumed = []
  | Some l => view_ok (ew_chain w) (ew_manifests w) consumed l
  end.

Definition disk_ok (w : EpochWorld) : Prop :=
  chain_ok (ew_chain w) ∧
  (ew_watermark w = Absent ∨
   ∃ s l, ew_watermark w = Json (watermark_state s) ∧ wm_last_epoch_id s = Some l ∧
          view_ok (ew_chain w) (ew_manifests w) (wm_consumed s) l).

Definition loaded (s : Watermark) (w : EpochWorld) : Prop :=
  wm_loaded s = true ∧ view_ok_opt w (wm_consumed s) (wm_last_epoch_id s).

Definition mem_ok (s : Watermark) (w : EpochWorld) : Prop :=
  if wm_loaded s then view_ok_opt w (wm_consumed s) (wm_last_epoch_id s)
  else wm_consumed s = [] ∧ wm_last_epoch_id s = None.

Lemma loaded_mem s w : loaded s w → mem_ok s w.
Proof. intros [Hl Hv]. unfold mem_ok. by rewrite Hl. Qed.

Lemma elem_paid c chain : c ∈ paid chain ↔ ∃ e ids i, (e, ids) ∈ chain ∧ i ∈ ids ∧ c = lower i.
Proof.
  unfold paid. rewrite list_elem_of_bind. split.
  - intros ([e ids] & (i & -> & Hi)%list_elem_of_fmap & Hin). eauto 10.
  - intros (e & ids & i & Hin & Hi & ->). exists (e, ids). split; [|done]. apply list_elem_of_fmap. eauto.
Qed.

Lemma paid_lower c chain : c ∈ paid chain → lower c = c.
Proof. intros (e & ids & i & _ & _ & ->)%elem_paid. apply lower_idemp. Qed.

(** A watermark with the same members knows the same. *)
Lemma view_ok_ext chain man c1 c2 l :
  (∀ x, x ∈ c1 ↔ x ∈ c2) → view_ok chain man c1 l → view_ok chain man c2 l.
Proof.
  intros Hx []. split; [done | | done |].
  - intros e ids Hin Hle i Hi. apply Hx. by eapply vw_covered0.
  - intros c Hc. apply vw_paid0. by apply Hx.
Qed.

(** *** Loading *)

Lemma lower_strs (ids : list string) x : x ∈ lower_str str_of_container <$> (JStr <$> ids) ↔ ∃ i, i ∈ ids ∧ x = lower i.
Proof.
  rewrite <-list_fmap_compose, list_elem_of_fmap. unfold lower_str. simpl. naive_solver.
Qed.

Lemma load_spec s w :
  disk_ok w → wm_consumed s = [] → wm_last_epoch_id s = None →
  wpm epoch_exec disk_ok (watermark_load str_of_container)
    (λ r s' w', w' = w ∧ r = Ok () ∧ loaded s' w) s w.
Proof.
  intros Hd Hc Hl. unfold watermark_load. apply wpm_bind.
  apply (wpm_perform (E := epoch) epoch_exec _ ReadWatermark); [done|]. intros r w' [-> ->]. split; [done|].
  destruct (proj2 Hd) as [Ha|(s0 & l & Hs0 & Hl0 & Hv)].
  - rewrite Ha. apply wpm_modify; [done|]. split_and!; [done | done | split; [done|]].
    simpl. by rewrite Hl.
  - rewrite Hs0. unfold watermark_state. simpl. rewrite Hl0.
    apply wpm_bind, wpm_modify; [done|]. apply wpm_bind. simpl.
    apply wpm_bind, wpm_lift; [done|]. apply wpm_ret; [done|]. apply wpm_modify; [done|].
    split_and!; [done | done | split; [done|]]. simpl. eapply view_ok_ext; [|exact Hv].
    intros x. rewrite elem_set_union. rewrite lower_strs. split.
    + intros Hx. right. exists x. split; [by apply elem_of_sort_by|].
      symmetry. eapply paid_lower, vw_paid; eassumption.
    + intros [Hn|(i & Hi%elem_of_sort_by & ->)]; [by apply not_elem_of_nil in Hn|].
      erewrite paid_lower; [done|]. eapply vw_paid; eassumption.
Qed.

Lemma wpm_loaded_gets {A B} (g : Watermark → A) (f : A → M epoch Watermark B)
    (Q : result B → Watermark → EpochWorld → Prop) s w :
  disk_ok w → wm_loaded s = true → wpm epoch_exec disk_ok (f (g s)) Q s w →
  wpm epoch_exec disk_ok (x ← (_ ← require_loaded; gets g); f x) Q s w.
Proof.
  intros Hd Hl Hf. apply wpm_bind, wpm_bind. unfold require_loaded. apply wpm_bind, wpm_gets; [done|].
  apply wpm_lift; [done|]. rewrite Hl. simpl. by apply wpm_gets.
Qed.

Lemma loaded_consumed_spec s w :
  disk_ok w → mem_ok s w →
  wpm epoch_exec disk_ok (loaded_consumed str_of_container)
    (λ r s' w', w' = w ∧ is_Ok r ∧ loaded s' w) s w.
Proof.
  intros Hd Hm. unfold loaded_consumed, mem_ok in *. apply wpm_bind, wpm_try.
  unfold get_consumed, require_loaded. apply wpm_bind, wpm_bind, wpm_gets; [done|].
  apply wpm_lift; [done|]. destruct (wm_loaded s) eqn:Hl; simpl.
  - apply wpm_gets; [done|]. apply wpm_lift; [done|]. split_and!; [done | by eexists | done].
  - destruct Hm as [Hc Hlast]. apply wpm_bind. eapply wpm_mono; [by apply load_spec|].
    intros r s' w' _ (-> & -> & Hld). simpl.
    apply wpm_bind, wpm_bind, wpm_gets; [done|]. apply wpm_lift; [done|].
    rewrite (proj1 Hld). simpl. apply wpm_gets; [done|]. split_and!; [done | by eexists | done].
Qed.

(** *** Persisting *)

Definition advanced (s : Watermark) (e : Z) (ids : list string) : Watermark :=
  {| wm_consumed := set_union (wm_consumed s) (set_union [] (lower <$> ids));
     wm_last_epoch_id := Some e; wm_loaded := wm_loaded s |}.

(** [commit_epoch] of a newer epoch: the memory advances, the file follows or
    the write raises. *)
Lemma commit_spec e ids s w (Q : result Z → Watermark → EpochWorld → Prop) :
  disk_ok w → loaded s w → match wm_last_epoch_id s with Some l => l < e | None => True end →
  view_ok (ew_chain w) (ew_manifests w) (wm_consumed (advanced s e ids)) e →
  (∀ r w', disk_ok w' → ew_chain w' = ew_chain w → ew_manifests w' = ew_manifests w →
     Q r (advanced s e ids) w') →
  wpm epoch_exec disk_ok (commit_epoch e ids) Q s w.
Proof.
  intros Hd [Hl Hv] He Hadv HQ. unfold commit_epoch, require_loaded.
  apply wpm_bind, wpm_bind, wpm_gets; [done|]. apply wpm_lift; [done|]. rewrite Hl. simpl.
  apply wpm_bind, wpm_get; [done|].
  assert (match wm_last_epoch_id s with Some l => e <=? l | None => false end = false) as ->
    by (destruct (wm_last_epoch_id s); [lia | done]).
  apply wpm_bind, wpm_modify; [done|]. fold (advanced s e ids). apply wpm_bind.
  unfold watermark_save, perform_result. apply wpm_bind, wpm_get; [done|]. apply wpm_bind.
  apply (wpm_perform (E := epoch) epoch_exec _ (SaveWatermark _)); [done|].
  intros r w' [[-> ->]|[-> ->]].
  - assert (disk_ok (with_watermark (Json (watermark_state (advanced s e ids))) w)) as Hd'.
    { split; [apply Hd|]. right. exists (advanced s e ids), e. done. }
    split; [done|]. apply wpm_lift; [done|]. simpl. apply wpm_bind, wpm_get; [done|].
    apply wpm_ret; [done|]. by apply HQ.
  - split; [done|]. apply wpm_lift; [done|]. by apply HQ.
Qed.

Lemma elem_advanced s e ids x :
  x ∈ wm_consumed (advanced s e ids) ↔ x ∈ wm_consumed s ∨ ∃ i, i ∈ ids ∧ x = lower i.
Proof.
  simpl. rewrite !elem_set_union, list_elem_of_fmap. set_solver.
Qed.

(** *** Ready to plan: every batch paid is known, and the next id is free *)

Record ready (s : Watermark) (e : Z) (w : EpochWorld) : Prop := {
  rd_loaded : loaded s w;
  rd_covered : ∀ c, c ∈ paid (ew_chain w) → c ∈ wm_consumed s;
  rd_new : e ∉ (ew_chain w).*1;
  rd_next : 1 <= e ∧ ∀ e', 1 <= e' < e → e' ∈ (ew_chain w).*1;
  rd_last : match wm_last_epoch_id s with Some l => l < e | None => ew_chain w = [] end
}.

Lemma chain_member e (chain : list (Z * list string)) : e ∈ chain.*1 ↔ ∃ ids, (e, ids) ∈ chain.
Proof.
  rewrite list_elem_of_fmap. split.
  - intros ([e' ids] & -> & Hin). eauto.
  - intros [ids Hin]. by exists (e, ids).
Qed.

Lemma ready_cold s w :
  disk_ok w → loaded s w → wm_last_epoch_id s = None → (¬ 1 ∈ (ew_chain w).*1) → ready s 1 w.
Proof.
  intros [Hc _] Hl Hlast H1.
  assert (ew_chain w = []) as Hnil.
  { destruct (ew_chain w) as [|[e ids] ch] eqn:E; [done|]. exfalso. apply H1.
    destruct (ch_ids _ Hc e) as [He Hall]; [by left|]. apply Hall. lia. }
  split; [done | | done | | by rewrite Hlast].
  - rewrite Hnil. intros c Hin. by apply not_elem_of_nil in Hin.
  - split; [lia|]. intros e' He'. lia.
Qed.

Lemma ready_warm s w l :
  disk_ok w → loaded s w → wm_last_epoch_id s = Some l → (¬ l + 1 ∈ (ew_chain w).*1) → ready s (l + 1) w.
Proof.
  intros [Hc _] Hl Hlast H1. pose proof Hl as [_ Hv]. rewrite Hlast in Hv. simpl in Hv.
  destruct (ch_ids _ Hc l (vw_last _ _ _ _ Hv)) as [Hl1 Hall].
  split; [done | | done | | rewrite Hlast; lia].
  - intros c (e & ids & i & Hin & Hi & ->)%elem_paid.
    apply (vw_covered _ _ _ _ Hv e ids); [done | | done].
    destruct (Z.le_gt_cases e l) as [|Hgt]; [done|]. exfalso. apply H1.
    apply (ch_ids _ Hc e); [apply chain_member; eauto | lia].
  - split; [lia|]. intros e' He'. apply Hall. lia.
Qed.

(** *** Recovery *)

Lemma recover_spec s w l (Q : result (bool * Z) → Watermark → EpochWorld → Prop) :
  disk_ok w → loaded s w → wm_last_epoch_id s = Some l → l + 1 ∈ (ew_chain w).*1 →
  (∀ e w', disk_ok w' → mem_ok s w' → Q (Err e) s w') →
  (∀ e s' w', disk_ok w' → mem_ok s' w' → Q (Err e) s' w') →
  (∀ b e s' w', disk_ok w' → ready s' e w' → Q (Ok (b, e)) s' w') →
  wpm epoch_exec disk_ok (recover_published str_of_container has_dir (l + 1)) Q s w.
Proof.
  intros Hd Hl Hlast Hex _ Herr Hok. pose proof Hl as [Hld Hv]. rewrite Hlast in Hv. simpl in Hv.
  unfold recover_published. apply wpm_bind.
  assert (∀ Q' : result (option (list string)) → Watermark → EpochWorld → Prop,
    (∀ e, Q' (Err e) s w) → Q' (Ok None) s w →
    (∀ p, adoptable (ew_manifests w) (l + 1) = Some p → Q' (Ok (Some p)) s w) →
    wpm epoch_exec disk_ok (load_manifest_batches str_of_container has_dir (l + 1)) Q' s w) as Hload.
  { intros Q' He Hnone Hsome. unfold load_manifest_batches. unfold adoptable in Hsome.
    destruct (manifest_file has_dir (l + 1)) as [name|]; [|by apply wpm_ret].
    unfold perform_result. apply wpm_bind.
    apply (wpm_perform (E := epoch) epoch_exec _ (ReadManifest name)); [done|].
    intros r w' [-> ->]. split; [done|]. apply wpm_lift; [done|].
    destruct (manifest_batches _ _) as [[p|]|e]; auto. }
  apply Hload; [intros e; apply Herr; [done | by apply loaded_mem] | |].
  { apply wpm_raise; [done|]. apply Herr; [done | by apply loaded_mem]. }
  intros prior Hprior.
  assert (view_ok (ew_chain w) (ew_manifests w) (wm_consumed (advanced s (l + 1) prior)) (l + 1)) as Hadv.
  { split; [done | | |].
    - intros e ids Hin Hle i Hi. apply elem_advanced. destruct (Z.le_gt_cases e l) as [Hel|Hel].
      + left. by apply (vw_covered _ _ _ _ Hv e ids).
      + right. assert (e = l + 1) as -> by lia.
        rewrite (vw_manifest _ _ _ _ Hv _ _ Hin Hel _ Hprior). eauto.
    - intros e ids Hin Hlt. apply (vw_manifest _ _ _ _ Hv e ids Hin). lia.
    - intros c [Hc|(i & Hi & ->)]%elem_advanced; [by apply (vw_paid _ _ _ _ Hv)|].
      apply chain_member in Hex as [ids Hin]. apply elem_paid. exists (l + 1), ids, i.
      split_and!; [done | | done]. rewrite <-(vw_manifest _ _ _ _ Hv _ _ Hin ltac:(lia) _ Hprior). done. }
  apply wpm_bind. unfold reconcile_from_chain, require_loaded.
  apply wpm_bind, wpm_bind, wpm_gets; [done|]. apply wpm_lift; [done|]. rewrite Hld. simpl.
  apply wpm_bind, wpm_get; [done|]. rewrite Hlast. replace (l + 1 <=? l) with false by lia. simpl.
  apply wpm_bind. apply commit_spec; [done | done | rewrite Hlast; lia | done |].
  intros r w' Hd' Hch Hman.
  assert (loaded (advanced s (l + 1) prior) w') as Hl'.
  { split; [done|]. simpl. by rewrite Hch, Hman. }
  destruct r as [z|e]; [|apply Herr; [done | by apply loaded_mem]].
  apply wpm_ret; [done|]. apply wpm_loaded_gets; [done | done |].
  unfold perform_result. apply wpm_bind, wpm_bind.
  apply (wpm_perform (E := epoch) epoch_exec _ (EpochExists _)); [done|].
  intros r w1 [[->|[x ->]] ->]; (split; [done|]); apply wpm_lift; try done; simpl.
  2: { apply Herr; [done | by apply loaded_mem]. }
  apply wpm_bind. change (next_id (advanced s (l + 1) prior)) with (l + 1 + 1).
  case_bool_decide as Hx; (apply wpm_lift; [done|]); simpl.
  - apply Herr; [done | by apply loaded_mem].
  - apply wpm_ret; [done|]. apply Hok; [done|]. by apply ready_warm.
Qed.

(** *** Planning and publishing *)

Lemma manifest_name_inj e1 e2 n : manifest_file has_dir e1 = Some n → manifest_file has_dir e2 = Some n → e1 = e2.
Proof.
  unfold manifest_file. destruct has_dir; [|done]. intros H1 H2. rewrite <-H2 in H1. injection H1 as Heq.
  change (str_of_int e1 +:+ ".json" = str_of_int e2 +:+ ".json") in Heq.
  apply string_app_inj_r in Heq. apply (f_equal int_of_str) in Heq.
  rewrite !int_of_str_of_int in Heq. by injection Heq.
Qed.

(** Writing the manifest of an epoch that is not on chain. *)
Lemma manifest_keeps name e j s w :
  manifest_file has_dir e = Some name → disk_ok w → ready s e w →
  disk_ok (with_manifest name j w) ∧ ready s e (with_manifest name j w).
Proof.
  intros Hname [Hc Hd] Hr.
  assert (∀ consumed l, view_ok (ew_chain w) (ew_manifests w) consumed l →
            view_ok (ew_chain w) (ew_manifests (with_manifest name j w)) consumed l) as Hview.
  { intros consumed l []. split; [done | done | | done].
    intros e' ids Hin Hlt p Hp. apply (vw_manifest0 e' ids Hin Hlt).
    unfold adoptable in *. destruct (manifest_file has_dir e') as [name'|] eqn:Hname'; [|done].
    simpl in Hp. rewrite bool_decide_false in Hp; [done|]. intros ->.
    assert (e' = e) as -> by (by eapply manifest_name_inj). apply (rd_new _ _ _ Hr).
    apply chain_member. eauto. }
  split.
  - split; [done|]. destruct Hd as [Ha|(s0 & l & Hs0 & Hl & Hv)]; [by left|].
    right. exists s0, l. split_and!; [done | done | by apply Hview].
  - destruct Hr as [[Hl Hv] ? ? ? ?]. split; [split; [done|] | done..].
    unfold view_ok_opt in *. destruct (wm_last_epoch_id s); [by apply Hview | done].
Qed.

(** The epoch lands, with a manifest that tells the truth if there is one. *)
Lemma published_keeps s e ids w :
  disk_ok w → ready s e w → NoDup (lower <$> ids) →
  (∀ i, i ∈ ids → lower i ∉ wm_consumed s) →
  (∀ p, adoptable (ew_manifests w) e = Some p → p = ids) →
  let w' := with_published_epoch e ids w in
  disk_ok w' ∧ loaded s w' ∧ view_ok (ew_chain w') (ew_manifests w') (wm_consumed (advanced s e ids)) e.
Proof.
  intros [Hc Hd] Hr Hnd Hnew Hman w'. destruct Hr as [[Hl Hv] Hcov Hfresh [He1 Hnext] Hlast].
  assert (∀ c, c ∈ paid (ew_chain w') ↔ c ∈ paid (ew_chain w) ∨ ∃ i, i ∈ ids ∧ c = lower i) as Hpaid.
  { intros c. simpl. unfold paid. rewrite bind_app, elem_of_app. simpl. rewrite app_nil_r, list_elem_of_fmap.
    naive_solver. }
  assert (∀ e' ids', (e', ids') ∈ ew_chain w' → (e', ids') ∈ ew_chain w ∨ e' = e ∧ ids' = ids) as Hmem.
  { intros e' ids' [Hin|Hin]%elem_of_app; [by left|]. apply list_elem_of_singleton in Hin as [= -> ->]. by right. }
  assert (∀ x, x ∈ (ew_chain w).*1 → x < e) as Hbelow.
  { intros x Hx. destruct (Z.lt_ge_cases x e) as [|Hge]; [done|]. exfalso. apply Hfresh.
    apply (ch_ids _ Hc x Hx). lia. }
  assert (∀ consumed l, view_ok (ew_chain w) (ew_manifests w) consumed l →
            view_ok (ew_chain w') (ew_manifests w') consumed l) as Hview.
  { intros consumed l [Hvl Hvc Hvm Hvp]. pose proof (Hbelow _ Hvl). split.
    - simpl. rewrite fmap_app. set_solver.
    - intros e' ids' [Hin|[-> ->]]%Hmem Hle; [by eapply Hvc | lia].
    - intros e' ids' [Hin|[-> ->]]%Hmem Hlt; [by eapply Hvm | done].
    - intros c Hcc. apply Hpaid. left. by apply Hvp. }
  split_and!; [split | split; [done|] |].
  - split.
    + simpl. unfold paid. rewrite bind_app. simpl. rewrite app_nil_r. apply NoDup_app.
      split_and!; [apply Hc | | done]. intros c Hcc (i & -> & Hi)%list_elem_of_fmap.
      apply (Hnew i Hi). by apply Hcov.
    + intros x Hx. simpl in Hx. rewrite fmap_app in Hx. apply elem_of_app in Hx as [Hx|Hx].
      * destruct (ch_ids _ Hc x Hx) as [H1 Hall]. split; [done|]. intros e' He'.
        simpl. rewrite fmap_app. apply elem_of_app. left. by apply Hall.
      * apply list_elem_of_singleton in Hx as ->. split; [done|]. intros e' He'. simpl in *. rewrite fmap_app.
        apply elem_of_app. destruct (decide (e' = e)) as [->|]; [right; by left | left; apply Hnext; lia].
  - destruct Hd as [Ha|(s0 & l & Hs0 & Hl0 & Hv0)]; [by left|].
    right. exists s0, l. split_and!; [done | done | by apply Hview].
  - unfold view_ok_opt in *. destruct (wm_last_epoch_id s); [by apply Hview | done].
  - split.
    + simpl. rewrite fmap_app. apply elem_of_app. right. by left.
    + intros e' ids' [Hin|[-> ->]]%Hmem _ i Hi; apply elem_advanced; [left | right; eauto].
      apply Hcov, elem_paid. eauto 10.
    + intros e' ids' [Hin|[-> ->]]%Hmem Hlt; [|lia].
      assert (e' < e) by (apply Hbelow, chain_member; eauto). lia.
    + intros c [Hcc|Hcc]%elem_advanced; apply Hpaid; [left | by right].
      unfold view_ok_opt in Hv. destruct (wm_last_epoch_id s); [by apply (vw_paid _ _ _ _ Hv)|].
      rewrite Hv in Hcc. by apply not_elem_of_nil in Hcc.
Qed.

Lemma ready_mem s e w : ready s e w → mem_ok s w.
Proof. intros []. by apply loaded_mem. Qed.

Lemma choose_pot_spec pot (Q : result Z → Watermark → EpochWorld → Prop) s w :
  disk_ok w → (∀ r, Q r s w) → wpm epoch_exec disk_ok (choose_pot pot) Q s w.
Proof.
  intros Hd HQ. unfold choose_pot, perform_result. apply wpm_bind, wpm_bind.
  apply (wpm_perform (E := epoch) epoch_exec _ UnreservedBalance); [done|].
  intros r w' ->. split; [done|]. apply wpm_lift; [done|]. destruct r as [available|]; [|apply HQ].
  simpl. assert (∀ p : Z, wpm epoch_exec disk_ok
    (_ ← lift (raise_if (p <=? 0) EpochRunAborted); mret p) Q s w) as Hend.
  { intros p. apply wpm_check; [done | | auto]. intros _ _. by apply wpm_ret. }
  destruct pot as [p|]; apply wpm_bind; [|by apply wpm_ret].
  apply wpm_check; [done | | auto]. intros _ _. by apply wpm_ret.
Qed.

(** Publishing and then recording the consumed batches, in a world whose
    manifest of the epoch, if there is one, tells the truth. *)
Lemma publish_commit_keeps {A} e root total ids (f : string → A) s w :
  disk_ok w → ready s e w → NoDup (lower <$> ids) →
  (∀ i, i ∈ ids → lower i ∉ wm_consumed s) →
  (∀ p, adoptable (ew_manifests w) e = Some p → p = ids) →
  wpm epoch_exec disk_ok
    (tx_hash ← perform_result (PublishEpoch e root total ids) id;
     _ ← commit_epoch e ids; mret (f tx_hash))
    (λ _ s' w', disk_ok w' ∧ mem_ok s' w') s w.
Proof.
  intros Hd Hr Hnd Hnew Hman. unfold perform_result. apply wpm_bind, wpm_bind.
  apply (wpm_perform (E := epoch) epoch_exec _ (PublishEpoch _ _ _ _)); [done|].
  destruct (published_keeps s e ids w Hd Hr Hnd Hnew Hman) as (Hd2 & Hl2 & Hv2).
  intros r w2 [[_ ->]|(x & -> & ->)]; (split; [done|]); apply wpm_lift; try done.
  2: { split; [done|]. by eapply ready_mem. }
  destruct r as [tx|x]; simpl; [|split; [done | by apply loaded_mem]].
  apply wpm_bind, commit_spec; [done | done | | done |].
  - pose proof (rd_last _ _ _ Hr). by destruct (wm_last_epoch_id s).
  - intros r w3 Hd3 Hch Hmn. assert (mem_ok (advanced s e ids) w3) as Hm3.
    { apply loaded_mem. split; [apply Hl2|]. simpl. by rewrite Hch, Hmn. }
    destruct r; [by apply wpm_ret | done].
Qed.

(** The batches a plan consumes are distinct and not yet consumed. *)
Lemma plan_fresh e batches pot consumed ws we plan :
  build_emission_epoch e batches pot consumed ws we = Ok plan →
  plan_epoch_id plan = e ∧ NoDup (lower <$> plan_consumed_batch_ids plan) ∧
  ∀ i, i ∈ plan_consumed_batch_ids plan → lower i ∉ consumed.
Proof.
  intros Hplan.
  destruct (plan_inv _ _ _ _ _ _ _ Hplan) as (counted & st & alloc & Hi & _ & _ & _ & _ & _ & ->). simpl.
  split_and!; [done | rewrite <-list_fmap_compose; apply (si_ids _ _ _ _ _ _ Hi) |].
  intros i (b & -> & Hb)%list_elem_of_fmap Hin. apply (si_counted _ _ _ _ _ _ Hi b Hb).
  apply list_elem_of_fmap. exists (bid b). unfold bid. by rewrite lower_idemp.
Qed.

Lemma plan_and_publish_keeps a recovered e s w :
  disk_ok w → ready s e w →
  wpm epoch_exec disk_ok (plan_and_publish has_dir a recovered e)
    (λ _ s' w', disk_ok w' ∧ mem_ok s' w') s w.
Proof.
  intros Hd Hr. pose proof (ready_mem _ _ _ Hr) as Hm. unfold plan_and_publish.
  apply wpm_loaded_gets; [done | apply Hr |]. apply wpm_bind, choose_pot_spec; [done|].
  intros [pot|]; [|done].
  apply wpm_check; [done | intros plan Hplan | done].
  apply wpm_check; [done | intros reward Hreward | done].
  apply wpm_check; [done | intros _ _ | done].
  destruct (plan_fresh _ _ _ _ _ _ _ Hplan) as (He & Hnd & Hnew).
  destruct (ra_dry_run a); [by apply wpm_ret|].
  apply wpm_bind. unfold write_manifest. rewrite !He.
  destruct (manifest_file has_dir e) as [name|] eqn:Hname.
  - apply wpm_check; [done | intros payload Hpay | done].
    unfold perform_result. apply wpm_bind, wpm_bind.
    apply (wpm_perform (E := epoch) epoch_exec _ (WriteManifest _ _)); [done|].
    destruct (manifest_keeps name e payload s w Hname Hd Hr) as [Hd1 Hr1].
    intros r w1 [[-> ->]|[-> ->]]; (split; [done|]); apply wpm_lift; try done; simpl.
    apply wpm_ret; [done|]. apply publish_commit_keeps; [done..|].
    intros p. unfold adoptable. rewrite Hname. simpl. rewrite bool_decide_true by done.
    unfold manifest_payload in Hpay. apply bind_Ok_inv in Hpay as (entries & _ & Hpay). injection Hpay as <-.
    simpl. intros Hp. injection Hp as <-. rewrite <-list_fmap_compose. simpl.
    by rewrite list_fmap_id.
  - apply wpm_ret; [done|]. apply publish_commit_keeps; [done..|].
    intros p. unfold adoptable. by rewrite Hname.
Qed.

(** *** A whole run *)

Lemma exists_spec e (Q : result bool → Watermark → EpochWorld → Prop) s w :
  disk_ok w → (∀ x, Q (Err x) s w) → Q (Ok (bool_decide (e ∈ (ew_chain w).*1))) s w →
  wpm epoch_exec disk_ok (perform_result (EpochExists e) id) Q s w.
Proof.
  intros Hd Herr Hok. unfold perform_result. apply wpm_bind.
  apply (wpm_perform (E := epoch) epoch_exec _ (EpochExists e)); [done|].
  intros r w' [[->|[x ->]] ->]; (split; [done|]); apply wpm_lift; done || apply Herr.
Qed.

Lemma run_keeps a s w :
  disk_ok w → mem_ok s w →
  wpm epoch_exec disk_ok (run_epoch str_of_container has_dir a) (λ _ s' w', disk_ok w' ∧ mem_ok s' w') s w.
Proof.
  intros Hd Hm. unfold run_epoch. apply wpm_bind.
  eapply wpm_mono; [by apply loaded_consumed_spec|].
  intros r s1 w1 _ (-> & [c ->] & Hl). pose proof (loaded_mem _ _ Hl) as Hm1. pose proof Hl as [Hld Hv].
  apply wpm_loaded_gets; [done | done |]. apply wpm_loaded_gets; [done | done |]. apply wpm_bind.
  destruct (wm_last_epoch_id s1) as [l|] eqn:Hlast.
  - apply wpm_ret; [done|]. apply wpm_check; [done | intros _ _ | done].
    apply wpm_loaded_gets; [done | done |]. rewrite Hlast.
    assert (next_id s1 = l + 1) as -> by (unfold next_id; by rewrite Hlast).
    apply wpm_bind, exists_spec; [done | done |]. case_bool_decide as Hex.
    + apply wpm_bind, (recover_spec s1 w l); [done | done | done | done | done | done |].
      intros b e s' w' Hd' Hr. by apply plan_and_publish_keeps.
    + apply wpm_bind, wpm_ret; [done|]. apply plan_and_publish_keeps; [done|]. by apply ready_warm.
  - assert (next_id s1 = 1) as -> by (unfold next_id; by rewrite Hlast).
    apply exists_spec; [done | done |]. case_bool_decide as Hex.
    { apply wpm_check; [done | done | done]. }
    apply wpm_check; [done | intros _ _ | done]. apply wpm_loaded_gets; [done | done |]. rewrite Hlast.
    apply wpm_bind, wpm_ret; [done|]. apply wpm_bind, wpm_ret; [done|].
    apply plan_and_publish_keeps; [done|]. by apply ready_cold.
Qed.

Lemma epoch_calls_ok s w p w' :
  epoch_calls s w p w' → disk_ok w → mem_ok s w →
  wp epoch_exec disk_ok p (λ rs w1, ∀ w2, epoch_returns rs.1 w1 w2 → disk_ok w2 ∧ mem_ok rs.2 w2) w'.
Proof.
  intros Hc Hd Hm. destruct Hc as [a s w|s w x].
  - change (wpm epoch_exec disk_ok (run_epoch str_of_container has_dir a)
              (λ r s w1, ∀ w2, epoch_returns r w1 w2 → disk_ok w2 ∧ mem_ok s w2) s w).
    eapply wpm_mono; [by apply run_keeps|]. by intros r s' w' _ Hk w2 ->.
  - assert (disk_ok (with_watermark Absent w)) by (split; [apply Hd | by left]).
    split; [done|]. by intros w2 ->.
Qed.

Lemma epoch_inv n :
  epoch_reachable n →
  process_inv epoch_exec epoch_returns disk_ok mem_ok n ∧ disk_ok n.2.
Proof.
  apply (process_reachable_inv epoch_exec epoch_calls epoch_returns epoch_boot disk_ok mem_ok epoch_calls_ok).
  - intros w s -> _. done.
  - split; [split|]; [constructor | | by left]. intros e He. by apply not_elem_of_nil in He.
Qed.
End EpochWorld.

(** ** Claims *)


(** Late, not lost: when a publish that returns has landed, every batch the
    watermark marks as consumed, in memory or on disk, was paid by an epoch on
    chain; an unpaid batch stays unconsumed and a later epoch can pay it. *)
Theorem emission_late_not_lost `{Externals} str_of_container has_dir n :
  epoch_reachable str_of_container has_dir n →
  (∀ s c, n.1 = Idle s → c ∈ wm_consumed s → c ∈ paid (ew_chain n.2)) ∧
  (∀ s c, ew_watermark n.2 = Json (watermark_state s) → c ∈ wm_consumed s → c ∈ paid (ew_chain n.2)).
Proof.
  intros Hr. destruct (epoch_inv _ _ _ Hr) as [Hp [_ Hd]]. split.
  - destruct n as [[s0| |] w]; intros s c; simpl; intros Hs; simplify_eq. destruct Hp as [_ Hm].
    unfold mem_ok, view_ok_opt in Hm. intros Hc. destruct (wm_loaded s).
    + destruct (wm_last_epoch_id s); [by apply (vw_paid _ _ _ _ _ _ Hm)|].
      rewrite Hm in Hc. by apply not_elem_of_nil in Hc.
    + destruct Hm as [Hm _]. rewrite Hm in Hc. by apply not_elem_of_nil in Hc.
  - intros s c Hs Hc. destruct Hd as [Ha|(s0 & l & Hs0 & _ & Hv)]; [congruence|].
    apply (vw_paid _ _ _ _ _ _ Hv). rewrite Hs in Hs0. unfold watermark_state in Hs0.
    injection Hs0 as Hj _ _. apply (f_equal (fmap (λ j, match j with JStr t => t | _ => "" end))) in Hj.
    rewrite <-!list_fmap_compose in Hj. rewrite !(list_fmap_ext _ id) in Hj by done.
    rewrite !list_fmap_id in Hj. apply (elem_of_sort_by string_leb). rewrite <-Hj. by apply elem_of_sort_by.
Qed.

(** * The epoch job on concrete worlds

    A run that publishes an epoch, the witnesses of the claims about the job, and
    two behaviours outside their hypotheses: the pool client returns when the
    transaction is sent, not when it has landed, and recovery adopts a manifest
    without comparing its root with the chain's. *)

#[local] Open Scope string_scope.
#[local] Open Scope list_scope.
#[local] Open Scope Z_scope.

Import Toy.

Definition no_container (j : json) : string := "".

Definition sample_args : EpochRunArgs :=
  {| ra_batches := sample_batches; ra_pot_wei := None; ra_dry_run := false;
     ra_window_start := None; ra_window_end := None |}.

(** Every effect succeeds, 1000 wei are unreserved, and [lands] says whether a
    publish that returns is on chain. *)
Definition epoch_answer (lands : bool) (e : epoch) (w : EpochWorld) : option (response e * EpochWorld) :=
  match e return option (response (s := epoch) e * EpochWorld) with
  | ReadWatermark => Some (ew_watermark w, w)
  | SaveWatermark j => Some (Ok (), with_watermark (Json j) w)
  | ReadManifest name => Some (ew_manifests w name, w)
  | WriteManifest name j => Some (Ok (), with_manifest name j w)
  | EpochExists i => Some (Ok (bool_decide (i ∈ (ew_chain w).*1)), w)
  | UnreservedBalance => Some (Ok 1000, w)
  | PublishEpoch i _ _ paid =>
      if bool_decide (i ∈ (ew_chain w).*1) then Some (Err ExternalError, w)
      else Some (Ok "0xhash", if lands then with_published_epoch i paid w else w)
  end.

Lemma epoch_answer_exec e w r w' : epoch_answer true e w = Some (r, w') → epoch_exec e w r w'.
Proof.
  destruct e; unfold epoch_answer, epoch_exec; intros Heq; try (injection Heq as <- <-); eauto.
  case_bool_decide; injection Heq as <- <-; [right; eauto | left; eauto].
Qed.

Definition sample_run (lands : bool) : option (result EpochRunResult * Watermark * EpochWorld) :=
  run (epoch_answer lands) (run_epoch no_container true sample_args watermark_init) epoch_world0.

Definition sample_paid : list string := ["0xA1"; "0xA2"; "0xA3"; "0xA4"; "0xA5"].

Definition run_outcome (o : option (result EpochRunResult * Watermark * EpochWorld)) :=
  '((r, s), w) ← o;
  Some (match r with Ok res => Some (er_published res, er_epoch_id res, er_total_amount_wei res) | Err _ => None end,
        s, ew_chain w).

Definition sample_watermark : Watermark :=
  {| wm_consumed := ["0xa1"; "0xa2"; "0xa3"; "0xa4"; "0xa5"]; wm_last_epoch_id := Some 1; wm_loaded := true |}.

Example sample_run_publishes :
  run_outcome (sample_run true) = Some (Some (true, 1, 1000), sample_watermark, [(1, sample_paid)]).
Proof. vm_compute. reflexivity. Qed.

Definition sample_world : EpochWorld :=
  match sample_run true with Some (_, w) => w | None => epoch_world0 end.
Definition sample_result : result EpochRunResult :=
  match sample_run true with Some (r, _, _) => r | None => Err ExternalError end.

Lemma sample_run_eq : sample_run true = Some (sample_result, sample_watermark, sample_world).
Proof.
  pose proof sample_run_publishes as H. unfold sample_world, sample_result.
  destruct (sample_run true) as [[[r s] w]|]; [|discriminate H]. unfold run_outcome in H. simpl in H.
  f_equal. f_equal. f_equal. congruence.
Qed.

Lemma sample_epoch_reachable : epoch_reachable no_container true (Idle sample_watermark, sample_world).
Proof.
  eapply rtc_l; [apply (process_boot _ _ _ _ watermark_init); reflexivity|].
  eapply rtc_l; [apply process_call, (call_run no_container true sample_args)|].
  etransitivity; [|apply rtc_once, (process_return _ _ _ _ sample_result _ sample_world); reflexivity].
  apply (run_process epoch_exec _ _ _ (epoch_answer true)); [exact epoch_answer_exec | exact sample_run_eq].
Qed.


Lemma emission_late_not_lost_witness : "0xa1" ∈ paid (ew_chain sample_world).
Proof.
  apply (emission_late_not_lost no_container true (Idle sample_watermark, sample_world) sample_epoch_reachable)
    with (s := sample_watermark); [reflexivity | in_list].
Defined.

(** With a publish that returns before landing, and then never lands, the job
    reports success and marks every batch as consumed: no epoch pays them. *)
Lemma unconfirmed_publish_loses_batches :
  run_outcome (sample_run false) = Some (Some (true, 1, 1000), sample_watermark, []).
Proof. vm_compute. reflexivity. Qed.

(** Epoch 2 paid only 0xB1; its manifest, rewritten by a later attempt, also names
    0xB2.  Recovery marks 0xB2 as consumed although no epoch pays it. *)
Definition stale_manifest : json :=
  JObj [("epoch_id", JInt 2); ("merkle_root", JStr "0xother");
        ("consumed_batch_ids", JArr [JStr "0xB1"; JStr "0xB2"])].

Definition stale_world : EpochWorld :=
  {| ew_watermark := Json (watermark_state {| wm_consumed := ["0xa1"]; wm_last_epoch_id := Some 1; wm_loaded := true |});
     ew_manifests := λ n, if bool_decide (n = "epoch-2.json") then Json stale_manifest else Absent;
     ew_chain := [(1, ["0xA1"]); (2, ["0xB1"])] |}.

Definition stale_args : EpochRunArgs :=
  {| ra_batches := [{| batch_id := "0xB2"; provider := bob; final_value_wei := 30; finalize_timestamp := 11 |};
                    {| batch_id := "0xC1"; provider := alice; final_value_wei := 30; finalize_timestamp := 12 |}];
     ra_pot_wei := None; ra_dry_run := false; ra_window_start := None; ra_window_end := None |}.

Lemma stale_manifest_loses_batch :
  ∃ s w, run_outcome (run (epoch_answer true) (run_epoch no_container true stale_args watermark_init) stale_world) =
           Some (Some (true, 3, 1000), s, w) ∧
         "0xb2" ∈ wm_consumed s ∧ "0xb2" ∉ paid w.
Proof.
  do 2 eexists. split; [vm_compute; reflexivity|]. split; [in_list|].
  apply (bool_decide_eq_true_1 (¬ _)). vm_compute. reflexivity.
Qed.
