(* ===== verification/PerStageSplit.v ===== *)
(** * The per-stage settlement split

    Models prsm/settlement/per_stage_settlement_split.py (one share and one
    signed receipt per node of a multi-stage inference, and the payee set the
    requester authorizes) with the wallet resolver it calls,
    prsm/node/compute_wallet_map.py. *)
From Stdlib Require Import ZArith Lia.
From S2P Require Import PyStd.
From S2P Require Import Externals.
From S2P Require Import Receipt.
From S2P Require Import Attestation.
From S2P Require Import Merkle.
From S2P Require Import Published.
From S2P Require Import Prelude.

#[local] Open Scope string_scope.
#[local] Open Scope list_scope.
#[local] Open Scope Z_scope.

(** ** ComputeWalletMap *)

Definition ComputeWalletMap : Type := dict string string.

(** [ComputeWalletMap.from_env]: [path] is the value of the environment variable
    (empty when unset) and [f] the file it names; [None] where it cannot be read. *)
Definition from_env (path : string) (f : option file) : ComputeWalletMap :=
  if negb (str_nonempty (strip path)) then []
  else
    match f with
    | Some (Json (JObj raw)) =>
        omap (λ kv : string * json,
                match kv.2 with
                | JStr v => if str_nonempty v then Some (kv.1, v) else None
                | _ => None
                end) raw
    | _ => []
    end.

(** [ComputeWalletMap.resolve] *)
Definition resolve (m : ComputeWalletMap) (recipient_id : string) : string :=
  default recipient_id (dict_get recipient_id m).

(** ** NodeSignatureMaterial *)

Record NodeSignatureMaterial : Type := {
  mat_pubkey_b64 : string;
  mat_signature : string;
  mat_stage_index : Z;
  mat_output_hash : string;
  mat_executed_at_unix : Z;
  mat_tee_attestation : option json
}.

Definition NodeSignatureMaterial_to_dict (m : NodeSignatureMaterial) : json :=
  JObj [("pubkey_b64", JStr (mat_pubkey_b64 m)); ("signature", JStr (mat_signature m));
        ("stage_index", JInt (mat_stage_index m)); ("output_hash", JStr (mat_output_hash m));
        ("executed_at_unix", JInt (mat_executed_at_unix m));
        ("tee_attestation", default JNull (mat_tee_attestation m))].

(** [str()] of a list or a dict, met only in malformed material, is the
    parameter [str_of_container]. *)
Definition NodeSignatureMaterial_from_dict (str_of_container : json → string) (d : json)
  : result NodeSignatureMaterial :=
  let str := format_json str_of_container in
  k ← jget "pubkey_b64" d;
  g ← jget "signature" d;
  s ← jget "stage_index" d ≫= int_of_json;
  o ← jget "output_hash" d;
  e ← jget "executed_at_unix" d ≫= int_of_json;
  t ← jget_opt "tee_attestation" d;
  Ok {| mat_pubkey_b64 := str k; mat_signature := str g; mat_stage_index := s;
        mat_output_hash := str o; mat_executed_at_unix := e;
        mat_tee_attestation := match t with Some JNull | None => None | Some v => Some v end |}.

(** ** The settled receipt

    What the code reads of a settled inference receipt: its request id ([None]
    when it is not text), the positions of its topology assignment ([None] when
    it has none) and the signature material it carries per node. *)
Record SettledReceipt : Type := {
  sr_request_id : option string;
  sr_positions : option (dict (Z * Z) string);
  sr_signatures : dict string NodeSignatureMaterial
}.

(** The order of [sorted(positions.keys())]. *)
Definition position_leb (a b : (Z * Z) * string) : bool :=
  (a.1.1 <? b.1.1) || ((a.1.1 =? b.1.1) && (a.1.2 <=? b.1.2)).

(** One iteration of the walk: a node is kept where it is first seen. *)
Definition distinct_step (distinct : list (string * Z)) (kv : (Z * Z) * string)
  : list (string * Z) :=
  let node_id := kv.2 in
  if negb (str_nonempty node_id) || bool_decide (node_id ∈ distinct.*1) then distinct
  else distinct ++ [(node_id, kv.1.1)].

(** [_distinct_node_ids_with_stage] *)
Definition distinct_node_ids_with_stage (topology : option (dict (Z * Z) string))
  : option (list (string * Z)) :=
  match topology with
  | None | Some [] => None
  | Some positions =>
      let distinct := fold_left distinct_step (sort_by position_leb positions) [] in
      if zlen distinct <? 2 then None else Some distinct
  end.

Definition compute_per_stage_shares (total_value_wei : Z) (node_ids : list string)
  : result (list (string * Z)) :=
  _ ← raise_if (total_value_wei <? 0) ValueError;
  _ ← raise_if (MAX_UINT128 <? total_value_wei) ValueError;
  _ ← raise_if (bool_decide (node_ids = [])) ValueError;
  let n := zlen node_ids in
  let base := total_value_wei / n in
  let remainder := total_value_wei mod n in
  let shares := (λ ix : Z * string, (ix.2, base + (if ix.1 <? remainder then 1 else 0)))
                  <$> enumerate node_ids in
  _ ← raise_if (negb (Zsum shares.*2 =? total_value_wei)) AssertionError;
  Ok shares.

Section Split.
Context `{Externals}.

(** A [ComputeWalletMap] does not raise. *)
Definition resolve_node_eth_payee (node_id : string) (wallet_map : option ComputeWalletMap)
  : option string :=
  match wallet_map with
  | None => None
  | Some m =>
      let resolved := resolve m node_id in
      if (resolved =? node_id)%string then None
      else if negb (is_address resolved) then None
      else Some resolved
  end.

(** The loop of [build_per_stage_payee_set]; [Ok None] is its early return. *)
Fixpoint payee_loop (wallet_map : option ComputeWalletMap) (share_by_node : dict string Z)
    (node_ids : list string) : result (option (list (string * Z))) :=
  match node_ids with
  | [] => Ok (Some [])
  | node_id :: rest =>
      match resolve_node_eth_payee node_id wallet_map with
      | None => Ok None
      | Some payee =>
          share ← of_option KeyError (dict_get node_id share_by_node);
          payees ← payee_loop wallet_map share_by_node rest;
          Ok (option_map (cons (payee, share)) payees)
      end
  end.

Definition build_per_stage_payee_set (r : SettledReceipt) (total_value_wei : Z)
    (wallet_map : option ComputeWalletMap) : result (option (list (string * Z))) :=
  match distinct_node_ids_with_stage (sr_positions r) with
  | None => Ok None
  | Some distinct =>
      shares ← compute_per_stage_shares total_value_wei distinct.*1;
      payee_loop wallet_map (dict_of_list shares) distinct.*1
  end.

Record StageSettlementShare : Type := {
  ss_node_id : string;
  ss_share_wei : Z;
  ss_batched_receipt : BatchedReceipt
}.

(** The material of a node is present, and its key derives the node's id. *)
Definition material_ok (node_signatures : dict string NodeSignatureMaterial) (node_id : string)
  : bool :=
  match dict_get node_id node_signatures with
  | None => false
  | Some mat =>
      str_nonempty (mat_pubkey_b64 mat) && str_nonempty (mat_signature mat) &&
      bool_decide (derive_node_id_from_pubkey_b64 (mat_pubkey_b64 mat) = Some node_id)
  end.

(** The receipt of one node's share. *)
Definition stage_receipt (job : string) (node_id : string) (mat : NodeSignatureMaterial)
    (share_wei : Z) (requester payee : string) (slash_bps : Z) (group_id : bytes)
  : BatchedReceipt :=
  {| receipt := {| job_id := job; shard_index := mat_stage_index mat; provider_id := node_id;
                   provider_pubkey_b64 := mat_pubkey_b64 mat; output_hash := mat_output_hash mat;
                   executed_at_unix := mat_executed_at_unix mat; signature := mat_signature mat;
                   tee_attestation := mat_tee_attestation mat |};
     requester_address := requester; provider_address := payee; value_ftns := share_wei;
     local_escrow_id := job +:+ "::stage::" +:+ node_id;
     tier_slash_rate_bps := slash_bps; consensus_group_id := group_id |}.

(** One iteration of the loop that builds the shares. *)
Definition stage_share (node_signatures : dict string NodeSignatureMaterial) (job requester : string)
    (payee_by_node : option (dict string string)) (share_by_node : dict string Z)
    (slash_bps : Z) (group_id : bytes) (node_id : string) : result StageSettlementShare :=
  mat ← of_option KeyError (dict_get node_id node_signatures);
  share_wei ← of_option KeyError (dict_get node_id share_by_node);
  payee ← match payee_by_node with
          | Some d => of_option KeyError (dict_get node_id d)
          | None => Ok requester
          end;
  br ← BatchedReceipt_post_init
         (stage_receipt job node_id mat share_wei requester payee slash_bps group_id);
  Ok {| ss_node_id := node_id; ss_share_wei := share_wei; ss_batched_receipt := br |}.

(** The payees of all nodes; [None] when one has none. *)
Definition resolve_all (wallet_map : ComputeWalletMap) (node_ids : list string)
  : option (dict string string) :=
  dict_of_list <$> mapM (λ id, pair id <$> resolve_node_eth_payee id (Some wallet_map)) node_ids.

(** [payee_by_node] before the loop: absent without a map; [None] is the early
    return. *)
Definition payees_by_node (wallet_map : option ComputeWalletMap) (node_ids : list string)
  : option (option (dict string string)) :=
  match wallet_map with
  | None => Some None
  | Some m => match resolve_all m node_ids with Some d => Some (Some d) | None => None end
  end.

Definition split_receipt_to_per_node_batched_receipts (r : SettledReceipt) (total_value_wei : Z)
    (node_signatures : dict string NodeSignatureMaterial) (requester : string)
    (wallet_map : option ComputeWalletMap) (slash_bps : Z) (group_id : bytes)
  : result (option (list StageSettlementShare)) :=
  match distinct_node_ids_with_stage (sr_positions r) with
  | None => Ok None
  | Some distinct =>
      let node_ids := distinct.*1 in
      if negb (forallb (material_ok node_signatures) node_ids) then Ok None
      else
        match sr_request_id r with
        | None => Ok None
        | Some request_id =>
            if negb (str_nonempty request_id) then Ok None
            else
              job ← per_stage_leaf_job_id (Some request_id);
              match payees_by_node wallet_map node_ids with
              | None => Ok None
              | Some payee_by_node =>
                  shares ← compute_per_stage_shares total_value_wei node_ids;
                  out ← result_mapM (stage_share node_signatures job requester payee_by_node
                                       (dict_of_list shares) slash_bps group_id) node_ids;
                  _ ← raise_if (negb (Zsum (ss_share_wei <$> out) =? total_value_wei))
                               AssertionError;
                  Ok (Some out)
              end
        end
  end.
End Split.

(** ** Lemmas: the walk over the topology *)

(** What the walk keeps of the positions [ps] it has visited. *)
Record walk_ok (ps : list ((Z * Z) * string)) (distinct : list (string * Z)) : Prop := {
  walk_nodup : NoDup distinct.*1;
  walk_from : ∀ id stage, (id, stage) ∈ distinct →
    str_nonempty id = true ∧ ∃ slot, ((stage, slot), id) ∈ ps;
  walk_all : ∀ k id, (k, id) ∈ ps → str_nonempty id = true →
    ∃ stage, (id, stage) ∈ distinct ∧ stage <= k.1
}.

Lemma walk_step ps distinct kv :
  (∀ kv', kv' ∈ ps → position_leb kv' kv = true) → walk_ok ps distinct →
  walk_ok (ps ++ [kv]) (distinct_step distinct kv).
Proof.
  intros Hle [Hnd Hfrom Hall]. destruct kv as [[stage slot] id]. unfold distinct_step. simpl.
  assert (∀ k id', (k, id') ∈ ps ++ [((stage, slot), id)] →
            (k, id') ∈ ps ∨ k = (stage, slot) ∧ id' = id) as Hsplit.
  { intros k id' [Hin|Hin]%elem_of_app; [by left|].
    apply list_elem_of_singleton in Hin. right. by injection Hin. }
  destruct (negb (str_nonempty id) || bool_decide (id ∈ distinct.*1)) eqn:Hskip.
  - split; [done | |].
    + intros id' st Hin. destruct (Hfrom _ _ Hin) as (Hs & slot' & Hp). split; [done|].
      exists slot'. apply elem_of_app. by left.
    + intros k id' Hin Hs. destruct (Hsplit _ _ Hin) as [Hin'|[-> ->]]; [by apply (Hall k)|].
      rewrite Hs in Hskip. simpl in Hskip. apply bool_decide_eq_true, list_elem_of_fmap in Hskip as ([? st] & -> & Hd).
      exists st. split; [done|]. destruct (Hfrom _ _ Hd) as (_ & slot' & Hp).
      specialize (Hle _ Hp). unfold position_leb in Hle. simpl in *. lia.
  - apply orb_false_iff in Hskip as [Hs%negb_false_iff Hnew%bool_decide_eq_false]. split.
    + rewrite fmap_app. apply NoDup_app. split_and!; [done | | apply NoDup_singleton].
      intros x Hx Hx'%list_elem_of_singleton. simpl in Hx'. by subst.
    + intros id' st [Hin|Hin]%elem_of_app.
      * destruct (Hfrom _ _ Hin) as (Hs' & slot' & Hp). split; [done|]. exists slot'.
        apply elem_of_app. by left.
      * apply list_elem_of_singleton in Hin as [= -> ->]. split; [done|]. exists slot.
        apply elem_of_app. right. by left.
    + intros k id' Hin Hs'. destruct (Hsplit _ _ Hin) as [Hin'|[-> ->]].
      * destruct (Hall _ _ Hin' Hs') as (st & Hd & Hk). exists st. split; [|done].
        apply elem_of_app. by left.
      * exists stage. split; [|done]. apply elem_of_app. right. by left.
Qed.

Lemma position_leb_total a b : position_leb a b = true ∨ position_leb b a = true.
Proof. unfold position_leb. destruct a as [[? ?] ?], b as [[? ?] ?]; simpl. lia. Qed.

Lemma position_leb_trans a b c :
  position_leb a b = true → position_leb b c = true → position_leb a c = true.
Proof. unfold position_leb. destruct a as [[? ?] ?], b as [[? ?] ?], c as [[? ?] ?]; simpl. lia. Qed.

Lemma walk_fold l ps distinct :
  sorted_by position_leb (ps ++ l) → walk_ok ps distinct →
  walk_ok (ps ++ l) (fold_left distinct_step l distinct).
Proof.
  revert ps distinct. induction l as [|kv l IH]; intros ps distinct Hs Hw; simpl.
  - by rewrite app_nil_r.
  - rewrite cons_middle, app_assoc in Hs |- *. apply IH; [done|]. apply walk_step; [|done].
    intros kv' Hin. unfold sorted_by in Hs. rewrite <-app_assoc in Hs.
    apply StronglySorted_app in Hs as (Hx & _ & _). apply (Hx kv' kv); [done | by left].
Qed.

Lemma distinct_spec positions distinct :
  distinct_node_ids_with_stage (Some positions) = Some distinct →
  walk_ok positions distinct ∧ 2 <= zlen distinct.
Proof.
  unfold distinct_node_ids_with_stage. intros Hd. destruct positions as [|kv0 ps0]; [done|].
  set (positions := kv0 :: ps0) in *.
  destruct (Z.ltb_spec (zlen (fold_left distinct_step (sort_by position_leb positions) [])) 2) as [|Hlen];
    [done|]. injection Hd as <-. split; [|done].
  pose proof (walk_fold (sort_by position_leb positions) [] []) as Hw.
  rewrite app_nil_l in Hw.
  destruct Hw as [Hnd Hfrom Hall].
  - apply sort_by_sorted; [apply position_leb_total | apply position_leb_trans].
  - split; [constructor | intros ? ? Hin; by apply not_elem_of_nil in Hin
           | intros ? ? Hin; by apply not_elem_of_nil in Hin].
  - split; [done | |].
    + intros id stage Hin. destruct (Hfrom _ _ Hin) as (Hs & slot & Hp). split; [done|].
      exists slot. by apply elem_of_sort_by in Hp.
    + intros k id Hin. apply (Hall k id). by apply elem_of_sort_by.
Qed.

(** ** Lemmas: the shares *)

(** The remainder is handed out one wei at a time from the front. *)
Lemma Zsum_front_ones (ids : list string) i rem base :
  Zsum ((λ ix : Z * string, (ix.2, base + (if ix.1 <? rem then 1 else 0))) <$> enumerate_from i ids).*2 =
  base * zlen ids + Z.min (zlen ids) (Z.max 0 (rem - i)).
Proof.
  revert i. induction ids as [|id ids IH]; intros i.
  - simpl. rewrite Zsum_nil. lia.
  - rewrite enumerate_from_cons. csimpl. rewrite Zsum_cons, IH. cbn [fst snd].
    rewrite Nat2Z.inj_succ. destruct (Z.ltb_spec i rem); nia.
Qed.

(** [compute_per_stage_shares] on valid input: the nodes in order, exact
    conservation, and no two shares more than one wei apart. *)
Lemma shares_spec total ids :
  0 <= total <= MAX_UINT128 → ids ≠ [] →
  ∃ shares, compute_per_stage_shares total ids = Ok shares ∧ shares.*1 = ids ∧
    Zsum shares.*2 = total ∧
    ∀ id v, (id, v) ∈ shares → total / zlen ids <= v <= total / zlen ids + 1.
Proof.
  intros Ht Hids. unfold compute_per_stage_shares.
  replace (total <? 0) with false by lia. replace (MAX_UINT128 <? total) with false by lia.
  rewrite (bool_decide_false (ids = [])) by done. cbn [raise_if mbind result_bind].
  assert (0 < zlen ids) as Hn by (destruct ids; [done | simpl; lia]).
  pose proof (Z.div_mod total (zlen ids)) as Hdiv. pose proof (Z.mod_pos_bound total (zlen ids) Hn) as Hmod.
  set (f := λ ix : Z * string, _). set (shares := f <$> enumerate ids).
  assert (Zsum shares.*2 = total) as Hsum.
  { unfold shares, f, enumerate. rewrite Zsum_front_ones. lia. }
  rewrite Hsum, Z.eqb_refl. simpl. exists shares. split_and!; [done | | done |].
  - unfold shares. rewrite <-list_fmap_compose. apply enumerate_from_snd.
  - intros id v ([i id'] & Heq & _)%list_elem_of_fmap. injection Heq as -> ->. simpl.
    destruct (i <? _); lia.
Qed.

Lemma shares_error total ids :
  ids ≠ [] → ¬ 0 <= total <= MAX_UINT128 → compute_per_stage_shares total ids = Err ValueError.
Proof.
  intros _ Ht. unfold compute_per_stage_shares. destruct (Z.ltb_spec total 0); [done|].
  destruct (Z.ltb_spec MAX_UINT128 total); [done | lia].
Qed.

(** ** Lemmas: the split *)

Section SplitLemmas.
Context `{Externals} (r : SettledReceipt) (total_value_wei : Z)
  (sigs : dict string NodeSignatureMaterial) (requester : string)
  (wallet_map : option ComputeWalletMap) (slash_bps : Z) (group_id : bytes).

Abbreviation split_ := (split_receipt_to_per_node_batched_receipts r total_value_wei sigs requester
                          wallet_map slash_bps group_id).

(** The gating conditions, for a topology whose distinct nodes are [distinct]. *)
Record gates (distinct : list (string * Z)) (request_id : string) : Prop := {
  ga_nodes : distinct_node_ids_with_stage (sr_positions r) = Some distinct;
  ga_material : ∀ id, id ∈ distinct.*1 → material_ok sigs id = true;
  ga_request : sr_request_id r = Some request_id ∧ str_nonempty request_id = true;
  ga_payees : ∀ m id, wallet_map = Some m → id ∈ distinct.*1 →
                is_Some (resolve_node_eth_payee id (Some m))
}.

(** The arguments the constructors accept. *)
Definition args_ok : Prop :=
  0 <= total_value_wei <= MAX_UINT128 ∧ 0 <= slash_bps <= 10000 ∧ length group_id = 32%nat.

(** Who is paid for a node. *)
Definition payee_of (id : string) : string :=
  match wallet_map with
  | None => requester
  | Some _ => default "" (resolve_node_eth_payee id wallet_map)
  end.

(** The share of [id] in the split of a receipt named [request_id] over [n] nodes. *)
Record share_ok (request_id : string) (n : Z) (s : StageSettlementShare) : Prop := {
  so_fair : total_value_wei / n <= ss_share_wei s <= total_value_wei / n + 1;
  so_payee : ∀ m, wallet_map = Some m →
    resolve_node_eth_payee (ss_node_id s) (Some m) = Some (provider_address (ss_batched_receipt s));
  so_receipt : ∃ mat,
    dict_get (ss_node_id s) sigs = Some mat ∧
    derive_node_id_from_pubkey_b64 (mat_pubkey_b64 mat) = Some (ss_node_id s) ∧
    ss_batched_receipt s =
      stage_receipt ("parallax-job-" +:+ request_id) (ss_node_id s) mat (ss_share_wei s) requester
        (payee_of (ss_node_id s)) slash_bps group_id
}.

Lemma resolve_all_Some m ids d :
  NoDup ids → resolve_all m ids = Some d →
  ∀ id, id ∈ ids → dict_get id d = resolve_node_eth_payee id (Some m) ∧
                   is_Some (resolve_node_eth_payee id (Some m)).
Proof.
  unfold resolve_all. intros Hnd Hd id Hid.
  destruct (mapM _ ids) as [l|] eqn:Hm; [|done]. injection Hd as <-. apply mapM_Some in Hm.
  assert (l.*1 = ids) as Hkeys.
  { clear Hid Hnd. induction Hm as [|x y ids l Hx _ IH]; [done|]. csimpl. rewrite IH. f_equal.
    by destruct (resolve_node_eth_payee x (Some m)); simplify_eq/=. }
  rewrite dict_of_list_NoDup by by rewrite Hkeys.
  apply list_elem_of_lookup in Hid as [i Hi].
  destruct (Forall2_lookup_l _ _ _ _ _ Hm Hi) as ([id' p] & Hl & Hp).
  destruct (resolve_node_eth_payee id (Some m)) as [p'|]; [|done]. simpl in Hp. injection Hp as <- <-.
  split; [|done]. apply elem_dict_get; [by unfold dict_wf, dict_keys; rewrite Hkeys|].
  by eapply list_elem_of_lookup_2.
Qed.

Lemma resolve_all_None m ids :
  resolve_all m ids = None → ∃ id, id ∈ ids ∧ resolve_node_eth_payee id (Some m) = None.
Proof.
  unfold resolve_all. intros Hd. destruct (mapM _ ids) as [l|] eqn:Hm; [done|].
  apply mapM_None in Hm. apply Exists_exists in Hm as (id & Hid & Hr). exists id. split; [done|].
  by destruct (resolve_node_eth_payee id (Some m)).
Qed.

(** The share the loop builds for [id], given its material and shares. *)
Definition share_for (job : string) (shares : dict string Z) (mat : NodeSignatureMaterial)
    (id : string) : StageSettlementShare :=
  let v := default 0 (dict_get id shares) in
  {| ss_node_id := id; ss_share_wei := v;
     ss_batched_receipt := stage_receipt job id mat v requester (payee_of id) slash_bps group_id |}.

(** The dictionary of payees the loop reads, if there is one. *)
Definition payees_ok (d : option (dict string string)) (ids : list string) : Prop :=
  match wallet_map with
  | None => d = None
  | Some m => ∃ dm, d = Some dm ∧
      ∀ id, id ∈ ids → dict_get id dm = resolve_node_eth_payee id (Some m) ∧
                       is_Some (resolve_node_eth_payee id (Some m))
  end.

Lemma stage_share_Ok job d shares ids id mat :
  0 <= slash_bps <= 10000 → length group_id = 32%nat → payees_ok d ids → id ∈ ids →
  dict_get id sigs = Some mat → id ∈ dict_keys shares →
  stage_share sigs job requester d shares slash_bps group_id id = Ok (share_for job shares mat id).
Proof.
  intros Hs Hg Hd Hid Hmat Hk. unfold stage_share. rewrite Hmat. simpl.
  destruct (dict_get id shares) as [v|] eqn:Hv; [|by apply dict_get_None in Hv]. simpl.
  assert (match d with
          | Some d0 => of_option KeyError (dict_get id d0)
          | None => Ok requester
          end = Ok (payee_of id)) as ->.
  { unfold payees_ok, payee_of in *. destruct wallet_map as [m|]; [|by subst].
    destruct Hd as (dm & -> & Hdm). destruct (Hdm id Hid) as [-> [p Hp]]. by rewrite Hp. }
  simpl. unfold BatchedReceipt_post_init. simpl. rewrite Hg.
  replace (0 <=? slash_bps) with true by lia. replace (slash_bps <=? 10000) with true by lia.
  simpl. unfold share_for. by rewrite Hv.
Qed.

Lemma material_get id :
  material_ok sigs id = true →
  ∃ mat, dict_get id sigs = Some mat ∧ derive_node_id_from_pubkey_b64 (mat_pubkey_b64 mat) = Some id.
Proof.
  unfold material_ok. destruct (dict_get id sigs) as [mat|]; [|done].
  intros [_ Hd%bool_decide_eq_true]%andb_true_iff. by exists mat.
Qed.
Lemma payees_resolved d ids :
  NoDup ids → payees_by_node wallet_map ids = Some d → payees_ok d ids.
Proof.
  unfold payees_by_node, payees_ok. intros Hnd Hd. destruct wallet_map as [m|]; [|by injection Hd].
  destruct (resolve_all m ids) as [dm|] eqn:Hdm; [|done]. injection Hd as <-.
  exists dm. split; [done|]. by apply resolve_all_Some.
Qed.

Lemma gates_resolved distinct rid :
  gates distinct rid → ∃ d, payees_by_node wallet_map distinct.*1 = Some d.
Proof.
  intros Hg. pose proof (ga_payees _ _ Hg) as Hp. unfold payees_by_node. destruct wallet_map as [m|]; [|eauto].
  destruct (resolve_all m distinct.*1) as [d|] eqn:Hd; [eauto|]. exfalso.
  apply resolve_all_None in Hd as (id & Hid & Hr).
  destruct (Hp m id eq_refl Hid) as [p Hpp]. congruence.
Qed.

(** With valid arguments the loop builds one share per node. *)
Lemma split_loop job ids d :
  ids ≠ [] → NoDup ids → args_ok → (∀ id, id ∈ ids → material_ok sigs id = true) → payees_ok d ids →
  ∃ shares out, compute_per_stage_shares total_value_wei ids = Ok shares ∧
    result_mapM (stage_share sigs job requester d (dict_of_list shares) slash_bps group_id) ids = Ok out ∧
    ss_node_id <$> out = ids ∧ Zsum (ss_share_wei <$> out) = total_value_wei ∧
    ∀ s, s ∈ out → ∃ mat, s = share_for job shares mat (ss_node_id s) ∧
      dict_get (ss_node_id s) sigs = Some mat ∧ ss_node_id s ∈ ids ∧
      derive_node_id_from_pubkey_b64 (mat_pubkey_b64 mat) = Some (ss_node_id s) ∧
      dict_get (ss_node_id s) shares = Some (ss_share_wei s) ∧
      total_value_wei / zlen ids <= ss_share_wei s <= total_value_wei / zlen ids + 1.
Proof.
  intros Hne Hnd (Ht & Hsl & Hgr) Hmat Hd.
  destruct (shares_spec _ _ Ht Hne) as (shares & Hsh & Hkeys & Hsum & Hfair).
  assert (dict_wf shares) as Hwf by by unfold dict_wf, dict_keys; rewrite Hkeys.
  set (no_material := {| mat_pubkey_b64 := ""; mat_signature := ""; mat_stage_index := 0;
                         mat_output_hash := ""; mat_executed_at_unix := 0; mat_tee_attestation := None |}).
  set (mk := λ id, share_for job shares (default no_material (dict_get id sigs)) id).
  exists shares, (mk <$> ids). split; [done|].
  rewrite dict_of_list_NoDup by by rewrite Hkeys. split_and!.
  - apply result_mapM_fmap. intros id Hid. destruct (material_get id (Hmat id Hid)) as (mat & Hget & _).
    unfold mk. rewrite Hget. simpl. eapply stage_share_Ok; try done. unfold dict_keys. by rewrite Hkeys.
  - rewrite <-list_fmap_compose. apply list_fmap_id.
  - rewrite <-list_fmap_compose, <-Hsum. f_equal. rewrite <-Hkeys at 1.
    by apply (dict_get_keys shares 0).
  - intros s (id & -> & Hid)%list_elem_of_fmap. simpl.
    destruct (material_get id (Hmat id Hid)) as (mat & Hget & Hder). exists mat.
    unfold mk. rewrite Hget. simpl. split_and!; try done.
    all: rewrite <-Hkeys in Hid; apply list_elem_of_fmap in Hid as ([id' v] & -> & Hin); simpl;
      rewrite (elem_dict_get _ _ _ Hwf Hin); simpl; [done || by apply (Hfair id' v)..].
Qed.

Lemma gates_ids distinct rid : gates distinct rid → NoDup distinct.*1 ∧ distinct.*1 ≠ [] ∧ 2 <= zlen distinct.
Proof.
  intros [Hn _ _ _]. destruct (sr_positions r) as [ps|]; [|done].
  apply distinct_spec in Hn as [[Hnd _ _] Hlen]. split_and!; [done | | done].
  destruct distinct; simpl in *; [lia | done].
Qed.

Lemma split_value distinct rid :
  gates distinct rid → args_ok →
  ∃ shares out, split_ = Ok (Some out) ∧ ss_node_id <$> out = distinct.*1 ∧
    Zsum (ss_share_wei <$> out) = total_value_wei ∧ Forall (share_ok rid (zlen distinct)) out ∧
    compute_per_stage_shares total_value_wei distinct.*1 = Ok shares ∧
    ∀ s, s ∈ out → dict_get (ss_node_id s) shares = Some (ss_share_wei s).
Proof.
  intros Hg Hargs. destruct (gates_ids _ _ Hg) as (Hnd & Hne & _).
  destruct (gates_resolved _ _ Hg) as [d Hpd].
  pose proof (payees_resolved d _ Hnd Hpd) as Hd.
  destruct Hg as [Hn Hmat [Hr Hrid] Hp].
  destruct (split_loop ("parallax-job-" +:+ rid) distinct.*1 d Hne Hnd Hargs Hmat Hd)
    as (shares & out & Hsh & Hout & Hids & Hsum & Hall).
  exists shares, out. split_and!; [|done | done | |done |].
  - unfold split_receipt_to_per_node_batched_receipts. rewrite Hn.
    rewrite (proj2 (forallb_forall _ _)) by (intros id Hid; apply Hmat; by apply list_elem_of_In).
    rewrite Hr. cbn [negb]. cbv match. rewrite Hrid. cbn [negb].
    unfold per_stage_leaf_job_id, settlement_job_id. rewrite Hrid. cbn [mbind result_bind negb].
    rewrite Hpd, Hsh. cbn [mbind result_bind].
    change ("parallax-job" +:+ "-" +:+ rid) with ("parallax-job-" +:+ rid).
    rewrite Hout. cbn [mbind result_bind]. by rewrite Hsum, Z.eqb_refl.
  - apply Forall_forall. intros s Hs. destruct (Hall s Hs) as (mat & Heq & Hget & Hid & Hder & _ & Hfair).
    rewrite length_fmap in Hfair. split; [done | | exists mat; split_and!; [done | done | by rewrite Heq]].
    intros m Hm. destruct (Hp m _ Hm Hid) as [p Hpp]. rewrite Heq. simpl.
    unfold payee_of. by rewrite Hm, Hpp.
  - intros s Hs. by destruct (Hall s Hs) as (? & _ & _ & _ & _ & Hget & _).
Qed.

Lemma stage_share_args job d shares id s :
  stage_share sigs job requester d shares slash_bps group_id id = Ok s →
  0 <= slash_bps <= 10000 ∧ length group_id = 32%nat.
Proof.
  unfold stage_share, BatchedReceipt_post_init. simpl. intros Hs. inv_result.
  repeat match goal with H : negb _ = false |- _ => apply negb_false_iff in H end. lia.
Qed.

(** The split only succeeds when the gates are open and the arguments valid. *)
Lemma split_inv out :
  split_ = Ok (Some out) → ∃ distinct rid, gates distinct rid ∧ args_ok.
Proof.
  unfold split_receipt_to_per_node_batched_receipts. intros Hs.
  destruct (distinct_node_ids_with_stage (sr_positions r)) as [distinct|] eqn:Hn; [|done].
  destruct (forallb (material_ok sigs) distinct.*1) eqn:Hf; [|done]. simpl in Hs.
  destruct (sr_request_id r) as [rid|] eqn:Hr; [|done].
  destruct (str_nonempty rid) eqn:Hrid; [|done]. simpl in Hs.
  destruct (payees_by_node wallet_map distinct.*1) as [d|] eqn:Hpd; [|done].
  inv_result. rename r0 into shares, Hr0 into Hsh, Hr1 into Hout.
  assert (NoDup distinct.*1 ∧ distinct.*1 ≠ []) as [Hnd Hne].
  { destruct (sr_positions r) as [ps|]; [|done]. apply distinct_spec in Hn as [[Hnd _ _] Hlen].
    split; [done|]. destruct distinct; simpl in *; [lia | done]. }
  exists distinct, rid. split; [split; [done | | done |]|].
  - intros id Hid. rewrite forallb_forall in Hf. apply Hf. by apply list_elem_of_In.
  - intros m id Hm Hid. apply payees_resolved in Hpd; [|done]. unfold payees_ok in Hpd. rewrite Hm in Hpd.
    destruct Hpd as (dm & _ & Hdm). by apply Hdm.
  - split.
    + destruct (decide (0 <= total_value_wei <= MAX_UINT128)) as [|Hbad]; [done|].
      by rewrite (shares_error _ _ Hne Hbad) in Hsh.
    + destruct distinct.*1 as [|id ids] eqn:Hids; [done|]. simpl in Hout. inv_bind Hout.
      by eapply stage_share_args.
Qed.

Lemma share_ok_escrow rid n s :
  share_ok rid n s →
  local_escrow_id (ss_batched_receipt s) = ("parallax-job-" +:+ rid) +:+ "::stage::" +:+ ss_node_id s.
Proof. by intros [_ _ (mat & _ & _ & ->)]. Qed.

(** Different nodes have different escrow ids. *)
Lemma escrow_ids_nodup rid n out :
  Forall (share_ok rid n) out → NoDup (ss_node_id <$> out) →
  NoDup ((local_escrow_id ∘ ss_batched_receipt) <$> out).
Proof.
  intros Hall Hnd. assert ((local_escrow_id ∘ ss_batched_receipt) <$> out =
    (λ id, ("parallax-job-" +:+ rid) +:+ "::stage::" +:+ id) <$> (ss_node_id <$> out)) as ->.
  { rewrite <-list_fmap_compose. apply list_fmap_ext. intros i s Hi.
    apply (share_ok_escrow rid n). rewrite Forall_forall in Hall. apply Hall. by eapply list_elem_of_lookup_2. }
  apply NoDup_fmap_2; [|done]. intros a b Heq. by do 2 apply (inj (String.append _)) in Heq.
Qed.

(** The loop over the payees follows the shares. *)
Lemma payee_loop_spec (m : ComputeWalletMap) shares ids :
  (∀ id, id ∈ ids → is_Some (resolve_node_eth_payee id (Some m)) ∧ id ∈ dict_keys shares) →
  payee_loop (Some m) shares ids =
  Ok (Some ((λ id, (default "" (resolve_node_eth_payee id (Some m)), default 0 (dict_get id shares))) <$> ids)).
Proof.
  induction ids as [|id ids IH]; intros Hall; [done|]. cbn [payee_loop].
  destruct (Hall id) as [[p Hp] Hk]; [by left|]. rewrite Hp.
  destruct (dict_get id shares) as [v|] eqn:Hv; [|by apply dict_get_None in Hv]. simpl of_option.
  cbn [mbind result_bind]. rewrite IH by (intros id' Hid; apply Hall; by right).
  cbn [option_map]. rewrite fmap_cons. by rewrite Hp, Hv.
Qed.
End SplitLemmas.

(** Every receipt of a split is worth its share, and the shares add up. *)
Lemma split_values `{Externals} r total sigs requester wallet_map slash_bps group_id out :
  split_receipt_to_per_node_batched_receipts r total sigs requester wallet_map slash_bps group_id =
    Ok (Some out) →
  (∀ s, s ∈ out → value_ftns (ss_batched_receipt s) = ss_share_wei s) ∧
  Zsum ((λ s, value_ftns (ss_batched_receipt s)) <$> out) = total.
Proof.
  intros Hs. destruct (split_inv _ _ _ _ _ _ _ _ Hs) as (distinct & rid & Hg & Ha).
  destruct (split_value r total sigs requester wallet_map slash_bps group_id distinct rid Hg Ha)
    as (shares & out' & Hs' & Hids & Hsum & Hall & _). assert (out' = out) as -> by congruence.
  assert (∀ s, s ∈ out → value_ftns (ss_batched_receipt s) = ss_share_wei s) as Hv.
  { intros s Hin. rewrite Forall_forall in Hall. by destruct (Hall s Hin) as [_ _ (mat & _ & _ & ->)]. }
  split; [done|]. rewrite <-Hsum. f_equal. apply list_fmap_ext. intros i s Hi. apply Hv.
  by eapply list_elem_of_lookup_2.
Qed.

(** The payees and values of the receipts of a split. *)
Definition payees_of_shares (out : list StageSettlementShare) : list (string * Z) :=
  (λ s, (provider_address (ss_batched_receipt s), value_ftns (ss_batched_receipt s))) <$> out.

(** The authorization and the split agree: the payee set the requester is asked
    to sign for a settled inference is, in order, the payees and values of the
    receipts the split builds for it. *)
Lemma payee_set_agrees `{Externals} r total sigs requester m slash_bps group_id out :
  split_receipt_to_per_node_batched_receipts r total sigs requester (Some m) slash_bps group_id =
    Ok (Some out) →
  build_per_stage_payee_set r total (Some m) =
    Ok (Some (payees_of_shares out)).
Proof.
  intros Hs. destruct (split_inv _ _ _ _ _ _ _ _ Hs) as (distinct & rid & Hg & Ha).
  destruct (split_value r total sigs requester (Some m) slash_bps group_id distinct rid Hg Ha)
    as (shares & out' & Hs' & Hids & _ & Hall & Hsh & Hget). assert (out' = out) as -> by congruence.
  destruct (gates_ids _ _ _ _ _ Hg) as (Hnd & Hne & _). destruct Ha as [Ht _].
  destruct (shares_spec total distinct.*1 Ht Hne) as (shares' & Hsh' & Hkeys & _).
  assert (shares' = shares) as -> by congruence.
  unfold build_per_stage_payee_set. rewrite (ga_nodes _ _ _ _ _ Hg), Hsh. cbn [mbind result_bind].
  rewrite dict_of_list_NoDup by by rewrite Hkeys.
  rewrite (payee_loop_spec m shares).
  2: { intros id Hid. split; [by eapply ga_payees|]. unfold dict_keys. by rewrite Hkeys. }
  do 2 f_equal. unfold payees_of_shares. rewrite <-Hids, <-list_fmap_compose. apply list_fmap_ext. intros i s Hi.
  apply list_elem_of_lookup_2 in Hi. rewrite Forall_forall in Hall.
  destruct (Hall s Hi) as [_ Hp (mat & _ & _ & Hbr)]. unfold compose.
  rewrite (Hp m eq_refl), (Hget s Hi). simpl. f_equal. by rewrite Hbr.
Qed.

(** ** Claims *)

(** C38 The split of a settled inference.  It succeeds exactly when the topology
    names at least two distinct nodes, each with key material that derives its id
    (and an on-chain payee, when a wallet map is given), the receipt has a request
    id, and the arguments are in range.  Then there is one share per distinct
    node, in topology order; the shares conserve the settled value wei for wei and
    differ by at most one wei; each is the value of a receipt that carries that
    node's own signature material under the job id the worker signed, pays that
    node's own wallet, and has an idempotency key of its own. *)
Theorem split_exact `{Externals} r total sigs requester wallet_map slash_bps group_id :
  let split_ := split_receipt_to_per_node_batched_receipts r total sigs requester wallet_map
                  slash_bps group_id in
  ((∃ out, split_ = Ok (Some out)) ↔
   (∃ distinct rid, gates r sigs wallet_map distinct rid) ∧ args_ok total slash_bps group_id) ∧
  ∀ out, split_ = Ok (Some out) →
    ∃ distinct rid, gates r sigs wallet_map distinct rid ∧
      NoDup distinct.*1 ∧ 2 <= zlen distinct ∧ ss_node_id <$> out = distinct.*1 ∧
      Zsum (ss_share_wei <$> out) = total ∧
      Forall (share_ok total sigs requester wallet_map slash_bps group_id rid (zlen distinct)) out ∧
      NoDup ((local_escrow_id ∘ ss_batched_receipt) <$> out).
Proof.
  intros split_. split; [split|].
  - intros [out Hs]. destruct (split_inv _ _ _ _ _ _ _ _ Hs) as (distinct & rid & Hg & Ha). eauto.
  - intros [(distinct & rid & Hg) Ha].
    destruct (split_value r total sigs requester wallet_map slash_bps group_id distinct rid Hg Ha)
      as (shares & out & Hs & _). by exists out.
  - intros out Hs. destruct (split_inv _ _ _ _ _ _ _ _ Hs) as (distinct & rid & Hg & Ha).
    destruct (split_value r total sigs requester wallet_map slash_bps group_id distinct rid Hg Ha)
      as (shares & out' & Hs' & Hids & Hsum & Hall & _).
    assert (out' = out) as -> by (unfold split_ in Hs; congruence).
    destruct (gates_ids _ _ _ _ _ Hg) as (Hnd & _ & Hlen). exists distinct, rid.
    split_and!; try done. apply (escrow_ids_nodup total sigs requester wallet_map slash_bps group_id rid (zlen distinct)); [done|].
    by rewrite Hids.
Qed.
