(* ===== verification/PerStageAuth.v ===== *)
(** * The per-stage payment authorization and its routing

    Models prsm/settlement/per_stage_payment_authorization.py (the hash of the
    set of payees, the EIP-712 authorization over it and its verifier) and
    prsm/settlement/per_stage_routing.py (one task per node, and the gate a node
    runs on the task it receives). *)
From Stdlib Require Import ZArith Lia QArith.
From S2P Require Import PyStd.
From S2P Require Import Externals.
From S2P Require Import Receipt.
From S2P Require Import Attestation.
From S2P Require Import Merkle.
From S2P Require Import Payment.
From S2P Require Import PerStageSplit.
From S2P Require Import Prelude.

#[local] Open Scope string_scope.
#[local] Open Scope list_scope.
#[local] Open Scope Z_scope.

Definition MAX_UINT256 : Z := 2 ^ 256 - 1.

(** [eth_abi.encode(["address[]", "uint256[]"], [addrs, shares])]: the encoding
    of two arrays, which no other module uses. *)
Class AbiArrays : Type := abi_encode_arrays : list string → list Z → bytes.

(** An address [eth_abi] encodes, and its 20 bytes. *)
Definition names_address (a : string) : Prop := ∃ b, address_bytes a = Some b ∧ length b = 20%nat.

(** The encoding determines both arrays, up to the spelling of the addresses. *)
Class AbiArraysLaws `{AbiArrays} : Prop :=
  abi_arrays_inj : ∀ a1 s1 a2 s2,
    Forall names_address a1 → Forall names_address a2 →
    Forall (λ v, 0 <= v <= MAX_UINT256) s1 → Forall (λ v, 0 <= v <= MAX_UINT256) s2 →
    length a1 = length s1 → length a2 = length s2 →
    abi_encode_arrays a1 s1 = abi_encode_arrays a2 s2 →
    address_bytes <$> a1 = address_bytes <$> a2 ∧ s1 = s2.

(** [to_checksum_address] accepts every text [is_address] accepts. *)
Class AddressLaws `{Externals} : Prop :=
  is_address_checksum : ∀ a, is_address a = true → is_Ok (to_checksum_address a).

(** ** The payee set *)

(** A set of payees as the code passes it: addresses with their shares. *)
Definition payee_set : Type := list (string * Z).

(** [_normalize_share] *)
Definition normalize_share (share : Z) : result Z :=
  _ ← raise_if (share <? 0) ValueError;
  _ ← raise_if (MAX_UINT256 <? share) ValueError;
  Ok share.

(** The order of [normalized.sort(key=lambda p: (p[0].lower(), p[1]))]. *)
Definition payee_leb (p q : string * Z) : bool :=
  if (lower p.1 =? lower q.1)%string then p.2 <=? q.2 else string_leb (lower p.1) (lower q.1).

Section Authorization.
Context `{Externals, AbiArrays, Eip712}.

(** One iteration of the validation loop: the keys seen and the pairs kept. *)
Definition normalize_payee (st : list string * payee_set) (entry : string * Z)
  : result (list string * payee_set) :=
  _ ← raise_if (negb (is_address entry.1)) ValueError;
  addr ← to_checksum_address entry.1;
  let key := lower addr in
  _ ← raise_if (bool_decide (key ∈ st.1)) ValueError;
  share ← normalize_share entry.2;
  Ok (key :: st.1, st.2 ++ [(addr, share)]).

Definition compute_payee_set_hash (payees : payee_set) : result bytes :=
  _ ← raise_if (bool_decide (payees = [])) ValueError;
  '(_, normalized) ← result_foldM normalize_payee ([], []) payees;
  let sorted := sort_by payee_leb normalized in
  Ok (keccak (abi_encode_arrays sorted.*1 sorted.*2)).

(** ** Typed data *)

Definition PER_STAGE_REQUIRED : list string :=
  ["requester"; "payee_set_hash"; "total_max_spend_wei"; "job_nonce"; "expiry_unix"; "request_hash"].

(** [_build_typed_data] *)
Definition per_stage_typed_data (p : payload) (chain_id : Z) : result TypedData :=
  _ ← raise_if (negb (forallb (has_key p) PER_STAGE_REQUIRED)) ValueError;
  requester ← pget "requester" p;
  _ ← raise_if (negb (is_str requester)) ValueError;
  payee_set_hash ← pget "payee_set_hash" p ≫= to_bytes32;
  total_max_spend_wei ← pget_int "total_max_spend_wei" p;
  job_nonce ← pget "job_nonce" p ≫= to_bytes32;
  expiry_unix ← pget_int "expiry_unix" p;
  request_hash ← pget "request_hash" p ≫= to_bytes32;
  Ok {|
    td_types := [EIP712Domain;
      ("PerStagePaymentAuthorization",
       [("requester", "address"); ("payee_set_hash", "bytes32"); ("total_max_spend_wei", "uint256");
        ("job_nonce", "bytes32"); ("expiry_unix", "uint256"); ("request_hash", "bytes32")])];
    td_primary := "PerStagePaymentAuthorization";
    td_domain := (DOMAIN_NAME, DOMAIN_VERSION, chain_id);
    td_message :=
      [("requester", TdAddress (py_str requester)); ("payee_set_hash", TdBytes32 payee_set_hash);
       ("total_max_spend_wei", TdUint256 total_max_spend_wei); ("job_nonce", TdBytes32 job_nonce);
       ("expiry_unix", TdUint256 expiry_unix); ("request_hash", TdBytes32 request_hash)]
  |}.

Definition encode_per_stage_typed_data_hash (p : payload) (chain_id : Z) : result bytes :=
  typed_data_hash (per_stage_typed_data p chain_id).

Definition sign_per_stage_authorization (p : payload) (private_key : bytes) (chain_id : Z)
  : result bytes :=
  td ← per_stage_typed_data p chain_id;
  signable ← encode_typed_data td;
  Ok (sign_message signable private_key).

(** [_recover_signer] and [recover_per_stage_signer] *)
Definition recover_per_stage_signer (p : payload) (signature : pval) (chain_id : Z) : result string :=
  sig_bytes ← signature_bytes signature;
  td ← per_stage_typed_data p chain_id;
  signable ← encode_typed_data td;
  recover_message signable sig_bytes.

(** ** The verifier *)

(** Why an authorization is refused: one constructor per message. *)
Inductive Refusal : Type :=
| SignerMismatch | InvalidPayeeSet | InvalidSetHash | SwappedSet | InvalidRequestHash
| UnboundRequest | InvalidCap | CapOutOfRange | OverCap | InvalidPayee | InvalidShare
| NotMember | InvalidExpiry | Expired
| NoAuthorization | SettledValueMismatch | MalformedSignature.

(** [PerStageAuthorizationVerdict] *)
Inductive Verdict : Type := Authorized | Refused (why : Refusal).

(** [try: x = m except C: return Refused(why)], then go on with [x]. *)
Definition refuse_on {A} (catches : exn → bool) (why : Refusal) (m : result A)
    (k : A → result Verdict) : result Verdict :=
  match m with
  | Ok a => k a
  | Err e => if catches e then Ok (Refused why) else Err e
  end.
Definition refuse_if (c : bool) (why : Refusal) (k : result Verdict) : result Verdict :=
  if c then Ok (Refused why) else k.

Definition value_or_type (e : exn) : bool := is_value_error e || bool_decide (e = TypeError).
Definition value_or_key (e : exn) : bool := is_value_error e || bool_decide (e = KeyError).
Definition value_type_or_key (e : exn) : bool := value_or_type e || bool_decide (e = KeyError).

Definition verify_per_stage_authorization (p : payload) (signature : pval) (payees : payee_set)
    (payee : string) (share_wei : Z) (chain_id : Z) (now_unix : Q) : result Verdict :=
  recovered ← recover_per_stage_signer p signature chain_id;
  refuse_if (match dict_get "requester" p with
             | Some (VStr r) => negb (lower recovered =? lower r)%string
             | _ => true
             end) SignerMismatch (
  refuse_on value_or_type InvalidPayeeSet (compute_payee_set_hash payees) (λ computed,
  refuse_on value_or_key InvalidSetHash (pget "payee_set_hash" p ≫= to_bytes32) (λ signed_set_hash,
  refuse_if (negb (bool_decide (computed = signed_set_hash))) SwappedSet (
  refuse_on value_or_key InvalidRequestHash (pget "request_hash" p ≫= to_bytes32) (λ request_hash,
  refuse_if (bool_decide (request_hash = zero32)) UnboundRequest (
  refuse_on value_type_or_key InvalidCap (pget_int "total_max_spend_wei" p) (λ total_cap,
  refuse_if ((total_cap <? 0) || (MAX_UINT256 <? total_cap)) CapOutOfRange (
  refuse_if (total_cap <? Zsum payees.*2) OverCap (
  refuse_if (negb (is_address payee)) InvalidPayee (
  refuse_on value_or_type InvalidShare (normalize_share share_wei) (λ queried_share,
  refuse_if (negb (existsb (λ entry : string * Z, (lower entry.1 =? lower payee)%string &&
                                                   (entry.2 =? queried_share)) payees)) NotMember (
  refuse_on value_type_or_key InvalidExpiry (pget_int "expiry_unix" p) (λ expiry,
  refuse_if (expiry <=? Z.quot (Qnum now_unix) (Zpos (Qden now_unix))) Expired
  (Ok Authorized)))))))))))))).
End Authorization.

(** ** Routing *)

Record PerStageSettlementTask : Type := {
  task_node_id : string;
  task_share_wei : Z;
  task_batched_receipt : BatchedReceipt;
  task_authorization : option json             (* {payload, signature}, or None *)
}.

Definition PerStageSettlementTask_to_dict (t : PerStageSettlementTask) : json :=
  JObj [("node_id", JStr (task_node_id t)); ("share_wei", JStr (str_of_int (task_share_wei t)));
        ("batched_receipt", batched_receipt_to_dict (task_batched_receipt t));
        ("payment_authorization", default JNull (task_authorization t))].

(** [d.get(key)], where [None] and the JSON [null] are the same value. *)
Definition jget_none (key : string) (j : json) : result (option json) :=
  o ← jget_opt key j;
  Ok (match o with Some JNull | None => None | Some v => Some v end).

Definition PerStageSettlementTask_from_dict (str_of_container : json → string) (d : json)
  : result PerStageSettlementTask :=
  n ← jget "node_id" d;
  s ← jget "share_wei" d ≫= int_of_json;
  b ← jget "batched_receipt" d ≫= batched_receipt_from_dict;
  a ← jget_none "payment_authorization" d;
  Ok {| task_node_id := format_json str_of_container n; task_share_wei := s;
        task_batched_receipt := b; task_authorization := a |}.

(** [key in j] for a text [key]; a list or text without the key is not an error. *)
Definition py_in (key : string) (j : json) : result bool :=
  match j with
  | JObj o => Ok (bool_decide (is_Some (dict_get key o)))
  | JArr l => Ok (existsb (λ x, match x with JStr s => (s =? key)%string | _ => false end) l)
  | JStr s => Ok (match String.index 0 key s with Some _ => true | None => false end)
  | _ => Err TypeError
  end.

(** Truth of a JSON value. *)
Definition json_truthy (j : json) : bool :=
  match j with
  | JNull => false
  | JBool b => b
  | JInt z => negb (z =? 0)
  | JStr s => str_nonempty s
  | JArr l => negb (bool_decide (l = []))
  | JObj o => negb (bool_decide (o = []))
  end.

(** A field of a JSON payload.  For the conversions the verifier applies, [True]
    behaves as 1 and a list or an object as [None]. *)
Definition pval_of_json (j : json) : pval :=
  match j with
  | JStr s => VStr s
  | JInt z => VInt z
  | JBool b => VInt (if b then 1 else 0)
  | JNull | JArr _ | JObj _ => VNone
  end.

Section Routing.
Context `{Externals, AbiArrays, Eip712}.

Definition task_of (authorization : option json) (s : StageSettlementShare) : PerStageSettlementTask :=
  {| task_node_id := ss_node_id s; task_share_wei := ss_share_wei s;
     task_batched_receipt := ss_batched_receipt s; task_authorization := authorization |}.

Definition build_per_stage_settlement_tasks (r : SettledReceipt) (total_value_wei : Z)
    (requester : string) (authorization : option json) (wallet_map : option ComputeWalletMap)
    (slash_bps : Z) (group_id : bytes) : result (option (list PerStageSettlementTask)) :=
  if bool_decide (sr_signatures r = []) then Ok None
  else
    shares ← split_receipt_to_per_node_batched_receipts r total_value_wei (sr_signatures r) requester
               wallet_map slash_bps group_id;
    Ok (option_map (λ l : list StageSettlementShare, task_of authorization <$> l) shares).

Definition payee_set_from_tasks (tasks : list PerStageSettlementTask) : payee_set :=
  (λ t, (provider_address (task_batched_receipt t), task_share_wei t)) <$> tasks.

(** The verifier on a JSON payload.  The typed-data builder fails on a payload
    that is not an object. *)
Definition verify_json_authorization (auth_payload auth_signature : json) (payees : payee_set)
    (payee : string) (share_wei chain_id : Z) (now_unix : Q) : result Verdict :=
  match auth_payload with
  | JObj o =>
      verify_per_stage_authorization (prod_map id pval_of_json <$> o) (pval_of_json auth_signature)
        payees payee share_wei chain_id now_unix
  | j =>
      _ ← signature_bytes (pval_of_json auth_signature);
      present ← result_mapM (λ k, py_in k j) PER_STAGE_REQUIRED;
      _ ← raise_if (negb (forallb id present)) ValueError;
      Err TypeError
  end.

Definition verify_routed_settlement_task (task : PerStageSettlementTask) (payees : payee_set)
    (chain_id : Z) (now_unix : Q) : result Verdict :=
  match task_authorization task with
  | None => Ok (Refused NoAuthorization)
  | Some auth =>
      refuse_if (negb (json_truthy auth)) NoAuthorization (
      has_payload ← py_in "payload" auth;
      refuse_if (negb has_payload) NoAuthorization (
      has_signature ← py_in "signature" auth;
      refuse_if (negb has_signature) NoAuthorization (
      refuse_if (negb (value_ftns (task_batched_receipt task) =? task_share_wei task))
        SettledValueMismatch (
      refuse_on (λ e, bool_decide (e = InvalidSignatureFormat)) MalformedSignature
        (auth_payload ← jget "payload" auth;
         auth_signature ← jget "signature" auth;
         verify_json_authorization auth_payload auth_signature payees
           (provider_address (task_batched_receipt task)) (task_share_wei task) chain_id now_unix)
        Ok))))
  end.
End Routing.

(** ** What the verifier authorizes *)

(** The conditions under which [(payee, share_wei)] may be paid at [now]. *)
Record per_stage_ok `{Externals, AbiArrays, Eip712} (p : payload) (signature : pval) (payees : payee_set)
    (payee : string) (share_wei chain_id : Z) (now_unix : Q) : Prop := {
  po_signer : ∃ signer requester, recover_per_stage_signer p signature chain_id = Ok signer ∧
                dict_get "requester" p = Some (VStr requester) ∧ lower signer = lower requester;
  po_set : ∃ h, compute_payee_set_hash payees = Ok h ∧ pget "payee_set_hash" p ≫= to_bytes32 = Ok h;
  po_request : ∃ h, pget "request_hash" p ≫= to_bytes32 = Ok h ∧ h ≠ zero32;
  po_cap : ∃ cap, pget_int "total_max_spend_wei" p = Ok cap ∧ 0 <= cap <= MAX_UINT256 ∧
                  Zsum payees.*2 <= cap;
  po_member : is_address payee = true ∧ 0 <= share_wei <= MAX_UINT256 ∧
              ∃ a, (a, share_wei) ∈ payees ∧ lower a = lower payee;
  po_fresh : ∃ expiry, pget_int "expiry_unix" p = Ok expiry ∧
                       Z.quot (Qnum now_unix) (Zpos (Qden now_unix)) < expiry
}.

Lemma refuse_if_authorized c why k : refuse_if c why k = Ok Authorized ↔ c = false ∧ k = Ok Authorized.
Proof. destruct c; simpl; naive_solver. Qed.

Lemma refuse_on_authorized {A} catches why (m : result A) k :
  refuse_on catches why m k = Ok Authorized ↔ ∃ a, m = Ok a ∧ k a = Ok Authorized.
Proof. destruct m; simpl; [naive_solver|]. split; [by case_match | naive_solver]. Qed.

Lemma normalize_share_Ok v w : normalize_share v = Ok w ↔ v = w ∧ 0 <= v <= MAX_UINT256.
Proof.
  unfold normalize_share. destruct (Z.ltb_spec v 0); simpl; [split; [done | lia]|].
  destruct (Z.ltb_spec MAX_UINT256 v); simpl; [split; [done | lia]|]. split; [|naive_solver].
  intros Heq. injection Heq as ->. lia.
Qed.

Lemma member_spec (payees : payee_set) payee share :
  existsb (λ entry : string * Z, (lower entry.1 =? lower payee)%string && (entry.2 =? share)) payees = true ↔
  ∃ a, (a, share) ∈ payees ∧ lower a = lower payee.
Proof.
  rewrite existsb_exists. setoid_rewrite <-list_elem_of_In. split.
  - intros ([a v] & Hin & [Ha%String.eqb_eq Hv%Z.eqb_eq]%andb_true_iff). simpl in *. subst. eauto.
  - intros (a & Hin & Ha). exists (a, share). split; [done|]. simpl. by rewrite Ha, String.eqb_refl, Z.eqb_refl.
Qed.

Lemma per_stage_ok_authorized `{Externals, AbiArrays, Eip712} p signature payees payee share_wei
    chain_id now_unix :
  per_stage_ok p signature payees payee share_wei chain_id now_unix →
  verify_per_stage_authorization p signature payees payee share_wei chain_id now_unix = Ok Authorized.
Proof.
  intros [(signer & r & Hrec & Hr & Hsig) (h & Hh & Hh') (rq & Hrq & Hbound) (cap & Hcap & Hrange & Hover)
        (Haddr & Hshare & Hmem) (expiry & Hexp & Hfresh)].
  unfold verify_per_stage_authorization. rewrite Hrec. cbn [mbind result_bind].
  repeat first [ setoid_rewrite refuse_if_authorized | setoid_rewrite refuse_on_authorized ].
  rewrite Hr, Hsig, String.eqb_refl. split; [done|]. exists h. split; [done|]. exists h. split; [done|].
  rewrite (bool_decide_true (h = h)) by done. split; [done|]. exists rq. split; [done|].
  rewrite bool_decide_false by done. split; [done|]. exists cap. split; [done|].
  split; [lia|]. split; [lia|]. rewrite Haddr. split; [done|]. exists share_wei.
  split; [by apply normalize_share_Ok|]. split; [apply negb_false_iff; by apply member_spec|].
  exists expiry. split; [done|]. split; [lia | done].
Qed.

(** C32 The per-stage gate decides exactly as documented: it authorizes paying
    [share_wei] to [payee] when and only when the signature recovers the requester
    named in the payload, the supplied payees hash to the signed commitment, the
    request is bound, the shares of the whole set fit the signed ceiling, the
    queried pair is in the set with exactly that share, and the authorization has
    not expired. *)
Theorem per_stage_authorization_exact `{Externals, AbiArrays, Eip712} p signature payees payee share_wei
    chain_id now_unix :
  verify_per_stage_authorization p signature payees payee share_wei chain_id now_unix = Ok Authorized ↔
  per_stage_ok p signature payees payee share_wei chain_id now_unix.
Proof.
  split.
  - unfold verify_per_stage_authorization. intros Hv. apply bind_Ok_inv in Hv as (signer & Hrec & Hv).
    repeat first [ setoid_rewrite refuse_if_authorized in Hv | setoid_rewrite refuse_on_authorized in Hv ].
    destruct Hv as (Hsig & h & Hh & h' & Hh' & Heq & rq & Hrq & Hbound & cap & Hcap & Hrange & Hover & Haddr &
                    q & Hq & Hmem & expiry & Hexp & Hfresh & _).
    apply normalize_share_Ok in Hq as [<- Hshare]. apply negb_false_iff, member_spec in Hmem.
    apply negb_false_iff, bool_decide_eq_true in Heq as ->. apply bool_decide_eq_false in Hbound.
    apply orb_false_iff in Hrange as [? ?]. apply negb_false_iff in Haddr.
    split; [| by exists h' | by exists rq | exists cap; split_and!; [done | lia.. ] | done | exists expiry; split; [done | lia]].
    exists signer. destruct (dict_get "requester" p) as [[r| | |]|]; try done.
    exists r. split_and!; [done | done |]. by apply negb_false_iff, String.eqb_eq in Hsig.
  - apply per_stage_ok_authorized.
Qed.

(** Only the expiry depends on the time: what was authorized once is later
    authorized or expired, and the gate does not raise. *)
Lemma verify_later `{Externals, AbiArrays, Eip712} p signature payees payee share_wei chain_id now now' :
  verify_per_stage_authorization p signature payees payee share_wei chain_id now = Ok Authorized →
  verify_per_stage_authorization p signature payees payee share_wei chain_id now' = Ok Authorized ∨
  verify_per_stage_authorization p signature payees payee share_wei chain_id now' = Ok (Refused Expired).
Proof.
  unfold verify_per_stage_authorization. intros Hv. apply bind_Ok_inv in Hv as (signer & Hrec & Hv).
  repeat first [ setoid_rewrite refuse_if_authorized in Hv | setoid_rewrite refuse_on_authorized in Hv ].
  destruct Hv as (Hsig & h & Hh & h' & Hh' & Heq & rq & Hrq & Hbound & cap & Hcap & Hrange & Hover & Haddr &
                  q & Hq & Hmem & expiry & Hexp & Hfresh & _).
  rewrite Hrec. cbn [mbind result_bind]. rewrite Hsig, Hh, Hh'. cbn [refuse_if refuse_on]. rewrite Heq, Hrq.
  cbn [refuse_if refuse_on]. rewrite Hbound, Hcap. cbn [refuse_if refuse_on]. rewrite Hrange, Hover, Haddr, Hq.
  cbn [refuse_if refuse_on]. rewrite Hmem, Hexp. cbn [refuse_if refuse_on].
  destruct (expiry <=? Z.quot (Qnum now') (Zpos (Qden now'))); [by right | by left].
Qed.

Lemma routed_later `{Externals, AbiArrays, Eip712} task payees chain_id now now' :
  verify_routed_settlement_task task payees chain_id now = Ok Authorized →
  verify_routed_settlement_task task payees chain_id now' = Ok Authorized ∨
  verify_routed_settlement_task task payees chain_id now' = Ok (Refused Expired).
Proof.
  unfold verify_routed_settlement_task. destruct (task_authorization task) as [auth|]; [|done].
  intros [Htr Hv]%refuse_if_authorized. apply bind_Ok_inv in Hv as (hp & Hhp & [Hp Hv]%refuse_if_authorized).
  apply bind_Ok_inv in Hv as (hs & Hhs & [Hs Hv]%refuse_if_authorized).
  apply refuse_if_authorized in Hv as [Hval Hv]. apply refuse_on_authorized in Hv as (v & Hv & Hauth).
  injection Hauth as ->. apply bind_Ok_inv in Hv as (p & Hgp & Hv). apply bind_Ok_inv in Hv as (sig & Hgs & Hv).
  rewrite Htr, Hhp. cbn [refuse_if mbind result_bind]. rewrite Hp, Hhs. cbn [refuse_if mbind result_bind].
  rewrite Hs, Hval, Hgp. cbn [refuse_if mbind result_bind]. rewrite Hgs. cbn [mbind result_bind].
  assert (∀ r, verify_json_authorization p sig payees (provider_address (task_batched_receipt task))
            (task_share_wei task) chain_id now' = Ok r → r = Authorized ∨ r = Refused Expired →
          refuse_on (λ e, bool_decide (e = InvalidSignatureFormat)) MalformedSignature
            (verify_json_authorization p sig payees (provider_address (task_batched_receipt task))
               (task_share_wei task) chain_id now') Ok = Ok Authorized ∨
          refuse_on (λ e, bool_decide (e = InvalidSignatureFormat)) MalformedSignature
            (verify_json_authorization p sig payees (provider_address (task_batched_receipt task))
               (task_share_wei task) chain_id now') Ok = Ok (Refused Expired)) as Hdone.
  { intros r -> [-> | ->]; [by left | by right]. }
  unfold verify_json_authorization in Hv. destruct p as [| | | | |o]; try (exfalso; repeat (apply bind_Ok_inv in Hv as (? & _ & Hv)); discriminate Hv).
  destruct (verify_later _ _ _ _ _ _ _ now' Hv) as [Hl|Hl]; (eapply Hdone; [exact Hl | tauto]).
Qed.

(** ** The payee-set hash *)

Section PayeeSet.
Context `{Externals, AbiArraysLaws, !ChecksumLaws, !AddressLaws}.

(** A payee under the canonical spelling of its address. *)
Definition canonical_payee (p : string * Z) : string * Z :=
  (match to_checksum_address p.1 with Ok c => c | Err _ => p.1 end, p.2).

(** What is hashed for a set. *)
Definition payee_preimage (payees : payee_set) : bytes :=
  let sorted := sort_by payee_leb (canonical_payee <$> payees) in
  abi_encode_arrays sorted.*1 sorted.*2.

Definition payee_ok (p : string * Z) : Prop := is_address p.1 = true ∧ 0 <= p.2 <= MAX_UINT256.

(** The sets that can be authorized: not empty, real addresses, no address twice. *)
Record payee_set_ok (payees : payee_set) : Prop := {
  pso_nonempty : payees ≠ [];
  pso_payees : Forall payee_ok payees;
  pso_distinct : NoDup (lower <$> (canonical_payee <$> payees).*1)
}.

Lemma canonical_checksum p : is_address p.1 = true → to_checksum_address p.1 = Ok (canonical_payee p).1.
Proof. intros [c Hc]%is_address_checksum. unfold canonical_payee. by rewrite Hc. Qed.

Lemma normalize_payee_Ok seen norm p st' :
  normalize_payee (seen, norm) p = Ok st' ↔
  payee_ok p ∧ (¬ lower (canonical_payee p).1 ∈ seen) ∧
  st' = (lower (canonical_payee p).1 :: seen, norm ++ [canonical_payee p]).
Proof.
  unfold normalize_payee, payee_ok. cbn [fst snd].
  destruct (is_address p.1) eqn:Ha; [|split; [done | by intros ([? _] & _)]].
  rewrite (canonical_checksum p Ha). cbn [raise_if mbind result_bind negb].
  case_bool_decide as Hin; cbn [raise_if mbind result_bind]; [split; [done | by intros (_ & ? & _)]|].
  destruct (normalize_share p.2) as [v|e] eqn:Hs; cbn [mbind result_bind].
  - apply normalize_share_Ok in Hs as [<- Hs].
    assert ((canonical_payee p).1 = (canonical_payee p).1 ∧ ((canonical_payee p).1, p.2) = canonical_payee p)
      as [_ ->] by done. naive_solver.
  - split; [done|]. intros ([_ Hr] & _ & _).
    by rewrite (proj2 (normalize_share_Ok _ _) (conj eq_refl Hr)) in Hs.
Qed.

(** The lower-cased canonical addresses: what the loop calls [key]. *)
Definition payee_keys (payees : payee_set) : list string := lower <$> (canonical_payee <$> payees).*1.

Lemma normalize_payees_Ok seen norm payees st' :
  NoDup seen →
  (result_foldM normalize_payee (seen, norm) payees = Ok st' ↔
   Forall payee_ok payees ∧ NoDup (payee_keys payees ++ seen) ∧
   st' = (reverse (payee_keys payees) ++ seen, norm ++ (canonical_payee <$> payees))).
Proof.
  revert seen norm. induction payees as [|p payees IH]; intros seen norm Hnd.
  - simpl. rewrite app_nil_r. split; [by intros [= <-] | by intros (_ & _ & ->)].
  - cbn [result_foldM]. change (payee_keys (p :: payees)) with (lower (canonical_payee p).1 :: payee_keys payees).
    rewrite fmap_cons, reverse_cons, Forall_cons, <-app_assoc, cons_middle, (app_assoc norm).
    destruct (normalize_payee (seen, norm) p) as [st|e] eqn:Hp; cbn [mbind result_bind].
    + apply normalize_payee_Ok in Hp as (Hpo & Hnew & ->).
      rewrite IH by by constructor. rewrite <-Permutation_middle. simpl. tauto.
    + split; [done|]. intros ([Hpo _] & Hdis & _). exfalso.
      assert (normalize_payee (seen, norm) p = Ok (lower (canonical_payee p).1 :: seen, norm ++ [canonical_payee p]))
        as Heq; [|congruence].
      apply normalize_payee_Ok. split_and!; [done | | done].
      simpl in Hdis. apply NoDup_cons in Hdis as [Hdis _]. set_solver.
Qed.

(** The hash succeeds exactly on the sets that can be authorized. *)
Lemma compute_payee_set_hash_Ok payees h :
  compute_payee_set_hash payees = Ok h ↔ payee_set_ok payees ∧ h = keccak (payee_preimage payees).
Proof.
  unfold compute_payee_set_hash. case_bool_decide as Hne; cbn [raise_if mbind result_bind].
  { split; [done|]. by intros [[] _]. }
  destruct (result_foldM normalize_payee ([], []) payees) as [st|e] eqn:Hf; cbn [mbind result_bind].
  - apply normalize_payees_Ok in Hf as (Hok & Hnd & ->); [|constructor]. rewrite app_nil_r in *.
    split; [intros [= <-]; by repeat split | by intros [_ ->]].
  - split; [done|]. intros [[_ Hok Hnd] _].
    assert (result_foldM normalize_payee ([], []) payees = Ok (reverse (payee_keys payees), canonical_payee <$> payees))
      as Heq; [|congruence].
    apply normalize_payees_Ok; [constructor|]. by rewrite !app_nil_r.
Qed.

Lemma payee_leb_total p q : payee_leb p q = true ∨ payee_leb q p = true.
Proof.
  unfold payee_leb. rewrite (String.eqb_sym (lower q.1)). destruct (lower p.1 =? lower q.1)%string.
  - lia.
  - apply string_leb_total.
Qed.

Lemma payee_leb_spec p q :
  payee_leb p q = true ↔
  string_leb (lower p.1) (lower q.1) = true ∧ (lower p.1 = lower q.1 → p.2 <= q.2).
Proof.
  unfold payee_leb. destruct (String.eqb_spec (lower p.1) (lower q.1)) as [Heq|Hne]; [|naive_solver].
  rewrite Heq. assert (string_leb (lower q.1) (lower q.1) = true) as -> by by destruct (string_leb_total (lower q.1) (lower q.1)).
  rewrite Z.leb_le. naive_solver.
Qed.

Lemma payee_leb_trans p q r : payee_leb p q = true → payee_leb q r = true → payee_leb p r = true.
Proof.
  rewrite !payee_leb_spec. intros [Hs1 Hv1] [Hs2 Hv2]. split; [by eapply string_leb_trans|].
  intros Heq. assert (lower p.1 = lower q.1) as E.
  { apply string_leb_antisym; [done|]. by rewrite Heq. }
  rewrite E in *. specialize (Hv1 eq_refl). specialize (Hv2 Heq). lia.
Qed.

Lemma payee_keys_compose payees : payee_keys payees = (lower ∘ fst) <$> (canonical_payee <$> payees).
Proof. unfold payee_keys. by rewrite <-list_fmap_compose. Qed.

(** The sorted set does not depend on the order it was given in. *)
Lemma payee_preimage_perm s1 s2 :
  payee_set_ok s1 → canonical_payee <$> s1 ≡ₚ canonical_payee <$> s2 → payee_preimage s1 = payee_preimage s2.
Proof.
  intros [_ _ Hnd] Hp. unfold payee_preimage.
  rewrite (sort_by_unique payee_leb (canonical_payee <$> s1) (canonical_payee <$> s2)); [done | | | | done].
  - apply payee_leb_total.
  - apply payee_leb_trans.
  - intros p q Hin1 Hin2 Hl1%payee_leb_spec Hl2%payee_leb_spec.
    fold (payee_keys s1) in Hnd. rewrite payee_keys_compose in Hnd.
    apply (NoDup_fmap_inj_on (lower ∘ fst) _ _ _ Hnd Hin1 Hin2).
    apply string_leb_antisym; [apply Hl1 | apply Hl2].
Qed.

(** Every canonical address is its own checksum form and names 20 bytes. *)
Lemma canonical_names payees :
  Forall payee_ok payees →
  Forall (λ c, to_checksum_address c = Ok c ∧ names_address c) (canonical_payee <$> payees).*1.
Proof.
  intros Hok. rewrite <-list_fmap_compose, Forall_fmap. eapply Forall_impl; [exact Hok|].
  intros p [Ha _]. simpl. pose proof (canonical_checksum p Ha) as Hc. split; [by eapply checksum_idemp|].
  destruct (checksum_hex _ _ Hc) as (b & Hl & Hb & _). by exists b.
Qed.

(** Checksum addresses that name the same bytes are the same text. *)
Lemma checksum_bytes_inj l1 l2 :
  Forall (λ c, to_checksum_address c = Ok c ∧ names_address c) l1 →
  Forall (λ c, to_checksum_address c = Ok c ∧ names_address c) l2 →
  address_bytes <$> l1 = address_bytes <$> l2 → l1 = l2.
Proof.
  intros Hl1. revert l2. induction Hl1 as [|c1 l1 [Hc1 _] _ IH]; intros l2 Hl2 Heq.
  - by destruct l2.
  - destruct Hl2 as [|c2 l2 [Hc2 _] Hl2]; [done|]. injection Heq as Hb Heq.
    f_equal; [by eapply checksum_inj | by apply IH].
Qed.

Lemma payee_preimage_inj s1 s2 :
  payee_set_ok s1 → payee_set_ok s2 → payee_preimage s1 = payee_preimage s2 →
  canonical_payee <$> s1 ≡ₚ canonical_payee <$> s2.
Proof.
  intros [_ Hok1 _] [_ Hok2 _] Heq. unfold payee_preimage in Heq.
  set (l1 := sort_by payee_leb (canonical_payee <$> s1)) in *.
  set (l2 := sort_by payee_leb (canonical_payee <$> s2)) in *.
  assert (∀ s, Forall payee_ok s →
    Forall (λ c, to_checksum_address c = Ok c ∧ names_address c) (sort_by payee_leb (canonical_payee <$> s)).*1 ∧
    Forall (λ v, 0 <= v <= MAX_UINT256) (sort_by payee_leb (canonical_payee <$> s)).*2) as Hsorted.
  { intros s Hs. rewrite !sort_by_perm. split; [by apply canonical_names|].
    rewrite <-list_fmap_compose, Forall_fmap. eapply Forall_impl; [exact Hs|]. by intros p [_ Hv]. }
  destruct (Hsorted s1 Hok1) as [Hn1 Hv1], (Hsorted s2 Hok2) as [Hn2 Hv2].
  assert (l1 = l2) as Hl.
  { apply abi_arrays_inj in Heq as [Ha Hv]; [| | | done | done | |];
      [| by eapply Forall_impl; [exact Hn1 | intros ? []] | by eapply Forall_impl; [exact Hn2 | intros ? []]
       | by rewrite !length_fmap | by rewrite !length_fmap].
    apply checksum_bytes_inj in Ha; [|done..].
    rewrite <-(zip_fst_snd l1), <-(zip_fst_snd l2). unfold l1, l2 in *. by rewrite Ha, Hv. }
  rewrite <-(sort_by_perm payee_leb (canonical_payee <$> s1)), <-(sort_by_perm payee_leb (canonical_payee <$> s2)).
  unfold l1, l2 in Hl. by rewrite Hl.
Qed.
End PayeeSet.

(** The payee-set commitment is exact.  It exists exactly for a non-empty set of
    real addresses with uint256 shares and no address twice, whatever its
    spelling; and, up to a keccak collision between the two encodings, two sets
    have the same commitment when and only when they hold the same addresses with
    the same shares, in any order and spelling. *)
Theorem payee_set_binding `{Externals, AbiArraysLaws, !ChecksumLaws, !AddressLaws} s1 s2 :
  (is_Ok (compute_payee_set_hash s1) ↔ payee_set_ok s1) ∧
  ∀ h1 h2, compute_payee_set_hash s1 = Ok h1 → compute_payee_set_hash s2 = Ok h2 →
    no_collision [payee_preimage s1; payee_preimage s2] →
    (h1 = h2 ↔ canonical_payee <$> s1 ≡ₚ canonical_payee <$> s2).
Proof.
  split.
  - split; [by intros [h [Hs _]%compute_payee_set_hash_Ok]|].
    intros Hs. exists (keccak (payee_preimage s1)). by apply compute_payee_set_hash_Ok.
  - intros h1 h2 [Hs1 ->]%compute_payee_set_hash_Ok [Hs2 ->]%compute_payee_set_hash_Ok Hinj. split.
    + intros Heq. apply payee_preimage_inj; [done | done |]. apply Hinj; [by left | by right; left | done].
    + intros Hp. f_equal. by apply payee_preimage_perm.
Qed.

(** ** From the split to the gate *)

Section EndToEnd.
Context `{Externals, AbiArraysLaws, !ChecksumLaws, !AddressLaws, Eip712Laws}.

(** The routed authorization of a payload [o] signed with [key]. *)
Definition routed_authorization (o : dict string json) (sig : bytes) : json :=
  JObj [("payload", JObj o); ("signature", JStr (hex sig))].

Lemma sign_recover p key chain_id sig signature :
  spells signature sig → sign_per_stage_authorization p key chain_id = Ok sig →
  recover_per_stage_signer p signature chain_id = Ok (account_of key).
Proof.
  unfold sign_per_stage_authorization, recover_per_stage_signer. intros Hs Hsig.
  apply bind_Ok_inv in Hsig as (td & -> & Hsig). apply bind_Ok_inv in Hsig as (m & Hm & Hsig).
  injection Hsig as <-. rewrite (signature_bytes_spells _ _ (sign_length m key) Hs). simpl. rewrite Hm.
  simpl. apply recover_sign.
Qed.

(** What a requester's payload must say to cover [total] wei for the set hashed
    to [h] at [now]. *)
Record covers (p : payload) (h : bytes) (total : Z) (now_unix : Q) : Prop := {
  cv_set : pget "payee_set_hash" p ≫= to_bytes32 = Ok h;
  cv_request : ∃ rq, pget "request_hash" p ≫= to_bytes32 = Ok rq ∧ rq ≠ zero32;
  cv_cap : ∃ cap, pget_int "total_max_spend_wei" p = Ok cap ∧ 0 <= cap <= MAX_UINT256 ∧ total <= cap;
  cv_fresh : ∃ expiry, pget_int "expiry_unix" p = Ok expiry ∧
                       Z.quot (Qnum now_unix) (Zpos (Qden now_unix)) < expiry
}.

Lemma routed_task_gate task o sig payees chain_id now_unix :
  task_authorization task = Some (routed_authorization o sig) →
  value_ftns (task_batched_receipt task) = task_share_wei task →
  verify_per_stage_authorization (prod_map id pval_of_json <$> o) (VStr (hex sig)) payees
    (provider_address (task_batched_receipt task)) (task_share_wei task) chain_id now_unix = Ok Authorized →
  verify_routed_settlement_task task payees chain_id now_unix = Ok Authorized.
Proof.
  intros Ha Hv Hver. unfold verify_routed_settlement_task. rewrite Ha. simpl. rewrite Hv, Z.eqb_refl. simpl.
  unfold jget. simpl. by rewrite Hver.
Qed.
End EndToEnd.

(** C31 An honest multi-stage payment goes through.  Split a settled receipt and let
    the requester sign the payee set of that receipt with a payload that covers its
    value: then every task routed to a node passes that node's gate against the set
    derived from the tasks, and the values the nodes will commit add up to exactly
    the value signed for. *)
Theorem routed_tasks_authorized `{Externals, AbiArraysLaws, !ChecksumLaws, !AddressLaws, Eip712Laws}
    r total m payees h o key sig chain_id now_unix slash_bps group_id tasks :
  build_per_stage_payee_set r total (Some m) = Ok (Some payees) →
  compute_payee_set_hash payees = Ok h →
  covers (prod_map id pval_of_json <$> o) h total now_unix →
  dict_get "requester" (prod_map id pval_of_json <$> o) = Some (VStr (account_of key)) →
  sign_per_stage_authorization (prod_map id pval_of_json <$> o) key chain_id = Ok sig →
  build_per_stage_settlement_tasks r total (account_of key) (Some (routed_authorization o sig)) (Some m)
    slash_bps group_id = Ok (Some tasks) →
  payee_set_from_tasks tasks = payees ∧
  Zsum ((λ t, value_ftns (task_batched_receipt t)) <$> tasks) = total ∧
  ∀ t, t ∈ tasks →
    verify_routed_settlement_task t (payee_set_from_tasks tasks) chain_id now_unix = Ok Authorized.
Proof.
  intros Hset Hh [Hcs Hrq Hcap Hfresh] Hreq Hsig Htasks.
  unfold build_per_stage_settlement_tasks in Htasks. case_bool_decide as Hne; [done|].
  apply bind_Ok_inv in Htasks as ([out|] & Hsplit & Htasks); [|done]. injection Htasks as <-.
  pose proof (payee_set_agrees _ _ _ _ _ _ _ _ Hsplit) as Hagree. rewrite Hset in Hagree. injection Hagree as ->.
  destruct (split_values _ _ _ _ _ _ _ _ Hsplit) as [Hvals Hsum].
  assert (payee_set_from_tasks (task_of (Some (routed_authorization o sig)) <$> out) = payees_of_shares out) as Hps.
  { unfold payee_set_from_tasks, payees_of_shares. rewrite <-list_fmap_compose. apply list_fmap_ext. intros i s Hi.
    simpl. f_equal. symmetry. apply Hvals. by eapply list_elem_of_lookup_2. }
  split_and!; [done | by rewrite <-list_fmap_compose | ].
  intros t (s & -> & Hs)%list_elem_of_fmap. rewrite Hps.
  apply (routed_task_gate _ o sig); [done | by apply Hvals |]. apply per_stage_ok_authorized. simpl.
  apply compute_payee_set_hash_Ok in Hh as Hok. destruct Hok as [[_ Hpo _] _].
  assert ((provider_address (ss_batched_receipt s), ss_share_wei s) ∈ payees_of_shares out) as Hin.
  { apply list_elem_of_fmap. exists s. by rewrite (Hvals s Hs). }
  rewrite Forall_forall in Hpo. destruct (Hpo _ Hin) as [Haddr Hrange]. split.
  - exists (account_of key), (account_of key). split_and!; [|done..].
    eapply sign_recover; [by right; left | done].
  - by exists h.
  - done.
  - destruct Hcap as (cap & Hcap & Hcr & Hle). exists cap. split_and!; [done | lia | lia |].
    unfold payees_of_shares. rewrite <-list_fmap_compose. unfold compose. simpl. lia.
  - split_and!; [done | simpl in *; lia | simpl in *; lia |]. by eexists.
  - done.
Qed.
