(* ===== verification/PerStageExample.v ===== *)
(** * The per-stage settlement on a concrete two-stage inference

    A toy instance of the array encoding, a settled receipt with two nodes, and
    the witnesses of the claims about its split, its authorization and its
    routing. *)
From Stdlib Require Import ZArith Lia QArith.
From S2P Require Import PyStd.
From S2P Require Import Externals.
From S2P Require Import Receipt.
From S2P Require Import Attestation.
From S2P Require Import Merkle.
From S2P Require Import Payment.
From S2P Require Import PerStageSplit.
From S2P Require Import PerStageAuth.
From S2P Require Import Prelude.

#[local] Open Scope string_scope.
#[local] Open Scope list_scope.
#[local] Open Scope Z_scope.

Import Toy ToyEip712.

(** ** A concrete array encoding *)

Definition address_word (a : string) : bytes := word (default [] (address_bytes a)).
Definition toy_arrays_ (addrs : list string) (shares : list Z) : bytes :=
  flat_map address_word addrs ++ flat_map (be_bytes 32) shares.
#[export] Instance toy_arrays : AbiArrays := toy_arrays_.

Lemma flat_map_words_length {A} (f : A → bytes) l :
  (∀ x, length (f x) = 32%nat) → length (flat_map f l) = (32 * length l)%nat.
Proof. intros Hf. induction l as [|x l IH]; simpl; [done|]. rewrite length_app, Hf, IH. lia. Qed.

Lemma flat_map_words_inj {A B} (f : A → bytes) (g : A → B) (P : A → Prop) l1 l2 :
  (∀ x, length (f x) = 32%nat) → (∀ x y, P x → P y → f x = f y → g x = g y) →
  Forall P l1 → Forall P l2 → flat_map f l1 = flat_map f l2 → g <$> l1 = g <$> l2.
Proof.
  intros Hlen Hinj Hl1. revert l2. induction Hl1 as [|x l1 Hx _ IH]; intros l2 Hl2 Heq.
  - destruct l2 as [|y l2]; [done|]. apply (f_equal length) in Heq.
    rewrite !flat_map_words_length in Heq by done. simpl in Heq. lia.
  - destruct Hl2 as [|y l2 Hy Hl2].
    + apply (f_equal length) in Heq. rewrite !flat_map_words_length in Heq by done. simpl in Heq. lia.
    + simpl in Heq. apply app_inj_1 in Heq as [Hh Ht]; [|by rewrite !Hlen]. rewrite !fmap_cons.
      f_equal; [by apply Hinj | by apply IH].
Qed.

#[export] Instance toy_arrays_laws : AbiArraysLaws.
Proof.
  intros a1 s1 a2 s2 Ha1 Ha2 Hs1 Hs2 H1 H2 Heq. unfold abi_encode_arrays, toy_arrays, toy_arrays_ in Heq.
  assert (∀ a, length (address_word a) = 32%nat) as Hw by (intros; apply word_length).
  assert (∀ z, length (be_bytes 32 z) = 32%nat) as Hb by (intros; apply be_bytes_length).
  assert (length a1 = length a2) as Hlen.
  { apply (f_equal length) in Heq. rewrite !length_app, !flat_map_words_length in Heq by done. lia. }
  apply app_inj_1 in Heq as [Ha Hs]; [|rewrite !flat_map_words_length by done; lia]. split.
  - apply (flat_map_words_inj address_word address_bytes names_address); try done.
    intros x y (bx & Hx & Lx) (b & Hy & Ly). unfold address_word, word. rewrite Hx, Hy. simpl.
    rewrite !take_app_ge by lia. rewrite Lx, Ly. intros [-> _]%app_inj_1; [done | lia].
  - rewrite <-(list_fmap_id s1), <-(list_fmap_id s2).
    apply (flat_map_words_inj (be_bytes 32) id (λ v, 0 <= v <= MAX_UINT256)); try done.
    intros x y Hx Hy Hxy%(f_equal from_bytes_be). unfold MAX_UINT256 in *.
    rewrite !from_be_bytes in Hxy by (simpl; lia). done.
Qed.

#[export] Instance toy_address_laws : AddressLaws.
Proof.
  intros a Ha. exists (lower a). simpl in *. unfold checksum_. unfold is_address_ in Ha |- *.
  destruct (address_bytes a) as [b|]; [|done].
  apply andb_true_iff in Ha as [Hl%bool_decide_eq_true Hn]. rewrite Hl. unfold address_bytes.
  change (sdrop 2 ("0x" +:+ hex b)) with (hex b). rewrite fromhex_hex, Hn, <-Hl, lower_idemp.
  by rewrite bool_decide_true.
Qed.

(** ** Two nodes *)

Definition key_a : string := "AAAA".
Definition key_b : string := "AQID".
Definition node_a : string := default "" (derive_node_id_from_pubkey_b64 key_a).
Definition node_b : string := default "" (derive_node_id_from_pubkey_b64 key_b).

Definition material (key : string) (stage : Z) : NodeSignatureMaterial :=
  {| mat_pubkey_b64 := key; mat_signature := "c2ln"; mat_stage_index := stage; mat_output_hash := hex zero32;
     mat_executed_at_unix := 1000; mat_tee_attestation := None |}.

Definition wallets : ComputeWalletMap :=
  [(node_a, "0x00000000000000000000000000000000000000Bb"); (node_b, "0x00000000000000000000000000000000000000cc")].

(** Stage 1 before stage 0 in the table, and [node_b] again in a second slot. *)
Definition two_stages : SettledReceipt := {|
  sr_request_id := Some "req-1";
  sr_positions := Some [((1, 0), node_b); ((0, 0), node_a); ((1, 1), node_b)];
  sr_signatures := [(node_a, material key_a 0); (node_b, material key_b 1)]
|}.

Definition sample_group : bytes := replicate 32 x00.

(** Seven wei over two nodes. *)
Example two_stages_split :
  option_map (fmap (λ s, (bool_decide (ss_node_id s = node_a), ss_share_wei s)))
    (match split_receipt_to_per_node_batched_receipts two_stages 7 (sr_signatures two_stages) sample_requester
             (Some wallets) 500 sample_group with Ok o => o | Err _ => None end) = Some [(true, 4); (false, 3)].
Proof. vm_compute. reflexivity. Qed.

Lemma split_exact_witness :
  ∃ out, split_receipt_to_per_node_batched_receipts two_stages 7 (sr_signatures two_stages) sample_requester
           (Some wallets) 500 sample_group = Ok (Some out) ∧
         Zsum (ss_share_wei <$> out) = 7 ∧ NoDup ((local_escrow_id ∘ ss_batched_receipt) <$> out).
Proof.
  eexists. split; [vm_compute; reflexivity|].
  edestruct (proj2 (split_exact two_stages 7 (sr_signatures two_stages) sample_requester (Some wallets) 500
                      sample_group)) as (distinct & rid & _ & _ & _ & _ & Hsum & _ & Hnd);
    [vm_compute; reflexivity|]. split; [exact Hsum | exact Hnd].
Defined.

(** ** The requester's authorization *)

Definition payees7 : payee_set :=
  [("0x00000000000000000000000000000000000000Bb", 4); ("0x00000000000000000000000000000000000000cc", 3)].
Definition payees7_hash : bytes := match compute_payee_set_hash payees7 with Ok h => h | Err _ => [] end.

Definition stage_auth : dict string json :=
  [("requester", JStr sample_requester); ("payee_set_hash", JStr (hex payees7_hash));
   ("total_max_spend_wei", JInt 10); ("job_nonce", JStr (hex32 "01")); ("expiry_unix", JInt 2000);
   ("request_hash", JStr ("0x" +:+ hex32 "ab"))].
Definition stage_payload : payload := prod_map id pval_of_json <$> stage_auth.
Definition stage_signature : bytes :=
  match sign_per_stage_authorization stage_payload sample_key 8453 with Ok s => s | Err _ => [] end.

(** The gate on node a's share, its address in another case. *)
Lemma per_stage_authorization_exact_witness :
  per_stage_ok stage_payload (VStr (hex stage_signature)) payees7
    "0x00000000000000000000000000000000000000bB" 4 8453 (3001 # 2).
Proof.
  apply (per_stage_authorization_exact stage_payload (VStr (hex stage_signature)) payees7
           "0x00000000000000000000000000000000000000bB" 4 8453 (3001 # 2)).
  vm_compute. reflexivity.
Defined.

(** A second payee set in another order and spelling. *)
Definition payees7' : payee_set :=
  [("0x00000000000000000000000000000000000000CC", 3); ("0x00000000000000000000000000000000000000bb", 4)].

Lemma payee_set_binding_witness :
  canonical_payee <$> payees7 ≡ₚ canonical_payee <$> payees7'.
Proof.
  destruct (payee_set_binding payees7 payees7') as [_ Hb].
  apply (Hb payees7_hash payees7_hash); [vm_compute; reflexivity.. | | reflexivity].
  apply no_collision_b_correct. vm_compute. reflexivity.
Defined.

(** The tasks of the split, all accepted. *)
Definition tasks7 : list PerStageSettlementTask :=
  match build_per_stage_settlement_tasks two_stages 7 sample_requester
          (Some (routed_authorization stage_auth stage_signature)) (Some wallets) 500 sample_group with
  | Ok (Some l) => l
  | _ => []
  end.

Lemma routed_tasks_authorized_witness :
  length tasks7 = 2%nat ∧
  ∀ t, t ∈ tasks7 → verify_routed_settlement_task t (payee_set_from_tasks tasks7) 8453 (3001 # 2) = Ok Authorized.
Proof.
  split; [vm_compute; reflexivity|].
  refine (proj2 (proj2 (routed_tasks_authorized two_stages 7 wallets payees7 payees7_hash stage_auth sample_key
            stage_signature 8453 (3001 # 2) 500 sample_group tasks7 _ _ _ _ _ _)));
    try (vm_compute; reflexivity).
  split; [vm_compute; reflexivity | | |].
  - eexists. split; [vm_compute; reflexivity | vm_compute; discriminate].
  - exists 10. split; [vm_compute; reflexivity | vm_compute; split; [split|]; discriminate].
  - exists 2000. split; vm_compute; reflexivity.
Defined.

(** One operator wallet for both nodes: the split still pays every node, but the
    payee set repeats the address and cannot be hashed, so no authorization for
    the job exists. *)
Definition shared_wallet : ComputeWalletMap :=
  [(node_a, "0x00000000000000000000000000000000000000Bb"); (node_b, "0x00000000000000000000000000000000000000Bb")].

Lemma shared_wallet_unauthorizable :
  build_per_stage_payee_set two_stages 7 (Some shared_wallet) =
    Ok (Some [("0x00000000000000000000000000000000000000Bb", 4); ("0x00000000000000000000000000000000000000Bb", 3)]) ∧
  compute_payee_set_hash
    [("0x00000000000000000000000000000000000000Bb", 4); ("0x00000000000000000000000000000000000000Bb", 3)] =
    Err ValueError.
Proof. split; vm_compute; reflexivity. Qed.

(** A task whose payload is not an object makes the gate raise. *)
Lemma gate_raises_on_malformed_payload :
  ∃ t, t ∈ tasks7 ∧
    verify_routed_settlement_task
      {| task_node_id := task_node_id t; task_share_wei := task_share_wei t;
         task_batched_receipt := task_batched_receipt t;
         task_authorization := Some (JObj [("payload", JObj []); ("signature", JStr (hex stage_signature))]) |}
      payees7 8453 0 = Err ValueError.
Proof.
  destruct tasks7 as [|t l] eqn:E; [exfalso; vm_compute in E; discriminate E|]. exists t. split; [left|].
  assert (t = hd t tasks7) as Ht by by rewrite E. rewrite Ht. clear. vm_compute. reflexivity.
Qed.
