(* ===== verification/Retention.v ===== *)
(** * Bounded retention stores

    The per-stage receiver store (prsm/settlement/per_stage_receiver_store.py) and
    the issued-authorization store (prsm/settlement/issued_authorization_store.py)
    keep the same discipline over different records: an [OrderedDict] keyed by a
    field of the record, re-inserted records moved to the newest end, the oldest
    evicted over a cap, entries pruned by age, the whole store written to a file
    after every change (a failed write is logged and ignored) and reloaded entry
    by entry at start.  [RetentionEntry] is what the discipline needs of a record;
    the two stores are its instances.

    The abstract store is a bounded list, oldest first, with a durable copy;
    [retention_refines] says that the code implements it through crashes and
    failed writes. *)
From Stdlib Require Import ZArith Lia QArith.
From S2P Require Import PyStd.
From S2P Require Import Receipt.
From S2P Require Import Published.
From S2P Require Import Effects.
From S2P Require Import Prelude.
From stdpp Require Import relations.

#[local] Open Scope string_scope.
#[local] Open Scope list_scope.
#[local] Open Scope Z_scope.

(** [int(x)] of a float. *)
Definition trunc (x : Q) : Z := Z.quot (Qnum x) (Zpos (Qden x)).

Class RetentionEntry (E : Type) : Type := {
  entry_key : E → string;
  entry_stamp : E → Z;
  entry_to_dict : E → json;
  entry_from_dict : json → result E;
  entry_loads : E → bool;             (* is it kept when read back *)
  entries_field : string              (* the field of the file *)
}.
Arguments entries_field E {_}.

Record Retained (E : Type) : Type := { re_max : Z; re_entries : dict string E }.
Arguments re_max {E}.
Arguments re_entries {E}.

Inductive retention_request : Type :=
| Clock                                (* self._now() *)
| SaveFile (state : json).             (* SettlementStateStore.save *)
Definition retention_response (e : retention_request) : Type :=
  match e with Clock => Q | SaveFile _ => result unit end.
Definition retention : signature := {| request := retention_request; response := retention_response |}.

(** ** Operations *)

Section Store.
Context {E : Type} `{RetentionEntry E}.

Abbreviation store_method A := (M retention (Retained E) A).

Definition re_state (s : Retained E) : json :=
  JObj [("version", JInt 1); (entries_field E, JObj (prod_map id entry_to_dict <$> re_entries s))].

(** [_persist]: a failed write is not reported. *)
Definition re_persist : store_method unit :=
  s ← get; _ ← perform (E := retention) (SaveFile (re_state s)); mret ().

(** [if key in d: del d[key]] then [d[key] = rec]. *)
Definition put_newest (d : dict string E) (rec : E) : dict string E :=
  dict_set (entry_key rec) rec (dict_del (entry_key rec) d).

Definition with_entries (f : dict string E → dict string E) (s : Retained E) : Retained E :=
  {| re_max := re_max s; re_entries := f (re_entries s) |}.

(** Insert the records, evict the oldest over the cap, persist. *)
Definition retain_all (recs : list E) : store_method unit :=
  _ ← modify (λ s, with_entries (λ d, evict_oldest (re_max s) (fold_left put_newest recs d)) s);
  re_persist.

(** Build records stamped with the clock, and retain them; building may raise. *)
Definition retain_stamped (build : Z → result (list E)) : store_method (list E) :=
  now ← perform (E := retention) Clock;
  recs ← lift (build (trunc now));
  _ ← retain_all recs;
  mret recs.

Definition re_get (s : Retained E) (key : string) : option E := dict_get key (re_entries s).
Definition re_all (s : Retained E) : list E := dict_values (re_entries s).

(** [discard] *)
Definition re_discard (key : string) : store_method bool :=
  s ← get;
  if negb (dict_mem key (re_entries s)) then mret false
  else _ ← modify (with_entries (dict_del key)); _ ← re_persist; mret true.

(** [stamp < now - retention_seconds] *)
Definition entry_expired (now : Q) (retention_seconds : Z) (e : E) : bool :=
  negb (Qle_bool (now - inject_Z retention_seconds) (inject_Z (entry_stamp e))).

(** [prune] *)
Definition re_prune (retention_seconds : Z) : store_method Z :=
  now ← perform (E := retention) Clock;
  s ← get;
  let expired := filter (λ kb : string * E, entry_expired now retention_seconds kb.2 = true) (re_entries s) in
  _ ← modify (with_entries (fold_left (λ d (kb : string * E), dict_del kb.1 d) expired));
  _ ← (if bool_decide (expired = []) then mret () else re_persist);
  mret (zlen expired).

(** [_load] *)
Definition load_entry (d : dict string E) (kv : string * json) : dict string E :=
  match entry_from_dict kv.2 with
  | Ok rec => if entry_loads rec then dict_set (entry_key rec) rec d else d
  | Err _ => d
  end.
Definition re_load (max : Z) (f : file) : Retained E :=
  {| re_max := max;
     re_entries :=
       match store_load f with
       | Ok (Some raw) =>
           match dict_get (entries_field E) raw with
           | Some (JObj entries) => fold_left load_entry entries []
           | _ => []
           end
       | _ => []
       end |}.

(** The constructor. *)
Definition re_init (max : Z) (f : file) : result (Retained E) :=
  if max <=? 0 then Err ValueError else Ok (re_load max f).
End Store.
Abbreviation store_method E A := (M retention (Retained E) A).

(** What the theorems need of a record: written and read back, it is the same,
    and it is kept. *)
Class RetentionLaws (E : Type) `{RetentionEntry E} (ok : E → Prop) : Prop := {
  entry_roundtrip : ∀ e, ok e → entry_from_dict (entry_to_dict e) = Ok e;
  entry_reloaded : ∀ e, ok e → entry_loads e = true;
  entries_field_ne : entries_field E ≠ "version"
}.

(** ** The abstract store *)

Section Abstract.
Context {E : Type} `{RetentionEntry E} (max : Z).

(** The newest [max] records. *)
Definition newest (l : list E) : list E := drop (length l - Z.to_nat max) l.

Definition without (key : string) (l : list E) : list E := filter (λ e, entry_key e ≠ key) l.

(** Records, oldest first, and the copy a restart begins from. *)
Record abstract_store : Type := { live : list E; durable : list E }.

Inductive retention_call : Type :=
| RetainCall (build : Z → result (list E))
| DiscardCall (key : string)
| PruneCall (retention_seconds : Z).

(** What a call may do to the records. *)
Inductive abs_call : retention_call → list E → list E → Prop :=
| abs_retain build t recs l : build t = Ok recs →
    abs_call (RetainCall build) l (newest (fold_left (λ l e, without (entry_key e) l ++ [e]) recs l))
| abs_retain_raises build t e l : build t = Err e → abs_call (RetainCall build) l l
| abs_discard key l : abs_call (DiscardCall key) l (without key l)
| abs_prune now secs l :
    abs_call (PruneCall secs) l (filter (λ e, entry_expired now secs e = false) l).

(** The durable copy is the new records, or, when the write failed or was not
    needed, what it was; a crash can strike between the two. *)
Inductive abs_step : abstract_store → abstract_store → Prop :=
| abs_step_call call l d l' d' : abs_call call l l' → d' = d ∨ d' = l' →
    abs_step {| live := l; durable := d |} {| live := l'; durable := d' |}
| abs_step_restart l d : abs_step {| live := l; durable := d |} {| live := d; durable := d |}.
End Abstract.
Arguments abstract_store : clear implicits.
Arguments retention_call : clear implicits.

(** ** The code as a process *)

(** A write replaces the file or leaves it. *)
Definition retention_exec (e : retention_request) : file → retention_response e → file → Prop :=
  match e return file → retention_response e → file → Prop with
  | Clock => λ w r w', w' = w
  | SaveFile j => λ w r w', (r = Ok tt ∧ w' = Json j) ∨ (∃ x, r = Err x ∧ w' = w)
  end.

Section Refinement.
Context {E : Type} `{RetentionEntry E} (ok : E → Prop) (max : Z).

Definition call_body (c : retention_call E) : store_method E unit :=
  match c with
  | RetainCall build => _ ← retain_stamped build; mret ()
  | DiscardCall key => _ ← re_discard key; mret ()
  | PruneCall secs => _ ← re_prune secs; mret ()
  end.

Definition retention_call_ok (c : retention_call E) : Prop :=
  match c with RetainCall build => ∀ t recs, build t = Ok recs → Forall ok recs | _ => True end.

Inductive retention_calls : Retained E → file → prog retention (result unit * Retained E) → file → Prop :=
| calls_intro c s w : retention_call_ok c → retention_calls s w (call_body c s) w.

Definition retention_step :=
  process_step (E := retention) retention_exec retention_calls (λ _ w w', w' = w)
    (λ w s, s = re_load max w).

(** Keys are unique and name their own record, within the bound. *)
Record ret_wf (s : Retained E) : Prop := {
  rw_max : re_max s = max;
  rw_keys : dict_wf (re_entries s);
  rw_entries : ∀ k e, (k, e) ∈ re_entries s → k = entry_key e ∧ ok e;
  rw_bound : zlen (re_entries s) <= max
}.

(** The file holds the records [d]. *)
Definition stored (w : file) (d : list E) : Prop :=
  match w with
  | Absent => d = []
  | NotJson => False
  | Json j => ∃ s, ret_wf s ∧ j = re_state s ∧ re_all s = d
  end.

(** A dictionary whose keys are those of its records is determined by them. *)
Lemma entries_of_values s : ret_wf s → re_entries s = (λ e, (entry_key e, e)) <$> re_all s.
Proof.
  intros [_ _ He _]. unfold re_all, dict_values. rewrite <-list_fmap_compose.
  rewrite <-(list_fmap_id (re_entries s)) at 1. apply list_fmap_ext. intros i [k e] Hi.
  apply list_elem_of_lookup_2, He in Hi as [-> _]. done.
Qed.

Lemma evict_newest {A} (l : list A) : 0 <= max → evict_oldest max l = drop (length l - Z.to_nat max) l.
Proof.
  intros Hm. induction l as [|x l IH]; [done|]. cbn [evict_oldest].
  destruct (Z.ltb_spec max (zlen (x :: l))) as [Hlt|Hle].
  - rewrite IH. cbn [length] in *. replace (S (length l) - Z.to_nat max)%nat
      with (S (length l - Z.to_nat max)) by lia. done.
  - replace (length (x :: l) - Z.to_nat max)%nat with 0%nat by lia. done.
Qed.

Lemma newest_sublist (l : list E) : newest max l `sublist_of` l.
Proof. unfold newest. apply sublist_drop. Qed.

Lemma filter_values (P : E → Prop) `{∀ e, Decision (P e)} (d : dict string E) :
  (filter (λ kb : string * E, P kb.2) d).*2 = filter P d.*2.
Proof.
  unfold dict in *. induction d as [|[k e] d IH]; [done|]. rewrite filter_cons. cbn [snd].
  change ((k, e) :: d).*2 with (e :: d.*2). rewrite filter_cons. case_decide; csimpl; [by f_equal | done].
Qed.

(** Deleting a key is filtering the records. *)
Lemma del_filter (d : dict string E) k : dict_wf d → dict_del k d = filter (λ kb : string * E, kb.1 ≠ k) d.
Proof.
  unfold dict_wf, dict in *. induction d as [|[k1 e1] d IH]; intros Hwf; [done|].
  apply NoDup_cons in Hwf as [Hn Hwf]. rewrite filter_cons. cbn [fst dict_del].
  destruct (decide (k = k1)) as [->|Hne].
  - rewrite decide_False by tauto. symmetry. apply filter_all, Forall_forall.
    intros [k' e'] Hin Heq. simpl in Heq. subst k'. apply Hn. apply list_elem_of_fmap. by exists (k1, e').
  - rewrite decide_True by congruence. f_equal. by apply IH.
Qed.

Lemma del_values (d : dict string E) k :
  dict_wf d → (∀ k e, (k, e) ∈ d → k = entry_key e) → (dict_del k d).*2 = without k d.*2.
Proof.
  intros Hwf Hk. rewrite del_filter by done. unfold without. rewrite <-filter_values. f_equal.
  apply filter_ext_on. intros [k' e'] Hi. simpl. by rewrite (Hk _ _ Hi).
Qed.

Lemma del_all_filter (ks : list (string * E)) (d : dict string E) :
  dict_wf d →
  fold_left (λ d (kb : string * E), dict_del kb.1 d) ks d = filter (λ kb : string * E, kb.1 ∉ ks.*1) d.
Proof.
  unfold dict in *. revert d. induction ks as [|[k1 e1] ks IH]; intros d Hwf; simpl.
  - symmetry. apply filter_all, Forall_forall. intros kb _. apply not_elem_of_nil.
  - rewrite IH by auto with prsm. rewrite del_filter by done. unfold dict. rewrite list_filter_filter.
    apply list_filter_iff. intros kb. rewrite not_elem_of_cons. tauto.
Qed.

Definition keyed (d : dict string E) : Prop := ∀ k e, (k, e) ∈ d → k = entry_key e ∧ ok e.

Lemma put_newest_spec d e :
  dict_wf d → keyed d → ok e →
  dict_wf (put_newest d e) ∧ keyed (put_newest d e) ∧
  (put_newest d e).*2 = without (entry_key e) d.*2 ++ [e].
Proof.
  intros Hwf Hk He. unfold put_newest. split_and!.
  - auto with prsm.
  - intros k e' Hin. apply elem_dict_set in Hin as [[-> ->]|[_ Hin]]; [done | | auto with prsm].
    by apply elem_dict_del_1, Hk in Hin.
  - rewrite dict_set_del_last by done. rewrite fmap_app, del_values; [done | done |].
    intros k e' Hin. by apply Hk.
Qed.

Lemma put_all_spec recs d :
  dict_wf d → keyed d → Forall ok recs →
  dict_wf (fold_left put_newest recs d) ∧ keyed (fold_left put_newest recs d) ∧
  (fold_left put_newest recs d).*2 = fold_left (λ l e, without (entry_key e) l ++ [e]) recs d.*2.
Proof.
  intros Hwf Hk Hrecs. revert d Hwf Hk. induction Hrecs as [|e recs He _ IH]; intros d Hwf Hk; [done|].
  simpl. destruct (put_newest_spec d e Hwf Hk He) as (Hwf' & Hk' & <-). by apply IH.
Qed.

Lemma retain_wf s recs :
  0 < max → ret_wf s → Forall ok recs →
  let s' := with_entries (λ d, evict_oldest (re_max s) (fold_left put_newest recs d)) s in
  ret_wf s' ∧ re_all s' = newest max (fold_left (λ l e, without (entry_key e) l ++ [e]) recs (re_all s)).
Proof.
  intros Hm [Hmax Hwf Hk Hb] Hrecs s'. destruct (put_all_spec recs _ Hwf Hk Hrecs) as (Hwf' & Hk' & Hv).
  set (d' := fold_left put_newest recs (re_entries s)) in *.
  assert (re_entries s' = drop (length d' - Z.to_nat max) d') as Hd
    by (unfold s', with_entries; cbn [re_entries]; fold d'; rewrite Hmax; apply evict_newest; lia).
  assert (re_entries s' `sublist_of` d') as Hsub by (rewrite Hd; apply sublist_drop). split; [split|].
  - done.
  - unfold dict_wf, dict_keys. eapply sublist_NoDup; [exact Hwf'|]. by apply fmap_sublist.
  - intros k e Hin. apply Hk'. by apply (sublist_subseteq _ _ Hsub).
  - rewrite Hd, length_drop. lia.
  - unfold re_all, dict_values, dict in *. rewrite Hd, fmap_drop, Hv. unfold newest. f_equal.
    rewrite <-Hv, length_fmap. done.
Qed.

Lemma sub_wf s (f : dict string E → dict string E) :
  ret_wf s → f (re_entries s) `sublist_of` re_entries s → ret_wf (with_entries f s).
Proof.
  intros [Hmax Hwf Hk Hb] Hsub. split; [done | | |]; simpl.
  - unfold dict_wf, dict_keys. eapply sublist_NoDup; [exact Hwf|]. by apply fmap_sublist.
  - intros k e Hin. apply Hk. by apply (sublist_subseteq _ _ Hsub).
  - pose proof (sublist_length _ _ Hsub). lia.
Qed.

Lemma fold_del_sublist (ks : list (string * E)) (d : dict string E) :
  fold_left (λ d (kb : string * E), dict_del kb.1 d) ks d `sublist_of` d.
Proof.
  revert d. induction ks as [|kb ks IH]; intros d; simpl; [done|].
  etrans; [apply IH | apply dict_del_sublist].
Qed.

Lemma prune_values s now secs :
  ret_wf s →
  (fold_left (λ d (kb : string * E), dict_del kb.1 d)
     (filter (λ kb : string * E, entry_expired now secs kb.2 = true) (re_entries s)) (re_entries s)).*2 =
  filter (λ e, entry_expired now secs e = false) (re_all s).
Proof.
  intros [_ Hwf _ _]. unfold re_all, dict_values. rewrite del_all_filter, <-filter_values by done. f_equal.
  apply filter_ext_on. intros [k e] Hi. cbn [fst snd].
  rewrite list_elem_of_fmap. split.
  - intros Hn. apply not_true_is_false. intros Ht. apply Hn. exists (k, e). split; [done|].
    by apply list_elem_of_filter.
  - intros Hf ([k' e'] & -> & [Ht Hin]%list_elem_of_filter). cbn [fst snd] in *.
    apply elem_dict_get in Hi, Hin; try done. congruence.
Qed.

(** *** The simulation *)

Context {laws : RetentionLaws E ok}.

Lemma load_entries (l : list (string * E)) (acc : dict string E) :
  (∀ k e, (k, e) ∈ l → k = entry_key e ∧ ok e) → NoDup (acc ++ l).*1 →
  fold_left load_entry (prod_map id entry_to_dict <$> l) acc = acc ++ l.
Proof.
  revert acc. induction l as [|[k e] l IH]; intros acc Hl Hnd; [by rewrite app_nil_r|]. csimpl.
  destruct (Hl k e) as [-> Hok]; [by left|]. unfold load_entry at 2. simpl.
  rewrite (entry_roundtrip e Hok), (entry_reloaded e Hok). rewrite dict_set_fresh.
  - rewrite IH; [by rewrite <-app_assoc | intros; apply Hl; by right | by rewrite <-app_assoc].
  - rewrite fmap_app in Hnd. apply NoDup_app in Hnd as (_ & Hdis & _). intros Hin. apply (Hdis _ Hin). by left.
Qed.

(** A restart finds what was written. *)
Lemma load_state s : ret_wf s → re_load max (Json (re_state s)) = s.
Proof.
  intros [Hm Hwf Hk Hb]. unfold re_load, re_state. cbn [store_load dict_get].
  rewrite decide_False by apply entries_field_ne. rewrite decide_True by done.
  rewrite load_entries; [by rewrite <-Hm; destruct s | done | done].
Qed.

Lemma load_stored w d : 0 < max → stored w d → ret_wf (re_load max w) ∧ re_all (re_load max w) = d.
Proof.
  intros Hm. destruct w as [| |j]; simpl; [|done|].
  - intros ->. split; [|done]. split; simpl; [done | constructor | | lia].
    intros k e Hin. by apply not_elem_of_nil in Hin.
  - intros (s & Hs & -> & <-). by rewrite load_state.
Qed.

Definition abs_reachable (a : abstract_store E) : Prop :=
  rtc (abs_step max) {| live := []; durable := [] |} a.

Definition file_inv (w : file) : Prop := ∃ a, abs_reachable a ∧ stored w (durable a).

Definition sim (s : Retained E) (w : file) : Prop :=
  ∃ a, abs_reachable a ∧ ret_wf s ∧ re_all s = live a ∧ stored w (durable a).

Lemma sim_file s w : sim s w → file_inv w.
Proof. intros (a & Ha & _ & _ & Hw). by exists a. Qed.

(** A change of the records by an abstract call, not yet written. *)
Lemma sim_call c s s' w :
  sim s w → ret_wf s' → abs_call max c (re_all s) (re_all s') → sim s' w.
Proof.
  intros ([l d] & Ha & _ & Hl & Hd) Hs' Hc. simpl in *. subst l.
  exists {| live := re_all s'; durable := d |}. split_and!; [|done|done|done].
  eapply rtc_r; [exact Ha|]. econstructor; [exact Hc | by left].
Qed.

(** Writing brings the durable copy up to date, or leaves it. *)
Lemma persist_sim c s0 s w (Q : result unit → Retained E → file → Prop) :
  sim s0 w → ret_wf s → abs_call max c (re_all s0) (re_all s) →
  (∀ w', sim s w' → Q (Ok tt) s w') →
  wpm (E := retention) retention_exec file_inv re_persist Q s w.
Proof.
  intros Hsim Hs Hc HQ. pose proof (sim_file _ _ Hsim) as Hi. unfold re_persist.
  apply wpm_bind, wpm_get; [done|]. apply wpm_bind.
  apply (wpm_perform (E := retention) retention_exec file_inv (SaveFile (re_state s))); [done|].
  intros r w' Hr. assert (sim s w') as Hsim'.
  { destruct Hr as [[_ ->]|(x & _ & ->)]; [|by eapply sim_call].
    destruct Hsim as ([l d] & Ha & _ & Hl & _). simpl in *. subst l.
    exists {| live := re_all s; durable := re_all s |}. split_and!; [|done|done| by exists s].
    eapply rtc_r; [exact Ha|]. econstructor; [exact Hc | by right]. }
  split; [by eapply sim_file|]. apply wpm_ret; [by eapply sim_file | auto].
Qed.

Lemma retain_stamped_sim build s w (Q : result (list E) → Retained E → file → Prop) :
  0 < max → sim s w → retention_call_ok (RetainCall build) →
  (∀ t, match build t with
        | Ok recs => ∀ s' w', sim s' w' →
            re_all s' = newest max (fold_left (λ l e, without (entry_key e) l ++ [e]) recs (re_all s)) →
            Q (Ok recs) s' w'
        | Err e => Q (Err e) s w
        end) →
  wpm (E := retention) retention_exec file_inv (retain_stamped build) Q s w.
Proof.
  intros Hm Hsim Hok HQ. pose proof (sim_file _ _ Hsim) as Hi. unfold retain_stamped.
  apply wpm_bind. apply (wpm_perform (E := retention) retention_exec file_inv Clock); [done|].
  intros now w' ->. split; [done|]. apply wpm_bind, wpm_lift; [done|]. specialize (HQ (trunc now)).
  destruct (build (trunc now)) as [recs|e] eqn:Hb; [|done].
  assert (ret_wf s) as Hs by (by destruct Hsim as (? & _ & ? & _)).
  destruct (retain_wf s recs Hm Hs (Hok _ _ Hb)) as [Hs' Hall].
  unfold retain_all. apply wpm_bind, wpm_bind, wpm_modify; [done|].
  apply (persist_sim (RetainCall build) s); [done | done | |].
  - rewrite Hall. by econstructor.
  - intros w' Hsim'. apply wpm_ret; [by eapply sim_file|]. by apply HQ.
Qed.

Lemma discard_sim key s w (Q : result bool → Retained E → file → Prop) :
  sim s w →
  (∀ b s' w', sim s' w' → re_all s' = without key (re_all s) → Q (Ok b) s' w') →
  wpm (E := retention) retention_exec file_inv (re_discard key) Q s w.
Proof.
  intros Hsim HQ. pose proof (sim_file _ _ Hsim) as Hi.
  assert (ret_wf s) as Hs by (by destruct Hsim as (? & _ & ? & _)).
  unfold re_discard. apply wpm_bind, wpm_get; [done|].
  destruct (dict_mem key (re_entries s)) eqn:Hk; simpl.
  - apply wpm_bind, wpm_modify; [done|].
    assert (re_all (with_entries (dict_del key) s) = without key (re_all s)) as Hall.
    { unfold re_all, dict_values. simpl. apply del_values; [apply Hs|]. intros k e Hin. by apply (rw_entries _ Hs). }
    apply wpm_bind, (persist_sim (DiscardCall key) s); [done | | |].
    + apply sub_wf; [done | apply dict_del_sublist].
    + rewrite Hall. constructor.
    + intros w' Hsim'. apply wpm_ret; [by eapply sim_file|]. by apply HQ.
  - apply wpm_ret; [done|]. apply HQ; [done|]. unfold without. symmetry. apply filter_all, Forall_forall.
    intros e ([k' e'] & -> & Hin)%list_elem_of_fmap. simpl. intros <-.
    apply dict_mem_false in Hk. destruct (rw_entries _ Hs _ _ Hin) as [-> _].
    by rewrite (elem_dict_get _ _ _ (rw_keys _ Hs) Hin) in Hk.
Qed.

Lemma prune_sim secs s w (Q : result Z → Retained E → file → Prop) :
  sim s w →
  (∀ now s' w' n, sim s' w' → re_all s' = filter (λ e, entry_expired now secs e = false) (re_all s) → Q (Ok n) s' w') →
  wpm (E := retention) retention_exec file_inv (re_prune secs) Q s w.
Proof.
  intros Hsim HQ. pose proof (sim_file _ _ Hsim) as Hi.
  assert (ret_wf s) as Hs by (by destruct Hsim as (? & _ & ? & _)).
  unfold re_prune. apply wpm_bind. apply (wpm_perform (E := retention) retention_exec file_inv Clock); [done|].
  intros now w' ->. split; [done|]. apply wpm_bind, wpm_get; [done|].
  apply wpm_bind, wpm_modify; [done|].
  set (s' := with_entries _ s). assert (re_all s' = filter (λ e, entry_expired now secs e = false) (re_all s)) as Hall
    by by apply prune_values.
  assert (ret_wf s') as Hs' by (apply sub_wf; [done | apply fold_del_sublist]).
  assert (abs_call max (PruneCall secs) (re_all s) (re_all s')) as Hc by (rewrite Hall; constructor).
  apply wpm_bind. case_bool_decide.
  - apply wpm_ret; [done|]. apply wpm_ret; [done|]. eapply HQ; [by eapply sim_call | done].
  - apply (persist_sim (PruneCall secs) s); [done..|]. intros w' Hsim'.
    apply wpm_ret; [by eapply sim_file|]. by eapply HQ.
Qed.

Lemma call_body_sim c s w :
  0 < max → sim s w → retention_call_ok c →
  wpm (E := retention) retention_exec file_inv (call_body c) (λ _ s' w', sim s' w') s w.
Proof.
  intros Hm Hsim Hok. destruct c as [build|key|secs]; simpl; apply wpm_bind.
  - apply retain_stamped_sim; [done..|]. intros t. destruct (build t); [|done].
    intros s' w' Hs' _. apply wpm_ret; [by eapply sim_file | done].
  - apply discard_sim; [done|]. intros b s' w' Hs' _. apply wpm_ret; [by eapply sim_file | done].
  - apply prune_sim; [done|]. intros now s' w' n Hs' _. apply wpm_ret; [by eapply sim_file | done].
Qed.

Lemma boot_sim w : 0 < max → file_inv w → sim (re_load max w) w.
Proof.
  intros Hm ([l d] & Ha & Hw). destruct (load_stored w d Hm Hw) as [Hs Hall].
  exists {| live := d; durable := d |}. split_and!; [|done|done|done].
  eapply rtc_r; [exact Ha | constructor].
Qed.
End Refinement.

(** ** Claims *)

