(* ===== verification/PerStageReceiver.v ===== *)
(** * The receiver store of routed tasks

    Models prsm/settlement/per_stage_receiver_store.py up to its commit driver: the
    staged record and its JSON form, the store (an instance of Retention.v), the
    ingest that stages a routed task only when its gate authorizes it, and the
    parser of delivery requests. *)
From Stdlib Require Import ZArith Lia QArith.
From S2P Require Import PyStd.
From S2P Require Import Externals.
From S2P Require Import Receipt.
From S2P Require Import Attestation.
From S2P Require Import Merkle.
From S2P Require Import Published.
From S2P Require Import Effects.
From S2P Require Import Payment.
From S2P Require Import PerStageSplit.
From S2P Require Import PerStageAuth.
From S2P Require Import Retention.
From S2P Require Import Prelude.

#[local] Open Scope string_scope.
#[local] Open Scope list_scope.
#[local] Open Scope Z_scope.

Record StagedSettlementTask : Type := {
  st_task : PerStageSettlementTask;
  st_payees : payee_set;
  st_staged_at : Z
}.

Definition staged_escrow_id (t : StagedSettlementTask) : string :=
  local_escrow_id (task_batched_receipt (st_task t)).

Definition StagedSettlementTask_to_dict (t : StagedSettlementTask) : json :=
  JObj [("task", PerStageSettlementTask_to_dict (st_task t));
        ("payees", JArr ((λ p : string * Z, JArr [JStr p.1; JStr (str_of_int p.2)]) <$> st_payees t));
        ("staged_at", JInt (st_staged_at t))].

(** Iterating a JSON value: the keys of an object, the characters of a text. *)
Definition py_iter (j : json) : result (list json) :=
  match j with
  | JArr l => Ok l
  | JObj o => Ok (JStr <$> dict_keys o)
  | JStr s => Ok ((λ c, JStr (String c EmptyString)) <$> list_ascii_of_string s)
  | _ => Err TypeError
  end.

Section Receiver.
Context (str_of_container : json → string).   (* [str()] of a list or a dict *)

(** [(str(p), int(s))] for an item that unpacks to two values. *)
Definition payee_of_json (item : json) : result (string * Z) :=
  l ← py_iter item;
  match l with
  | [p; s] => v ← int_of_json s; Ok (format_json str_of_container p, v)
  | _ => Err ValueError
  end.

Definition StagedSettlementTask_from_dict (d : json) : result StagedSettlementTask :=
  t ← jget "task" d ≫= PerStageSettlementTask_from_dict str_of_container;
  raw ← jget "payees" d ≫= py_iter;
  ps ← result_mapM payee_of_json raw;
  a ← jget "staged_at" d ≫= int_of_json;
  Ok {| st_task := t; st_payees := ps; st_staged_at := a |}.

(** ** PerStageReceiverStore *)

#[local] Instance staged_entry : RetentionEntry StagedSettlementTask := {|
  entry_key := staged_escrow_id;
  entry_stamp := st_staged_at;
  entry_to_dict := StagedSettlementTask_to_dict;
  entry_from_dict := StagedSettlementTask_from_dict;
  entry_loads := λ t, str_nonempty (staged_escrow_id t);
  entries_field := "staged"
|}.

Definition PerStageReceiverStore : Type := Retained StagedSettlementTask.

(** The record of [stage], at clock [t]. *)
Definition stage_record (task : PerStageSettlementTask) (payees : payee_set) (t : Z)
  : result (list StagedSettlementTask) :=
  let rec := {| st_task := task; st_payees := payees; st_staged_at := t |} in
  if negb (str_nonempty (staged_escrow_id rec)) then Err ValueError else Ok [rec].

Definition stage (task : PerStageSettlementTask) (payees : payee_set)
  : store_method StagedSettlementTask (list StagedSettlementTask) :=
  retain_stamped (stage_record task payees).

(** ** Ingest *)

Inductive IngestReason : Type :=
| Misrouted | GateRefused (why : Refusal) | StageFailed (e : exn) | AuthorizedStaged.

Record TaskIngestResult : Type := {
  ti_accepted : bool;
  ti_reason : IngestReason;
  ti_local_escrow_id : option string
}.

Definition rejected (why : IngestReason) : TaskIngestResult :=
  {| ti_accepted := false; ti_reason := why; ti_local_escrow_id := None |}.

Context `{Externals, AbiArrays, Eip712}.

(** [now_unix], or the clock. *)
Definition now_or_clock (now_unix : option Q) : store_method StagedSettlementTask Q :=
  match now_unix with Some q => mret q | None => perform (E := retention) Clock end.

Definition ingest_routed_task (task : PerStageSettlementTask) (payees : payee_set)
    (my_node_id : option string) (chain_id : Z) (now_unix : option Q)
  : store_method StagedSettlementTask TaskIngestResult :=
  if match my_node_id with Some me => negb (task_node_id task =? me)%string | None => false end
  then mret (rejected Misrouted)
  else
    now ← now_or_clock now_unix;
    verdict ← lift (verify_routed_settlement_task task payees chain_id now);
    match verdict with
    | Refused why => mret (rejected (GateRefused why))
    | Authorized =>
        r ← try (stage task payees);
        match r with
        | Err e => mret (rejected (StageFailed e))
        | Ok recs => mret {| ti_accepted := true; ti_reason := AuthorizedStaged;
                             ti_local_escrow_id := head (staged_escrow_id <$> recs) |}
        end
    end.

(** [parse_delivery_request] *)
Definition delivered_payee (item : json) : result (string * Z) :=
  match item with
  | JArr [p; s] => v ← rethrow (λ e, is_value_error e || bool_decide (e = TypeError)) ValueError (int_of_json s);
                   Ok (format_json str_of_container p, v)
  | _ => Err ValueError
  end.

Definition parse_delivery_request (body : json) : result (PerStageSettlementTask * payee_set) :=
  match body with
  | JObj o =>
      match get_or_null "task" o, get_or_null "payees" o with
      | JObj task_raw, JArr payees_raw =>
          task ← rethrow (λ _, true) ValueError (PerStageSettlementTask_from_dict str_of_container (JObj task_raw));
          payees ← result_mapM delivered_payee payees_raw;
          Ok (task, payees)
      | _, _ => Err ValueError
      end
  | _ => Err ValueError
  end.
End Receiver.

(** ** The store's records are written and read back unchanged *)

(** A task as the code builds one: its receipt was constructed, and its
    authorization, if any, is not the JSON [null]. *)
Definition task_ok (t : PerStageSettlementTask) : Prop :=
  batched_ok (task_batched_receipt t) ∧ task_authorization t ≠ Some JNull.

Definition staged_ok (t : StagedSettlementTask) : Prop :=
  task_ok (st_task t) ∧ str_nonempty (staged_escrow_id t) = true.

Section Laws.
Context (str_of_container : json → string).

Lemma task_roundtrip t :
  task_ok t → PerStageSettlementTask_from_dict str_of_container (PerStageSettlementTask_to_dict t) = Ok t.
Proof.
  intros [Hb Ha]. unfold PerStageSettlementTask_from_dict, PerStageSettlementTask_to_dict. simpl.
  rewrite int_of_str_of_int. simpl. rewrite batched_receipt_dict_roundtrip by done. simpl.
  destruct t as [? ? ? [a|]]; [|done]. simpl in *. by destruct a.
Qed.

Lemma staged_roundtrip t :
  staged_ok t → StagedSettlementTask_from_dict str_of_container (StagedSettlementTask_to_dict t) = Ok t.
Proof.
  intros [Ht _]. unfold StagedSettlementTask_from_dict, StagedSettlementTask_to_dict. simpl.
  rewrite task_roundtrip by done. simpl.
  assert (result_mapM (payee_of_json str_of_container)
            ((λ p : string * Z, JArr [JStr p.1; JStr (str_of_int p.2)]) <$> st_payees t) = Ok (st_payees t)) as ->.
  { apply result_mapM_Forall2, Forall2_fmap_l, Forall_Forall2_diag, Forall_forall.
    intros [p v] _. unfold payee_of_json. simpl. by rewrite int_of_str_of_int. }
  simpl. by destruct t.
Qed.

#[export] Instance staged_laws :
  @RetentionLaws StagedSettlementTask (staged_entry str_of_container) staged_ok.
Proof. split; [apply staged_roundtrip | by intros t [_ Ht] | done]. Qed.

Lemma stage_call_ok task payees :
  task_ok task →
  @retention_call_ok StagedSettlementTask staged_ok (RetainCall (stage_record task payees)).
Proof.
  intros Ht t recs. unfold stage_record. destruct (str_nonempty _) eqn:Hs; simpl; [|done].
  intros Heq. injection Heq as <-. apply Forall_singleton. by split.
Qed.
End Laws.

(** ** What an ingest does *)

(** The clock reading [now] stands for the argument [now_unix]. *)
Definition reads (now_unix : option Q) (now : Q) : Prop :=
  match now_unix with Some q => now = q | None => True end.

Definition addressed_to (task : PerStageSettlementTask) (my_node_id : option string) : bool :=
  match my_node_id with Some me => (task_node_id task =? me)%string | None => true end.

Section Ingest.
Context `{Externals, AbiArrays, Eip712} (str_of_container : json → string) (max : Z).
#[local] Instance ingest_entry : RetentionEntry StagedSettlementTask := staged_entry str_of_container.
Context (ok : StagedSettlementTask → Prop) {laws : RetentionLaws StagedSettlementTask ok}.

(** What an ingest at gate time [now] does to the store [s] and its file [w]. *)
Definition ingested (task : PerStageSettlementTask) (payees : payee_set) (my_node_id : option string)
    (chain_id : Z) (now : Q) (s : PerStageReceiverStore) (w : file) (r : result TaskIngestResult)
    (s' : PerStageReceiverStore) (w' : file) : Prop :=
  let gate := verify_routed_settlement_task task payees chain_id now in
  let key := local_escrow_id (task_batched_receipt task) in
  match r with
  | Ok res =>
      (ti_accepted res = true ↔
         addressed_to task my_node_id = true ∧ gate = Ok Authorized ∧ str_nonempty key = true) ∧
      if ti_accepted res
      then ∃ t, ti_local_escrow_id res = Some key ∧ sim ok max s' w' ∧
                re_all s' = newest max (without key (re_all s) ++
                              [{| st_task := task; st_payees := payees; st_staged_at := t |}])
      else s' = s ∧ w' = w
  | Err e => s' = s ∧ w' = w ∧ gate = Err e
  end.

Lemma gate_and_stage task payees my_node_id chain_id now s w :
  0 < max → addressed_to task my_node_id = true → sim ok max s w →
  (verify_routed_settlement_task task payees chain_id now = Ok Authorized →
     retention_call_ok ok (RetainCall (stage_record task payees))) →
  wpm (E := retention) retention_exec (file_inv ok max)
    (verdict ← lift (verify_routed_settlement_task task payees chain_id now);
     match verdict with
     | Refused why => mret (rejected (GateRefused why))
     | Authorized =>
         r ← try (stage str_of_container task payees);
         match r with
         | Err e => mret (rejected (StageFailed e))
         | Ok recs => mret {| ti_accepted := true; ti_reason := AuthorizedStaged;
                              ti_local_escrow_id := head (staged_escrow_id <$> recs) |}
         end
     end) (ingested task payees my_node_id chain_id now s w) s w.
Proof.
  intros Hm Haddr Hsim Hok. pose proof (sim_file _ _ _ _ Hsim) as Hi. unfold ingested.
  apply wpm_bind, wpm_lift; [done|].
  destruct (verify_routed_settlement_task task payees chain_id now) as [[|why]|e] eqn:Hv.
  2: { apply wpm_ret; [done|]. simpl. naive_solver. }
  2: done.
  apply wpm_bind, wpm_try. unfold stage. apply (retain_stamped_sim ok max); [done | done | by apply Hok |].
  intros t. unfold stage_record. unfold staged_escrow_id at 1. simpl.
  destruct (str_nonempty (local_escrow_id (task_batched_receipt task))) eqn:Hkey; simpl.
  - intros s' w' Hs' Hall. apply wpm_ret; [by eapply sim_file|]. simpl. split; [naive_solver|]. by exists t.
  - apply wpm_ret; [done|]. simpl. naive_solver.
Qed.

Lemma ingest_sim task payees my_node_id chain_id now_unix s w :
  0 < max → sim ok max s w →
  (∀ now, verify_routed_settlement_task task payees chain_id now = Ok Authorized →
     retention_call_ok ok (RetainCall (stage_record task payees))) →
  wpm (E := retention) retention_exec (file_inv ok max)
    (ingest_routed_task str_of_container task payees my_node_id chain_id now_unix)
    (λ r s' w', ∃ now, reads now_unix now ∧ ingested task payees my_node_id chain_id now s w r s' w') s w.
Proof.
  intros Hm Hsim Hok. pose proof (sim_file _ _ _ _ Hsim) as Hi. unfold ingest_routed_task.
  assert (match my_node_id with Some me => negb (task_node_id task =? me)%string | None => false end =
          negb (addressed_to task my_node_id)) as -> by by destruct my_node_id.
  destruct (addressed_to task my_node_id) eqn:Haddr; simpl.
  2: { apply wpm_ret; [done|]. exists (default 0%Q now_unix). split; [by destruct now_unix|].
       unfold ingested. rewrite Haddr. simpl. naive_solver. }
  unfold now_or_clock. apply wpm_bind. destruct now_unix as [q|].
  - apply wpm_ret; [done|]. eapply wpm_mono; [apply gate_and_stage; eauto|]. intros r s' w' _ Hp. by exists q.
  - apply (wpm_perform (E := retention) retention_exec _ Clock); [done|]. intros now w' ->.
    split; [done|]. eapply wpm_mono; [apply gate_and_stage; eauto|]. intros r s' w' _ Hp. by exists now.
Qed.
End Ingest.

(** A routed task is staged exactly when its gate authorizes it.  An ingest
    accepts when and only when the task is addressed to this node, carries an
    idempotency key and the gate authorizes its payee and share against the payee
    set delivered with it; then the store holds it once, as the newest record,
    with the payee set it was checked against.  Otherwise, also when the gate
    raises, neither the store nor its file has changed. *)
Theorem ingest_exact `{Externals, AbiArrays, Eip712} str_of_container (max : Z) task payees my_node_id chain_id
    now_unix s w :
  0 < max → task_ok task → @sim _ (ingest_entry str_of_container) staged_ok max s w →
  wpm (E := retention) retention_exec (@file_inv _ (ingest_entry str_of_container) staged_ok max)
    (ingest_routed_task str_of_container task payees my_node_id chain_id now_unix)
    (λ r s' w', ∃ now, reads now_unix now ∧
       ingested str_of_container max staged_ok task payees my_node_id chain_id now s w r s' w') s w.
Proof. intros Hm Ht Hsim. apply ingest_sim; [done | done |]. intros now _. by apply stage_call_ok. Qed.
