(* ===== verification/ClientOwned.v ===== *)
(** * BatchSettlementClient: which receipts it owns

    A receipt handed to the client is owned until it is settled: its escrow id is
    queued or in the ledger, and no method of the commit path loses it, whatever
    the contract answers and whichever write fails. *)
From Stdlib Require Import ZArith Lia.
From S2P Require Import PyStd.
From S2P Require Import Externals.
From S2P Require Import Receipt.
From S2P Require Import Attestation.
From S2P Require Import Merkle.
From S2P Require Import Accumulator.
From S2P Require Import Published.
From S2P Require Import Effects.
From S2P Require Import Client.
From S2P Require Import ClientDurable.
From S2P Require Import ClientSafety.
From S2P Require Import Prelude.

#[local] Open Scope string_scope.
#[local] Open Scope list_scope.
#[local] Open Scope Z_scope.

Section Owned.
Context `{Deployment}.

(** [e] is queued, or in the ledger of committed ids. *)
Definition owned (e : string) (c : Client) : Prop :=
  e ∈ c_committed_escrow_ids c ∨
  ∃ k b, (k, b) ∈ acc_pending (c_accumulator c) ∧ e ∈ escrow_ids (batch_receipts b).

(** Nothing owned is lost. *)
Definition grows (c c' : Client) : Prop := ∀ e, owned e c → owned e c'.

Lemma grows_refl c : grows c c.
Proof. by intros e. Qed.

Abbreviation wpt := (wpm (E := settle) exec (λ _, True)).

Lemma persist_same c w (Q : result unit → Client → World → Prop) :
  (∀ r w', Q r c w') → wpt persist Q c w.
Proof.
  intros HQ. unfold persist. apply wpm_bind, wpm_get; [done|]. destruct (c_has_store c).
  - apply wpm_bind, (wpm_perform (E := settle) exec _ (Save (serialize_state c))); [done|].
    intros r w' _. split; [done|]. by apply wpm_lift.
  - by apply wpm_ret.
Qed.

Lemma commit_one_same r ls root c w (Q : result CommittedBatch → Client → World → Prop) :
  (∀ res w', Q res c w') → wpt (commit_one r ls root) Q c w.
Proof.
  intros HQ. unfold commit_one. apply wpm_bind, wpm_get; [done|]. apply wpm_check; [done| |auto].
  intros _ _. apply wpm_check; [done| |auto]. intros att _. apply wpm_bind.
  apply (wpm_perform (E := settle) exec _ (CommitBatch (commit_call r ls root att) (batch_receipts (ready_batch r))));
    [done|].
  intros res w' _. split; [done|]. apply wpm_check; [done| |auto]. intros [b t] _. by apply wpm_ret.
Qed.

(** The client after the batch under [k] was removed, its ids being in the ledger. *)
Lemma owned_pop c k c' :
  acc_wf (c_accumulator c) →
  acc_pending (c_accumulator c') = dict_del k (acc_pending (c_accumulator c)) →
  (∀ b, dict_get k (acc_pending (c_accumulator c)) = Some b →
     ∀ x, x ∈ escrow_ids (batch_receipts b) → x ∈ c_committed_escrow_ids c') →
  (∀ x, x ∈ c_committed_escrow_ids c → x ∈ c_committed_escrow_ids c') →
  grows c c'.
Proof.
  intros Ha Hp Hk Hl e [He|(k' & b & Hin & He)]; [left; auto|].
  destruct (decide (k' = k)) as [->|Hne].
  - left. eapply Hk; [|exact He]. apply elem_dict_get; [apply (awf_keys _ Ha) | done].
  - right. exists k', b. split; [|done]. rewrite Hp. apply elem_dict_del; [apply (awf_keys _ Ha) | done].
Qed.

Lemma commit_iteration_owned r c w :
  client_wf c → dict_get (ready_key r) (acc_pending (c_accumulator c)) = Some (ready_batch r) →
  wpt (commit_iteration r) (λ _ c' _, grows c c') c w.
Proof.
  intros Hw Hget. unfold commit_iteration. set (rs := batch_receipts (ready_batch r)).
  pose proof (cw_acc _ Hw) as Ha. apply dict_get_elem in Hget as Hin.
  pose proof (cw_known _ Hw _ _ Hin) as Hk. fold rs in Hk.
  destruct (record_all_spec rs (c_committed_escrow_ids c)) as (Hnd1 & Hl1 & Hids1);
    [apply Hw | apply Hw | done |].
  destruct (record_all_spec rs (record_all rs (c_committed_escrow_ids c))) as (_ & Hl2 & _); [done..|].
  destruct (discard_all_spec rs (record_all rs (c_committed_escrow_ids c))) as (_ & Hl3); [done..|].
  apply wpm_check; [done| |by intros ? _ ? ?]. intros [ls root] _.
  apply wpm_bind, wpm_modify; [done|]. apply wpm_bind, wpm_modify; [done|].
  assert (grows c (armed r ls root c)) as Harmed.
  { intros e [He|He]; [|by right]. left. simpl. apply Hl1. by right. }
  assert (∀ c', acc_pending (c_accumulator c') = dict_del (ready_key r) (acc_pending (c_accumulator c)) →
            (∀ x, x ∈ c_committed_escrow_ids c' ↔ x ∈ escrow_ids rs ∨ x ∈ c_committed_escrow_ids c) →
            grows c c') as Hpop.
  { intros c' Hp Hl. eapply (owned_pop c (ready_key r) c'); [done | exact Hp | |].
    - intros b Hb x Hx. rewrite Hget in Hb. injection Hb as <-. apply Hl. by left.
    - intros x Hx. apply Hl. by right. }
  apply wpm_bind, persist_same. intros [[]|x] w1; [|exact Harmed].
  apply wpm_bind, wpm_try, commit_one_same. intros [rec|exc] w2.
  - apply wpm_bind. unfold promote. do 4 (apply wpm_bind, wpm_modify; [done|]).
    match goal with |- wpm _ _ _ _ ?c4 _ => assert (grows c c4) as H4 end.
    { apply Hpop; [done|]. intros x. simpl. fold rs. rewrite Hl2, Hl1. tauto. }
    apply wpm_bind, persist_same. intros [[]|x] w3; [|exact H4].
    apply wpm_bind, wpm_get; [done|]. destruct (c_published _) as [ps|]; [|by apply wpm_ret; [|apply wpm_ret]].
    apply wpm_bind, wpm_modify; [done|]. apply wpm_bind.
    apply (wpm_perform (E := settle) exec _ (SavePublished _)); [done|]. intros res w4 _.
    split; [done|]. by apply wpm_ret; [|apply wpm_ret].
  - destruct (exn_tx_hash exc) as [tx|].
    + apply wpm_bind, wpm_modify; [done|]. apply wpm_bind. unfold quarantine_pending.
      do 2 (apply wpm_bind, wpm_modify; [done|]). apply persist_same.
      match goal with |- ∀ r0 w', match r0 with Ok _ => wpm _ _ _ _ ?c4 _ | _ => _ end => assert (grows c c4) as H4 end.
      { apply Hpop; [done|]. intros x. simpl. fold rs. apply Hl1. }
      intros [[]|x] w3; [by apply wpm_ret | exact H4].
    + case_bool_decide.
      * apply wpm_bind, wpm_modify; [done|]. apply wpm_bind, persist_same.
        match goal with |- ∀ r0 w', match r0 with Ok _ => wpm _ _ _ _ ?c4 _ | _ => _ end => assert (grows c c4) as H4 end.
        { apply Hpop; [done|]. intros x. simpl. fold rs. apply Hl1. }
        intros [[]|x] w3; [by apply wpm_ret | exact H4].
      * do 2 (apply wpm_bind, wpm_modify; [done|]). apply wpm_bind, persist_same.
        match goal with |- ∀ r0 w', match r0 with Ok _ => wpm _ _ _ _ ?c4 _ | _ => _ end => assert (grows c c4) as H4 end.
        { intros e [He|He]; [|by right]. destruct (decide (e ∈ escrow_ids rs)) as [Hrs|Hrs].
          - right. exists (ready_key r), (ready_batch r). by split.
          - left. simpl. fold rs. apply Hl3. split; [done|]. apply Hl1. by right. }
        intros [[]|x] w3; [by apply wpm_ret | exact H4].
Qed.

(** *** The methods *)

(** Both specifications of a method together. *)
Lemma wpm_both {A} (m : method A) (P Q : result A → Client → World → Prop) c w :
  wpm (E := settle) exec disk_inv m P c w → wpt m Q c w →
  wpm (E := settle) exec disk_inv m (λ r c' w', P r c' w' ∧ Q r c' w') c w.
Proof.
  intros Hp Hq. unfold wpm. eapply (wp_weaken (E := settle) exec (λ w, disk_inv w ∧ True)); [by intros w1 []|].
  by apply (wp_and (E := settle) exec disk_inv (λ _, True)).
Qed.

(** An accumulated receipt is owned, and nothing is lost. *)
Lemma accumulate_owned br c w :
  known br → disk_inv w → mem_inv c (w_sent w) →
  wpm (E := settle) exec disk_inv (accumulate br)
    (λ r c' w', inv_post r c' w' ∧ grows c c' ∧ (r = Ok tt → owned (local_escrow_id br) c')) c w.
Proof.
  intros Hbr Hd Hi. apply wpm_both; [by apply accumulate_keeps|]. unfold accumulate.
  apply wpm_bind, wpm_get; [done|].
  destruct (bool_decide _); [apply wpm_raise; [done | split; [apply grows_refl | done]]|].
  destruct (known_id br Hbr) as (Hne & _).
  destruct (ledger_has _ _) eqn:Hled.
  { apply wpm_ret; [done|]. split; [apply grows_refl|]. intros _. left. unfold ledger_has in Hled.
    by apply andb_true_iff in Hled as [_ Hled%bool_decide_eq_true]. }
  apply wpm_bind, (wpm_perform (E := settle) exec _ Now); [done|]. intros now w' _. split; [done|].
  pose proof (ci_wf _ _ _ Hi) as Hw. pose proof (cw_acc _ Hw) as Ha.
  destruct (acc_add_spec (c_accumulator c) br now Ha) as (b' & Hadd & Hb' & Hr & _).
  rewrite Hadd. set (a := set_pending _ _).
  apply wpm_bind, wpm_modify; [done|]. apply wpm_bind, wpm_lift; [done|]. apply persist_same.
  intros r w1. split.
  - intros e [He|(k & b & Hin & He)]; [by left|]. right.
    destruct (decide (k = receipt_key br)) as [->|Hk].
    + exists (receipt_key br), b'. split; [apply elem_dict_set; [apply (awf_keys _ Ha) | by left]|].
      apply elem_escrow_ids in He as (Hen & br' & Hbr' & <-). apply elem_escrow_ids. split; [done|].
      exists br'. split; [|done]. rewrite Hr. apply elem_of_app. left.
      by rewrite (elem_dict_get _ _ _ (awf_keys _ Ha) Hin).
    + exists k, b. split; [|done]. apply elem_dict_set; [apply (awf_keys _ Ha) | by right].
  - intros _. right. exists (receipt_key br), b'.
    split; [apply elem_dict_set; [apply (awf_keys _ Ha) | by left]|].
    destruct (batch_dup (default PendingBatch_empty (dict_get (receipt_key br) (acc_pending (c_accumulator c)))) br)
      eqn:Hdup.
    + rewrite app_nil_r in Hr. unfold batch_dup in Hdup. rewrite Hne in Hdup. simpl in Hdup.
      apply bool_decide_eq_true in Hdup.
      rewrite Hr. destruct (acc_wf_slot _ (receipt_key br) Ha) as [Hs|Hs].
      * rewrite Hs in Hdup. set_solver.
      * rewrite (bwf_seen _ _ Hs) in Hdup. by apply elem_of_list_to_set in Hdup.
    + apply elem_escrow_ids. split; [done|]. exists br. split; [|done]. rewrite Hr. apply elem_of_app. right. by left.
Qed.

Lemma commit_ready_batches_owned force c0 w0 :
  disk_inv w0 → mem_inv c0 (w_sent w0) →
  wpm (E := settle) exec disk_inv (commit_ready_batches force)
    (λ r c' w', inv_post r c' w' ∧ grows c0 c') c0 w0.
Proof.
  intros Hd0 Hi0. unfold commit_ready_batches. apply wpm_bind.
  eapply (wpm_mono (E := settle) exec _ _ (λ r c w, ∃ now, r = Ok now ∧ c = c0 ∧ w = w0)).
  { destruct force; [by apply wpm_ret; eauto|].
    apply (wpm_perform (E := settle) exec _ Now); [done|]. intros r w' ->. eauto. }
  intros r c w Hd (now & -> & -> & ->). apply wpm_bind, wpm_get; [done|].
  apply (wpm_for_collect (E := settle) exec disk_inv _ _
    (λ l (_ : list CommittedBatch) c w, disk_inv w ∧ mem_inv c (w_sent w) ∧ NoDup (ready_key <$> l) ∧
       Forall (λ r, dict_get (ready_key r) (acc_pending (c_accumulator c)) = Some (ready_batch r)) l ∧ grows c0 c)
    _ _ _ []).
  - by intros ? (? & ? & ? & ? & _).
  - split_and!; [done | done | apply ready_keys_NoDup, Hi0 | apply ready_batches_queued, Hi0 | apply grows_refl].
  - intros r l ys c1 w1 (Hd1 & Hi1 & Hnd & Hall & Hg). apply Forall_cons in Hall as [Hr Hall].
    apply NoDup_cons in Hnd as [Hn Hnd].
    eapply wpm_mono; [apply (wpm_both _ (step_post (ready_key r) c1) (λ _ c' _, grows c1 c'))|].
    + by apply commit_iteration_spec.
    + by apply commit_iteration_owned; [apply Hi1|].
    + intros r' c' w' _ [(Hd' & Hi' & Hp) Hg']. assert (grows c0 c') as Hg2 by (intros e He; by apply Hg', Hg).
      destruct r' as [zs|e]; [|by split; [split|]].
      split_and!; [done | done | done | | done]. apply Forall_forall. intros r2 Hr2.
      rewrite Hp; [by rewrite Forall_forall in Hall; apply Hall|].
      intros Heq. apply Hn. rewrite <- Heq. apply list_elem_of_fmap. by exists r2.
  - intros ys c' w' (Hd' & Hi' & _ & _ & Hg). by split; [split|].
Qed.
End Owned.
