(* ===== verification/StageNode.v ===== *)
(** * A stage node: receive, stage, commit, discard

    Models the commit driver of prsm/settlement/per_stage_receiver_store.py and the
    two cycles of prsm/settlement/client_wiring.py that run it: the node drains its
    receiver store into its own settlement client and discards a staged task once
    the client owns its receipt.  The node's object is the store with the client,
    its world the store's file with the client's world; the effects of both parts
    are those of Retention.v and Client.v. *)
From Stdlib Require Import ZArith Lia QArith.
From S2P Require Import PyStd.
From S2P Require Import Externals.
From S2P Require Import Receipt.
From S2P Require Import Attestation.
From S2P Require Import Merkle.
From S2P Require Import Accumulator.
From S2P Require Import Published.
From S2P Require Import Effects.
From S2P Require Import Client.
From S2P Require Import Payment.
From S2P Require Import PerStageSplit.
From S2P Require Import PerStageAuth.
From S2P Require Import Retention.
From S2P Require Import PerStageReceiver.
From S2P Require Import Prelude.

#[local] Open Scope string_scope.
#[local] Open Scope list_scope.
#[local] Open Scope Z_scope.

Record StageNode : Type := { sn_store : PerStageReceiverStore; sn_client : Client }.

Inductive stage_request : Type :=
| OnStore (e : retention_request)
| OnClient (e : settle_request).
Definition stage_response (e : stage_request) : Type :=
  match e with OnStore e => retention_response e | OnClient e => settle_response e end.
Definition stage_effects : signature := {| request := stage_request; response := stage_response |}.

Abbreviation node_method A := (M stage_effects StageNode A).

Definition on_store {A} (m : M retention PerStageReceiverStore A) : node_method A :=
  zoom sn_store (λ st n, {| sn_store := st; sn_client := sn_client n |})
    (embed_method (E := retention) (F := stage_effects) OnStore (λ _ r, r) m).
Definition on_client {A} (m : M settle Client A) : node_method A :=
  zoom sn_client (λ c n, {| sn_store := sn_store n; sn_client := c |})
    (embed_method (E := settle) (F := stage_effects) OnClient (λ _ r, r) m).

(** ** Committing one staged task *)

Inductive CommitReason : Type :=
| RecheckFailed (why : Refusal) | CommitError (e : exn) | StageCommitted | NothingCommitted
| NoClient (e : exn).

Record StageCommitResult : Type := {
  sc_node_id : string;
  sc_local_escrow_id : string;
  sc_committed : bool;
  sc_reason : CommitReason;
  sc_batch : option CommittedBatch
}.

Definition commit_result (staged : StagedSettlementTask) (committed : bool) (why : CommitReason)
    (batch : option CommittedBatch) : StageCommitResult :=
  {| sc_node_id := task_node_id (st_task staged); sc_local_escrow_id := staged_escrow_id staged;
     sc_committed := committed; sc_reason := why; sc_batch := batch |}.

Section StageNode.
Context `{Externals, AbiArrays, Eip712} (str_of_container : json → string) (chain_id : Z).
#[local] Existing Instance ingest_entry.

(** Accumulate the receipt, then commit what is ready. *)
Definition settle_receipt (br : BatchedReceipt) : M settle Client (list CommittedBatch) :=
  _ ← accumulate br; commit_ready_batches false.

Definition commit_staged_task (staged : StagedSettlementTask) (now_unix : option Q)
  : node_method StageCommitResult :=
  now ← on_store (now_or_clock now_unix);
  verdict ← lift (verify_routed_settlement_task (st_task staged) (st_payees staged) chain_id now);
  match verdict with
  | Refused why => mret (commit_result staged false (RecheckFailed why) None)
  | Authorized =>
      outcome ← try (on_client (settle_receipt (task_batched_receipt (st_task staged))));
      mret (match outcome with
            | Err e => commit_result staged false (CommitError e) None
            | Ok [] => commit_result staged false NothingCommitted None
            | Ok (record :: _) => commit_result staged true StageCommitted (Some record)
            end)
  end.

(** ** Draining the store *)

(** [client_for_node] raises, or gives the node's own client. *)
Definition drain_iteration (client_for_node : string → result unit) (discard_committed : bool)
    (now_unix : option Q) (staged : StagedSettlementTask) : node_method (list StageCommitResult) :=
  match client_for_node (task_node_id (st_task staged)) with
  | Err e => mret [commit_result staged false (NoClient e) None]
  | Ok _ =>
      res ← commit_staged_task staged now_unix;
      n ← get;
      let discard := sc_committed res || has_committed_escrow_id (sn_client n) (staged_escrow_id staged) in
      _ ← (if discard && discard_committed
           then on_store (@re_discard _ (ingest_entry str_of_container) (sc_local_escrow_id res)) else mret false);
      mret [res]
  end.

Definition drain_and_commit_staged (client_for_node : string → result unit) (discard_committed : bool)
    (now_unix : option Q) : node_method (list StageCommitResult) :=
  n ← get;
  for_collect (re_all (sn_store n)) (drain_iteration client_for_node discard_committed now_unix).

(** ** The cycles of the node's poll loop *)

Record CommitCycle : Type := {
  cy_recover : result Z;
  cy_reconcile_pending : result Z;
  cy_commit : option (result (Z * Z))     (* nothing staged, or committed out of drained *)
}.

(** [run_per_stage_commit_cycle], when enabled and with its store and client. *)
Definition run_per_stage_commit_cycle : node_method CommitCycle :=
  r1 ← try (on_client recover_committing_intents);
  r2 ← try (on_client reconcile_pending_commits);
  n ← get;
  if bool_decide (re_all (sn_store n) = [])
  then mret {| cy_recover := r1; cy_reconcile_pending := r2; cy_commit := None |}
  else
    results ← try (drain_and_commit_staged (λ _, Ok tt) true None);
    mret {| cy_recover := r1; cy_reconcile_pending := r2;
            cy_commit := Some (match results with
                               | Ok l => Ok (zlen (filter (λ r, sc_committed r = true) l), zlen l)
                               | Err e => Err e
                               end) |}.

(** [run_per_stage_finalize_cycle] *)
Definition run_per_stage_finalize_cycle : node_method (result (list FinalizedBatch) * result Z) :=
  r1 ← try (on_client finalize_ready_batches);
  r2 ← try (on_client reconcile_finalized);
  mret (r1, r2).
End StageNode.
