(* ===== verification/StageSafety.v ===== *)
(** * A stage node: nothing unauthorized, nothing twice, nothing lost

    The stage node (StageNode.v) as a process: tasks are delivered to it, its poll
    loop runs, the process dies at any effect and restarts from its two files.
    The theorems compose the receiver store's (Retention.v), the gate's
    (PerStageAuth.v) and the client's (ClientSafety.v, ClientOwned.v).  Calls run
    one at a time. *)
From Stdlib Require Import ZArith Lia QArith.
From S2P Require Import PyStd.
From S2P Require Import Externals.
From S2P Require Import Receipt.
From S2P Require Import Attestation.
From S2P Require Import Merkle.
From S2P Require Import Accumulator.
From S2P Require Import Published.
From S2P Require Import Effects.
From S2P Require Import Client.
From S2P Require Import ClientDurable.
From S2P Require Import ClientSafety.
From S2P Require Import ClientOwned.
From S2P Require Import Payment.
From S2P Require Import PerStageSplit.
From S2P Require Import PerStageAuth.
From S2P Require Import Retention.
From S2P Require Import PerStageReceiver.
From S2P Require Import StageNode.
From S2P Require Import Prelude.
From stdpp Require Import relations.

#[local] Open Scope string_scope.
#[local] Open Scope list_scope.
#[local] Open Scope Z_scope.

(** The client's world and the store's file. *)
Record StageWorld : Type := { sw_client : World; sw_file : file }.

Section StageSafety.
Context `{Deployment, AbiArrays, Eip712} (str_of_container : json → string) (chain_id max : Z).
#[local] Existing Instance ingest_entry.
#[local] Instance this_entry : RetentionEntry StagedSettlementTask := ingest_entry str_of_container.

Definition stage_exec (e : stage_request) : StageWorld → stage_response e → StageWorld → Prop :=
  match e return StageWorld → stage_response e → StageWorld → Prop with
  | OnStore e => λ w r w', retention_exec e (sw_file w) r (sw_file w') ∧ sw_client w' = sw_client w
  | OnClient e => λ w r w', exec e (sw_client w) r (sw_client w') ∧ sw_file w' = sw_file w
  end.

(** ** The process *)

Inductive stage_op : Type :=
| Deliver (task : PerStageSettlementTask) (payees : payee_set) (my_node_id : option string)
| PruneStaged (retention_seconds : Z)
| RunCommitCycle
| RunFinalizeCycle.

Definition stage_op_body (o : stage_op) : node_method unit :=
  match o with
  | Deliver task payees me =>
      _ ← on_store (ingest_routed_task str_of_container task payees me chain_id None); mret ()
  | PruneStaged secs => _ ← on_store (re_prune secs); mret ()
  | RunCommitCycle => _ ← run_per_stage_commit_cycle str_of_container chain_id; mret ()
  | RunFinalizeCycle => _ ← run_per_stage_finalize_cycle; mret ()
  end.

(** Anything may be delivered; what the gate would let in is a receipt of the
    deployment. *)
Definition stage_op_ok (o : stage_op) : Prop :=
  match o with
  | Deliver task payees _ =>
      task_ok task ∧ ∀ now, verify_routed_settlement_task task payees chain_id now = Ok Authorized →
                            known (task_batched_receipt task)
  | _ => True
  end.

Inductive stage_calls : StageNode → StageWorld → prog stage_effects (result unit * StageNode) → StageWorld → Prop :=
| calls_of_op o n w : stage_op_ok o → stage_calls n w (stage_op_body o n) w.

(** A restart reads both files. *)
Definition stage_boots (c0 : Client) (w : StageWorld) (n : StageNode) : Prop :=
  sn_store n = re_load max (sw_file w) ∧
  ∃ ps, client_init (with_published ps c0) (w_disk (sw_client w)) = Ok (sn_client n).

Definition stage_world0 : StageWorld := {| sw_client := world0; sw_file := Absent |}.

Definition stage_reachable (c0 : Client) (n : process stage_effects StageNode (result unit)) (w : StageWorld) : Prop :=
  rtc (process_step (E := stage_effects) stage_exec stage_calls (λ _ w w', w' = w) (stage_boots c0))
      (Crashed, stage_world0) (n, w).

(** ** Invariants *)

(** A staged task was authorized when it was staged, and its receipt is known. *)
Definition staged_known (t : StagedSettlementTask) : Prop :=
  staged_ok t ∧ known (task_batched_receipt (st_task t)) ∧
  ∃ now, verify_routed_settlement_task (st_task t) (st_payees t) chain_id now = Ok Authorized.

#[local] Instance staged_known_laws : RetentionLaws StagedSettlementTask staged_known.
Proof.
  destruct (staged_laws str_of_container) as [Hr Hl Hf].
  split; [intros t [Ht _]; by apply Hr | intros t [Ht _]; by apply Hl | done].
Qed.

Definition stage_inv (w : StageWorld) : Prop :=
  disk_inv (sw_client w) ∧ file_inv staged_known max (sw_file w).

Definition node_ok (n : StageNode) (w : StageWorld) : Prop :=
  mem_inv (sn_client n) (w_sent (sw_client w)) ∧ sim staged_known max (sn_store n) (sw_file w).

Abbreviation wps := (wpm (E := stage_effects) stage_exec stage_inv).

Lemma on_client_spec {A} (m : M settle Client A) (Q : result A → Client → World → Prop) n w :
  wpm (E := settle) exec disk_inv m Q (sn_client n) (sw_client w) → file_inv staged_known max (sw_file w) →
  wps (on_client m) (λ r n' w', Q r (sn_client n') (sw_client w') ∧ sn_store n' = sn_store n ∧
                                sw_file w' = sw_file w) n w.
Proof.
  intros Hm Hf. unfold on_client. apply wpm_zoom. unfold wpm, embed_method.
  eapply (wp_weaken (E := stage_effects) stage_exec (λ w', disk_inv (sw_client w') ∧ sw_file w' = sw_file w)).
  { intros w' [Hd Hw]. split; [done | by rewrite Hw]. }
  eapply wp_mono.
  - apply (wp_embed (E := settle) (F := stage_effects) OnClient (λ _ r, r) exec stage_exec sw_client
             (λ w', sw_file w' = sw_file w)); [|done | exact Hm].
    intros e w1 r w2 [Hx Hw] Hw1. split; [done | congruence].
  - intros [r c] w' _ [HQ Hw]. done.
Qed.

Lemma on_store_spec {A} (m : M retention PerStageReceiverStore A)
    (Q : result A → PerStageReceiverStore → file → Prop) n w :
  wpm (E := retention) retention_exec (file_inv staged_known max) m Q (sn_store n) (sw_file w) →
  disk_inv (sw_client w) →
  wps (on_store m) (λ r n' w', Q r (sn_store n') (sw_file w') ∧ sn_client n' = sn_client n ∧
                               sw_client w' = sw_client w) n w.
Proof.
  intros Hm Hd. unfold on_store. apply wpm_zoom. unfold wpm, embed_method.
  eapply (wp_weaken (E := stage_effects) stage_exec (λ w', file_inv staged_known max (sw_file w') ∧ sw_client w' = sw_client w)).
  { intros w' [Hf Hw]. split; [by rewrite Hw | done]. }
  eapply wp_mono.
  - apply (wp_embed (E := retention) (F := stage_effects) OnStore (λ _ r, r) retention_exec stage_exec sw_file
             (λ w', sw_client w' = sw_client w)); [|done | exact Hm].
    intros e w1 r w2 [Hx Hw] Hw1. split; [done | congruence].
  - intros [r c] w' _ [HQ Hw]. done.
Qed.

(** A client method that keeps the client's invariants keeps the node's. *)
Lemma on_client_keeps {A} (m : M settle Client A) n w :
  keeps m → stage_inv w → node_ok n w →
  wps (on_client m) (λ _ n' w', stage_inv w' ∧ node_ok n' w' ∧ sn_store n' = sn_store n) n w.
Proof.
  intros Hm [Hd Hf] [Hc Hs]. eapply wpm_mono; [apply on_client_spec; [by apply Hm | done]|].
  intros r n' w' Hi ([Hd' Hc'] & Hst & Hfile). split_and!; [done | | done]. split; [done|]. by rewrite Hst, Hfile.
Qed.

Lemma reads_clock now_unix n w :
  stage_inv w → node_ok n w →
  wps (on_store (now_or_clock now_unix)) (λ r n' w', n' = n ∧ w' = w ∧ is_Ok r) n w.
Proof.
  intros Hi Hn. unfold on_store. apply wpm_zoom. unfold now_or_clock, wpm, embed_method.
  destruct now_unix as [q|]; simpl.
  - split; [done|]. destruct n. by split_and!; [| | eexists].
  - split; [done|]. intros r [wc wf] [Hx Hc]. simpl in *. destruct w, n. simpl in *. subst.
    split; [done|]. by split_and!; [| | eexists].
Qed.

(** ** Committing and draining *)

Lemma settle_receipt_owned br c w :
  known br → disk_inv w → mem_inv c (w_sent w) →
  wpm (E := settle) exec disk_inv (settle_receipt br)
    (λ r c' w', inv_post r c' w' ∧ grows c c' ∧ (is_Ok r → owned (local_escrow_id br) c')) c w.
Proof.
  intros Hbr Hd Hi. unfold settle_receipt. apply wpm_bind. eapply wpm_mono; [by apply accumulate_owned|].
  intros [[]|e] c1 w1 _ ([Hd1 Hi1] & Hg1 & Ho1).
  - eapply wpm_mono; [by apply commit_ready_batches_owned|]. intros r c2 w2 _ [[Hd2 Hi2] Hg2].
    split; [done|]. split; [intros e He; by apply Hg2, Hg1|]. intros _. by apply Hg2, Ho1.
  - split; [done|]. split; [done|]. by intros [].
Qed.

Lemma commit_staged_task_spec staged now_unix n w :
  staged_known staged → stage_inv w → node_ok n w →
  wps (commit_staged_task chain_id staged now_unix)
    (λ r n' w', stage_inv w' ∧ node_ok n' w' ∧ sn_store n' = sn_store n ∧ grows (sn_client n) (sn_client n') ∧
       ∃ res, r = Ok res ∧ sc_local_escrow_id res = staged_escrow_id staged ∧
              (sc_committed res = true → owned (staged_escrow_id staged) (sn_client n'))) n w.
Proof.
  intros (_ & Hbr & now0 & Hauth) Hi Hn. unfold commit_staged_task. apply wpm_bind.
  eapply wpm_mono; [by apply reads_clock|]. intros r n1 w1 _ (-> & -> & now & ->).
  assert (∀ why, wps (mret (commit_result staged false why None))
    (λ r n' w', stage_inv w' ∧ node_ok n' w' ∧ sn_store n' = sn_store n ∧ grows (sn_client n) (sn_client n') ∧
       ∃ res, r = Ok res ∧ sc_local_escrow_id res = staged_escrow_id staged ∧
              (sc_committed res = true → owned (staged_escrow_id staged) (sn_client n'))) n w) as Hno.
  { intros why. apply wpm_ret; [done|]. split_and!; [done | done | done | apply grows_refl |]. by eexists. }
  destruct (routed_later (st_task staged) (st_payees staged) chain_id now0 now Hauth) as [Hv|Hv];
    rewrite Hv; (apply wpm_bind, wpm_lift; [done|]); [|apply Hno].
  apply wpm_bind, wpm_try. destruct Hi as [Hd Hf], Hn as [Hc Hs].
  eapply wpm_mono; [apply on_client_spec; [by apply settle_receipt_owned | done]|].
  intros r n1 w1 Hi1 (([_ Hc1] & Hg & Ho) & Hst & Hfile).
  assert (node_ok n1 w1) as Hn1 by (split; [done | by rewrite Hst, Hfile]).
  apply wpm_ret; [done|]. split_and!; [done | done | done | done |].
  destruct r as [[|rec recs]|e]; eexists; (split; [done|]); (split; [done|]); intros Hcm; [done | | done].
  apply Ho. by eexists.
Qed.

(** What draining one staged task does: the store loses at most that task's
    record, and only when the client owns its receipt. *)
Lemma drain_iteration_spec client_for_node discard_committed now_unix staged n w :
  staged_known staged → stage_inv w → node_ok n w →
  wps (drain_iteration str_of_container chain_id client_for_node discard_committed now_unix staged)
    (λ r n' w', stage_inv w' ∧ node_ok n' w' ∧ grows (sn_client n) (sn_client n') ∧
       (∀ t, t ∈ re_all (sn_store n) → t ∈ re_all (sn_store n') ∨ owned (staged_escrow_id t) (sn_client n')) ∧
       ∃ res, r = Ok [res]) n w.
Proof.
  intros Hst Hi Hn. unfold drain_iteration. destruct (client_for_node _) as [u|e].
  2: { apply wpm_ret; [done|]. split_and!; [done | done | apply grows_refl | by left | by eexists]. }
  apply wpm_bind. eapply wpm_mono; [by apply commit_staged_task_spec|].
  intros r n1 w1 _ (Hi1 & Hn1 & Hstore & Hg & res & -> & Hid & Ho). apply wpm_bind, wpm_get; [done|].
  assert (wps (mret [res]) (λ r n' w', stage_inv w' ∧ node_ok n' w' ∧ grows (sn_client n) (sn_client n') ∧
    (∀ t, t ∈ re_all (sn_store n) → t ∈ re_all (sn_store n') ∨ owned (staged_escrow_id t) (sn_client n')) ∧
    ∃ res, r = Ok [res]) n1 w1) as Hkeep.
  { apply wpm_ret; [done|]. split_and!; [done | done | done | rewrite Hstore; by left | by eexists]. }
  destruct (_ && discard_committed) eqn:Hdisc.
  2: by apply wpm_bind, wpm_ret.
  apply andb_true_iff in Hdisc as [Hdisc _].
  assert (owned (staged_escrow_id staged) (sn_client n1)) as Hown.
  { apply orb_true_iff in Hdisc as [Hc|Hc]; [by apply Ho|]. left. unfold has_committed_escrow_id, ledger_has in Hc.
    by apply andb_true_iff in Hc as [_ Hc%bool_decide_eq_true]. }
  rewrite Hid. apply wpm_bind. destruct Hi1 as [Hd1 Hf1], Hn1 as [Hc1 Hs1].
  eapply wpm_mono; [apply on_store_spec; [|done]|].
  - apply (discard_sim staged_known max (staged_escrow_id staged) (sn_store n1) (sw_file w1)
             (λ r s' w', is_Ok r ∧ sim staged_known max s' w' ∧
                         re_all s' = without (staged_escrow_id staged) (re_all (sn_store n1)))); [done|].
    intros b s' w' Hs' Hall. split_and!; [by eexists | done | done].
  - intros r n2 w2 Hi2 (([b ->] & Hs2 & Hall) & Hcl & Hwc). apply wpm_ret; [done|].
    split_and!; [done | | by rewrite Hcl | | by eexists].
    + split; [by rewrite Hcl, Hwc | done].
    + intros t Ht. rewrite <-Hstore in Ht. rewrite Hall, Hcl.
      destruct (decide (staged_escrow_id t = staged_escrow_id staged)) as [Heq|Hne].
      * right. by rewrite Heq.
      * left. apply list_elem_of_filter. by split.
Qed.

Lemma sim_known s w t : sim staged_known max s w → t ∈ re_all s → staged_known t.
Proof.
  intros (a & _ & Hs & _) ([k e] & -> & Hin)%list_elem_of_fmap. by apply (rw_entries _ _ _ Hs) in Hin as [_ Ht].
Qed.

Lemma drain_spec client_for_node discard_committed now_unix n0 w0 :
  stage_inv w0 → node_ok n0 w0 →
  wps (drain_and_commit_staged str_of_container chain_id client_for_node discard_committed now_unix)
    (λ r n w, stage_inv w ∧ node_ok n w ∧ grows (sn_client n0) (sn_client n) ∧
       (∀ t, t ∈ re_all (sn_store n0) → t ∈ re_all (sn_store n) ∨ owned (staged_escrow_id t) (sn_client n)) ∧
       ∃ results, r = Ok results ∧ length results = length (re_all (sn_store n0))) n0 w0.
Proof.
  intros Hi0 Hn0. unfold drain_and_commit_staged. apply wpm_bind, wpm_get; [done|].
  apply (wpm_for_collect (E := stage_effects) stage_exec stage_inv _ _
    (λ l (ys : list StageCommitResult) n w, stage_inv w ∧ node_ok n w ∧ grows (sn_client n0) (sn_client n) ∧
       (∀ t, t ∈ re_all (sn_store n0) → t ∈ re_all (sn_store n) ∨ owned (staged_escrow_id t) (sn_client n)) ∧
       Forall staged_known l ∧ (length ys + length l = length (re_all (sn_store n0)))%nat) _ _ _ []).
  - by intros w (n & l & ys & Hi & _).
  - split_and!; [done | done | apply grows_refl | by left | | done].
    apply Forall_forall. intros t. apply (sim_known _ (sw_file w0)), Hn0.
  - intros t l ys n w (Hi & Hn & Hg & Hkeep & Hall & Hlen). apply Forall_cons in Hall as [Ht Hall].
    eapply wpm_mono; [by apply drain_iteration_spec|].
    intros r n' w' _ (Hi' & Hn' & Hg' & Hkeep' & res & ->).
    split_and!; [done | done | intros e He; by apply Hg', Hg | | done | rewrite length_app; simpl in *; lia].
    intros t' [Ht'|Ht']%Hkeep; [by apply Hkeep' | right; by apply Hg'].
  - intros ys n w (Hi & Hn & Hg & Hkeep & _ & Hlen). split_and!; [done..|].
    exists ys. split; [done|]. simpl in Hlen. lia.
Qed.

(** ** Every call keeps the invariants *)

Definition keeps_node {A} (m : node_method A) : Prop :=
  ∀ n w, stage_inv w → node_ok n w → wps m (λ _ n' w', stage_inv w' ∧ node_ok n' w') n w.

Lemma keeps_node_client {A} (m : M settle Client A) : keeps m → keeps_node (on_client m).
Proof.
  intros Hm n w Hi Hn. eapply wpm_mono; [by apply on_client_keeps|]. by intros r n' w' _ (Hi' & Hn' & _).
Qed.

Lemma keeps_node_try {A B} (m : node_method A) (f : result A → node_method B) :
  keeps_node m → (∀ r, keeps_node (f r)) → keeps_node (r ← try m; f r).
Proof.
  intros Hm Hf n w Hi Hn. apply wpm_bind, wpm_try. eapply wpm_mono; [by apply Hm|].
  intros r n' w' _ [Hi' Hn']. by apply Hf.
Qed.

Lemma keeps_node_ret {A} (x : A) : keeps_node (mret x).
Proof. intros n w Hi Hn. by apply wpm_ret. Qed.

Lemma keeps_node_drop {A} (m : node_method A) : keeps_node m → keeps_node (_ ← m; mret ()).
Proof.
  intros Hm n w Hi Hn. apply wpm_bind. eapply wpm_mono; [by apply Hm|].
  intros [x|e] n' w' _ [Hi' Hn']; [by apply wpm_ret | done].
Qed.

Lemma commit_cycle_keeps : keeps_node (run_per_stage_commit_cycle str_of_container chain_id).
Proof.
  apply keeps_node_try; [apply keeps_node_client, recover_keeps|]. intros r1.
  apply keeps_node_try; [apply keeps_node_client, reconcile_pending_keeps|]. intros r2 n w Hi Hn.
  apply wpm_bind, wpm_get; [done|]. case_bool_decide as Hne; [by apply wpm_ret|].
  apply keeps_node_try; [|intros; apply keeps_node_ret|done|done].
  intros n1 w1 Hi1 Hn1. eapply wpm_mono; [by apply drain_spec|]. by intros r n2 w2 _ (Hi2 & Hn2 & _).
Qed.

Lemma stage_op_keeps o : 0 < max → stage_op_ok o → keeps_node (stage_op_body o).
Proof.
  intros Hm Hok. destruct o as [task payees me|secs| |]; apply keeps_node_drop.
  - intros n w [Hd Hf] [Hc Hs]. destruct Hok as [Ht Hknown].
    eapply wpm_mono; [apply on_store_spec; [|done]|].
    + apply (ingest_sim str_of_container max staged_known); [done | done |].
      intros now Hnow t recs. unfold stage_record. destruct (str_nonempty _) eqn:Hk; simpl; [|done].
      intros Heq. injection Heq as <-. apply Forall_singleton. split; [by split|]. simpl. eauto.
    + intros r n' w' Hi' ((now & _ & Hp) & Hcl & Hwc). split; [done|]. split; [by rewrite Hcl, Hwc|].
      unfold ingested in Hp. destruct r as [res|e]; [|by destruct Hp as (-> & -> & _)].
      destruct Hp as [_ Hp]. destruct (ti_accepted res); [by destruct Hp as (t & _ & ? & _) | by destruct Hp as [-> ->]].
  - intros n w [Hd Hf] [Hc Hs]. eapply wpm_mono; [apply on_store_spec; [|done]|].
    + apply (prune_sim staged_known max secs (sn_store n) (sw_file w) (λ r s' w', sim staged_known max s' w')); [done|].
      by intros.
    + intros r n' w' Hi' (Hs' & Hcl & Hwc). split; [done|]. split; [by rewrite Hcl, Hwc | done].
  - apply commit_cycle_keeps.
  - apply keeps_node_try; [apply keeps_node_client, finalize_keeps|]. intros r1.
    apply keeps_node_try; [apply keeps_node_client, reconcile_finalized_keeps|]. intros r2. apply keeps_node_ret.
Qed.

Lemma stage_reachable_inv c0 n w :
  0 < max → deployed c0 → stage_reachable c0 n w → stage_inv w ∧ match n with Idle n => node_ok n w | _ => True end.
Proof.
  intros Hm Hdep Hr.
  destruct (process_reachable_inv (E := stage_effects) stage_exec stage_calls (λ _ w w', w' = w) (stage_boots c0)
              stage_inv node_ok) with (w0 := stage_world0) (n := (n, w)) as [Hn Hw].
  - intros n1 w1 p w2 Hc Hi Hn. destruct Hc as [o n1 w1 Ho].
    eapply wp_mono; [by apply stage_op_keeps|]. intros [r n'] w' _ [Hi' Hn'] w2 ->. by split.
  - intros w1 n1 [Hs [ps Hc]] [Hd Hf].
    destruct (boot_inv (with_published ps c0) (sw_client w1)) as (c & Hc' & Hi); [done | done |].
    assert (c = sn_client n1) as -> by congruence. split; [done|]. rewrite Hs. apply boot_sim; [apply staged_known_laws | done..].
  - split; [done|]. exists {| live := []; durable := [] |}. split; [apply rtc_refl | done].
  - exact Hr.
  - split; [done|]. destruct n; [|done..]. apply Hn.
Qed.

Lemma sent_known w : disk_inv w → ∀ x br, x ∈ w_sent w → br ∈ x.2 → known br.
Proof.
  unfold disk_inv. destruct (w_disk w) as [| |j]; [|done|].
  - intros -> x br Hx. by apply not_elem_of_nil in Hx.
  - intros (c & _ & Hs) x br Hx Hbr. pose proof (ci_sent _ _ _ Hs) as Hall. rewrite Forall_forall in Hall.
    destruct (Hall x Hx) as (Hk & _). rewrite Forall_forall in Hk. by apply Hk.
Qed.
End StageSafety.

(** ** Restricting a deployment to authorized receipts *)

(** The receipts a requester authorized paying, at some time. *)
Definition authorized_receipt `{Externals, AbiArrays, Eip712} (chain_id : Z) (br : BatchedReceipt) : Prop :=
  ∃ task payees now, task_batched_receipt task = br ∧
    verify_routed_settlement_task task payees chain_id now = Ok Authorized.

Definition restrict `{KeccakLaws} (D : Deployment) (P : BatchedReceipt → Prop) : Deployment.
Proof.
  refine (@Build_Deployment _ _ (λ br, @known _ _ D br ∧ P br) (@ids _ _ D) (@key_of _ _ D) (@batch_root _ _ D)
            (@tx_root _ _ D) (@signer _ _ D) _ _ _ _).
  - intros br [Hk _]. by apply (@known_ok _ _ D).
  - intros br [Hk _]. by apply (@known_id _ _ D).
  - apply (@ids_bounded _ _ D).
  - intros rs1 rs2 ls1 ls2 root H1 H2. apply (@distinct_work _ _ D);
      (eapply Forall_impl; [eassumption | by intros br []]).
Defined.

(** ** Claims *)


(** Draining loses no share.  Whatever the contract answers and whichever write
    fails, a drain returns one result per staged task and never raises; a task it
    takes out of the store is one whose escrow id the client owns, in its queue or
    in its ledger, and nothing the client owned before is lost.  The node is left
    in a state from which it can be run, crashed and restarted. *)
Theorem drain_keeps_shares `{Deployment, AbiArrays, Eip712} str_of_container chain_id (max : Z) client_for_node
    discard_committed now_unix n w :
  stage_inv str_of_container chain_id max w → node_ok str_of_container chain_id max n w →
  wpm (E := stage_effects) stage_exec (stage_inv str_of_container chain_id max)
    (drain_and_commit_staged str_of_container chain_id client_for_node discard_committed now_unix)
    (λ r n' w', (∃ results, r = Ok results ∧ length results = length (re_all (sn_store n))) ∧
       (∀ t, t ∈ re_all (sn_store n) → t ∈ re_all (sn_store n') ∨ owned (staged_escrow_id t) (sn_client n')) ∧
       grows (sn_client n) (sn_client n') ∧ node_ok str_of_container chain_id max n' w') n w.
Proof.
  intros Hi Hn. eapply wpm_mono; [by apply drain_spec|].
  intros r n' w' _ (_ & Hn' & Hg & Hk & Hr). by split_and!.
Qed.
