(* ===== verification/StageExample.v ===== *)
(** * A stage node at work

    Node a of the two-stage inference receives its routed task, its commit is left
    pending, the process dies, the task is delivered again and the next cycle
    commits nothing more: the witnesses of the stage node's claims. *)
From Stdlib Require Import ZArith Lia QArith.
From S2P Require Import PyStd.
From S2P Require Import Externals.
From S2P Require Import Receipt.
From S2P Require Import Attestation.
From S2P Require Import Merkle.
From S2P Require Import Accumulator.
From S2P Require Import Published.
From S2P Require Import Effects.
From S2P Require Import Client.
From S2P Require Import ClientDurable.
From S2P Require Import ClientSafety.
From S2P Require Import ClientOwned.
From S2P Require Import ClientExample.
From S2P Require Import Payment.
From S2P Require Import PerStageSplit.
From S2P Require Import PerStageAuth.
From S2P Require Import PerStageExample.
From S2P Require Import Retention.
From S2P Require Import PerStageReceiver.
From S2P Require Import StageNode.
From S2P Require Import StageSafety.
From S2P Require Import Prelude.
From stdpp Require Import relations.

#[local] Open Scope string_scope.
#[local] Open Scope list_scope.
#[local] Open Scope Z_scope.

Import Toy ToyEip712.

Definition no_container (_ : json) : string := "".
#[local] Instance sample_entry : RetentionEntry StagedSettlementTask := ingest_entry no_container.

(** ** The deployment: node a and its one receipt *)

Definition task_a : PerStageSettlementTask :=
  default {| task_node_id := ""; task_share_wei := 0; task_batched_receipt := sample_batched 0 0 "";
             task_authorization := None |} (head tasks7).
Definition receipt_a : BatchedReceipt := task_batched_receipt task_a.

Lemma receipt_a_ok : batched_ok receipt_a.
Proof. split; [|split]; vm_compute; [split; discriminate | reflexivity | discriminate]. Qed.

Lemma task_a_ok : task_ok task_a.
Proof. split; [exact receipt_a_ok | vm_compute; discriminate]. Qed.

Lemma only_receipt_a rs :
  Forall (λ br, br = receipt_a) rs → rs ≠ [] → local_escrow_id receipt_a ∈ escrow_ids rs.
Proof.
  intros Hall Hne. destruct rs as [|br rs]; [done|]. apply Forall_cons in Hall as [-> _].
  apply elem_escrow_ids. split; [vm_compute; reflexivity|]. exists receipt_a. split; [left | done].
Qed.

#[local] Instance one_receipt : @Deployment Toy.toy Toy.toy_keccak.
Proof.
  refine (@Build_Deployment Toy.toy Toy.toy_keccak (λ br, br = receipt_a) {[ local_escrow_id receipt_a ]}
            (λ _, receipt_key receipt_a) id (λ tx, default [] (fromhex tx)) None _ _ _ _).
  - intros br ->. exact receipt_a_ok.
  - intros br ->. split_and!; [vm_compute; reflexivity | set_solver | done].
  - rewrite size_singleton. vm_compute. discriminate.
  - intros rs1 rs2 ls1 ls2 root H1 H2 _ _ B1 B2. exists (local_escrow_id receipt_a).
    split; (apply only_receipt_a; [done|]); intros ->; [discriminate B1 | discriminate B2].
Defined.

Definition stage_args : Client :=
  {| c_accumulator := {| acc_config := {| count_threshold := 1; time_threshold_seconds := 3600;
                                          value_threshold_ftns := 10 ^ 18 |}; acc_pending := [] |};
     c_provider := "0x00000000000000000000000000000000000000Bb"; c_address := None; c_can_scan := true;
     c_has_store := true; c_published := None; c_tracked := []; c_finalized_ids := ∅; c_pending_commits := [];
     c_committing := []; c_committed_escrow_ids := [] |}.

(** Writes succeed, the clock reads 1000, the client's answers are those of the
    client's example. *)
Definition stage_answer (resp : bytes → result (bytes * Z)) (e : stage_effects) (w : StageWorld)
  : option (response e * StageWorld) :=
  match e return option (stage_response e * StageWorld) with
  | OnStore Clock => Some (1000%Q, w)
  | OnStore (SaveFile j) => Some (Ok tt, {| sw_client := sw_client w; sw_file := Json j |})
  | OnClient e => '(r, cw) ← toy_answer resp e (sw_client w); Some (r, {| sw_client := cw; sw_file := sw_file w |})
  end.

Lemma stage_answer_exec resp (e : stage_effects) w r w' :
  resp ∈ [lands; pends; fails_broadcast; reverts] →
  stage_answer resp e w = Some (r, w') → stage_exec e w r w'.
Proof.
  intros Hresp. destruct e as [[|j]|e]; simpl.
  - by intros [= <- <-].
  - intros [= <- <-]. split; [by left | done].
  - destruct (toy_answer resp e (sw_client w)) as [[r1 cw]|] eqn:Ha; [|done]. simpl. intros [= <- <-].
    split; [|done]. eapply (toy_answer_exec resp e (sw_client w) r1 cw) in Ha; [exact Ha | done].
Qed.

Definition stage_state : Type := StageNode * StageWorld.

Definition stage_run (resp : bytes → result (bytes * Z)) (o : stage_op) (s : stage_state) : stage_state :=
  match run (stage_answer resp) (stage_op_body no_container 8453 o s.1) s.2 with
  | Some ((_, n'), w') => (n', w')
  | None => s
  end.

Definition stage_restart (s : stage_state) : stage_state :=
  match client_init stage_args (w_disk (sw_client s.2)) with
  | Ok c => ({| sn_store := re_load 10 (sw_file s.2); sn_client := c |}, s.2)
  | Err _ => s
  end.

Definition t0 : stage_state :=
  ({| sn_store := re_load 10 Absent; sn_client := fresh_client stage_args |}, stage_world0).
Definition deliver_a : stage_op := Deliver task_a (payee_set_from_tasks tasks7) (Some node_a).
Definition t1 : stage_state := stage_run pends RunCommitCycle (stage_run pends deliver_a t0).
Definition t2 : stage_state := stage_run lands RunCommitCycle (stage_run lands deliver_a (stage_restart t1)).

(** The share is staged, sent once and discarded; the second delivery is staged
    and discarded without a second commit. *)
Example t2_outcome :
  length (re_all (sn_store (stage_run pends deliver_a t0).1)) = 1%nat ∧
  length (w_sent (sw_client t1.2)) = 1%nat ∧ re_all (sn_store t1.1) = [] ∧
  length (re_all (sn_store (stage_run lands deliver_a (stage_restart t1)).1)) = 1%nat ∧
  length (w_sent (sw_client t2.2)) = 1%nat ∧ re_all (sn_store t2.1) = [].
Proof. vm_compute. split_and!; reflexivity. Qed.

(** ** The states are reachable *)

#[local] Instance authorized_only : @Deployment Toy.toy Toy.toy_keccak :=
  restrict one_receipt (authorized_receipt 8453).

Abbreviation reached s := (stage_reachable no_container 8453 10 stage_args (Idle s.1) s.2).

Lemma reach_stage_run s o resp :
  reached s → stage_op_ok 8453 o → resp ∈ [lands; pends; fails_broadcast; reverts] →
  reached (stage_run resp o s).
Proof.
  intros Hr Ho Hresp. unfold stage_run. destruct (run _ _ _) as [[[r n'] w']|] eqn:E; [|exact Hr].
  cbn [fst snd]. unfold stage_reachable in *. etrans; [exact Hr|].
  eapply rtc_l; [apply process_call, (calls_of_op no_container 8453 o), Ho|].
  etrans; [|apply rtc_once, process_return; reflexivity].
  eapply (run_process (E := stage_effects) stage_exec _ _ _ (stage_answer resp)); [|exact E].
  intros e w1 r1 w1'. by apply stage_answer_exec.
Qed.

Lemma reach_stage_restart s : reached s → reached (stage_restart s).
Proof.
  intros Hr. unfold stage_restart. destruct (client_init _ _) as [c|e] eqn:E; [|exact Hr]. cbn [fst snd].
  unfold stage_reachable in *. etrans; [exact Hr|]. eapply rtc_l; [apply process_crash|].
  apply rtc_once, process_boot. split; [done|]. exists None. exact E.
Qed.

Lemma reach_t0 : reached t0.
Proof. apply rtc_once, process_boot. split; [done|]. exists None. vm_compute. reflexivity. Qed.

Lemma deliver_a_ok : stage_op_ok 8453 deliver_a.
Proof.
  split.
  - exact task_a_ok.
  - intros now Hnow. split; [reflexivity|]. exists task_a, (payee_set_from_tasks tasks7), now.
    split; [reflexivity | exact Hnow].
Qed.

Lemma reach_t1 : reached t1.
Proof.
  apply reach_stage_run; [|done|in_list]. apply reach_stage_run; [apply reach_t0 | apply deliver_a_ok | in_list].
Qed.

Lemma reach_t2 : reached t2.
Proof.
  apply reach_stage_run; [|done|in_list]. apply reach_stage_run; [|apply deliver_a_ok | in_list].
  apply reach_stage_restart, reach_t1.
Qed.

(** ** Witnesses *)


(** The drain of the delivered task: in the state after the delivery. *)
Definition t_staged : stage_state := stage_run pends deliver_a t0.

Lemma t_staged_ok :
  stage_inv no_container 8453 10 t_staged.2 ∧ node_ok no_container 8453 10 t_staged.1 t_staged.2.
Proof.
  apply (stage_reachable_inv no_container 8453 10 stage_args (Idle t_staged.1) t_staged.2);
    [reflexivity | split; reflexivity |].
  apply reach_stage_run; [apply reach_t0 | apply deliver_a_ok | in_list].
Qed.

Lemma drain_keeps_shares_witness :
  length (re_all (sn_store t_staged.1)) = 1%nat ∧
  wpm (E := stage_effects) stage_exec (stage_inv no_container 8453 10)
    (drain_and_commit_staged no_container 8453 (λ _, Ok tt) true None)
    (λ r n' w', ∃ results, r = Ok results ∧ length results = 1%nat) t_staged.1 t_staged.2.
Proof.
  split; [vm_compute; reflexivity|]. eapply wpm_mono.
  - apply (drain_keeps_shares no_container 8453 10 (λ _, Ok tt) true None); apply t_staged_ok.
  - intros r n' w' _ (Hr & _). exact Hr.
Defined.

(** The ingest of the task into an empty store. *)
Lemma ingest_exact_witness :
  wpm (E := retention) retention_exec (file_inv staged_ok 10)
    (ingest_routed_task no_container task_a (payee_set_from_tasks tasks7) (Some node_a) 8453 (Some 1000%Q))
    (λ r s' w', ∃ res, r = Ok res ∧ ti_accepted res = true ∧ length (re_all s') = 1%nat)
    (re_load 10 Absent) Absent.
Proof.
  eapply wpm_mono.
  - apply (ingest_exact no_container 10 task_a (payee_set_from_tasks tasks7) (Some node_a) 8453 (Some 1000%Q)
             (re_load 10 Absent) Absent).
    + reflexivity.
    + exact task_a_ok.
    + apply (boot_sim staged_ok 10); [reflexivity |].
      exists {| live := []; durable := [] |}. split; [apply rtc_refl | reflexivity].
  - intros r s' w' _ (now & -> & Hi). unfold ingested in Hi.
    assert (verify_routed_settlement_task task_a (payee_set_from_tasks tasks7) 8453 1000 = Ok Authorized) as Hv
      by (vm_compute; reflexivity).
    destruct r as [res|e]; [|destruct Hi as (_ & _ & Hi); rewrite Hv in Hi; discriminate Hi].
    destruct Hi as [[_ Hacc] Hi]. exists res. split; [reflexivity|].
    assert (ti_accepted res = true) as Ha by (apply Hacc; split_and!; [vm_compute; reflexivity | exact Hv | vm_compute; reflexivity]).
    split; [exact Ha|]. rewrite Ha in Hi. destruct Hi as (t & _ & _ & ->). vm_compute. reflexivity.
Defined.

