(* ===== verification/Registry.v ===== *)
(** * The settlement contract: contracts/contracts/BatchSettlementRegistry.sol

    The part of the contract the challenge code is written against: the batch
    table, [commitBatchWithAttestation], [challengeReceipt] with its reason
    handlers, [finalizeBatch], and the pause accounting of the challenge window.
    A transaction returns the new storage and the external calls it makes, or
    reverts and changes nothing.  An address is its checksum spelling. *)
From Stdlib Require Import ZArith Lia.
From S2P Require Import PyStd.
From S2P Require Import Externals.
From S2P Require Import Merkle.
From S2P Require Import Prelude.
From stdpp Require Import relations.

#[local] Open Scope string_scope.
#[local] Open Scope list_scope.
#[local] Open Scope Z_scope.

(** ** Transactions *)

Inductive ReasonCode : Type :=
| DOUBLE_SPEND | INVALID_SIGNATURE | NO_ESCROW | EXPIRED | MALFORMED | CONSENSUS_MISMATCH.

#[export] Instance ReasonCode_eq_dec : EqDecision ReasonCode.
Proof. solve_decision. Defined.

(** The integer of a reason, in Solidity and in [stake_manager.ReasonCode]. *)
Definition reason_int (r : ReasonCode) : Z :=
  match r with
  | DOUBLE_SPEND => 0 | INVALID_SIGNATURE => 1 | NO_ESCROW => 2
  | EXPIRED => 3 | MALFORMED => 4 | CONSENSUS_MISMATCH => 5
  end.

Inductive revert : Type :=
| EnforcedPause
| ZeroRequester | EmptyMerkleRoot | ZeroReceiptCount | InvalidSlashRateBps
| BatchAlreadyCommitted | BatchNotFound | BatchNotPending
| ChallengeWindowNotElapsed | ChallengeWindowElapsed
| ReceiptAlreadyInvalidated | InvalidMerkleProof | ConflictingBatchNotCommitted
| VerifierNotConfigured | CallerNotRequester | ReceiptNotExpired
| MalformedReasonNotImplemented | ChallengeNotProven (reason : ReasonCode)
| InsufficientGasForSlash | EscrowPoolNotConfigured
| Panic                            (* checked arithmetic *)
| BadCalldata                      (* abi.decode of malformed bytes *)
| CallFailed.                      (* an external call reverted *)

Inductive tx (A : Type) : Type :=
| Done (a : A)
| Revert (r : revert).
Arguments Done {A} a.
Arguments Revert {A} r.

#[export] Instance tx_ret : MRet tx := fun A a => Done a.
#[export] Instance tx_bind : MBind tx := fun A B f m =>
  match m with Done a => f a | Revert r => Revert r end.

(** [if (c) revert r;] *)
Definition revert_if (c : bool) (r : revert) : tx unit := if c then Revert r else Done tt.

Definition tx_option {A} (r : revert) (o : option A) : tx A :=
  match o with Some a => Done a | None => Revert r end.

Definition UINT256_MAX : Z := 2 ^ 256 - 1.

(** Checked arithmetic of Solidity 0.8, and an explicit narrowing cast. *)
Definition checked_sub (a b : Z) : tx Z := _ ← revert_if (a <? b) Panic; Done (a - b).
Definition checked_add (a b : Z) : tx Z :=
  _ ← revert_if (UINT256_MAX <? a + b) Panic; Done (a + b).
Definition to_uint64 (a : Z) : Z := a mod 2 ^ 64.

(** What a transaction sees of its call and its block. *)
Record Msg : Type := {
  msg_sender : string;
  block_timestamp : Z;
  block_number : Z;
  gas_for_slash : bool             (* [gasleft() >= MIN_SLASH_GAS] when it is asked *)
}.

(** External calls a transaction makes, in order. *)
Inductive ext_call : Type :=
| SlashCall (bond provider challenger : string) (batchId : bytes)
| SettleCall (pool requester provider : string) (value : Z).

(** ** Storage *)

Inductive BatchStatus : Type := PENDING | FINALIZED | VOIDED.

#[export] Instance BatchStatus_eq_dec : EqDecision BatchStatus.
Proof. solve_decision. Defined.

Record Batch : Type := {
  b_provider : string;
  b_requester : string;
  b_merkleRoot : bytes;
  b_receiptCount : Z;
  b_totalValueFTNS : Z;
  b_invalidatedValueFTNS : Z;
  b_commitTimestamp : Z;
  b_status : BatchStatus;
  b_tier_slash_rate_bps : Z;
  b_consensus_group_id : bytes;
  b_lookbackWindowSecondsAtCommit : Z;
  b_totalPausedAtBatchOrigin : Z;
  b_challengeWindowSecondsAtCommit : Z;
  b_escrowPoolAtCommit : string;
  b_stakeBondAtCommit : string;
  b_signatureVerifierAtCommit : string;
  b_metadataURI : string;
  b_attestationCommitment : bytes
}.

Definition zero_address : string := "0x0000000000000000000000000000000000000000".
Definition zero_bytes32 : bytes := replicate 32 x00.

(** The contract's storage.  A batch id absent from [batches] is [NONEXISTENT]. *)
Record Registry : Type := {
  batches : dict bytes Batch;
  invalidatedReceipts : list (bytes * bytes);       (* (batchId, leafHash) *)
  providerBatchSequence : dict string Z;
  lastPendingBatchExpiry : dict string Z;
  lastPendingBatchPausedAtAccrual : dict string Z;
  challengeWindowSeconds : Z;
  settlementLookbackWindowSeconds : Z;
  totalPausedSeconds : Z;
  pauseStartedAt : Z;
  paused : bool;
  escrowPool : string;
  stakeBond : string;
  signatureVerifier : string
}.

Definition set_batches (bs : dict bytes Batch) (r : Registry) : Registry :=
  {| batches := bs; invalidatedReceipts := invalidatedReceipts r;
     providerBatchSequence := providerBatchSequence r;
     lastPendingBatchExpiry := lastPendingBatchExpiry r;
     lastPendingBatchPausedAtAccrual := lastPendingBatchPausedAtAccrual r;
     challengeWindowSeconds := challengeWindowSeconds r;
     settlementLookbackWindowSeconds := settlementLookbackWindowSeconds r;
     totalPausedSeconds := totalPausedSeconds r; pauseStartedAt := pauseStartedAt r;
     paused := paused r; escrowPool := escrowPool r; stakeBond := stakeBond r;
     signatureVerifier := signatureVerifier r |}.

Definition batch_with (status : BatchStatus) (invalidated : Z) (b : Batch) : Batch :=
  {| b_provider := b_provider b; b_requester := b_requester b;
     b_merkleRoot := b_merkleRoot b; b_receiptCount := b_receiptCount b;
     b_totalValueFTNS := b_totalValueFTNS b; b_invalidatedValueFTNS := invalidated;
     b_commitTimestamp := b_commitTimestamp b; b_status := status;
     b_tier_slash_rate_bps := b_tier_slash_rate_bps b;
     b_consensus_group_id := b_consensus_group_id b;
     b_lookbackWindowSecondsAtCommit := b_lookbackWindowSecondsAtCommit b;
     b_totalPausedAtBatchOrigin := b_totalPausedAtBatchOrigin b;
     b_challengeWindowSecondsAtCommit := b_challengeWindowSecondsAtCommit b;
     b_escrowPoolAtCommit := b_escrowPoolAtCommit b;
     b_stakeBondAtCommit := b_stakeBondAtCommit b;
     b_signatureVerifierAtCommit := b_signatureVerifierAtCommit b;
     b_metadataURI := b_metadataURI b;
     b_attestationCommitment := b_attestationCommitment b |}.

(** ** What the contract calls and is called with

    [oz_verify] is OpenZeppelin's [MerkleProof.verify(proof, root, leaf)].
    [verifier_verify] is [ISignatureVerifier(address).verify(messageHash,
    signature, publicKey)], [None] when it reverts; [settles] tells whether
    [IEscrowPool(pool).settleFromRequester(requester, provider, value)] returns.
    The three [aux_encode_*] are [eth_abi.encode] on the argument types of each
    handler, the three [aux_decode_*] the contract's [abi.decode], [None] when it
    reverts. *)
Class ContractEnv : Type := {
  oz_verify : list bytes → bytes → bytes → bool;
  verifier_verify : string → bytes → bytes → bytes → option bool;
  settles : string → string → string → Z → bool;
  aux_encode_double_spend : bytes → list bytes → bytes;
  aux_decode_double_spend : bytes → option (bytes * list bytes);
  aux_encode_signature : bytes → bytes → bytes;
  aux_decode_signature : bytes → option (bytes * bytes);
  aux_encode_consensus : bytes → list bytes → ReceiptLeaf → bytes;
  aux_decode_consensus : bytes → option (bytes * list bytes * ReceiptLeaf)
}.

Definition is32 (b : bytes) : Prop := length b = 32%nat.

(** The documented behaviour: [MerkleProof] folds the proof with the sorted-pair
    keccak hash, and [abi.decode] inverts the ABI encoding of well-typed values. *)
Class ContractLaws `{Externals, ContractEnv} : Prop := {
  oz_verify_spec proof root leaf :
    Forall is32 proof → is32 root → is32 leaf →
    oz_verify proof root leaf = verify_merkle_proof proof root leaf;
  aux_double_spend_roundtrip bid proof :
    is32 bid → Forall is32 proof →
    aux_decode_double_spend (aux_encode_double_spend bid proof) = Some (bid, proof);
  aux_signature_roundtrip pk sg :
    Z.of_nat (length pk) <= UINT256_MAX → Z.of_nat (length sg) <= UINT256_MAX →
    aux_decode_signature (aux_encode_signature pk sg) = Some (pk, sg);
  aux_consensus_roundtrip bid proof leaf :
    is32 bid → Forall is32 proof → leaf_ok leaf →
    aux_decode_consensus (aux_encode_consensus bid proof leaf) = Some (bid, proof, leaf)
}.

Section Contract.
Context `{Externals, ContractEnv}.

(** ** Commit *)

Definition batch_id_of (m : Msg) (requester : string) (merkleRoot : bytes)
    (receiptCount sequence : Z) : bytes :=
  keccak (abi_encode [AbiAddress (msg_sender m); AbiAddress requester; AbiBytes32 merkleRoot;
                      AbiUint 256 receiptCount; AbiUint 256 (block_number m);
                      AbiUint 256 sequence]).

Definition new_batch (r : Registry) (m : Msg) (requester : string) (merkleRoot : bytes)
    (receiptCount totalValueFTNS tierSlashRateBps : Z) (consensusGroupId : bytes)
    (metadataURI : string) (attestationCommitment : bytes) : Batch :=
  {| b_provider := msg_sender m; b_requester := requester; b_merkleRoot := merkleRoot;
     b_receiptCount := receiptCount; b_totalValueFTNS := totalValueFTNS;
     b_invalidatedValueFTNS := 0; b_commitTimestamp := to_uint64 (block_timestamp m);
     b_status := PENDING; b_tier_slash_rate_bps := tierSlashRateBps;
     b_consensus_group_id := consensusGroupId;
     b_lookbackWindowSecondsAtCommit := to_uint64 (settlementLookbackWindowSeconds r);
     b_totalPausedAtBatchOrigin := to_uint64 (totalPausedSeconds r);
     b_challengeWindowSecondsAtCommit := to_uint64 (challengeWindowSeconds r);
     b_escrowPoolAtCommit := escrowPool r; b_stakeBondAtCommit := stakeBond r;
     b_signatureVerifierAtCommit := signatureVerifier r; b_metadataURI := metadataURI;
     b_attestationCommitment := attestationCommitment |}.

Definition commitBatchWithAttestation (m : Msg) (requester : string) (merkleRoot : bytes)
    (receiptCount totalValueFTNS tierSlashRateBps : Z) (consensusGroupId : bytes)
    (metadataURI : string) (attestationCommitment : bytes) (r : Registry)
  : tx (bytes * Registry) :=
  _ ← revert_if (paused r) EnforcedPause;
  _ ← revert_if (bool_decide (requester = zero_address)) ZeroRequester;
  _ ← revert_if (bool_decide (merkleRoot = zero_bytes32)) EmptyMerkleRoot;
  _ ← revert_if (receiptCount =? 0) ZeroReceiptCount;
  _ ← revert_if (10000 <? tierSlashRateBps) InvalidSlashRateBps;
  let sequence := default 0 (dict_get (msg_sender m) (providerBatchSequence r)) in
  next ← checked_add sequence 1;
  let batchId := batch_id_of m requester merkleRoot receiptCount sequence in
  _ ← revert_if (dict_mem batchId (batches r)) BatchAlreadyCommitted;
  let b := new_batch r m requester merkleRoot receiptCount totalValueFTNS tierSlashRateBps
             consensusGroupId metadataURI attestationCommitment in
  expiry ← checked_add (block_timestamp m) (b_challengeWindowSecondsAtCommit b);
  let newExpiry := to_uint64 expiry in
  let later := default 0 (dict_get (msg_sender m) (lastPendingBatchExpiry r)) <? newExpiry in
  Done (batchId,
    {| batches := dict_set batchId b (batches r);
       invalidatedReceipts := invalidatedReceipts r;
       providerBatchSequence := dict_set (msg_sender m) next (providerBatchSequence r);
       lastPendingBatchExpiry :=
         if later then dict_set (msg_sender m) newExpiry (lastPendingBatchExpiry r)
         else lastPendingBatchExpiry r;
       lastPendingBatchPausedAtAccrual :=
         if later then dict_set (msg_sender m) (to_uint64 (totalPausedSeconds r))
                         (lastPendingBatchPausedAtAccrual r)
         else lastPendingBatchPausedAtAccrual r;
       challengeWindowSeconds := challengeWindowSeconds r;
       settlementLookbackWindowSeconds := settlementLookbackWindowSeconds r;
       totalPausedSeconds := totalPausedSeconds r; pauseStartedAt := pauseStartedAt r;
       paused := paused r; escrowPool := escrowPool r; stakeBond := stakeBond r;
       signatureVerifier := signatureVerifier r |}).

(** [_effectiveElapsed]: wall time since the commit less the time paused since. *)
Definition effectiveElapsed (m : Msg) (r : Registry) (b : Batch) : tx Z :=
  wall ← checked_sub (block_timestamp m) (b_commitTimestamp b);
  pausedSinceCommit ← checked_sub (totalPausedSeconds r) (b_totalPausedAtBatchOrigin b);
  Done (if pausedSinceCommit <? wall then wall - pausedSinceCommit else 0).

Definition pending_batch (batchId : bytes) (r : Registry) : tx Batch :=
  b ← tx_option BatchNotFound (dict_get batchId (batches r));
  _ ← revert_if (negb (bool_decide (b_status b = PENDING))) BatchNotPending;
  Done b.

(** ** Challenges *)

Definition handleDoubleSpend (r : Registry) (batchId : bytes) (b : Batch) (leafHash aux : bytes)
  : tx bool :=
  args ← tx_option BadCalldata (aux_decode_double_spend aux);
  let '(conflictingBatchId, conflictingProof) := args in
  if bool_decide (conflictingBatchId = batchId) then Done false
  else
    other ← tx_option ConflictingBatchNotCommitted (dict_get conflictingBatchId (batches r));
    if b_commitTimestamp b <=? b_commitTimestamp other then Done false
    else Done (oz_verify conflictingProof (b_merkleRoot other) leafHash).

Definition handleInvalidSignature (leaf : ReceiptLeaf) (aux : bytes) (verifier : string)
  : tx bool :=
  _ ← revert_if (bool_decide (verifier = zero_address)) VerifierNotConfigured;
  args ← tx_option BadCalldata (aux_decode_signature aux);
  let '(publicKey, signature) := args in
  if negb (bool_decide (keccak publicKey = leaf_provider_pubkey_hash leaf)) then Done false
  else if negb (bool_decide (keccak signature = leaf_signature_hash leaf)) then Done false
  else
    valid ← tx_option CallFailed
              (verifier_verify verifier (leaf_signing_message_hash leaf) signature publicKey);
    Done (negb valid).

Definition handleNoEscrow (m : Msg) (b : Batch) : tx bool :=
  _ ← revert_if (negb (bool_decide (msg_sender m = b_requester b))) CallerNotRequester;
  Done true.

Definition handleExpired (m : Msg) (leaf : ReceiptLeaf) (lookback : Z) : tx bool :=
  age ← checked_sub (block_timestamp m) (leaf_executed_at_unix leaf);
  _ ← revert_if (age <=? lookback) ReceiptNotExpired;
  Done true.

Definition handleConsensusMismatch (r : Registry) (batchId : bytes) (b : Batch)
    (leaf : ReceiptLeaf) (aux : bytes) : tx bool :=
  args ← tx_option BadCalldata (aux_decode_consensus aux);
  let '(conflictingBatchId, majorityProof, majorityLeaf) := args in
  if bool_decide (conflictingBatchId = batchId) then Done false
  else if bool_decide (b_consensus_group_id b = zero_bytes32) then Done false
  else if negb (bool_decide (leaf_job_id_hash leaf = leaf_job_id_hash majorityLeaf))
  then Done false
  else if negb (leaf_shard_index leaf =? leaf_shard_index majorityLeaf) then Done false
  else if bool_decide (leaf_output_hash leaf = leaf_output_hash majorityLeaf) then Done false
  else
    other ← tx_option ConflictingBatchNotCommitted (dict_get conflictingBatchId (batches r));
    if negb (bool_decide (b_consensus_group_id b = b_consensus_group_id other)) then Done false
    else if bool_decide (b_provider b = b_provider other) then Done false
    else Done (oz_verify majorityProof (b_merkleRoot other) (hash_leaf majorityLeaf)).

Definition challenge_handler (m : Msg) (r : Registry) (batchId : bytes) (b : Batch)
    (leaf : ReceiptLeaf) (reason : ReasonCode) (aux : bytes) : tx bool :=
  match reason with
  | DOUBLE_SPEND => handleDoubleSpend r batchId b (hash_leaf leaf) aux
  | INVALID_SIGNATURE => handleInvalidSignature leaf aux (b_signatureVerifierAtCommit b)
  | NO_ESCROW => handleNoEscrow m b
  | EXPIRED => handleExpired m leaf (b_lookbackWindowSecondsAtCommit b)
  | CONSENSUS_MISMATCH => handleConsensusMismatch r batchId b leaf aux
  | MALFORMED => Revert MalformedReasonNotImplemented
  end.

Definition slashes (reason : ReasonCode) : bool :=
  match reason with
  | DOUBLE_SPEND | INVALID_SIGNATURE | CONSENSUS_MISMATCH => true
  | _ => false
  end.

(** The slash is wrapped in [try/catch]: the registry's storage does not depend
    on whether it succeeds. *)
Definition challengeReceipt (m : Msg) (batchId : bytes) (leaf : ReceiptLeaf)
    (merkleProof : list bytes) (reason : ReasonCode) (aux : bytes) (r : Registry)
  : tx (Registry * list ext_call) :=
  _ ← revert_if (paused r) EnforcedPause;
  b ← pending_batch batchId r;
  elapsed ← effectiveElapsed m r b;
  _ ← revert_if (b_challengeWindowSecondsAtCommit b <=? elapsed) ChallengeWindowElapsed;
  let leafHash := hash_leaf leaf in
  _ ← revert_if (bool_decide ((batchId, leafHash) ∈ invalidatedReceipts r))
        ReceiptAlreadyInvalidated;
  _ ← revert_if (negb (oz_verify merkleProof (b_merkleRoot b) leafHash)) InvalidMerkleProof;
  proven ← challenge_handler m r batchId b leaf reason aux;
  _ ← revert_if (negb proven) (ChallengeNotProven reason);
  invalidated ← checked_add (b_invalidatedValueFTNS b) (leaf_value_ftns leaf);
  let slash := negb (bool_decide (b_stakeBondAtCommit b = zero_address)) && slashes reason in
  _ ← revert_if (slash && negb (gas_for_slash m)) InsufficientGasForSlash;
  Done ({| batches := dict_set batchId (batch_with (b_status b) invalidated b) (batches r);
           invalidatedReceipts := (batchId, leafHash) :: invalidatedReceipts r;
           providerBatchSequence := providerBatchSequence r;
           lastPendingBatchExpiry := lastPendingBatchExpiry r;
           lastPendingBatchPausedAtAccrual := lastPendingBatchPausedAtAccrual r;
           challengeWindowSeconds := challengeWindowSeconds r;
           settlementLookbackWindowSeconds := settlementLookbackWindowSeconds r;
           totalPausedSeconds := totalPausedSeconds r; pauseStartedAt := pauseStartedAt r;
           paused := paused r; escrowPool := escrowPool r; stakeBond := stakeBond r;
           signatureVerifier := signatureVerifier r |},
        if slash then [SlashCall (b_stakeBondAtCommit b) (b_provider b) (msg_sender m) batchId]
        else []).

(** ** Finalize *)

Definition finalizeBatch (m : Msg) (batchId : bytes) (r : Registry)
  : tx (Registry * list ext_call) :=
  _ ← revert_if (paused r) EnforcedPause;
  b ← pending_batch batchId r;
  elapsed ← effectiveElapsed m r b;
  _ ← revert_if (elapsed <? b_challengeWindowSecondsAtCommit b) ChallengeWindowNotElapsed;
  finalValue ← checked_sub (b_totalValueFTNS b) (b_invalidatedValueFTNS b);
  let r' := set_batches (dict_set batchId (batch_with FINALIZED (b_invalidatedValueFTNS b) b)
                           (batches r)) r in
  if 0 <? finalValue then
    _ ← revert_if (bool_decide (b_escrowPoolAtCommit b = zero_address)) EscrowPoolNotConfigured;
    _ ← revert_if (negb (settles (b_escrowPoolAtCommit b) (b_requester b) (b_provider b)
                           finalValue)) CallFailed;
    Done (r', [SettleCall (b_escrowPoolAtCommit b) (b_requester b) (b_provider b) finalValue])
  else Done (r', []).

(** What must hold for a challenge whose handler proves it to be accepted. *)
Definition challengeable (m : Msg) (r : Registry) (batchId : bytes) (b : Batch)
    (leaf : ReceiptLeaf) (reason : ReasonCode) : Prop :=
  paused r = false ∧ dict_get batchId (batches r) = Some b ∧ b_status b = PENDING ∧
  (∃ elapsed, (effectiveElapsed m r b = Done elapsed) ∧
     elapsed < b_challengeWindowSecondsAtCommit b) ∧
  ¬ ((batchId, hash_leaf leaf) ∈ invalidatedReceipts r) ∧
  b_invalidatedValueFTNS b + leaf_value_ftns leaf <= UINT256_MAX ∧
  (slashes reason = true → gas_for_slash m = true).

(** The transaction goes through and the leaf is invalidated. *)
Definition accepted (o : tx (Registry * list ext_call)) (batchId leafHash : bytes) : Prop :=
  ∃ r' calls, o = Done (r', calls) ∧ (batchId, leafHash) ∈ invalidatedReceipts r'.

(** ** Lemmas *)

#[local] Arguments effectiveElapsed : simpl never.
#[local] Arguments UINT256_MAX : simpl never.
#[local] Arguments challenge_handler : simpl never.

Lemma challenge_to_handler m r batchId b leaf proof reason aux :
  challengeable m r batchId b leaf reason →
  oz_verify proof (b_merkleRoot b) (hash_leaf leaf) = true →
  (challenge_handler m r batchId b leaf reason aux = Done true →
   accepted (challengeReceipt m batchId leaf proof reason aux r) batchId (hash_leaf leaf)) ∧
  (challenge_handler m r batchId b leaf reason aux = Done false →
   challengeReceipt m batchId leaf proof reason aux r = Revert (ChallengeNotProven reason)).
Proof.
  intros (Hp & Hb & Hst & (el & Hel & Hlt) & Hinv & Hsum & Hgas) Hv.
  unfold accepted, challengeReceipt, pending_batch, checked_add.
  rewrite Hp, Hb. simpl. rewrite Hst. simpl. rewrite Hel. simpl.
  replace (b_challengeWindowSecondsAtCommit b <=? el) with false by lia. simpl.
  rewrite (bool_decide_eq_false_2 _ Hinv). simpl. rewrite Hv. simpl.
  split; intros ->; simpl; [|done].
  replace (UINT256_MAX <? _) with false by lia. simpl.
  destruct (slashes reason).
  - rewrite (Hgas eq_refl), andb_false_r. simpl. eexists _, _. split; [done|]. by left.
  - rewrite andb_false_r. simpl. eexists _, _. split; [done|]. by left.
Qed.
End Contract.

(** * The settlement contract over its history

    Registry.v as a transition system: any sequence of commits, challenges and
    finalizations, by anyone and at any time, with the owner changing the
    configuration or pausing in between.  A batch is paid once, and what it pays
    is its committed value less the challenged leaves. *)

#[local] Open Scope string_scope.
#[local] Open Scope list_scope.
#[local] Open Scope Z_scope.

#[local] Arguments UINT256_MAX : simpl never.
#[local] Arguments effectiveElapsed : simpl never.
#[local] Arguments challenge_handler : simpl never.

(** What an observer of the contract logs. *)
Inductive event : Type :=
| Challenged (batchId leafHash : bytes) (value : Z)
| Finalized (batchId : bytes) (calls : list ext_call).

Definition challenged_leaf (e : event) : option (bytes * bytes) :=
  match e with Challenged bid h _ => Some (bid, h) | _ => None end.
Definition challenged_value (batchId : bytes) (e : event) : option Z :=
  match e with Challenged bid _ v => if bool_decide (bid = batchId) then Some v else None | _ => None end.
Definition finalized_id (e : event) : option bytes :=
  match e with Finalized bid _ => Some bid | _ => None end.

(** The values challenged off a batch. *)
Definition challenged_sum (batchId : bytes) (evs : list event) : Z :=
  Zsum (omap (challenged_value batchId) evs).

Section History.
Context `{Externals, ContractEnv}.

(** One transaction that goes through.  The owner's functions (the setters,
    [pause], [unpause]) touch neither table. *)
Inductive registry_step : Registry * list event → Registry * list event → Prop :=
| step_commit m requester root n value slash group uri att bid r r' evs :
    commitBatchWithAttestation m requester root n value slash group uri att r = Done (bid, r') →
    registry_step (r, evs) (r', evs)
| step_challenge m bid leaf proof reason aux r r' calls evs :
    challengeReceipt m bid leaf proof reason aux r = Done (r', calls) →
    registry_step (r, evs) (r', evs ++ [Challenged bid (hash_leaf leaf) (leaf_value_ftns leaf)])
| step_finalize m bid r r' calls evs :
    finalizeBatch m bid r = Done (r', calls) →
    registry_step (r, evs) (r', evs ++ [Finalized bid calls])
| step_owner r r' evs :
    batches r' = batches r → invalidatedReceipts r' = invalidatedReceipts r →
    registry_step (r, evs) (r', evs).

(** The transfers of a batch that [paid] is due for. *)
Definition transfers (b : Batch) (paid : Z) : list ext_call :=
  if 0 <? paid then [SettleCall (b_escrowPoolAtCommit b) (b_requester b) (b_provider b) paid] else [].

Record registry_inv (r : Registry) (evs : list event) : Prop := {
  ri_wf : dict_wf (batches r);
  ri_sum : ∀ bid b, dict_get bid (batches r) = Some b → b_invalidatedValueFTNS b = challenged_sum bid evs;
  ri_known : ∀ bid h v, Challenged bid h v ∈ evs → is_Some (dict_get bid (batches r));
  ri_leaves : NoDup (omap challenged_leaf evs) ∧ ∀ l, l ∈ omap challenged_leaf evs → l ∈ invalidatedReceipts r;
  ri_once : NoDup (omap finalized_id evs);
  ri_paid : ∀ bid calls, Finalized bid calls ∈ evs →
    ∃ b, dict_get bid (batches r) = Some b ∧ b_status b = FINALIZED ∧
         b_invalidatedValueFTNS b <= b_totalValueFTNS b ∧
         calls = transfers b (b_totalValueFTNS b - b_invalidatedValueFTNS b)
}.

Lemma challenged_sum_snoc bid evs e :
  challenged_sum bid (evs ++ [e]) = challenged_sum bid evs + default 0 (challenged_value bid e).
Proof.
  unfold challenged_sum. rewrite omap_app, Zsum_app. f_equal. simpl.
  destruct (challenged_value bid e); simpl; rewrite ?Zsum_cons, Zsum_nil; lia.
Qed.

Lemma challenged_sum_none bid evs :
  (∀ h v, ¬ Challenged bid h v ∈ evs) → challenged_sum bid evs = 0.
Proof.
  unfold challenged_sum. induction evs as [|e evs IH]; intros Hn; [done|]. simpl.
  destruct (challenged_value bid e) as [v|] eqn:E; [|apply IH; intros h v Hv; apply (Hn h v); by right].
  destruct e as [bid' h v'|]; [|done]. simpl in E. case_bool_decide; [|done]. subst.
  exfalso. apply (Hn h v'). by left.
Qed.

(** A transaction that goes through went through every guard. *)
Lemma tx_bind_Done {A B} (m : tx A) (f : A → tx B) b :
  (m ≫= f) = Done b → ∃ a, m = Done a ∧ f a = Done b.
Proof. destruct m; simpl; [eauto | done]. Qed.

Lemma revert_if_Done c e u : revert_if c e = Done u → c = false.
Proof. by destruct c. Qed.

Lemma pending_batch_Done bid r b :
  pending_batch bid r = Done b → dict_get bid (batches r) = Some b ∧ b_status b = PENDING.
Proof.
  unfold pending_batch. destruct (dict_get bid (batches r)) as [b'|]; [|done]. simpl.
  case_bool_decide; [|done]. simpl. intros [= ->]. done.
Qed.

Lemma commit_Done m requester root n value slash group uri att r bid r' :
  commitBatchWithAttestation m requester root n value slash group uri att r = Done (bid, r') →
  dict_get bid (batches r) = None ∧ invalidatedReceipts r' = invalidatedReceipts r ∧
  ∃ b, batches r' = dict_set bid b (batches r) ∧ b_invalidatedValueFTNS b = 0 ∧ b_status b = PENDING.
Proof.
  intros Hc. unfold commitBatchWithAttestation in Hc.
  repeat (apply tx_bind_Done in Hc as (? & ?%revert_if_Done & Hc)). cbv zeta in Hc.
  apply tx_bind_Done in Hc as (next & _ & Hc). apply tx_bind_Done in Hc as (u & Hmem%revert_if_Done & Hc).
  apply tx_bind_Done in Hc as (ex & _ & Hc). injection Hc as <- <-.
  split; [by apply dict_mem_false|]. split; [done|]. eexists. by split_and!.
Qed.

Lemma challenge_Done m bid leaf proof reason aux r r' calls :
  challengeReceipt m bid leaf proof reason aux r = Done (r', calls) →
  ∃ b, dict_get bid (batches r) = Some b ∧ b_status b = PENDING ∧
    ¬ (bid, hash_leaf leaf) ∈ invalidatedReceipts r ∧
    batches r' = dict_set bid (batch_with PENDING (b_invalidatedValueFTNS b + leaf_value_ftns leaf) b) (batches r) ∧
    invalidatedReceipts r' = (bid, hash_leaf leaf) :: invalidatedReceipts r.
Proof.
  intros Hc. unfold challengeReceipt in Hc. apply tx_bind_Done in Hc as (? & _ & Hc).
  apply tx_bind_Done in Hc as (b & [Hb Hs]%pending_batch_Done & Hc). exists b.
  apply tx_bind_Done in Hc as (? & _ & Hc). apply tx_bind_Done in Hc as (? & _ & Hc). cbv zeta in Hc.
  apply tx_bind_Done in Hc as (? & Hn%revert_if_Done & Hc).
  do 3 (apply tx_bind_Done in Hc as (? & _ & Hc)).
  apply tx_bind_Done in Hc as (inv & Hadd & Hc). apply tx_bind_Done in Hc as (? & _ & Hc).
  unfold checked_add in Hadd. apply tx_bind_Done in Hadd as (? & _ & [= <-]). injection Hc as <- _.
  rewrite Hs. by apply bool_decide_eq_false in Hn.
Qed.

Lemma finalize_Done m bid r r' calls :
  finalizeBatch m bid r = Done (r', calls) →
  ∃ b, dict_get bid (batches r) = Some b ∧ b_status b = PENDING ∧
    b_invalidatedValueFTNS b <= b_totalValueFTNS b ∧
    calls = transfers b (b_totalValueFTNS b - b_invalidatedValueFTNS b) ∧
    batches r' = dict_set bid (batch_with FINALIZED (b_invalidatedValueFTNS b) b) (batches r) ∧
    invalidatedReceipts r' = invalidatedReceipts r.
Proof.
  intros Hc. unfold finalizeBatch in Hc. apply tx_bind_Done in Hc as (? & _ & Hc).
  apply tx_bind_Done in Hc as (b & [Hb Hs]%pending_batch_Done & Hc). exists b.
  do 2 (apply tx_bind_Done in Hc as (? & _ & Hc)).
  apply tx_bind_Done in Hc as (fv & Hsub & Hc). unfold checked_sub in Hsub.
  apply tx_bind_Done in Hsub as (? & Hle%revert_if_Done & [= <-]). cbv zeta in Hc. unfold transfers.
  destruct (0 <? _); [do 2 (apply tx_bind_Done in Hc as (? & _ & Hc))|];
    injection Hc as <- <-; split_and!; try done; lia.
Qed.

Lemma finalized_pending r evs bid b :
  registry_inv r evs → dict_get bid (batches r) = Some b → b_status b = PENDING →
  bid ∉ omap finalized_id evs.
Proof.
  intros Hi Hb Hs ([] & Hin & [= ->])%list_elem_of_omap.
  destruct (ri_paid _ _ Hi _ _ Hin) as (b' & Hb' & Hs' & _). congruence.
Qed.

Lemma paid_kept r r' evs bid b' b :
  registry_inv r evs → dict_get bid (batches r) = b' → default PENDING (b_status <$> b') = PENDING →
  batches r' = dict_set bid b (batches r) →
  ∀ bid' calls, Finalized bid' calls ∈ evs → dict_get bid' (batches r') = dict_get bid' (batches r).
Proof.
  intros Hi Hb Hs Hr' bid' calls Hin. rewrite Hr', dict_get_set_ne; [done|]. intros ->.
  destruct (ri_paid _ _ Hi _ _ Hin) as (b0 & Hb0 & Hs0 & _). rewrite Hb0 in Hb. subst. simpl in Hs. congruence.
Qed.

Lemma commit_inv m requester root n value slash group uri att bid r r' evs :
  registry_inv r evs →
  commitBatchWithAttestation m requester root n value slash group uri att r = Done (bid, r') →
  registry_inv r' evs.
Proof.
  intros Hi (Hnew & Hv & b & Hbs & Hz & Hst)%commit_Done.
  pose proof Hi as [Hwf Hsum Hknown Hleaves Honce Hpaid].
  split; [rewrite Hbs; by apply dict_wf_set | | | by rewrite Hv | done |].
  - intros bid' b' Hg. rewrite Hbs in Hg. destruct (decide (bid = bid')) as [->|Hne].
    + rewrite dict_get_set_eq in Hg. simplify_eq. rewrite Hz, challenged_sum_none; [done|].
      intros h v Hin. apply Hknown in Hin as [x Hx]. congruence.
    + rewrite dict_get_set_ne in Hg by done. auto.
  - intros bid' h v [x Hx]%Hknown. rewrite Hbs, dict_get_set. case_decide; eauto.
  - intros bid' calls Hin. rewrite (paid_kept _ _ _ _ _ _ Hi Hnew eq_refl Hbs _ _ Hin). eauto.
Qed.

Lemma challenge_inv m bid leaf proof reason aux r r' calls evs :
  registry_inv r evs →
  challengeReceipt m bid leaf proof reason aux r = Done (r', calls) →
  registry_inv r' (evs ++ [Challenged bid (hash_leaf leaf) (leaf_value_ftns leaf)]).
Proof.
  intros Hi (b & Hb & Hst & Hn & Hbs & Hv)%challenge_Done.
  pose proof Hi as [Hwf Hsum Hknown [Hnd Hleaves] Honce Hpaid].
  split; [rewrite Hbs; by apply dict_wf_set | | | | |].
  - intros bid' b' Hg. rewrite Hbs in Hg. rewrite challenged_sum_snoc. simpl.
    destruct (decide (bid = bid')) as [->|Hne].
    + rewrite dict_get_set_eq in Hg. simplify_eq. rewrite bool_decide_true by done. simpl.
      by rewrite (Hsum _ _ Hb).
    + rewrite dict_get_set_ne in Hg by done. rewrite bool_decide_false by done. simpl.
      rewrite (Hsum _ _ Hg). lia.
  - intros bid' h v Hin. rewrite Hbs, dict_get_set. case_decide; [eauto|].
    apply elem_of_app in Hin as [Hin|[=]%list_elem_of_singleton]; [by eapply Hknown | congruence].
  - rewrite omap_app, Hv. simpl. split.
    + apply NoDup_app. split_and!; [done| |apply NoDup_singleton].
      intros l Hl ->%list_elem_of_singleton. by apply Hn, Hleaves.
    + intros l [Hl| ->%list_elem_of_singleton]%elem_of_app; [right; auto | by left].
  - rewrite omap_app. simpl. by rewrite app_nil_r.
  - intros bid' calls' Hin. apply elem_of_app in Hin as [Hin|[=]%list_elem_of_singleton].
    rewrite (paid_kept r r' evs bid (Some b) _ Hi Hb Hst Hbs _ _ Hin). auto.
Qed.

Lemma finalize_inv m bid r r' calls evs :
  registry_inv r evs → finalizeBatch m bid r = Done (r', calls) →
  registry_inv r' (evs ++ [Finalized bid calls]).
Proof.
  intros Hi (b & Hb & Hst & Hle & -> & Hbs & Hv)%finalize_Done.
  pose proof Hi as [Hwf Hsum Hknown Hleaves Honce Hpaid].
  split; [rewrite Hbs; by apply dict_wf_set | | | | |].
  - intros bid' b' Hg. rewrite Hbs in Hg. rewrite challenged_sum_snoc. simpl. rewrite Z.add_0_r.
    destruct (decide (bid = bid')) as [->|Hne].
    + rewrite dict_get_set_eq in Hg. simplify_eq. simpl. auto.
    + rewrite dict_get_set_ne in Hg by done. auto.
  - intros bid' h v Hin. rewrite Hbs, dict_get_set. case_decide; [eauto|].
    apply elem_of_app in Hin as [Hin|[=]%list_elem_of_singleton]. by eapply Hknown.
  - rewrite omap_app, Hv. simpl. by rewrite app_nil_r.
  - rewrite omap_app. simpl. apply NoDup_app. split_and!; [done| |apply NoDup_singleton].
    intros x Hx ->%list_elem_of_singleton. by eapply finalized_pending.
  - intros bid' calls' Hin. apply elem_of_app in Hin as [Hin|[= -> ->]%list_elem_of_singleton].
    + rewrite (paid_kept r r' evs bid (Some b) _ Hi Hb Hst Hbs _ _ Hin). auto.
    + rewrite Hbs, dict_get_set_eq. eexists. by split_and!.
Qed.

Lemma registry_step_inv r evs r' evs' :
  registry_inv r evs → registry_step (r, evs) (r', evs') → registry_inv r' evs'.
Proof.
  intros Hi Hstep. inversion Hstep as [| | |? ? ? Hb Hv]; subst.
  - by eapply commit_inv.
  - by eapply challenge_inv.
  - by eapply finalize_inv.
  - destruct Hi. split; rewrite ?Hb, ?Hv; auto.
Qed.

(** C7 The contract pays a batch once, and exactly what was not challenged off
    it.  Over every history of the contract from an empty table, whoever calls it
    and however its configuration changes in between: each batch is finalized at
    most once, each leaf of a batch is challenged at most once, and a finalized
    batch has transferred its committed value less the values of its challenged
    leaves, from its requester to its provider through the pool recorded at its
    commit, and nothing when that is zero; that
    amount is never negative. *)
Theorem registry_pays_once r0 r evs :
  batches r0 = [] → rtc registry_step (r0, []) (r, evs) →
  NoDup (omap finalized_id evs) ∧ NoDup (omap challenged_leaf evs) ∧
  ∀ bid calls, Finalized bid calls ∈ evs →
    ∃ b, dict_get bid (batches r) = Some b ∧ b_status b = FINALIZED ∧
         challenged_sum bid evs <= b_totalValueFTNS b ∧
         calls = transfers b (b_totalValueFTNS b - challenged_sum bid evs).
Proof.
  intros Hempty Hr. assert (registry_inv r evs) as Hi.
  { remember (r0, []) as x eqn:Hx. remember (r, evs) as y eqn:Hy.
    assert (registry_inv x.1 x.2) as Hxi.
    { subst. split; simpl; rewrite ?Hempty; try done.
      - constructor.
      - intros bid h v Hin. by apply not_elem_of_nil in Hin.
      - split; [constructor|]. intros l Hl. by apply not_elem_of_nil in Hl.
      - constructor.
      - intros bid calls Hin. by apply not_elem_of_nil in Hin. }
    assert (registry_inv y.1 y.2) as Hyi; [|by subst]. clear -Hr Hxi.
    induction Hr as [x|[r1 e1] [r2 e2] y Hs _ IH]; [done|]. apply IH. by eapply registry_step_inv. }
  split_and!; [apply Hi | apply Hi |]. intros bid calls Hin.
  destruct (ri_paid _ _ Hi _ _ Hin) as (b & Hb & Hs & Hle & ->). exists b.
  rewrite <-(ri_sum _ _ Hi _ _ Hb). by split_and!.
Qed.
End History.
