(* ===== verification/Grouping.v ===== *)
(** * Sorting and grouping by key

    The detectors sort their findings by tuple keys and group committed leaves in
    a dict of lists.  A tuple key is a lexicographic combination of preorders; the
    classes below find the laws [sorted] needs by instance search.  [group] is
    the loop [d.setdefault(k, []).append(v)]. *)
From Stdlib Require Import ZArith Lia.
From S2P Require Import PyStd.
From S2P Require Import Prelude.

#[local] Open Scope list_scope.
#[local] Open Scope Z_scope.

(** ** Tuple keys *)

Class TotalLeb {A} (le : A → A → bool) : Prop := {
  leb_total x y : le x y = true ∨ le y x = true;
  leb_trans x y z : le x y = true → le y z = true → le x z = true
}.

(** Compare by a key; compare by [le1], then by [le2]. *)
Definition key_leb {A K} (f : A → K) (le : K → K → bool) (x y : A) : bool := le (f x) (f y).
Definition lex {A} (le1 le2 : A → A → bool) (x y : A) : bool :=
  le1 x y && (negb (le1 y x) || le2 x y).

Lemma bytes_leb_spec a b : bytes_leb a b = true ↔ bytes_ltb a b = true ∨ a = b.
Proof.
  unfold bytes_leb. rewrite negb_true_iff. split.
  - intros Hn. destruct (bytes_ltb_total a b) as [?|[->|?]]; auto; congruence.
  - intros [Hlt| ->]; [|apply bytes_ltb_irrefl].
    destruct (bytes_ltb b a) eqn:E; [|done].
    pose proof (bytes_ltb_trans _ _ _ Hlt E) as Hc. by rewrite bytes_ltb_irrefl in Hc.
Qed.

#[export] Instance bytes_leb_order : TotalLeb bytes_leb.
Proof. split; [apply bytes_leb_total | apply bytes_leb_trans]. Qed.

#[export] Instance string_leb_order : TotalLeb string_leb.
Proof. split; [apply string_leb_total | apply string_leb_trans]. Qed.

#[export] Instance Z_leb_order : TotalLeb Z.leb.
Proof. split; intros; lia. Qed.

#[export] Instance bool_leb_order : TotalLeb implb.
Proof. split; [intros [] [] | intros [] [] []]; simpl; auto. Qed.

#[export] Instance key_leb_order {A K} (f : A → K) le : TotalLeb le → TotalLeb (key_leb f le).
Proof. intros []. by split; unfold key_leb; eauto. Qed.

#[export] Instance lex_order {A} (le1 le2 : A → A → bool) :
  TotalLeb le1 → TotalLeb le2 → TotalLeb (lex le1 le2).
Proof.
  intros [T1 R1] [T2 R2]. unfold lex. split.
  - intros x y. destruct (le1 x y) eqn:E1, (le1 y x) eqn:E2; simpl; auto.
    destruct (T1 x y); congruence.
  - intros x y z [Hxy Hxy2]%andb_true_iff [Hyz Hyz2]%andb_true_iff.
    apply andb_true_iff. split; [by eapply R1|].
    apply orb_true_iff. apply orb_true_iff in Hxy2, Hyz2.
    destruct (le1 z x) eqn:E; simpl; [right | by left].
    rewrite (R1 y z x Hyz E) in Hxy2. rewrite (R1 z x y E Hxy) in Hyz2. simpl in *.
    destruct Hxy2, Hyz2; try done. by eapply R2.
Qed.

Lemma sort_sorted {A} (le : A → A → bool) `{!TotalLeb le} l : sorted_by le (sort_by le l).
Proof. apply sort_by_sorted; [apply leb_total | apply leb_trans]. Qed.

(** Sorting by a key without ties is strict. *)
Lemma sort_by_key_strict {A} (f : A → bytes) l :
  NoDup (f <$> l) →
  StronglySorted (λ x y, bytes_ltb x y = true) (f <$> sort_by (key_leb f bytes_leb) l).
Proof.
  intros Hnd. pose proof (sort_sorted (key_leb f bytes_leb) l) as Hs.
  rewrite <-(sort_by_perm (key_leb f bytes_leb) l) in Hnd.
  induction Hs as [|x l' Hs IH Hx]; simpl in *; [constructor|].
  apply NoDup_cons in Hnd as [Hn Hnd]. constructor; [auto|].
  apply Forall_fmap, Forall_forall. intros y Hy. rewrite Forall_forall in Hx.
  pose proof (Hx y Hy) as [?|Heq]%bytes_leb_spec; [done|].
  exfalso. apply Hn. rewrite Heq. by apply list_elem_of_fmap_2.
Qed.

(** ** Grouping *)

Section Group.
Context {K V : Type} `{!EqDecision K}.
Implicit Types (d : dict K (list V)) (l : list (K * V)).

(** [d.setdefault(k, []).append(v)] *)
Definition dict_append (k : K) (v : V) d : dict K (list V) :=
  dict_set k (default [] (dict_get k d) ++ [v]) d.

Definition group (l : list (K * V)) : dict K (list V) :=
  fold_left (λ d kv, dict_append kv.1 kv.2 d) l [].

(** The values paired with [k], in order. *)
Definition values_at (k : K) l : list V := (filter (λ kv, kv.1 = k) l).*2.

Lemma elem_values_at k v l : v ∈ values_at k l ↔ (k, v) ∈ l.
Proof.
  unfold values_at. rewrite list_elem_of_fmap. setoid_rewrite list_elem_of_filter. split.
  - by intros ([k' v'] & -> & <- & Hin).
  - intros Hin. by exists (k, v).
Qed.

Lemma values_at_app k l1 l2 : values_at k (l1 ++ l2) = values_at k l1 ++ values_at k l2.
Proof. unfold values_at. by rewrite filter_app, fmap_app. Qed.

Lemma group_snoc l kv : group (l ++ [kv]) = dict_append kv.1 kv.2 (group l).
Proof. unfold group. by rewrite fold_left_app. Qed.

Lemma group_wf l : dict_wf (group l).
Proof.
  induction l as [|kv l IH] using rev_ind; [constructor|].
  rewrite group_snoc. by apply dict_wf_set.
Qed.

Lemma group_get k l :
  dict_get k (group l) = if decide (values_at k l = []) then None else Some (values_at k l).
Proof.
  induction l as [|[k' v] l IH] using rev_ind; [done|].
  rewrite group_snoc, values_at_app. unfold dict_append. simpl. rewrite dict_get_set.
  destruct (decide (k' = k)) as [->|Hne].
  - assert (values_at k [(k, v)] = [v]) as ->.
    { unfold values_at. by rewrite filter_cons_True. }
    rewrite (decide_False (P := _ ++ [v] = [])) by (by intros [_ ?]%app_nil).
    rewrite IH. case_decide as E; simpl; [by rewrite E | done].
  - assert (values_at k [(k', v)] = []) as ->.
    { unfold values_at. by rewrite filter_cons_False. }
    by rewrite app_nil_r.
Qed.

(** What iterating over the items of the dict meets. *)
Lemma elem_group k vs l : (k, vs) ∈ group l ↔ vs = values_at k l ∧ vs ≠ [].
Proof.
  split.
  - intros Hin%elem_dict_get; [|apply group_wf]. rewrite group_get in Hin.
    case_decide; by simplify_eq.
  - intros [-> Hne]. apply dict_get_elem. rewrite group_get. by rewrite decide_False.
Qed.
End Group.
