(* ===== verification/Detectors.v ===== *)
(** * Fraud detectors

    Models prsm/settlement/double_spend_detector.py,
    prsm/settlement/expired_receipt_detector.py and
    prsm/settlement/consensus_mismatch_detector.py: pure functions from committed
    batches to findings.  The batches of the first are given by the fields of
    CommittedBatch the detector reads. *)
From Stdlib Require Import ZArith Lia.
From S2P Require Import PyStd.
From S2P Require Import Externals.
From S2P Require Import Receipt.
From S2P Require Import Merkle.
From S2P Require Import Registry.
From S2P Require Import Grouping.
From S2P Require Import Prelude.

#[local] Open Scope string_scope.
#[local] Open Scope list_scope.
#[local] Open Scope Z_scope.

(** ** Double spends *)

Record LeafBatch : Type := {
  lb_batch_id : bytes;
  lb_provider_address : string;
  lb_leaf_hashes : list bytes
}.

Record LeafOccurrence : Type := {
  occ_batch_id : bytes;
  occ_leaf_index : Z;
  occ_provider_address : string
}.

Record DoubleSpendFinding : Type := {
  ds_leaf_hash : bytes;
  ds_occurrences : list LeafOccurrence;
  ds_on_chain_reason : Z
}.

(** The positions the two nested loops visit, each with its leaf hash. *)
Definition batch_positions (b : LeafBatch) : list (bytes * LeafOccurrence) :=
  (λ ih : Z * bytes,
     (ih.2, {| occ_batch_id := lb_batch_id b; occ_leaf_index := ih.1;
               occ_provider_address := lb_provider_address b |}))
  <$> enumerate (lb_leaf_hashes b).

Definition leaf_positions (batches : list LeafBatch) : list (bytes * LeafOccurrence) :=
  batches ≫= batch_positions.

Definition double_spend_finding (hs : bytes * list LeafOccurrence) : option DoubleSpendFinding :=
  if 2 <=? zlen hs.2
  then Some {| ds_leaf_hash := hs.1; ds_occurrences := hs.2;
               ds_on_chain_reason := reason_int DOUBLE_SPEND |}
  else None.

Definition detect_double_spends (batches : list LeafBatch) : list DoubleSpendFinding :=
  sort_by (key_leb ds_leaf_hash bytes_leb)
    (omap double_spend_finding (group (leaf_positions batches))).

(** ** Expired receipts *)

Record ExpiredBatch : Type := {
  xb_batch_id : bytes;
  xb_receipts : list BatchedReceipt;
  xb_lookback_window_seconds : option Z
}.

Record ExpiredReceiptFinding : Type := {
  ex_batch_id : bytes;
  ex_target_index : Z;
  ex_leaf : ReceiptLeaf;
  ex_age : Z;
  ex_lookback : Z;
  ex_on_chain_reason : Z
}.

(** ** Consensus mismatches *)

Record DetectorBatch : Type := {
  db_batch_id : bytes;
  db_provider_address : string;
  db_consensus_group_id : bytes;
  db_receipts : list BatchedReceipt
}.

Record Side : Type := {
  sd_batch_id : bytes;
  sd_provider : string;
  sd_receipt : BatchedReceipt;
  sd_leaf_index : Z;
  sd_output_hash : bytes
}.

(** (consensus group, job id hash, shard index) *)
Abbreviation slot := (bytes * bytes * Z)%type.

Record ConsensusMismatchFinding : Type := {
  cm_slot : slot;
  cm_minority : Side;
  cm_majority : Side;
  cm_on_chain_reason : Z;
  cm_ambiguous : bool;
  cm_vote_tally : dict string Z
}.

Section Detect.
Context `{Externals}.

(** The body of the inner loop: a receipt whose leaf cannot be built is skipped. *)
Definition expired_at (now threshold lookback : Z) (b : ExpiredBatch) (ibr : Z * BatchedReceipt)
  : option ExpiredReceiptFinding :=
  match batched_receipt_to_leaf ibr.2 with
  | Err _ => None
  | Ok leaf =>
      let age := now - leaf_executed_at_unix leaf in
      if threshold <? age
      then Some {| ex_batch_id := xb_batch_id b; ex_target_index := ibr.1; ex_leaf := leaf;
                   ex_age := age; ex_lookback := lookback;
                   ex_on_chain_reason := reason_int EXPIRED |}
      else None
  end.

Definition expired_in_batch (now margin : Z) (b : ExpiredBatch) : list ExpiredReceiptFinding :=
  let lookback := default 0 (xb_lookback_window_seconds b) in
  if lookback <=? 0 then []
  else omap (expired_at now (lookback + margin) lookback b) (enumerate (xb_receipts b)).

Definition detect_expired_receipts (batches : list ExpiredBatch) (now safety_margin_seconds : Z)
  : list ExpiredReceiptFinding :=
  sort_by (lex (key_leb ex_batch_id bytes_leb) (key_leb ex_target_index Z.leb))
    (batches ≫= expired_in_batch now safety_margin_seconds).

(** The candidate sides of one batch, each with its slot.  A batch outside every
    consensus group has none, a receipt whose leaf cannot be built is skipped. *)
Definition side_of (b : DetectorBatch) (ibr : Z * BatchedReceipt) : option (slot * Side) :=
  match batched_receipt_to_leaf ibr.2 with
  | Err _ => None
  | Ok leaf =>
      Some ((db_consensus_group_id b, leaf_job_id_hash leaf, leaf_shard_index leaf),
            {| sd_batch_id := db_batch_id b; sd_provider := db_provider_address b;
               sd_receipt := ibr.2; sd_leaf_index := ibr.1;
               sd_output_hash := leaf_output_hash leaf |})
  end.

Definition batch_sides (b : DetectorBatch) : list (slot * Side) :=
  if bool_decide (db_consensus_group_id b = zero32) then []
  else omap (side_of b) (enumerate (db_receipts b)).

Definition all_sides (batches : list DetectorBatch) : list (slot * Side) :=
  batches ≫= batch_sides.
End Detect.

(** [s.setdefault(k, set()).add(v)] over the sides: who committed each output. *)
Definition providers_by_output (sides : list Side) : dict bytes (list string) :=
  fold_left (λ d s, dict_set (sd_output_hash s)
                      (set_add (sd_provider s) (default [] (dict_get (sd_output_hash s) d))) d)
            sides [].

Definition distinct_providers (sides : list Side) : list string :=
  fold_left (λ ps s, set_add (sd_provider s) ps) sides [].

(** [next((out for out, provs in ... if len(provs) * 2 > n_providers), None)] *)
Definition majority_output (sides : list Side) : option bytes :=
  fst <$> head (filter (λ op : bytes * list string,
                          zlen (distinct_providers sides) < zlen op.2 * 2)
                       (providers_by_output sides)).

Definition side_leb : Side → Side → bool :=
  lex (key_leb sd_batch_id bytes_leb)
      (lex (key_leb sd_provider string_leb) (key_leb sd_leaf_index Z.leb)).

Definition make_finding (k : slot) (tally : dict string Z) (ambiguous : bool)
    (minority majority : Side) : ConsensusMismatchFinding :=
  {| cm_slot := k; cm_minority := minority; cm_majority := majority;
     cm_on_chain_reason := reason_int CONSENSUS_MISMATCH; cm_ambiguous := ambiguous;
     cm_vote_tally := tally |}.

(** [s] can be challenged with [m]: another provider, another batch. *)
Definition opposes (s m : Side) : Prop :=
  sd_provider m ≠ sd_provider s ∧ sd_batch_id m ≠ sd_batch_id s.
#[export] Instance opposes_dec s m : Decision (opposes s m).
Proof. unfold opposes. apply _. Defined.

Definition majority_finding (k : slot) (tally : dict string Z) (out : bytes)
    (ordered : list Side) (s : Side) : option ConsensusMismatchFinding :=
  if bool_decide (sd_output_hash s = out) then None
  else make_finding k tally false s <$>
         head (filter (opposes s) (filter (λ m, sd_output_hash m = out) ordered)).

(** The pairs [(ordered[i], ordered[j])] with [i < j]. *)
Fixpoint pairs {A} (l : list A) : list (A * A) :=
  match l with
  | [] => []
  | x :: l' => (pair x <$> l') ++ pairs l'
  end.

Definition ambiguous_finding (k : slot) (tally : dict string Z) (p : Side * Side)
  : option ConsensusMismatchFinding :=
  let '(lo, hi) := p in
  if bool_decide (sd_batch_id lo = sd_batch_id hi) then None
  else if bool_decide (sd_provider lo = sd_provider hi) then None
  else if bool_decide (sd_output_hash lo = sd_output_hash hi) then None
  else Some (make_finding k tally true lo hi).

Definition slot_findings (ks : slot * list Side) : list ConsensusMismatchFinding :=
  let '(k, sides) := ks in
  if zlen sides <? 2 then []
  else
    let outputs := providers_by_output sides in
    if zlen outputs <? 2 then []
    else
      let tally := (λ op : bytes * list string, (hex op.1, zlen op.2)) <$> outputs in
      let ordered := sort_by side_leb sides in
      match majority_output sides with
      | Some out => omap (majority_finding k tally out ordered) ordered
      | None => omap (ambiguous_finding k tally) (pairs ordered)
      end.

Definition finding_leb : ConsensusMismatchFinding → ConsensusMismatchFinding → bool :=
  lex (key_leb (λ f, (cm_slot f).1.1) bytes_leb)
  (lex (key_leb (λ f, (cm_slot f).1.2) bytes_leb)
  (lex (key_leb (λ f, (cm_slot f).2) Z.leb)
  (lex (key_leb cm_ambiguous implb)
  (lex (key_leb (λ f, sd_batch_id (cm_minority f)) bytes_leb)
       (key_leb (λ f, sd_batch_id (cm_majority f)) bytes_leb))))).

Definition detect_consensus_mismatches `{Externals} (batches : list DetectorBatch)
  : list ConsensusMismatchFinding :=
  sort_by finding_leb (group (all_sides batches) ≫= slot_findings).

(** * What the detectors find

    Each detector reports exactly the leaves its on-chain condition singles out,
    sorted. *)

#[local] Open Scope string_scope.
#[local] Open Scope list_scope.
#[local] Open Scope Z_scope.

(** ** Lemmas: positions *)

Lemma elem_batch_positions b h o :
  (h, o) ∈ batch_positions b ↔
  ∃ i : nat, lb_leaf_hashes b !! i = Some h ∧
    o = {| occ_batch_id := lb_batch_id b; occ_leaf_index := Z.of_nat i;
           occ_provider_address := lb_provider_address b |}.
Proof.
  unfold batch_positions. rewrite list_elem_of_fmap. split.
  - intros ([j h'] & Heq & (i & -> & Hi)%elem_of_enumerate). simplify_eq/=. eauto.
  - intros (i & Hi & ->). exists (Z.of_nat i, h). split; [done|].
    apply elem_of_enumerate. eauto.
Qed.

Lemma elem_leaf_positions batches h o :
  (h, o) ∈ leaf_positions batches ↔
  ∃ b (i : nat), b ∈ batches ∧ lb_leaf_hashes b !! i = Some h ∧
    o = {| occ_batch_id := lb_batch_id b; occ_leaf_index := Z.of_nat i;
           occ_provider_address := lb_provider_address b |}.
Proof.
  unfold leaf_positions. rewrite list_elem_of_bind.
  setoid_rewrite elem_batch_positions. naive_solver.
Qed.

Lemma enumerate_fst_NoDup {A} (l : list A) : NoDup (enumerate l).*1.
Proof.
  unfold enumerate, enumerate_from. rewrite fmap_imap. apply NoDup_alt.
  intros i j x. rewrite !list_lookup_imap. destruct (l !! i), (l !! j); simpl; intros; simplify_eq/=; lia.
Qed.

(** With distinct batch ids no position is visited twice. *)
Lemma leaf_positions_NoDup batches :
  NoDup (lb_batch_id <$> batches) → NoDup (leaf_positions batches).*2.
Proof.
  induction batches as [|b batches IH]; simpl; [constructor|].
  intros [Hn Hnd]%NoDup_cons. unfold leaf_positions. simpl. rewrite fmap_app.
  apply NoDup_app. split_and!; [| |by apply IH].
  - unfold batch_positions. rewrite <-list_fmap_compose. simpl.
    pose proof (enumerate_fst_NoDup (lb_leaf_hashes b)) as He.
    apply (NoDup_fmap_1 occ_leaf_index). by rewrite <-list_fmap_compose.
  - intros o ([h o'] & -> & Ho)%list_elem_of_fmap ([h' o''] & Heq & Ho')%list_elem_of_fmap.
    apply elem_batch_positions in Ho as (i & _ & ->).
    apply elem_leaf_positions in Ho' as (b' & j & Hb' & _ & ->). simplify_eq/=.
    apply Hn. apply list_elem_of_fmap. exists b'. split; [congruence | done].
Qed.

Lemma values_at_NoDup {K V} `{!EqDecision K} (k : K) (l : list (K * V)) :
  NoDup l.*2 → NoDup (values_at k l).
Proof. intros Hnd. eapply sublist_NoDup; [exact Hnd|]. by apply fmap_sublist, sublist_filter. Qed.

Lemma two_elements {A} (l : list A) :
  NoDup l → (2 <= length l)%nat ↔ ∃ x y, x ∈ l ∧ y ∈ l ∧ x ≠ y.
Proof.
  intros Hnd. split.
  - destruct l as [|x [|y l]]; simpl; [lia | lia|]. intros _. exists x, y.
    apply NoDup_cons in Hnd as [Hn _]. set_solver.
  - intros (x & y & Hx & Hy & Hne). destruct l as [|a [|b l]]; simpl; [set_solver | | lia].
    apply list_elem_of_singleton in Hx, Hy. congruence.
Qed.

Lemma elem_double_spend batches f :
  f ∈ detect_double_spends batches ↔
  f = {| ds_leaf_hash := ds_leaf_hash f;
         ds_occurrences := values_at (ds_leaf_hash f) (leaf_positions batches);
         ds_on_chain_reason := 0 |} ∧
  (2 <= length (ds_occurrences f))%nat.
Proof.
  unfold detect_double_spends. rewrite elem_of_sort_by, list_elem_of_omap.
  unfold double_spend_finding. split.
  - intros ([h os] & [-> Hne]%elem_group & Hf). simpl in Hf. destruct (2 <=? _) eqn:E; simplify_eq/=.
    split; [done | lia].
  - destruct f as [h os r]. simpl. intros [Heq Hlen]. simplify_eq.
    exists (h, values_at h (leaf_positions batches)). split.
    + apply elem_group. split; [done|]. intros Hnil. rewrite Hnil in Hlen. simpl in Hlen. lia.
    + simpl. by replace (2 <=? _) with true by lia.
Qed.

Lemma double_spend_hashes_NoDup batches :
  NoDup (ds_leaf_hash <$> omap double_spend_finding (group (leaf_positions batches))).
Proof.
  assert (∀ d : dict bytes (list LeafOccurrence), dict_wf d →
            NoDup (ds_leaf_hash <$> omap double_spend_finding d) ∧
            ∀ h, h ∈ ds_leaf_hash <$> omap double_spend_finding d → h ∈ dict_keys d) as Hall.
  { unfold dict_wf, dict_keys. induction d as [|[h os] d IH]; simpl; intros Hd.
    - split; [constructor | set_solver].
    - apply NoDup_cons in Hd as [Hn Hd]. destruct (IH Hd) as [IH1 IH2].
      destruct (double_spend_finding (h, os)) as [f|] eqn:E; csimpl.
      + assert (ds_leaf_hash f = h) as <-.
        { unfold double_spend_finding in E. case_match; by simplify_eq/=. }
        split; [constructor; auto | set_solver].
      + split; [done | set_solver]. }
  apply Hall, group_wf.
Qed.

(** The double-spend detector reports exactly the double commits.  A finding
    carries a leaf hash, every position it was committed at, in order, and
    reason 0, and has at least two positions; findings are strictly sorted by
    leaf hash, so there is one per leaf.  When the batches are distinct, a leaf
    is reported exactly when it sits at two different positions of the committed
    batches: a leaf committed once is never reported, a leaf committed twice
    always is. *)
Theorem double_spend_exact batches :
  (∀ f, f ∈ detect_double_spends batches ↔
     f = {| ds_leaf_hash := ds_leaf_hash f;
            ds_occurrences := values_at (ds_leaf_hash f) (leaf_positions batches);
            ds_on_chain_reason := 0 |} ∧ (2 <= length (ds_occurrences f))%nat) ∧
  StronglySorted (λ h h', bytes_ltb h h' = true) (ds_leaf_hash <$> detect_double_spends batches) ∧
  (NoDup (lb_batch_id <$> batches) →
   ∀ h, h ∈ ds_leaf_hash <$> detect_double_spends batches ↔
        ∃ b1 b2 (i1 i2 : nat), b1 ∈ batches ∧ b2 ∈ batches ∧
          lb_leaf_hashes b1 !! i1 = Some h ∧ lb_leaf_hashes b2 !! i2 = Some h ∧
          (lb_batch_id b1, i1) ≠ (lb_batch_id b2, i2)).
Proof.
  split_and!; [apply elem_double_spend | apply sort_by_key_strict, double_spend_hashes_NoDup |].
  intros Hnd h. pose proof (values_at_NoDup h _ (leaf_positions_NoDup _ Hnd)) as Hv.
  rewrite list_elem_of_fmap. setoid_rewrite elem_double_spend. split.
  - intros (f & -> & Hf & Hlen). rewrite Hf in Hlen. simpl in Hlen.
    apply two_elements in Hlen as (o1 & o2 & Ho1 & Ho2 & Hne); [|done].
    apply elem_values_at, elem_leaf_positions in Ho1 as (b1 & i1 & ? & ? & ->).
    apply elem_values_at, elem_leaf_positions in Ho2 as (b2 & i2 & ? & ? & ->).
    exists b1, b2, i1, i2. split_and!; try done. intros [= Hid Hi]. apply Hne.
    assert (b1 = b2) as -> by (by apply (NoDup_fmap_inj_on lb_batch_id batches)).
    by rewrite Hi.
  - intros (b1 & b2 & i1 & i2 & Hb1 & Hb2 & Hi1 & Hi2 & Hne).
    exists {| ds_leaf_hash := h; ds_occurrences := values_at h (leaf_positions batches);
              ds_on_chain_reason := 0 |}. simpl. split_and!; [done | done |].
    apply two_elements; [done|].
    eexists _, _. split; [|split].
    + apply elem_values_at, elem_leaf_positions. exists b1, i1. by split_and!.
    + apply elem_values_at, elem_leaf_positions. exists b2, i2. by split_and!.
    + intros [= Hid Hi _]. apply Hne. f_equal; [done | lia].
Qed.

(** ** Lemmas: expired receipts *)

Section Expired.
Context `{Externals}.

Lemma elem_expired batches now margin f :
  f ∈ detect_expired_receipts batches now margin ↔
  ∃ b (i : nat) br leaf lookback,
    b ∈ batches ∧ xb_receipts b !! i = Some br ∧ batched_receipt_to_leaf br = Ok leaf ∧
    xb_lookback_window_seconds b = Some lookback ∧ 0 < lookback ∧
    lookback + margin < now - leaf_executed_at_unix leaf ∧
    f = {| ex_batch_id := xb_batch_id b; ex_target_index := Z.of_nat i; ex_leaf := leaf;
           ex_age := now - leaf_executed_at_unix leaf; ex_lookback := lookback;
           ex_on_chain_reason := 3 |}.
Proof.
  unfold detect_expired_receipts. rewrite elem_of_sort_by, list_elem_of_bind.
  unfold expired_in_batch, expired_at. split.
  - intros (b & Hf & Hb). destruct (xb_lookback_window_seconds b) as [lk|] eqn:El; simpl in Hf;
      [|by apply not_elem_of_nil in Hf].
    destruct (lk <=? 0) eqn:E; [by apply not_elem_of_nil in Hf|].
    apply list_elem_of_omap in Hf as ([j br] & (i & -> & Hi)%elem_of_enumerate & Hf). simpl in Hf.
    destruct (batched_receipt_to_leaf br) as [leaf|] eqn:Hl; [|done].
    destruct (lk + margin <? _) eqn:E'; simplify_eq.
    exists b, i, br, leaf, lk. split_and!; try done; lia.
  - intros (b & i & br & leaf & lk & Hb & Hi & Hl & El & Hpos & Hage & ->).
    exists b. split; [|done]. rewrite El. simpl. replace (lk <=? 0) with false by lia.
    apply list_elem_of_omap. exists (Z.of_nat i, br). split; [apply elem_of_enumerate; eauto|].
    simpl. rewrite Hl. by replace (lk + margin <? _) with true by lia.
Qed.

(** The expired-receipt detector reports exactly the expired leaves: those of
    a receipt that has a leaf, in a batch with a known positive lookback window,
    whose age at [now] exceeds the window and the safety margin, strictly.  Each
    finding has the leaf's coordinates, age and window and reason 3; findings are
    sorted by batch id and index.  A missing or non-positive window, or a receipt
    without a leaf, is never reported. *)
Theorem expired_exact batches now margin :
  (∀ f, f ∈ detect_expired_receipts batches now margin ↔
     ∃ b (i : nat) br leaf lookback,
       b ∈ batches ∧ xb_receipts b !! i = Some br ∧ batched_receipt_to_leaf br = Ok leaf ∧
       xb_lookback_window_seconds b = Some lookback ∧ 0 < lookback ∧
       lookback + margin < now - leaf_executed_at_unix leaf ∧
       f = {| ex_batch_id := xb_batch_id b; ex_target_index := Z.of_nat i; ex_leaf := leaf;
              ex_age := now - leaf_executed_at_unix leaf; ex_lookback := lookback;
              ex_on_chain_reason := 3 |}) ∧
  sorted_by (lex (key_leb ex_batch_id bytes_leb) (key_leb ex_target_index Z.leb))
    (detect_expired_receipts batches now margin).
Proof. split; [apply elem_expired | apply sort_sorted, _]. Qed.
End Expired.
