(* ===== verification/ConsensusTheorems.v ===== *)
(** * What the consensus detector accuses

    The vote of prsm/settlement/consensus_mismatch_detector.py as a specification
    over sets of providers, and the theorem that the detector implements it. *)
From Stdlib Require Import ZArith Lia.
From S2P Require Import PyStd.
From S2P Require Import Externals.
From S2P Require Import Receipt.
From S2P Require Import Merkle.
From S2P Require Import Registry.
From S2P Require Import Grouping.
From S2P Require Import Detectors.
From S2P Require Import Prelude.

#[local] Open Scope string_scope.
#[local] Open Scope list_scope.
#[local] Open Scope Z_scope.

(** ** The vote, as sets *)

(** The providers with a leaf in the slot, and those whose leaf has output [o]. *)
Definition electorate (sides : list Side) : gset string := list_to_set (sd_provider <$> sides).
Definition voters (o : bytes) (sides : list Side) : gset string :=
  list_to_set (sd_provider <$> filter (λ s, sd_output_hash s = o) sides).

Definition strict_majority (o : bytes) (sides : list Side) : Prop :=
  (size (electorate sides) < 2 * size (voters o sides))%nat.

(** Each provider commits one output for the slot. *)
Definition one_output_each (sides : list Side) : Prop :=
  ∀ s s', s ∈ sides → s' ∈ sides → sd_provider s = sd_provider s' →
          sd_output_hash s = sd_output_hash s'.

(** Two leaves of a slot that the contract takes for a disagreement. *)
Definition disagree (s m : Side) : Prop :=
  opposes s m ∧ sd_output_hash s ≠ sd_output_hash m.

Lemma elem_voters p o sides :
  p ∈ voters o sides ↔ ∃ s, s ∈ sides ∧ sd_output_hash s = o ∧ sd_provider s = p.
Proof.
  unfold voters. rewrite elem_of_list_to_set, list_elem_of_fmap.
  setoid_rewrite list_elem_of_filter. naive_solver.
Qed.

Lemma elem_electorate p sides : p ∈ electorate sides ↔ ∃ s, s ∈ sides ∧ sd_provider s = p.
Proof. unfold electorate. rewrite elem_of_list_to_set, list_elem_of_fmap. naive_solver. Qed.

(** When providers do not equivocate, at most one output has a strict majority. *)
Lemma strict_majority_unique sides o o' :
  one_output_each sides → strict_majority o sides → strict_majority o' sides → o = o'.
Proof.
  intros Hone Ho Ho'. destruct (decide (o = o')) as [|Hne]; [done|]. exfalso.
  assert (voters o sides ## voters o' sides) as Hd.
  { intros p (s & Hs & <- & Hp)%elem_voters (s' & Hs' & <- & Hp')%elem_voters.
    apply Hne. apply Hone; congruence. }
  assert (voters o sides ∪ voters o' sides ⊆ electorate sides) as Hsub.
  { intros p. rewrite elem_of_union, !elem_voters, elem_electorate. naive_solver. }
  apply subseteq_size in Hsub. rewrite size_union in Hsub by done.
  unfold strict_majority in *. lia.
Qed.

(** ** Lemmas: the tallies *)

Lemma set_add_NoDup {A} `{!EqDecision A} (k : A) s : NoDup s → NoDup (set_add k s).
Proof.
  intros Hs. unfold set_add. case_bool_decide; [done|].
  apply NoDup_app. split_and!; [done | set_solver | apply NoDup_singleton].
Qed.

(** A Python set without repetitions has the size of the set it denotes. *)
Lemma set_len `{Countable A} (l : list A) (X : gset A) :
  NoDup l → (∀ x, x ∈ l ↔ x ∈ X) → length l = size X.
Proof.
  intros Hnd Heq. rewrite <-(size_list_to_set (C := gset A) l) by done.
  f_equal. apply leibniz_equiv. intros x. by rewrite elem_of_list_to_set.
Qed.

Lemma distinct_providers_snoc sides s :
  distinct_providers (sides ++ [s]) = set_add (sd_provider s) (distinct_providers sides).
Proof. unfold distinct_providers. by rewrite fold_left_app. Qed.

Lemma distinct_providers_size sides :
  length (distinct_providers sides) = size (electorate sides).
Proof.
  assert (NoDup (distinct_providers sides) ∧
          ∀ p, p ∈ distinct_providers sides ↔ ∃ s, s ∈ sides ∧ sd_provider s = p) as [Hnd Hel].
  { induction sides as [|s sides [IH1 IH2]] using rev_ind; [split; [constructor | set_solver]|].
    rewrite distinct_providers_snoc. split; [by apply set_add_NoDup|].
    intros p. rewrite elem_set_add, IH2. set_solver. }
  apply set_len; [done|]. intros p. by rewrite Hel, elem_electorate.
Qed.

Lemma providers_by_output_snoc sides s :
  providers_by_output (sides ++ [s]) =
  dict_set (sd_output_hash s)
    (set_add (sd_provider s) (default [] (dict_get (sd_output_hash s) (providers_by_output sides))))
    (providers_by_output sides).
Proof. unfold providers_by_output. by rewrite fold_left_app. Qed.

Lemma providers_by_output_wf sides : dict_wf (providers_by_output sides).
Proof.
  induction sides as [|s sides IH] using rev_ind; [constructor|].
  rewrite providers_by_output_snoc. by apply dict_wf_set.
Qed.

Lemma providers_by_output_get sides o :
  match dict_get o (providers_by_output sides) with
  | Some ps => NoDup ps ∧ (∀ p, p ∈ ps ↔ p ∈ voters o sides) ∧ ps ≠ []
  | None => ∀ s, s ∈ sides → sd_output_hash s ≠ o
  end.
Proof.
  induction sides as [|s sides IH] using rev_ind; [set_solver|].
  rewrite providers_by_output_snoc, dict_get_set.
  assert (∀ p, p ∈ voters o (sides ++ [s]) ↔
               p ∈ voters o sides ∨ sd_output_hash s = o ∧ sd_provider s = p) as Hv.
  { intros p. rewrite !elem_voters. set_solver. }
  destruct (decide (sd_output_hash s = o)) as [<-|Hne].
  - destruct (dict_get _ _) as [ps|]; simpl.
    + destruct IH as (Hnd & Hel & _). split_and!; [by apply set_add_NoDup | |].
      * intros p. rewrite elem_set_add, Hv, Hel. naive_solver.
      * intros Hnil. assert (sd_provider s ∈ set_add (sd_provider s) ps) as Hin
          by (apply elem_set_add; by left). rewrite Hnil in Hin. set_solver.
    + unfold set_add. simpl. split_and!; [apply NoDup_singleton | | done].
      intros p. rewrite list_elem_of_singleton, Hv. split; [naive_solver|].
      intros [(s' & Hs' & Ho & _)%elem_voters|[_ ?]]; [|done]. by destruct (IH s').
  - destruct (dict_get o _) as [ps|].
    + destruct IH as (? & Hel & ?). split_and!; [done | | done]. intros p. rewrite Hv, Hel. tauto.
    + intros s' [Hs'| ->%list_elem_of_singleton]%elem_of_app; auto.
Qed.

Lemma elem_providers_by_output sides o ps :
  (o, ps) ∈ providers_by_output sides →
  length ps = size (voters o sides) ∧ ∃ s, s ∈ sides ∧ sd_output_hash s = o.
Proof.
  intros Hin%elem_dict_get; [|apply providers_by_output_wf].
  pose proof (providers_by_output_get sides o) as Hg. rewrite Hin in Hg.
  destruct Hg as (Hnd & Hel & Hne). split; [by apply set_len|].
  destruct ps as [|p ps]; [done|]. assert (p ∈ voters o sides) as Hp by (apply Hel; by left).
  apply elem_voters in Hp as (s & ? & ? & _). eauto.
Qed.

Lemma providers_by_output_mem sides s :
  s ∈ sides → ∃ ps, (sd_output_hash s, ps) ∈ providers_by_output sides.
Proof.
  intros Hs. pose proof (providers_by_output_get sides (sd_output_hash s)) as Hg.
  destruct (dict_get _ _) as [ps|] eqn:E; [exists ps; by apply dict_get_elem|].
  by destruct (Hg s).
Qed.

Lemma majority_output_spec sides :
  match majority_output sides with
  | Some o => strict_majority o sides
  | None => ∀ o, ¬ strict_majority o sides
  end.
Proof.
  unfold majority_output, strict_majority.
  assert (∀ op, op ∈ filter (λ op : bytes * list string,
                  zlen (distinct_providers sides) < zlen op.2 * 2) (providers_by_output sides) →
                (size (electorate sides) < 2 * size (voters op.1 sides))%nat) as Hin.
  { intros [o ps] [Hlt Hop]%list_elem_of_filter. simpl in *.
    apply elem_providers_by_output in Hop as [Hlen _]. rewrite distinct_providers_size in Hlt. lia. }
  destruct (filter _ _) as [|[o ps] l] eqn:E; simpl.
  - intros o Hmaj. destruct (decide (voters o sides = ∅)) as [He|He].
    + rewrite He, size_empty in Hmaj. lia.
    + apply set_choose_L in He as [p Hp]. apply elem_voters in Hp as (s & Hs & <- & _).
      apply providers_by_output_mem in Hs as [ps Hps].
      pose proof (elem_providers_by_output _ _ _ Hps) as [Hlen _].
      eapply not_elem_of_nil. rewrite <-E. apply list_elem_of_filter.
      split; [|exact Hps]. simpl. rewrite distinct_providers_size. lia.
  - apply (Hin (o, ps)). by left.
Qed.

(** ** Lemmas: one slot *)

Lemma elem_pairs {A} (l : list A) x y :
  x ∈ l → y ∈ l → x ≠ y → (x, y) ∈ pairs l ∨ (y, x) ∈ pairs l.
Proof.
  induction l as [|z l IH]; simpl; [set_solver|].
  rewrite !elem_of_cons, !elem_of_app, !list_elem_of_fmap.
  intros [->|Hx] [->|Hy] Hne; [done | left; left; eauto | right; left; eauto |].
  destruct (IH Hx Hy Hne); auto.
Qed.

Lemma elem_pairs_1 {A} (l : list A) x y : (x, y) ∈ pairs l → x ∈ l ∧ y ∈ l.
Proof.
  induction l as [|z l IH]; simpl; [set_solver|].
  rewrite elem_of_app, list_elem_of_fmap, !elem_of_cons. intros [(? & ? & ?)|?]; naive_solver.
Qed.

(** Two sides with different outputs: the early exits of the loop are not taken. *)
Lemma two_outputs sides s m :
  s ∈ sides → m ∈ sides → sd_output_hash s ≠ sd_output_hash m →
  (2 <= length sides)%nat ∧ (2 <= length (providers_by_output sides))%nat.
Proof.
  intros Hs Hm Hne.
  assert (∀ {A B} (f : A → B) (l : list A) x y, x ∈ l → y ∈ l → f x ≠ f y → (2 <= length l)%nat) as Hl.
  { intros A B f [|a [|b l]] x y; simpl; [set_solver | | lia].
    intros ->%list_elem_of_singleton ->%list_elem_of_singleton. done. }
  split; [by apply (Hl _ _ sd_output_hash _ s m)|].
  destruct (providers_by_output_mem _ _ Hs) as [ps Hps], (providers_by_output_mem _ _ Hm) as [pm Hpm].
  by apply (Hl _ _ fst _ _ _ Hps Hpm).
Qed.

(** What a slot reports, when its sides hold [s] and [m]. *)
Lemma slot_findings_open k sides s m :
  s ∈ sides → m ∈ sides → sd_output_hash s ≠ sd_output_hash m →
  slot_findings (k, sides) =
  let tally := (λ op : bytes * list string, (hex op.1, zlen op.2)) <$> providers_by_output sides in
  let ordered := sort_by side_leb sides in
  match majority_output sides with
  | Some out => omap (majority_finding k tally out ordered) ordered
  | None => omap (ambiguous_finding k tally) (pairs ordered)
  end.
Proof.
  intros Hs Hm Hne. destruct (two_outputs _ _ _ Hs Hm Hne). unfold slot_findings.
  replace (zlen sides <? 2) with false by lia. by replace (_ <? 2) with false by lia.
Qed.

Lemma slot_findings_sound k sides f :
  f ∈ slot_findings (k, sides) →
  cm_slot f = k ∧ cm_minority f ∈ sides ∧ cm_majority f ∈ sides ∧ cm_on_chain_reason f = 5 ∧
  disagree (cm_minority f) (cm_majority f) ∧
  (if cm_ambiguous f then ∀ o, ¬ strict_majority o sides
   else strict_majority (sd_output_hash (cm_majority f)) sides).
Proof.
  unfold slot_findings. destruct (_ <? 2); [by intros ?%not_elem_of_nil|].
  destruct (_ <? 2); [by intros ?%not_elem_of_nil|].
  pose proof (majority_output_spec sides) as Hmaj.
  destruct (majority_output sides) as [out|]; rewrite list_elem_of_omap.
  - intros (s & Hs%elem_of_sort_by & Hf). unfold majority_finding in Hf.
    case_bool_decide as Hne; [done|]. apply fmap_Some in Hf as (m & Hm & ->).
    apply head_Some_elem_of, list_elem_of_filter in Hm as [Hopp Hm].
    apply list_elem_of_filter in Hm as [<- Hm%elem_of_sort_by]. by split_and!.
  - intros ([lo hi] & [Hlo Hhi]%elem_pairs_1 & Hf). unfold ambiguous_finding in Hf.
    rewrite elem_of_sort_by in Hlo, Hhi.
    repeat (case_bool_decide; [done|]). simplify_eq/=. by split_and!; try split_and!.
Qed.

Lemma slot_findings_complete k sides s m :
  s ∈ sides → m ∈ sides → disagree s m →
  match majority_output sides with
  | Some out =>
      sd_output_hash m = out →
      ∃ f, f ∈ slot_findings (k, sides) ∧ cm_slot f = k ∧ cm_minority f = s ∧ cm_ambiguous f = false
  | None =>
      ∃ f, f ∈ slot_findings (k, sides) ∧ cm_slot f = k ∧ cm_ambiguous f = true ∧
           ((cm_minority f, cm_majority f) = (s, m) ∨ (cm_minority f, cm_majority f) = (m, s))
  end.
Proof.
  intros Hs Hm [[Hp Hb] Ho]. rewrite (slot_findings_open k sides s m) by done. cbv zeta.
  destruct (majority_output sides) as [out|].
  - intros <-. set (ord := sort_by side_leb sides).
    destruct (filter (opposes s) (filter (λ m', sd_output_hash m' = sd_output_hash m) ord))
      as [|m' l] eqn:E.
    + exfalso. eapply (not_elem_of_nil m). rewrite <-E. apply list_elem_of_filter.
      split; [done|]. apply list_elem_of_filter. split; [done|]. by apply elem_of_sort_by.
    + eexists. rewrite list_elem_of_omap. split.
      * exists s. split; [by apply elem_of_sort_by|]. unfold majority_finding.
        rewrite bool_decide_false by done. by rewrite E.
      * done.
  - destruct (elem_pairs (sort_by side_leb sides) s m) as [Hin|Hin];
      rewrite ?elem_of_sort_by; try done; [by intros -> | |];
      (eexists; rewrite list_elem_of_omap; split; [eexists; split; [exact Hin|];
         unfold ambiguous_finding; rewrite !bool_decide_false by done; done | auto]).
Qed.

(** ** The whole scan *)

Section Consensus.
Context `{Externals}.

Lemma elem_all_sides batches k s :
  s ∈ values_at k (all_sides batches) ↔
  ∃ b (i : nat) br leaf,
    b ∈ batches ∧ db_consensus_group_id b ≠ zero32 ∧ db_receipts b !! i = Some br ∧
    batched_receipt_to_leaf br = Ok leaf ∧
    k = (db_consensus_group_id b, leaf_job_id_hash leaf, leaf_shard_index leaf) ∧
    s = {| sd_batch_id := db_batch_id b; sd_provider := db_provider_address b; sd_receipt := br;
           sd_leaf_index := Z.of_nat i; sd_output_hash := leaf_output_hash leaf |}.
Proof.
  rewrite elem_values_at. unfold all_sides. rewrite list_elem_of_bind.
  unfold batch_sides, side_of. split.
  - intros (b & Hb & Hin). case_bool_decide as Hz; [by apply not_elem_of_nil in Hb|].
    apply list_elem_of_omap in Hb as ([j br] & (i & -> & Hi)%elem_of_enumerate & Hs). simpl in Hs.
    destruct (batched_receipt_to_leaf br) as [leaf|] eqn:Hl; [|done]. simplify_eq.
    exists b, i, br, leaf. by split_and!.
  - intros (b & i & br & leaf & Hb & Hz & Hi & Hl & -> & ->). exists b. split; [|done].
    rewrite bool_decide_false by done. apply list_elem_of_omap. exists (Z.of_nat i, br).
    split; [apply elem_of_enumerate; eauto|]. simpl. by rewrite Hl.
Qed.

Lemma elem_detect_consensus batches f :
  f ∈ detect_consensus_mismatches batches ↔
  ∃ k, f ∈ slot_findings (k, values_at k (all_sides batches)).
Proof.
  unfold detect_consensus_mismatches. rewrite elem_of_sort_by, list_elem_of_bind. split.
  - intros ([k sides] & Hf & [-> _]%elem_group). by exists k.
  - intros [k Hf]. eexists (k, _). split; [exact Hf|]. apply elem_group. split; [done|].
    intros Hnil. rewrite Hnil in Hf. by apply not_elem_of_nil in Hf.
Qed.

End Consensus.
