(* ===== verification/Challenges.v ===== *)
(** * Challenge assembly

    Models the five assemblers of prsm/settlement (challenge_assembler.py,
    double_spend_assembler.py, no_escrow_assembler.py, expired_assembler.py,
    consensus_mismatch_assembler.py) and the root cross-check of
    receipt_set_blob.py.  The challenge classes of the source have the same
    fields, so they are one record; [submit] calls the contract with
    [to_call_args()]. *)
From Stdlib Require Import ZArith Lia.
From S2P Require Import PyStd.
From S2P Require Import Externals.
From S2P Require Import Receipt.
From S2P Require Import Attestation.
From S2P Require Import Merkle.
From S2P Require Import Registry.
From S2P Require Import Grouping.
From S2P Require Import Detectors.
From S2P Require Import Prelude.

#[local] Open Scope string_scope.
#[local] Open Scope list_scope.
#[local] Open Scope Z_scope.

Record Challenge : Type := {
  ch_batch_id : bytes;
  ch_leaf : ReceiptLeaf;
  ch_merkle_proof : list bytes;
  ch_reason_code : ReasonCode;
  ch_aux_data : bytes
}.

(** [submit] sends the transaction [challengeReceipt( *to_call_args() )]. *)
Definition submit `{Externals, ContractEnv} (m : Msg) (c : Challenge) (r : Registry)
  : tx (Registry * list ext_call) :=
  challengeReceipt m (ch_batch_id c) (ch_leaf c) (ch_merkle_proof c) (ch_reason_code c)
    (ch_aux_data c) r.

Section Assemble.
Context `{Externals}.

(** [[batched_receipt_to_leaf(br) for br in receipts]] *)
Definition receipt_leaves (receipts : list BatchedReceipt) : result (list ReceiptLeaf) :=
  result_mapM batched_receipt_to_leaf receipts.

(** [l[i]] for an index already checked to be in range. *)
Definition item {A} (l : list A) (i : Z) : result A :=
  of_option IndexError (l !! Z.to_nat i).

(** [if not l: raise ...; if not (0 <= i < len(l)): raise ...] *)
Definition check_index {A} (l : list A) (i : Z) : result unit :=
  _ ← raise_if (zlen l =? 0) ValueError;
  raise_if (negb ((0 <=? i) && (i <? zlen l))) ValueError.

(** The leaf at [i] of a batch and its proof in the batch's tree. *)
Definition leaf_and_proof (receipts : list BatchedReceipt) (i : Z)
  : result (ReceiptLeaf * list bytes) :=
  leaves ← receipt_leaves receipts;
  leaf ← item leaves i;
  proof ← build_merkle_proof (hash_leaf <$> leaves) i;
  Ok (leaf, proof).

Definition shard_signature_verifies (br : BatchedReceipt) : bool :=
  let r := receipt br in
  verify_signature (JStr (provider_pubkey_b64 r))
    (build_receipt_signing_payload (job_id r) (shard_index r) (output_hash r)
       (executed_at_unix r))
    (JStr (signature r)).

Definition assemble_no_escrow_challenge (batch_id : bytes) (batch_receipts : list BatchedReceipt)
    (target_index : Z) : result Challenge :=
  _ ← check_index batch_receipts target_index;
  lp ← leaf_and_proof batch_receipts target_index;
  Ok {| ch_batch_id := batch_id; ch_leaf := lp.1; ch_merkle_proof := lp.2;
        ch_reason_code := NO_ESCROW; ch_aux_data := [] |}.

Definition assemble_expired_challenge (batch_id : bytes) (batch_receipts : list BatchedReceipt)
    (target_index now lookback_window_seconds : Z) : result Challenge :=
  _ ← check_index batch_receipts target_index;
  _ ← raise_if (lookback_window_seconds <=? 0) ValueError;
  leaves ← receipt_leaves batch_receipts;
  target_leaf ← item leaves target_index;
  let age := now - leaf_executed_at_unix target_leaf in
  _ ← raise_if (age <=? lookback_window_seconds) ValueError;
  proof ← build_merkle_proof (hash_leaf <$> leaves) target_index;
  Ok {| ch_batch_id := batch_id; ch_leaf := target_leaf; ch_merkle_proof := proof;
        ch_reason_code := EXPIRED; ch_aux_data := [] |}.

(** ** receipt_set_blob.py: the cross-check against the root on chain *)

Definition recompute_root (receipts : list BatchedReceipt) : result bytes :=
  leaves ← receipt_leaves receipts;
  t ← build_tree_and_proofs (hash_leaf <$> leaves);
  Ok (tree_root t).

Definition verify_receipt_set_against_root (receipts : list BatchedReceipt) (expected_root : bytes)
  : result bool :=
  if zlen receipts =? 0 then Ok false
  else root ← recompute_root receipts; Ok (bool_decide (root = expected_root)).

Definition verify_leaf_hashes_against_root (leaf_hashes : list bytes) (expected_root : bytes)
  : result bool :=
  if zlen leaf_hashes =? 0 then Ok false
  else t ← build_tree_and_proofs leaf_hashes; Ok (bool_decide (tree_root t = expected_root)).
End Assemble.

Section AssembleAux.
Context `{Externals, ContractEnv}.

Definition assemble_invalid_signature_challenge (batch_id : bytes)
    (batch_receipts : list BatchedReceipt) (target_index : Z) : result Challenge :=
  _ ← check_index batch_receipts target_index;
  target ← item batch_receipts target_index;
  _ ← raise_if (shard_signature_verifies target) ValueError;
  lp ← leaf_and_proof batch_receipts target_index;
  pubkey ← of_option BinasciiError (b64decode (provider_pubkey_b64 (receipt target)));
  sig ← of_option BinasciiError (b64decode (signature (receipt target)));
  Ok {| ch_batch_id := batch_id; ch_leaf := lp.1; ch_merkle_proof := lp.2;
        ch_reason_code := INVALID_SIGNATURE; ch_aux_data := aux_encode_signature pubkey sig |}.

Definition assemble_double_spend_challenge (target_batch_id : bytes)
    (target_batch_receipts : list BatchedReceipt) (target_index : Z)
    (conflicting_batch_id : bytes) (conflicting_leaf_hashes : list bytes)
    (conflicting_index : Z) : result Challenge :=
  _ ← raise_if (zlen target_batch_receipts =? 0) ValueError;
  _ ← raise_if (zlen conflicting_leaf_hashes =? 0) ValueError;
  _ ← check_index target_batch_receipts target_index;
  _ ← check_index conflicting_leaf_hashes conflicting_index;
  _ ← raise_if (bool_decide (target_batch_id = conflicting_batch_id)) ValueError;
  leaves ← receipt_leaves target_batch_receipts;
  target_leaf ← item leaves target_index;
  expected ← item conflicting_leaf_hashes conflicting_index;
  _ ← raise_if (negb (bool_decide (hash_leaf target_leaf = expected))) ValueError;
  target_proof ← build_merkle_proof (hash_leaf <$> leaves) target_index;
  conflicting_proof ← build_merkle_proof conflicting_leaf_hashes conflicting_index;
  Ok {| ch_batch_id := target_batch_id; ch_leaf := target_leaf; ch_merkle_proof := target_proof;
        ch_reason_code := DOUBLE_SPEND;
        ch_aux_data := aux_encode_double_spend conflicting_batch_id conflicting_proof |}.

(** [_pick_distinct_batch_occurrences]: the first occurrence and the first later
    one in another batch. *)
Definition pick_distinct_batch_occurrences (finding : DoubleSpendFinding)
  : result (LeafOccurrence * LeafOccurrence) :=
  match ds_occurrences finding with
  | [] => Err IndexError
  | first :: rest =>
      occ ← of_option ValueError
              (head (filter (λ o, occ_batch_id o ≠ occ_batch_id first) rest));
      Ok (first, occ)
  end.

Definition assemble_from_double_spend_finding (finding : DoubleSpendFinding)
    (receipts_by_batch : dict bytes (list BatchedReceipt))
    (leaf_hashes_by_batch : dict bytes (list bytes)) : result Challenge :=
  oo ← pick_distinct_batch_occurrences finding;
  let target_id := occ_batch_id oo.1 in
  let conflicting_id := occ_batch_id oo.2 in
  target_receipts ← of_option ValueError (dict_get target_id receipts_by_batch);
  conflicting_leaves ← of_option ValueError (dict_get conflicting_id leaf_hashes_by_batch);
  assemble_double_spend_challenge target_id target_receipts (occ_leaf_index oo.1)
    conflicting_id conflicting_leaves (occ_leaf_index oo.2).

Definition assemble_consensus_mismatch_challenge (minority_batch_id : bytes)
    (minority_receipts : list BatchedReceipt) (minority_index : Z) (majority_batch_id : bytes)
    (majority_receipts : list BatchedReceipt) (majority_index : Z) : result Challenge :=
  _ ← raise_if (zlen minority_receipts =? 0) ValueError;
  _ ← raise_if (zlen majority_receipts =? 0) ValueError;
  _ ← check_index minority_receipts minority_index;
  _ ← check_index majority_receipts majority_index;
  minority_leaf ← item minority_receipts minority_index ≫= batched_receipt_to_leaf;
  majority_leaf ← item majority_receipts majority_index ≫= batched_receipt_to_leaf;
  minority ← leaf_and_proof minority_receipts minority_index;
  majority ← leaf_and_proof majority_receipts majority_index;
  Ok {| ch_batch_id := minority_batch_id; ch_leaf := minority_leaf;
        ch_merkle_proof := minority.2; ch_reason_code := CONSENSUS_MISMATCH;
        ch_aux_data := aux_encode_consensus majority_batch_id majority.2 majority_leaf |}.
End AssembleAux.
