(* ===== verification/ChallengeTheorems.v ===== *)
(** * Challenges against the contract

    What an assembled challenge does when it is sent, what passes the root
    cross-check, and the direction of a double-spend challenge. *)
From Stdlib Require Import ZArith Lia.
From S2P Require Import PyStd.
From S2P Require Import Externals.
From S2P Require Import Receipt.
From S2P Require Import Attestation.
From S2P Require Import Merkle.
From S2P Require Import Registry.
From S2P Require Import Grouping.
From S2P Require Import Detectors.
From S2P Require Import Challenges.
From S2P Require Import Prelude.

#[local] Open Scope string_scope.
#[local] Open Scope list_scope.
#[local] Open Scope Z_scope.

(** ** Lemmas: what a built proof hashes *)

Section Proofs.
Context `{Externals}.

Lemma pair_input_comm a b : pair_input a b = pair_input b a.
Proof.
  unfold pair_input. destruct (bytes_ltb_total a b) as [E|[->|E]]; [| done |];
    (destruct (bytes_ltb b a) eqn:E1, (bytes_ltb a b) eqn:E2; try done;
     pose proof (bytes_ltb_trans _ _ _ E1 E2) as Hc; by rewrite bytes_ltb_irrefl in Hc).
Qed.

Lemma layer_inputs_elem l i a b :
  l !! (2 * i)%nat = Some a → l !! (2 * i + 1)%nat = Some b → pair_input a b ∈ layer_inputs l.
Proof.
  revert i. induction l as [|x|x y l IH] using pairs_ind; intros [|i] Ha Hb; simplify_eq/=.
  - by left.
  - right. replace (i + S (i + 0))%nat with (S (2 * i)) in Ha by lia.
    replace (i + S (i + 0) + 1)%nat with (S (2 * i + 1)) in Hb by lia. simplify_eq/=. eauto.
Qed.

(** The sibling at a layer: what it is, and that pairing with it is a node of
    the tree. *)
Lemma layer_sibling_inputs l (i : nat) h s :
  l !! i = Some h → layer_sibling l (Z.of_nat i) = Ok s →
  (∀ x, x ∈ s → x ∈ l) ∧ (∀ x, x ∈ fold_inputs s h → x ∈ layer_inputs l).
Proof.
  intros Hi. pose proof (Nat.div_mod_eq i 2) as Hdm. pose proof (Nat.mod_upper_bound i 2) as Hm.
  unfold layer_sibling, layer_at. change 2 with (Z.of_nat 2) at 1. rewrite <-Nat2Z.inj_mod.
  destruct (Z.eqb_spec (Z.of_nat (i mod 2)) 0) as [E|E].
  - destruct (_ <? _); intros Hs; inv_result; [|simpl; set_solver].
    replace (Z.to_nat (Z.of_nat i + 1)) with (2 * (i / 2) + 1)%nat in * by lia.
    replace i with (2 * (i / 2))%nat in Hi by lia. simpl. split.
    + intros x ->%list_elem_of_singleton. by eapply list_elem_of_lookup_2.
    + intros x ->%list_elem_of_singleton. by eapply layer_inputs_elem.
  - intros Hs; inv_result. replace (Z.to_nat (Z.of_nat i - 1)) with (2 * (i / 2))%nat in * by lia.
    replace i with (2 * (i / 2) + 1)%nat in Hi by lia. simpl. split.
    + intros x ->%list_elem_of_singleton. by eapply list_elem_of_lookup_2.
    + intros x ->%list_elem_of_singleton. rewrite pair_input_comm. by eapply layer_inputs_elem.
Qed.

Lemma fold_inputs_app p q h :
  fold_inputs (p ++ q) h = fold_inputs p h ++ fold_inputs q (fold_left hash_pair p h).
Proof. revert h; induction p as [|s p IH]; intros h; simpl; [done|]. by rewrite IH. Qed.

Lemma proof_loop_inputs `{!KeccakLaws} fuel l (i : nat) h p :
  l !! i = Some h → Forall is32 l → proof_loop fuel l (Z.of_nat i) = Ok p →
  Forall is32 p ∧ (∀ x, x ∈ fold_inputs p h → x ∈ tree_inputs fuel l).
Proof.
  revert l i h p; induction fuel as [|fuel IH]; intros l i h p Hi H32 Hp; simpl in *.
  - inv_result. split; [constructor | set_solver].
  - destruct (1 <? zlen l) eqn:E; [|inv_result; split; [constructor | set_solver]].
    destruct (layer_sibling_fold l i h Hi) as (s & Hs & _ & Hn).
    destruct (layer_sibling_inputs l i h s Hi Hs) as [Hin Hin'].
    rewrite Hs in Hp. simpl in Hp. inv_result.
    change 2 with (Z.of_nat 2) in Hr at 1. rewrite <-Nat2Z.inj_div in Hr.
    destruct (IH _ _ _ _ Hn (next_layer_32 _ H32) Hr) as [IH1 IH2]. split.
    + apply Forall_app. split; [|done]. apply Forall_forall. intros x Hx.
      rewrite Forall_forall in H32. auto.
    + intros x. rewrite fold_inputs_app, !elem_of_app. naive_solver.
Qed.

Lemma reduce_layers_32 `{!KeccakLaws} fuel l : Forall is32 l → Forall is32 (reduce_layers fuel l).
Proof.
  revert l; induction fuel as [|fuel IH]; intros l Hl; simpl; [done|].
  destruct (1 <? zlen l); [|done]. apply IH. by apply next_layer_32.
Qed.

Lemma build_merkle_root_32 `{!KeccakLaws} ls root :
  Forall is32 ls → build_merkle_root ls = Ok root → is32 root.
Proof.
  intros H32 Hroot. destruct (build_merkle_root_Ok ls) as (r & Hr & Hred); [by intros Hn; rewrite Hn in Hroot|].
  rewrite Hroot in Hr. simplify_eq. pose proof (reduce_layers_32 (length ls) ls H32) as Hall.
  rewrite Hred in Hall. by inversion Hall.
Qed.
End Proofs.

(** ** Lemmas: committed receipt sets *)

Section Committed.
Context `{KeccakLaws}.

Lemma hash_leaves_32 ls : Forall is32 (hash_leaf <$> ls).
Proof. apply Forall_fmap, Forall_forall. intros l _. apply keccak_length. Qed.

Lemma cross_check_inv receipts root :
  verify_receipt_set_against_root receipts root = Ok true →
  ∃ leaves, receipt_leaves receipts = Ok leaves ∧ build_merkle_root (hash_leaf <$> leaves) = Ok root.
Proof.
  unfold verify_receipt_set_against_root, recompute_root. destruct (_ =? 0) eqn:E; [done|].
  intros Hv. apply Z.eqb_neq in E. inv_result. rename r0 into leaves. rename r1 into t.
  exists leaves. split; [done|].
  destruct (build_tree_ok (hash_leaf <$> leaves)) as (t' & Ht & Hroot & _).
  { intros Hnil. apply result_mapM_length in Hr0. apply fmap_nil_inv in Hnil as ->. simpl in *. lia. }
  assert (t' = t) as -> by congruence. rewrite Hroot. f_equal.
  match goal with Hb : bool_decide _ = true |- _ => by apply bool_decide_eq_true in Hb end.
Qed.

Lemma cross_check_leaf_hashes hashes root :
  verify_leaf_hashes_against_root hashes root = Ok true → build_merkle_root hashes = Ok root.
Proof.
  unfold verify_leaf_hashes_against_root. destruct (_ =? 0) eqn:E; [done|].
  intros Hv. apply Z.eqb_neq in E. inv_result.
  destruct (build_tree_ok hashes) as (t' & Ht & Hroot & _); [by intros ->|].
  assert (t' = r) as -> by congruence. rewrite Hroot. f_equal.
  match goal with Hb : bool_decide _ = true |- _ => by apply bool_decide_eq_true in Hb end.
Qed.

(** A proof built over the hashes of a committed root is accepted by the
    contract's library. *)
Lemma proof_accepted `{!ContractEnv, !ContractLaws} hashes root i h proof :
  Forall is32 hashes → build_merkle_root hashes = Ok root →
  hashes !! Z.to_nat i = Some h → build_merkle_proof hashes i = Ok proof →
  Forall is32 proof ∧ oz_verify proof root h = true.
Proof.
  intros H32 Hroot Hh Hp. pose proof (build_merkle_proof_range hashes i) as Hrange.
  destruct Hrange as [Hi _]; [by exists proof|].
  destruct (build_merkle_proof_spec hashes (Z.to_nat i) h Hh) as (p & rt & Hp' & Hr' & Hv & _).
  rewrite Z2Nat.id, Hp in Hp' by done. rewrite Hroot in Hr'. simplify_eq.
  assert (Forall is32 p) as Hp32.
  { unfold build_merkle_proof in Hp. inv_result.
    rewrite <-(Z2Nat.id i) in Hp by done. by destruct (proof_loop_inputs _ _ _ _ _ Hh H32 Hp). }
  split; [done|]. rewrite oz_verify_spec; [done | done | by apply (build_merkle_root_32 hashes) |].
  rewrite Forall_lookup in H32. eauto.
Qed.

Lemma leaf_at_inv receipts leaves i leaf :
  receipt_leaves receipts = Ok leaves → item leaves i = Ok leaf →
  leaves !! Z.to_nat i = Some leaf ∧
  ∃ br, receipts !! Z.to_nat i = Some br ∧ batched_receipt_to_leaf br = Ok leaf ∧ leaf_ok leaf.
Proof.
  unfold receipt_leaves, item. intros Hl%result_mapM_Forall2 Hi. apply of_option_Ok in Hi.
  split; [done|]. destruct (Forall2_lookup_r _ _ _ _ _ Hl Hi) as (br & Hbr & Hto).
  exists br. split_and!; [done | done | by eapply batched_receipt_to_leaf_ok].
Qed.

Lemma leaf_of_target receipts leaves i br leaf :
  receipt_leaves receipts = Ok leaves → item receipts i = Ok br → item leaves i = Ok leaf →
  batched_receipt_to_leaf br = Ok leaf.
Proof.
  intros Hl Hb Hi. destruct (leaf_at_inv _ _ _ _ Hl Hi) as (_ & br' & Hbr' & Hto & _).
  apply of_option_Ok in Hb. congruence.
Qed.

(** The leaf and proof the assemblers build for a committed batch. *)
Lemma committed_leaf `{!ContractEnv, !ContractLaws} receipts root leaves i leaf proof :
  verify_receipt_set_against_root receipts root = Ok true →
  receipt_leaves receipts = Ok leaves → item leaves i = Ok leaf →
  build_merkle_proof (hash_leaf <$> leaves) i = Ok proof →
  Forall is32 proof ∧ oz_verify proof root (hash_leaf leaf) = true.
Proof.
  intros Hv Hl Hi Hp. apply cross_check_inv in Hv as (leaves' & Hl' & Hroot).
  assert (leaves' = leaves) as -> by congruence.
  eapply proof_accepted; [apply hash_leaves_32 | done | | done].
  apply leaf_at_inv with (receipts := receipts) in Hi as [Hi _]; [|done].
  by rewrite list_lookup_fmap, Hi.
Qed.
End Committed.

(** ** Accepted challenges *)

Section Accepted.
Context `{KeccakLaws, !ContractEnv, !ContractLaws}.

(** [b], stored under [bid], was committed over [receipts]. *)
Definition on_chain (r : Registry) (bid : bytes) (b : Batch) (receipts : list BatchedReceipt)
  : Prop :=
  is32 bid ∧ dict_get bid (batches r) = Some b ∧
  verify_receipt_set_against_root receipts (b_merkleRoot b) = Ok true.

(** A challenge an assembler returned for batch [bid], and the condition of its
    reason in the block it is sent in. *)
Inductive assembled (m : Msg) (r : Registry) (bid : bytes) (b : Batch)
    (receipts : list BatchedReceipt) (i : Z) : Challenge → Prop :=
| Assembled_no_escrow c :
    assemble_no_escrow_challenge bid receipts i = Ok c →
    msg_sender m = b_requester b → assembled m r bid b receipts i c
| Assembled_expired now c :
    assemble_expired_challenge bid receipts i now (b_lookbackWindowSecondsAtCommit b) = Ok c →
    now <= block_timestamp m → assembled m r bid b receipts i c
| Assembled_invalid_signature c :
    assemble_invalid_signature_challenge bid receipts i = Ok c →
    b_signatureVerifierAtCommit b ≠ zero_address →
    (∀ msg sg pk, verifier_verify (b_signatureVerifierAtCommit b) msg sg pk =
                  Some (ed25519_verify pk msg sg)) →
    (∀ br pk sg, receipts !! Z.to_nat i = Some br →
       b64decode (provider_pubkey_b64 (receipt br)) = Some pk →
       b64decode (signature (receipt br)) = Some sg →
       Z.of_nat (length pk) <= UINT256_MAX ∧ Z.of_nat (length sg) <= UINT256_MAX) →
    assembled m r bid b receipts i c
| Assembled_consensus obid other oreceipts oi s o ls lo c :
    assemble_consensus_mismatch_challenge bid receipts i obid oreceipts oi = Ok c →
    on_chain r obid other oreceipts → obid ≠ bid →
    b_consensus_group_id b ≠ zero_bytes32 →
    b_consensus_group_id b = b_consensus_group_id other → b_provider b ≠ b_provider other →
    receipts !! Z.to_nat i = Some s → oreceipts !! Z.to_nat oi = Some o →
    batched_receipt_to_leaf s = Ok ls → batched_receipt_to_leaf o = Ok lo →
    leaf_job_id_hash ls = leaf_job_id_hash lo → leaf_shard_index ls = leaf_shard_index lo →
    leaf_output_hash ls ≠ leaf_output_hash lo →
    assembled m r bid b receipts i c
| Assembled_double_spend obid other hashes oi c :
    assemble_double_spend_challenge bid receipts i obid hashes oi = Ok c →
    is32 obid → dict_get obid (batches r) = Some other → Forall is32 hashes →
    verify_leaf_hashes_against_root hashes (b_merkleRoot other) = Ok true →
    b_commitTimestamp other < b_commitTimestamp b →
    assembled m r bid b receipts i c.

(** What the proof below needs of each rule. *)
Definition handled (m : Msg) (r : Registry) (bid : bytes) (b : Batch) (c : Challenge)
    (proven : bool) : Prop :=
  ch_batch_id c = bid ∧
  oz_verify (ch_merkle_proof c) (b_merkleRoot b) (hash_leaf (ch_leaf c)) = true ∧
  challenge_handler m r bid b (ch_leaf c) (ch_reason_code c) (ch_aux_data c) = Done proven.

Lemma no_escrow_handled m r bid b receipts i c :
  verify_receipt_set_against_root receipts (b_merkleRoot b) = Ok true →
  assemble_no_escrow_challenge bid receipts i = Ok c → msg_sender m = b_requester b →
  handled m r bid b c true.
Proof.
  intros Hv Ha Hreq. unfold assemble_no_escrow_challenge, leaf_and_proof in Ha. inv_result.
  split_and!; [done | by eapply committed_leaf |]. simpl. unfold handleNoEscrow.
  by rewrite bool_decide_true.
Qed.

Lemma expired_handled m r bid b receipts i now c :
  verify_receipt_set_against_root receipts (b_merkleRoot b) = Ok true →
  assemble_expired_challenge bid receipts i now (b_lookbackWindowSecondsAtCommit b) = Ok c →
  now <= block_timestamp m → handled m r bid b c true.
Proof.
  intros Hv Ha Hnow. unfold assemble_expired_challenge in Ha. inv_result.
  split_and!; [done | by eapply committed_leaf |]. simpl. unfold handleExpired, checked_sub.
  replace (block_timestamp m <? _) with false by lia. simpl.
  by replace (_ <=? b_lookbackWindowSecondsAtCommit b) with false by lia.
Qed.

Lemma invalid_signature_handled m r bid b receipts i c :
  verify_receipt_set_against_root receipts (b_merkleRoot b) = Ok true →
  assemble_invalid_signature_challenge bid receipts i = Ok c →
  b_signatureVerifierAtCommit b ≠ zero_address →
  (∀ msg sg pk, verifier_verify (b_signatureVerifierAtCommit b) msg sg pk =
                Some (ed25519_verify pk msg sg)) →
  (∀ br pk sg, receipts !! Z.to_nat i = Some br →
     b64decode (provider_pubkey_b64 (receipt br)) = Some pk →
     b64decode (signature (receipt br)) = Some sg →
     Z.of_nat (length pk) <= UINT256_MAX ∧ Z.of_nat (length sg) <= UINT256_MAX) →
  handled m r bid b c true.
Proof.
  intros Hv Ha Hz Hver Hlen. unfold assemble_invalid_signature_challenge, leaf_and_proof in Ha.
  inv_result. split_and!; [done | by eapply committed_leaf |]. simpl.
  match goal with
  | Ht : item receipts i = Ok ?br, Hl : receipt_leaves receipts = Ok ?ls,
    Hi : item ?ls i = Ok ?leaf, Hpk : b64decode _ = Some ?pk, Hsg : b64decode _ = Some ?sg,
    Hnv : shard_signature_verifies _ = false |- _ =>
      pose proof (leaf_of_target _ _ _ _ _ Hl Ht Hi) as Hto;
      apply batched_receipt_to_leaf_inv in Hto as (out & pk' & sg' & _ & Hpk' & Hsg' & _ & ->);
      unfold shard_signature_verifies, verify_signature in Hnv; simpl in Hnv;
      rewrite Hpk, Hsg in Hnv; apply of_option_Ok in Ht; destruct (Hlen _ _ _ Ht Hpk Hsg) as [Hlp Hls]
  end.
  simplify_eq. unfold handleInvalidSignature. rewrite bool_decide_false by done. simpl.
  rewrite aux_signature_roundtrip by done. simpl.
  rewrite !bool_decide_true by done. simpl. rewrite Hver. simpl.
  by match goal with Hnv : ed25519_verify _ _ _ = false |- _ => rewrite Hnv end.
Qed.

Lemma consensus_proves r bid b leaf obid other proof oleaf :
  is32 obid → dict_get obid (batches r) = Some other → Forall is32 proof → leaf_ok oleaf →
  oz_verify proof (b_merkleRoot other) (hash_leaf oleaf) = true →
  obid ≠ bid → b_consensus_group_id b ≠ zero_bytes32 →
  b_consensus_group_id b = b_consensus_group_id other → b_provider b ≠ b_provider other →
  leaf_job_id_hash leaf = leaf_job_id_hash oleaf →
  leaf_shard_index leaf = leaf_shard_index oleaf →
  leaf_output_hash leaf ≠ leaf_output_hash oleaf →
  handleConsensusMismatch r bid b leaf (aux_encode_consensus obid proof oleaf) = Done true.
Proof.
  intros Hobid Ho H32 Hok Hoz Hne Hg Hgg Hpp Hj Hsh Hout. unfold handleConsensusMismatch.
  rewrite aux_consensus_roundtrip by done. simpl. rewrite Ho, Hsh, Z.eqb_refl. simpl.
  repeat (case_bool_decide; simpl; try congruence).
Qed.

Lemma consensus_handled m r bid b receipts i obid other oreceipts oi s o ls lo c :
  verify_receipt_set_against_root receipts (b_merkleRoot b) = Ok true →
  assemble_consensus_mismatch_challenge bid receipts i obid oreceipts oi = Ok c →
  on_chain r obid other oreceipts → obid ≠ bid →
  b_consensus_group_id b ≠ zero_bytes32 →
  b_consensus_group_id b = b_consensus_group_id other → b_provider b ≠ b_provider other →
  receipts !! Z.to_nat i = Some s → oreceipts !! Z.to_nat oi = Some o →
  batched_receipt_to_leaf s = Ok ls → batched_receipt_to_leaf o = Ok lo →
  leaf_job_id_hash ls = leaf_job_id_hash lo → leaf_shard_index ls = leaf_shard_index lo →
  leaf_output_hash ls ≠ leaf_output_hash lo →
  handled m r bid b c true.
Proof.
  intros Hv Ha (Hobid & Ho & Hov) Hne Hg Hgg Hpp Hs Hoo Hls Hlo Hj Hsh Hout.
  unfold assemble_consensus_mismatch_challenge, leaf_and_proof in Ha. inv_result.
  repeat match goal with
  | Hl : receipt_leaves ?rs = Ok ?ls, Ht : item ?rs ?j = Ok ?br, Hi : item ?ls ?j = Ok ?leaf,
    Hto : batched_receipt_to_leaf ?br = Ok ?leaf',
    Hc : verify_receipt_set_against_root ?rs _ = Ok true,
    Hp : build_merkle_proof (_ <$> ?ls) ?j = Ok _ |- _ =>
      pose proof (leaf_of_target _ _ _ _ _ Hl Ht Hi); assert (leaf' = leaf) as -> by congruence;
      destruct (committed_leaf _ _ _ _ _ _ Hc Hl Hi Hp);
      apply of_option_Ok in Ht; clear Hl Hi
  end.
  simplify_eq. split_and!; [done | done |]. simpl.
  eapply consensus_proves; eauto using batched_receipt_to_leaf_ok; congruence.
Qed.

Lemma double_spend_handled m r bid b receipts i obid other hashes oi c :
  verify_receipt_set_against_root receipts (b_merkleRoot b) = Ok true →
  assemble_double_spend_challenge bid receipts i obid hashes oi = Ok c →
  is32 obid → dict_get obid (batches r) = Some other → Forall is32 hashes →
  verify_leaf_hashes_against_root hashes (b_merkleRoot other) = Ok true →
  handled m r bid b c (b_commitTimestamp other <? b_commitTimestamp b).
Proof.
  intros Hv Ha Hobid Ho H32 Hov. unfold assemble_double_spend_challenge in Ha. inv_result.
  match goal with
  | Hne : bool_decide (_ = obid) = false, Heq : negb (bool_decide (_ = ?h)) = false,
    Hh : item hashes oi = Ok ?h, Hl : receipt_leaves _ = Ok _, Hi : item _ i = Ok _,
    Hp : build_merkle_proof (_ <$> _) i = Ok _, Hq : build_merkle_proof hashes oi = Ok _ |- _ =>
      apply bool_decide_eq_false in Hne; apply negb_false_iff, bool_decide_eq_true in Heq as <-;
      destruct (committed_leaf _ _ _ _ _ _ Hv Hl Hi Hp) as [_ Hok];
      apply of_option_Ok in Hh;
      destruct (proof_accepted _ _ _ _ _ H32 (cross_check_leaf_hashes _ _ Hov) Hh Hq) as [? Hok']
  end.
  split_and!; [done | done |]. simpl. unfold handleDoubleSpend.
  rewrite aux_double_spend_roundtrip by done. simpl. rewrite bool_decide_false by done.
  rewrite Ho. simpl. destruct (Z.leb_spec (b_commitTimestamp b) (b_commitTimestamp other)).
  - by replace (_ <? _) with false by lia.
  - replace (_ <? _) with true by lia. by rewrite Hok'.
Qed.

(** C9 An assembled challenge is accepted.  Take a pending batch, its window open,
    whose receipts pass the root cross-check, and a challenge an assembler
    returned for one of its leaves: NO_ESCROW sent by the requester; EXPIRED,
    assembled at a time the block has reached, under the window stored with the
    batch; INVALID_SIGNATURE, when the configured verifier checks Ed25519;
    CONSENSUS_MISMATCH against another provider's batch of the same consensus
    group, for the same job and shard and another output; DOUBLE_SPEND against a
    batch committed strictly earlier.  The transaction goes through and
    invalidates the leaf: the leaf tuple, the proof and the auxiliary data are the
    ones the contract checks. *)
Theorem challenge_accepted m r bid b receipts i c :
  on_chain r bid b receipts → assembled m r bid b receipts i c →
  challengeable m r bid b (ch_leaf c) (ch_reason_code c) →
  accepted (submit m c r) bid (hash_leaf (ch_leaf c)).
Proof.
  intros (Hbid & Hb & Hv) Ha Hc.
  enough (handled m r bid b c true) as (Hid & Hoz & Hh).
  { unfold submit. rewrite Hid. by apply challenge_to_handler with (b := b). }
  clear Hc. destruct Ha as [c Ha Hreq|now c Ha Hnow|c Ha Hz Hver Hlen
    |obid other oreceipts oi s o ls lo c Ha Ho Hne Hg Hgg Hpp Hs Hoo Hls Hlo Hj Hsh Hout
    |obid other hashes oi c Ha Hobid Ho H32 Hov Hts].
  - eapply no_escrow_handled; eauto.
  - eapply expired_handled; eauto.
  - eapply invalid_signature_handled; eauto.
  - eapply consensus_handled; eauto.
  - apply Z.ltb_lt in Hts. rewrite <-Hts. by eapply double_spend_handled.
Qed.
End Accepted.

(** ** What passes the root cross-check *)

(** The byte strings hashed to build the trees of two sets of leaves. *)
Definition cross_inputs `{Externals} (ls1 ls2 : list ReceiptLeaf) : list bytes :=
  (encode_leaf <$> ls1 ++ ls2) ++ tree_inputs (length ls1) (hash_leaf <$> ls1) ++
  tree_inputs (length ls2) (hash_leaf <$> ls2).

Lemma same_root_incl `{KeccakLaws, !AbiLaws} ls1 ls2 root l :
  Forall leaf_ok ls1 → Forall leaf_ok ls2 → no_collision (cross_inputs ls1 ls2) →
  build_merkle_root (hash_leaf <$> ls1) = Ok root →
  build_merkle_root (hash_leaf <$> ls2) = Ok root → l ∈ ls1 → l ∈ ls2.
Proof.
  intros Hok1 Hok2 Hinj Hr1 Hr2 Hl. unfold cross_inputs in Hinj. rewrite fmap_app in Hinj.
  apply list_elem_of_lookup in Hl as [i Hi].
  destruct (build_merkle_proof_spec (hash_leaf <$> ls1) i (hash_leaf l)) as (p & r & Hp & Hr & Hv & _).
  { by rewrite list_lookup_fmap, Hi. }
  assert (r = root) as -> by congruence. apply bool_decide_eq_true in Hv.
  destruct (build_merkle_root_Ok (hash_leaf <$> ls2)) as (r' & Hr' & Hred).
  { intros Hn. by rewrite Hn in Hr2. }
  assert (r' = root) as -> by congruence. rewrite length_fmap in Hred.
  destruct (proof_loop_inputs (length ls1) (hash_leaf <$> ls1) i (hash_leaf l) p) as [H32 Hin].
  { by rewrite list_lookup_fmap, Hi. }
  { apply hash_leaves_32. }
  { unfold build_merkle_proof in Hp. inv_result. by rewrite length_fmap in Hp. }
  set (inputs := ((encode_leaf <$> ls1) ++ (encode_leaf <$> ls2)) ++ _) in Hinj.
  assert (∀ l', l' ∈ ls1 ∨ l' ∈ ls2 → encode_leaf l' ∈ inputs) as Henc.
  { intros l' Hl'. unfold inputs. rewrite !elem_of_app. left.
    destruct Hl'; [left|right]; by apply list_elem_of_fmap_2. }
  assert (l ∈ ls1) as Hl1 by by eapply list_elem_of_lookup_2.
  assert (hash_leaf l ∈ hash_leaf <$> ls2) as Hmem.
  { eapply (fold_sound (λ x, x ∈ inputs) Hinj (length ls2) (encode_leaf l) _ p).
    - split_and!; [done | auto | by rewrite encode_leaf_length].
    - apply Forall_forall. intros x Hx. unfold inputs. rewrite !elem_of_app. auto.
    - apply Forall_forall. intros x Hx. unfold inputs. rewrite !elem_of_app. auto.
    - apply Forall_fmap, Forall_forall. intros l' Hl'. exists (encode_leaf l').
      split_and!; [done | auto | by rewrite encode_leaf_length].
    - done.
    - rewrite Hred, Hv. by left. }
  apply list_elem_of_fmap in Hmem as (l' & Heq & Hl').
  unfold hash_leaf in Heq. apply Hinj in Heq; [|auto|auto].
  rewrite Forall_forall in Hok1, Hok2.
  apply leaf_values_inj in Heq as ->; auto.
Qed.

(** The root cross-check admits only what was committed.  If keccak has no
    collision among the strings hashed for the two trees, a fetched receipt set
    that passes [verify_receipt_set_against_root] for the root of a committed set
    has exactly the committed leaves: nothing forged or altered gets in, nothing
    committed is withheld. *)
Theorem cross_check_sound `{KeccakLaws, !AbiLaws} committed fetched root ls1 ls2 :
  verify_receipt_set_against_root committed root = Ok true →
  verify_receipt_set_against_root fetched root = Ok true →
  receipt_leaves committed = Ok ls1 → receipt_leaves fetched = Ok ls2 →
  no_collision (cross_inputs ls1 ls2) → no_collision (cross_inputs ls2 ls1) →
  ∀ l, l ∈ ls1 ↔ l ∈ ls2.
Proof.
  intros (ls1' & Hl1' & Hr1)%cross_check_inv (ls2' & Hl2' & Hr2)%cross_check_inv Hl1 Hl2 Hi Hi' l.
  assert (ls1' = ls1) as -> by congruence. assert (ls2' = ls2) as -> by congruence.
  assert (∀ rs ls, receipt_leaves rs = Ok ls → Forall leaf_ok ls) as Hok.
  { unfold receipt_leaves. intros rs ls Hf%result_mapM_Forall2. apply Forall_forall. intros x Hx.
    apply list_elem_of_lookup in Hx as [i Hx].
    destruct (Forall2_lookup_r _ _ _ _ _ Hf Hx) as (br & _ & Hbr).
    by eapply batched_receipt_to_leaf_ok. }
  split; eapply same_root_incl; eauto.
Qed.

(** The order is not part of what the check admits: two siblings hash to the same
    node in either order. *)
Lemma swapped_pair_passes `{Externals} a b la lb root :
  batched_receipt_to_leaf a = Ok la → batched_receipt_to_leaf b = Ok lb →
  verify_receipt_set_against_root [a; b] root = verify_receipt_set_against_root [b; a] root.
Proof.
  intros Ha Hb. unfold verify_receipt_set_against_root, recompute_root, receipt_leaves. simpl.
  rewrite Ha, Hb. simpl. by rewrite hash_pair_comm.
Qed.

(** ** The direction of a double-spend challenge *)

Section Direction.
Context `{KeccakLaws, !ContractEnv, !ContractLaws}.

Definition commit_time (r : Registry) (bid : bytes) : Z :=
  default 0 (b_commitTimestamp <$> dict_get bid (batches r)).

(** The retained data are those of batches on chain. *)
Definition anchored (r : Registry) (receipts_by_batch : dict bytes (list BatchedReceipt))
    (leaf_hashes_by_batch : dict bytes (list bytes)) : Prop :=
  (∀ bid rs, dict_get bid receipts_by_batch = Some rs → ∃ b, on_chain r bid b rs) ∧
  (∀ bid hs, dict_get bid leaf_hashes_by_batch = Some hs →
     ∃ b, is32 bid ∧ dict_get bid (batches r) = Some b ∧ Forall is32 hs ∧
          verify_leaf_hashes_against_root hs (b_merkleRoot b) = Ok true).

Definition in_commit_order (r : Registry) (batches : list LeafBatch) : Prop :=
  StronglySorted (λ x y, commit_time r (lb_batch_id x) <= commit_time r (lb_batch_id y)) batches.

Lemma StronglySorted_filter {A} (R : A → A → Prop) (P : A → Prop) `{!∀ x, Decision (P x)} l :
  StronglySorted R l → StronglySorted R (filter P l).
Proof.
  induction 1 as [|x l Hl IH Hx]; [constructor|]. rewrite filter_cons. case_decide; [|done].
  constructor; [done|]. apply Forall_forall. intros y [_ Hy]%list_elem_of_filter.
  rewrite Forall_forall in Hx. auto.
Qed.

Lemma StronglySorted_fmap {A B} (f : A → B) (R : B → B → Prop) l :
  StronglySorted (λ x y, R (f x) (f y)) l → StronglySorted R (f <$> l).
Proof.
  induction 1 as [|x l Hl IH Hx]; simpl; [constructor|]. constructor; [done|]. by apply Forall_fmap.
Qed.

Lemma positions_in_order r batches :
  in_commit_order r batches →
  StronglySorted (λ x y : bytes * LeafOccurrence,
      commit_time r (occ_batch_id x.2) <= commit_time r (occ_batch_id y.2)) (leaf_positions batches).
Proof.
  induction 1 as [|b batches Hs IH Hb]; [constructor|].
  unfold leaf_positions. simpl. apply StronglySorted_app. split_and!; [| |done].
  - intros [h o] [h' o'] (i & _ & ->)%elem_batch_positions
      (b' & j & Hb' & _ & ->)%elem_leaf_positions. simpl.
    rewrite Forall_forall in Hb. auto.
  - unfold batch_positions. apply StronglySorted_fmap. simpl.
    induction (enumerate (lb_leaf_hashes b)); constructor; [done|]. apply Forall_forall. lia.
Qed.

(** The double-spend challenge is aimed at the wrong batch.  When the detector
    is given the batches in commit order, as the verified cache and the client
    list them, every challenge [assemble_from_double_spend_finding] builds names
    the earlier batch as the target and a batch committed no earlier as the
    conflict; the contract, which only slashes the later committer, rejects it
    with [ChallengeNotProven]: no double spend so assembled can be proven on
    chain. *)
Theorem double_spend_rejected m r batches f receipts_by_batch leaf_hashes_by_batch c b :
  f ∈ detect_double_spends batches → in_commit_order r batches →
  anchored r receipts_by_batch leaf_hashes_by_batch →
  assemble_from_double_spend_finding f receipts_by_batch leaf_hashes_by_batch = Ok c →
  challengeable m r (ch_batch_id c) b (ch_leaf c) DOUBLE_SPEND →
  submit m c r = Revert (ChallengeNotProven DOUBLE_SPEND).
Proof.
  intros Hf Hord [Hrs Hhs] Ha Hc. apply elem_double_spend in Hf as [Heq _].
  unfold assemble_from_double_spend_finding in Ha. inv_result.
  rename r0 into oo. rename r1 into rs. rename r2 into hs.
  destruct (Hrs _ _ Hr0) as (b' & Hid & Hb & Hv), (Hhs _ _ Hr1) as (other & Hoid & Ho & H32 & Hov).
  pose proof (double_spend_handled m r _ b' _ _ _ _ _ _ _ Hv Ha Hoid Ho H32 Hov) as Hh.
  assert (ch_batch_id c = occ_batch_id oo.1) as Hcid by apply Hh.
  assert (b' = b) as ->.
  { destruct Hc as (_ & Hb' & _). rewrite Hcid in Hb'. congruence. }
  assert (b_commitTimestamp b <= b_commitTimestamp other) as Hle.
  { enough (commit_time r (occ_batch_id oo.1) <= commit_time r (occ_batch_id oo.2)) as Hle.
    { unfold commit_time in Hle. by rewrite Hb, Ho in Hle. }
    apply positions_in_order, (StronglySorted_filter _ (λ kv, kv.1 = ds_leaf_hash f)) in Hord.
    assert (ds_occurrences f = values_at (ds_leaf_hash f) (leaf_positions batches)) as Hocc
      by (by rewrite Heq).
    apply (StronglySorted_fmap snd
      (λ o o', commit_time r (occ_batch_id o) <= commit_time r (occ_batch_id o'))) in Hord.
    change (StronglySorted (λ o o', commit_time r (occ_batch_id o) <= commit_time r (occ_batch_id o'))
              (values_at (ds_leaf_hash f) (leaf_positions batches))) in Hord.
    rewrite <-Hocc in Hord. unfold pick_distinct_batch_occurrences in Hr.
    destruct (ds_occurrences f) as [|first rest]; [done|]. inv_result. simpl.
    apply StronglySorted_cons in Hord as [Hall _]. rewrite Forall_forall in Hall. apply Hall.
    apply head_Some_elem_of, list_elem_of_filter in Hr2. tauto. }
  replace (_ <? _) with false in Hh by lia.
  unfold submit. rewrite Hcid in *. destruct Hh as (_ & Hoz & Hh).
  assert (ch_reason_code c = DOUBLE_SPEND) as Hds.
  { unfold assemble_double_spend_challenge in Ha. by inv_result. }
  rewrite Hds in *. by eapply challenge_to_handler.
Qed.
End Direction.
