(* ===== verification/AuditEngine.v ===== *)
(** * The observer's audit engine

    Models prsm/settlement/settlement_audit_engine.py: the batches an observer
    reads from the chain ([ObservedBatch]), the selectors, the cache that admits a
    fetched receipt set only when it reproduces the root on chain
    ([VerifiedBatchCache]), and the scans that turn the cache into findings with
    their assembled challenges.  The scan over inference receipts is not modelled
    (its verifier needs the inference receipt); the cache retains those receipts,
    of an abstract type. *)
From Stdlib Require Import ZArith Lia.
From S2P Require Import PyStd.
From S2P Require Import Externals.
From S2P Require Import Receipt.
From S2P Require Import Merkle.
From S2P Require Import Published.
From S2P Require Import Registry.
From S2P Require Import Grouping.
From S2P Require Import Detectors.
From S2P Require Import Challenges.
From S2P Require Import Prelude.

#[local] Open Scope string_scope.
#[local] Open Scope list_scope.
#[local] Open Scope Z_scope.

(** ** Observed batches and selectors *)

Record ObservedBatch : Type := {
  ob_batch_id : bytes;
  ob_provider_address : string;
  ob_requester_address : string;
  ob_merkle_root : bytes;
  ob_consensus_group_id : bytes;
  ob_cid : option string;
  ob_lookback_window_seconds : Z
}.

Definition eq_addr (a b : string) : bool := bool_decide (lower a = lower b).

(** [OwnStakeSelector(my_address).select]; the constructor refuses an empty
    address. *)
Definition own_stake_select (my_address : string) (observed : list ObservedBatch)
  : result (list ObservedBatch) :=
  _ ← raise_if (bool_decide (my_address = "")) ValueError;
  Ok (filter (λ b, eq_addr (ob_requester_address b) my_address = true) observed).

(** [ConsensusGroupSelector(my_group_ids).select] *)
Definition consensus_group_select (my_group_ids : list bytes) (observed : list ObservedBatch)
  : list ObservedBatch :=
  let mine := filter (λ g, g ≠ zero32) my_group_ids in
  filter (λ b, ob_consensus_group_id b ≠ zero32 ∧ ob_consensus_group_id b ∈ mine) observed.

(** ** The verified cache *)

(** The CommittedBatch record built for an observed batch (its [tx_hash] is empty
    and its [trigger_reason] is None). *)
Record CachedBatch : Type := {
  ca_batch_id : bytes;
  ca_provider_address : string;
  ca_requester_address : string;
  ca_merkle_root : bytes;
  ca_receipt_count : Z;
  ca_total_value_ftns : Z;
  ca_commit_timestamp : Z;
  ca_leaf_hashes : list bytes
}.

Section Cache.
Context {R : Type}.

Record VerifiedBatchCache : Type := {
  vc_max_batches : Z;
  vc_entries : dict string (CachedBatch * list BatchedReceipt);
  vc_inference_receipts : dict string (dict bytes R);
  vc_consensus_group_ids : dict string bytes;
  vc_lookback_window_seconds : dict string Z
}.

Definition cache_init (max_batches : Z) : result VerifiedBatchCache :=
  _ ← raise_if (max_batches <=? 0) ValueError;
  Ok {| vc_max_batches := max_batches; vc_entries := []; vc_inference_receipts := [];
        vc_consensus_group_ids := []; vc_lookback_window_seconds := [] |}.

(** [pop(key, None)] on the four dictionaries. *)
Definition cache_drop (key : string) (c : VerifiedBatchCache) : VerifiedBatchCache :=
  {| vc_max_batches := vc_max_batches c;
     vc_entries := dict_del key (vc_entries c);
     vc_inference_receipts := dict_del key (vc_inference_receipts c);
     vc_consensus_group_ids := dict_del key (vc_consensus_group_ids c);
     vc_lookback_window_seconds := dict_del key (vc_lookback_window_seconds c) |}.

(** [while len(entries) > max_batches: popitem(last=False)]; every turn removes an
    entry, so their number is enough fuel. *)
Fixpoint cache_evict (fuel : nat) (c : VerifiedBatchCache) : VerifiedBatchCache :=
  match fuel, vc_entries c with
  | S fuel', (oldest, _) :: _ =>
      if vc_max_batches c <? zlen (vc_entries c) then cache_evict fuel' (cache_drop oldest c)
      else c
  | _, _ => c
  end.

Definition cache_put (key : string) (entry : CachedBatch * list BatchedReceipt)
    (s7 : dict bytes R) (group_id : bytes) (lookback : Z) (c : VerifiedBatchCache)
  : VerifiedBatchCache :=
  {| vc_max_batches := vc_max_batches c;
     vc_entries := dict_set key entry (vc_entries c);
     vc_inference_receipts := dict_set key s7 (vc_inference_receipts c);
     vc_consensus_group_ids := dict_set key group_id (vc_consensus_group_ids c);
     vc_lookback_window_seconds := dict_set key lookback (vc_lookback_window_seconds c) |}.

Context `{Externals}.

(** [ingest]: the cross-check first; an exception it raises is a rejection. *)
Definition ingest (c : VerifiedBatchCache) (observed : ObservedBatch) (fetched : PublishedBatch)
    (inference_receipts : dict bytes R) : result (VerifiedBatchCache * bool) :=
  match verify_receipt_set_against_root (pb_receipts fetched) (ob_merkle_root observed) with
  | Err _ | Ok false => Ok (c, false)
  | Ok true =>
      leaves ← receipt_leaves (pb_receipts fetched);
      let leaf_hashes := hash_leaf <$> leaves in
      let key := hex (ob_batch_id observed) in
      let committed :=
        {| ca_batch_id := ob_batch_id observed;
           ca_provider_address := ob_provider_address observed;
           ca_requester_address := ob_requester_address observed;
           ca_merkle_root := ob_merkle_root observed;
           ca_receipt_count := zlen (pb_receipts fetched);
           ca_total_value_ftns := Zsum (value_ftns <$> pb_receipts fetched);
           ca_commit_timestamp := pb_commit_timestamp fetched;
           ca_leaf_hashes := leaf_hashes |} in
      let c1 := if dict_mem key (vc_entries c) then cache_drop key c else c in
      let retained := filter (λ kv, kv.1 ∈ leaf_hashes) inference_receipts in
      let c2 := cache_put key (committed, pb_receipts fetched) retained
                  (ob_consensus_group_id observed) (ob_lookback_window_seconds observed) c1 in
      Ok (cache_evict (length (vc_entries c2)) c2, true)
  end.

Definition verified_batches (c : VerifiedBatchCache) : list CachedBatch :=
  fst <$> dict_values (vc_entries c).

Definition receipts_for (c : VerifiedBatchCache) (batch_id : bytes) : option (list BatchedReceipt) :=
  snd <$> dict_get (hex batch_id) (vc_entries c).

Definition leaf_hashes_for (c : VerifiedBatchCache) (batch_id : bytes) : option (list bytes) :=
  (λ e : CachedBatch * list BatchedReceipt, ca_leaf_hashes e.1)
  <$> dict_get (hex batch_id) (vc_entries c).

Definition consensus_group_id_for (c : VerifiedBatchCache) (batch_id : bytes) : option bytes :=
  dict_get (hex batch_id) (vc_consensus_group_ids c).

Definition lookback_window_seconds_for (c : VerifiedBatchCache) (batch_id : bytes) : option Z :=
  dict_get (hex batch_id) (vc_lookback_window_seconds c).

Definition inference_receipts_for (c : VerifiedBatchCache) (batch_id : bytes) : dict bytes R :=
  default [] (dict_get (hex batch_id) (vc_inference_receipts c)).
End Cache.
Arguments VerifiedBatchCache R : clear implicits.

(** ** The scans *)

(** What an injected client's [dry_run] (a static call) answers. *)
Inductive dry_reason : Type :=
| RevertReason (reason : option string)
| DryRunError (e : exn).

Definition verdict : Type := option bool * option dry_reason.

(** [ChallengeAttempt] of marketplace/consensus_submitter.py.  Its leaf fields are
    those of [ReceiptLeaf], without the range checks. *)
Record ChallengeAttempt : Type := {
  at_minority_batch_id : bytes;
  at_minority_leaf : ReceiptLeaf;
  at_minority_proof : list bytes;
  at_majority_batch_id : bytes;
  at_majority_leaf : ReceiptLeaf;
  at_majority_proof : list bytes
}.

Inductive any_challenge : Type :=
| Assembled (c : Challenge)
| Attempted (a : ChallengeAttempt).

Definition dry_run_client : Type := option (any_challenge → result (bool * option string)).

Definition dry_run (client : dry_run_client) (c : any_challenge) : verdict :=
  match client with
  | None => (None, None)
  | Some call =>
      match call c with
      | Err e => (None, Some (DryRunError e))
      | Ok (ok, reason) => (Some ok, Some (RevertReason reason))
      end
  end.

(** [try: ... except Exception: return None] *)
Definition attempt {A} (m : result A) : option A :=
  match m with Ok a => Some a | Err _ => None end.

Record DoubleSpendAuditFinding : Type :=
  { dsa_finding : DoubleSpendFinding; dsa_dry_run : verdict }.
Record InvalidSignatureAuditFinding : Type :=
  { isa_batch_id : bytes; isa_receipt_index : Z; isa_dry_run : verdict }.
Record ConsensusMismatchAuditFinding : Type :=
  { cma_finding : ConsensusMismatchFinding; cma_attempt : option ChallengeAttempt;
    cma_dry_run : verdict }.
Record ExpiredReceiptAuditFinding : Type :=
  { exa_finding : ExpiredReceiptFinding; exa_challenge : option Challenge;
    exa_dry_run : verdict }.

Section Scans.
Context {R : Type} `{Externals, ContractEnv}.
Implicit Types (c : VerifiedBatchCache R) (client : dry_run_client).

Definition leaf_batch (b : CachedBatch) : LeafBatch :=
  {| lb_batch_id := ca_batch_id b; lb_provider_address := ca_provider_address b;
     lb_leaf_hashes := ca_leaf_hashes b |}.

Definition try_assemble_double_spend c (finding : DoubleSpendFinding) : option Challenge :=
  match ds_occurrences finding with
  | [] => None
  | first :: rest =>
      match head (filter (λ o, occ_batch_id o ≠ occ_batch_id first) rest) with
      | None => None
      | Some conflicting =>
          match receipts_for c (occ_batch_id first), leaf_hashes_for c (occ_batch_id conflicting) with
          | Some target_receipts, Some conflicting_leaves =>
              attempt (assemble_double_spend_challenge (occ_batch_id first) target_receipts
                         (occ_leaf_index first) (occ_batch_id conflicting) conflicting_leaves
                         (occ_leaf_index conflicting))
          | _, _ => None
          end
      end
  end.

Definition scan_double_spends client c : list DoubleSpendAuditFinding :=
  (λ f, {| dsa_finding := f;
           dsa_dry_run :=
             match client, try_assemble_double_spend c f with
             | Some _, Some ch => dry_run client (Assembled ch)
             | _, _ => (None, None)
             end |})
  <$> detect_double_spends (leaf_batch <$> verified_batches c).

(** One index: a returned challenge is a finding; any exception is skipped. *)
Definition invalid_signature_at client (batch_id : bytes) (receipts : list BatchedReceipt) (idx : Z)
  : option InvalidSignatureAuditFinding :=
  ch ← attempt (assemble_invalid_signature_challenge batch_id receipts idx);
  Some {| isa_batch_id := batch_id; isa_receipt_index := idx;
          isa_dry_run := dry_run client (Assembled ch) |}.

Definition scan_invalid_signatures client c : list InvalidSignatureAuditFinding :=
  verified_batches c ≫= λ cb,
    match receipts_for c (ca_batch_id cb) with
    | Some (x :: l) =>
        omap (λ ix : Z * BatchedReceipt, invalid_signature_at client (ca_batch_id cb) (x :: l) ix.1)
             (enumerate (x :: l))
    | _ => []
    end.

Definition build_consensus_detector_input c : list DetectorBatch :=
  omap (λ cb, match receipts_for c (ca_batch_id cb) with
              | Some (x :: l) =>
                  Some {| db_batch_id := ca_batch_id cb;
                          db_provider_address := ca_provider_address cb;
                          db_consensus_group_id :=
                            default zero32 (consensus_group_id_for c (ca_batch_id cb));
                          db_receipts := x :: l |}
              | _ => None
              end) (verified_batches c).

(** [ReceiptLeafFields.from_python_receipt] *)
Definition receipt_leaf_fields (br : BatchedReceipt) : result ReceiptLeaf :=
  let r := receipt br in
  output_bytes ← of_option ValueError (fromhex (output_hash r));
  _ ← raise_if (negb (zlen output_bytes =? 32)) ValueError;
  pubkey ← of_option BinasciiError (b64decode (provider_pubkey_b64 r));
  sig ← of_option BinasciiError (b64decode (signature r));
  Ok {| leaf_job_id_hash := keccak (utf8 (job_id r)); leaf_shard_index := shard_index r;
        leaf_provider_id_hash := keccak (utf8 (provider_id r));
        leaf_provider_pubkey_hash := keccak pubkey; leaf_output_hash := output_bytes;
        leaf_executed_at_unix := executed_at_unix r; leaf_value_ftns := value_ftns br;
        leaf_signature_hash := keccak sig;
        leaf_signing_message_hash :=
          keccak (utf8 (receipt_signing_text (job_id r) (shard_index r) (output_hash r)
                          (executed_at_unix r))) |}.

Definition assemble_attempt c (finding : ConsensusMismatchFinding) : result ChallengeAttempt :=
  let minor := cm_minority finding in
  let major := cm_majority finding in
  minority_receipts ← of_option AttributeError (receipts_for c (sd_batch_id minor));
  majority_receipts ← of_option AttributeError (receipts_for c (sd_batch_id major));
  minority_leaves ← of_option AttributeError (leaf_hashes_for c (sd_batch_id minor));
  majority_leaves ← of_option AttributeError (leaf_hashes_for c (sd_batch_id major));
  minority_leaf ← item minority_receipts (sd_leaf_index minor) ≫= receipt_leaf_fields;
  majority_leaf ← item majority_receipts (sd_leaf_index major) ≫= receipt_leaf_fields;
  minority_proof ← build_merkle_proof minority_leaves (sd_leaf_index minor);
  majority_proof ← build_merkle_proof majority_leaves (sd_leaf_index major);
  Ok {| at_minority_batch_id := sd_batch_id minor; at_minority_leaf := minority_leaf;
        at_minority_proof := minority_proof; at_majority_batch_id := sd_batch_id major;
        at_majority_leaf := majority_leaf; at_majority_proof := majority_proof |}.

(** An ambiguous finding is never assembled. *)
Definition try_assemble_consensus_mismatch c (finding : ConsensusMismatchFinding)
  : option ChallengeAttempt :=
  if cm_ambiguous finding then None else attempt (assemble_attempt c finding).

Definition scan_consensus_mismatches client c : list ConsensusMismatchAuditFinding :=
  (λ f, let a := try_assemble_consensus_mismatch c f in
        {| cma_finding := f; cma_attempt := a;
           cma_dry_run := match a with
                          | Some at_ => dry_run client (Attempted at_)
                          | None => (None, None)
                          end |})
  <$> detect_consensus_mismatches (build_consensus_detector_input c).

Definition build_expired_detector_input c : list ExpiredBatch :=
  omap (λ cb, match receipts_for c (ca_batch_id cb) with
              | Some (x :: l) =>
                  Some {| xb_batch_id := ca_batch_id cb; xb_receipts := x :: l;
                          xb_lookback_window_seconds :=
                            Some (default 0 (lookback_window_seconds_for c (ca_batch_id cb))) |}
              | _ => None
              end) (verified_batches c).

Definition try_assemble_expired c (finding : ExpiredReceiptFinding) (now : Z) : option Challenge :=
  match receipts_for c (ex_batch_id finding) with
  | Some (x :: l) =>
      attempt (assemble_expired_challenge (ex_batch_id finding) (x :: l) (ex_target_index finding)
                 now (ex_lookback finding))
  | _ => None
  end.

Definition scan_expired_receipts client c (now safety_margin_seconds : Z)
  : list ExpiredReceiptAuditFinding :=
  (λ f, let ch := try_assemble_expired c f now in
        {| exa_finding := f; exa_challenge := ch;
           exa_dry_run := match ch with
                          | Some c' => dry_run client (Assembled c')
                          | None => (None, None)
                          end |})
  <$> detect_expired_receipts (build_expired_detector_input c) now safety_margin_seconds.

(** [ConsensusChallengeSubmitter] sends an attempt with the auxiliary data of
    [encode_consensus_mismatch_aux]. *)
Definition attempt_challenge (a : ChallengeAttempt) : Challenge :=
  {| ch_batch_id := at_minority_batch_id a; ch_leaf := at_minority_leaf a;
     ch_merkle_proof := at_minority_proof a; ch_reason_code := CONSENSUS_MISMATCH;
     ch_aux_data := aux_encode_consensus (at_majority_batch_id a) (at_majority_proof a)
                      (at_majority_leaf a) |}.
End Scans.
