(* ===== verification/AuditTheorems.v ===== *)
(** * The audit engine is safe to act on

    The invariant of the verified cache, and the theorem that what the scans
    assemble from it is accepted by the contract. *)
From Stdlib Require Import ZArith Lia.
From S2P Require Import PyStd.
From S2P Require Import Externals.
From S2P Require Import Receipt.
From S2P Require Import Attestation.
From S2P Require Import Merkle.
From S2P Require Import Published.
From S2P Require Import Registry.
From S2P Require Import Grouping.
From S2P Require Import Detectors.
From S2P Require Import ConsensusTheorems.
From S2P Require Import Challenges.
From S2P Require Import ChallengeTheorems.
From S2P Require Import AuditEngine.
From S2P Require Import Prelude.

#[local] Open Scope string_scope.
#[local] Open Scope list_scope.
#[local] Open Scope Z_scope.

(** ** Lemmas: dictionaries in lockstep *)

Section Lockstep.
Context {K : Type} `{!EqDecision K} {V V' : Type}.
Implicit Types (d : dict K V).

Lemma dict_keys_del_eq k d (d' : dict K V') :
  dict_keys d = dict_keys d' → dict_keys (dict_del k d) = dict_keys (dict_del k d').
Proof.
  unfold dict_keys. revert d'. induction d as [|[k1 v1] d IH]; intros [|[k2 v2] d']; simpl; [done..|].
  intros [= -> Heq]. case_decide; simpl; [done|]. f_equal. by apply IH.
Qed.

Lemma dict_keys_set_eq k v v' d (d' : dict K V') :
  dict_keys d = dict_keys d' → dict_keys (dict_set k v d) = dict_keys (dict_set k v' d').
Proof. intros Heq. by rewrite !dict_keys_set, Heq. Qed.

Lemma dict_get_lockstep k d (d' : dict K V') :
  dict_keys d = dict_keys d' → is_Some (dict_get k d) → is_Some (dict_get k d').
Proof.
  intros Heq. rewrite <-!not_eq_None_Some, !dict_get_None. by rewrite Heq.
Qed.
End Lockstep.

(** ** The invariant of the cache *)

Section CacheInvariant.
Context {R : Type} `{KeccakLaws}.
Implicit Types (c : VerifiedBatchCache R).

(** [cb] and [rs] are what ingesting [o] stores. *)
Definition entry_of (o : ObservedBatch) (k : string) (cb : CachedBatch)
    (rs : list BatchedReceipt) c : Prop :=
  k = hex (ob_batch_id o) ∧
  (ca_batch_id cb, ca_provider_address cb, ca_requester_address cb, ca_merkle_root cb) =
  (ob_batch_id o, ob_provider_address o, ob_requester_address o, ob_merkle_root o) ∧
  verify_receipt_set_against_root rs (ob_merkle_root o) = Ok true ∧
  (∃ leaves, receipt_leaves rs = Ok leaves ∧ ca_leaf_hashes cb = hash_leaf <$> leaves) ∧
  dict_get k (vc_consensus_group_ids c) = Some (ob_consensus_group_id o) ∧
  dict_get k (vc_lookback_window_seconds c) = Some (ob_lookback_window_seconds o) ∧
  ∃ s7, dict_get k (vc_inference_receipts c) = Some s7 ∧
        ∀ h, h ∈ dict_keys s7 → h ∈ ca_leaf_hashes cb.

(** The invariant but for the bound, which an insertion exceeds for a moment. *)
Definition cache_core (P : ObservedBatch → Prop) c : Prop :=
  0 < vc_max_batches c ∧ dict_wf (vc_entries c) ∧
  dict_keys (vc_inference_receipts c) = dict_keys (vc_entries c) ∧
  dict_keys (vc_consensus_group_ids c) = dict_keys (vc_entries c) ∧
  dict_keys (vc_lookback_window_seconds c) = dict_keys (vc_entries c) ∧
  ∀ k cb rs, dict_get k (vc_entries c) = Some (cb, rs) → ∃ o, P o ∧ entry_of o k cb rs c.

Definition cache_ok (P : ObservedBatch → Prop) c : Prop :=
  cache_core P c ∧ zlen (vc_entries c) <= vc_max_batches c.

Lemma wf_lock {V V'} (d : dict string V) (d' : dict string V') :
  dict_keys d = dict_keys d' → dict_wf d' → dict_wf d.
Proof. unfold dict_wf. by intros ->. Qed.

Lemma cache_drop_core P key c : cache_core P c → cache_core P (cache_drop key c).
Proof.
  intros (Hmax & Hwf & Hi & Hg & Hl & He). unfold cache_core, cache_drop. simpl.
  split_and!; eauto using dict_wf_del, dict_keys_del_eq.
  intros k cb rs Hget. rewrite dict_get_del in Hget by done. case_decide as Hk; [done|].
  destruct (He _ _ _ Hget) as (o & Ho & Hkk & Hf & Hv & Hlv & Hgg & Hll & Hs7).
  exists o. split; [done|]. unfold entry_of. simpl.
  rewrite !dict_get_del by (by eapply wf_lock). rewrite !decide_False by done. by split_and!.
Qed.

Lemma cache_evict_core P fuel c : cache_core P c → cache_core P (cache_evict fuel c).
Proof.
  revert c; induction fuel as [|fuel IH]; intros c Hc; simpl; [done|].
  destruct (vc_entries c) as [|[k e] d]; [done|].
  case_match; [|done]. by apply IH, cache_drop_core.
Qed.

(** Eviction drops the oldest entries down to the bound. *)
Lemma cache_evict_entries fuel c :
  (length (vc_entries c) <= fuel)%nat → 0 <= vc_max_batches c →
  vc_entries (cache_evict fuel c) =
    drop (length (vc_entries c) - Z.to_nat (vc_max_batches c)) (vc_entries c) ∧
  vc_max_batches (cache_evict fuel c) = vc_max_batches c.
Proof.
  revert c; induction fuel as [|fuel IH]; intros c Hf Hmax; simpl.
  - split; [|done]. destruct (vc_entries c); [by rewrite drop_nil | simpl in Hf; lia].
  - destruct (vc_entries c) as [|[k e] d] eqn:E; [by rewrite E|].
    destruct (vc_max_batches c <? _) eqn:Elt.
    + destruct (IH (cache_drop k c)) as [IH1 IH2]; [| done|].
      { simpl. rewrite E. simpl. rewrite decide_True by done. by apply le_S_n. }
      rewrite IH1, IH2. simpl. rewrite E. simpl. rewrite decide_True by done.
      split; [|done]. simpl in Elt. apply Z.ltb_lt in Elt. rewrite Nat.sub_succ_l; [done|].
      apply Nat2Z.inj_le. rewrite Z2Nat.id by done. apply Z.lt_succ_r. by rewrite <-Nat2Z.inj_succ.
    + rewrite E. apply Z.ltb_ge in Elt. simpl length in *.
      replace (_ - _)%nat with 0%nat; [done|]. symmetry. apply Nat.sub_0_le, Nat2Z.inj_le.
      by rewrite Z2Nat.id.
Qed.

Lemma cache_put_core P o key cb rs s7 c :
  P o → cache_core P c → key ∉ dict_keys (vc_entries c) →
  key = hex (ob_batch_id o) →
  (ca_batch_id cb, ca_provider_address cb, ca_requester_address cb, ca_merkle_root cb) =
  (ob_batch_id o, ob_provider_address o, ob_requester_address o, ob_merkle_root o) →
  verify_receipt_set_against_root rs (ob_merkle_root o) = Ok true →
  (∃ leaves, receipt_leaves rs = Ok leaves ∧ ca_leaf_hashes cb = hash_leaf <$> leaves) →
  (∀ h, h ∈ dict_keys s7 → h ∈ ca_leaf_hashes cb) →
  cache_core P (cache_put key (cb, rs) s7 (ob_consensus_group_id o) (ob_lookback_window_seconds o) c).
Proof.
  intros HP (Hmax & Hwf & Hi & Hg & Hl & He) Hnew Hkey Hf Hv Hlv Hs7. unfold cache_core. simpl.
  split_and!; eauto using dict_wf_set, dict_keys_set_eq.
  intros k cb' rs' Hget. rewrite dict_get_set in Hget. case_decide as Hk; simplify_eq.
  - exists o. split; [done|]. unfold entry_of. simpl. rewrite !dict_get_set_eq.
    split_and!; [done | by repeat f_equal | done | done | done | done | by exists s7].
  - destruct (He _ _ _ Hget) as (o' & Ho' & Hkk & Hf' & Hv' & Hlv' & Hgg & Hll & Hs7').
    exists o'. split; [done|]. unfold entry_of. simpl. rewrite !dict_get_set_ne by done.
    by split_and!.
Qed.

Lemma cache_init_ok P max_batches c : cache_init max_batches = Ok c → cache_ok P c.
Proof.
  unfold cache_init. intros Hc. inv_result. unfold cache_ok, cache_core, dict_wf. simpl.
  split_and!; try done; try lia. constructor.
Qed.

(** The branch that admits. *)
Lemma ingest_admits P c o fetched s7 :
  cache_ok P c → P o →
  verify_receipt_set_against_root (pb_receipts fetched) (ob_merkle_root o) = Ok true →
  ∃ c', ingest c o fetched s7 = Ok (c', true) ∧ cache_ok P c' ∧
        receipts_for c' (ob_batch_id o) = Some (pb_receipts fetched).
Proof.
  intros [Hc Hb] HP Hv. unfold ingest. rewrite Hv.
  destruct (cross_check_inv _ _ Hv) as (leaves & Hl & _). rewrite Hl. simpl.
  set (key := hex (ob_batch_id o)).
  set (c1 := if dict_mem key (vc_entries c) then cache_drop key c else c).
  set (cb := {| ca_batch_id := _ |}).
  set (c2 := cache_put _ _ _ _ _ c1).
  change (dict_set key (cb, pb_receipts fetched) (vc_entries c1)) with (vc_entries c2).
  assert (cache_core P c1) as Hc1 by (unfold c1; case_match; [by apply cache_drop_core | done]).
  assert (key ∉ dict_keys (vc_entries c1)) as Hnew.
  { unfold c1. destruct (dict_mem key (vc_entries c)) eqn:E.
    - simpl. apply dict_get_None, dict_get_del_eq, Hc.
    - apply dict_get_None. by apply dict_mem_false. }
  assert (cache_core P c2) as Hc2.
  { apply (cache_put_core P o); try done; [by exists leaves|]. simpl.
    intros h (kv & -> & [Hin _]%list_elem_of_filter)%list_elem_of_fmap. done. }
  assert (vc_entries c2 = vc_entries c1 ++ [(key, (cb, pb_receipts fetched))]) as He2
    by (by apply dict_set_fresh).
  pose proof Hc2 as (Hmax & Hwf2 & _).
  destruct (cache_evict_entries (length (vc_entries c2)) c2) as [He Hm]; [done | lia|].
  eexists. split_and!; [done | |].
  - split; [by apply cache_evict_core|]. rewrite He, Hm, length_drop. lia.
  - unfold receipts_for. fold key.
    rewrite (elem_dict_get key (cb, pb_receipts fetched)); [done | |].
    + apply (cache_evict_core P), Hc2.
    + rewrite He, He2, length_app. assert (0 < Z.to_nat (vc_max_batches c2))%nat as Hpos by lia.
      rewrite drop_app_le; [apply elem_of_app; right; by left|].
      assert (∀ n k : nat, 0 < k → n + 1 - k <= n)%nat as Hsub by lia. by apply Hsub.
Qed.

(** The trust gate of the observer.  In a cache whose entries are those of
    observed batches (their receipts reproduce the root on chain, their leaf
    hashes are recomputed, their group and lookback window are the observed ones,
    inference receipts are kept only for their leaves; the four dictionaries have
    the same keys and stay within the bound), [ingest] never raises, keeps all of
    this, and admits a fetched set exactly when it passes the root cross-check.  A
    rejected set changes nothing; an admitted one can be read back at once. *)
Theorem cache_gate P c o fetched s7 :
  cache_ok P c → P o →
  ∃ c' ok, ingest c o fetched s7 = Ok (c', ok) ∧ cache_ok P c' ∧
    (ok = true ↔
     verify_receipt_set_against_root (pb_receipts fetched) (ob_merkle_root o) = Ok true) ∧
    (ok = false → c' = c) ∧
    (ok = true → receipts_for c' (ob_batch_id o) = Some (pb_receipts fetched)).
Proof.
  intros Hc HP.
  destruct (verify_receipt_set_against_root (pb_receipts fetched) (ob_merkle_root o)) as [[]|e] eqn:Hv;
    [|exists c, false; unfold ingest; rewrite Hv; by split_and!..].
  destruct (ingest_admits P c o fetched s7 Hc HP Hv) as (c' & Hi & Hc' & Hr).
  exists c', true. by split_and!.
Qed.
End CacheInvariant.

(** ** Lemmas: reading the cache *)

Section Audit.
Context {R : Type} `{KeccakLaws, !ContractEnv, !ContractLaws}.
Implicit Types (c : VerifiedBatchCache R).

(** The observation is what the registry holds. *)
Definition observed_on (r : Registry) (o : ObservedBatch) : Prop :=
  is32 (ob_batch_id o) ∧
  ∃ b, dict_get (ob_batch_id o) (batches r) = Some b ∧ b_merkleRoot b = ob_merkle_root o ∧
       b_provider b = ob_provider_address o ∧ b_consensus_group_id b = ob_consensus_group_id o ∧
       b_lookbackWindowSecondsAtCommit b = ob_lookback_window_seconds o.

(** A cached batch: what the accessors return, and what the chain holds. *)
Definition cached (r : Registry) c (id : bytes) (cb : CachedBatch) (rs : list BatchedReceipt)
    (b : Batch) : Prop :=
  ca_batch_id cb = id ∧ receipts_for c id = Some rs ∧ rs ≠ [] ∧ on_chain r id b rs ∧
  b_provider b = ca_provider_address cb ∧
  consensus_group_id_for c id = Some (b_consensus_group_id b) ∧
  lookback_window_seconds_for c id = Some (b_lookbackWindowSecondsAtCommit b) ∧
  ∃ leaves, receipt_leaves rs = Ok leaves ∧ leaf_hashes_for c id = Some (hash_leaf <$> leaves).

Lemma cross_check_nonempty rs root : verify_receipt_set_against_root rs root = Ok true → rs ≠ [].
Proof. by intros Hv ->. Qed.

Lemma verified_cached r c cb :
  cache_ok (observed_on r) c → cb ∈ verified_batches c → ∃ rs b, cached r c (ca_batch_id cb) cb rs b.
Proof.
  intros [(_ & Hwf & _ & _ & _ & He) _] Hcb. unfold verified_batches, dict_values in Hcb.
  apply list_elem_of_fmap in Hcb as ([cb' rs] & -> & Hin).
  apply list_elem_of_fmap in Hin as ([k e] & Heq & Hin). simplify_eq/=.
  apply elem_dict_get in Hin; [|done].
  destruct (He _ _ _ Hin) as (o & (H32 & b & Hb & Hr & Hp & Hg & Hl) & -> & [= Hid Hpr _ _] &
    Hv & (leaves & Hlv & Hh) & Hgg & Hll & _).
  exists rs, b. rewrite <-Hid in *.
  unfold cached, receipts_for, leaf_hashes_for, consensus_group_id_for, lookback_window_seconds_for,
    on_chain.
  rewrite Hin, Hgg, Hll, Hr, Hg, Hl. simpl. rewrite Hh.
  split_and!; try done; [by eapply cross_check_nonempty | congruence | by exists leaves].
Qed.

Lemma check_index_Ok {A} (l : list A) (i : nat) :
  (i < length l)%nat → check_index l (Z.of_nat i) = Ok tt.
Proof.
  intros Hi. unfold check_index. replace (zlen l =? 0) with false by lia. simpl.
  by replace (negb _) with false by lia.
Qed.

(** Everything about the leaf at a position of a committed set. *)
Lemma position_leaf rs root (i : nat) br leaf :
  verify_receipt_set_against_root rs root = Ok true → rs !! i = Some br →
  batched_receipt_to_leaf br = Ok leaf →
  ∃ leaves proof, receipt_leaves rs = Ok leaves ∧ item leaves (Z.of_nat i) = Ok leaf ∧
    item rs (Z.of_nat i) = Ok br ∧ check_index rs (Z.of_nat i) = Ok tt ∧
    build_merkle_proof (hash_leaf <$> leaves) (Z.of_nat i) = Ok proof.
Proof.
  intros Hv Hi Hl. destruct (cross_check_inv _ _ Hv) as (leaves & Hls & _).
  pose proof Hls as HF. apply result_mapM_Forall2 in HF.
  destruct (Forall2_lookup_l _ _ _ _ _ HF Hi) as (leaf' & Hleaf & Heq).
  assert (leaf' = leaf) as -> by congruence.
  destruct (build_merkle_proof_spec (hash_leaf <$> leaves) i (hash_leaf leaf)) as (p & _ & Hp & _).
  { by rewrite list_lookup_fmap, Hleaf. }
  exists leaves, p. unfold item. rewrite Nat2Z.id, Hi, Hleaf. split_and!; try done.
  apply check_index_Ok. by eapply lookup_lt_Some.
Qed.

Lemma assemble_expired_Ok bid rs root (i : nat) br leaf now lookback :
  verify_receipt_set_against_root rs root = Ok true → rs !! i = Some br →
  batched_receipt_to_leaf br = Ok leaf → 0 < lookback →
  lookback < now - leaf_executed_at_unix leaf →
  ∃ ch, assemble_expired_challenge bid rs (Z.of_nat i) now lookback = Ok ch ∧
        ch_batch_id ch = bid ∧ ch_leaf ch = leaf ∧ ch_reason_code ch = EXPIRED.
Proof.
  intros Hv Hi Hl Hpos Hage.
  destruct (position_leaf _ _ _ _ _ Hv Hi Hl) as (leaves & p & Hls & Hleaf & _ & Hc & Hp).
  unfold assemble_expired_challenge. rewrite Hc. simpl.
  replace (lookback <=? 0) with false by lia. simpl. rewrite Hls. simpl. rewrite Hleaf. simpl.
  replace (_ <=? lookback) with false by lia. simpl. rewrite Hp. simpl. by eexists.
Qed.

Lemma receipt_leaf_fields_eq br leaf :
  batched_receipt_to_leaf br = Ok leaf → receipt_leaf_fields br = Ok leaf.
Proof.
  intros Hl. pose proof Hl as (out & pk & sg & Ho & Hpk & Hsg & _ & ->)%batched_receipt_to_leaf_inv.
  unfold batched_receipt_to_leaf in Hl. unfold receipt_leaf_fields.
  rewrite Ho, Hpk, Hsg in *. simpl in *. inv_result.
  match goal with Hz : negb _ = false |- _ => rewrite Hz end. done.
Qed.

Lemma consensus_input r c db :
  cache_ok (observed_on r) c → db ∈ build_consensus_detector_input c →
  ∃ cb b, cached r c (db_batch_id db) cb (db_receipts db) b ∧
          db_provider_address db = b_provider b ∧ db_consensus_group_id db = b_consensus_group_id b.
Proof.
  intros Hok (cb & Hcb & Hdb)%list_elem_of_omap.
  destruct (verified_cached r c cb Hok Hcb) as (rs & b & Hc). pose proof Hc as
    (_ & Hrs & Hne & _ & Hp & Hg & _ & _). rewrite Hrs, Hg in Hdb.
  destruct rs as [|x l]; [done|]. simplify_eq/=. exists cb, b. by split_and!.
Qed.

Lemma expired_input r c xb :
  cache_ok (observed_on r) c → xb ∈ build_expired_detector_input c →
  ∃ cb b, cached r c (xb_batch_id xb) cb (xb_receipts xb) b ∧
          xb_lookback_window_seconds xb = Some (b_lookbackWindowSecondsAtCommit b).
Proof.
  intros Hok (cb & Hcb & Hxb)%list_elem_of_omap.
  destruct (verified_cached r c cb Hok Hcb) as (rs & b & Hc). pose proof Hc as
    (_ & Hrs & Hne & _ & Hp & _ & Hl & _). rewrite Hrs, Hl in Hxb.
  destruct rs as [|x l]; [done|]. simplify_eq/=. exists cb, b. by split_and!.
Qed.

(** ** Lemmas: one finding of each scan *)

Lemma accept_handled m r bid b ch :
  handled m r bid b ch true → challengeable m r bid b (ch_leaf ch) (ch_reason_code ch) →
  accepted (submit m ch r) bid (hash_leaf (ch_leaf ch)).
Proof.
  intros (Hid & Hoz & Hh) Hc. unfold submit. rewrite Hid. by apply challenge_to_handler with (b := b).
Qed.

Lemma expired_finding_actionable r c f now margin :
  cache_ok (observed_on r) c → 0 <= margin →
  f ∈ detect_expired_receipts (build_expired_detector_input c) now margin →
  ∃ ch, try_assemble_expired c f now = Some ch ∧ ch_batch_id ch = ex_batch_id f ∧
        ch_leaf ch = ex_leaf f ∧ ch_reason_code ch = EXPIRED ∧
        ∃ b, dict_get (ex_batch_id f) (batches r) = Some b ∧
             ∀ m, now <= block_timestamp m → handled m r (ex_batch_id f) b ch true.
Proof.
  intros Hok Hmargin (xb & i & br & leaf & lk & Hxb & Hi & Hl & Elk & Hpos & Hage & ->)%elem_expired.
  destruct (expired_input r c xb Hok Hxb) as (cb & b & (_ & Hrs & Hne & (H32 & Hb & Hv) & _) & Hlk).
  rewrite Elk in Hlk. injection Hlk as ->. simpl.
  destruct (assemble_expired_Ok (xb_batch_id xb) _ _ i br leaf now
              (b_lookbackWindowSecondsAtCommit b) Hv Hi Hl Hpos) as (ch & Hch & Hid & Hleaf & Hreason);
    [lia|].
  exists ch. unfold try_assemble_expired. simpl. rewrite Hrs.
  destruct (xb_receipts xb) as [|x l]; [done|]. rewrite Hch. split_and!; try done.
  exists b. split; [done|]. intros m Hm. by eapply expired_handled.
Qed.

Lemma consensus_side r c k s :
  cache_ok (observed_on r) c →
  s ∈ values_at k (all_sides (build_consensus_detector_input c)) →
  ∃ (i : nat) rs b br leaf leaves proof,
    sd_leaf_index s = Z.of_nat i ∧ receipts_for c (sd_batch_id s) = Some rs ∧
    on_chain r (sd_batch_id s) b rs ∧ leaf_hashes_for c (sd_batch_id s) = Some (hash_leaf <$> leaves) ∧
    receipt_leaves rs = Ok leaves ∧ item leaves (Z.of_nat i) = Ok leaf ∧
    item rs (Z.of_nat i) = Ok br ∧ receipt_leaf_fields br = Ok leaf ∧ leaf_ok leaf ∧
    build_merkle_proof (hash_leaf <$> leaves) (Z.of_nat i) = Ok proof ∧
    k = (b_consensus_group_id b, leaf_job_id_hash leaf, leaf_shard_index leaf) ∧
    b_consensus_group_id b ≠ zero_bytes32 ∧
    sd_provider s = b_provider b ∧ sd_output_hash s = leaf_output_hash leaf.
Proof.
  intros Hok (db & i & br & leaf & Hdb & Hz & Hi & Hl & -> & ->)%elem_all_sides. simpl.
  destruct (consensus_input r c db Hok Hdb) as
    (cb & b & (_ & Hrs & _ & Hon & _ & _ & _ & leaves & Hls & Hlh) & Hp & Hg).
  pose proof Hon as (_ & _ & Hv).
  destruct (position_leaf _ _ _ _ _ Hv Hi Hl) as (leaves' & p & Hls' & Hleaf & Hbr & _ & Hpf).
  assert (leaves' = leaves) as -> by congruence. rewrite Hg in *.
  exists i, (db_receipts db), b, br, leaf, leaves, p.
  split_and!; try done; [by apply receipt_leaf_fields_eq | by eapply batched_receipt_to_leaf_ok].
Qed.

Lemma consensus_finding_actionable r c f :
  cache_ok (observed_on r) c →
  f ∈ detect_consensus_mismatches (build_consensus_detector_input c) → cm_ambiguous f = false →
  ∃ a, try_assemble_consensus_mismatch c f = Some a ∧
       at_minority_batch_id a = sd_batch_id (cm_minority f) ∧
       ∃ b, dict_get (at_minority_batch_id a) (batches r) = Some b ∧
            ∀ m, handled m r (at_minority_batch_id a) b (attempt_challenge a) true.
Proof.
  intros Hok (k & Hf)%elem_detect_consensus Hamb.
  apply slot_findings_sound in Hf as (_ & Hs & Hm & _ & [[Hpp Hbb] Hout] & _).
  apply (consensus_side r) in Hs
    as (i & rs & b & br & leaf & ls & p & Ei & Hrs & (H32 & Hb & Hv) & Hlh & Hls & Hit & Hbr & Hlf &
        Hok1 & Hp & Hk & Hg & Hprov & Hso); [|done].
  apply (consensus_side r) in Hm
    as (i' & rs' & b' & br' & leaf' & ls' & p' & Ei' & Hrs' & (H32' & Hb' & Hv') & Hlh' & Hls' & Hit' &
        Hbr' & Hlf' & Hok2 & Hp' & Hk' & Hg' & Hprov' & Hso'); [|done].
  rewrite Hk in Hk'. injection Hk' as Hgg Hjj Hsh.
  eexists. unfold try_assemble_consensus_mismatch, assemble_attempt. rewrite Hamb, Hrs, Hrs', Hlh, Hlh'.
  simpl. rewrite Ei, Ei', Hbr, Hbr'. simpl. rewrite Hlf, Hlf'. simpl. rewrite Hp, Hp'. simpl.
  split; [done|]. simpl. split; [done|]. exists b. split; [done|]. intros m.
  destruct (committed_leaf _ _ _ _ _ _ Hv Hls Hit Hp) as [_ Hoz].
  destruct (committed_leaf _ _ _ _ _ _ Hv' Hls' Hit' Hp') as [Hp32 Hoz'].
  split_and!; [done | done |]. simpl. eapply consensus_proves; eauto; congruence.
Qed.

Lemma invalid_signature_scan r client c x :
  cache_ok (observed_on r) c → x ∈ scan_invalid_signatures client c →
  ∃ cb rs b ch, cached r c (isa_batch_id x) cb rs b ∧
    assemble_invalid_signature_challenge (isa_batch_id x) rs (isa_receipt_index x) = Ok ch.
Proof.
  intros Hok (cb & Hx & Hcb)%list_elem_of_bind.
  destruct (verified_cached r c cb Hok Hcb) as (rs & b & Hc). pose proof Hc as (_ & Hrs & _).
  rewrite Hrs in Hx. destruct rs as [|y l]; [by apply not_elem_of_nil in Hx|].
  apply list_elem_of_omap in Hx as ([j br] & _ & Hx). unfold invalid_signature_at in Hx. simpl in Hx.
  destruct (assemble_invalid_signature_challenge _ _ _) as [ch|] eqn:E; [|done]. simplify_eq/=.
  by exists cb, (y :: l), b, ch.
Qed.

(** The configured verifier of [b] checks Ed25519, and the keys and signatures of
    its receipts fit in memory. *)
Definition verifier_sound (b : Batch) (rs : list BatchedReceipt) : Prop :=
  b_signatureVerifierAtCommit b ≠ zero_address ∧
  (∀ msg sg pk, verifier_verify (b_signatureVerifierAtCommit b) msg sg pk =
                Some (ed25519_verify pk msg sg)) ∧
  ∀ br pk sg, br ∈ rs → b64decode (provider_pubkey_b64 (receipt br)) = Some pk →
    b64decode (signature (receipt br)) = Some sg →
    Z.of_nat (length pk) <= UINT256_MAX ∧ Z.of_nat (length sg) <= UINT256_MAX.

End Audit.
