(* ===== verification/ChallengeExample.v ===== *)
(** * Challenges on a concrete chain

    A toy instance of what the contract calls, three batches of one consensus
    group committed through the contract, the observer's cache of them, and the
    witnesses of the claims about detectors, challenges and audit. *)
From Stdlib Require Import ZArith Lia.
From S2P Require Import PyStd.
From S2P Require Import Externals.
From S2P Require Import Receipt.
From S2P Require Import Attestation.
From S2P Require Import Merkle.
From S2P Require Import Published.
From S2P Require Import Registry.
From S2P Require Import Grouping.
From S2P Require Import Detectors.
From S2P Require Import ConsensusTheorems.
From S2P Require Import Challenges.
From S2P Require Import ChallengeTheorems.
From S2P Require Import AuditEngine.
From S2P Require Import AuditTheorems.
From S2P Require Import Prelude.

#[local] Open Scope string_scope.
#[local] Open Scope list_scope.
#[local] Open Scope Z_scope.

Import Toy.

(** ** A concrete environment of the contract *)

Fixpoint words (fuel : nat) (b : bytes) : list bytes :=
  match fuel, b with
  | S fuel', _ :: _ => take 32 b :: words fuel' (drop 32 b)
  | _, _ => []
  end.

Lemma words_concat l fuel : Forall is32 l → (length l <= fuel)%nat → words fuel (concat l) = l.
Proof.
  intros H32. revert fuel.
  induction H32 as [|w l Hw _ IH]; intros [|fuel] Hf; simpl in *; try done; try lia.
  unfold is32 in Hw. destruct (w ++ concat l) as [|y rest] eqn:E.
  - apply app_nil in E as [-> _]. done.
  - rewrite <-E, take_app_length', drop_app_length' by done. f_equal. apply IH. lia.
Qed.

Definition words_of (b : bytes) : list bytes := words (length b) b.

Lemma concat_32_length l : Forall is32 l → length (concat l) = (32 * length l)%nat.
Proof.
  induction 1 as [|w l Hw _ IH]; [done|]. simpl. rewrite length_app, IH, Hw. lia.
Qed.

Lemma words_of_concat l : Forall is32 l → words_of (concat l) = l.
Proof.
  intros H32. apply words_concat; [done|]. rewrite concat_32_length by done. lia.
Qed.

Definition leaf_words (l : ReceiptLeaf) : list bytes :=
  [leaf_job_id_hash l; be_bytes 32 (leaf_shard_index l); leaf_provider_id_hash l;
   leaf_provider_pubkey_hash l; leaf_output_hash l; be_bytes 32 (leaf_executed_at_unix l);
   be_bytes 32 (leaf_value_ftns l); leaf_signature_hash l; leaf_signing_message_hash l].

#[export] Instance toy_env : ContractEnv := {|
  oz_verify := verify_merkle_proof;
  verifier_verify := λ _ msg sg pk, Some (ed25519_verify pk msg sg);
  settles := λ _ _ _ _, true;
  aux_encode_double_spend := λ bid proof, concat (bid :: proof);
  aux_decode_double_spend := λ b,
    match words_of b with bid :: proof => Some (bid, proof) | [] => None end;
  aux_encode_signature := λ pk sg, be_bytes 32 (zlen pk) ++ pk ++ sg;
  aux_decode_signature := λ b,
    let n := Z.to_nat (from_bytes_be (take 32 b)) in
    Some (take n (drop 32 b), drop n (drop 32 b));
  aux_encode_consensus := λ bid proof leaf, concat (bid :: leaf_words leaf ++ proof);
  aux_decode_consensus := λ b,
    match words_of b with
    | bid :: w0 :: w1 :: w2 :: w3 :: w4 :: w5 :: w6 :: w7 :: w8 :: proof =>
        Some (bid, proof,
          {| leaf_job_id_hash := w0; leaf_shard_index := from_bytes_be w1;
             leaf_provider_id_hash := w2; leaf_provider_pubkey_hash := w3;
             leaf_output_hash := w4; leaf_executed_at_unix := from_bytes_be w5;
             leaf_value_ftns := from_bytes_be w6; leaf_signature_hash := w7;
             leaf_signing_message_hash := w8 |})
    | _ => None
    end
|}.

Lemma toy_double_spend_roundtrip bid proof :
  is32 bid → Forall is32 proof →
  aux_decode_double_spend (aux_encode_double_spend bid proof) = Some (bid, proof).
Proof.
  intros Hb Hp. unfold aux_decode_double_spend, aux_encode_double_spend, toy_env.
  by rewrite words_of_concat by by constructor.
Qed.

Lemma toy_signature_roundtrip pk sg :
  Z.of_nat (length pk) <= UINT256_MAX →
  aux_decode_signature (aux_encode_signature pk sg) = Some (pk, sg).
Proof.
  intros Hpk. unfold aux_decode_signature, aux_encode_signature, toy_env.
  rewrite take_app_length', drop_app_length' by (symmetry; apply be_bytes_length).
  rewrite from_be_bytes by (unfold UINT256_MAX in Hpk; simpl; lia). rewrite Nat2Z.id. cbv zeta.
  by rewrite take_app_length, drop_app_length.
Qed.

Lemma toy_consensus_roundtrip bid proof leaf :
  is32 bid → Forall is32 proof → leaf_ok leaf →
  aux_decode_consensus (aux_encode_consensus bid proof leaf) = Some (bid, proof, leaf).
Proof.
  intros Hb Hp Hl. pose proof (leaf_ok_bounds leaf Hl) as (Hs & He & Hv & H32).
  repeat apply Forall_cons in H32 as [? H32].
  unfold aux_decode_consensus, aux_encode_consensus, toy_env.
  rewrite words_of_concat.
  - unfold leaf_words. cbn [app]. rewrite !from_be_bytes by (simpl; lia). by destruct leaf.
  - constructor; [done|]. apply Forall_app. split; [|done].
    unfold leaf_words. repeat constructor; unfold is32; auto using be_bytes_length.
Qed.

#[export] Instance toy_env_laws : ContractLaws.
Proof.
  split.
  - intros. reflexivity.
  - exact toy_double_spend_roundtrip.
  - intros pk sg Hpk _. by apply toy_signature_roundtrip.
  - exact toy_consensus_roundtrip.
Qed.

(** ** Three batches on a chain *)

Definition group1 : bytes := be_bytes 32 77.

(** The receipt every honest member of the group commits, and one with another
    output. *)
Definition honest : BatchedReceipt := sample_batched 3 10 "e1".
Definition other_shard : BatchedReceipt := sample_batched 4 20 "e2".
Definition faulty : BatchedReceipt :=
  {| receipt := {| job_id := "parallax-job-1"; shard_index := 3; provider_id := "node3";
                   provider_pubkey_b64 := "UFJTTQ=="; output_hash := hex (be_bytes 32 9);
                   executed_at_unix := 1500; signature := "c2ln"; tee_attestation := None |};
     requester_address := "0xreq"; provider_address := "0xprov"; value_ftns := 30;
     local_escrow_id := "e3"; tier_slash_rate_bps := 500; consensus_group_id := group1 |}.

Definition root_of (rs : list BatchedReceipt) : bytes :=
  match recompute_root rs with Ok r => r | Err _ => [] end.

Definition p1 : string := "0x1111111111111111111111111111111111111111".
Definition p2 : string := "0x2222222222222222222222222222222222222222".
Definition p3 : string := "0x3333333333333333333333333333333333333333".
Definition req : string := "0x9999999999999999999999999999999999999999".

Definition fresh_registry : Registry :=
  {| batches := []; invalidatedReceipts := []; providerBatchSequence := [];
     lastPendingBatchExpiry := []; lastPendingBatchPausedAtAccrual := [];
     challengeWindowSeconds := 10000; settlementLookbackWindowSeconds := 1000;
     totalPausedSeconds := 0; pauseStartedAt := 0; paused := false; escrowPool := p1;
     stakeBond := p2; signatureVerifier := p3 |}.

Definition msg_at (sender : string) (t : Z) : Msg :=
  {| msg_sender := sender; block_timestamp := t; block_number := t; gas_for_slash := true |}.

Definition commit (sender : string) (t : Z) (rs : list BatchedReceipt) (r : Registry)
  : bytes * Registry :=
  match commitBatchWithAttestation (msg_at sender t) req (root_of rs) (zlen rs)
          (Zsum (value_ftns <$> rs)) 500 group1 "" zero_bytes32 r with
  | Done x => x
  | Revert _ => ([], r)
  end.

Definition set1 : list BatchedReceipt := [honest; other_shard].
Definition set2 : list BatchedReceipt := [honest].
Definition set3 : list BatchedReceipt := [faulty].

Definition state1 := Eval vm_compute in commit p1 2000 set1 fresh_registry.
Definition state2 := Eval vm_compute in commit p2 2100 set2 state1.2.
Definition state3 := Eval vm_compute in commit p3 2200 set3 state2.2.
Definition id1 : bytes := state1.1.
Definition id2 : bytes := state2.1.
Definition id3 : bytes := state3.1.
Definition chain : Registry := state3.2.

Definition batch_at (id : bytes) : Batch :=
  default (new_batch chain (msg_at p1 0) req [] 0 0 0 [] "" []) (dict_get id (batches chain)).

Definition observe (id : bytes) : ObservedBatch :=
  let b := batch_at id in
  {| ob_batch_id := id; ob_provider_address := b_provider b; ob_requester_address := b_requester b;
     ob_merkle_root := b_merkleRoot b; ob_consensus_group_id := b_consensus_group_id b;
     ob_cid := None; ob_lookback_window_seconds := b_lookbackWindowSecondsAtCommit b |}.

Definition blob (id : bytes) (rs : list BatchedReceipt) : PublishedBatch :=
  {| pb_batch_id := id; pb_merkle_root := b_merkleRoot (batch_at id); pb_commit_timestamp := 2000;
     pb_receipts := rs |}.

Definition ingest_all (l : list (bytes * list BatchedReceipt)) : result (VerifiedBatchCache bytes) :=
  c ← cache_init 10;
  result_foldM (λ c ir, cb ← ingest c (observe ir.1) (blob ir.1 ir.2) []; Ok cb.1) c l.

Definition history : list (bytes * list BatchedReceipt) := [(id1, set1); (id2, set2); (id3, set3)].
Definition observer : VerifiedBatchCache bytes :=
  match ingest_all history with Ok c => c | Err _ => {| vc_max_batches := 0; vc_entries := [];
    vc_inference_receipts := []; vc_consensus_group_ids := []; vc_lookback_window_seconds := [] |} end.

(** The three batches are cached; the duplicated leaf, the disagreement and every
    leaf's age and signature are found. *)
Example observer_finds :
  length (verified_batches observer) = 3%nat ∧
  length (scan_double_spends None observer) = 1%nat ∧
  (cm_ambiguous ∘ cma_finding <$> scan_consensus_mismatches None observer) = [false] ∧
  length (scan_expired_receipts None observer 3000 60) = 4%nat ∧
  length (scan_invalid_signatures None observer) = 4%nat.
Proof. vm_compute. by split_and!. Qed.

(** ** The observer's cache satisfies its invariant *)

Lemma ingest_fold_ok (P : ObservedBatch → Prop) l (c c' : VerifiedBatchCache bytes) :
  cache_ok P c →
  Forall (λ ir, P (observe ir.1) ∧
     verify_receipt_set_against_root ir.2 (ob_merkle_root (observe ir.1)) = Ok true) l →
  result_foldM (λ c ir, cb ← ingest c (observe ir.1) (blob ir.1 ir.2) []; Ok cb.1) c l = Ok c' →
  cache_ok P c'.
Proof.
  intros Hc Hl. rewrite Forall_forall in Hl. apply result_foldM_inv; [done|].
  intros c0 ir c1 Hir Hc0 Hi.
  destruct (Hl ir Hir) as [HP Hv].
  destruct (ingest_admits P c0 (observe ir.1) (blob ir.1 ir.2) [] Hc0 HP Hv) as (c2 & Hc2 & Hok & _).
  rewrite Hc2 in Hi. simpl in Hi. by simplify_eq.
Qed.

Lemma observe_on_chain (id : bytes) b :
  length id = 32%nat → dict_get id (batches chain) = Some b → observed_on chain (observe id).
Proof.
  intros H32 Hb. split; [exact H32|]. exists b. unfold observe, batch_at. rewrite Hb. by split_and!.
Qed.

Lemma observer_ok : cache_ok (observed_on chain) observer.
Proof.
  assert (∃ c0, cache_init (R := bytes) 10 = Ok c0 ∧
    result_foldM (λ c ir, cb ← ingest c (observe ir.1) (blob ir.1 ir.2) []; Ok cb.1) c0 history
    = Ok observer) as (c0 & H0 & Hf).
  { eexists. split; [reflexivity|]. vm_compute. reflexivity. }
  eapply ingest_fold_ok; [by eapply cache_init_ok | | exact Hf].
  repeat (apply List.Forall_cons; [split; [eapply observe_on_chain|]; vm_compute; reflexivity|]).
  apply List.Forall_nil.
Qed.

Lemma on_chain_at (id : bytes) b rs :
  length id = 32%nat → dict_get id (batches chain) = Some b →
  verify_receipt_set_against_root rs (b_merkleRoot b) = Ok true → on_chain chain id b rs.
Proof. intros. by split_and!. Qed.

(** ** Witnesses *)

Definition now1 : Msg := msg_at p2 3000.

Definition expired1 : Challenge :=
  match assemble_expired_challenge id1 set1 0 2500 (b_lookbackWindowSecondsAtCommit (batch_at id1)) with
  | Ok c => c
  | Err _ => {| ch_batch_id := []; ch_leaf := sample_leaf 0; ch_merkle_proof := [];
                ch_reason_code := MALFORMED; ch_aux_data := [] |}
  end.

Lemma challengeable_now c id :
  dict_get id (batches chain) = Some (batch_at id) → b_status (batch_at id) = PENDING →
  0 <= 3000 - b_commitTimestamp (batch_at id) < b_challengeWindowSecondsAtCommit (batch_at id) →
  b_totalPausedAtBatchOrigin (batch_at id) = 0 →
  b_invalidatedValueFTNS (batch_at id) + leaf_value_ftns (ch_leaf c) <= UINT256_MAX →
  challengeable now1 chain id (batch_at id) (ch_leaf c) (ch_reason_code c).
Proof.
  intros Hb Hs Hw Hp Hv. split_and!; try done.
  - unfold effectiveElapsed, checked_sub. rewrite Hp. simpl.
    replace (3000 <? _) with false by lia. simpl. eexists. split; [reflexivity|].
    case_match; lia.
  - apply not_elem_of_nil.
Qed.

Lemma challenge_accepted_witness :
  accepted (submit now1 expired1 chain) id1 (hash_leaf (ch_leaf expired1)).
Proof.
  apply (challenge_accepted now1 chain id1 (batch_at id1) set1 0 expired1).
  - apply on_chain_at; vm_compute; reflexivity.
  - apply (Assembled_expired _ _ _ _ _ _ 2500); [vm_compute; reflexivity | vm_compute; discriminate].
  - apply challengeable_now; try (vm_compute; reflexivity).
    + vm_compute. split; [discriminate | reflexivity].
    + vm_compute. discriminate.
Defined.

Lemma cross_check_sound_witness :
  ∃ l1 l2, receipt_leaves set1 = Ok l1 ∧ receipt_leaves [other_shard; honest] = Ok l2 ∧ l1 ≠ l2 ∧
           ∀ l, l ∈ l1 ↔ l ∈ l2.
Proof.
  destruct (receipt_leaves set1) as [l1|] eqn:E1; [|vm_compute in E1; discriminate].
  destruct (receipt_leaves [other_shard; honest]) as [l2|] eqn:E2; [|vm_compute in E2; discriminate].
  exists l1, l2. split; [reflexivity|]. split; [reflexivity|]. split.
  - intros ->. assert (Ok l2 = receipt_leaves set1) as E3 by (symmetry; exact E1).
    rewrite <-E2 in E3. vm_compute in E3. discriminate.
  - apply (cross_check_sound set1 [other_shard; honest] (root_of set1)).
    + vm_compute. reflexivity.
    + vm_compute. reflexivity.
    + exact E1.
    + exact E2.
    + apply no_collision_b_correct. vm_compute in E1, E2. injection E1 as <-. injection E2 as <-.
      vm_compute. reflexivity.
    + apply no_collision_b_correct. vm_compute in E1, E2. injection E1 as <-. injection E2 as <-.
      vm_compute. reflexivity.
Defined.

Lemma cache_gate_witness :
  ∃ c', ingest observer (observe id1) (blob id1 set1) [] = Ok (c', true) ∧
        receipts_for c' id1 = Some set1.
Proof.
  destruct (cache_gate (observed_on chain) observer (observe id1) (blob id1 set1) [])
    as (c' & ok & Hi & _ & Hv & _ & Hr).
  - exact observer_ok.
  - eapply observe_on_chain; vm_compute; reflexivity.
  - assert (ok = true) as -> by (apply Hv; vm_compute; reflexivity).
    exists c'. split; [exact Hi | exact (Hr eq_refl)].
Defined.

Definition leaf_batches : list LeafBatch := Eval vm_compute in leaf_batch <$> verified_batches observer.
Definition double_spend1 : DoubleSpendFinding :=
  default {| ds_leaf_hash := []; ds_occurrences := []; ds_on_chain_reason := 0 |}
    (head (detect_double_spends leaf_batches)).

Lemma leaf_batches_NoDup : NoDup (lb_batch_id <$> leaf_batches).
Proof. apply (bool_decide_eq_true_1 _). vm_compute. reflexivity. Qed.

Lemma double_spend_found : double_spend1 ∈ detect_double_spends leaf_batches.
Proof.
  assert (detect_double_spends leaf_batches = [double_spend1]) as -> by (vm_compute; reflexivity).
  by apply list_elem_of_here.
Qed.

(** The leaf committed by the first and the second batch is reported; a leaf
    committed once is not. *)
Lemma double_spend_exact_witness :
  ∃ b1 b2 i1 i2, b1 ∈ leaf_batches ∧ b2 ∈ leaf_batches ∧
    lb_leaf_hashes b1 !! i1 = Some (ds_leaf_hash double_spend1) ∧
    lb_leaf_hashes b2 !! i2 = Some (ds_leaf_hash double_spend1) ∧
    (lb_batch_id b1, i1) ≠ (lb_batch_id b2, i2).
Proof.
  destruct (double_spend_exact leaf_batches) as (_ & _ & Hex).
  apply (Hex leaf_batches_NoDup). apply list_elem_of_fmap_2. exact double_spend_found.
Defined.

(** What the observer retains, as the tables the assembler reads. *)
Definition receipts_table : dict bytes (list BatchedReceipt) := history.
Definition hashes_table : dict bytes (list bytes) := Eval vm_compute in
  (λ b, (lb_batch_id b, lb_leaf_hashes b)) <$> leaf_batches.

Definition double_spend_challenge1 : Challenge :=
  match assemble_from_double_spend_finding double_spend1 receipts_table hashes_table with
  | Ok c => c
  | Err _ => expired1
  end.

Definition hashes_anchored (kv : bytes * list bytes) : Prop :=
  ∃ b, is32 kv.1 ∧ dict_get kv.1 (batches chain) = Some b ∧ Forall is32 kv.2 ∧
       verify_leaf_hashes_against_root kv.2 (b_merkleRoot b) = Ok true.

Lemma hashes_at (kv : bytes * list bytes) b :
  (length kv.1 =? 32)%nat = true → dict_get kv.1 (batches chain) = Some b →
  forallb (λ h : bytes, (length h =? 32)%nat) kv.2 = true →
  verify_leaf_hashes_against_root kv.2 (b_merkleRoot b) = Ok true → hashes_anchored kv.
Proof.
  intros Hid Hb Hall Hv. exists b. split_and!; try done; [by apply Nat.eqb_eq|].
  apply List.Forall_forall. intros h Hh. rewrite forallb_forall in Hall.
  by apply Nat.eqb_eq, Hall.
Qed.

Lemma tables_anchored : anchored chain receipts_table hashes_table.
Proof.
  split.
  - assert (Forall (λ kv, ∃ b, on_chain chain kv.1 b kv.2) receipts_table) as Hall.
    { repeat (apply List.Forall_cons;
        [eexists; apply on_chain_at; [|vm_compute; reflexivity|]; vm_compute; reflexivity|]).
      apply List.Forall_nil. }
    intros bid rs Hget%dict_get_elem. rewrite Forall_forall in Hall. exact (Hall _ Hget).
  - assert (Forall hashes_anchored hashes_table) as Hall.
    { apply List.Forall_cons; [apply (hashes_at _ (batch_at id1)); vm_compute; reflexivity|].
      apply List.Forall_cons; [apply (hashes_at _ (batch_at id2)); vm_compute; reflexivity|].
      apply List.Forall_cons; [apply (hashes_at _ (batch_at id3)); vm_compute; reflexivity|].
      apply List.Forall_nil. }
    intros bid hs Hget%dict_get_elem. rewrite Forall_forall in Hall. exact (Hall _ Hget).
Qed.

Lemma batches_in_order : in_commit_order chain leaf_batches.
Proof.
  unfold in_commit_order.
  repeat (apply SSorted_cons;
    [|repeat (apply List.Forall_cons; [vm_compute; discriminate|]); apply List.Forall_nil]).
  apply SSorted_nil.
Qed.

Lemma double_spend_rejected_witness :
  submit now1 double_spend_challenge1 chain = Revert (ChallengeNotProven DOUBLE_SPEND).
Proof.
  apply (double_spend_rejected now1 chain leaf_batches double_spend1 receipts_table hashes_table
           double_spend_challenge1 (batch_at id1)).
  - exact double_spend_found.
  - exact batches_in_order.
  - exact tables_anchored.
  - vm_compute. reflexivity.
  - assert (ch_batch_id double_spend_challenge1 = id1) as -> by (vm_compute; reflexivity).
    assert (DOUBLE_SPEND = ch_reason_code double_spend_challenge1) as -> by (vm_compute; reflexivity).
    apply challengeable_now; try (vm_compute; reflexivity).
    + vm_compute. split; [discriminate | reflexivity].
    + vm_compute. discriminate.
Defined.

Definition group_batches : list DetectorBatch := Eval vm_compute in build_consensus_detector_input observer.
Definition slot1 : slot :=
  match detect_consensus_mismatches group_batches with
  | f :: _ => cm_slot f
  | [] => ([], [], 0)
  end.



(** ** An equivocating provider decides the vote

    Provider 2 commits both outputs: each output then has two of three providers
    behind it, a strict majority, and the one committed first wins.  Whom the
    detector accuses, without marking it ambiguous, depends on the order of the
    batches. *)
Definition member (n : Z) (p : string) (br : BatchedReceipt) : DetectorBatch :=
  {| db_batch_id := be_bytes 32 n; db_provider_address := p; db_consensus_group_id := group1;
     db_receipts := [br] |}.
Definition m1 := member 1 p1 honest.
Definition m2 := member 2 p2 honest.
Definition m2' := member 3 p2 faulty.
Definition m3 := member 4 p3 faulty.

Lemma equivocation_decides_the_vote :
  (λ f, (sd_provider (cm_minority f), cm_ambiguous f)) <$> detect_consensus_mismatches [m1; m2; m2'; m3]
    = [(p2, false); (p3, false)] ∧
  (λ f, (sd_provider (cm_minority f), cm_ambiguous f)) <$> detect_consensus_mismatches [m3; m2'; m2; m1]
    = [(p1, false); (p2, false)].
Proof. vm_compute. by split. Qed.
