(* ===== verification/RequesterDefense.v ===== *)
(** * The requester's defence of its escrow

    Models prsm/settlement/issued_authorization_store.py (the authorizations a
    requester issued, an instance of Retention.v, and the matcher that classifies
    the batches committed against it) and the requester-side flow of
    prsm/settlement/no_escrow_assembler.py (the scan of the chain and the assembly
    of NO_ESCROW challenges). *)
From Stdlib Require Import ZArith Lia QArith.
From S2P Require Import PyStd.
From S2P Require Import Externals.
From S2P Require Import Receipt.
From S2P Require Import Attestation.
From S2P Require Import Merkle.
From S2P Require Import Published.
From S2P Require Import Effects.
From S2P Require Import Client.
From S2P Require Import Registry.
From S2P Require Import Grouping.
From S2P Require Import Challenges.
From S2P Require Import AuditEngine.
From S2P Require Import Retention.
From S2P Require Import Prelude.

#[local] Open Scope string_scope.
#[local] Open Scope list_scope.
#[local] Open Scope Z_scope.

(** ** IssuedAuthorization *)

Record IssuedAuthorization : Type := {
  ia_requester : string;
  ia_provider : string;
  ia_max_spend_wei : Z;
  ia_job_nonce : string;
  ia_expiry_unix : Z;
  ia_request_hash : string;
  ia_linked_job_id : option string;
  ia_issued_at : Z
}.

Definition IssuedAuthorization_to_dict (a : IssuedAuthorization) : json :=
  JObj [("requester", JStr (ia_requester a)); ("provider", JStr (ia_provider a));
        ("max_spend_wei", JStr (str_of_int (ia_max_spend_wei a)));
        ("job_nonce", JStr (ia_job_nonce a)); ("expiry_unix", JInt (ia_expiry_unix a));
        ("request_hash", JStr (ia_request_hash a));
        ("linked_job_id", match ia_linked_job_id a with Some j => JStr j | None => JNull end);
        ("issued_at", JInt (ia_issued_at a))].

Section Store.
Context (str_of_container : json → string).   (* [str()] of a list or a dict *)

(** [str(d[key])] *)
Definition str_field (key : string) (d : json) : result string :=
  v ← jget key d; Ok (format_json str_of_container v).

Definition IssuedAuthorization_from_dict (d : json) : result IssuedAuthorization :=
  linked_raw ← jget_opt "linked_job_id" d;
  linked ← match linked_raw with
           | None | Some JNull => Ok (@None string)
           | Some (JStr j) => Ok (Some j)
           | Some _ => Err ValueError
           end;
  rq ← str_field "requester" d;
  pr ← str_field "provider" d;
  ms ← jget "max_spend_wei" d ≫= int_of_json;
  jn ← str_field "job_nonce" d;
  ex ← jget "expiry_unix" d ≫= int_of_json;
  rh ← str_field "request_hash" d;
  at_ ← jget "issued_at" d ≫= int_of_json;
  Ok {| ia_requester := rq; ia_provider := pr; ia_max_spend_wei := ms; ia_job_nonce := jn;
        ia_expiry_unix := ex; ia_request_hash := rh; ia_linked_job_id := linked;
        ia_issued_at := at_ |}.

#[local] Instance issued_entry : RetentionEntry IssuedAuthorization := {|
  entry_key := ia_job_nonce;
  entry_stamp := ia_issued_at;
  entry_to_dict := IssuedAuthorization_to_dict;
  entry_from_dict := IssuedAuthorization_from_dict;
  entry_loads := λ _, true;
  entries_field := "authorizations"
|}.

Definition IssuedAuthorizationStore : Type := Retained IssuedAuthorization.

(** [_issued_from_auth]: [auth] is the built [{payload, signature}]. *)
Definition issued_from_auth (auth : json) (linked_job_id : option string) (issued_at : Z)
  : result IssuedAuthorization :=
  payload ← jget "payload" auth;
  rq ← str_field "requester" payload;
  pr ← str_field "provider" payload;
  ms ← jget "max_spend_wei" payload ≫= int_of_json;
  jn ← str_field "job_nonce" payload;
  ex ← jget "expiry_unix" payload ≫= int_of_json;
  rh ← str_field "request_hash" payload;
  Ok {| ia_requester := rq; ia_provider := pr; ia_max_spend_wei := ms; ia_job_nonce := jn;
        ia_expiry_unix := ex; ia_request_hash := rh; ia_linked_job_id := linked_job_id;
        ia_issued_at := issued_at |}.

Definition record (auth : json) (linked_job_id : option string)
  : store_method IssuedAuthorization (list IssuedAuthorization) :=
  retain_stamped (λ t, a ← issued_from_auth auth linked_job_id t; Ok [a]).

(** One entry per payee, under the nonce [job_nonce#payee]. *)
Definition stage_authorization (rq jn rh : string) (ex : Z) (linked_job_id : option string) (t : Z)
    (payee : string * Z) : IssuedAuthorization :=
  {| ia_requester := rq; ia_provider := payee.1; ia_max_spend_wei := payee.2;
     ia_job_nonce := jn +:+ "#" +:+ lower payee.1; ia_expiry_unix := ex; ia_request_hash := rh;
     ia_linked_job_id := linked_job_id; ia_issued_at := t |}.

Definition stage_authorizations (payload : json) (payees_wei : list (string * Z))
    (linked_job_id : option string) (t : Z) : result (list IssuedAuthorization) :=
  jn ← str_field "job_nonce" payload;
  rh ← str_field "request_hash" payload;
  ex ← jget "expiry_unix" payload ≫= int_of_json;
  rq ← str_field "requester" payload;
  Ok (stage_authorization rq jn rh ex linked_job_id t <$> payees_wei).

Definition record_per_stage (payload : json) (payees_wei : list (string * Z))
    (linked_job_id : option string) : store_method IssuedAuthorization (list IssuedAuthorization) :=
  retain_stamped (stage_authorizations payload payees_wei linked_job_id).

(** [build_and_record_payment_authorization] and its per-stage sibling, given what
    the builder returned: recording is best effort, whatever it raises the built
    authorization is returned. *)
Definition build_and_record (auth : json) (linked_job_id : option string)
  : store_method IssuedAuthorization json :=
  _ ← try (record auth linked_job_id); mret auth.

Definition build_and_record_per_stage (auth : json) (payees_wei : result (list (string * Z)))
    (linked_job_id : option string) : store_method IssuedAuthorization json :=
  _ ← try (payload ← lift (jget "payload" auth);
           wei ← lift payees_wei;
           record_per_stage payload wei linked_job_id);
  mret auth.

Definition with_linked_job (job_id : string) (a : IssuedAuthorization) : IssuedAuthorization :=
  {| ia_requester := ia_requester a; ia_provider := ia_provider a;
     ia_max_spend_wei := ia_max_spend_wei a; ia_job_nonce := ia_job_nonce a;
     ia_expiry_unix := ia_expiry_unix a; ia_request_hash := ia_request_hash a;
     ia_linked_job_id := Some job_id; ia_issued_at := ia_issued_at a |}.

(** [link_job]: the entry is replaced in place. *)
Definition link_job (job_nonce job_id : string) : store_method IssuedAuthorization bool :=
  s ← get;
  match re_get s job_nonce with
  | None => mret false
  | Some a =>
      _ ← modify (with_entries (dict_set job_nonce (with_linked_job job_id a)));
      _ ← re_persist;
      mret true
  end.

Definition all_authorizations (s : IssuedAuthorizationStore) : list IssuedAuthorization := re_all s.
End Store.

Definition authorizations_for_provider (auths : list IssuedAuthorization) (provider : string)
  : list IssuedAuthorization :=
  filter (λ a, lower (ia_provider a) = lower provider) auths.

(** ** The matcher *)

Record CommittedBatchView : Type := {
  cv_batch_id : bytes;
  cv_requester : string;
  cv_provider : string;
  cv_total_value_wei : Z;
  cv_commit_timestamp : Z;
  cv_leaf_job_id_hashes : option (list bytes)
}.

Inductive authorization_class : Type := AUTHORIZED | UNAUTHORIZED.
#[export] Instance authorization_class_eq_dec : EqDecision authorization_class.
Proof. solve_decision. Defined.
Inductive match_basis : Type := ExactJobLink | ProviderValueHeuristic | NoBasis.

Record BatchAuthorizationClassification : Type := {
  bc_batch_id : bytes;
  bc_requester : string;
  bc_provider : string;
  bc_total_value_wei : Z;
  bc_classification : authorization_class;
  bc_match_basis : match_basis
}.

Definition committed_batch_to_view (batch : CommittedBatch) (leaf_job_id_hashes : option (list bytes))
  : CommittedBatchView :=
  {| cv_batch_id := cb_batch_id batch; cv_requester := cb_requester_address batch;
     cv_provider := cb_provider_address batch; cv_total_value_wei := cb_total_value_ftns batch;
     cv_commit_timestamp := cb_commit_timestamp batch; cv_leaf_job_id_hashes := leaf_job_id_hashes |}.

Definition exact_job_link_covers `{Externals} (batch : CommittedBatchView)
    (auths : list IssuedAuthorization) : bool :=
  match cv_leaf_job_id_hashes batch with
  | None | Some [] => false
  | Some leaf_set =>
      existsb (λ a, match ia_linked_job_id a with
                    | None => false
                    | Some j => bool_decide (keccak (utf8 j) ∈ leaf_set)
                    end) auths
  end.

Definition heuristic_covers (batch : CommittedBatchView) (auths : list IssuedAuthorization) : bool :=
  existsb (λ a, negb (ia_max_spend_wei a <? cv_total_value_wei batch) &&
                negb (ia_expiry_unix a <? cv_commit_timestamp batch)) auths.

Definition classify `{Externals} (auths : list IssuedAuthorization) (batch : CommittedBatchView)
  : BatchAuthorizationClassification :=
  let provider_auths := authorizations_for_provider auths (cv_provider batch) in
  let cb := if exact_job_link_covers batch provider_auths then (AUTHORIZED, ExactJobLink)
            else if heuristic_covers batch provider_auths
                 then (AUTHORIZED, ProviderValueHeuristic)
                 else (UNAUTHORIZED, NoBasis) in
  {| bc_batch_id := cv_batch_id batch; bc_requester := cv_requester batch;
     bc_provider := cv_provider batch; bc_total_value_wei := cv_total_value_wei batch;
     bc_classification := cb.1; bc_match_basis := cb.2 |}.

Definition match_unauthorized_batches `{Externals} (batches : list CommittedBatchView)
    (auths : list IssuedAuthorization) (my_address : string)
  : list BatchAuthorizationClassification :=
  classify auths <$> filter (λ b, lower (cv_requester b) = lower my_address) batches.

(** ** The scan of the chain *)

(** What [read_batch] returns: the integer of the status as in the contract. *)
Record ChainBatch : Type := {
  rb_requester : string;
  rb_provider : string;
  rb_total_value_ftns : Z;
  rb_commit_timestamp : Z;
  rb_status : Z
}.

Record UnauthorizedBatchAlert : Type := {
  al_classification : BatchAuthorizationClassification;
  al_status : Z;
  al_challengeable : bool
}.

Definition STATUS_PENDING : Z := 1.
Definition STATUS_FINALIZED : Z := 2.
Definition already_drained (a : UnauthorizedBatchAlert) : bool := al_status a =? STATUS_FINALIZED.

Definition view_of (ib : bytes * ChainBatch) : CommittedBatchView :=
  {| cv_batch_id := ib.1; cv_requester := rb_requester ib.2; cv_provider := rb_provider ib.2;
     cv_total_value_wei := rb_total_value_ftns ib.2;
     cv_commit_timestamp := rb_commit_timestamp ib.2; cv_leaf_job_id_hashes := None |}.

Section Scan.
Context `{Externals}.

(** The batches that name me and could be read; an unreadable one is skipped. *)
Definition my_batches (read_batch : bytes → result ChainBatch) (me : string)
    (observed : list (bytes * string)) : list (bytes * ChainBatch) :=
  omap (λ ob : bytes * string,
          if bool_decide (lower ob.2 = me)
          then match read_batch ob.1 with Ok b => Some (ob.1, b) | Err _ => None end
          else None) observed.

Definition alert_of (status_by_id : dict bytes Z) (c : BatchAuthorizationClassification)
  : option UnauthorizedBatchAlert :=
  if bool_decide (bc_classification c = UNAUTHORIZED) then
    let status := default 0 (dict_get (bc_batch_id c) status_by_id) in
    Some {| al_classification := c; al_status := status;
            al_challengeable := status =? STATUS_PENDING |}
  else None.

(** [enumerate_batches] answers with the ids and requesters of the range, or
    raises, which yields no alert. *)
Definition scan_for_unauthorized_batches (enumerated : result (list (bytes * string)))
    (read_batch : bytes → result ChainBatch) (auths : list IssuedAuthorization)
    (my_address : string) : list UnauthorizedBatchAlert :=
  match enumerated with
  | Err _ => []
  | Ok observed =>
      let mine := my_batches read_batch (lower my_address) observed in
      let status_by_id := dict_of_list ((λ ib : bytes * ChainBatch, (ib.1, rb_status ib.2)) <$> mine) in
      sort_by (key_leb (λ a, negb (al_challengeable a)) implb)
        (omap (alert_of status_by_id)
           (match_unauthorized_batches (view_of <$> mine) auths my_address))
  end.

(** ** The challenges of the requester *)

Record NoEscrowAssemblyResult : Type := {
  ne_batch_id : bytes;
  ne_classification : authorization_class;
  ne_challenge : option Challenge;
  ne_dry_run_would_succeed : option bool;
  ne_dry_run_revert_reason : option dry_reason;
  ne_error : option exn
}.

(** One classification.  The error of a missing receipt set is a text in the
    source; here it is [KeyError]. *)
Definition no_escrow_result (receipts_by_batch : dict bytes (list BatchedReceipt))
    (client : dry_run_client) (c : BatchAuthorizationClassification)
  : option NoEscrowAssemblyResult :=
  if negb (bool_decide (bc_classification c = UNAUTHORIZED)) then None
  else
    let failed e := Some {| ne_batch_id := bc_batch_id c; ne_classification := bc_classification c;
                            ne_challenge := None; ne_dry_run_would_succeed := None;
                            ne_dry_run_revert_reason := None; ne_error := Some e |} in
    match dict_get (bc_batch_id c) receipts_by_batch with
    | None | Some [] => failed KeyError
    | Some receipts =>
        match assemble_no_escrow_challenge (bc_batch_id c) receipts 0 with
        | Err e => failed e
        | Ok ch =>
            let v := match client with
                     | None => (None, None)
                     | Some call =>
                         match call (Assembled ch) with
                         | Ok (ok, reason) => (Some ok, Some (RevertReason reason))
                         | Err e => (Some false, Some (DryRunError e))
                         end
                     end in
            Some {| ne_batch_id := bc_batch_id c; ne_classification := bc_classification c;
                    ne_challenge := Some ch; ne_dry_run_would_succeed := v.1;
                    ne_dry_run_revert_reason := v.2; ne_error := None |}
        end
    end.

Definition assemble_no_escrow_challenges (classifications : list BatchAuthorizationClassification)
    (receipts_by_batch : dict bytes (list BatchedReceipt)) (client : dry_run_client)
  : list NoEscrowAssemblyResult :=
  omap (no_escrow_result receipts_by_batch client) classifications.
End Scan.
