(* ===== verification/RequesterTheorems.v ===== *)
(** * What the requester's defence detects and stops, and a requester that runs

    Theorems about RequesterDefense.v: the store keeps its records (an instance of
    Retention.v), the scan reports exactly the uncovered batches, the challenges
    assembled for them are accepted by the contract, and the batches of a recorded
    per-stage authorization are recognised. *)
From Stdlib Require Import ZArith Lia QArith.
From S2P Require Import PyStd.
From S2P Require Import Externals.
From S2P Require Import Receipt.
From S2P Require Import Merkle.
From S2P Require Import Published.
From S2P Require Import Effects.
From S2P Require Import Payment.
From S2P Require Import PerStageAuth.
From S2P Require Import PerStageExample.
From S2P Require Import Retention.
From S2P Require Import Registry.
From S2P Require Import Grouping.
From S2P Require Import Challenges.
From S2P Require Import ChallengeTheorems.
From S2P Require Import AuditEngine.
From S2P Require Import ChallengeExample.
From S2P Require Import RequesterDefense.
From S2P Require Import Prelude.
From stdpp Require Import relations.

#[local] Open Scope string_scope.
#[local] Open Scope list_scope.
#[local] Open Scope Z_scope.

(** ** The store *)

Section Laws.
Context (str_of_container : json → string).

Lemma issued_roundtrip a :
  IssuedAuthorization_from_dict str_of_container (IssuedAuthorization_to_dict a) = Ok a.
Proof.
  destruct a as [rq pr ms jn ex rh lk at_]. unfold IssuedAuthorization_from_dict, str_field.
  cbn [jget jget_opt IssuedAuthorization_to_dict dict_get ia_requester ia_provider ia_max_spend_wei
       ia_job_nonce ia_expiry_unix ia_request_hash ia_linked_job_id ia_issued_at].
  destruct lk; simpl; by rewrite int_of_str_of_int.
Qed.

#[export] Instance issued_laws :
  @RetentionLaws IssuedAuthorization (issued_entry str_of_container) (λ _, True).
Proof. split; [intros a _; apply issued_roundtrip | done | done]. Qed.
End Laws.

(** ** Coverage *)

(** The authorization [a] covers the batch [b]. *)
Definition covers (a : IssuedAuthorization) (b : ChainBatch) : Prop :=
  lower (ia_provider a) = lower (rb_provider b) ∧ rb_total_value_ftns b <= ia_max_spend_wei a ∧
  rb_commit_timestamp b <= ia_expiry_unix a.

(** The alert about the batch [b] of id [bid]. *)
Definition alert_about (bid : bytes) (b : ChainBatch) : UnauthorizedBatchAlert :=
  {| al_classification :=
       {| bc_batch_id := bid; bc_requester := rb_requester b; bc_provider := rb_provider b;
          bc_total_value_wei := rb_total_value_ftns b; bc_classification := UNAUTHORIZED;
          bc_match_basis := NoBasis |};
     al_status := rb_status b;
     al_challengeable := rb_status b =? STATUS_PENDING |}.

Section Coverage.
Context `{Externals}.

Lemma elem_authorizations auths p a :
  a ∈ authorizations_for_provider auths p ↔ lower (ia_provider a) = lower p ∧ a ∈ auths.
Proof. unfold authorizations_for_provider. by rewrite list_elem_of_filter. Qed.

Lemma heuristic_true batch auths :
  heuristic_covers batch auths = true ↔
  ∃ a, a ∈ auths ∧ cv_total_value_wei batch <= ia_max_spend_wei a ∧
       cv_commit_timestamp batch <= ia_expiry_unix a.
Proof.
  unfold heuristic_covers. rewrite existsb_exists. apply exist_proper. intros a.
  rewrite list_elem_of_In, andb_true_iff, !negb_true_iff, !Z.ltb_ge. tauto.
Qed.

Lemma exact_job_link_true batch auths :
  exact_job_link_covers batch auths = true ↔
  ∃ a j leaves, a ∈ auths ∧ ia_linked_job_id a = Some j ∧
    cv_leaf_job_id_hashes batch = Some leaves ∧ keccak (utf8 j) ∈ leaves.
Proof.
  unfold exact_job_link_covers.
  destruct (cv_leaf_job_id_hashes batch) as [[|h hs]|].
  - split; [done|]. intros (a & j & l & _ & _ & [= <-] & Hin). by apply not_elem_of_nil in Hin.
  - rewrite existsb_exists. split.
    + intros (a & Ha & Hb). destruct (ia_linked_job_id a) as [j|] eqn:Hj; [|done].
      apply bool_decide_eq_true in Hb. apply list_elem_of_In in Ha. naive_solver.
    + intros (a & j & l & Ha & Hj & [= <-] & Hin). exists a. rewrite Hj, <-list_elem_of_In.
      split; [done|]. by apply bool_decide_eq_true.
  - split; [done|]. by intros (a & j & l & _ & _ & [=] & _).
Qed.

(** A batch is unauthorized exactly when no recorded authorization to its
    provider covers it or is linked to one of its leaves. *)
Lemma classify_unauthorized auths batch :
  bc_classification (classify auths batch) = UNAUTHORIZED ↔
  ∀ a, a ∈ auths → lower (ia_provider a) = lower (cv_provider batch) →
    ¬ (cv_total_value_wei batch <= ia_max_spend_wei a ∧
       cv_commit_timestamp batch <= ia_expiry_unix a) ∧
    (∀ j leaves, ia_linked_job_id a = Some j → cv_leaf_job_id_hashes batch = Some leaves →
       ¬ keccak (utf8 j) ∈ leaves).
Proof.
  unfold classify.
  destruct (exact_job_link_covers _ _) eqn:E; [|destruct (heuristic_covers _ _) eqn:Hh]; simpl.
  - apply exact_job_link_true in E as (a & j & l & [Hp Ha]%elem_authorizations & Hj & Hl & Hin).
    split; [done|]. intros Hall. destruct (Hall a Ha Hp) as [_ Hx]. by destruct (Hx j l).
  - apply heuristic_true in Hh as (a & [Hp Ha]%elem_authorizations & Hv & Ht).
    split; [done|]. intros Hall. destruct (Hall a Ha Hp) as [Hx _]. by destruct Hx.
  - split; [|done]. intros _ a Ha Hp. apply not_true_iff_false in E, Hh. split.
    + intros [Hv Ht]. apply Hh, heuristic_true. exists a. by rewrite elem_authorizations.
    + intros j l Hj Hl Hin. apply E, exact_job_link_true. exists a, j, l. by rewrite elem_authorizations.
Qed.

Lemma classify_covered auths bid b :
  bc_classification (classify auths (view_of (bid, b))) = UNAUTHORIZED ↔
  ∀ a, a ∈ auths → ¬ covers a b.
Proof.
  rewrite classify_unauthorized. unfold view_of, covers. simpl. split.
  - intros Hall a Ha (Hp & Hv). by destruct (Hall a Ha Hp).
  - intros Hall a Ha Hp. split; [|done]. intros Hv. by apply (Hall a Ha).
Qed.

Lemma classify_view auths bid b :
  bc_classification (classify auths (view_of (bid, b))) = UNAUTHORIZED →
  classify auths (view_of (bid, b)) = al_classification (alert_about bid b).
Proof.
  unfold classify. destruct (exact_job_link_covers _ _); [done|].
  by destruct (heuristic_covers _ _).
Qed.

(** ** The scan *)

Lemma elem_my_batches read_batch me observed bid b :
  (bid, b) ∈ my_batches read_batch me observed ↔
  read_batch bid = Ok b ∧ ∃ rq, (bid, rq) ∈ observed ∧ lower rq = me.
Proof.
  unfold my_batches. rewrite list_elem_of_omap. split.
  - intros ([bid' rq] & Hin & Hr). simpl in Hr. case_bool_decide; [|done].
    destruct (read_batch bid') eqn:E; [|done]. simplify_eq. eauto.
  - intros (Hr & rq & Hin & Hme). exists (bid, rq). split; [done|]. simpl.
    by rewrite bool_decide_true, Hr.
Qed.

(** A dict built from pairs that agree on equal keys. *)
Lemma dict_of_list_functional {V} (f : bytes → V) (l : list (bytes * V)) k :
  (∀ k v, (k, v) ∈ l → v = f k) → k ∈ l.*1 → dict_get k (dict_of_list l) = Some (f k).
Proof.
  unfold dict_of_list. intros Hf Hk.
  enough (∀ d : dict bytes V, k ∈ l.*1 ∨ dict_get k d = Some (f k) →
          dict_get k (fold_left (λ d kv, dict_set kv.1 kv.2 d) l d) = Some (f k)) as Hx by auto.
  clear Hk. induction l as [|[k' v] l IH]; intros d Hor; simpl.
  - destruct Hor as [Hn|]; [by apply not_elem_of_nil in Hn | done].
  - apply IH; [intros; apply Hf; by right|].
    assert (v = f k') as -> by (apply Hf; by left).
    destruct (decide (k' = k)) as [->|Hne]; [right; apply dict_get_set_eq|].
    rewrite dict_get_set_ne by done.
    destruct Hor as [Hin|]; [|by right]. apply elem_of_cons in Hin as [?|?]; [done | by left].
Qed.

Lemma status_of_mine read_batch me observed bid b :
  (bid, b) ∈ my_batches read_batch me observed →
  dict_get bid (dict_of_list ((λ ib : bytes * ChainBatch, (ib.1, rb_status ib.2)) <$>
                              my_batches read_batch me observed)) = Some (rb_status b).
Proof.
  intros Hin. pose proof Hin as [Hr _]%elem_my_batches.
  rewrite (dict_of_list_functional
             (λ k, match read_batch k with Ok b => rb_status b | Err _ => 0 end)).
  - by rewrite Hr.
  - intros k v ([k' b'] & [= -> ->] & [Hr' _]%elem_my_batches)%list_elem_of_fmap. simpl. by rewrite Hr'.
  - rewrite <-list_fmap_compose. apply list_elem_of_fmap. by exists (bid, b).
Qed.

Lemma elem_scan observed read_batch auths me al :
  al ∈ scan_for_unauthorized_batches (Ok observed) read_batch auths me ↔
  ∃ bid rq b, (bid, rq) ∈ observed ∧ lower rq = lower me ∧ read_batch bid = Ok b ∧
    lower (rb_requester b) = lower me ∧ (∀ a, a ∈ auths → ¬ covers a b) ∧ al = alert_about bid b.
Proof.
  unfold scan_for_unauthorized_batches. cbv zeta. rewrite elem_of_sort_by, list_elem_of_omap.
  unfold match_unauthorized_batches. set (mine := my_batches _ _ _).
  assert (∀ bid b, (bid, b) ∈ mine →
            bc_classification (classify auths (view_of (bid, b))) = UNAUTHORIZED →
            alert_of (dict_of_list ((λ ib : bytes * ChainBatch, (ib.1, rb_status ib.2)) <$> mine))
              (classify auths (view_of (bid, b))) = Some (alert_about bid b)) as Halert.
  { intros bid b Hin Hc. rewrite (classify_view _ _ _ Hc). unfold alert_of, alert_about. simpl.
    unfold mine. by rewrite (status_of_mine _ _ _ _ b Hin). }
  split.
  - intros (c & (v & -> & [Hme Hv]%list_elem_of_filter)%list_elem_of_fmap & Hal).
    apply list_elem_of_fmap in Hv as ([bid b] & -> & Hin).
    assert (bc_classification (classify auths (view_of (bid, b))) = UNAUTHORIZED) as Hc.
    { unfold alert_of in Hal. by case_bool_decide. }
    rewrite Halert in Hal by done. simplify_eq.
    pose proof Hin as (Hr & rq & Ho & Hrq)%elem_my_batches.
    exists bid, rq, b. split_and!; try done. by apply (classify_covered auths bid b).
  - intros (bid & rq & b & Ho & Hrq & Hr & Hme & Hno & ->).
    assert ((bid, b) ∈ mine) as Hin by (apply elem_my_batches; eauto).
    apply (classify_covered auths bid b) in Hno. exists (classify auths (view_of (bid, b))).
    split; [|by apply Halert]. apply list_elem_of_fmap. eexists. split; [done|].
    apply list_elem_of_filter. split; [done|]. by apply list_elem_of_fmap_2.
Qed.
End Coverage.

(** ** The challenges *)

Section Disputes.
Context `{Externals}.

Lemma no_escrow_result_inv receipts client c x ch :
  no_escrow_result receipts client c = Some x → ne_challenge x = Some ch →
  bc_classification c = UNAUTHORIZED ∧ ne_batch_id x = bc_batch_id c ∧ ch_batch_id ch = bc_batch_id c.
Proof.
  unfold no_escrow_result. case_bool_decide; [|done]. simpl. intros Hx Hch.
  destruct (dict_get _ receipts) as [[|br rs]|]; simplify_eq/=.
  destruct (assemble_no_escrow_challenge _ _ _) as [ch'|e] eqn:E; simplify_eq/=.
  split_and!; [done..|]. unfold assemble_no_escrow_challenge in E. by inv_result.
Qed.

Lemma no_escrow_result_some receipts client c rs ch :
  bc_classification c = UNAUTHORIZED → dict_get (bc_batch_id c) receipts = Some rs →
  assemble_no_escrow_challenge (bc_batch_id c) rs 0 = Ok ch →
  ∃ x, no_escrow_result receipts client c = Some x ∧ ne_batch_id x = bc_batch_id c ∧
       ne_challenge x = Some ch.
Proof.
  intros Hc Hrs Hch. unfold no_escrow_result. rewrite Hc, Hrs. simpl.
  destruct rs as [|br rs]; [done|]. rewrite Hch. eauto.
Qed.

(** The receipts of a committed batch can be challenged. *)
Lemma no_escrow_assembled `{!KeccakLaws} bid receipts root :
  verify_receipt_set_against_root receipts root = Ok true →
  ∃ c, assemble_no_escrow_challenge bid receipts 0 = Ok c ∧ ch_reason_code c = NO_ESCROW.
Proof.
  intros (leaves & Hl & Hroot)%cross_check_inv.
  destruct leaves as [|leaf leaves]; [done|].
  assert (length receipts = S (length leaves)) as Hlen by by rewrite <-(result_mapM_length _ _ _ Hl).
  destruct receipts as [|br rs]; [done|].
  destruct (build_merkle_proof_spec (hash_leaf <$> leaf :: leaves) 0 (hash_leaf leaf))
    as (p & _ & Hp & _); [done|].
  unfold assemble_no_escrow_challenge, leaf_and_proof, check_index. change (Z.of_nat 0) with 0 in Hp.
  rewrite Hl. simpl. fold (hash_leaf <$> leaves). rewrite fmap_cons in Hp. rewrite Hp. simpl.
  eauto.
Qed.
End Disputes.

(** ** The authorizations of a per-stage job *)

Section Stages.
Context (str_of_container : json → string).
#[local] Instance entry_here : RetentionEntry IssuedAuthorization := issued_entry str_of_container.

(** Inserting records with new, distinct keys puts them at the newest end. *)
Lemma put_distinct (recs l : list IssuedAuthorization) :
  NoDup (ia_job_nonce <$> recs) →
  ∃ l', fold_left (λ l e, without (ia_job_nonce e) l ++ [e]) recs l
        = l' ++ recs ∧
        (∀ a, a ∈ l → ia_job_nonce a ∉ ia_job_nonce <$> recs → a ∈ l') ∧ (length l' <= length l)%nat.
Proof.
  induction recs as [|e recs IH] using rev_ind; intros Hnd.
  - exists l. rewrite app_nil_r. by split_and!.
  - rewrite fmap_app in Hnd. apply NoDup_app in Hnd as (Hnd & Hdis & _).
    destruct (IH Hnd) as (l' & Heq & Hkeep & Hlen). rewrite fold_left_app, Heq. simpl.
    exists (filter (λ a, ia_job_nonce a ≠ ia_job_nonce e) l'). unfold without.
    rewrite filter_app, (filter_all _ recs).
    + split_and!; [by rewrite <-app_assoc | | etrans; [apply length_filter | done]].
      intros a Ha Hn. rewrite fmap_app, elem_of_app in Hn. apply list_elem_of_filter.
      split; [intros Heq'; apply Hn; right; rewrite Heq'; by left | apply Hkeep; auto].
    + apply Forall_forall. intros a Ha Heq'. apply (Hdis (ia_job_nonce a)).
      * by apply list_elem_of_fmap_2.
      * simpl in Heq'. rewrite Heq'. by left.
Qed.

Lemma newest_suffix (max : Z) (l' recs : list IssuedAuthorization) a :
  zlen recs <= max → a ∈ recs ∨ a ∈ l' ∧ zlen l' + zlen recs <= max → a ∈ newest max (l' ++ recs).
Proof.
  unfold newest. rewrite length_app. intros Hm Ha.
  rewrite drop_app_le by lia. apply elem_of_app. destruct Ha as [Ha|[Ha Hl]]; [by right | left].
  by replace (length l' + length recs - Z.to_nat max)%nat with 0%nat by lia.
Qed.

Lemma stage_nonces_NoDup rq jn rh ex linked t (payees : list (string * Z)) :
  NoDup ((λ p : string * Z, lower p.1) <$> payees) →
  NoDup (ia_job_nonce <$> (stage_authorization rq jn rh ex linked t <$> payees)).
Proof.
  intros Hnd. rewrite <-list_fmap_compose.
  rewrite (list_fmap_ext _ (λ p : string * Z, (λ x, jn +:+ "#" +:+ x) (lower p.1)) payees)
    by (intros; done).
  rewrite (list_fmap_compose (λ p : string * Z, lower p.1) (λ x, jn +:+ "#" +:+ x)).
  apply NoDup_fmap_2; [|done]. intros x y Hxy. by repeat apply (inj (String.append _)) in Hxy.
Qed.

(** A requester that records the per-stage authorization it signed recognises
    the batches its stage nodes commit.  Whatever becomes of the write, after
    [record_per_stage] every batch committed by a payee of the set for at most
    its share and not after the expiry is AUTHORIZED, and the authorizations
    recorded before under other nonces are still there as long as the store has
    room. *)
Theorem stage_batches_recognised `{Externals} max s w payload payees linked jn rh ex rq :
  0 < max → sim (λ _, True) max s w →
  str_field str_of_container "job_nonce" payload = Ok jn →
  str_field str_of_container "request_hash" payload = Ok rh →
  (jget "expiry_unix" payload ≫= int_of_json) = Ok ex →
  str_field str_of_container "requester" payload = Ok rq →
  NoDup ((λ p : string * Z, lower p.1) <$> payees) → zlen payees <= max →
  wpm (E := retention) retention_exec (file_inv (λ _, True) max)
    (record_per_stage str_of_container payload payees linked)
    (λ res s' w', is_Ok res ∧ sim (λ _, True) max s' w' ∧
       (∀ payee share batch, (payee, share) ∈ payees → lower (cv_provider batch) = lower payee →
          cv_total_value_wei batch <= share → cv_commit_timestamp batch <= ex →
          bc_classification (classify (all_authorizations s') batch) = AUTHORIZED) ∧
       (∀ a, a ∈ all_authorizations s →
          (∀ p, p ∈ payees.*1 → ia_job_nonce a ≠ jn +:+ "#" +:+ lower p) →
          zlen (all_authorizations s) + zlen payees <= max → a ∈ all_authorizations s')) s w.
Proof.
  intros Hmax Hsim Hjn Hrh Hex Hrq Hnd Hlen. unfold record_per_stage.
  assert (∀ t, stage_authorizations str_of_container payload payees linked t =
               Ok (stage_authorization rq jn rh ex linked t <$> payees)) as Hbuild.
  { intros t. unfold stage_authorizations. rewrite Hjn, Hrh. simpl. rewrite Hex. simpl. by rewrite Hrq. }
  pose proof (issued_laws str_of_container) as Hlaws.
  apply (retain_stamped_sim (λ _, True) max); [done..| |].
  { intros t recs _. by apply Forall_true. }
  intros t. rewrite Hbuild. intros s' w' Hsim' Hall. split_and!; [by eexists | done | |].
  - intros payee share batch Hin Hp Hv Ht.
    destruct (bc_classification _) eqn:Hc; [done|].
    rewrite classify_unauthorized in Hc.
    destruct (Hc (stage_authorization rq jn rh ex linked t (payee, share))) as [Hno _]; [|done|by destruct Hno].
    unfold all_authorizations. rewrite Hall.
    edestruct put_distinct as (l' & -> & _); [by apply stage_nonces_NoDup|].
    apply newest_suffix; [by rewrite length_fmap|]. left. by apply list_elem_of_fmap_2.
  - intros a Ha Hne Hroom. unfold all_authorizations in *. rewrite Hall.
    edestruct put_distinct as (l' & -> & Hkeep & Hl'); [by apply stage_nonces_NoDup|].
    apply newest_suffix; [by rewrite length_fmap|]. right. rewrite length_fmap. split; [|lia].
    apply Hkeep; [done|]. rewrite <-list_fmap_compose.
    intros ([p v] & Heq & Hp)%list_elem_of_fmap. apply (Hne p); [by apply list_elem_of_fmap; eexists (p, v) | done].
Qed.
End Stages.

(** ** Claims *)

(** The requester is warned of exactly the batches nothing it signed covers.
    The scan reports a batch if and only if the range lists it under my address,
    it can be read, it names me, and no retained authorization to its provider
    has a ceiling of at least its value and an expiry not before its commit; the
    report carries the batch's status, is challengeable exactly when the batch is
    pending, and pending batches come first.  If the range cannot be listed there
    is no report. *)
Theorem requester_alerts_exact `{Externals} observed read_batch auths me :
  (∀ al, al ∈ scan_for_unauthorized_batches (Ok observed) read_batch auths me ↔
     ∃ bid rq b, (bid, rq) ∈ observed ∧ lower rq = lower me ∧ read_batch bid = Ok b ∧
       lower (rb_requester b) = lower me ∧ (∀ a, a ∈ auths → ¬ covers a b) ∧
       al = alert_about bid b) ∧
  StronglySorted (λ x y, al_challengeable y = true → al_challengeable x = true)
    (scan_for_unauthorized_batches (Ok observed) read_batch auths me) ∧
  ∀ e, scan_for_unauthorized_batches (Err e) read_batch auths me = [].
Proof.
  split_and!; [intros al; apply elem_scan | | done].
  unfold scan_for_unauthorized_batches. cbv zeta. set (l := omap _ _).
  pose proof (sort_sorted (key_leb (λ a, negb (al_challengeable a)) implb) l) as Hs.
  induction Hs as [|x l' _ IH Hx]; constructor; [done|].
  apply Forall_forall. intros y Hy. rewrite Forall_forall in Hx. specialize (Hx y Hy).
  unfold key_leb in Hx. by destruct (al_challengeable x), (al_challengeable y).
Qed.

(** C12 The defence disputes what was not authorized, and only that.  A challenge
    comes out of scan and assembly only for a readable batch naming me that no
    retained authorization covers.  Every such batch in the range whose retained
    receipts match its root gets one, and sent by the requester while the batch
    is pending and its window open, the contract accepts it and invalidates the
    leaf. *)
Theorem escrow_defended `{KeccakLaws, !ContractEnv, !ContractLaws} m r observed read_batch auths me
    receipts_by_batch client :
  let alerts := scan_for_unauthorized_batches (Ok observed) read_batch auths me in
  let results := assemble_no_escrow_challenges (al_classification <$> alerts) receipts_by_batch client in
  (∀ x ch, x ∈ results → ne_challenge x = Some ch →
     ch_batch_id ch = ne_batch_id x ∧
     ∃ b, read_batch (ne_batch_id x) = Ok b ∧ lower (rb_requester b) = lower me ∧
          ∀ a, a ∈ auths → ¬ covers a b) ∧
  (∀ bid rq b rs B,
     (bid, rq) ∈ observed → lower rq = lower me → read_batch bid = Ok b →
     lower (rb_requester b) = lower me → (∀ a, a ∈ auths → ¬ covers a b) →
     dict_get bid receipts_by_batch = Some rs → on_chain r bid B rs →
     ∃ x ch, x ∈ results ∧ ne_batch_id x = bid ∧ ne_challenge x = Some ch ∧
       (msg_sender m = b_requester B → challengeable m r bid B (ch_leaf ch) NO_ESCROW →
        accepted (submit m ch r) bid (hash_leaf (ch_leaf ch)))).
Proof.
  intros alerts results. unfold results, assemble_no_escrow_challenges. split.
  - intros x ch (c & (al & -> & Hal)%list_elem_of_fmap & Hx)%list_elem_of_omap Hch.
    destruct (no_escrow_result_inv _ _ _ _ _ Hx Hch) as (_ & Hid & Hchid).
    apply elem_scan in Hal as (bid & rq & b & _ & _ & Hr & Hme & Hno & ->). simpl in *.
    rewrite Hid. split; [done|]. by exists b.
  - intros bid rq b rs B Ho Hrq Hr Hme Hno Hrs (H32 & HB & Hv).
    destruct (no_escrow_assembled bid rs _ Hv) as (ch & Hch & Hreason).
    assert (alert_about bid b ∈ alerts) as Hal by (apply elem_scan; eauto 10).
    destruct (no_escrow_result_some receipts_by_batch client (al_classification (alert_about bid b)) rs ch)
      as (x & Hx & Hid & Hxc); [done..|].
    exists x, ch. split_and!; [|done..|].
    + apply list_elem_of_omap. eexists. split; [|done]. by apply list_elem_of_fmap_2.
    + intros Hm Hc. destruct (no_escrow_handled m r bid B rs 0 ch Hv Hch Hm) as (Hcid & Hoz & Hh).
      unfold submit. rewrite Hcid. apply challenge_to_handler with (b := B); [by rewrite Hreason | done | done].
Qed.

(** * A requester on the concrete chain

    The requester of the three batches of ChallengeExample.v signed for the first
    two; the third is disputed.  The witnesses of the requester's claims, and two
    limits of the defence: a batch that accumulates two authorized jobs is taken
    for an attack, and a challenge takes off a batch only what its leaf declares. *)

#[local] Open Scope string_scope.
#[local] Open Scope list_scope.
#[local] Open Scope Z_scope.

Import Toy.

(** ** One forged batch among three *)

Definition issued (provider nonce : string) (spend expiry : Z) : IssuedAuthorization :=
  {| ia_requester := req; ia_provider := provider; ia_max_spend_wei := spend; ia_job_nonce := nonce;
     ia_expiry_unix := expiry; ia_request_hash := ""; ia_linked_job_id := None; ia_issued_at := 1000 |}.

(** Nothing was signed for provider 3 that had not expired. *)
Definition signed : list IssuedAuthorization :=
  [issued p1 "n1" 30 5000; issued p2 "n2" 30 5000; issued p3 "n3" 1000 2199].

Definition status_int (s : BatchStatus) : Z :=
  match s with PENDING => 1 | FINALIZED => 2 | VOIDED => 3 end.

Definition read_chain (bid : bytes) : result ChainBatch :=
  match dict_get bid (batches chain) with
  | Some b => Ok {| rb_requester := b_requester b; rb_provider := b_provider b;
                    rb_total_value_ftns := b_totalValueFTNS b; rb_commit_timestamp := b_commitTimestamp b;
                    rb_status := status_int (b_status b) |}
  | None => Err ValueError
  end.

Definition observed : list (bytes * string) := [(id1, req); (id2, req); (id3, req); (id1, p1)].

Example one_alert :
  al_classification <$> scan_for_unauthorized_batches (Ok observed) read_chain signed req =
  [{| bc_batch_id := id3; bc_requester := req; bc_provider := p3; bc_total_value_wei := 30;
      bc_classification := UNAUTHORIZED; bc_match_basis := NoBasis |}].
Proof. vm_compute. reflexivity. Qed.

Definition from_requester : Msg := msg_at req 3000.

Lemma escrow_defended_witness :
  ∃ ch, dict_get id3 receipts_table = Some set3 ∧ ch_batch_id ch = id3 ∧
    accepted (submit from_requester ch chain) id3 (hash_leaf (ch_leaf ch)).
Proof.
  destruct (escrow_defended from_requester chain observed read_chain signed req receipts_table None)
    as [Honly Hall].
  destruct (read_chain id3) as [b|] eqn:Hb; [|vm_compute in Hb; discriminate].
  assert (dict_get id3 receipts_table = Some set3) as Hset by (vm_compute; reflexivity).
  destruct (Hall id3 req b set3 (batch_at id3)) as (x & ch & Hx & Hid & Hch & Hacc).
  - right. right. left.
  - reflexivity.
  - exact Hb.
  - vm_compute in Hb. injection Hb as <-. vm_compute. reflexivity.
  - intros a Ha (Hp & Hv & Ht). apply list_elem_of_In in Ha.
    vm_compute in Hb. injection Hb as <-.
    destruct Ha as [<-|[<-|[<-|[]]]]; [vm_compute in Hp; discriminate.. |].
    vm_compute in Ht. apply Ht. reflexivity.
  - exact Hset.
  - apply on_chain_at; vm_compute; reflexivity.
  - exists ch. split; [exact Hset|]. destruct (Honly x ch Hx Hch) as [Hcid _].
    split; [rewrite Hcid; exact Hid|]. apply Hacc; [vm_compute; reflexivity|].
    assert (leaf_value_ftns (ch_leaf ch) <= 100) as Hvalue.
    { clear Hacc. vm_compute in Hx. repeat apply elem_of_cons in Hx as [->|Hx]; [|by apply not_elem_of_nil in Hx].
      vm_compute in Hch. injection Hch as <-. vm_compute. discriminate. }
    exact (challengeable_now {| ch_batch_id := id3; ch_leaf := ch_leaf ch; ch_merkle_proof := [];
                                ch_reason_code := NO_ESCROW; ch_aux_data := [] |} id3
             ltac:(vm_compute; reflexivity) ltac:(vm_compute; reflexivity)
             ltac:(vm_compute; split; [discriminate | reflexivity]) ltac:(vm_compute; reflexivity)
             ltac:(cbn [ch_leaf]; assert (b_invalidatedValueFTNS (batch_at id3) = 0) as -> by (vm_compute; reflexivity);
                   unfold UINT256_MAX; lia)).
Defined.

(** ** A per-stage authorization is recorded *)

Definition no_text (_ : json) : string := "".
Definition empty_store : IssuedAuthorizationStore := {| re_max := 10; re_entries := [] |}.

Lemma empty_store_sim :
  sim (H := issued_entry no_text) (λ _, True) 10 empty_store Absent.
Proof.
  exists {| live := []; durable := [] |}. split_and!; [apply rtc_refl | | done | done].
  split; [done | constructor | | vm_compute; discriminate].
  intros k e Hin. by apply not_elem_of_nil in Hin.
Qed.

Lemma stage_batches_recognised_witness :
  wpm (E := retention) retention_exec (file_inv (H := issued_entry no_text) (λ _, True) 10)
    (record_per_stage no_text (JObj stage_auth) payees7 None)
    (λ res s' _, is_Ok res ∧ ∀ batch, lower (cv_provider batch) = lower "0x00000000000000000000000000000000000000BB" →
       cv_total_value_wei batch <= 4 → cv_commit_timestamp batch <= 2000 →
       bc_classification (classify (all_authorizations s') batch) = AUTHORIZED) empty_store Absent.
Proof.
  eapply wpm_mono; [apply (stage_batches_recognised no_text 10 empty_store Absent (JObj stage_auth) payees7 None
           (hex32 "01") ("0x" +:+ hex32 "ab") 2000 sample_requester)|].
  - reflexivity.
  - exact empty_store_sim.
  - vm_compute. reflexivity.
  - vm_compute. reflexivity.
  - vm_compute. reflexivity.
  - vm_compute. reflexivity.
  - apply (bool_decide_eq_true_1 _). vm_compute. reflexivity.
  - vm_compute. discriminate.
  - intros res s' w' _ (Hok & _ & Hrec & _). split; [exact Hok|]. intros batch Hp Hv Ht.
    apply (Hrec "0x00000000000000000000000000000000000000Bb" 4 batch); [left | rewrite Hp | exact Hv | exact Ht].
    vm_compute. reflexivity.
Defined.

(** ** Limits of the defence *)

(** A provider that runs two authorized jobs commits them in one batch, as its
    accumulator does; the batch's value is above each ceiling, and the scan, which
    supplies no leaf hashes, reports it.  So does a commit made after the expiry
    of the authorization the work was accepted under. *)
Definition two_jobs : list IssuedAuthorization := [issued p1 "j1" 20 5000; issued p1 "j2" 15 5000].
Definition honest_batch (value t : Z) : ChainBatch :=
  {| rb_requester := req; rb_provider := p1; rb_total_value_ftns := value; rb_commit_timestamp := t;
     rb_status := STATUS_PENDING |}.

Lemma honest_batch_disputed :
  length (scan_for_unauthorized_batches (Ok [(id1, req)]) (λ _, Ok (honest_batch 35 2000)) two_jobs req) = 1%nat ∧
  length (scan_for_unauthorized_batches (Ok [(id1, req)]) (λ _, Ok (honest_batch 20 5001)) two_jobs req) = 1%nat ∧
  length (scan_for_unauthorized_batches (Ok [(id1, req)]) (λ _, Ok (honest_batch 20 2000)) two_jobs req) = 0%nat.
Proof. vm_compute. by split_and!. Qed.

(** A forged batch whose only leaf declares a value of nothing: the challenge of
    the requester is accepted, and finalizing pays the whole batch all the same. *)
Definition worthless : BatchedReceipt := sample_batched 9 0 "e9".
Definition forged := Eval vm_compute in
  match commitBatchWithAttestation (msg_at p3 2000) req (root_of [worthless]) 1 1000 500 group1 ""
          zero_bytes32 fresh_registry with
  | Done x => x
  | Revert _ => ([], fresh_registry)
  end.

Lemma challenged_batch_still_pays :
  match assemble_no_escrow_challenge forged.1 [worthless] 0 with
  | Ok ch =>
      match submit from_requester ch forged.2 with
      | Done (r', _) =>
          match finalizeBatch (msg_at p3 20000) forged.1 r' with
          | Done (_, calls) => calls = [SettleCall p1 req p3 1000]
          | Revert _ => False
          end
      | Revert _ => False
      end
  | Err _ => False
  end.
Proof. vm_compute. reflexivity. Qed.

(** The same with a leaf that declares its value: what is left is paid. *)
Definition half : BatchedReceipt := sample_batched 9 400 "e9".
Definition half_committed := Eval vm_compute in
  match commitBatchWithAttestation (msg_at p3 2000) req (root_of [half]) 1 1000 500 group1 ""
          zero_bytes32 fresh_registry with
  | Done x => x
  | Revert _ => ([], fresh_registry)
  end.
Definition half_challenge := Eval vm_compute in
  match assemble_no_escrow_challenge half_committed.1 [half] 0 with
  | Ok ch => ch
  | Err _ => expired1
  end.
Definition half_challenged := Eval vm_compute in
  match submit from_requester half_challenge half_committed.2 with
  | Done (r', _) => r'
  | Revert _ => fresh_registry
  end.
Definition half_finalized := Eval vm_compute in
  match finalizeBatch (msg_at p3 20000) half_committed.1 half_challenged with
  | Done x => x
  | Revert _ => (fresh_registry, [])
  end.
Definition half_events : list event :=
  [Challenged half_committed.1 (hash_leaf (ch_leaf half_challenge)) (leaf_value_ftns (ch_leaf half_challenge));
   Finalized half_committed.1 half_finalized.2].

Lemma half_history : rtc registry_step (fresh_registry, []) (half_finalized.1, half_events).
Proof.
  eapply rtc_l; [apply (step_commit (msg_at p3 2000) req (root_of [half]) 1 1000 500 group1 "" zero_bytes32
                          half_committed.1 fresh_registry half_committed.2); vm_compute; reflexivity|].
  eapply rtc_l; [apply (step_challenge from_requester half_committed.1 (ch_leaf half_challenge)
                          (ch_merkle_proof half_challenge) NO_ESCROW (ch_aux_data half_challenge) half_committed.2
                          half_challenged []); vm_compute; reflexivity|].
  eapply rtc_l; [apply (step_finalize (msg_at p3 20000) half_committed.1 half_challenged half_finalized.1
                          half_finalized.2); vm_compute; reflexivity|].
  apply rtc_refl.
Qed.

Lemma registry_pays_once_witness :
  ∃ b, dict_get half_committed.1 (batches half_finalized.1) = Some b ∧
       [SettleCall p1 req p3 600] = transfers b (b_totalValueFTNS b - 400).
Proof.
  destruct (registry_pays_once fresh_registry half_finalized.1 half_events eq_refl half_history)
    as (_ & _ & Hpaid).
  destruct (Hpaid half_committed.1 half_finalized.2) as (b & Hb & _ & _ & Hcalls).
  - right. left.
  - exists b. split; [exact Hb|].
    assert (challenged_sum half_committed.1 half_events = 400) as Hs by (vm_compute; reflexivity).
    rewrite Hs in Hcalls. rewrite <-Hcalls. vm_compute. reflexivity.
Defined.
