(* ===== verification/PyNumbers.v ===== *)
(** * Python's numbers

    First [decimal.Decimal], then the text of decimals and floats, then the arithmetic of
    floats.

    Finite decimals and the operations of the [decimal] module the modelled code
    uses, following the algorithms of its specification: results are rounded half
    to even at the precision of the context, an exponent above [Emax] raises, a
    subnormal result is rounded at [Etiny].  The precision is a parameter,
    because it is a per-thread setting that code may change; its default is 28.
    The sign of a zero is not kept. *)
From Stdlib Require Import ZArith Lia QArith Qpower Qround Lqa DecimalString DecimalPos.
From S2P Require Import PyStd.
From S2P Require Import Prelude.

#[local] Open Scope Z_scope.

(** [coef * 10 ^ exp] *)
Record decimal : Type := { dec_coef : Z; dec_exp : Z }.

(** [len(str(abs(z)))] *)
Fixpoint digits_fuel (fuel : nat) (z : Z) : Z :=
  match fuel with
  | O => 1
  | S fuel' => if z <? 10 then 1 else 1 + digits_fuel fuel' (z / 10)
  end.
Definition digits (z : Z) : Z := digits_fuel (Z.to_nat (Z.log2 (Z.abs z))) (Z.abs z).

(** [n / m] rounded half to even, for [n >= 0] and [m > 0]. *)
Definition round_half_even (n m : Z) : Z :=
  let q := n / m in
  let r := n mod m in
  if (m <? 2 * r) || ((2 * r =? m) && Z.odd q) then q + 1 else q.

(** ** Operations in a context of precision [prec] *)

Definition Emax : Z := 999999.
Definition Emin : Z := -999999.

Section Context.
Variable prec : Z.

Definition Etiny : Z := Emin - prec + 1.
Definition Etop : Z := Emax - prec + 1.

(** The exponent [_fix] rounds a non-zero decimal at. *)
Definition fix_exp (d : decimal) : Z := Z.max (digits (dec_coef d) + dec_exp d - prec) Etiny.

(** [Decimal._fix] *)
Definition dec_fix (d : decimal) : result decimal :=
  let '{| dec_coef := c; dec_exp := e |} := d in
  if c =? 0 then Ok {| dec_coef := 0; dec_exp := Z.min (Z.max e Etiny) Emax |}
  else
    _ ← raise_if (Etop <? digits c + e - prec) DecimalException;
    let m := fix_exp d in
    if e <? m then
      let c' := Z.sgn c * round_half_even (Z.abs c) (10 ^ (m - e)) in
      let d' := if prec <? digits c' then {| dec_coef := Z.quot c' 10; dec_exp := m + 1 |}
                else {| dec_coef := c'; dec_exp := m |} in
      _ ← raise_if (Etop <? dec_exp d') DecimalException;
      Ok d'
    else Ok d.

(** [a * b] *)
Definition dec_mul (a b : decimal) : result decimal :=
  dec_fix {| dec_coef := dec_coef a * dec_coef b; dec_exp := dec_exp a + dec_exp b |}.

(** [a + b] and [a - b]; the operands are aligned exactly. *)
Definition dec_add (a b : decimal) : result decimal :=
  let m := Z.min (dec_exp a) (dec_exp b) in
  dec_fix {| dec_coef := dec_coef a * 10 ^ (dec_exp a - m) + dec_coef b * 10 ^ (dec_exp b - m);
             dec_exp := m |}.
Definition dec_opp (a : decimal) : decimal := {| dec_coef := - dec_coef a; dec_exp := dec_exp a |}.
Definition dec_sub (a b : decimal) : result decimal := dec_add a (dec_opp b).

(** Drop trailing zeros while the exponent is below [ideal]. *)
Fixpoint strip_zeros (fuel : nat) (c e ideal : Z) : decimal :=
  match fuel with
  | O => {| dec_coef := c; dec_exp := e |}
  | S fuel' =>
      if (e <? ideal) && (c mod 10 =? 0) then strip_zeros fuel' (c / 10) (e + 1) ideal
      else {| dec_coef := c; dec_exp := e |}
  end.

(** [a / b]: [prec + 1] digits of the quotient, the last one made sticky. *)
Definition dec_div (a b : decimal) : result decimal :=
  let ca := Z.abs (dec_coef a) in
  let cb := Z.abs (dec_coef b) in
  if cb =? 0 then Err DecimalException
  else if ca =? 0 then dec_fix {| dec_coef := 0; dec_exp := dec_exp a - dec_exp b |}
  else
    let shift := digits cb - digits ca + prec + 1 in
    let e := dec_exp a - dec_exp b - shift in
    let n := if 0 <=? shift then ca * 10 ^ shift else ca in
    let m := if 0 <=? shift then cb else cb * 10 ^ (- shift) in
    let q := n / m in
    let d := if negb (n mod m =? 0)
             then {| dec_coef := if q mod 5 =? 0 then q + 1 else q; dec_exp := e |}
             else strip_zeros (Z.to_nat (digits q)) q e (dec_exp a - dec_exp b) in
    dec_fix {| dec_coef := Z.sgn (dec_coef a) * Z.sgn (dec_coef b) * dec_coef d; dec_exp := dec_exp d |}.

(** [sum(l, Decimal("0"))] *)
Definition dec_zero : decimal := {| dec_coef := 0; dec_exp := 0 |}.
Definition dec_sum (l : list decimal) : result decimal := result_foldM dec_add dec_zero l.
End Context.

(** ** Exact operations *)

(** [Decimal(z)] *)
Definition dec_of_int (z : Z) : decimal := {| dec_coef := z; dec_exp := 0 |}.

(** The coefficients of two decimals at their lower exponent. *)
Definition aligned (a b : decimal) : Z * Z :=
  let m := Z.min (dec_exp a) (dec_exp b) in
  (dec_coef a * 10 ^ (dec_exp a - m), dec_coef b * 10 ^ (dec_exp b - m)).

(** [a <= b], [a == b] *)
Definition dec_leb (a b : decimal) : bool := let '(x, y) := aligned a b in x <=? y.
Definition dec_eqb (a b : decimal) : bool := let '(x, y) := aligned a b in x =? y.

(** [int(a)]: towards zero. *)
Definition dec_int (a : decimal) : Z :=
  if 0 <=? dec_exp a then dec_coef a * 10 ^ dec_exp a else Z.quot (dec_coef a) (10 ^ (- dec_exp a)).

(** ** Values *)

Definition pow10 (e : Z) : Q := (inject_Z 10 ^ e)%Q.
Definition dec_val (d : decimal) : Q := (inject_Z (dec_coef d) * pow10 (dec_exp d))%Q.

#[global] Arguments pow10 : simpl never.

Lemma pow10_plus a b : (pow10 (a + b) == pow10 a * pow10 b)%Q.
Proof. unfold pow10. by apply Qpower_plus. Qed.

Lemma pow10_pos e : (0 < pow10 e)%Q.
Proof. unfold pow10. by apply Qpower_0_lt. Qed.

Lemma pow10_Z n : 0 <= n → (pow10 n == inject_Z (10 ^ n))%Q.
Proof. intros Hn. unfold pow10. by rewrite Zpower_Qpower. Qed.

(** A decimal seen at a lower exponent. *)
Lemma dec_val_at d m : m <= dec_exp d → (dec_val d == inject_Z (dec_coef d * 10 ^ (dec_exp d - m)) * pow10 m)%Q.
Proof.
  intros Hm. unfold dec_val. rewrite inject_Z_mult, <- pow10_Z by lia.
  rewrite <- Qmult_assoc, <- pow10_plus. by replace (dec_exp d - m + m) with (dec_exp d) by lia.
Qed.

Lemma grid_lt a b m : (inject_Z a * pow10 m < inject_Z b * pow10 m)%Q ↔ a < b.
Proof.
  rewrite Zlt_Qlt. pose proof (pow10_pos m) as Hp. split; intros H.
  - by apply Qmult_lt_r in H.
  - by apply Qmult_lt_r.
Qed.

Lemma grid_eq a b m : (inject_Z a * pow10 m == inject_Z b * pow10 m)%Q ↔ a = b.
Proof.
  pose proof (pow10_pos m) as Hp. rewrite <- inject_Z_injective. split; intros H.
  - apply Qmult_inj_r in H; [done|]. intros Hz. by rewrite Hz in Hp.
  - by rewrite H.
Qed.

(** ** Digits *)

Lemma digits_fuel_spec f z :
  0 < z → Z.log2 z <= Z.of_nat f →
  1 <= digits_fuel f z ∧ 10 ^ (digits_fuel f z - 1) <= z < 10 ^ digits_fuel f z.
Proof.
  revert z. induction f as [|f IH]; intros z Hz Hf; simpl.
  - assert (z < 2) by (apply Z.log2_lt_cancel; simpl; lia). assert (z = 1) as -> by lia. simpl. lia.
  - destruct (Z.ltb_spec z 10) as [Hlt|Hge]; [simpl; lia|].
    destruct (IH (z / 10)) as (H1 & H2 & H3).
    + apply Z.div_str_pos. lia.
    + assert (Z.log2 (z / 10) <= Z.log2 (z / 2)) by (apply Z.log2_le_mono, Z.div_le_compat_l; lia).
      assert (Z.log2 (z / 2) = Z.log2 z - 1); [|lia].
      rewrite <- Z.div2_div. rewrite Z.div2_spec, Z.log2_shiftr by lia.
      assert (1 <= Z.log2 z) by (change 1 with (Z.log2 2); apply Z.log2_le_mono; lia). lia.
    + split; [lia|]. set (d := digits_fuel f (z / 10)) in *.
      replace (1 + d - 1) with (1 + (d - 1)) by lia. rewrite !Z.pow_add_r by lia.
      pose proof (Z.div_mod z 10). pose proof (Z.mod_pos_bound z 10). lia.
Qed.

Lemma digits_spec z : z ≠ 0 → 1 <= digits z ∧ 10 ^ (digits z - 1) <= Z.abs z < 10 ^ digits z.
Proof.
  intros Hz. apply digits_fuel_spec; [lia|]. pose proof (Z.log2_nonneg (Z.abs z)). lia.
Qed.

Lemma digits_bound z n : 0 <= n → Z.abs z < 10 ^ n → digits z <= Z.max 1 n.
Proof.
  intros Hn Hz. destruct (decide (z = 0)) as [->|Hne]; [unfold digits; simpl; lia|].
  destruct (digits_spec z Hne) as (H1 & H2 & _).
  assert (10 ^ (digits z - 1) < 10 ^ n) as Hlt by lia. apply Z.pow_lt_mono_r_iff in Hlt; lia.
Qed.

Lemma round_half_even_exact n m : 0 < m → round_half_even (n * m) m = n.
Proof.
  intros Hm. unfold round_half_even. rewrite Z.div_mul, Z.mod_mul by lia.
  replace (m <? 2 * 0) with false by lia. replace (2 * 0 =? m) with false by lia. done.
Qed.

Lemma round_half_even_nonneg n m : 0 <= n → 0 < m → 0 <= round_half_even n m.
Proof. intros Hn Hm. unfold round_half_even. pose proof (Z.div_pos n m Hn Hm). destruct (_ || _); lia. Qed.

(** ** Exact results *)

(** [d] is [k * 10 ^ e] with at most [prec] digits and an exponent in range: then
    rounding leaves its value alone. *)
Record representable (prec : Z) (v : Q) (k e : Z) : Prop := {
  rp_val : (v == inject_Z k * pow10 e)%Q;
  rp_digits : Z.abs k < 10 ^ prec;
  rp_range : Etiny prec <= e <= Etop prec
}.

Lemma representable_eq prec v v' k e : (v == v')%Q → representable prec v k e → representable prec v' k e.
Proof. intros Hv []. split; [by rewrite <- Hv | done | done]. Qed.

(** The exponent rounding happens at is below that of a representable value. *)
Lemma fix_exp_le prec c e k e' :
  1 <= prec → c ≠ 0 → representable prec (dec_val {| dec_coef := c; dec_exp := e |}) k e' →
  digits c + e - prec <= e'.
Proof.
  intros Hp Hc [Hv Hk _]. destruct (digits_spec c Hc) as (Hd & Hlo & _).
  destruct (Z.le_gt_cases (digits c + e - prec) e') as [|Hgt]; [done|]. exfalso.
  set (m := Z.min e e').
  rewrite (dec_val_at _ m) in Hv by (unfold m; simpl; lia). simpl in Hv.
  pose proof (dec_val_at {| dec_coef := k; dec_exp := e' |} m) as Hk'. unfold dec_val in Hk'. simpl in Hk'.
  rewrite Hk' in Hv by (unfold m; lia). apply grid_eq in Hv.
  assert (Z.abs c * 10 ^ (e - m) = Z.abs k * 10 ^ (e' - m)) as Habs.
  { rewrite <- (Z.abs_eq (10 ^ (e - m))), <- (Z.abs_eq (10 ^ (e' - m))) by (apply Z.pow_nonneg; lia).
    rewrite <- !Z.abs_mul. by rewrite Hv. }
  assert (0 < 10 ^ (e' - m)) by (apply Z.pow_pos_nonneg; unfold m; lia).
  assert (10 ^ (digits c - 1) * 10 ^ (e - m) < 10 ^ prec * 10 ^ (e' - m)) as Hlt.
  { assert (0 <= 10 ^ (e - m)) by (apply Z.pow_nonneg; lia). nia. }
  rewrite <- !Z.pow_add_r in Hlt by (unfold m; lia). apply Z.pow_lt_mono_r_iff in Hlt; [|lia|unfold m; lia]. lia.
Qed.

Lemma dec_fix_exact prec d k e :
  1 <= prec → representable prec (dec_val d) k e → ∃ d', dec_fix prec d = Ok d' ∧ (dec_val d' == dec_val d)%Q.
Proof.
  destruct d as [c x]. intros Hp Hr. unfold dec_fix.
  destruct (Z.eqb_spec c 0) as [->|Hc].
  { eexists. split; [done|]. unfold dec_val. simpl. change (inject_Z 0) with 0%Q. ring. }
  pose proof (fix_exp_le prec c x k e Hp Hc Hr) as Hle. destruct Hr as [Hv Hk [He1 He2]].
  replace (Etop prec <? digits c + x - prec) with false by lia. simpl.
  set (m := fix_exp prec _). assert (m = Z.max (digits c + x - prec) (Etiny prec)) as Hm by done.
  destruct (Z.ltb_spec x m) as [Hlt|Hge]; [|by eexists].
  assert (c = k * 10 ^ (e - m) * 10 ^ (m - x)) as Hck.
  { rewrite <- Z.mul_assoc, <- Z.pow_add_r by lia. replace (e - m + (m - x)) with (e - x) by lia.
    pose proof (dec_val_at {| dec_coef := k; dec_exp := e |} x) as Hk'. unfold dec_val in Hk', Hv. simpl in Hk', Hv.
    rewrite Hk' in Hv by lia. by apply grid_eq in Hv. }
  set (c' := k * 10 ^ (e - m)) in *.
  assert (0 < 10 ^ (m - x)) as Hpos by (apply Z.pow_pos_nonneg; lia).
  assert (Z.sgn c * round_half_even (Z.abs c) (10 ^ (m - x)) = c') as ->.
  { rewrite Hck at 2. rewrite Z.abs_mul, (Z.abs_eq (10 ^ _)), round_half_even_exact by lia.
    rewrite Hck, Z.sgn_mul, (Z.sgn_pos (10 ^ _)), Z.mul_1_r by lia. rewrite Z.mul_comm. apply Z.abs_sgn. }
  assert (digits c' <= prec) as Hd.
  { destruct (digits_spec c Hc) as (_ & _ & Hhi).
    assert (Z.abs c' * 10 ^ (m - x) < 10 ^ prec * 10 ^ (m - x)) as Hlt2.
    { rewrite <- Z.pow_add_r by lia. rewrite <- (Z.abs_eq (10 ^ (m - x))), <- Z.abs_mul, <- Hck by lia.
      eapply Z.lt_le_trans; [exact Hhi|]. apply Z.pow_le_mono_r; lia. }
    etrans; [apply (digits_bound c' prec)|]; [lia | nia | lia]. }
  replace (prec <? digits c') with false by lia. cbn [dec_exp]. replace (Etop prec <? m) with false by lia.
  eexists. split; [done|]. unfold dec_val. simpl. rewrite Hck, inject_Z_mult, <- pow10_Z by lia.
  rewrite <- Qmult_assoc, <- pow10_plus. by replace (m - x + x) with m by lia.
Qed.

Lemma dec_fix_nonneg prec d d' : 0 <= dec_coef d → dec_fix prec d = Ok d' → 0 <= dec_coef d'.
Proof.
  destruct d as [c x]. simpl. intros Hc Hf. destruct (Z.eqb_spec c 0); [by inv_result|]. inv_result.
  destruct (Z.ltb_spec x (fix_exp prec {| dec_coef := c; dec_exp := x |})) as [Hlt|]; inv_result; [|done].
  assert (0 <= Z.sgn c * round_half_even (Z.abs c) (10 ^ (fix_exp prec {| dec_coef := c; dec_exp := x |} - x))).
  { apply Z.mul_nonneg_nonneg; [lia|]. apply round_half_even_nonneg; [lia | apply Z.pow_pos_nonneg; lia]. }
  case_match; simpl; [apply Z.quot_pos; lia | done].
Qed.

(** ** Values of the operations *)

Lemma dec_mul_val a b :
  (dec_val {| dec_coef := dec_coef a * dec_coef b; dec_exp := dec_exp a + dec_exp b |} == dec_val a * dec_val b)%Q.
Proof. unfold dec_val. simpl. rewrite inject_Z_mult, pow10_plus. ring. Qed.

Lemma dec_add_val a b (m := Z.min (dec_exp a) (dec_exp b)) :
  (dec_val {| dec_coef := dec_coef a * 10 ^ (dec_exp a - m) + dec_coef b * 10 ^ (dec_exp b - m); dec_exp := m |} ==
   dec_val a + dec_val b)%Q.
Proof.
  rewrite (dec_val_at a m), (dec_val_at b m) by lia. unfold dec_val. simpl. rewrite inject_Z_plus. ring.
Qed.

Lemma dec_opp_val a : (dec_val (dec_opp a) == - dec_val a)%Q.
Proof. unfold dec_val. simpl. rewrite inject_Z_opp. ring. Qed.

(** A product, sum or difference that is representable is exact. *)
Lemma dec_mul_exact prec a b k e :
  1 <= prec → representable prec (dec_val a * dec_val b) k e →
  ∃ d, dec_mul prec a b = Ok d ∧ (dec_val d == dec_val a * dec_val b)%Q.
Proof.
  intros Hp Hr. unfold dec_mul.
  eapply representable_eq in Hr; [|symmetry; apply dec_mul_val].
  destruct (dec_fix_exact _ _ _ _ Hp Hr) as (d & Hd & Hv). exists d. split; [done|]. by rewrite Hv, dec_mul_val.
Qed.

Lemma dec_sub_exact prec a b k e :
  1 <= prec → representable prec (dec_val a - dec_val b) k e →
  ∃ d, dec_sub prec a b = Ok d ∧ (dec_val d == dec_val a - dec_val b)%Q.
Proof.
  intros Hp Hr. unfold dec_sub, dec_add.
  assert (dec_val a - dec_val b == dec_val a + dec_val (dec_opp b))%Q as Hs by (rewrite dec_opp_val; ring).
  eapply representable_eq in Hr; [|rewrite Hs; symmetry; apply dec_add_val].
  destruct (dec_fix_exact _ _ _ _ Hp Hr) as (d & Hd & Hv). exists d. split; [done|].
  by rewrite Hv, dec_add_val, Hs.
Qed.

Lemma dec_leb_val a b : dec_leb a b = true ↔ (dec_val a <= dec_val b)%Q.
Proof.
  unfold dec_leb, aligned. set (m := Z.min _ _).
  rewrite (dec_val_at a m), (dec_val_at b m) by (unfold m; lia). rewrite Z.leb_le.
  destruct (Z.le_gt_cases (dec_coef a * 10 ^ (dec_exp a - m)) (dec_coef b * 10 ^ (dec_exp b - m))) as [H|H].
  - split; [intros _|done]. apply Qmult_le_compat_r; [by rewrite <- Zle_Qle | apply Qlt_le_weak, pow10_pos].
  - split; [lia|]. intros Hq. apply (grid_lt _ _ m) in H. lra.
Qed.

Lemma dec_val_nonneg d : 0 <= dec_coef d ↔ (0 <= dec_val d)%Q.
Proof.
  unfold dec_val. pose proof (grid_lt (dec_coef d) 0 (dec_exp d)) as Hg.
  assert (inject_Z 0 * pow10 (dec_exp d) == 0)%Q as Hz by ring. rewrite Hz in Hg.
  destruct (Z.lt_ge_cases (dec_coef d) 0) as [H|H].
  - split; [lia|]. apply Hg in H. lra.
  - split; [intros _|done]. apply Qnot_lt_le. rewrite Hg. lia.
Qed.

(** [int] of a non-negative decimal is the floor of its value. *)
Lemma dec_int_floor d : 0 <= dec_coef d → dec_int d = Qfloor (dec_val d).
Proof.
  intros Hc. unfold dec_int. destruct (Z.leb_spec 0 (dec_exp d)) as [He|He].
  - rewrite (dec_val_at d 0), Z.sub_0_r by done.
    assert (inject_Z (dec_coef d * 10 ^ dec_exp d) * pow10 0 == inject_Z (dec_coef d * 10 ^ dec_exp d))%Q as ->
      by (change (pow10 0) with 1%Q; ring).
    by rewrite Qfloor_Z.
  - set (p := 10 ^ (- dec_exp d)). assert (0 < p) as Hp by (apply Z.pow_pos_nonneg; lia).
    rewrite Z.quot_div_nonneg by lia.
    assert (dec_val d * inject_Z p == inject_Z (dec_coef d))%Q as Hv.
    { unfold dec_val, p. rewrite <- pow10_Z by lia. rewrite <- Qmult_assoc, <- pow10_plus.
      replace (dec_exp d + - dec_exp d) with 0 by lia. change (pow10 0) with 1%Q. ring. }
    assert (dec_val d == inject_Z (dec_coef d) / inject_Z p)%Q as ->.
    { rewrite <- Hv. field. intros Hz. apply (inject_Z_injective p 0) in Hz. lia. }
    apply Zdiv_Qdiv.
Qed.

(** ** [Decimal(s)] *)

Fixpoint scan_digits (s : string) (acc count : Z) : Z * Z * string :=
  match s with
  | String c s' =>
      let n := Z.of_N (N_of_ascii c) in
      if (48 <=? n) && (n <=? 57) then scan_digits s' (acc * 10 + (n - 48)) (count + 1) else (acc, count, s)
  | EmptyString => (acc, count, s)
  end.

Fixpoint drop_underscores (s : string) : string :=
  match s with
  | EmptyString => EmptyString
  | String c s' => if bool_decide (c = "_"%char) then drop_underscores s' else String c (drop_underscores s')
  end.

Definition scan_sign (s : string) : Z * string :=
  match s with
  | String "-" s' => (-1, s')
  | String "+" s' => (1, s')
  | _ => (1, s)
  end.

(** The exponent part, to the end of the text. *)
Definition scan_exponent (s : string) : option Z :=
  match s with
  | EmptyString => Some 0
  | String c s' =>
      if bool_decide (c = "e"%char ∨ c = "E"%char) then
        let '(sign, s') := scan_sign s' in
        let '(e, n, rest) := scan_digits s' 0 0 in
        if (0 <? n) && negb (str_nonempty rest) then Some (sign * e) else None
      else None
  end.

(** The exponents the constructor accepts. *)
Definition MAX_EMAX : Z := 999999999999999999.
Definition MIN_ETINY : Z := -1999999999999999997.

(** [None]: the constructor raises, or the value is not finite. *)
Definition decimal_of_str (s : string) : option decimal :=
  let '(sign, s) := scan_sign (drop_underscores (strip s)) in
  let '(whole, n, rest) := scan_digits s 0 0 in
  let '(coef, f, rest) :=
    match rest with
    | String "." rest' => scan_digits rest' whole 0
    | _ => (whole, 0, rest)
    end in
  if n + f =? 0 then None
  else
    e ← scan_exponent rest;
    let d := {| dec_coef := sign * coef; dec_exp := e - f |} in
    if (MAX_EMAX <? digits coef + dec_exp d - 1) || (dec_exp d <? MIN_ETINY) then None else Some d.

Example decimal_of_str_ex :
  decimal_of_str " -1_2.50e3 " = Some {| dec_coef := -1250; dec_exp := 1 |}.
Proof. reflexivity. Qed.

(** * Python's numbers as text

    [str] of a [Decimal], the value of a [float] given by its text, and the fixed
    notation of format strings ([f"{x:.10f}"]). *)

#[local] Open Scope string_scope.
#[local] Open Scope list_scope.
#[local] Open Scope Z_scope.

Definition slen (s : string) : Z := Z.of_nat (String.length s).

Fixpoint zeros (n : nat) : string := match n with O => "" | S n' => String "0" (zeros n') end.

(** The digits of [z], at least [n] of them. *)
Definition zpad (n : Z) (z : Z) : string :=
  let s := str_of_int z in zeros (Z.to_nat (n - slen s)) +:+ s.

(** ** Decimals *)

(** [str(d)]; the sign of a zero is not modelled. *)
Definition dec_str (d : decimal) : string :=
  let int := str_of_int (Z.abs (dec_coef d)) in
  let leftdigits := dec_exp d + slen int in
  let dotplace := if (dec_exp d <=? 0) && (-6 <? leftdigits) then leftdigits else 1 in
  let body :=
    if dotplace <=? 0 then "0." +:+ zeros (Z.to_nat (- dotplace)) +:+ int
    else if slen int <=? dotplace then int +:+ zeros (Z.to_nat (dotplace - slen int))
    else stake (Z.to_nat dotplace) int +:+ "." +:+ sdrop (Z.to_nat dotplace) int in
  let exp :=
    if leftdigits =? dotplace then ""
    else let e := leftdigits - dotplace in "E" +:+ (if 0 <=? e then "+" else "") +:+ str_of_int e in
  (if dec_coef d <? 0 then "-" else "") +:+ body +:+ exp.

Example dec_str_ex :
  map dec_str [{| dec_coef := -1250; dec_exp := -2 |}; {| dec_coef := 5; dec_exp := -8 |}; {| dec_coef := 12; dec_exp := 3 |};
               {| dec_coef := 5; dec_exp := -3 |}; {| dec_coef := 0; dec_exp := 0 |}] =
  ["-12.50"; "5E-8"; "1.2E+4"; "0.005"; "0"].
Proof. reflexivity. Qed.

(** ** Floats *)

(** [FFin neg m e] is [m * 2 ^ e], negated when [neg]. *)
Inductive pyfloat : Type := FFin (neg : bool) (m e : Z) | FInf (neg : bool) | FNan.

(** The quotient and half of an even tie: [n / 2 ^ e], rounded. *)
Definition round_shift (n d e : Z) : Z :=
  if 0 <=? e then round_half_even n (d * 2 ^ e) else round_half_even (n * 2 ^ (- e)) d.

(** The double nearest to [c * 10 ^ e10]. *)
Definition double_of (neg : bool) (c e10 : Z) : pyfloat :=
  if c =? 0 then FFin neg 0 0
  else
    let n := c * 10 ^ Z.max e10 0 in
    let d := 10 ^ Z.max (- e10) 0 in
    let e0 := Z.log2 n - Z.log2 d - 53 in
    (* [n / d] is at least [2 ^ (e0 + 52)] and below [2 ^ (e0 + 54)] *)
    let below := if 0 <=? e0 + 53 then n <? d * 2 ^ (e0 + 53) else n * 2 ^ (- (e0 + 53)) <? d in
    let e := Z.max (if below then e0 else e0 + 1) (-1074) in
    let m := round_shift n d e in
    if (0 <=? e) && (2 ^ 1024 <=? m * 2 ^ e) then FInf neg else FFin neg m e.

(** [float(s)] of the text of a float *)
Definition float_of_repr (s : string) : pyfloat :=
  if decide (s = "nan") then FNan
  else if decide (s = "inf") then FInf false
  else if decide (s = "-inf") then FInf true
  else
    match decimal_of_str s with
    | Some d => double_of (String.prefix "-" s) (Z.abs (dec_coef d)) (dec_exp d)
    | None => FNan
    end.

(** [f"{x:.pf}"], for positive [p] *)
Definition format_fixed (p : Z) (x : pyfloat) : string :=
  match x with
  | FNan => "nan"
  | FInf neg => if neg then "-inf" else "inf"
  | FFin neg m e =>
      let v := if 0 <=? e then m * 2 ^ e * 10 ^ p else round_half_even (m * 10 ^ p) (2 ^ (- e)) in
      (if neg then "-" else "") +:+ str_of_int (v / 10 ^ p) +:+ "." +:+ zpad p (v mod 10 ^ p)
  end.

Example format_fixed_ex :
  map (λ s, format_fixed 10 (float_of_repr s)) ["0.1"; "8.0"; "-0.0"; "1e-11"; "5e-11"; "1e+22"; "inf"] =
  ["0.1000000000"; "8.0000000000"; "-0.0000000000"; "0.0000000000"; "0.0000000001"; "10000000000000000000000.0000000000"; "inf"] ∧
  map (λ s, format_fixed 2 (float_of_repr s)) ["2.675"; "0.125"; "0.375"; "1.005"] = ["2.67"; "0.12"; "0.38"; "1.00"].
Proof. split; vm_compute; reflexivity. Qed.

Example double_of_ex :
  (double_of false 1 (-1) = FFin false 7205759403792794 (-56)) ∧ (double_of false 5 (-324) = FFin false 1 (-1074)) ∧
  (double_of false 1 309 = FInf false) ∧ (double_of false 9007199254740993 0 = FFin false 4503599627370496 1).
Proof. vm_compute. split_and!; reflexivity. Qed.

(** ** The text of a decimal reads back *)

Definition is_digit_char (c : ascii) : bool := let n := Z.of_N (N_of_ascii c) in (48 <=? n) && (n <=? 57).

Fixpoint all_digits (s : string) : bool :=
  match s with "" => true | String c s' => is_digit_char c && all_digits s' end.

(** The value of a string of digits *)
Definition digits_val (s : string) : Z := (PyNumbers.scan_digits s 0 0).1.1.

Lemma scan_value_app s t acc count :
  all_digits s = true → (PyNumbers.scan_digits (s +:+ t) acc count) =
  (PyNumbers.scan_digits t (acc * 10 ^ slen s + digits_val s) (count + slen s)).
Proof.
  unfold digits_val, slen.
  assert (∀ s acc count, all_digits s = true →
            PyNumbers.scan_digits s acc count = (acc * 10 ^ Z.of_nat (String.length s) + (PyNumbers.scan_digits s 0 0).1.1, count + Z.of_nat (String.length s), "")) as Hs.
  { clear. induction s as [|c s IH]; intros acc count Hd; [cbn; by rewrite Z.mul_1_r, !Z.add_0_r|].
    cbn [all_digits] in Hd. apply andb_prop in Hd as [Hc Hs]. unfold is_digit_char in Hc. cbn [PyNumbers.scan_digits String.length].
    rewrite Hc. rewrite (IH (acc * 10 + _)), (IH (0 * 10 + _)) by done. cbn [fst].
    rewrite Nat2Z.inj_succ, Z.pow_succ_r by lia. f_equal. f_equal; [ring | lia]. }
  revert acc count. induction s as [|c s IH]; intros acc count Hd.
  - cbn. by rewrite Z.mul_1_r, !Z.add_0_r.
  - change (String c s +:+ t) with (String c (s +:+ t)). cbn [all_digits] in Hd. pose proof Hd as Hd'. apply andb_prop in Hd as [Hc Hd].
    unfold is_digit_char in Hc. cbn [PyNumbers.scan_digits String.length]. rewrite Hc, IH by done.
    rewrite (Hs s (0 * 10 + _)) by done. cbn [fst]. rewrite Nat2Z.inj_succ, Z.pow_succ_r by lia. f_equal; [ring | lia].
Qed.

Lemma scan_digits_end s : all_digits s = true → PyNumbers.scan_digits s 0 0 = (digits_val s, slen s, "").
Proof.
  intros Hd. pose proof (scan_value_app s "" 0 0 Hd) as Ha. cbn [PyNumbers.scan_digits] in Ha.
  rewrite str_app_nil_r in Ha. by rewrite Ha.
Qed.

Lemma digits_val_app s t : all_digits s = true → all_digits t = true → digits_val (s +:+ t) = digits_val s * 10 ^ slen t + digits_val t.
Proof.
  intros Hs Ht. unfold digits_val at 1. rewrite scan_value_app by done.
  rewrite <-(str_app_nil_r t) at 1. rewrite scan_value_app by done. cbn. lia.
Qed.

Lemma all_digits_app s t : all_digits (s +:+ t) = all_digits s && all_digits t.
Proof. induction s as [|c s IH]; [done|]. change (String c s +:+ t) with (String c (s +:+ t)). cbn [all_digits]. by rewrite IH, andb_assoc. Qed.

Lemma zlen_of_app s t : slen (s +:+ t) = slen s + slen t.
Proof.
  unfold slen. induction s as [|c s IH]; [done|]. change (String c s +:+ t) with (String c (s +:+ t)). cbn [String.length]. lia.
Qed.

Lemma all_digits_zeros n : all_digits (zeros n) = true.
Proof. by induction n. Qed.
Lemma slen_zeros n : slen (zeros n) = Z.of_nat n.
Proof. unfold slen. induction n; cbn [zeros String.length]; lia. Qed.
Lemma digits_val_zeros n : digits_val (zeros n) = 0.
Proof.
  induction n as [|n IH]; [done|]. change (zeros (S n)) with ("0" +:+ zeros n).
  rewrite digits_val_app by (done || apply all_digits_zeros). by rewrite IH.
Qed.

Lemma all_digits_uint d : all_digits (NilEmpty.string_of_uint d) = true.
Proof. by induction d. Qed.

Lemma str_of_nat_digits z : 0 <= z → all_digits (str_of_int z) = true ∧ 1 <= slen (str_of_int z).
Proof.
  intros Hz. unfold str_of_int. destruct z as [|p|p]; [done| |lia]. cbn [Z.to_int NilZero.string_of_int]. unfold NilZero.string_of_uint.
  destruct (Pos.to_uint p) eqn:E; [by destruct (Unsigned.to_uint_nonnil p)|..];
    (split; [apply all_digits_uint | unfold slen; cbn [NilEmpty.string_of_uint String.length]; lia]).
Qed.

Lemma digits_of_all_digits s acc af : all_digits s = true → (s = "" → af = true) →
  digits_of_str s acc af = Some (acc * 10 ^ slen s + digits_val s).
Proof.
  revert acc af. induction s as [|c s IH]; intros acc af Hd Hne.
  - cbn. rewrite Hne by done. f_equal. change (10 ^ slen "") with 1. lia.
  - cbn [all_digits] in Hd. apply andb_prop in Hd as [Hc Hs]. pose proof Hc as Hc'. unfold is_digit_char in Hc. cbn [digits_of_str]. rewrite Hc.
    rewrite IH by done. f_equal.
    change (String c s) with (String c "" +:+ s). rewrite digits_val_app, zlen_of_app by (done || by cbn [all_digits]; rewrite Hc').
    assert (digits_val (String c "") = Z.of_N (N_of_ascii c) - 48) as ->.
    { unfold digits_val. cbn [PyNumbers.scan_digits]. rewrite Hc. cbn. lia. }
    change (slen (String c "")) with 1. unfold slen. rewrite Z.pow_add_r by lia. ring.
Qed.

Lemma digits_val_int z : 0 <= z → digits_val (str_of_int z) = z.
Proof.
  intros Hz. destruct (str_of_nat_digits z Hz) as [Hd Hl]. pose proof (int_of_str_of_int z) as Hi. unfold int_of_str in Hi.
  assert (no_space (str_of_int z) = true) as Hns.
  { clear -Hd. induction (str_of_int z) as [|c s IH]; [done|]. cbn [all_digits no_space] in *. apply andb_prop in Hd as [Hc Hs].
    rewrite IH by done. rewrite andb_true_r. unfold is_digit_char in Hc. unfold is_str_space, is_space. clear -Hc.
    apply negb_true_iff. destruct c as [[] [] [] [] [] [] [] []]; done. }
  rewrite strip_no_space in Hi by done. destruct (str_of_int z) as [|c s] eqn:E; [by cbn in Hl|].
  assert (digits_of_str (String c s) 0 false = Some z) as Hv.
  { cbn [all_digits] in Hd. apply andb_prop in Hd as [Hc _]. clear -Hc Hi. destruct c as [[] [] [] [] [] [] [] []]; done. }
  rewrite digits_of_all_digits in Hv by done. injection Hv as Hv. lia.
Qed.

(** Text without the characters that [Decimal(s)] drops *)
Fixpoint plain (s : string) : bool :=
  match s with "" => true | String c s' => negb (is_str_space c) && bool_decide (c ≠ "_"%char) && plain s' end.

Lemma plain_app s t : plain (s +:+ t) = plain s && plain t.
Proof. induction s as [|c s IH]; [done|]. change (String c s +:+ t) with (String c (s +:+ t)). cbn [plain]. by rewrite IH, !andb_assoc. Qed.

Lemma plain_kept s : plain s = true → drop_underscores (strip s) = s.
Proof.
  intros Hp. rewrite strip_no_space.
  - induction s as [|c s IH]; [done|]. cbn [plain] in Hp. apply andb_prop in Hp as [[_ Hc]%andb_prop Hs]. cbn [drop_underscores].
    apply bool_decide_eq_true in Hc. rewrite bool_decide_false by done. by rewrite IH.
  - induction s as [|c s IH]; [done|]. cbn [plain no_space] in *. apply andb_prop in Hp as [[Hc _]%andb_prop Hs]. by rewrite Hc, IH.
Qed.

Lemma plain_digits s : all_digits s = true → plain s = true.
Proof.
  induction s as [|c s IH]; [done|]. cbn [all_digits plain]. intros [Hc Hs]%andb_prop. rewrite IH by done. rewrite andb_true_r.
  clear -Hc. destruct c as [[] [] [] [] [] [] [] []]; done.
Qed.

Lemma stake_sdrop n s : s = stake n s +:+ sdrop n s.
Proof.
  revert s. induction n as [|n IH]; intros [|c s]; cbn [stake sdrop]; try done.
  change (String c (stake n s) +:+ sdrop n s) with (String c (stake n s +:+ sdrop n s)). by rewrite <-IH.
Qed.

Lemma all_digits_stake n s : all_digits s = true → all_digits (stake n s) = true ∧ all_digits (sdrop n s) = true.
Proof. intros Hs. rewrite (stake_sdrop n s), all_digits_app in Hs. by apply andb_prop in Hs. Qed.

Lemma slen_stake n s : 0 <= n <= slen s → slen (stake (Z.to_nat n) s) = n.
Proof.
  intros Hn. unfold slen in *. assert (∀ k t, (k <= String.length t)%nat → String.length (stake k t) = k) as Hk.
  { clear. induction k as [|k IH]; intros [|c t]; cbn [stake String.length]; try lia. intros Hk. rewrite IH; lia. }
  rewrite Hk; lia.
Qed.

(** What may follow the digits *)
Definition exp_tail (x : string) : bool := match x with "" => true | String c _ => bool_decide (c = "E"%char) end.

Lemma scan_digits_tail s x acc n : all_digits s = true → exp_tail x = true →
  PyNumbers.scan_digits (s +:+ x) acc n = (acc * 10 ^ slen s + digits_val s, n + slen s, x).
Proof.
  intros Hs Hx. rewrite scan_value_app by done. destruct x as [|c x]; [done|]. cbn in Hx. apply bool_decide_eq_true in Hx. by subst.
Qed.

Lemma scan_digits_dot s acc n : PyNumbers.scan_digits (String "." s) acc n = (acc, n, String "." s).
Proof. done. Qed.

Lemma scan_sign_digit c s : is_digit_char c = true → scan_sign (String c s) = (1, String c s).
Proof. intros Hc. destruct c as [[] [] [] [] [] [] [] []]; done. Qed.

Lemma parse_body (neg dot : bool) w f x e :
  all_digits w = true → 1 <= slen w → all_digits f = true → (dot = false → f = "") →
  exp_tail x = true → plain x = true → scan_exponent x = Some e →
  decimal_of_str ((if neg then "-" else "") +:+ (w +:+ (if dot then String "." f else "") +:+ x)) =
  let c := digits_val w * 10 ^ slen f + digits_val f in
  if (MAX_EMAX <? digits c + (e - slen f) - 1) || (e - slen f <? MIN_ETINY) then None
  else Some {| dec_coef := (if neg then -1 else 1) * c; dec_exp := e - slen f |}.
Proof.
  intros Hw Hlw Hf Hdot Hx Hpx He. unfold decimal_of_str.
  assert (plain ((if neg then "-" else "") +:+ (w +:+ (if dot then String "." f else "") +:+ x)) = true) as Hp.
  { rewrite !plain_app, Hpx, (plain_digits w) by done. destruct neg, dot; cbn [plain]; by rewrite ?(plain_digits f). }
  rewrite plain_kept by done.
  assert (scan_sign ((if neg then "-" else "") +:+ (w +:+ (if dot then String "." f else "") +:+ x)) =
          (if neg then -1 else 1, w +:+ (if dot then String "." f else "") +:+ x)) as ->.
  { destruct neg; [done|]. destruct w as [|c w]; [done|]. cbn [all_digits] in Hw. apply andb_prop in Hw as [Hc _].
    by apply scan_sign_digit. }
  rewrite scan_value_app by done. rewrite Z.mul_0_l, !Z.add_0_l. destruct dot.
  - change (String "." f +:+ x) with (String "." (f +:+ x)). rewrite scan_digits_dot. cbv beta iota zeta.
    rewrite scan_digits_tail by done. rewrite Z.add_0_l.
    destruct (Z.eqb_spec (slen w + slen f) 0); [unfold slen in *; lia|]. rewrite He. done.
  - rewrite (Hdot eq_refl) in *. change ("" +:+ x) with x.
    pose proof (scan_digits_tail "" x (digits_val w) (slen w) eq_refl Hx) as Ht. change ("" +:+ x) with x in Ht.
    rewrite Ht. change (digits_val "") with 0. change (slen "") with 0. rewrite !Z.pow_0_r, !Z.mul_1_r, !Z.add_0_r.
    destruct x as [|c x]; [|cbn in Hx; apply bool_decide_eq_true in Hx; subst c];
      rewrite ?Z.add_0_r; destruct (Z.eqb_spec (slen w) 0); try lia; rewrite He; done.
Qed.

(** The exponent of [dec_str] *)
Definition exp_text (e : Z) : string := "E" +:+ (if 0 <=? e then "+" else "") +:+ str_of_int e.

Lemma exp_text_scan e : exp_tail (exp_text e) = true ∧ plain (exp_text e) = true ∧ scan_exponent (exp_text e) = Some e.
Proof.
  unfold exp_text. split; [done|]. destruct (str_of_nat_digits (Z.abs e) ltac:(lia)) as [Hd Hl].
  destruct (Z.leb_spec 0 e) as [H|H].
  - rewrite Z.abs_eq in * by lia. split; [rewrite !plain_app; by rewrite (plain_digits (str_of_int e))|].
    change ("E" +:+ "+" +:+ str_of_int e) with (String "E" (String "+" (str_of_int e))).
    cbn [scan_exponent]. rewrite bool_decide_true by auto. cbn [scan_sign]. rewrite scan_digits_end by done.
    rewrite digits_val_int by lia. destruct (Z.ltb_spec 0 (slen (str_of_int e))); [|lia]. cbn. f_equal. lia.
  - destruct e as [|p|p]; try lia. change (str_of_int (Z.neg p)) with (String "-" (str_of_int (Z.pos p))). change (Z.abs (Z.neg p)) with (Z.pos p) in *.
    change ("" +:+ ?s) with s. split.
    + change ("E" +:+ String "-" (str_of_int (Z.pos p))) with ("E-" +:+ str_of_int (Z.pos p)). rewrite plain_app.
      by rewrite (plain_digits (str_of_int (Z.pos p))).
    + change ("E" +:+ String "-" (str_of_int (Z.pos p))) with (String "E" (String "-" (str_of_int (Z.pos p)))).
      cbn [scan_exponent]. rewrite bool_decide_true by auto. cbn [scan_sign]. rewrite scan_digits_end by done.
      rewrite digits_val_int by lia. destruct (Z.ltb_spec 0 (slen (str_of_int (Z.pos p)))); [|lia]. cbn. f_equal.
Qed.

(** The constructor's bounds on the exponent *)
Definition dec_in_range (d : decimal) : bool :=
  negb ((MAX_EMAX <? digits (Z.abs (dec_coef d)) + dec_exp d - 1) || (dec_exp d <? MIN_ETINY)).

(** [Decimal(str(d)) == d], digit for digit. *)
Lemma decimal_of_dec_str d : dec_in_range d = true → decimal_of_str (dec_str d) = Some d.
Proof.
  intros Hr. unfold dec_in_range in Hr. apply negb_true_iff in Hr. destruct d as [c E]. cbn [dec_coef dec_exp] in *.
  unfold dec_str. cbn [dec_coef dec_exp].
  destruct (str_of_nat_digits (Z.abs c) ltac:(lia)) as [Hd Hl]. pose proof (digits_val_int (Z.abs c) ltac:(lia)) as Hv.
  set (int := str_of_int (Z.abs c)) in *. set (dp := if (E <=? 0) && (-6 <? E + slen int) then E + slen int else 1).
  change ("E" +:+ (if 0 <=? E + slen int - dp then "+" else "") +:+ str_of_int (E + slen int - dp)) with (exp_text (E + slen int - dp)).
  assert (∃ x e, (if E + slen int =? dp then "" else exp_text (E + slen int - dp)) = x ∧ e = E + slen int - dp ∧
                 exp_tail x = true ∧ plain x = true ∧ scan_exponent x = Some e) as (x & e & -> & He & Hx & Hpx & Hs).
  { destruct (Z.eqb_spec (E + slen int) dp) as [H|H]; [exists "", 0; split_and!; (done || lia)|].
    destruct (exp_text_scan (E + slen int - dp)) as (? & ? & ?). by exists (exp_text (E + slen int - dp)), (E + slen int - dp). }
  assert (∀ w f dot, all_digits w = true → 1 <= slen w → all_digits f = true → (dot = false → f = "") →
            digits_val w * 10 ^ slen f + digits_val f = Z.abs c → e - slen f = E →
            decimal_of_str ((if c <? 0 then "-" else "") +:+ (w +:+ (if dot then String "." f else "") +:+ x)) =
            Some {| dec_coef := c; dec_exp := E |}) as Hparse.
  { intros w f dot H1 H2 H3 H4 H5 H6. rewrite (parse_body _ _ w f x e) by done. cbv zeta. rewrite H5, H6, Hr.
    do 2 f_equal. destruct (Z.ltb_spec c 0); lia. }
  assert (dp = E + slen int ∧ E <= 0 ∨ dp = 1) as Hdp.
  { unfold dp. destruct (Z.leb_spec E 0), (Z.ltb_spec (-6) (E + slen int)); cbn; auto. }
  destruct (Z.leb_spec dp 0) as [Hneg|Hpos]; [|destruct (Z.leb_spec (slen int) dp) as [Hlong|Hshort]].
  - assert (("0." +:+ zeros (Z.to_nat (- dp)) +:+ int) +:+ x = "0" +:+ (String "." (zeros (Z.to_nat (- dp)) +:+ int)) +:+ x) as -> by done.
    apply (Hparse "0" _ true); try done.
    + by rewrite all_digits_app, all_digits_zeros.
    + rewrite digits_val_app, digits_val_zeros by (done || apply all_digits_zeros). change (digits_val "0") with 0. lia.
    + rewrite zlen_of_app, slen_zeros. lia.
  - assert (Z.to_nat (dp - slen int) = 0%nat) as -> by lia.
    assert ((int +:+ zeros 0) +:+ x = int +:+ "" +:+ x) as -> by (by rewrite str_app_nil_r).
    apply (Hparse int "" false); try done; [change (slen "") with 0; change (digits_val "") with 0; lia | change (slen "") with 0; lia].
  - rewrite (stake_sdrop (Z.to_nat dp) int) in Hd, Hv. rewrite all_digits_app in Hd. apply andb_prop in Hd as [H1 H2].
    rewrite digits_val_app in Hv by done.
    assert (slen (sdrop (Z.to_nat dp) int) = slen int - dp) as Hf.
    { pose proof (slen_stake dp int ltac:(lia)) as Hst. pose proof (f_equal slen (stake_sdrop (Z.to_nat dp) int)) as Hap.
      rewrite zlen_of_app in Hap. lia. }
    rewrite !str_app_assoc. change ("." +:+ sdrop (Z.to_nat dp) int +:+ x) with (String "." (sdrop (Z.to_nat dp) int) +:+ x).
    apply (Hparse _ _ true); try done; [rewrite slen_stake; lia | rewrite Hf; lia].
Qed.

(** * Python's floats

    Arithmetic on doubles.  A finite double is an integer multiple of [2 ^ -1074]; an
    operation rounds the exact result to the nearest double, ties to even.  The sign of a
    zero is not kept. *)

#[local] Open Scope string_scope.
#[local] Open Scope list_scope.
#[local] Open Scope Z_scope.

#[export] Instance pyfloat_eq_dec : EqDecision pyfloat.
Proof. solve_decision. Defined.

(** The value of a finite double, in units of [2 ^ -1074] *)
Definition fval (x : pyfloat) : option Z :=
  match x with FFin neg m e => Some ((if neg then -1 else 1) * (m * 2 ^ (e + 1074))) | _ => None end.

Definition is_finite (x : pyfloat) : bool := match x with FFin _ _ _ => true | _ => false end.

(** The double nearest to [z * 2 ^ -(1074 + sh)] *)
Definition float_round_at (sh z : Z) : pyfloat :=
  let a := Z.abs z in
  let neg := z <? 0 in
  if a <? 2 ^ (53 + sh) then FFin neg (round_half_even a (2 ^ sh)) (-1074)
  else
    let s := Z.log2 a - 52 in
    let m := round_half_even a (2 ^ s) in
    if 2 ^ (2098 + sh) <=? m * 2 ^ s then FInf neg else FFin neg m (s - 1074 - sh).

Definition float_round : Z → pyfloat := float_round_at 0.

Definition fzero : pyfloat := FFin false 0 (-1074).

Definition float_of_int (n : Z) : pyfloat := float_round (n * 2 ^ 1074).

Definition fneg (x : pyfloat) : pyfloat :=
  match x with FFin neg m e => FFin (negb neg) m e | FInf neg => FInf (negb neg) | FNan => FNan end.

Definition fadd (x y : pyfloat) : pyfloat :=
  match x, y with
  | FFin _ _ _, FFin _ _ _ => float_round (default 0 (fval x) + default 0 (fval y))
  | FNan, _ | _, FNan => FNan
  | FInf a, FInf b => if Bool.eqb a b then x else FNan
  | FInf _, _ => x
  | _, FInf _ => y
  end.

Definition fmul (x y : pyfloat) : pyfloat :=
  match x, y with
  | FFin _ _ _, FFin _ _ _ => float_round_at 1074 (default 0 (fval x) * default 0 (fval y))
  | FNan, _ | _, FNan => FNan
  | FInf a, FInf b => FInf (xorb a b)
  | FInf a, FFin b m _ | FFin b m _, FInf a => if m =? 0 then FNan else FInf (xorb a b)
  end.

Definition fsub (x y : pyfloat) : pyfloat := fadd x (fneg y).

(** [x < y] and [x <= y]: false when one is not a number. *)
Definition flt (x y : pyfloat) : bool :=
  match x, y with
  | FFin _ _ _, FFin _ _ _ => default 0 (fval x) <? default 0 (fval y)
  | FInf a, FInf b => a && negb b
  | FInf a, FFin _ _ _ => a
  | FFin _ _ _, FInf b => negb b
  | _, _ => false
  end.

Definition fle (x y : pyfloat) : bool :=
  match x, y with
  | FFin _ _ _, FFin _ _ _ => default 0 (fval x) <=? default 0 (fval y)
  | FInf a, FInf b => a || negb b
  | FInf a, FFin _ _ _ => a
  | FFin _ _ _, FInf b => negb b
  | _, _ => false
  end.

Definition fmax (x y : pyfloat) : pyfloat := if flt x y then y else x.

(** [round(x, p)], [0 <= p] *)
Definition fround (p : Z) (x : pyfloat) : pyfloat :=
  match x with
  | FFin neg m e =>
      let c := if 0 <=? e then m * 2 ^ e * 10 ^ p else round_half_even (m * 10 ^ p) (2 ^ (- e)) in
      double_of neg c (- p)
  | _ => x
  end.

(** [a / b] of positive integers *)
Definition int_div (a b : Z) : pyfloat := float_round (round_half_even (a * 2 ^ 1074) b).

(** The double of a decimal text, as in a source literal *)
Definition lit (s : string) : pyfloat := float_of_repr s.

(** [sum(l)], from left to right as Python 3.10 and 3.11 do; 3.12 compensates the rounding. *)
Definition fsum (l : list pyfloat) : pyfloat := fold_left fadd l fzero.

(** Equality of values *)
Definition feq (x y : pyfloat) : bool := fle x y && fle y x.

Example float_arith :
  feq (fadd (lit "0.1") (lit "0.2")) (lit "0.30000000000000004") = true ∧
  feq (fadd (lit "0.1") (lit "0.2")) (lit "0.3") = false ∧
  feq (fsub (lit "0.3") (lit "0.1")) (lit "0.19999999999999998") = true ∧
  feq (fround 6 (lit "0.1234567")) (lit "0.123457") = true ∧
  feq (fround 6 (lit "0.1234565")) (lit "0.123456") = true ∧
  feq (fsub (lit "1e308") (lit "-1e308")) (FInf false) = true ∧
  feq (fmul (lit "0.1") (lit "3.0")) (lit "0.30000000000000004") = true ∧
  feq (fadd (lit "5e-324") (lit "5e-324")) (lit "1e-323") = true.
Proof. vm_compute. split_and!; reflexivity. Qed.

(** ** Signs *)

(** Not negative, and a number *)
Definition fnonneg (x : pyfloat) : bool := fle fzero x.

Lemma FFin_nonneg m e : 0 <= m → fnonneg (FFin false m e) = true.
Proof.
  intros Hm. unfold fnonneg, fle, fval, fzero, default. rewrite !Z.mul_1_l. apply Z.leb_le.
  apply Z.mul_nonneg_nonneg; [lia | by apply Z.pow_nonneg].
Qed.

Lemma float_round_sign z : 0 <= z → fnonneg (float_round z) = true.
Proof.
  intros Hz. unfold float_round, float_round_at. replace (z <? 0) with false by lia. rewrite Z.abs_eq by done.
  destruct (Z.ltb_spec z (2 ^ (53 + 0))); [apply FFin_nonneg, round_half_even_nonneg; lia|].
  cbv zeta. case_match; [done|]. apply FFin_nonneg, round_half_even_nonneg; [lia|]. apply Z.pow_pos_nonneg; [lia|].
  assert (Z.log2 (2 ^ 53) <= Z.log2 z) as Hl by (apply Z.log2_le_mono; lia). rewrite Z.log2_pow2 in Hl by lia. lia.
Qed.

Lemma fnonneg_val n m e : fnonneg (FFin n m e) = true ↔ 0 <= default 0 (fval (FFin n m e)).
Proof. unfold fnonneg, fle. change (default 0 (fval fzero)) with 0. apply Z.leb_le. Qed.

Lemma fneg_val n m e : default 0 (fval (fneg (FFin n m e))) = - default 0 (fval (FFin n m e)).
Proof. destruct n; cbn [fneg negb fval from_option]; unfold id; ring. Qed.

Lemma fadd_nonneg x y : fnonneg x = true → fnonneg y = true → fnonneg (fadd x y) = true.
Proof.
  destruct x as [nx mx ex|[]|], y as [ny my ey|[]|]; try done. rewrite !fnonneg_val. intros Hx Hy.
  unfold fadd. apply float_round_sign. lia.
Qed.

(** What is not more than a balance can be taken from it. *)
Lemma fsub_nonneg x y : is_finite y = true → fle y x = true → fnonneg (fsub x y) = true.
Proof.
  destruct y as [ny my ey|[]|]; try done. intros _ Hle. destruct x as [nx mx ex|[]|]; try done.
  unfold fle in Hle. apply Z.leb_le in Hle. pose proof (fneg_val ny my ey) as Hn.
  change (fsub (FFin nx mx ex) (FFin ny my ey)) with
    (float_round (default 0 (fval (FFin nx mx ex)) + default 0 (fval (fneg (FFin ny my ey))))).
  apply float_round_sign. rewrite Hn. lia.
Qed.

(** ** [repr] *)

(** The decimal exponent of [n / d]: [10 ^ k <= n / d < 10 ^ (k + 1)] *)
Definition dec_exponent (n d : Z) : Z :=
  let k := digits n - digits d in
  if (if 0 <=? k then n <? d * 10 ^ k else n * 10 ^ (- k) <? d) then k - 1 else k.

Fixpoint trailing_zeros (fuel : nat) (c e : Z) : Z * Z :=
  match fuel with
  | O => (c, e)
  | S fuel' => if (c mod 10 =? 0) && negb (c =? 0) then trailing_zeros fuel' (c / 10) (e + 1) else (c, e)
  end.

(** The shortest decimal, of at most 17 digits, that reads back as [n / d]. *)
Fixpoint shortest (fuel : nat) (x : pyfloat) (n d k len : Z) : Z * Z :=
  let s := len - 1 - k in
  let c := if 0 <=? s then round_half_even (n * 10 ^ s) d else round_half_even n (d * 10 ^ (- s)) in
  match fuel with
  | S fuel' => if feq (double_of false c (- s)) x then (c, - s) else shortest fuel' x n d k (len + 1)
  | O => (c, - s)
  end.

Definition float_repr (x : pyfloat) : string :=
  match x with
  | FNan => "nan"
  | FInf neg => if neg then "-inf" else "inf"
  | FFin neg m e =>
      (if neg then "-" else "") +:+
      (if m =? 0 then "0.0"
       else
         let n := m * 2 ^ Z.max e 0 in
         let d := 2 ^ Z.max (- e) 0 in
         let '(c, e10) := shortest 16 (FFin false m e) n d (dec_exponent n d) 1 in
         let '(c, e10) := trailing_zeros 20 c e10 in
         let ds := str_of_int c in
         let decpt := slen ds + e10 in
         if (decpt <=? 16) && (-4 <? decpt) then
           if decpt <=? 0 then "0." +:+ zeros (Z.to_nat (- decpt)) +:+ ds
           else if slen ds <=? decpt then ds +:+ zeros (Z.to_nat (decpt - slen ds)) +:+ ".0"
           else stake (Z.to_nat decpt) ds +:+ "." +:+ sdrop (Z.to_nat decpt) ds
         else
           stake 1 ds +:+ (if slen ds =? 1 then "" else "." +:+ sdrop 1 ds) +:+ "e" +:+
           (if decpt - 1 <? 0 then "-" else "+") +:+ zpad 2 (Z.abs (decpt - 1)))
  end.

Example float_repr_ex :
  map (λ s, float_repr (lit s)) ["0.1"; "100.0"; "1e22"; "1.5e-07"; "123456789.123"; "0.0001"; "1e16"; "-2.5"; "5e-324"; "0.30000000000000004"] =
  ["0.1"; "100.0"; "1e+22"; "1.5e-07"; "123456789.123"; "0.0001"; "1e+16"; "-2.5"; "5e-324"; "0.30000000000000004"].
Proof. vm_compute. reflexivity. Qed.
