(* ===== verification/PyBase64.v ===== *)
(** * More of Python's standard library: [base64.b64encode] and byte prefixes *)
From Stdlib Require Import ZArith Lia.
From S2P Require Import PyStd.
From S2P Require Import Prelude.

#[local] Open Scope Z_scope.

Definition b64_char (v : Z) : ascii :=
  ascii_of_N (Z.to_N (if v <? 26 then 65 + v else if v <? 52 then 71 + v
                      else if v <? 62 then v - 4 else if v =? 62 then 43 else 47)).

(** [base64.b64encode(b).decode()] *)
Fixpoint b64encode (bs : bytes) : string :=
  match bs with
  | [] => EmptyString
  | [a] =>
      let a := b2z a in
      String (b64_char (a / 4)) (String (b64_char (a mod 4 * 16)) "==")
  | [a; b] =>
      let a := b2z a in let b := b2z b in
      String (b64_char (a / 4)) (String (b64_char (a mod 4 * 16 + b / 16))
        (String (b64_char (b mod 16 * 4)) "="))
  | a :: b :: c :: rest =>
      let a := b2z a in let b := b2z b in let c := b2z c in
      String (b64_char (a / 4)) (String (b64_char (a mod 4 * 16 + b / 16))
        (String (b64_char (b mod 16 * 4 + c / 64)) (String (b64_char (c mod 64)) (b64encode rest))))
  end.

Lemma b64_char_val v : 0 <= v < 64 → b64_val (b64_char v) = Some v ∧ b64_char v ≠ "="%char.
Proof.
  intros Hv.
  assert (forallb (λ n, bool_decide (b64_val (b64_char (Z.of_nat n)) = Some (Z.of_nat n)) &&
                        bool_decide (b64_char (Z.of_nat n) ≠ "="%char)) (seq 0 64) = true) as Hall by (vm_compute; reflexivity).
  rewrite forallb_forall in Hall. specialize (Hall (Z.to_nat v)).
  rewrite Z2Nat.id in Hall by lia. apply andb_true_iff in Hall as [H1 H2].
  - by apply bool_decide_eq_true in H1, H2.
  - apply in_seq. lia.
Qed.

(** One character of the alphabet. *)
Lemma b64_scan_char v s quad left pads :
  0 <= v < 64 →
  b64_scan (String (b64_char v) s) quad left pads =
    if quad =? 0 then b64_scan s 1 v 0
    else if quad =? 1 then cons (z2b (left * 4 + v / 16)) <$> b64_scan s 2 (v mod 16) 0
    else if quad =? 2 then cons (z2b (left * 16 + v / 4)) <$> b64_scan s 3 (v mod 4) 0
    else cons (z2b (left * 64 + v)) <$> b64_scan s 0 0 0.
Proof.
  intros Hv. destruct (b64_char_val v Hv) as [Hval Hne]. cbn [b64_scan].
  by rewrite decide_False, Hval by done.
Qed.

Lemma z2b_of (a : byte) z : z = b2z a → z2b z = a.
Proof. intros ->. apply z2b_b2z. Qed.

Ltac byte_bounds :=
  repeat match goal with
  | b : byte |- _ => lazymatch goal with H : 0 <= b2z b < 256 |- _ => fail | _ => pose proof (b2z_range b) end
  end;
  Z.to_euclidean_division_equations; lia.

Ltac b64_step := rewrite b64_scan_char by byte_bounds; cbn [Z.eqb Pos.eqb].

Lemma b64_pad left : b64_scan "==" 2 left 0 = Some [] ∧ b64_scan "=" 3 left 0 = Some [].
Proof. done. Qed.

#[local] Arguments b64_scan : simpl never.

(** [base64.b64decode(base64.b64encode(b)) == b] *)
Lemma b64_roundtrip bs : b64decode (b64encode bs) = Some bs.
Proof.
  unfold b64decode. remember (length bs) as n eqn:Hn. revert bs Hn.
  induction n as [n IH] using lt_wf_ind. intros [|a [|b [|c rest]]] ->; cbn [b64encode].
  - done.
  - do 2 b64_step. rewrite (proj1 (b64_pad _)). simpl. do 2 f_equal. apply z2b_of. byte_bounds.
  - do 3 b64_step. rewrite (proj2 (b64_pad _)). simpl. do 2 f_equal; [|f_equal]; apply z2b_of; byte_bounds.
  - do 4 b64_step. rewrite (IH (length rest)); [|simpl; lia|done]. simpl.
    do 2 f_equal; [|f_equal; [|f_equal]]; apply z2b_of; byte_bounds.
Qed.
