(* ===== verification/PyJson.v ===== *)
(** * The [json] module

    [json.dumps] with its default separators or compact ones and [ensure_ascii], and [json.loads],
    as executable functions on text, with their round trip.

    A [float] is the text of its [repr] (the shortest text that denotes it), and a
    float token is kept as it is read; a [str] is its UTF-8 bytes.

    After these: the proof of the round trip, objects printed with sorted keys, and what
    the modelled code does with parsed values. *)
From Stdlib Require Import ZArith Lia DecimalString DecimalPos DecimalFacts DecimalN.
From S2P Require Import PyStd.
From S2P Require Import PyNumbers.
From S2P Require Import Prelude.

#[local] Open Scope string_scope.
#[local] Open Scope list_scope.
#[local] Open Scope Z_scope.

#[warnings="-register-all"]
Inductive jtext : Type :=
| TNull
| TBool (b : bool)
| TInt (z : Z)
| TFloat (repr : string)
| TStr (s : string)
| TArr (l : list jtext)
| TObj (o : list (string * jtext)).

(** ** Printing *)

Definition code (c : ascii) : Z := Z.of_N (N_of_ascii c).
Definition chr (z : Z) : ascii := ascii_of_N (Z.to_N z).

(** [\uXXXX] *)
Definition u_escape (n : Z) : string :=
  "\u" +:+ hex [z2b (n / 256); z2b n].

(** A code point, as one escape or a surrogate pair. *)
Definition cp_escape (n : Z) : string :=
  if n <? 65536 then u_escape n
  else let v := n - 65536 in u_escape (55296 + v / 1024) +:+ u_escape (56320 + v mod 1024).

Definition escape_char (c : ascii) : string :=
  let n := code c in
  if n =? 34 then "\" +:+ String (chr 34) ""
  else if n =? 92 then "\\"
  else if n =? 10 then "\n"
  else if n =? 13 then "\r"
  else if n =? 9 then "\t"
  else if n =? 12 then "\f"
  else if n =? 8 then "\b"
  else if (32 <=? n) && (n <=? 126) then String c ""
  else u_escape n.

(** Low six bits of a continuation byte. *)
Definition cont (c : ascii) : Z := code c mod 64.

Fixpoint escape (s : string) : string :=
  match s with
  | "" => ""
  | String c s1 =>
      let n := code c in
      if n <? 128 then escape_char c +:+ escape s1
      else
        match s1 with
        | String c2 s2 =>
            if n <? 224 then cp_escape (n mod 32 * 64 + cont c2) +:+ escape s2
            else
              match s2 with
              | String c3 s3 =>
                  if n <? 240 then cp_escape ((n mod 16 * 64 + cont c2) * 64 + cont c3) +:+ escape s3
                  else
                    match s3 with
                    | String c4 s4 =>
                        cp_escape (((n mod 8 * 64 + cont c2) * 64 + cont c3) * 64 + cont c4) +:+ escape s4
                    | "" => ""
                    end
              | "" => ""
              end
        | "" => ""
        end
  end.

Definition quote (s : string) : string := String (chr 34) (escape s +:+ String (chr 34) "").

(** The three floats whose JSON text is not their [repr]. *)
Definition float_text (r : string) : string :=
  if decide (r = "nan") then "NaN"
  else if decide (r = "inf") then "Infinity"
  else if decide (r = "-inf") then "-Infinity"
  else r.

(** [sp] is the space after a separator. *)
Fixpoint dumps_sep (sp : string) (v : jtext) : string :=
  match v with
  | TNull => "null"
  | TBool b => if b then "true" else "false"
  | TInt z => str_of_int z
  | TFloat r => float_text r
  | TStr s => quote s
  | TArr l => "[" +:+ String.concat ("," +:+ sp) (map (dumps_sep sp) l) +:+ "]"
  | TObj o => "{" +:+ String.concat ("," +:+ sp) (map (λ kv, quote kv.1 +:+ ":" +:+ sp +:+ dumps_sep sp kv.2) o) +:+ "}"
  end.

(** [json.dumps] with the default separators, and without spaces. *)
Definition dumps : jtext → string := dumps_sep " ".
Definition dumps_compact : jtext → string := dumps_sep "".

(** ** Reading *)

Definition is_json_space (c : ascii) : bool :=
  let n := code c in (n =? 32) || (n =? 9) || (n =? 10) || (n =? 13).

Fixpoint skip_space (s : string) : string :=
  match s with
  | String c s' => if is_json_space c then skip_space s' else s
  | "" => ""
  end.

(** The UTF-8 bytes of a code point. *)
Definition utf8_of_cp (n : Z) : string :=
  if n <? 128 then String (chr n) ""
  else if n <? 2048 then String (chr (192 + n / 64)) (String (chr (128 + n mod 64)) "")
  else if n <? 65536 then
    String (chr (224 + n / 4096)) (String (chr (128 + n / 64 mod 64)) (String (chr (128 + n mod 64)) ""))
  else String (chr (240 + n / 262144)) (String (chr (128 + n / 4096 mod 64))
         (String (chr (128 + n / 64 mod 64)) (String (chr (128 + n mod 64)) ""))).

(** Four hex digits. *)
Definition hex4 (h1 h2 h3 h4 : ascii) : option Z :=
  a ← hex_val h1; b ← hex_val h2; c ← hex_val h3; d ← hex_val h4;
  Some (((a * 16 + b) * 16 + c) * 16 + d).

Definition cons_text (t : string) (r : option (string * string)) : option (string * string) :=
  '(s, rest) ← r; Some (t +:+ s, rest).

(** The characters up to the closing quote; control characters are refused. *)
Fixpoint scan_str (s : string) : option (string * string) :=
  match s with
  | "" => None
  | String c s1 =>
      let n := code c in
      if n =? 34 then Some ("", s1)
      else if n =? 92 then
        match s1 with
        | "" => None
        | String e s2 =>
            let m := code e in
            if (m =? 34) || (m =? 92) || (m =? 47) then cons_text (String e "") (scan_str s2)
            else if m =? 98 then cons_text (String (chr 8) "") (scan_str s2)
            else if m =? 102 then cons_text (String (chr 12) "") (scan_str s2)
            else if m =? 110 then cons_text (String (chr 10) "") (scan_str s2)
            else if m =? 114 then cons_text (String (chr 13) "") (scan_str s2)
            else if m =? 116 then cons_text (String (chr 9) "") (scan_str s2)
            else if m =? 117 then
              match s2 with
              | String h1 (String h2 (String h3 (String h4 s3))) =>
                  u ← hex4 h1 h2 h3 h4;
                  if (55296 <=? u) && (u <=? 56319) then
                    match s3 with
                    | String b (String u' (String l1 (String l2 (String l3 (String l4 s4))))) =>
                        match (if (code b =? 92) && (code u' =? 117) then hex4 l1 l2 l3 l4 else None) with
                        | Some v =>
                            if (56320 <=? v) && (v <=? 57343)
                            then cons_text (utf8_of_cp (65536 + ((u - 55296) * 1024 + (v - 56320)))) (scan_str s4)
                            else cons_text (utf8_of_cp u) (scan_str s3)
                        | None => cons_text (utf8_of_cp u) (scan_str s3)
                        end
                    | _ => cons_text (utf8_of_cp u) (scan_str s3)
                    end
                  else cons_text (utf8_of_cp u) (scan_str s3)
              | _ => None
              end
            else None
        end
      else if n <? 32 then None
      else cons_text (String c "") (scan_str s1)
  end.

Definition is_digit (c : ascii) : bool := (48 <=? code c) && (code c <=? 57).

(** The leading digits and the rest. *)
Fixpoint scan_digits (s : string) : string * string :=
  match s with
  | String c s' => if is_digit c then let '(d, r) := scan_digits s' in (String c d, r) else ("", s)
  | "" => ("", "")
  end.

(** An optional minus and an integer without leading zeros. *)
Definition scan_integer (s : string) : option (string * string) :=
  let '(sign, s1) := match s with String c s' => if code c =? 45 then ("-", s') else ("", s) | "" => ("", "") end in
  match s1 with
  | String c s2 =>
      if code c =? 48 then Some (sign +:+ String c "", s2)
      else if is_digit c then let '(d, r) := scan_digits s2 in Some (sign +:+ String c d, r)
      else None
  | "" => None
  end.

(** An optional fraction, with a digit at least. *)
Definition scan_frac (s : string) : string * string :=
  match s with
  | String c s' =>
      if code c =? 46 then match scan_digits s' with ("", _) => ("", s) | (d, r) => (String c d, r) end
      else ("", s)
  | "" => ("", "")
  end.

(** An optional exponent. *)
Definition scan_exp (s : string) : string * string :=
  match s with
  | String c s' =>
      if (code c =? 101) || (code c =? 69) then
        let '(sign, s'') :=
          match s' with
          | String d t => if (code d =? 43) || (code d =? 45) then (String d "", t) else ("", s')
          | "" => ("", "")
          end in
        match scan_digits s'' with ("", _) => ("", s) | (d, r) => (String c (sign +:+ d), r) end
      else ("", s)
  | "" => ("", "")
  end.

(** A number: an [int] unless it has a fraction or an exponent. *)
Definition scan_number (s : string) : option (jtext * string) :=
  '(i, s1) ← scan_integer s;
  let '(f, s2) := scan_frac s1 in
  let '(x, s3) := scan_exp s2 in
  match (f, x) with
  | ("", "") => z ← int_of_str i; Some (TInt z, s3)
  | _ => Some (TFloat (i +:+ f +:+ x), s3)
  end.

(** [s] after the prefix [p]. *)
Fixpoint after (p s : string) : option string :=
  match p, s with
  | "", _ => Some s
  | String c p', String d s' => if decide (c = d) then after p' s' else None
  | String _ _, "" => None
  end.

Definition scan_literal (s : string) : option (jtext * string) :=
  match after "null" s, after "true" s, after "false" s, after "NaN" s, after "Infinity" s, after "-Infinity" s with
  | Some r, _, _, _, _, _ => Some (TNull, r)
  | _, Some r, _, _, _, _ => Some (TBool true, r)
  | _, _, Some r, _, _, _ => Some (TBool false, r)
  | _, _, _, Some r, _, _ => Some (TFloat "nan", r)
  | _, _, _, _, Some r, _ => Some (TFloat "inf", r)
  | _, _, _, _, _, Some r => Some (TFloat "-inf", r)
  | _, _, _, _, _, _ => scan_number s
  end.

(** Every call reads a character, so the length of the text is enough fuel. *)
Fixpoint scan_value (fuel : nat) (s : string) : option (jtext * string) :=
  match fuel with
  | O => None
  | S f =>
      match s with
      | "" => None
      | String c s' =>
          if code c =? 34 then '(t, r) ← scan_str s'; Some (TStr t, r)
          else if code c =? 123 then
            match skip_space s' with
            | String d r => if code d =? 125 then Some (TObj [], r) else
                '(o, r) ← scan_members f (String d r); Some (TObj (dict_of_list o), r)
            | "" => None
            end
          else if code c =? 91 then
            match skip_space s' with
            | String d r => if code d =? 93 then Some (TArr [], r) else
                '(l, r) ← scan_elements f (String d r); Some (TArr l, r)
            | "" => None
            end
          else scan_literal s
      end
  end
with scan_elements (fuel : nat) (s : string) : option (list jtext * string) :=
  match fuel with
  | O => None
  | S f =>
      '(v, r) ← scan_value f s;
      match skip_space r with
      | String c r' =>
          if code c =? 93 then Some ([v], r')
          else if code c =? 44 then '(l, r'') ← scan_elements f (skip_space r'); Some (v :: l, r'')
          else None
      | "" => None
      end
  end
with scan_members (fuel : nat) (s : string) : option (list (string * jtext) * string) :=
  match fuel with
  | O => None
  | S f =>
      match s with
      | String q s' =>
          if code q =? 34 then
            '(k, r) ← scan_str s';
            match skip_space r with
            | String c r1 =>
                if code c =? 58 then
                  '(v, r2) ← scan_value f (skip_space r1);
                  match skip_space r2 with
                  | String c r3 =>
                      if code c =? 125 then Some ([(k, v)], r3)
                      else if code c =? 44 then '(o, r4) ← scan_members f (skip_space r3); Some ((k, v) :: o, r4)
                      else None
                  | "" => None
                  end
                else None
            | "" => None
            end
          else None
      | "" => None
      end
  end.

(** [json.loads] *)
Definition loads (s : string) : result jtext :=
  match scan_value (S (2 * String.length s)) (skip_space s) with
  | Some (v, r) => match skip_space r with "" => Ok v | _ => Err JSONDecodeError end
  | None => Err JSONDecodeError
  end.

(** Text with apostrophes for quotes. *)
Definition dq (s : string) : string := smap (λ c, if decide (c = "'"%char) then chr 34 else c) s.

Example loads_ex : loads (dq "{ 'a' : [1, -2.5e3, null], 'b': 'x\u00e9'}") =
  Ok (TObj [("a", TArr [TInt 1; TFloat "-2.5e3"; TNull]); ("b", TStr ("x" +:+ utf8_of_cp 233))]).
Proof. vm_compute. reflexivity. Qed.

Example dumps_ex : dumps (TObj [("a", TArr [TInt (-1); TBool true]); ("b", TStr ("x" +:+ utf8_of_cp 128512))]) =
  dq "{'a': [-1, true], 'b': 'x\ud83d\ude00'}".
Proof. vm_compute. reflexivity. Qed.

(** * Reading back what [json.dumps] wrote

    [loads (dumps v) = v] for every JSON value with ASCII text, distinct keys and
    float tokens. *)

#[local] Open Scope string_scope.
#[local] Open Scope list_scope.
#[local] Open Scope Z_scope.

Abbreviation slen := String.length.

Lemma app_cons c s t : String c s +:+ t = String c (s +:+ t).
Proof. done. Qed.

Lemma app_nil_l_string s : "" +:+ s = s.
Proof. done. Qed.

(** ** Strings *)

Definition ascii_char (c : ascii) : bool := code c <? 128.

Fixpoint ascii_str (s : string) : bool :=
  match s with "" => true | String c s' => ascii_char c && ascii_str s' end.

(** One printed character is read back. *)
Lemma scan_escape_char c t :
  ascii_char c = true → scan_str (escape_char c +:+ t) = cons_text (String c "") (scan_str t).
Proof.
  destruct c as [[] [] [] [] [] [] [] []]; intros Hc; first [discriminate Hc | reflexivity].
Qed.

Lemma scan_escape s t :
  ascii_str s = true → scan_str (escape s +:+ String (chr 34) t) = Some (s, t).
Proof.
  induction s as [|c s IH]; intros Hs; [done|]. cbn [ascii_str] in Hs. apply andb_true_iff in Hs as [Hc Hs].
  cbn [escape]. unfold ascii_char in Hc. cbn zeta. rewrite Hc, str_app_assoc, scan_escape_char by done.
  by rewrite IH.
Qed.

Lemma quote_app s t : quote s +:+ t = String (chr 34) (escape s +:+ String (chr 34) t).
Proof. unfold quote. by rewrite app_cons, str_app_assoc. Qed.

(** ** Numbers *)

(** What may follow a value inside a container or at the end. *)
Definition delim (s : string) : bool :=
  match s with "" => true | String c _ => (code c =? 44) || (code c =? 93) || (code c =? 125) end.

Lemma delim_not_digit c s : delim (String c s) = true →
  is_digit c = false ∧ code c ≠ 46 ∧ code c ≠ 101 ∧ code c ≠ 69 ∧ code c ≠ 43 ∧ code c ≠ 45.
Proof. unfold delim, is_digit. intros Hd. lia. Qed.

Lemma scan_digits_app s t : delim t = true →
  scan_digits (s +:+ t) = ((scan_digits s).1, (scan_digits s).2 +:+ t).
Proof.
  intros Ht. induction s as [|c s IH].
  - rewrite app_nil_l_string. destruct t as [|c t]; [done|]. apply delim_not_digit in Ht as [Hd _].
    cbn [scan_digits]. by rewrite Hd.
  - rewrite app_cons. cbn [scan_digits]. destruct (is_digit c); [|done]. rewrite IH. by destruct (scan_digits s).
Qed.

Lemma scan_integer_app s t i r : delim t = true →
  scan_integer s = Some (i, r) → scan_integer (s +:+ t) = Some (i, r +:+ t).
Proof.
  intros Ht. unfold scan_integer. destruct s as [|c s]; [done|]. rewrite app_cons.
  destruct (code c =? 45).
  - destruct s as [|c2 s]; [done|]. rewrite (app_cons c2 s t). destruct (code c2 =? 48); [by intros [= <- <-]|].
    destruct (is_digit c2); [|done]. rewrite scan_digits_app by done. destruct (scan_digits s). by intros [= <- <-].
  - destruct (code c =? 48); [by intros [= <- <-]|].
    destruct (is_digit c); [|done]. rewrite scan_digits_app by done. destruct (scan_digits s). by intros [= <- <-].
Qed.

Lemma scan_frac_app s t : delim t = true → scan_frac (s +:+ t) = ((scan_frac s).1, (scan_frac s).2 +:+ t).
Proof.
  intros Ht. destruct s as [|c s].
  - rewrite app_nil_l_string. destruct t as [|c t]; [done|]. apply delim_not_digit in Ht as (_ & Hc & _).
    cbn [scan_frac]. by destruct (Z.eqb_spec (code c) 46).
  - rewrite app_cons. cbn [scan_frac]. destruct (code c =? 46); [|done]. rewrite scan_digits_app by done.
    destruct (scan_digits s) as [[|d ds] r]; done.
Qed.

Lemma scan_exp_app s t : delim t = true → scan_exp (s +:+ t) = ((scan_exp s).1, (scan_exp s).2 +:+ t).
Proof.
  intros Ht. destruct s as [|c s].
  - rewrite app_nil_l_string. destruct t as [|c t]; [done|]. apply delim_not_digit in Ht as (_ & _ & H1 & H2 & _).
    cbn [scan_exp]. destruct (Z.eqb_spec (code c) 101), (Z.eqb_spec (code c) 69); done.
  - rewrite app_cons. cbn [scan_exp]. destruct (_ || _); [|done]. destruct s as [|d s].
    + rewrite app_nil_l_string. destruct t as [|d t]; [done|].
      pose proof (scan_digits_app "" (String d t) Ht) as Hd. rewrite app_nil_l_string in Hd.
      apply delim_not_digit in Ht as (_ & _ & _ & _ & H1 & H2).
      destruct (Z.eqb_spec (code d) 43), (Z.eqb_spec (code d) 45); try done. simpl orb. cbv iota beta. rewrite Hd. done.
    + rewrite app_cons. destruct (_ || _).
      * rewrite scan_digits_app by done. destruct (scan_digits s) as [[|e es] r]; done.
      * rewrite <-app_cons, scan_digits_app by done. destruct (scan_digits (String d s)) as [[|e es] r]; done.
Qed.

Lemma scan_number_app s t v r : delim t = true →
  scan_number s = Some (v, r) → scan_number (s +:+ t) = Some (v, r +:+ t).
Proof.
  intros Ht. unfold scan_number. destruct (scan_integer s) as [[i s1]|] eqn:Hi; [|done].
  rewrite (scan_integer_app s t i s1) by done. cbn [mbind option_bind].
  rewrite scan_frac_app by done. destruct (scan_frac s1) as [f s2]. cbn [fst snd].
  rewrite scan_exp_app by done. destruct (scan_exp s2) as [x s3]. cbn [fst snd].
  destruct f as [|c f], x as [|d x]; try by intros [= <- <-].
  destruct (int_of_str i); [|done]. by intros [= <- <-].
Qed.

Lemma digit_code d : scan_digits (NilEmpty.string_of_uint d) = (NilEmpty.string_of_uint d, "").
Proof. induction d as [|d IH|d IH|d IH|d IH|d IH|d IH|d IH|d IH|d IH|d IH]; cbn; [done|..]; by rewrite IH. Qed.

(** A positive numeral has no leading zero. *)
Lemma to_uint_no_zero p d : Pos.to_uint p ≠ Decimal.D0 d.
Proof.
  intros Hd. assert (N.to_uint (N.of_uint (Pos.to_uint p)) = Decimal.unorm (Pos.to_uint p)) as Hn
    by apply DecimalN.Unsigned.to_of.
  assert (N.of_uint (Pos.to_uint p) = Npos p) as Hp.
  { change (N.of_uint (Pos.to_uint p)) with (Pos.of_uint (Pos.to_uint p)). apply DecimalPos.Unsigned.of_to. }
  rewrite Hp in Hn. cbn [N.to_uint] in Hn. unfold Decimal.unorm in Hn.
  destruct (Decimal.nzhead (Pos.to_uint p)) as [|d'|d'|d'|d'|d'|d'|d'|d'|d'|d'] eqn:Hz; try (rewrite Hd in Hn; discriminate Hn).
  - by apply (DecimalPos.Unsigned.to_uint_nonzero p).
  - by apply (DecimalFacts.nzhead_nonzero (Pos.to_uint p) d').
Qed.

Lemma scan_positive p :
  ∃ c s, NilEmpty.string_of_uint (Pos.to_uint p) = String c s ∧ is_digit c = true ∧ code c ≠ 48 ∧
         scan_digits s = (s, "").
Proof.
  pose proof (DecimalPos.Unsigned.to_uint_nonnil p) as Hnil. pose proof (to_uint_no_zero p) as H0.
  destruct (Pos.to_uint p) as [|d|d|d|d|d|d|d|d|d|d]; [done | by destruct (H0 d) |..];
    eexists _, _; (split; [reflexivity|]); (split; [reflexivity|]); (split; [discriminate | apply digit_code]).
Qed.

Lemma str_of_pos p : str_of_int (Z.pos p) = NilEmpty.string_of_uint (Pos.to_uint p).
Proof.
  unfold str_of_int. cbn [Z.to_int]. pose proof (DecimalPos.Unsigned.to_uint_nonnil p). simpl.
  by destruct (Pos.to_uint p).
Qed.

Lemma str_of_neg p : str_of_int (Z.neg p) = String "-" (NilEmpty.string_of_uint (Pos.to_uint p)).
Proof.
  unfold str_of_int. cbn [Z.to_int]. pose proof (DecimalPos.Unsigned.to_uint_nonnil p). simpl.
  by destruct (Pos.to_uint p).
Qed.

Lemma scan_integer_int z : scan_integer (str_of_int z) = Some (str_of_int z, "").
Proof.
  destruct z as [|p|p]; [reflexivity|..].
  - rewrite str_of_pos. destruct (scan_positive p) as (c & s & -> & Hc & Hz & Hs). unfold scan_integer.
    replace (code c =? 45) with false by (unfold is_digit in Hc; lia).
    replace (code c =? 48) with false by lia. by rewrite Hc, Hs.
  - rewrite str_of_neg. destruct (scan_positive p) as (c & s & -> & Hc & Hz & Hs). unfold scan_integer.
    change (code "-" =? 45) with true. cbv iota beta. replace (code c =? 48) with false by lia. by rewrite Hc, Hs.
Qed.

Lemma scan_number_int z : scan_number (str_of_int z) = Some (TInt z, "").
Proof. unfold scan_number. rewrite scan_integer_int. cbn. by rewrite int_of_str_of_int. Qed.

(** The text of a float: ASCII, and what the reader takes for one. *)
Definition float_token (r : string) : bool :=
  ascii_str r && match scan_number r with Some (TFloat r', "") => bool_decide (r' = r) | _ => false end.

Lemma float_token_scan r : float_token r = true → scan_number r = Some (TFloat r, "").
Proof.
  unfold float_token. destruct (ascii_str r); [|done]. simpl. destruct (scan_number r) as [[v s]|]; [|done]. destruct v; try done. destruct s; [|done].
  intros Hr%bool_decide_eq_true. by subst.
Qed.

Lemma float_token_text r : float_token r = true → float_text r = r.
Proof.
  intros Hr. unfold float_text. repeat (destruct (decide _) as [->|_]; [discriminate Hr|]). done.
Qed.

(** A number starts with a digit, or with a minus and a digit. *)
Lemma scan_number_start s v r :
  scan_number s = Some (v, r) →
  ∃ c s', s = String c s' ∧ (is_digit c = true ∨ code c = 45 ∧ ∃ d s'', s' = String d s'' ∧ is_digit d = true).
Proof.
  unfold scan_number, scan_integer. destruct s as [|c s]; [done|]. intros Hn. exists c, s. split; [done|].
  destruct (Z.eqb_spec (code c) 45) as [Hc|Hc].
  - right. split; [done|]. destruct s as [|d s]; [done|]. exists d, s. split; [done|].
    destruct (Z.eqb_spec (code d) 48); [unfold is_digit; lia|]. by destruct (is_digit d).
  - left. destruct (Z.eqb_spec (code c) 48); [unfold is_digit; lia|]. by destruct (is_digit c).
Qed.

Lemma after_cons_ne c p d s : c ≠ d → after (String c p) (String d s) = None.
Proof. intros Hne. cbn [after]. by rewrite decide_False. Qed.

Lemma scan_literal_number s v r : scan_number s = Some (v, r) → scan_literal s = Some (v, r).
Proof.
  intros Hn. destruct (scan_number_start s v r Hn) as (c & s' & -> & Hc). unfold scan_literal.
  assert (∀ d p, code d ≠ 45 → is_digit d = false → after (String d p) (String c s') = None) as Hne.
  { intros d p Hd1 Hd2. apply after_cons_ne. intros ->. destruct Hc as [Hc|[Hc _]]; congruence. }
  rewrite !Hne by done. assert (after "-Infinity" (String c s') = None) as ->; [|done].
  destruct Hc as [Hc|(_ & d & s'' & -> & Hd)].
  - apply after_cons_ne. by intros <-.
  - cbn [after]. destruct (decide _); [|done]. rewrite decide_False; [done|]. by intros <-.
Qed.

(** ** Values *)

Fixpoint json_ok (v : jtext) : bool :=
  match v with
  | TFloat r => float_token r
  | TStr s => ascii_str s
  | TArr l => forallb json_ok l
  | TObj o => forallb (λ kv, ascii_str kv.1 && json_ok kv.2) o && bool_decide (NoDup o.*1)
  | _ => true
  end.

Lemma number_value n s t v :
  delim t = true → scan_number s = Some (v, "") → scan_value (S n) (s +:+ t) = Some (v, t).
Proof.
  intros Ht Hs. apply (scan_number_app s t) in Hs as Hst; [|done]. rewrite app_nil_l_string in Hst.
  destruct (scan_number_start s _ _ Hs) as (c & s' & -> & Hc). rewrite app_cons in *. cbn [scan_value].
  assert (code c ≠ 34 ∧ code c ≠ 123 ∧ code c ≠ 91) as (H1 & H2 & H3).
  { destruct Hc as [Hc|[Hc _]]; unfold is_digit in *; lia. }
  destruct (Z.eqb_spec (code c) 34), (Z.eqb_spec (code c) 123), (Z.eqb_spec (code c) 91); try done.
  by apply scan_literal_number.
Qed.

(** The first character of a printed value. *)
Definition starts (s : string) : Prop :=
  ∃ c s', s = String c s' ∧ is_json_space c = false ∧ code c ≠ 93.

Lemma skip_starts s t : starts s → skip_space (s +:+ t) = s +:+ t.
Proof. intros (c & s' & -> & Hc & _). rewrite app_cons. cbn [skip_space]. by rewrite Hc. Qed.

Lemma number_starts s v r : scan_number s = Some (v, r) → starts s.
Proof.
  intros Hs. destruct (scan_number_start s v r Hs) as (c & s' & -> & Hc). exists c, s'. split; [done|].
  unfold is_json_space. destruct Hc as [Hc|[Hc _]]; unfold is_digit in *; lia.
Qed.

(** ** Separators

    The space after a separator is skipped. *)

Section Separators.
Context (sp : string) (sp_skipped : ∀ s, skip_space (sp +:+ s) = skip_space s) (sp_ascii : ascii_str sp = true).
#[local] Abbreviation dumps := (dumps_sep sp).

Lemma dumps_starts v : json_ok v = true → starts (dumps v).
Proof.
  intros Hok. destruct v as [|[]|z|r|s|l|o]; cbn [dumps_sep];
    try (by eexists _, _; split; [reflexivity|]; split).
  - eapply number_starts, scan_number_int.
  - rewrite float_token_text by done. eapply number_starts. by apply float_token_scan.
Qed.

Definition member (kv : string * jtext) : string := quote kv.1 +:+ ":" +:+ sp +:+ dumps kv.2.
Definition elements (l : list jtext) : string := String.concat ("," +:+ sp) (map dumps l).
Definition members (o : list (string * jtext)) : string := String.concat ("," +:+ sp) (map member o).

Lemma elements_cons v w l : elements (v :: w :: l) = dumps v +:+ "," +:+ sp +:+ elements (w :: l).
Proof. unfold elements. cbn [map String.concat]. by rewrite str_app_assoc. Qed.

Lemma members_cons kv kw o : members (kv :: kw :: o) = member kv +:+ "," +:+ sp +:+ members (kw :: o).
Proof. unfold members. cbn [map String.concat]. by rewrite str_app_assoc. Qed.

Lemma starts_app s t : starts s → starts (s +:+ t).
Proof. intros (c & s' & -> & Hc). exists c, (s' +:+ t). by rewrite app_cons. Qed.

Lemma elements_starts v l : json_ok v = true → starts (elements (v :: l)).
Proof.
  intros Hok. destruct l as [|w l]; [by apply dumps_starts|]. rewrite elements_cons. by apply starts_app, dumps_starts.
Qed.

Lemma members_starts kv o : ∃ s, members (kv :: o) = String (chr 34) s.
Proof.
  assert (∃ s, member kv = String (chr 34) s) as [s Hs].
  { unfold member, quote. rewrite app_cons. by eexists. }
  destruct o as [|kw o]; [by exists s|]. rewrite members_cons, Hs, app_cons. by eexists.
Qed.

(** What the reader does at the end of an element and at the end of a member. *)
Lemma elements_end n v t s :
  scan_value n s = Some (v, String "]" t) → scan_elements (S n) s = Some ([v], t).
Proof. intros Hv. cbn [scan_elements]. by rewrite Hv. Qed.

Lemma elements_next n v s s' l r :
  scan_value n s = Some (v, "," +:+ sp +:+ s') → starts s' → scan_elements n s' = Some (l, r) →
  scan_elements (S n) s = Some (v :: l, r).
Proof.
  intros Hv Hs Hl. cbn [scan_elements]. rewrite Hv. cbn [mbind option_bind].
  change (skip_space ("," +:+ sp +:+ s')) with (String "," (sp +:+ s')). cbv iota beta.
  change (code "," =? 93) with false. change (code "," =? 44) with true. cbv iota. rewrite sp_skipped.
  pose proof (skip_starts s' "" Hs) as Hk. rewrite str_app_nil_r in Hk. by rewrite Hk, Hl.
Qed.

Lemma member_head n k s r :
  ascii_str k = true → starts s → scan_value n s = r →
  scan_members (S n) (quote k +:+ ":" +:+ sp +:+ s) =
  '(v, r2) ← r;
  match skip_space r2 with
  | String c r3 =>
      if code c =? 125 then Some ([(k, v)], r3)
      else if code c =? 44 then '(o, r4) ← scan_members n (skip_space r3); Some ((k, v) :: o, r4)
      else None
  | "" => None
  end.
Proof.
  intros Hk Hs <-. rewrite quote_app. cbn [scan_members]. change (code (chr 34) =? 34) with true. cbv iota.
  rewrite scan_escape by done. cbn [mbind option_bind].
  change (skip_space (":" +:+ sp +:+ s)) with (String ":" (sp +:+ s)). cbv iota beta.
  change (code ":" =? 58) with true. cbv iota. rewrite sp_skipped.
  pose proof (skip_starts s "" Hs) as Hsk. rewrite str_app_nil_r in Hsk. by rewrite Hsk.
Qed.

Lemma slen_app s t : slen (s +:+ t) = (slen s + slen t)%nat.
Proof. induction s as [|c s IH]; [done|]. rewrite app_cons. simpl. by rewrite IH. Qed.

Section Scan.
Context (n : nat).
Hypothesis value_ok : ∀ v t, json_ok v = true → delim t = true → (2 * slen (dumps v) < n)%nat →
  scan_value n (dumps v +:+ t) = Some (v, t).
Hypothesis elements_ok : ∀ v l t, forallb json_ok (v :: l) = true → (2 * slen (elements (v :: l)) + 1 < n)%nat →
  scan_elements n (elements (v :: l) +:+ String "]" t) = Some (v :: l, t).
Hypothesis members_ok : ∀ kv o t, forallb (λ kv, ascii_str kv.1 && json_ok kv.2) (kv :: o) = true →
  (2 * slen (members (kv :: o)) + 1 < n)%nat →
  scan_members n (members (kv :: o) +:+ String "}" t) = Some (kv :: o, t).

Lemma elements_step v l t :
  forallb json_ok (v :: l) = true → (2 * slen (elements (v :: l)) + 1 < S n)%nat →
  scan_elements (S n) (elements (v :: l) +:+ String "]" t) = Some (v :: l, t).
Proof.
  intros Hok Hlen. cbn [forallb] in Hok. apply andb_true_iff in Hok as [Hv Hl]. destruct l as [|w l].
  - apply elements_end, value_ok; [done..|]. change (elements [v]) with (dumps v) in Hlen. lia.
  - rewrite elements_cons in *. rewrite !slen_app in Hlen. change (slen ",") with 1%nat in Hlen.
    rewrite !str_app_assoc. eapply elements_next; [apply value_ok; [done..|lia] | |].
    + apply starts_app, elements_starts. cbn [forallb] in Hl. by apply andb_true_iff in Hl as [? _].
    + apply elements_ok; [done | lia].
Qed.

Lemma members_step kv o t :
  forallb (λ kv, ascii_str kv.1 && json_ok kv.2) (kv :: o) = true → (2 * slen (members (kv :: o)) + 1 < S n)%nat →
  scan_members (S n) (members (kv :: o) +:+ String "}" t) = Some (kv :: o, t).
Proof.
  intros Hok Hlen. cbn [forallb] in Hok. apply andb_true_iff in Hok as [Hkv Ho].
  apply andb_true_iff in Hkv as [Hk Hv]. destruct kv as [k v]. cbn [fst snd] in *.
  assert (2 * slen (dumps v) < n)%nat as Hlv.
  { destruct o as [|kw o]; [change (members [(k, v)]) with (member (k, v)) in Hlen | rewrite members_cons in Hlen].
    all: unfold member in Hlen; cbn [fst snd] in Hlen; rewrite !slen_app in Hlen; lia. }
  destruct o as [|kw o].
  - change (members [(k, v)]) with (quote k +:+ ":" +:+ sp +:+ dumps v). rewrite !str_app_assoc.
    erewrite member_head; [|done|by apply starts_app, dumps_starts|by apply value_ok]. done.
  - rewrite members_cons in *. unfold member in *. cbn [fst snd] in *. rewrite !str_app_assoc.
    erewrite member_head; [|done|by apply starts_app, dumps_starts|by apply value_ok].
    cbn [mbind option_bind]. change (skip_space ("," +:+ sp +:+ members (kw :: o) +:+ String "}" t)) with
      (String "," (sp +:+ members (kw :: o) +:+ String "}" t)). cbv iota beta.
    change (code "," =? 125) with false. change (code "," =? 44) with true. cbv iota.
    destruct (members_starts kw o) as [s Hs].
    assert (skip_space (members (kw :: o) +:+ String "}" t) = members (kw :: o) +:+ String "}" t) as Hsk
      by (rewrite Hs; reflexivity).
    rewrite sp_skipped, Hsk.
    rewrite !slen_app in Hlen. change (slen ",") with 1%nat in Hlen. rewrite members_ok; [done | done | lia].
Qed.

Lemma value_step v t :
  json_ok v = true → delim t = true → (2 * slen (dumps v) < S n)%nat →
  scan_value (S n) (dumps v +:+ t) = Some (v, t).
Proof.
  intros Hok Ht Hlen. destruct v as [|[]|z|r|s|l|o]; cbn [dumps_sep]; [reflexivity..| | | | |].
  - apply number_value; [done | apply scan_number_int].
  - rewrite float_token_text by done. apply number_value; [done | by apply float_token_scan].
  - rewrite quote_app. cbn [scan_value]. change (code (chr 34) =? 34) with true. cbv iota.
    by rewrite scan_escape.
  - destruct l as [|v l]; [reflexivity|]. cbn [dumps_sep] in Hlen. fold (elements (v :: l)) in *.
    rewrite !slen_app in Hlen. change (slen "[") with 1%nat in Hlen. change (slen "]") with 1%nat in Hlen.
    rewrite !str_app_assoc. cbn [scan_value]. rewrite app_cons, app_nil_l_string. cbn [scan_value].
    change (code "[" =? 34) with false. change (code "[" =? 123) with false. change (code "[" =? 91) with true. cbv iota.
    cbn [json_ok] in Hok. assert (json_ok v = true) as Hv by (cbn [forallb] in Hok; by apply andb_true_iff in Hok as [? _]).
    rewrite skip_starts by by apply elements_starts.
    destruct (elements_starts v l Hv) as (c & s' & Hs & _ & Hc). rewrite Hs, app_cons. cbv iota beta.
    destruct (Z.eqb_spec (code c) 93); [done|]. rewrite <-app_cons, <-Hs.
    change ("]" +:+ t) with (String "]" t). rewrite elements_ok; [done | done | lia].
  - destruct o as [|kv o]; [reflexivity|]. cbn [dumps_sep] in Hlen. change (map _ (kv :: o)) with (map member (kv :: o)) in *.
    fold (members (kv :: o)) in *.
    rewrite !slen_app in Hlen. change (slen "{") with 1%nat in Hlen. change (slen "}") with 1%nat in Hlen.
    rewrite !str_app_assoc, app_cons, app_nil_l_string. cbn [scan_value].
    change (code "{" =? 34) with false. change (code "{" =? 123) with true. cbv iota.
    cbn [json_ok] in Hok. apply andb_true_iff in Hok as [Ho Hnd%bool_decide_eq_true].
    destruct (members_starts kv o) as [s Hs]. rewrite Hs, app_cons.
    change (skip_space (String (chr 34) (s +:+ "}" +:+ t))) with (String (chr 34) (s +:+ "}" +:+ t)). cbv iota beta.
    change (code (chr 34) =? 125) with false. cbv iota. rewrite <-app_cons, <-Hs.
    change ("}" +:+ t) with (String "}" t). rewrite members_ok; [|done|lia]. cbn [mbind option_bind].
    by rewrite dict_of_list_NoDup.
Qed.
End Scan.

Lemma scan_printed n :
  (∀ v t, json_ok v = true → delim t = true → (2 * slen (dumps v) < n)%nat →
     scan_value n (dumps v +:+ t) = Some (v, t)) ∧
  (∀ v l t, forallb json_ok (v :: l) = true → (2 * slen (elements (v :: l)) + 1 < n)%nat →
     scan_elements n (elements (v :: l) +:+ String "]" t) = Some (v :: l, t)) ∧
  (∀ kv o t, forallb (λ kv, ascii_str kv.1 && json_ok kv.2) (kv :: o) = true →
     (2 * slen (members (kv :: o)) + 1 < n)%nat →
     scan_members n (members (kv :: o) +:+ String "}" t) = Some (kv :: o, t)).
Proof.
  induction n as [|n (IHv & IHe & IHm)]; [split_and!; intros; lia|]. split_and!; intros.
  - by apply value_step.
  - by apply elements_step.
  - by apply members_step.
Qed.

(** Reading back what was written. *)
Lemma loads_dumps_sep v : json_ok v = true → loads (dumps v) = Ok v.
Proof.
  intros Hok. unfold loads.
  assert (skip_space (dumps v) = dumps v) as ->.
  { pose proof (skip_starts (dumps v) "" (dumps_starts v Hok)) as Hs. by rewrite str_app_nil_r in Hs. }
  destruct (scan_printed (S (2 * slen (dumps v)))) as [Hv _].
  specialize (Hv v "" Hok eq_refl ltac:(lia)). rewrite str_app_nil_r in Hv. by rewrite Hv.
Qed.

(** ** What is written is ASCII *)

Lemma ascii_str_app s t : ascii_str (s +:+ t) = ascii_str s && ascii_str t.
Proof. induction s as [|c s IH]; [done|]. rewrite app_cons. cbn [ascii_str]. by rewrite IH, andb_assoc. Qed.

Lemma ascii_uint d : ascii_str (NilEmpty.string_of_uint d) = true.
Proof. by induction d. Qed.

Lemma ascii_int z : ascii_str (str_of_int z) = true.
Proof. destruct z as [|p|p]; [done | rewrite str_of_pos | rewrite str_of_neg]; apply ascii_uint. Qed.

Lemma ascii_escape s : ascii_str s = true → ascii_str (escape s) = true.
Proof.
  induction s as [|c s IH]; intros Hs; [done|]. cbn [ascii_str] in Hs. apply andb_true_iff in Hs as [Hc Hs].
  cbn [escape]. cbn zeta. pose proof Hc as Hc'. unfold ascii_char in Hc'. rewrite Hc', ascii_str_app, IH by done.
  rewrite andb_true_r. clear -Hc. destruct c as [[] [] [] [] [] [] [] []]; first [discriminate Hc | reflexivity].
Qed.

Lemma ascii_quote s : ascii_str s = true → ascii_str (quote s) = true.
Proof. intros Hs. unfold quote. cbn [ascii_str]. by rewrite ascii_str_app, ascii_escape. Qed.

Lemma ascii_concat l : forallb ascii_str l = true → ascii_str (String.concat ("," +:+ sp) l) = true.
Proof.
  induction l as [|s l IH]; [done|]. cbn [forallb]. intros [Hs Hl]%andb_true_iff. destruct l as [|t l]; [done|].
  change (String.concat ("," +:+ sp) (s :: t :: l)) with (s +:+ ("," +:+ sp) +:+ String.concat ("," +:+ sp) (t :: l)).
  rewrite !ascii_str_app, Hs, sp_ascii, IH by done. done.
Qed.

Fixpoint ascii_dumps_sep (v : jtext) : json_ok v = true → ascii_str (dumps v) = true.
Proof.
  destruct v as [|[]|z|r|s|l|o]; cbn [json_ok dumps_sep]; intros Hok; [done..| | | | |].
  - apply ascii_int.
  - rewrite float_token_text by done. unfold float_token in Hok. by apply andb_true_iff in Hok as [? _].
  - by apply ascii_quote.
  - rewrite !ascii_str_app, ascii_concat; [done|]. revert Hok.
    induction l as [|v l IH]; [done|]. cbn [map forallb]. intros [Hv Hl]%andb_true_iff.
    apply andb_true_iff. split; [by apply ascii_dumps_sep | by apply IH].
  - rewrite !ascii_str_app, ascii_concat; [done|]. apply andb_true_iff in Hok as [Hok _]. revert Hok.
    induction o as [|[k v] o IH]; [done|]. cbn [map forallb fst snd]. intros [[Hk Hv]%andb_true_iff Ho]%andb_true_iff.
    apply andb_true_iff. split; [|by apply IH]. rewrite !ascii_str_app, ascii_quote by done.
    by rewrite sp_ascii, (ascii_dumps_sep v Hv).
Qed.
End Separators.

Lemma loads_dumps v : json_ok v = true → loads (dumps v) = Ok v.
Proof. by apply loads_dumps_sep. Qed.

Lemma loads_dumps_compact v : json_ok v = true → loads (dumps_compact v) = Ok v.
Proof. by apply loads_dumps_sep. Qed.

Lemma ascii_dumps v : json_ok v = true → ascii_str (dumps v) = true.
Proof. by apply ascii_dumps_sep. Qed.

(** * [json.dumps(..., sort_keys=True)]

    Objects are printed in the order of their keys, at every depth. *)

#[local] Open Scope string_scope.
#[local] Open Scope list_scope.
#[local] Open Scope Z_scope.

Definition key_leb {A} (a b : string * A) : bool := string_leb a.1 b.1.

Fixpoint sort_keys (v : jtext) : jtext :=
  match v with
  | TArr l => TArr (map sort_keys l)
  | TObj o => TObj (sort_by key_leb (map (λ kv, (kv.1, sort_keys kv.2)) o))
  | _ => v
  end.

(** [json.dumps(v, sort_keys=True)], and with compact separators *)
Definition dumps_sorted (v : jtext) : string := dumps (sort_keys v).
Definition dumps_sorted_compact (v : jtext) : string := dumps_compact (sort_keys v).

(** [hashlib.sha256(json.dumps(v, sort_keys=True).encode("utf-8")).hexdigest()] *)
Definition json_digest (v : jtext) : string := sha256_hex (utf8 (dumps_sorted v)).

Lemma forallb_sort_by {A} (leb : A → A → bool) (P : A → bool) l : forallb P (sort_by leb l) = forallb P l.
Proof.
  apply eq_iff_eq_true. rewrite !forallb_forall.
  split; intros Hl x; rewrite <-!list_elem_of_In; intros Hx; apply Hl; apply list_elem_of_In; by apply elem_of_sort_by in Hx || apply elem_of_sort_by.
Qed.

Lemma json_ok_sort_keys v : json_ok v = true → json_ok (sort_keys v) = true.
Proof.
  revert v. fix IH 1. intros [|b|z|r|s|l|o]; try done; cbn [json_ok sort_keys].
  - revert l. fix IHl 1. intros [|v l]; [done|]. cbn [map forallb]. rewrite !andb_true_iff. intros [Hv Hl].
    split; [by apply IH | by apply IHl].
  - rewrite !andb_true_iff, forallb_sort_by, !bool_decide_eq_true. intros [Ho Hnd]. split.
    + clear Hnd. revert o Ho. fix IHo 1. intros [|[k v] o]; [done|]. cbn [map forallb fst snd]. rewrite !andb_true_iff.
      intros [[Hk Hv] Ho]. split_and!; [done | by apply IH | by apply IHo].
    + rewrite (fmap_Permutation _ _ _ (sort_by_perm key_leb _)). change (map ?f o) with (f <$> o).
      rewrite <-list_fmap_compose. by replace ((fst ∘ (λ kv : string * jtext, (kv.1, sort_keys kv.2))) <$> o) with o.*1 by
        (apply list_fmap_ext; by intros ? []).
Qed.

(** The text determines the value, up to the order of keys. *)
Lemma dumps_sorted_inj v w :
  json_ok v = true → json_ok w = true → dumps_sorted v = dumps_sorted w → sort_keys v = sort_keys w.
Proof.
  intros Hv%json_ok_sort_keys Hw%json_ok_sort_keys Heq. apply (f_equal loads) in Heq. unfold dumps_sorted in Heq.
  rewrite (loads_dumps _ Hv), (loads_dumps _ Hw) in Heq.
  exact (f_equal (λ r, match r with Ok v => v | Err _ => TNull end) Heq).
Qed.

(** * Reading values out of parsed JSON

    What Python's subscripts, [get], [int()], [str()] and iteration do on a value
    that [json.loads] returned, of whatever type.  Outcomes that need a text the
    model does not have ([str()] of a container or a float) are [Untyped]. *)

#[local] Open Scope string_scope.
#[local] Open Scope list_scope.
#[local] Open Scope Z_scope.

(** [v[key]], for a string [key] *)
Definition subscript (v : jtext) (key : string) : result jtext :=
  match v with TObj o => of_option KeyError (dict_get key o) | _ => Err TypeError end.

(** [v.get(key, default)] *)
Definition get_or (v : jtext) (key : string) (other : jtext) : result jtext :=
  match v with TObj o => Ok (default other (dict_get key o)) | _ => Err AttributeError end.

(** [v.get(key)] *)
Definition get_opt (v : jtext) (key : string) : result jtext := get_or v key TNull.

(** [int(v)] *)
Definition int_of_jtext (v : jtext) : result Z :=
  match v with
  | TInt z => Ok z
  | TBool b => Ok (Z.b2z b)
  | TStr s => of_option ValueError (int_of_str s)
  | TFloat r =>
      match float_of_repr r with
      | FFin neg m e =>
          let t := if 0 <=? e then m * 2 ^ e else m / 2 ^ (- e) in Ok (if neg then - t else t)
      | FInf _ => Err OverflowError
      | FNan => Err ValueError
      end
  | _ => Err TypeError
  end.

(** [str(v)] *)
Definition str_of_jtext (v : jtext) : result string :=
  match v with
  | TStr s => Ok s
  | TInt z => Ok (str_of_int z)
  | TBool b => Ok (if b then "True" else "False")
  | TNull => Ok "None"
  | _ => Err Untyped
  end.

(** [float(v)], as text *)
Definition float_of_jtext (v : jtext) : result string :=
  match v with
  | TFloat r => Ok r
  | TObj _ | TArr _ | TNull => Err TypeError
  | _ => Err Untyped
  end.

(** The values of [for x in v] *)
Definition iter_jtext (v : jtext) : result (list jtext) :=
  match v with
  | TArr l => Ok l
  | TObj o => Ok (TStr <$> dict_keys o)
  | TStr s => Ok ((λ c, TStr (String c "")) <$> list_ascii_of_string s)
  | _ => Err TypeError
  end.

(** [bytes.fromhex(v)] *)
Definition fromhex_jtext (v : jtext) : result bytes :=
  match v with TStr s => of_option ValueError (fromhex s) | _ => Err TypeError end.

(** Fields whose type the code does not check: [Untyped] where the value has another. *)
Definition typed_int (v : jtext) : result Z := match v with TInt z => Ok z | _ => Err Untyped end.
Definition typed_float (v : jtext) : result string := match v with TFloat r => Ok r | _ => Err Untyped end.
Definition typed_str (v : jtext) : result string := match v with TStr s => Ok s | _ => Err Untyped end.
Definition typed_bool (v : jtext) : result bool := match v with TBool b => Ok b | _ => Err Untyped end.

(** [None] stays [None]. *)
Definition nullable {A} (f : jtext → result A) (v : jtext) : result (option A) :=
  match v with TNull => Ok None | _ => a ← f v; Ok (Some a) end.

(** [if key in o: f(o[key])] *)
Definition present {A} (key : string) (f : jtext → result A) (o : dict string jtext) : result (option A) :=
  match dict_get key o with Some v => a ← f v; Ok (Some a) | None => Ok None end.
