(* ===== verification/DagLedger.v ===== *)
(** * The DAG ledger and its database

    The tables the DAG ledger uses (schema in prsm/node/dag_ledger.py, _create_tables), the
    statements it executes, and the transaction state of its one SQLite connection as the
    sqlite3 module drives it: a statement that writes opens a transaction, SAVEPOINT opens
    one when none is open, releasing the savepoint that opened it commits.  The columns
    that hold the time of a write are left out, except a transaction's timestamp.
    Statements do not fail but for constraints and missing savepoints. *)
From Stdlib Require Import ZArith Lia.
From S2P Require Import PyStd.
From S2P Require Import Externals.
From S2P Require Import Effects.
From S2P Require Import PyNumbers.
From S2P Require Import PyBase64.
From S2P Require Import PyJson.
From S2P Require Import Prelude.

#[local] Open Scope string_scope.
#[local] Open Scope list_scope.
#[local] Open Scope Z_scope.

(** ** Rows *)

Inductive LedgerTxType : Type :=
| GENESIS | WELCOME_GRANT | COMPUTE_PAYMENT | COMPUTE_EARNING | STORAGE_REWARD | CONTENT_ROYALTY
| TRANSFER | APPROVAL | SYSTEM | BRIDGE_DEPOSIT | BRIDGE_WITHDRAW | REWARD.

Definition tx_type_value (t : LedgerTxType) : string :=
  match t with
  | GENESIS => "genesis" | WELCOME_GRANT => "welcome_grant" | COMPUTE_PAYMENT => "compute_payment"
  | COMPUTE_EARNING => "compute_earning" | STORAGE_REWARD => "storage_reward" | CONTENT_ROYALTY => "content_royalty"
  | TRANSFER => "transfer" | APPROVAL => "approval" | SYSTEM => "system" | BRIDGE_DEPOSIT => "bridge_deposit"
  | BRIDGE_WITHDRAW => "bridge_withdraw" | REWARD => "reward"
  end.

#[export] Instance ledger_tx_type_eq_dec : EqDecision LedgerTxType.
Proof. solve_decision. Defined.

Record DAGTransaction : Type := {
  dt_tx_id : string;
  dt_tx_type : LedgerTxType;
  dt_amount : pyfloat;
  dt_from_wallet : option string;
  dt_to_wallet : string;
  dt_timestamp : pyfloat;
  dt_signature : option string;
  dt_public_key : option string;
  dt_description : string;
  dt_parent_ids : list string;
  dt_cumulative_weight : Z;
  dt_confirmation_level : pyfloat
}.

Record WalletRow : Type := {
  wr_display_name : string;
  wr_public_key : option string;
  wr_eth_address : option string;
  wr_requires_user_signature : bool;
  wr_next_withdraw_nonce : Z
}.

Record LedgerTables : Type := {
  t_wallets : dict string WalletRow;
  t_transactions : dict string DAGTransaction;
  t_tips : list string;
  t_balances : dict string (pyfloat * Z);
  t_nonces : dict string string;
  t_gossip : dict string string
}.

Definition set_wallets (f : dict string WalletRow → dict string WalletRow) (d : LedgerTables) : LedgerTables :=
  {| t_wallets := f (t_wallets d); t_transactions := t_transactions d; t_tips := t_tips d; t_balances := t_balances d;
     t_nonces := t_nonces d; t_gossip := t_gossip d |}.
Definition set_transactions (f : dict string DAGTransaction → dict string DAGTransaction) (d : LedgerTables) : LedgerTables :=
  {| t_wallets := t_wallets d; t_transactions := f (t_transactions d); t_tips := t_tips d; t_balances := t_balances d;
     t_nonces := t_nonces d; t_gossip := t_gossip d |}.
Definition set_tips (f : list string → list string) (d : LedgerTables) : LedgerTables :=
  {| t_wallets := t_wallets d; t_transactions := t_transactions d; t_tips := f (t_tips d); t_balances := t_balances d;
     t_nonces := t_nonces d; t_gossip := t_gossip d |}.
Definition set_balances (f : dict string (pyfloat * Z) → dict string (pyfloat * Z)) (d : LedgerTables) : LedgerTables :=
  {| t_wallets := t_wallets d; t_transactions := t_transactions d; t_tips := t_tips d; t_balances := f (t_balances d);
     t_nonces := t_nonces d; t_gossip := t_gossip d |}.
Definition set_nonces (f : dict string string → dict string string) (d : LedgerTables) : LedgerTables :=
  {| t_wallets := t_wallets d; t_transactions := t_transactions d; t_tips := t_tips d; t_balances := t_balances d;
     t_nonces := f (t_nonces d); t_gossip := t_gossip d |}.
Definition set_gossip (f : dict string string → dict string string) (d : LedgerTables) : LedgerTables :=
  {| t_wallets := t_wallets d; t_transactions := t_transactions d; t_tips := t_tips d; t_balances := t_balances d;
     t_nonces := t_nonces d; t_gossip := f (t_gossip d) |}.

(** ** Statements *)

#[warnings="-register-all"]
Inductive statement : Type :=
(* INSERT OR IGNORE INTO wallets *)
| InsertWallet (id name : string) (public_key : option string)
| SelectWallet (id : string)
| UpdatePublicKey (id public_key : string)
| UpdateNextNonce (id : string) (n : Z)
| UpdateRequiresSignature (id : string) (b : bool)
| SelectWalletByEth (address : string)
| ClearEth (address : string)
| UpdateEth (id address : string)
| SelectTransaction (tx_id : string)
(* INSERT OR REPLACE INTO dag_transactions *)
| InsertTransaction (tx : DAGTransaction)
| UpdateWeight (tx_id : string) (weight : Z) (level : pyfloat)
(* SELECT COALESCE(SUM(amount), 0) ... WHERE to_wallet / from_wallet = ? AND tx_type != 'approval' *)
| SumCredits (wallet : string)
| SumDebits (wallet : string)
(* SELECT 1 ... WHERE to_wallet = ? AND tx_type = 'welcome_grant' *)
| SelectGrant (wallet : string)
| SelectBalance (wallet : string)
| InsertBalance (wallet : string)
(* UPDATE wallet_balances SET balance = balance - ?, version = version + 1 WHERE wallet_id = ? AND version = ? *)
| DeductBalance (wallet : string) (amount : pyfloat) (version : Z)
(* INSERT ... ON CONFLICT DO UPDATE SET balance = balance + excluded.balance, version = version + 1 *)
| CreditBalance (wallet : string) (amount : pyfloat)
| DeleteTip (tx_id : string)
(* INSERT OR IGNORE INTO tips *)
| InsertTip (tx_id : string)
| SelectNonce (nonce : string)
(* INSERT OR IGNORE INTO seen_nonces *)
| InsertNonce (nonce origin : string)
| DeleteNonce (nonce : string)
(* INSERT OR IGNORE INTO gossip_log *)
| InsertGossip (nonce row : string)
(* what _load_state reads *)
| SelectTransactions
| SelectTips
| SelectPublicKeys
(* what the node's start rebuilds: DELETE FROM wallet_balances; INSERT INTO wallet_balances SELECT ... FROM wallets *)
| DeleteBalances
| InsertRebuilt
| SelectVersions.

(** What the statement gives: the fetched row, or the number of rows it changed. *)
Definition answer (s : statement) : Type :=
  match s with
  | SelectWallet _ => option WalletRow
  | SelectWalletByEth _ => option string
  | SelectTransaction _ => option DAGTransaction
  | SumCredits _ | SumDebits _ => pyfloat
  | SelectGrant _ | SelectNonce _ => bool
  | SelectBalance _ => option (pyfloat * Z)
  | DeductBalance _ _ _ | InsertNonce _ _ | DeleteNonce _ => Z
  | SelectTransactions => list DAGTransaction
  | SelectTips => list string
  | SelectPublicKeys => list (string * string)
  | SelectVersions => list (string * Z)
  | _ => unit
  end.

(** Statements that write open a transaction. *)
Definition writes (s : statement) : bool :=
  match s with
  | SelectWallet _ | SelectWalletByEth _ | SelectTransaction _ | SumCredits _ | SumDebits _ | SelectGrant _
  | SelectNonce _ | SelectBalance _ | SelectTransactions | SelectTips | SelectPublicKeys | SelectVersions => false
  | _ => true
  end.

Definition dict_has {A} (k : string) (d : dict string A) : bool := match dict_get k d with Some _ => true | None => false end.
Definition dict_update {A} (k : string) (f : A → A) (d : dict string A) : dict string A :=
  match dict_get k d with Some x => dict_set k (f x) d | None => d end.

Section Run.
(** SQLite's SUM over a non-empty column of doubles *)
Variable sql_sum : list pyfloat → pyfloat.

Definition coalesce_sum (l : list pyfloat) : pyfloat := match l with [] => fzero | _ => sql_sum l end.

Definition counted (tx : DAGTransaction) : bool := negb (bool_decide (dt_tx_type tx = APPROVAL)).
Definition credits_of (w : string) (d : LedgerTables) : list pyfloat :=
  dt_amount <$> filter (λ tx, dt_to_wallet tx = w ∧ counted tx = true) (dict_values (t_transactions d)).
Definition debits_of (w : string) (d : LedgerTables) : list pyfloat :=
  dt_amount <$> filter (λ tx, dt_from_wallet tx = Some w ∧ counted tx = true) (dict_values (t_transactions d)).

(** The balance of a wallet that the node's start computes; approvals count too. *)
Definition rebuilt_balance (w : string) (d : LedgerTables) : pyfloat :=
  fsub (coalesce_sum (dt_amount <$> filter (λ tx, dt_to_wallet tx = w) (dict_values (t_transactions d))))
       (coalesce_sum (dt_amount <$> filter (λ tx, dt_from_wallet tx = Some w) (dict_values (t_transactions d)))).

Definition rebuilt_balances (d : LedgerTables) : dict string (pyfloat * Z) :=
  (λ kv : string * WalletRow, (kv.1, (rebuilt_balance kv.1 d, 1))) <$> t_wallets d.

Definition key_rows (d : LedgerTables) : list (string * string) :=
  omap (λ kv : string * WalletRow, (λ k, (kv.1, k)) <$> wr_public_key kv.2) (t_wallets d).

Definition wallet_with_eth (address : string) (d : LedgerTables) : option string :=
  fst <$> head (filter (λ kv : string * WalletRow, wr_eth_address kv.2 = Some address) (t_wallets d)).

Definition with_eth (a : option string) (r : WalletRow) : WalletRow :=
  {| wr_display_name := wr_display_name r; wr_public_key := wr_public_key r; wr_eth_address := a;
     wr_requires_user_signature := wr_requires_user_signature r; wr_next_withdraw_nonce := wr_next_withdraw_nonce r |}.
Definition with_public_key (k : string) (r : WalletRow) : WalletRow :=
  {| wr_display_name := wr_display_name r; wr_public_key := Some k; wr_eth_address := wr_eth_address r;
     wr_requires_user_signature := wr_requires_user_signature r; wr_next_withdraw_nonce := wr_next_withdraw_nonce r |}.
Definition with_requires (b : bool) (r : WalletRow) : WalletRow :=
  {| wr_display_name := wr_display_name r; wr_public_key := wr_public_key r; wr_eth_address := wr_eth_address r;
     wr_requires_user_signature := b; wr_next_withdraw_nonce := wr_next_withdraw_nonce r |}.
Definition with_next_nonce (n : Z) (r : WalletRow) : WalletRow :=
  {| wr_display_name := wr_display_name r; wr_public_key := wr_public_key r; wr_eth_address := wr_eth_address r;
     wr_requires_user_signature := wr_requires_user_signature r; wr_next_withdraw_nonce := n |}.
Definition with_weight (weight : Z) (level : pyfloat) (tx : DAGTransaction) : DAGTransaction :=
  {| dt_tx_id := dt_tx_id tx; dt_tx_type := dt_tx_type tx; dt_amount := dt_amount tx; dt_from_wallet := dt_from_wallet tx;
     dt_to_wallet := dt_to_wallet tx; dt_timestamp := dt_timestamp tx; dt_signature := dt_signature tx;
     dt_public_key := dt_public_key tx; dt_description := dt_description tx; dt_parent_ids := dt_parent_ids tx;
     dt_cumulative_weight := weight; dt_confirmation_level := level |}.

Definition new_wallet (name : string) (public_key : option string) : WalletRow :=
  {| wr_display_name := name; wr_public_key := public_key; wr_eth_address := None; wr_requires_user_signature := false;
     wr_next_withdraw_nonce := 0 |}.

Definition run_statement (s : statement) (d : LedgerTables) : result (LedgerTables * answer s) :=
  match s return result (LedgerTables * answer s) with
  | InsertWallet id name pk =>
      Ok (if dict_has id (t_wallets d) then d else set_wallets (dict_set id (new_wallet name pk)) d, tt)
  | SelectWallet id => Ok (d, dict_get id (t_wallets d))
  | UpdatePublicKey id pk => Ok (set_wallets (dict_update id (with_public_key pk)) d, tt)
  | UpdateNextNonce id n => Ok (set_wallets (dict_update id (with_next_nonce n)) d, tt)
  | UpdateRequiresSignature id b => Ok (set_wallets (dict_update id (with_requires b)) d, tt)
  | SelectWalletByEth a => Ok (d, wallet_with_eth a d)
  | ClearEth a =>
      Ok (set_wallets (fmap (λ kv, (kv.1, if bool_decide (wr_eth_address kv.2 = Some a) then with_eth None kv.2 else kv.2))) d, tt)
  | UpdateEth id a =>
      match wallet_with_eth a d with
      | Some other => if bool_decide (other = id) then Ok (d, tt) else if dict_has id (t_wallets d) then Err IntegrityError else Ok (d, tt)
      | None => Ok (set_wallets (dict_update id (with_eth (Some a))) d, tt)
      end
  | SelectTransaction id => Ok (d, dict_get id (t_transactions d))
  | InsertTransaction tx => Ok (set_transactions (dict_set (dt_tx_id tx) tx) d, tt)
  | UpdateWeight id weight level => Ok (set_transactions (dict_update id (with_weight weight level)) d, tt)
  | SumCredits w => Ok (d, coalesce_sum (credits_of w d))
  | SumDebits w => Ok (d, coalesce_sum (debits_of w d))
  | SelectGrant w =>
      Ok (d, existsb (λ tx, bool_decide (dt_to_wallet tx = w ∧ dt_tx_type tx = WELCOME_GRANT)) (dict_values (t_transactions d)))
  | SelectBalance w => Ok (d, dict_get w (t_balances d))
  | InsertBalance w =>
      if dict_has w (t_balances d) || negb (dict_has w (t_wallets d)) then Err IntegrityError
      else Ok (set_balances (dict_set w (fzero, 1)) d, tt)
  | DeductBalance w amount version =>
      match dict_get w (t_balances d) with
      | Some (balance, v) =>
          if v =? version then Ok (set_balances (dict_set w (fsub balance amount, v + 1)) d, 1) else Ok (d, 0)
      | None => Ok (d, 0)
      end
  | CreditBalance w amount =>
      match dict_get w (t_balances d) with
      | Some (balance, v) => Ok (set_balances (dict_set w (fadd balance amount, v + 1)) d, tt)
      | None => if dict_has w (t_wallets d) then Ok (set_balances (dict_set w (fadd fzero amount, 1)) d, tt) else Err IntegrityError
      end
  | DeleteTip id => Ok (set_tips (filter (λ x, x ≠ id)) d, tt)
  | InsertTip id => Ok (if decide (id ∈ t_tips d) then d else set_tips (λ l, l ++ [id]) d, tt)
  | SelectNonce n => Ok (d, dict_has n (t_nonces d))
  | InsertNonce n origin => if dict_has n (t_nonces d) then Ok (d, 0) else Ok (set_nonces (dict_set n origin) d, 1)
  | DeleteNonce n => if dict_has n (t_nonces d) then Ok (set_nonces (dict_del n) d, 1) else Ok (d, 0)
  | InsertGossip n row => Ok (if dict_has n (t_gossip d) then d else set_gossip (dict_set n row) d, tt)
  | SelectTransactions => Ok (d, dict_values (t_transactions d))
  | SelectTips => Ok (d, t_tips d)
  | SelectPublicKeys => Ok (d, key_rows d)
  | DeleteBalances => Ok (set_balances (λ _, []) d, tt)
  | InsertRebuilt =>
      if existsb (λ w, dict_has w (t_balances d)) (dict_keys (t_wallets d)) then Err IntegrityError
      else Ok (set_balances (λ b, b ++ rebuilt_balances d) d, tt)
  | SelectVersions => Ok (d, (λ kv, (kv.1, kv.2.2)) <$> t_balances d)
  end.

(** ** The connection *)

(** [c_saves]: the savepoints that are set, innermost first, each with the tables it
    would roll back to and whether it opened the transaction *)
Record Connection : Type := {
  c_disk : LedgerTables;
  c_tables : LedgerTables;
  c_open : bool;
  c_saves : list (bool * LedgerTables)
}.

Definition NO_SAVEPOINT : exn := OperationalError "no such savepoint: balance_check".

(** [db.execute(statement)] *)
Definition db_execute (s : statement) (c : Connection) : result (answer s) * Connection :=
  let opened := c_open c || writes s in
  match run_statement s (c_tables c) with
  | Ok (d, a) => (Ok a, {| c_disk := c_disk c; c_tables := d; c_open := opened; c_saves := c_saves c |})
  | Err e => (Err e, {| c_disk := c_disk c; c_tables := c_tables c; c_open := opened; c_saves := c_saves c |})
  end.

(** [db.commit()] *)
Definition db_commit (c : Connection) : Connection :=
  {| c_disk := if c_open c then c_tables c else c_disk c; c_tables := c_tables c; c_open := false; c_saves := [] |}.

(** [SAVEPOINT balance_check] *)
Definition db_savepoint (c : Connection) : Connection :=
  {| c_disk := c_disk c; c_tables := c_tables c; c_open := true; c_saves := (negb (c_open c), c_tables c) :: c_saves c |}.

(** [RELEASE SAVEPOINT balance_check] *)
Definition db_release (c : Connection) : result unit * Connection :=
  match c_saves c with
  | [] => (Err NO_SAVEPOINT, c)
  | (true, _) :: _ => (Ok tt, db_commit c)
  | (false, _) :: saves => (Ok tt, {| c_disk := c_disk c; c_tables := c_tables c; c_open := c_open c; c_saves := saves |})
  end.

(** [ROLLBACK TO SAVEPOINT balance_check] *)
Definition db_rollback_to (c : Connection) : result unit * Connection :=
  match c_saves c with
  | [] => (Err NO_SAVEPOINT, c)
  | (_, d) :: _ => (Ok tt, {| c_disk := c_disk c; c_tables := d; c_open := c_open c; c_saves := c_saves c |})
  end.
End Run.

(** * The DAG ledger

    Models the wallets, balances, transactions and nonces of prsm/node/dag_ledger.py
    (DAGLedger).  Its methods are coroutines on one database connection and one Python
    object, both shared with every other coroutine of the node; the connection-wide write
    lock is the token [Write]. *)

#[local] Open Scope string_scope.
#[local] Open Scope list_scope.
#[local] Open Scope Z_scope.

(** ** The object *)

Record DAGState : Type := {
  d_tips : list string;
  d_transactions : dict string DAGTransaction;
  d_balance_version_cache : dict string Z;
  d_wallet_public_keys : dict string string;
  (* from_wallet, signature, public_key *)
  d_pending_verification : option (string * string * string)
}.

Definition with_tips (f : list string → list string) (m : DAGState) : DAGState :=
  {| d_tips := f (d_tips m); d_transactions := d_transactions m; d_balance_version_cache := d_balance_version_cache m;
     d_wallet_public_keys := d_wallet_public_keys m; d_pending_verification := d_pending_verification m |}.
Definition with_transactions (f : dict string DAGTransaction → dict string DAGTransaction) (m : DAGState) : DAGState :=
  {| d_tips := d_tips m; d_transactions := f (d_transactions m); d_balance_version_cache := d_balance_version_cache m;
     d_wallet_public_keys := d_wallet_public_keys m; d_pending_verification := d_pending_verification m |}.
Definition with_versions (f : dict string Z → dict string Z) (m : DAGState) : DAGState :=
  {| d_tips := d_tips m; d_transactions := d_transactions m; d_balance_version_cache := f (d_balance_version_cache m);
     d_wallet_public_keys := d_wallet_public_keys m; d_pending_verification := d_pending_verification m |}.
Definition with_key (w key : string) (m : DAGState) : DAGState :=
  {| d_tips := d_tips m; d_transactions := d_transactions m; d_balance_version_cache := d_balance_version_cache m;
     d_wallet_public_keys := dict_set w key (d_wallet_public_keys m); d_pending_verification := d_pending_verification m |}.
Definition with_pending (p : option (string * string * string)) (m : DAGState) : DAGState :=
  {| d_tips := d_tips m; d_transactions := d_transactions m; d_balance_version_cache := d_balance_version_cache m;
     d_wallet_public_keys := d_wallet_public_keys m; d_pending_verification := p |}.

(** ** The effects of its coroutines *)

Inductive token : Type := Write | Key (idempotency_key : string) | Job (job_id : string).

#[export] Instance token_eq_dec : EqDecision token.
Proof. solve_decision. Defined.
#[export] Instance token_countable : Countable token.
Proof.
  refine (inj_countable' (λ t, match t with Write => inl (inl ()) | Key k => inl (inr k) | Job j => inr j end)
            (λ x, match x with inl (inl _) => Write | inl (inr k) => Key k | inr j => Job j end) _).
  by intros [].
Defined.

#[warnings="-register-all"]
Inductive ledger_request : Type :=
| Execute (s : statement)
| Commit | SetSavepoint | ReleaseSavepoint | RollbackToSavepoint
| ReadState
| UpdateState (f : DAGState → DAGState)
(* list(tips), in the order of the set *)
| ListTips
| TimeNow | NewUuid | Random
| Acquire (t : token) | Release (t : token).

Definition ledger_io : signature := {|
  request := ledger_request;
  response := λ e, match e with
                   | Execute s => result (answer s)
                   | ReleaseSavepoint | RollbackToSavepoint => result unit
                   | ReadState => DAGState
                   | ListTips => list string
                   | TimeNow | Random => pyfloat
                   | NewUuid => string
                   | _ => unit
                   end
|}.

Record Ledger : Type := { l_db : Connection; l_state : DAGState }.
Record LedgerWorld : Type := { lw_ledger : Ledger; lw_held : gset token }.

(** Identifiers that uuid4 does not return again: those in use *)
Definition known_ids (l : Ledger) : list string :=
  dict_keys (t_transactions (c_tables (l_db l))) ++ dict_keys (d_transactions (l_state l)).

Section Exec.
Variable sql_sum : list pyfloat → pyfloat.

Definition on_db (l : Ledger) (c : Connection) : Ledger := {| l_db := c; l_state := l_state l |}.

(** Every effect but those on locks *)
Definition ledger_exec (e : ledger_request) (l : Ledger) : @response ledger_io e → Ledger → Prop :=
  match e return @response ledger_io e → Ledger → Prop with
  | Execute s => λ r l', let '(a, c) := db_execute sql_sum s (l_db l) in r = a ∧ l' = on_db l c
  | Commit => λ _ l', l' = on_db l (db_commit (l_db l))
  | SetSavepoint => λ _ l', l' = on_db l (db_savepoint (l_db l))
  | ReleaseSavepoint => λ r l', let '(a, c) := db_release (l_db l) in r = a ∧ l' = on_db l c
  | RollbackToSavepoint => λ r l', let '(a, c) := db_rollback_to (l_db l) in r = a ∧ l' = on_db l c
  | ReadState => λ r l', r = l_state l ∧ l' = l
  | UpdateState f => λ _ l', l' = {| l_db := l_db l; l_state := f (l_state l) |}
  | ListTips => λ r l', (r ≡ₚ d_tips (l_state l)) ∧ l' = l
  | NewUuid => λ r l', (r ∉ known_ids l) ∧ String.prefix "idem-" r = false ∧ l' = l
  | TimeNow | Random => λ _ l', l' = l
  | Acquire _ | Release _ => λ _ _, False
  end.

Definition world_exec (e : ledger_request) (w : LedgerWorld) (r : @response ledger_io e) (w' : LedgerWorld) : Prop :=
  match e with
  | Acquire t => (t ∉ lw_held w) ∧ w' = {| lw_ledger := lw_ledger w; lw_held := {[t]} ∪ lw_held w |}
  | Release t => w' = {| lw_ledger := lw_ledger w; lw_held := lw_held w ∖ {[t]} |}
  | _ => ledger_exec e (lw_ledger w) r (lw_ledger w') ∧ lw_held w' = lw_held w
  end.

Definition node_exec : ∀ e : ledger_io, LedgerWorld → response e → LedgerWorld → Prop := world_exec.
End Exec.

(** ** Methods *)

Abbreviation ledger := (M ledger_io unit).

Section Act.
Context {S : Type}.
Definition execute (s : statement) : M ledger_io S (answer s) := perform (E := ledger_io) (Execute s) ≫= lift.
Definition commit : M ledger_io S unit := perform (E := ledger_io) Commit.
Definition read_state : M ledger_io S DAGState := perform (E := ledger_io) ReadState.
Definition update_state (f : DAGState → DAGState) : M ledger_io S unit := perform (E := ledger_io) (UpdateState f).
Definition acquire (t : token) : M ledger_io S unit := perform (E := ledger_io) (Acquire t).
Definition release (t : token) : M ledger_io S unit := perform (E := ledger_io) (Release t).

(** [async with lock: m] *)
Definition with_lock {A} (t : token) (m : M ledger_io S A) : M ledger_io S A :=
  _ ← acquire t; r ← try m; _ ← release t; lift r.
End Act.

Section Methods.
Context {S : Type}.
Abbreviation act := (M ledger_io S).

Definition wallet_exists (w : string) : act bool := r ← execute (SelectWallet w); mret (match r with Some _ => true | None => false end).

Definition create_wallet_impl (w name : string) (public_key : option string) : act unit :=
  _ ← execute (InsertWallet w name public_key);
  _ ← commit;
  match public_key with
  | Some k => if str_nonempty k then update_state (with_key w k) else mret tt
  | None => mret tt
  end.

Definition create_wallet (w name : string) (public_key : option string) : act unit :=
  with_lock Write (create_wallet_impl w name public_key).

Definition register_wallet_public_key (w key : string) : act unit :=
  _ ← with_lock Write (_ ← execute (UpdatePublicKey w key); commit);
  update_state (with_key w key).

(** *** Bridge addresses and withdrawal nonces *)

Definition link_eth_address (w address : string) : act unit :=
  _ ← lift (raise_if (negb (str_nonempty w)) ValueError);
  _ ← lift (raise_if (negb (str_nonempty address) || negb (String.prefix "0x" address)) ValueError);
  let a := lower address in
  with_lock Write
    (_ ← execute (InsertWallet w "" None);
     _ ← execute (ClearEth a);
     _ ← execute (UpdateEth w a);
     commit).

Definition wallet_for_eth_address (address : string) : act (option string) :=
  if str_nonempty address then execute (SelectWalletByEth (lower address)) else mret None.

Definition eth_address_for_wallet (w : string) : act (option string) :=
  r ← execute (SelectWallet w); mret (r ≫= wr_eth_address).

Definition get_requires_user_signature (w : string) : act bool :=
  r ← execute (SelectWallet w); mret (from_option wr_requires_user_signature false r).

Definition set_requires_user_signature (w : string) (enabled : bool) : act unit :=
  with_lock Write
    (r ← execute (SelectWallet w);
     match r with
     | None => raise KeyError
     | Some _ => _ ← execute (UpdateRequiresSignature w enabled); commit
     end).

Definition get_next_withdraw_nonce (w : string) : act Z :=
  r ← execute (SelectWallet w); mret (from_option wr_next_withdraw_nonce 0 r).

Definition bump_withdraw_nonce (w : string) : act Z :=
  with_lock Write
    (r ← execute (SelectWallet w);
     match r with
     | None => raise KeyError
     | Some row =>
         let old := wr_next_withdraw_nonce row in
         _ ← execute (UpdateNextNonce w (old + 1)); _ ← commit; mret old
     end).

Definition compare_and_bump_withdraw_nonce (w : string) (expected : Z) : act (option Z) :=
  with_lock Write
    (r ← execute (SelectWallet w);
     match r with
     | None => raise KeyError
     | Some row =>
         let current := wr_next_withdraw_nonce row in
         if negb (current =? expected) then mret None
         else _ ← execute (UpdateNextNonce w (current + 1)); _ ← commit; mret (Some current)
     end).

(** *** Balances *)

Definition get_balance (w : string) : act pyfloat :=
  credits ← execute (SumCredits w);
  debits ← execute (SumDebits w);
  mret (fround 6 (fsub credits debits)).

Definition get_or_create_balance_cache (w : string) : act (pyfloat * Z) :=
  row ← execute (SelectBalance w);
  match row with
  | Some (balance, db_version) =>
      m ← read_state;
      match dict_get w (d_balance_version_cache m) with
      | Some version => mret (balance, version)
      | None => _ ← update_state (with_versions (dict_set w db_version)); mret (balance, db_version)
      end
  | None =>
      _ ← execute (InsertBalance w);
      _ ← update_state (with_versions (dict_set w 1));
      mret (fzero, 1)
  end.

Definition release_savepoint : act unit := perform (E := ledger_io) ReleaseSavepoint ≫= lift.
Definition rollback_to_savepoint : act unit := perform (E := ledger_io) RollbackToSavepoint ≫= lift.
Definition set_savepoint : act unit := perform (E := ledger_io) SetSavepoint.

(** [try: rollback, release  except Exception: pass] *)
Definition rollback_balance_check : act unit :=
  _ ← try (_ ← rollback_to_savepoint; release_savepoint); mret tt.

Definition mentions_locked (e : exn) : bool :=
  match e with
  | OperationalError s => match String.index 0 "database is locked" (lower s) with Some _ => true | None => false end
  | _ => false
  end.

Definition check_balance_atomic (w : string) (amount : pyfloat) : act (bool * pyfloat * Z) :=
  r ← try
    (_ ← set_savepoint;
     '(balance, version) ← get_or_create_balance_cache w;
     let has_sufficient := fle amount balance in
     _ ← (if has_sufficient then mret tt else release_savepoint);
     mret (has_sufficient, balance, version));
  match r with
  | Ok x => mret x
  | Err e => _ ← rollback_balance_check; raise (if mentions_locked e then BalanceLockError else e)
  end.

Definition commit_balance_deduction (w : string) (amount : pyfloat) (expected_version : Z) : act unit :=
  rowcount ← execute (DeductBalance w amount expected_version);
  if rowcount =? 0 then
    _ ← rollback_to_savepoint; _ ← release_savepoint; raise ConcurrentModificationError
  else
    _ ← release_savepoint;
    update_state (with_versions (dict_set w (expected_version + 1))).

Definition commit_balance_credit (w : string) (amount : pyfloat) : act unit :=
  _ ← execute (CreditBalance w amount);
  update_state (with_versions (λ v, match dict_get w v with None => dict_set w 1 v | Some n => dict_set w (n + 1) v end)).
End Methods.

(** ** Transactions *)

(** A wallet pays only with a signature, but for these. *)
Definition is_signature_required (tx_type : LedgerTxType) (from_wallet : option string) : bool :=
  match from_wallet with
  | None => false
  | Some _ => negb (bool_decide (tx_type ∈ [GENESIS; SYSTEM; BRIDGE_DEPOSIT; BRIDGE_WITHDRAW]))
  end.

(** [DAGTransaction.hash] *)
Definition tx_signing_data (tx : DAGTransaction) : jtext :=
  TObj [("tx_id", TStr (dt_tx_id tx)); ("tx_type", TStr (tx_type_value (dt_tx_type tx)));
        ("amount", TFloat (float_repr (dt_amount tx))); ("from_wallet", from_option TStr TNull (dt_from_wallet tx));
        ("to_wallet", TStr (dt_to_wallet tx)); ("timestamp", TFloat (float_repr (dt_timestamp tx)));
        ("parent_ids", TArr (TStr <$> dt_parent_ids tx))].

(** *** Choosing the parents *)

(** The first tip at which the running total of the weights reaches [r] *)
Fixpoint pick_tip (tips : list (string * pyfloat)) (cumulative r : pyfloat) : option string :=
  match tips with
  | [] => None
  | (t, w) :: tips' => let cumulative := fadd cumulative w in if fle r cumulative then Some t else pick_tip tips' cumulative r
  end.

Section Submit.
Context `{Externals}.
(** [math.exp(alpha * math.log(weight + 1))] *)
Variable tip_weight : Z → pyfloat.
Variable verify_signatures : bool.
Context {S : Type}.
Abbreviation act := (M ledger_io S).

(** [DAGSignatureManager.verify_signature] with [load_public_key_from_hex] *)
Definition signature_valid (tx_hash signature_b64 public_key_hex : string) : bool :=
  match fromhex public_key_hex, b64decode signature_b64 with
  | Some key, Some signature =>
      (zlen key =? 32) && ed25519_verify key (default (sha256 (utf8 tx_hash)) (fromhex tx_hash)) signature
  | _, _ => false
  end.

Definition tx_hash (tx : DAGTransaction) : string := json_digest (tx_signing_data tx).

(** Draws tips by weight, without replacement. *)
Fixpoint draw_tips (n : nat) (available : list (string * pyfloat)) (total : pyfloat) : act (list string) :=
  match n with
  | O => mret []
  | Datatypes.S n' =>
      match available with
      | [] => mret []
      | _ =>
          r ← perform (E := ledger_io) Random;
          match pick_tip available (float_of_int 0) (fmul r total) with
          | Some t =>
              let rest := filter (λ p, p.1 ≠ t) available in
              ts ← draw_tips n' rest (fsum rest.*2); mret (t :: ts)
          | None => draw_tips n' available (fsum available.*2)
          end
      end
  end.

Definition select_tips_mcmc (num_tips : Z) : act (list string) :=
  tips ← perform (E := ledger_io) ListTips;
  m ← read_state;
  if zlen tips <=? num_tips then mret tips
  else
    let weighted := (λ t, (t, match dict_get t (d_transactions m) with
                              | Some tx => tip_weight (dt_cumulative_weight tx)
                              | None => float_of_int 1
                              end)) <$> tips in
    let total := fsum weighted.*2 in
    if feq total fzero then mret (take (Z.to_nat num_tips) tips) else draw_tips (Z.to_nat num_tips) weighted total.

Definition children (tx_id : string) (txs : dict string DAGTransaction) : list string :=
  fst <$> filter (λ kv : string * DAGTransaction, tx_id ∈ dt_parent_ids kv.2) txs.

(** [_store_transaction] *)
Definition store_transaction (tx : DAGTransaction) : act unit := execute (InsertTransaction tx).

Definition CONFIRMATION_THRESHOLD : Z := 100.

Definition confirmation (weight : Z) : pyfloat :=
  let q := int_div weight CONFIRMATION_THRESHOLD in if flt q (float_of_int 1) then q else float_of_int 1.

(** The queue of [_update_weights]; [fuel] bounds the number of pops. *)
Fixpoint update_weights_loop (fuel : nat) (queue to_update : list string) : act unit :=
  match fuel, queue with
  | Datatypes.S fuel', tx_id :: queue' =>
      if bool_decide (tx_id ∈ to_update) then update_weights_loop fuel' queue' to_update
      else
        let to_update := tx_id :: to_update in
        m ← read_state;
        match dict_get tx_id (d_transactions m) with
        | None => update_weights_loop fuel' queue' to_update
        | Some tx =>
            let weight := dt_cumulative_weight tx + 1 in
            let level := confirmation weight in
            _ ← update_state (with_transactions (dict_set tx_id (with_weight weight level tx)));
            _ ← execute (UpdateWeight tx_id weight level);
            m ← read_state;
            update_weights_loop fuel' (queue' ++ filter (λ c, c ∉ to_update) (children tx_id (d_transactions m))) to_update
        end
  | _, _ => mret tt
  end.

(** Pops that are enough: every transaction is expanded once.  While the lock is held the
    row just stored is the only one another coroutine may add to the object. *)
Definition weights_fuel (parents : list string) (txs : dict string DAGTransaction) : nat :=
  length parents + Datatypes.S (length txs) * Datatypes.S (length txs).

Definition update_weights (tx : DAGTransaction) : act unit :=
  m ← read_state;
  update_weights_loop (weights_fuel (dt_parent_ids tx) (d_transactions m)) (dt_parent_ids tx) [].

(** [get_transaction]: the object's copy, or the row, which the object then keeps. *)
Definition get_transaction (tx_id : string) : act (option DAGTransaction) :=
  m ← read_state;
  match dict_get tx_id (d_transactions m) with
  | Some tx => mret (Some tx)
  | None =>
      row ← execute (SelectTransaction tx_id);
      match row with
      | Some tx => _ ← update_state (with_transactions (dict_set tx_id tx)); mret (Some tx)
      | None => mret None
      end
  end.

(** The name a wallet gets when a transaction first mentions it *)
Definition default_name (w : string) : string := "wallet-" +:+ stake 8 w.

Definition ensure_wallet (w : string) (public_key : option string) : act unit :=
  e ← wallet_exists w; if e : bool then mret tt else create_wallet_impl w (default_name w) public_key.

(** Checks before the transaction is made: what is to be verified of it *)
Definition signature_to_verify (tx_type : LedgerTxType) (from_wallet signature public_key : option string)
  : act unit :=
  match from_wallet with
  | Some w =>
      if verify_signatures && is_signature_required tx_type from_wallet then
        match signature with
        | Some s =>
            if negb (str_nonempty s) then raise MissingSignatureError
            else
              m ← read_state;
              let key := match public_key with
                         | Some k => if str_nonempty k then Some k else dict_get w (d_wallet_public_keys m)
                         | None => dict_get w (d_wallet_public_keys m)
                         end in
              match key with
              | Some k => if str_nonempty k then update_state (with_pending (Some (w, s, k))) else raise MissingSignatureError
              | None => raise MissingSignatureError
              end
        | None => raise MissingSignatureError
        end
      else update_state (with_pending None)
  | None => update_state (with_pending None)
  end.

Definition verify_pending (tx : DAGTransaction) : act unit :=
  m ← read_state;
  match d_pending_verification m with
  | None => mret tt
  | Some (_, s, k) =>
      _ ← update_state (with_pending None);
      if signature_valid (tx_hash tx) s k then mret tt else raise InvalidSignatureError
  end.

(** The tips that the new transaction approves are tips no longer. *)
Fixpoint discard_tips (parents : list string) : act unit :=
  match parents with
  | [] => mret tt
  | p :: parents' =>
      m ← read_state;
      _ ← (if bool_decide (p ∈ d_tips m) then
             _ ← update_state (with_tips (filter (λ x, x ≠ p))); execute (DeleteTip p)
           else mret tt);
      discard_tips parents'
  end.

Definition MAX_PARENTS : Z := 4.

Definition tip_add (x : string) (l : list string) : list string := if decide (x ∈ l) then l else l ++ [x].

Record TxArgs : Type := {
  ta_tx_type : LedgerTxType;
  ta_amount : pyfloat;
  ta_from_wallet : option string;
  ta_to_wallet : string;
  ta_description : string;
  ta_signature : option string;
  ta_public_key : option string
}.

(** [if from_wallet]: the empty name is no wallet. *)
Definition payer (a : TxArgs) : option string :=
  match ta_from_wallet a with Some w => if str_nonempty w then Some w else None | None => None end.

(** The row of the new transaction, which becomes a tip in place of its parents *)
Definition append_transaction (tx : DAGTransaction) : act unit :=
  _ ← store_transaction tx;
  _ ← discard_tips (dt_parent_ids tx);
  _ ← update_state (with_tips (tip_add (dt_tx_id tx)));
  _ ← execute (InsertTip (dt_tx_id tx));
  update_weights tx.

(** The deduction, which ends the balance check, and the credit, each committed *)
Definition move_balances (a : TxArgs) (balance_version : option Z) : act unit :=
  _ ← match payer a, balance_version with
      | Some w, Some v => commit_balance_deduction w (ta_amount a) v
      | _, _ => commit
      end;
  _ ← (if str_nonempty (ta_to_wallet a) then commit_balance_credit (ta_to_wallet a) (ta_amount a) else mret tt);
  commit.

(** *** The critical section

    It runs with the write lock.  [submit_checked] is what precedes the balance check and
    the check itself, [submit_rest] what follows it. *)
Definition submit_checked (a : TxArgs) : act (option Z) :=
  _ ← match payer a with Some w => ensure_wallet w (ta_public_key a) | None => mret tt end;
  _ ← ensure_wallet (ta_to_wallet a) None;
  match payer a with
  | Some w => '(has_sufficient, _, version) ← check_balance_atomic w (ta_amount a);
              if has_sufficient : bool then mret (Some version) else raise InsufficientBalanceError
  | None => mret None
  end.

Definition submit_rest (a : TxArgs) (idempotent_tx_id : option string) (balance_version : option Z) : act DAGTransaction :=
  _ ← signature_to_verify (ta_tx_type a) (ta_from_wallet a) (ta_signature a) (ta_public_key a);
  m ← read_state;
  parent_ids ← select_tips_mcmc (Z.min MAX_PARENTS (zlen (d_tips m)));
  tx_id ← match idempotent_tx_id with Some id => mret id | None => perform (E := ledger_io) NewUuid end;
  timestamp ← perform (E := ledger_io) TimeNow;
  m ← read_state;
  let registered := match payer a with Some w => dict_get w (d_wallet_public_keys m) | None => None end in
  let tx := {| dt_tx_id := tx_id; dt_tx_type := ta_tx_type a; dt_amount := ta_amount a; dt_from_wallet := ta_from_wallet a;
               dt_to_wallet := ta_to_wallet a; dt_timestamp := timestamp; dt_signature := ta_signature a;
               dt_public_key := match ta_public_key a with Some k => if str_nonempty k then Some k else registered | None => registered end;
               dt_description := ta_description a; dt_parent_ids := parent_ids; dt_cumulative_weight := 1;
               dt_confirmation_level := fzero |} in
  _ ← verify_pending tx;
  _ ← append_transaction tx;
  _ ← move_balances a balance_version;
  _ ← update_state (with_transactions (dict_set tx_id tx));
  mret tx.

(** After these errors the balance check is not rolled back again. *)
Definition is_atomic_error (e : exn) : bool :=
  match e with InsufficientBalanceError | ConcurrentModificationError | BalanceLockError => true | _ => false end.

Definition submit_locked (a : TxArgs) (idempotent_tx_id : option string) : act DAGTransaction :=
  version ← submit_checked a;
  r ← try (submit_rest a idempotent_tx_id version);
  match r with
  | Ok tx => mret tx
  | Err e =>
      _ ← match version with
          | Some _ => if is_atomic_error e then mret tt else rollback_balance_check
          | None => mret tt
          end;
      raise e
  end.

Definition submit_transaction (a : TxArgs) (idempotent_tx_id : option string) : act DAGTransaction :=
  _ ← lift (raise_if (negb (is_finite (ta_amount a)) || flt (ta_amount a) fzero) ValueError);
  existing ← match idempotent_tx_id with Some id => get_transaction id | None => mret None end;
  match existing with
  | Some tx => mret tx
  | None => with_lock Write (submit_locked a idempotent_tx_id)
  end.

(** ** The start

    [_load_state] builds each transaction from two selects: the weights and the parents
    of the first, the rest of the second. *)
Definition loaded_transaction (row row2 : DAGTransaction) : DAGTransaction :=
  {| dt_tx_id := dt_tx_id row; dt_tx_type := dt_tx_type row2; dt_amount := dt_amount row2; dt_from_wallet := dt_from_wallet row2;
     dt_to_wallet := dt_to_wallet row2; dt_timestamp := dt_timestamp row2; dt_signature := dt_signature row2;
     dt_public_key := dt_public_key row2; dt_description := dt_description row2; dt_parent_ids := dt_parent_ids row;
     dt_cumulative_weight := dt_cumulative_weight row; dt_confirmation_level := dt_confirmation_level row |}.

Definition INITIAL_SUPPLY : pyfloat := lit "1000000000.0".

Definition genesis : DAGTransaction :=
  {| dt_tx_id := "genesis"; dt_tx_type := GENESIS; dt_amount := INITIAL_SUPPLY; dt_from_wallet := None; dt_to_wallet := "network";
     dt_timestamp := fzero; dt_signature := None; dt_public_key := None;
     dt_description := "Genesis transaction - initial FTNS supply"; dt_parent_ids := []; dt_cumulative_weight := 1;
     dt_confirmation_level := fzero |}.

Definition create_genesis : act unit :=
  _ ← store_transaction genesis;
  _ ← update_state (with_tips (tip_add (dt_tx_id genesis)));
  _ ← execute (InsertTip "genesis");
  commit.

Definition load_state : act unit :=
  rows ← execute SelectTransactions;
  _ ← for_each rows (λ row,
        row2 ← execute (SelectTransaction (dt_tx_id row));
        match row2 with
        | Some row2 => update_state (with_transactions (dict_set (dt_tx_id row) (loaded_transaction row row2)))
        | None => mret tt
        end);
  tips ← execute SelectTips;
  _ ← for_each tips (λ t, update_state (with_tips (tip_add t)));
  keys ← execute SelectPublicKeys;
  _ ← for_each keys (λ kv : string * string, update_state (with_key kv.1 kv.2));
  m ← read_state;
  match d_transactions m with [] => create_genesis | _ => mret tt end.

(** The balances in [PRSMNode._seed_welcome_grant], before its grant *)
Definition rebuild_balances : act unit :=
  _ ← execute DeleteBalances;
  _ ← execute InsertRebuilt;
  _ ← commit;
  _ ← update_state (with_versions (λ _, []));
  rows ← execute SelectVersions;
  for_each rows (λ kv : string * Z, update_state (with_versions (dict_set kv.1 kv.2))).

(** ** What is called *)

Definition idempotent_id (key : option string) : option string :=
  match key with
  | Some k => if str_nonempty k then Some ("idem-" +:+ stake 48 (sha256_hex (utf8 k))) else None
  | None => None
  end.

Definition tx_args (t : LedgerTxType) (amount : pyfloat) (from : option string) (to description : string)
  (signature public_key : option string) : TxArgs :=
  {| ta_tx_type := t; ta_amount := amount; ta_from_wallet := from; ta_to_wallet := to; ta_description := description;
     ta_signature := signature; ta_public_key := public_key |}.

Definition transfer (from to : string) (amount : pyfloat) (description : string) (signature public_key : option string) : act DAGTransaction :=
  submit_transaction (tx_args TRANSFER amount (Some from) to description signature public_key) None.

Definition credit (w : string) (amount : pyfloat) (t : LedgerTxType) (description : string) (signature public_key : option string)
  (idempotency_key : option string) : act DAGTransaction :=
  submit_transaction (tx_args t amount None w description signature public_key) (idempotent_id idempotency_key).

Definition debit (w : string) (amount : pyfloat) (t : LedgerTxType) (description : string) (signature public_key : option string)
  : act DAGTransaction :=
  balance ← get_balance w;
  _ ← lift (raise_if (flt balance amount) ValueError);
  submit_transaction (tx_args t amount (Some w) "system" description signature public_key) None.

Definition issue_welcome_grant (w : string) (amount : pyfloat) : act DAGTransaction :=
  granted ← execute (SelectGrant w);
  _ ← lift (raise_if granted ValueError);
  credit w amount WELCOME_GRANT ("Welcome grant of " +:+ float_repr amount +:+ " FTNS") None None (Some ("welcome-grant:" +:+ w)).

Definition approve_transaction (approver tx_id : string) : act (option DAGTransaction) :=
  m ← read_state;
  match dict_get tx_id (d_transactions m) with
  | None => mret None
  | Some _ =>
      tx ← submit_transaction (tx_args APPROVAL (float_of_int 0) (Some approver) tx_id
             ("Approving transaction " +:+ stake 16 tx_id +:+ "...") None None) None;
      mret (Some tx)
  end.

Definition has_transaction (tx_id : string) : act bool :=
  r ← execute (SelectTransaction tx_id); mret (match r with Some _ => true | None => false end).

Definition has_seen_nonce (nonce : string) : act bool := execute (SelectNonce nonce).

Definition record_nonce (nonce origin : string) : act bool :=
  with_lock Write (n ← execute (InsertNonce nonce origin); _ ← commit; mret (n =? 1)).

Definition release_nonce (nonce : string) : act bool :=
  with_lock Write (n ← execute (DeleteNonce nonce); _ ← commit; mret (n =? 1)).

(** [LedgerNodeServicesMixin.log_gossip]: without the write lock *)
Definition log_gossip (nonce row : string) : act unit :=
  _ ← execute (InsertGossip nonce row); commit.
End Submit.
