(* ===== verification/DagSteps.v ===== *)
(** * Reasoning about the DAG ledger's coroutines

    A coroutine that holds the write lock owns the database and, of the object, the tips,
    the version cache and the pending verification ([Core]): nobody else changes them.
    What it does there can be proved with the sequential [wp] and holds however the
    coroutines interleave ([rg_locked]). *)
From Stdlib Require Import ZArith Lia.
From S2P Require Import PyStd.
From S2P Require Import Externals.
From S2P Require Import Effects.
From S2P Require Import PyNumbers.
From S2P Require Import DagLedger.
From S2P Require Import Prelude.
From stdpp Require Import relations.

#[local] Open Scope string_scope.
#[local] Open Scope list_scope.
#[local] Open Scope Z_scope.

Record Core : Type := {
  co_db : Connection;
  co_tips : list string;
  co_versions : dict string Z;
  co_pending : option (string * string * string)
}.

Definition core (l : Ledger) : Core :=
  {| co_db := l_db l; co_tips := d_tips (l_state l); co_versions := d_balance_version_cache (l_state l);
     co_pending := d_pending_verification (l_state l) |}.

Definition tables (c : Core) : LedgerTables := c_tables (co_db c).
Definition has_tx (c : Core) (id : string) : bool := dict_has id (t_transactions (tables c)).

Definition in_db (c : Core) (db : Connection) : Core :=
  {| co_db := db; co_tips := co_tips c; co_versions := co_versions c; co_pending := co_pending c |}.

Section Logic.
Variable sql_sum : list pyfloat → pyfloat.

(** An effect as the owner of the core sees it: the rest of the object is anything. *)
Definition core_exec (e : ledger_io) (c : Core) (r : response e) (c' : Core) : Prop :=
  ∃ l l', core l = c ∧ core l' = c' ∧ ledger_exec sql_sum e l r l'.

Abbreviation cwp := (wpm core_exec).

Section Effects.
Context {S : Type} (I : Core → Prop).
Implicit Type st : S.

Lemma cwp_perform (e : ledger_request) (Q : result (@response ledger_io e) → S → Core → Prop) st c :
  I c → (∀ r c', core_exec e c r c' → I c' ∧ Q (Ok r) st c') → cwp I (perform (E := ledger_io) e) Q st c.
Proof. apply (wpm_perform (E := ledger_io) core_exec I e). Qed.

Lemma cwp_execute s (Q : result (answer s) → S → Core → Prop) st c :
  I c → (let '(a, db) := db_execute sql_sum s (co_db c) in I (in_db c db) ∧ Q a st (in_db c db)) →
  cwp I (execute s) Q st c.
Proof.
  intros Hi H. unfold execute. apply wpm_bind. apply cwp_perform; [done|]. intros r c' (l & l' & <- & <- & Hx).
  simpl in Hx. change (co_db (core l)) with (l_db l) in H. destruct (db_execute sql_sum s (l_db l)) as [a db]. destruct Hx as [-> ->].
  destruct H as [Hi' Hq]. split; [exact Hi'|]. apply wpm_lift; [exact Hi' | exact Hq].
Qed.

Lemma cwp_commit Q st c :
  I c → I (in_db c (db_commit (co_db c))) → Q (Ok tt) st (in_db c (db_commit (co_db c))) → cwp I commit Q st c.
Proof.
  intros Hi Hi' Hq. apply cwp_perform; [done|]. intros [] c' (l & l' & <- & <- & Hx). simpl in Hx. subst l'. by split.
Qed.

Lemma cwp_set_savepoint Q st c :
  I c → I (in_db c (db_savepoint (co_db c))) → Q (Ok tt) st (in_db c (db_savepoint (co_db c))) → cwp I set_savepoint Q st c.
Proof.
  intros Hi Hi' Hq. apply cwp_perform; [done|]. intros [] c' (l & l' & <- & <- & Hx). simpl in Hx. subst l'. by split.
Qed.

Lemma cwp_release_savepoint (Q : result unit → S → Core → Prop) st c :
  I c → (let '(a, db) := db_release (co_db c) in I (in_db c db) ∧ Q a st (in_db c db)) → cwp I release_savepoint Q st c.
Proof.
  intros Hi H. unfold release_savepoint. apply wpm_bind. apply cwp_perform; [done|]. intros r c' (l & l' & <- & <- & Hx).
  simpl in Hx. change (co_db (core l)) with (l_db l) in H. destruct (db_release (l_db l)) as [a db]. destruct Hx as [-> ->].
  destruct H as [Hi' Hq]. split; [exact Hi'|]. apply wpm_lift; [exact Hi' | exact Hq].
Qed.

(** What is read of the object is the core, and anything else. *)
Lemma cwp_read_state (Q : result DAGState → S → Core → Prop) st c :
  I c → (∀ m, d_tips m = co_tips c → d_balance_version_cache m = co_versions c → d_pending_verification m = co_pending c →
          Q (Ok m) st c) → cwp I read_state Q st c.
Proof.
  intros Hi Hq. apply cwp_perform; [done|]. intros m c' (l & l' & <- & <- & Hx). simpl in Hx. destruct Hx as [-> ->].
  split; [done | by apply Hq].
Qed.

Lemma cwp_list_tips (Q : result (list string) → S → Core → Prop) st c :
  I c → (∀ ts, ts ≡ₚ co_tips c → Q (Ok ts) st c) → cwp I (perform (E := ledger_io) ListTips) Q st c.
Proof.
  intros Hi Hq. apply cwp_perform; [done|]. intros m c' (l & l' & <- & <- & Hx). simpl in Hx. destruct Hx as [Hp ->].
  split; [done | by apply Hq].
Qed.

Lemma cwp_new_uuid (Q : result string → S → Core → Prop) st c :
  I c → (∀ id, has_tx c id = false → String.prefix "idem-" id = false → Q (Ok id) st c) →
  cwp I (perform (E := ledger_io) NewUuid) Q st c.
Proof.
  intros Hi Hq. apply cwp_perform; [done|]. intros id c' (l & l' & <- & <- & Hx). simpl in Hx, id. destruct Hx as (Hn & Hp & ->).
  split; [done|]. apply Hq; [|done]. unfold known_ids in Hn. rewrite elem_of_app in Hn.
  unfold has_tx, dict_has, tables. change (co_db (core l)) with (l_db l).
  assert (dict_get id (t_transactions (c_tables (l_db l))) = None) as -> by (apply dict_get_None; tauto). done.
Qed.

Lemma cwp_time (Q : result pyfloat → S → Core → Prop) st c :
  I c → (∀ t, Q (Ok t) st c) → cwp I (perform (E := ledger_io) TimeNow) Q st c.
Proof.
  intros Hi Hq. apply cwp_perform; [done|]. intros m c' (l & l' & <- & <- & Hx). simpl in Hx. subst l'. split; [done | by apply Hq].
Qed.

Lemma cwp_random (Q : result pyfloat → S → Core → Prop) st c :
  I c → (∀ t, Q (Ok t) st c) → cwp I (perform (E := ledger_io) Random) Q st c.
Proof.
  intros Hi Hq. apply cwp_perform; [done|]. intros m c' (l & l' & <- & <- & Hx). simpl in Hx. subst l'. split; [done | by apply Hq].
Qed.

(** An update of the object that changes the core as [g] does *)
Lemma cwp_update_state f (g : Core → Core) (Q : result unit → S → Core → Prop) st c :
  (∀ l, core {| l_db := l_db l; l_state := f (l_state l) |} = g (core l)) →
  I c → I (g c) → Q (Ok tt) st (g c) → cwp I (update_state f) Q st c.
Proof.
  intros Hg Hi Hi' Hq. apply cwp_perform; [done|]. intros [] c' (l & l' & <- & <- & Hx). simpl in Hx. subst l'. rewrite Hg. by split.
Qed.
End Effects.

(** ** Interleaving *)

Definition lock_after (e : ledger_io) (L : gset token) : gset token :=
  match (e : ledger_request) with Acquire t => {[t]} ∪ L | Release t => L ∖ {[t]} | _ => L end.

Definition lw_core (w : LedgerWorld) : Core := core (lw_ledger w).

(** The write lock protects the core, a key's token the presence of its transaction. *)
Definition ledger_rely (L : gset token) (w w' : LedgerWorld) : Prop :=
  (Write ∈ L → lw_core w' = lw_core w) ∧
  ∀ id, Key id ∈ L → has_tx (lw_core w') id = has_tx (lw_core w) id.

Lemma ledger_rely_refl L w : ledger_rely L w w.
Proof. by split. Qed.
Lemma ledger_rely_trans L w1 w2 w3 : ledger_rely L w1 w2 → ledger_rely L w2 w3 → ledger_rely L w1 w3.
Proof. intros [H1 K1] [H2 K2]. split; [intros H; by rewrite H2, H1|]. intros id H. by rewrite K2, K1. Qed.

Section Inv.
(** What holds of the core whenever nobody has the lock *)
Variable J : Core → Prop.

Definition lock_inv (w : LedgerWorld) : Prop :=
  (Write ∉ lw_held w → J (lw_core w)) ∧ ∀ id, Key id ∈ lw_held w → String.prefix "idem-" id = true.

Abbreviation lrg := (rg (node_exec sql_sum) lw_held lock_after ledger_rely lock_inv).

Definition is_lock_op (e : ledger_request) : bool := match e with Acquire _ | Release _ => true | _ => false end.

Lemma world_exec_core (e : ledger_request) w r w' :
  is_lock_op e = false → world_exec sql_sum e w r w' →
  core_exec e (lw_core w) r (lw_core w') ∧ lw_held w' = lw_held w ∧ lock_after e = id.
Proof.
  intros Hl Hx. destruct e; try done; destruct Hx as [Hx Hh]; (split; [|by split]);
    exists (lw_ledger w), (lw_ledger w'); by split_and!.
Qed.

Lemma core_exec_lock (e : ledger_request) c r c' : core_exec e c r c' → is_lock_op e = false.
Proof. intros (l & l' & _ & _ & Hx). by destruct e. Qed.

(** A coroutine without lock operations.  [wp] does not see those: they are no effect on
    the core. *)
Fixpoint lock_free {A} (p : prog ledger_io A) : Prop :=
  match p with Ret _ => True | Do e k => is_lock_op e = false ∧ ∀ r, lock_free (k r) end.

Lemma lock_free_bind {A B} (p : prog ledger_io A) (f : A → prog ledger_io B) :
  lock_free p → (∀ a, lock_free (f a)) → lock_free (prog_bind p f).
Proof. intros Hp Hf. induction p as [a|e k IH]; simpl; [apply Hf|]. destruct Hp as [He Hk]. split; [done|]. intros r. by apply IH. Qed.

(** The keys whose transactions are as in [c0], but for those in [L] *)
Definition keys_kept (L : gset token) (c0 c : Core) : Prop := ∀ id, Key id ∉ L → String.prefix "idem-" id = true → has_tx c id = has_tx c0 id.

(** What a coroutine that holds the write lock does, step by step *)
Lemma rg_locked {A} L c0 (p : prog ledger_io A) (Q : A → Core → Prop) w :
  Write ∈ L → lock_free p → wp core_exec (keys_kept L c0) p Q (lw_core w) →
  lrg L p (λ a L' w', L' = L ∧ Q a (lw_core w') ∧ keys_kept L c0 (lw_core w')) w.
Proof.
  intros HW. revert w. induction p as [a|e k IH]; intros w Hf Hp; simpl in *.
  - destruct Hp as [Hk Hq]. by split_and!.
  - destruct Hp as [Hk Hp]. destruct Hf as [He Hf]. intros w1 [Hr _] [_ Hi] HL r w2 Hx. specialize (Hr HW).
    destruct (world_exec_core _ _ _ _ He Hx) as (Hc & Hh & Ha). rewrite Hr in Hc.
    pose proof (Hp r (lw_core w2) Hc) as Hp2. assert (keys_kept L c0 (lw_core w2)) as Hk2 by (by apply wp_crash in Hp2).
    rewrite Ha. unfold id. split_and!.
    + split; [intros Hn; destruct Hn; rewrite Hh; by apply HL | by rewrite Hh].
    + intros M HM. split; [intros HWM; apply HM in HWM; set_solver|]. intros id Hid. apply HM in Hid as Hid'.
      apply elem_of_difference in Hid' as [Hheld HnL]. apply Hi in Hheld. rewrite Hk2, Hr, Hk by done. done.
    + rewrite Hh. apply set_eq. intros t. rewrite elem_of_union, elem_of_difference. destruct (decide (t ∈ L)); set_solver.
    + set_solver.
    + by apply IH.
Qed.
(** *** Rules for methods *)

Definition lrgm {S A} (L : gset token) (m : M ledger_io S A) (Q : result A → S → gset token → LedgerWorld → Prop)
  (s : S) (w : LedgerWorld) : Prop := lrg L (m s) (λ rs L' w', Q rs.1 rs.2 L' w') w.

Section Rules.
Context {S : Type}.
Implicit Types (s : S) (L : gset token) (w : LedgerWorld).

Lemma lrgm_mono {A} L (m : M ledger_io S A) (Q Q' : result A → S → gset token → LedgerWorld → Prop) s w :
  lrgm L m Q s w → (∀ r s L w, Q r s L w → Q' r s L w) → lrgm L m Q' s w.
Proof. intros Hm HQ. eapply rg_mono; [|exact Hm]. intros [r s'] L' w'. apply HQ. Qed.

Lemma lrgm_bind {A B} L (m : M ledger_io S A) (f : A → M ledger_io S B) Q s w :
  lrgm L m (λ r s' L' w', match r with Ok a => lrgm L' (f a) Q s' w' | Err e => Q (Err e) s' L' w' end) s w →
  lrgm L (m ≫= f) Q s w.
Proof.
  intros Hm. unfold lrgm, mbind, M_bind. apply rg_bind. eapply rg_mono; [|exact Hm]. by intros [[a|e] s'] L' w'.
Qed.

Lemma lrgm_try {A} L (m : M ledger_io S A) (Q : result (result A) → S → gset token → LedgerWorld → Prop) s w :
  lrgm L m (λ r s' L' w', Q (Ok r) s' L' w') s w → lrgm L (try m) Q s w.
Proof. intros Hm. unfold lrgm, try. apply rg_bind. eapply rg_mono; [|exact Hm]. by intros [r s'] L' w'. Qed.

(** An effect that is not on locks and leaves the core alone *)
Lemma lrgm_quiet (e : ledger_request) L (Q : result (@response ledger_io e) → S → gset token → LedgerWorld → Prop) s w :
  is_lock_op e = false → (∀ c r c', core_exec e c r c' → c' = c) →
  (∀ w1 w2 r, ledger_rely L w w1 → core_exec e (lw_core w1) r (lw_core w2) → lw_core w2 = lw_core w1 → Q (Ok r) s L w2) →
  lrgm L (perform (E := ledger_io) e) Q s w.
Proof.
  intros Hl Hq HQ w1 Hr [Hj Hk] HL r w2 Hx. destruct (world_exec_core _ _ _ _ Hl Hx) as (Hc & Hh & Ha).
  pose proof (Hq _ _ _ Hc) as Heq. rewrite Ha. unfold id. split_and!.
  - split; rewrite Hh; [by rewrite Heq | done].
  - intros M _. split; by rewrite Heq.
  - rewrite Hh. apply set_eq. intros t. rewrite elem_of_union, elem_of_difference. destruct (decide (t ∈ L)); set_solver.
  - set_solver.
  - by apply (HQ w1).
Qed.

Lemma lrgm_acquire t L (Q : result unit → S → gset token → LedgerWorld → Prop) s w :
  (∀ id, t = Key id → String.prefix "idem-" id = true) →
  (∀ w1 w2, ledger_rely L w w1 → lw_core w2 = lw_core w1 → (t = Write → J (lw_core w2)) → Q (Ok tt) s ({[t]} ∪ L) w2) →
  lrgm L (acquire t) Q s w.
Proof.
  intros Ht HQ w1 Hr [Hj Hk] HL [] w2 [Hn ->]. simpl. split_and!.
  - split; simpl.
    + intros Hw. apply Hj. set_solver.
    + intros id [Hid%elem_of_singleton|Hid]%elem_of_union; [by apply Ht | by apply Hk].
  - intros M _. by split.
  - apply set_eq. intros x. rewrite !elem_of_union, elem_of_difference. destruct (decide (x ∈ L)); set_solver.
  - set_solver.
  - apply (HQ w1); [done | done |]. intros ->. by apply Hj.
Qed.

Lemma lrgm_release t L (Q : result unit → S → gset token → LedgerWorld → Prop) s w :
  t ∈ L → (t = Write → J (lw_core w)) →
  (∀ w1 w2, ledger_rely L w w1 → lw_core w2 = lw_core w1 → Q (Ok tt) s (L ∖ {[t]}) w2) →
  lrgm L (release t) Q s w.
Proof.
  intros Ht HJ HQ w1 Hr [Hj Hk] HL [] w2 Hx. unfold node_exec, world_exec in Hx. subst w2. simpl. split_and!.
  - split; simpl.
    + intros Hw. destruct (decide (t = Write)) as [->|Hne].
      * destruct Hr as [Hr _]. unfold lw_core in *. simpl. rewrite Hr by done. by apply HJ.
      * apply Hj. set_solver.
    + intros id Hid. apply Hk. set_solver.
  - intros M _. by split.
  - apply set_eq. intros x. rewrite elem_of_union, !elem_of_difference. destruct (decide (x ∈ L)), (decide (x = t)); set_solver.
  - set_solver.
  - by apply (HQ w1).
Qed.

Lemma lrgm_ret {A} L (r : result A) (Q : result A → S → gset token → LedgerWorld → Prop) s w :
  Q r s L w → lrgm L (lift r) Q s w.
Proof. done. Qed.

(** [async with write_lock: m], where [m] keeps [J] *)
Lemma lrgm_with_lock {A} L (m : M ledger_io S A) s w :
  Write ∉ L → (∀ s, lock_free (m s)) →
  (∀ w1 c, ledger_rely L w w1 → J c → (∀ id, Key id ∈ L → has_tx c id = has_tx (lw_core w1) id) →
     wpm core_exec (keys_kept L c) m (λ _ _ c', J c') s c) →
  lrgm L (with_lock Write m) (λ _ _ L' _, L' = L) s w.
Proof.
  intros HnL Hf Hm. unfold with_lock. apply lrgm_bind, lrgm_acquire; [done|]. intros w1 w2 Hr Hc HJ. specialize (HJ eq_refl).
  apply lrgm_bind, lrgm_try.
  assert (wp core_exec (keys_kept ({[Write]} ∪ L) (lw_core w2)) (m s) (λ rs c', J c') (lw_core w2)) as Hw.
  { eapply wp_weaken; [|apply (Hm w1 (lw_core w2) Hr HJ)].
    - intros c' Hk id Hid. apply Hk. set_solver.
    - intros id _. by rewrite Hc. }
  eapply rg_mono; [|apply (rg_locked ({[Write]} ∪ L) (lw_core w2) (m s) (λ _ c', J c') w2); [set_solver | apply Hf | exact Hw]].
  intros [r s'] L' w' (-> & HJ' & _). simpl. apply lrgm_bind, lrgm_release; [set_solver | done |].
  intros w3 w4 _ _. apply lrgm_ret. set_solver.
Qed.
End Rules.
End Inv.

(** *** Methods without lock operations *)

Section LockFree.
Context {S : Type}.

Definition lock_freem {A} (m : M ledger_io S A) : Prop := ∀ s, lock_free (m s).

Lemma lock_freem_ret {A} (a : A) : lock_freem (mret a).
Proof. done. Qed.
Lemma lock_freem_lift {A} (r : result A) : lock_freem (lift r).
Proof. done. Qed.
Lemma lock_freem_raise {A} e : lock_freem (raise e : M ledger_io S A).
Proof. done. Qed.
Lemma lock_freem_perform (e : ledger_request) : is_lock_op e = false → lock_freem (perform (E := ledger_io) e).
Proof. by intros He s. Qed.
Lemma lock_freem_bind {A B} (m : M ledger_io S A) (f : A → M ledger_io S B) :
  lock_freem m → (∀ a, lock_freem (f a)) → lock_freem (m ≫= f).
Proof. intros Hm Hf s. apply lock_free_bind; [apply Hm|]. intros [[a|e] s']; [apply Hf | done]. Qed.
Lemma lock_freem_try {A} (m : M ledger_io S A) : lock_freem m → lock_freem (try m).
Proof. intros Hm s. apply lock_free_bind; [apply Hm|]. done. Qed.
Lemma lock_freem_execute s : lock_freem (execute s).
Proof. apply lock_freem_bind; [by apply lock_freem_perform | intros; apply lock_freem_lift]. Qed.
End LockFree.
End Logic.

Create HintDb lock_free.
#[export] Hint Resolve lock_freem_ret lock_freem_lift lock_freem_raise lock_freem_execute : lock_free.

(** Proves [lock_freem] of straight-line code. *)
Ltac lock_free :=
  repeat first
    [ progress (intros; subst) | assumption
    | solve [simple apply lock_freem_ret | auto 1 with lock_free nocore]
    | apply lock_freem_ret | apply lock_freem_lift | apply lock_freem_raise | apply lock_freem_execute
    | apply lock_freem_perform; reflexivity
    | apply lock_freem_bind | apply lock_freem_try
    | case_match ].

(** * What the DAG ledger does while it holds the write lock

    Sequential specifications of the steps of submit_transaction
    (prsm/node/dag_ledger.py), over the core of the ledger. *)

#[local] Open Scope string_scope.
#[local] Open Scope list_scope.
#[local] Open Scope Z_scope.

(** A core, field by field *)
Definition core_at (disk t : LedgerTables) (open : bool) (saves : list (bool * LedgerTables)) (tips : list string)
  (vs : dict string Z) (p : option (string * string * string)) : Core :=
  {| co_db := {| c_disk := disk; c_tables := t; c_open := open; c_saves := saves |}; co_tips := tips; co_versions := vs;
     co_pending := p |}.

(** Nothing is pending in the database. *)
Definition idle (t : LedgerTables) := core_at t t false [].

(** Only wallets were added. *)
Record same_money (t t' : LedgerTables) : Prop := {
  sm_transactions : t_transactions t' = t_transactions t;
  sm_balances : t_balances t' = t_balances t;
  sm_tips : t_tips t' = t_tips t;
  sm_wallets x : dict_has x (t_wallets t) = true → dict_has x (t_wallets t') = true
}.

Lemma same_money_refl t : same_money t t.
Proof. by split. Qed.
Lemma same_money_trans t1 t2 t3 : same_money t1 t2 → same_money t2 t3 → same_money t1 t3.
Proof. intros [? ? ? H1] [? ? ? H2]. split; try congruence. auto. Qed.

Lemma dict_has_set {A} k k' (v : A) d : dict_has k (dict_set k' v d) = (if decide (k = k') then true else dict_has k d).
Proof.
  unfold dict_has. destruct (decide (k = k')) as [->|Hne]; [by rewrite dict_get_set_eq|]. by rewrite dict_get_set_ne.
Qed.

Lemma dict_has_true {A} k (d : dict string A) : dict_has k d = true ↔ ∃ v, dict_get k d = Some v.
Proof. unfold dict_has. destruct (dict_get k d); naive_solver. Qed.
Lemma dict_has_false {A} k (d : dict string A) : dict_has k d = false ↔ dict_get k d = None.
Proof. unfold dict_has. destruct (dict_get k d); naive_solver. Qed.

(** ** Transactions, up to the weight they gather *)

Definition skel (tx : DAGTransaction) : DAGTransaction := with_weight 0 fzero tx.

Definition log (d : dict string DAGTransaction) : list (string * DAGTransaction) := (λ kv, (kv.1, skel kv.2)) <$> d.

Lemma log_keys d : dict_keys d = (log d).*1.
Proof. unfold dict_keys, log. rewrite <-list_fmap_compose. by apply list_fmap_ext. Qed.

Lemma log_has d d' id : log d = log d' → dict_has id d = dict_has id d'.
Proof.
  intros Hl. pose proof (log_keys d) as H1. rewrite Hl, <-log_keys in H1.
  destruct (dict_has id d') eqn:E; [|apply dict_has_false in E; apply dict_has_false; rewrite dict_get_None in E |- *; by rewrite H1].
  destruct (dict_has id d) eqn:E'; [done|]. apply dict_has_false in E'. rewrite dict_get_None, H1, <-dict_get_None in E'.
  apply dict_has_false in E'. congruence.
Qed.

Lemma log_update id weight level d : log (dict_update id (with_weight weight level) d) = log d.
Proof.
  unfold dict_update. destruct (dict_get id d) as [tx|] eqn:E; [|done]. unfold log. revert E.
  induction d as [|[k v] d IH]; [done|]. cbn [dict_get dict_set]. destruct (decide (id = k)) as [->|Hne].
  - intros [= ->]. by rewrite !fmap_cons.
  - intros Hg. rewrite !fmap_cons. by rewrite (IH Hg).
Qed.

Section Steps.
Context `{Externals}.
Variable sql_sum : list pyfloat → pyfloat.
Variable tip_weight : Z → pyfloat.
Context {S : Type}.
Implicit Type st : S.

(** The coroutine's tokens, and the transactions there were when it took the lock *)
Variable L : gset token.
Variable c0 : Core.
Abbreviation I := (keys_kept L c0).
Abbreviation cwp := (wpm (core_exec sql_sum) I).

Definition kept (d : dict string DAGTransaction) : Prop :=
  ∀ id, Key id ∉ L → String.prefix "idem-" id = true → dict_has id d = has_tx c0 id.

Lemma I_kept c : kept (t_transactions (tables c)) → I c.
Proof. done. Qed.

Lemma kept_log d d' : log d = log d' → kept d → kept d'.
Proof. intros Hl Hk id Hid Hp. rewrite <-(Hk id Hid Hp). symmetry. by apply log_has. Qed.

Lemma kept_set d id tx : kept d → (String.prefix "idem-" id = true → Key id ∈ L) → kept (dict_set id tx d).
Proof. intros Hk Hp id' Hid Hpre. rewrite dict_has_set. case_decide as Hd; [|by apply Hk]. subst. by destruct Hid; apply Hp. Qed.

(** [cstep lem] applies a rule for one effect and discharges that the keys are kept. *)
Ltac kk := first [ assumption | match goal with HK : kept _ |- keys_kept _ _ _ => exact HK end ].

Lemma spec_ensure_wallet w pk (Q : result unit → S → Core → Prop) st t tips vs p :
  kept (t_transactions t) →
  (∀ t', same_money t t' → dict_has w (t_wallets t') = true → kept (t_transactions t') → Q (Ok tt) st (idle t' tips vs p)) →
  cwp (ensure_wallet w pk) Q st (idle t tips vs p).
Proof.
  intros HK HQ. unfold ensure_wallet, wallet_exists. apply wpm_bind, wpm_bind, cwp_execute; [kk|].
  cbn [db_execute idle core_at co_db run_statement c_tables in_db]. split; [kk|]. apply wpm_ret; [kk|].
  destruct (dict_get w (t_wallets t)) as [row|] eqn:E.
  - apply wpm_ret; [kk|]. apply HQ; [apply same_money_refl | by apply dict_has_true; eauto | done].
  - unfold create_wallet_impl. apply wpm_bind, cwp_execute; [kk|].
    cbn [db_execute core_at co_db run_statement c_tables in_db c_open c_saves c_disk orb writes].
    assert (dict_has w (t_wallets t) = false) as Hw by (by apply dict_has_false). rewrite Hw. split; [kk|].
    set (t' := set_wallets (dict_set w (new_wallet (default_name w) pk)) t).
    assert (Q (Ok tt) st (idle t' tips vs p)) as HQ'.
    { apply HQ; [|by cbn; rewrite dict_has_set, decide_True | done]. split; try done.
      intros x Hx. cbn. rewrite dict_has_set. by case_decide. }
    apply wpm_bind, cwp_commit; [kk | kk |].
    destruct pk as [k|]; [|by apply wpm_ret; [kk|]]. destruct (str_nonempty k); [|by apply wpm_ret; [kk|]].
    eapply cwp_update_state with (g := id); [done | kk | kk | exact HQ'].
Qed.

(** *** The balance row and its version *)

(** The version the object remembers is the row's. *)
Definition versions_agree (t : LedgerTables) (vs : dict string Z) : Prop :=
  ∀ w, snd <$> dict_get w (t_balances t) = dict_get w vs.

Definition balance_row (t : LedgerTables) (w : string) : pyfloat * Z := default (fzero, 1) (dict_get w (t_balances t)).

(** After the check the row is there. *)
Definition with_row (w : string) (t : LedgerTables) : LedgerTables := set_balances (dict_set w (balance_row t w)) t.
Definition with_row_version (w : string) (t : LedgerTables) (vs : dict string Z) : dict string Z := dict_set w (balance_row t w).2 vs.

Lemma dict_set_same {A} k (v : A) (d : dict string A) : dict_get k d = Some v → dict_set k v d = d.
Proof.
  induction d as [|[k' v'] d IH]; [done|]. cbn [dict_get dict_set]. destruct (decide (k = k')) as [->|Hne].
  - by intros [= ->].
  - intros Hg. by rewrite IH.
Qed.

Lemma set_balances_id f t : f (t_balances t) = t_balances t → set_balances f t = t.
Proof. intros Hf. destruct t. unfold set_balances. cbn in *. by rewrite Hf. Qed.

Lemma versions_with_row w t vs : versions_agree t vs → versions_agree (with_row w t) (with_row_version w t vs).
Proof.
  intros Hv x. unfold with_row, with_row_version. cbn [t_balances set_balances].
  destruct (decide (x = w)) as [->|Hne]; [by rewrite !dict_get_set_eq | by rewrite !dict_get_set_ne].
Qed.

Ltac run := cbn [db_execute db_savepoint db_release db_rollback_to db_commit idle core_at co_db run_statement c_tables in_db c_open
  c_saves c_disk orb writes negb].

Lemma spec_get_or_create w (Q : result (pyfloat * Z) → S → Core → Prop) st d t saves tips vs p :
  kept (t_transactions t) → versions_agree t vs → dict_has w (t_wallets t) = true →
  Q (Ok (balance_row t w)) st (core_at d (with_row w t) true saves tips (with_row_version w t vs) p) →
  cwp (get_or_create_balance_cache w) Q st (core_at d t true saves tips vs p).
Proof.
  intros HK Hv Hw HQ. unfold get_or_create_balance_cache. apply wpm_bind, cwp_execute; [kk|]. run. split; [kk|].
  unfold with_row, with_row_version, balance_row in HQ. destruct (dict_get w (t_balances t)) as [[balance version]|] eqn:Eb; cbn [default snd] in HQ.
  - unfold id in HQ. cbn [snd] in HQ. apply wpm_bind, cwp_read_state; [kk|]. intros m _ Hm _. assert (d_balance_version_cache m = vs) as -> by exact Hm.
    pose proof (Hv w) as Hvw. rewrite Eb in Hvw. cbn in Hvw. rewrite <-Hvw. apply wpm_ret; [kk|].
    rewrite set_balances_id in HQ by (by apply dict_set_same). rewrite (dict_set_same w version vs) in HQ by done. exact HQ.
  - apply wpm_bind, cwp_execute; [kk|]. unfold db_execute. run.
    assert (dict_has w (t_balances t) = false) as -> by (by apply dict_has_false). rewrite Hw. cbn [orb negb]. split; [kk|].
    apply wpm_bind. eapply cwp_update_state with (g := λ c, {| co_db := co_db c; co_tips := co_tips c; co_versions := dict_set w 1 (co_versions c); co_pending := co_pending c |});
      [done | kk | kk |]. apply wpm_ret; [kk|]. exact HQ.
Qed.

Lemma spec_check_balance w amount (Q : result (bool * pyfloat * Z) → S → Core → Prop) st t tips vs p :
  kept (t_transactions t) → versions_agree t vs → dict_has w (t_wallets t) = true →
  (let '(balance, version) := balance_row t w in
   let t' := with_row w t in let vs' := with_row_version w t vs in
   if fle amount balance then Q (Ok (true, balance, version)) st (core_at t t' true [(true, t)] tips vs' p)
   else Q (Ok (false, balance, version)) st (idle t' tips vs' p)) →
  cwp (check_balance_atomic w amount) Q st (idle t tips vs p).
Proof.
  intros HK Hv Hw HQ. unfold check_balance_atomic. apply wpm_bind, wpm_try, wpm_bind, cwp_set_savepoint; [kk | kk |].
  change (in_db _ _) with (core_at t t true [(true, t)] tips vs p).
  apply wpm_bind, spec_get_or_create; [done..|]. destruct (balance_row t w) as [balance version]. cbv beta iota zeta.
  destruct (fle amount balance).
  - apply wpm_bind, wpm_ret; [kk|]. apply wpm_ret; [kk|]. apply wpm_ret; [kk | exact HQ].
  - apply wpm_bind, cwp_release_savepoint; [kk|]. run. split; [kk|]. apply wpm_ret; [kk|]. apply wpm_ret; [kk | exact HQ].
Qed.

(** A statement that succeeds *)
Lemma exec_at s (Q : result (answer s) → S → Core → Prop) st d t open saves tips vs p a t' :
  kept (t_transactions t) → run_statement sql_sum s t = Ok (t', a) → kept (t_transactions t') →
  Q (Ok a) st (core_at d t' (open || writes s) saves tips vs p) → cwp (execute s) Q st (core_at d t open saves tips vs p).
Proof.
  intros HK Hr HK' HQ. apply cwp_execute; [kk|]. unfold db_execute. cbn [core_at co_db c_tables c_open c_disk c_saves]. rewrite Hr.
  split; [kk | exact HQ].
Qed.

(** *** Parents *)

(** With one tip it is the parent, and nothing is drawn. *)
Lemma spec_select_tips n x (Q : result (list string) → S → Core → Prop) st c :
  I c → 1 <= n → co_tips c = [x] → Q (Ok [x]) st c → cwp (select_tips_mcmc tip_weight n) Q st c.
Proof.
  intros Hi Hn Hx HQ. unfold select_tips_mcmc. apply wpm_bind, cwp_list_tips; [done|]. intros ts Hts.
  rewrite Hx in Hts. symmetry in Hts. apply Permutation_length_1_inv in Hts as ->.
  apply wpm_bind, cwp_read_state; [done|]. intros m _ _ _. change (zlen [x]) with 1.
  replace (1 <=? n) with true by lia. by apply wpm_ret.
Qed.

Definition at_transactions (txs : dict string DAGTransaction) (t : LedgerTables) : LedgerTables := set_transactions (λ _, txs) t.

Lemma spec_update_weights_loop fuel queue seen (Q : result unit → S → Core → Prop) st d t saves tips vs p :
  kept (t_transactions t) →
  (∀ txs, log txs = log (t_transactions t) → kept txs → Q (Ok tt) st (core_at d (at_transactions txs t) true saves tips vs p)) →
  cwp (update_weights_loop fuel queue seen) Q st (core_at d t true saves tips vs p).
Proof.
  revert queue seen t. induction fuel as [|fuel IH]; intros queue seen t HK HQ.
  { apply wpm_ret; [kk|]. replace t with (at_transactions (t_transactions t) t) by by destruct t. by apply HQ. }
  cbn [update_weights_loop]. destruct queue as [|tx_id queue].
  { apply wpm_ret; [kk|]. replace t with (at_transactions (t_transactions t) t) by by destruct t. by apply HQ. }
  case_bool_decide; [by apply IH|]. apply wpm_bind, cwp_read_state; [kk|]. intros m _ _ _.
  destruct (dict_get tx_id (d_transactions m)) as [tx|]; [|by apply IH].
  apply wpm_bind. eapply cwp_update_state with (g := id); [done | kk | kk |]. unfold id.
  set (txs := dict_update tx_id (with_weight (dt_cumulative_weight tx + 1) (confirmation (dt_cumulative_weight tx + 1))) (t_transactions t)).
  assert (kept txs) as HK' by (apply (kept_log (t_transactions t)); [by unfold txs; rewrite log_update | done]).
  apply wpm_bind, cwp_execute; [kk|].
  change (I (core_at d (at_transactions txs t) true saves tips vs p) ∧
     cwp (m ← read_state;
          update_weights_loop fuel (queue ++ filter (λ c, c ∉ tx_id :: seen) (children tx_id (d_transactions m))) (tx_id :: seen))
       Q st (core_at d (at_transactions txs t) true saves tips vs p)).
  split; [kk|]. apply wpm_bind, cwp_read_state; [exact HK'|]. intros m' _ _ _.
  apply IH; [done|]. intros txs' Hl HK2. apply HQ; [|done]. etrans; [exact Hl | apply log_update].
Qed.

(** *** Appending the transaction *)

Definition appended (id : string) (txs : dict string DAGTransaction) (t : LedgerTables) : LedgerTables :=
  set_tips (λ _, [id]) (at_transactions txs t).

(** The transaction's row is the last, and it is the only tip. *)
Lemma spec_append tx x (Q : result unit → S → Core → Prop) st d t open saves vs p :
  kept (t_transactions t) → (String.prefix "idem-" (dt_tx_id tx) = true → Key (dt_tx_id tx) ∈ L) →
  dict_has (dt_tx_id tx) (t_transactions t) = false → dt_parent_ids tx = [x] → t_tips t = [x] →
  (∀ txs, log txs = log (t_transactions t) ++ [(dt_tx_id tx, skel tx)] → kept txs →
     Q (Ok tt) st (core_at d (appended (dt_tx_id tx) txs t) true saves [dt_tx_id tx] vs p)) →
  cwp (append_transaction tx) Q st (core_at d t open saves [x] vs p).
Proof.
  intros HK Hkey Hnew Hpar Htips HQ. unfold append_transaction, store_transaction.
  set (id := dt_tx_id tx) in *. set (txs := dict_set id tx (t_transactions t)).
  assert (kept txs) as HK1 by (by apply kept_set).
  assert (txs = t_transactions t ++ [(id, tx)]) as Htxs by (by apply dict_set_fresh, dict_get_None, dict_has_false).
  apply wpm_bind. eapply exec_at; [done | reflexivity | exact HK1 |]. cbn [writes]. rewrite orb_true_r.
  apply wpm_bind. rewrite Hpar. cbn [discard_tips].
  apply wpm_bind, cwp_read_state; [kk|]. intros m Hm _ _. rewrite Hm. rewrite bool_decide_true by by left.
  apply wpm_bind, wpm_bind.
  eapply cwp_update_state with (g := λ c, {| co_db := co_db c; co_tips := filter (λ y, y ≠ x) (co_tips c); co_versions := co_versions c; co_pending := co_pending c |});
    [done | kk | kk |].
  assert (filter (λ y, y ≠ x) [x] = []) as Hf by (rewrite filter_cons_False; naive_solver).
  change (cwp (execute (DeleteTip x)) ?Q st _) with (cwp (execute (DeleteTip x)) Q st
    (core_at d (at_transactions txs t) true saves (filter (λ y, y ≠ x) [x]) vs p)).
  rewrite Hf. eapply exec_at; [done | reflexivity | exact HK1 |]. apply wpm_ret; [kk|].
  apply wpm_bind.
  eapply cwp_update_state with (g := λ c, {| co_db := co_db c; co_tips := tip_add id (co_tips c); co_versions := co_versions c; co_pending := co_pending c |});
    [done | kk | kk |].
  apply wpm_bind.
  change (cwp (execute ?i) ?Q st _) with (cwp (execute i) Q st
    (core_at d (set_tips (filter (λ y, y ≠ x)) (at_transactions txs t)) true saves [id] vs p)).
  eapply (exec_at (InsertTip id)) with (t' := appended id txs t); [exact HK1 | | exact HK1 |].
  { cbn [run_statement]. do 2 f_equal. cbn [t_tips set_tips at_transactions set_transactions]. rewrite Htips, Hf.
    rewrite decide_False by (apply not_elem_of_nil). unfold appended, set_tips, at_transactions, set_transactions. cbn.
    by rewrite Htips, Hf. }
  unfold update_weights. cbn [orb].
  apply wpm_bind, cwp_read_state; [kk|]. intros m' _ _ _. apply spec_update_weights_loop; [done|].
  intros txs' Hl HK'. specialize (HQ txs'). apply HQ; [|done]. rewrite Hl. cbn [t_transactions appended set_tips at_transactions set_transactions].
  rewrite Htxs. unfold log. by rewrite fmap_app.
Qed.
(** *** Moving the balances *)

Definition tbal (t : LedgerTables) (w : string) : pyfloat := (balance_row t w).1.

(** The row of [w] with another balance and the next version *)
Definition next_version (t : LedgerTables) (w : string) : Z := from_option (λ r : pyfloat * Z, r.2 + 1) 1 (dict_get w (t_balances t)).
Definition set_balance (w : string) (b : pyfloat) (t : LedgerTables) : LedgerTables :=
  set_balances (dict_set w (b, next_version t w)) t.

Lemma tbal_set w b t x : tbal (set_balance w b t) x = if decide (x = w) then b else tbal t x.
Proof.
  unfold tbal, balance_row, set_balance. cbn [t_balances set_balances]. case_decide as Hx; [subst; by rewrite dict_get_set_eq|].
  by rewrite dict_get_set_ne.
Qed.

Lemma versions_set w b t vs : versions_agree t vs → versions_agree (set_balance w b t) (dict_set w (next_version t w) vs).
Proof.
  intros Hv x. unfold set_balance. cbn [t_balances set_balances].
  destruct (decide (x = w)) as [->|Hne]; [by rewrite !dict_get_set_eq | by rewrite !dict_get_set_ne].
Qed.

(** The tables after a transaction of [a] *)
Definition deducted (a : TxArgs) (t : LedgerTables) : LedgerTables :=
  match payer a with Some w => set_balance w (fsub (tbal t w) (ta_amount a)) t | None => t end.
Definition paid (a : TxArgs) (t : LedgerTables) : LedgerTables :=
  if str_nonempty (ta_to_wallet a) then
    let t := deducted a t in set_balance (ta_to_wallet a) (fadd (tbal t (ta_to_wallet a)) (ta_amount a)) t
  else deducted a t.

Lemma spec_credit w amount (Q : result unit → S → Core → Prop) st d t open saves tips vs p :
  kept (t_transactions t) → versions_agree t vs → dict_has w (t_wallets t) = true →
  (∀ vs', let t' := set_balance w (fadd (tbal t w) amount) t in
     versions_agree t' vs' → Q (Ok tt) st (core_at d t' true saves tips vs' p)) →
  cwp (commit_balance_credit w amount) Q st (core_at d t open saves tips vs p).
Proof.
  intros HK Hv Hw HQ. unfold commit_balance_credit. apply wpm_bind.
  apply (exec_at (CreditBalance w amount)) with (a := tt) (t' := set_balance w (fadd (tbal t w) amount) t); [done | | exact HK |].
  - cbn [run_statement]. unfold set_balance, tbal, balance_row, next_version.
    destruct (dict_get w (t_balances t)) as [[b v]|]; [done|]. by rewrite Hw.
  - cbn [writes]. rewrite orb_true_r.
    eapply cwp_update_state with (g := λ c, {| co_db := co_db c; co_tips := co_tips c; co_versions := match dict_get w (co_versions c) with None => dict_set w 1 (co_versions c) | Some n => dict_set w (n + 1) (co_versions c) end; co_pending := co_pending c |});
      [done | kk | kk |]. apply HQ. cbn [co_versions core_at]. pose proof (Hv w) as Hvw. unfold next_version in *.
    intros x. unfold set_balance. cbn [t_balances set_balances]. unfold next_version. rewrite <-Hvw.
    destruct (dict_get w (t_balances t)) as [[b v]|]; cbn [fmap option_fmap option_map snd from_option];
      (destruct (decide (x = w)) as [->|Hne]; [by rewrite !dict_get_set_eq | rewrite !dict_get_set_ne by done; apply Hv]).
Qed.

Lemma spec_deduct w amount b v (Q : result unit → S → Core → Prop) st d d' t tips vs p :
  kept (t_transactions t) → versions_agree t vs → dict_get w (t_balances t) = Some (b, v) →
  (∀ vs', let t' := set_balance w (fsub b amount) t in versions_agree t' vs' → Q (Ok tt) st (idle t' tips vs' p)) →
  cwp (commit_balance_deduction w amount v) Q st (core_at d t true [(true, d')] tips vs p).
Proof.
  intros HK Hv Hb HQ. unfold commit_balance_deduction. apply wpm_bind.
  apply (exec_at (DeductBalance w amount v)) with (a := 1) (t' := set_balance w (fsub b amount) t); [done | | exact HK |].
  - cbn [run_statement]. unfold set_balance, next_version. rewrite Hb. by rewrite Z.eqb_refl.
  - change (1 =? 0) with false. cbv iota. apply wpm_bind, cwp_release_savepoint; [exact HK|].
    cbn [db_release core_at co_db c_saves]. split; [exact HK|].
    eapply cwp_update_state with (g := λ c, {| co_db := co_db c; co_tips := co_tips c; co_versions := dict_set w (v + 1) (co_versions c); co_pending := co_pending c |});
      [done | exact HK | exact HK |]. apply HQ. cbn [co_versions in_db core_at].
    pose proof (versions_set w (fsub b amount) t vs Hv) as Hs. unfold next_version in Hs. by rewrite Hb in Hs.
Qed.

(** Where the coroutine stands before it moves the balances: after a check, or with no payer *)
Definition before_payment (a : TxArgs) (version : option Z) (t : LedgerTables) (open : bool) (saves : list (bool * LedgerTables)) : Prop :=
  match payer a with
  | Some w => open = true ∧ (∃ d, saves = [(true, d)]) ∧ ∃ b v, version = Some v ∧ dict_get w (t_balances t) = Some (b, v)
  | None => saves = []
  end.

Lemma spec_move_balances a version (Q : result unit → S → Core → Prop) st d t open saves tips vs p :
  before_payment a version t open saves →
  kept (t_transactions t) → versions_agree t vs → (str_nonempty (ta_to_wallet a) = true → dict_has (ta_to_wallet a) (t_wallets t) = true) →
  (open = false → d = t) →
  (∀ vs', versions_agree (paid a t) vs' → Q (Ok tt) st (idle (paid a t) tips vs' p)) →
  cwp (move_balances a version) Q st (core_at d t open saves tips vs p).
Proof.
  intros Hb HK Hv Hto Hd HQ. unfold move_balances. apply wpm_bind. unfold before_payment in Hb.
  assert (∀ vs', versions_agree (deducted a t) vs' →
    cwp (_ ← (if str_nonempty (ta_to_wallet a) then commit_balance_credit (ta_to_wallet a) (ta_amount a) else mret tt); commit) Q st
      (idle (deducted a t) tips vs' p)) as Hrest.
  { intros vs' Hv'. assert (t_transactions (deducted a t) = t_transactions t ∧ t_wallets (deducted a t) = t_wallets t) as [Ht Hw]
      by (unfold deducted; by destruct (payer a)).
    assert (kept (t_transactions (deducted a t))) as HK' by by rewrite Ht. apply wpm_bind. unfold paid in HQ.
    destruct (str_nonempty (ta_to_wallet a)).
    - apply spec_credit; [done | done | rewrite Hw; by apply Hto |]. intros vs2 t2 Hv2.
      apply cwp_commit; [exact HK' | exact HK' |]. by apply HQ.
    - apply wpm_ret; [exact HK'|]. apply cwp_commit; [exact HK' | exact HK' |]. by apply HQ. }
  unfold deducted in *. destruct (payer a) as [w|].
  - destruct Hb as (-> & (d' & ->) & b & v & -> & Hg).
    assert (b = tbal t w) as -> by (unfold tbal, balance_row; by rewrite Hg).
    eapply spec_deduct; [done | done | exact Hg |]. intros vs' t' Hv'. by apply Hrest.
  - subst saves. apply cwp_commit; [exact HK | exact HK |].
    assert (in_db (core_at d t open [] tips vs p) (db_commit (co_db (core_at d t open [] tips vs p))) = idle t tips vs p) as ->.
    { unfold in_db, db_commit, idle, core_at. cbn. destruct open; [done|]. by rewrite Hd. }
    by apply Hrest.
Qed.
(** *** The whole section *)

(** What a transaction does to the balances *)
Record Move : Type := { mv_from : option string; mv_to : string; mv_amount : pyfloat }.

Definition named (w : option string) : option string :=
  match w with Some w => if str_nonempty w then Some w else None | None => None end.
Definition tx_move (tx : DAGTransaction) : Move :=
  {| mv_from := named (dt_from_wallet tx); mv_to := dt_to_wallet tx; mv_amount := dt_amount tx |}.

Definition apply_move (b : string → pyfloat) (m : Move) : string → pyfloat :=
  let b1 := match mv_from m with Some f => λ w, if decide (w = f) then fsub (b f) (mv_amount m) else b w | None => b end in
  if str_nonempty (mv_to m) then λ w, if decide (w = mv_to m) then fadd (b1 (mv_to m)) (mv_amount m) else b1 w else b1.

Lemma apply_move_ext b b' m w : (∀ w, b w = b' w) → apply_move b m w = apply_move b' m w.
Proof.
  intros Hb. unfold apply_move.
  assert (∀ w, (match mv_from m with Some f => λ w, if decide (w = f) then fsub (b f) (mv_amount m) else b w | None => b end) w =
               (match mv_from m with Some f => λ w, if decide (w = f) then fsub (b' f) (mv_amount m) else b' w | None => b' end) w) as Hm.
  { intros w'. destruct (mv_from m); [|done]. by rewrite !Hb. }
  destruct (str_nonempty (mv_to m)); [by rewrite !Hm | done].
Qed.

Definition args_move (a : TxArgs) : Move := {| mv_from := payer a; mv_to := ta_to_wallet a; mv_amount := ta_amount a |}.

Lemma tbal_paid a t w : tbal (paid a t) w = apply_move (tbal t) (args_move a) w.
Proof.
  unfold paid, apply_move, deducted. cbn [mv_from mv_to mv_amount args_move].
  destruct (str_nonempty (ta_to_wallet a)); destruct (payer a) as [f|]; rewrite ?tbal_set; done.
Qed.

Lemma tbal_with_row w t x : tbal (with_row w t) x = tbal t x.
Proof.
  unfold tbal, balance_row at 1, with_row. cbn [t_balances set_balances]. destruct (decide (x = w)) as [->|Hne]; [by rewrite dict_get_set_eq|].
  by rewrite dict_get_set_ne.
Qed.

Lemma tbal_same_money t t' w : same_money t t' → tbal t' w = tbal t w.
Proof. intros [_ Hb _ _]. unfold tbal, balance_row. by rewrite Hb. Qed.

(** The transaction is that of the arguments. *)
Record carries (a : TxArgs) (idem : option string) (x : string) (tx : DAGTransaction) : Prop := {
  ca_type : dt_tx_type tx = ta_tx_type a;
  ca_move : tx_move tx = args_move a;
  ca_parents : dt_parent_ids tx = [x];
  ca_id id : idem = Some id → dt_tx_id tx = id
}.

Lemma spec_submit_rest a idem version (Q : result DAGTransaction → S → Core → Prop) st d t open saves x vs p :
  before_payment a version t open saves → (open = false → d = t) →
  kept (t_transactions t) → versions_agree t vs → (str_nonempty (ta_to_wallet a) = true → dict_has (ta_to_wallet a) (t_wallets t) = true) →
  t_tips t = [x] → (∀ id, idem = Some id → dict_has id (t_transactions t) = false ∧ Key id ∈ L) →
  (∀ tx t' vs', carries a idem x tx → log (t_transactions t') = log (t_transactions t) ++ [(dt_tx_id tx, skel tx)] →
     t_tips t' = [dt_tx_id tx] → versions_agree t' vs' → (∀ w, tbal t' w = apply_move (tbal t) (args_move a) w) →
     kept (t_transactions t') → Q (Ok tx) st (idle t' [dt_tx_id tx] vs' None)) →
  cwp (submit_rest tip_weight false a idem version) Q st (core_at d t open saves [x] vs p).
Proof.
  intros Hb Hd HK Hv Hto Htips Hidem HQ. unfold submit_rest. apply wpm_bind.
  assert (∀ R, R (Ok tt) st (core_at d t open saves [x] vs None) →
    cwp (signature_to_verify false (ta_tx_type a) (ta_from_wallet a) (ta_signature a) (ta_public_key a)) R st (core_at d t open saves [x] vs p)) as Hsig.
  { intros R HR. unfold signature_to_verify. cbn [andb].
    assert (cwp (update_state (with_pending None)) R st (core_at d t open saves [x] vs p)) as Hup by
      (eapply cwp_update_state with (g := λ c, {| co_db := co_db c; co_tips := co_tips c; co_versions := co_versions c; co_pending := None |});
        [done | exact HK | exact HK | exact HR]).
    by destruct (ta_from_wallet a). }
  apply Hsig. clear Hsig p. apply wpm_bind, cwp_read_state; [exact HK|]. intros m Hm _ _. rewrite Hm.
  apply wpm_bind, (spec_select_tips _ x); [exact HK | done | done |].
  apply wpm_bind.
  assert (∀ R : result string → S → Core → Prop,
    (∀ id, (∀ id', idem = Some id' → id = id') → dict_has id (t_transactions t) = false → (String.prefix "idem-" id = true → Key id ∈ L) →
       R (Ok id) st (core_at d t open saves [x] vs None)) →
    cwp (match idem with Some id => mret id | None => perform (E := ledger_io) NewUuid end) R st (core_at d t open saves [x] vs None)) as Hid.
  { intros R HR. destruct idem as [id|].
    - apply wpm_ret; [exact HK|]. destruct (Hidem id eq_refl). apply HR; [congruence | done | done].
    - apply cwp_new_uuid; [exact HK|]. intros id Hn Hp. apply HR; [done | exact Hn | congruence]. }
  apply Hid. clear Hid. intros id Hid Hnew Hkey. apply wpm_bind, cwp_time; [exact HK|]. intros now.
  apply wpm_bind, cwp_read_state; [exact HK|]. intros m2 _ _ _. cbv zeta.
  set (tx := {| dt_tx_id := id |}).
  assert (carries a idem x tx) as Hca by (split; [done | done | done | exact Hid]).
  apply wpm_bind. unfold verify_pending. apply wpm_bind, cwp_read_state; [exact HK|]. intros m3 _ _ Hp. rewrite Hp.
  apply wpm_ret; [exact HK|]. apply wpm_bind, spec_append; [exact HK | exact Hkey | exact Hnew | done | exact Htips |].
  intros txs Hl HK'. apply wpm_bind, spec_move_balances.
  - unfold before_payment in *. destruct (payer a) as [w|]; [|done]. destruct Hb as (-> & Hs & b & v & -> & Hg). split_and!; eauto.
  - exact HK'.
  - exact Hv.
  - exact Hto.
  - done.
  - intros vs' Hv'. assert (t_transactions (paid a (appended id txs t)) = txs ∧ t_tips (paid a (appended id txs t)) = [id]) as [Htx Hti].
    { unfold paid, deducted. by destruct (str_nonempty _), (payer a). }
    assert (kept (t_transactions (paid a (appended id txs t)))) as HKp by by rewrite Htx.
    apply wpm_bind. eapply cwp_update_state with (g := λ c, c);
      [done | exact HKp | exact HKp |].
    apply wpm_ret; [exact HKp|]. apply (HQ tx (paid a (appended id txs t)) vs'); [done | by rewrite Htx | done | done | | exact HKp].
    intros w. rewrite tbal_paid. by apply apply_move_ext.
Qed.

Lemma spec_submit_locked a idem (Q : result DAGTransaction → S → Core → Prop) st t x vs p :
  kept (t_transactions t) → versions_agree t vs → t_tips t = [x] →
  (∀ id, idem = Some id → dict_has id (t_transactions t) = false ∧ Key id ∈ L) →
  (∀ tx t' vs', carries a idem x tx → log (t_transactions t') = log (t_transactions t) ++ [(dt_tx_id tx, skel tx)] →
     t_tips t' = [dt_tx_id tx] → versions_agree t' vs' → (∀ w, tbal t' w = apply_move (tbal t) (args_move a) w) →
     (∀ f, payer a = Some f → fle (ta_amount a) (tbal t f) = true) →
     Q (Ok tx) st (idle t' [dt_tx_id tx] vs' None)) →
  (∀ t' vs' f, payer a = Some f → fle (ta_amount a) (tbal t f) = false → t_transactions t' = t_transactions t →
     t_tips t' = [x] → versions_agree t' vs' → (∀ w, tbal t' w = tbal t w) →
     Q (Err InsufficientBalanceError) st (idle t' [x] vs' p)) →
  cwp (submit_locked tip_weight false a idem) Q st (idle t [x] vs p).
Proof.
  intros HK Hv Htips Hidem HQ HE. unfold submit_locked. apply wpm_bind. unfold submit_checked. apply wpm_bind.
  (* the wallets *)
  assert (∀ R : result unit → S → Core → Prop,
    (∀ t1, same_money t t1 → (∀ f, payer a = Some f → dict_has f (t_wallets t1) = true) → R (Ok tt) st (idle t1 [x] vs p)) →
    cwp (match payer a with Some w => ensure_wallet w (ta_public_key a) | None => mret tt end) R st (idle t [x] vs p)) as Hpay.
  { intros R HR. destruct (payer a) as [f|].
    - apply spec_ensure_wallet; [done|]. intros t1 Hs Hf _. apply HR; [done|]. by intros ? [= <-].
    - apply wpm_ret; [exact HK|]. apply HR; [apply same_money_refl | done]. }
  apply Hpay. clear Hpay. intros t1 Hs1 Hf1. assert (kept (t_transactions t1)) as HK1 by (by rewrite (sm_transactions _ _ Hs1)).
  apply wpm_bind, spec_ensure_wallet; [done|]. intros t2 Hs2 Hto HK2. pose proof (same_money_trans _ _ _ Hs1 Hs2) as Hs.
  assert (versions_agree t2 vs) as Hv2 by (intros w; by rewrite (sm_balances _ _ Hs)).
  assert (∀ w, tbal t2 w = tbal t w) as Hb2 by (intros w; by apply tbal_same_money).
  destruct (payer a) as [f|] eqn:Ep.
  - apply wpm_bind, spec_check_balance; [done | done | by apply Hs2, Hf1 |].
    destruct (balance_row t2 f) as [b v] eqn:Eb. assert (b = tbal t f) as -> by (rewrite <-Hb2; unfold tbal; by rewrite Eb).
    cbv zeta. destruct (fle (ta_amount a) (tbal t f)) eqn:Ele.
    + apply wpm_ret; [exact HK2|]. apply wpm_bind, wpm_try, (spec_submit_rest _ _ _ _ _ _ (with_row f t2)).
      * unfold before_payment. rewrite Ep. split_and!; [done | by eexists |]. exists (tbal t f), v. split; [done|].
        unfold with_row. cbn [t_balances set_balances]. by rewrite dict_get_set_eq, Eb.
      * done.
      * exact HK2.
      * by apply versions_with_row.
      * by intros _.
      * cbn. by rewrite (sm_tips _ _ Hs).
      * intros id Hid. cbn. rewrite (sm_transactions _ _ Hs). by apply Hidem.
      * intros tx t' vs' Hca Hl Hti Hv' Hbal HK'. apply wpm_ret; [exact HK'|].
        apply HQ; [done | | done | done | | by intros ? [= <-]].
        -- rewrite Hl. cbn. by rewrite (sm_transactions _ _ Hs).
        -- intros w. rewrite Hbal. apply apply_move_ext. intros w'. by rewrite tbal_with_row.
    + apply wpm_raise; [exact HK2|]. apply (HE _ _ f); try done.
      * cbn. apply (sm_transactions _ _ Hs).
      * cbn. by rewrite (sm_tips _ _ Hs).
      * by apply versions_with_row.
      * intros w. by rewrite tbal_with_row.
  - apply wpm_ret; [exact HK2|]. apply wpm_bind, wpm_try, (spec_submit_rest _ _ _ _ _ _ t2).
    + unfold before_payment. by rewrite Ep.
    + done.
    + exact HK2.
    + done.
    + by intros _.
    + by rewrite (sm_tips _ _ Hs).
    + intros id Hid. rewrite (sm_transactions _ _ Hs). by apply Hidem.
    + intros tx t' vs' Hca Hl Hti Hv' Hbal HK'. apply wpm_ret; [exact HK'|].
      apply HQ; [done | | done | done | | done].
      * rewrite Hl. by rewrite (sm_transactions _ _ Hs).
      * intros w. rewrite Hbal. by apply apply_move_ext.
Qed.
End Steps.
