(* ===== verification/ActivationChain.v ===== *)
(** * Text in lines, and signed activation chains

    The canonical texts that nodes sign are joined by newlines, without escapes.
    Texts of fields that hold no newline are determined by what is signed.
    Then the chains of compute/inference/stage_activation_proof.py and their theorems. *)
From Stdlib Require Import ZArith Lia DecimalString.
From S2P Require Import PyStd.
From S2P Require Import Externals.
From S2P Require Import Receipt.
From S2P Require Import Attestation.
From S2P Require Import PyJson.
From S2P Require Import Prelude.

#[local] Open Scope string_scope.
#[local] Open Scope list_scope.
#[local] Open Scope Z_scope.

Definition newline_char : ascii := ascii_of_N 10.
Definition newline : string := String newline_char "".

(** [newline.join(lines)] *)
Definition join_lines (lines : list string) : string := String.concat newline lines.

Fixpoint one_line (s : string) : bool :=
  match s with "" => true | String c s' => bool_decide (c ≠ newline_char) && one_line s' end.

Lemma one_line_app s t : one_line (s +:+ t) = one_line s && one_line t.
Proof. induction s as [|c s IH]; [done|]. change (String c s +:+ t) with (String c (s +:+ t)). cbn [one_line]. by rewrite IH, andb_assoc. Qed.

Lemma one_line_hex b : one_line (hex b) = true.
Proof.
  induction b as [|x b IH]; [done|]. pose proof (b2z_range x).
  change (hex (x :: b)) with (String (hex_digit (b2z x / 16)) (String (hex_digit (b2z x mod 16)) (hex b))). cbn [one_line]. rewrite IH, andb_true_r.
  assert (∀ z, 0 <= z < 16 → bool_decide (hex_digit z ≠ newline_char) = true) as Hd.
  { intros z Hz. assert (forallb (λ n, bool_decide (hex_digit (Z.of_nat n) ≠ newline_char)) (seq 0 16) = true) as Hall by (vm_compute; reflexivity).
    rewrite forallb_forall in Hall. specialize (Hall (Z.to_nat z)). rewrite Z2Nat.id in Hall by lia. apply Hall, in_seq. lia. }
  rewrite !Hd; [done | apply Z.mod_pos_bound; lia | split; [apply Z.div_pos; lia | apply Z.div_lt_upper_bound; lia]].
Qed.

Lemma one_line_uint d : one_line (NilEmpty.string_of_uint d) = true.
Proof. induction d; simpl; done. Qed.

Lemma one_line_int z : one_line (str_of_int z) = true.
Proof.
  unfold str_of_int. destruct z as [|p|p]; [done| |]; cbn [Z.to_int NilZero.string_of_int];
    try change (one_line (String "-" ?s)) with (one_line s); unfold NilZero.string_of_uint; case_match; try done; apply one_line_uint.
Qed.

Lemma one_line_sha256 b : one_line (sha256_hex b) = true.
Proof. apply one_line_hex. Qed.

(** The first line ends at the first newline. *)
Lemma line_split a b s t :
  one_line a = true → one_line b = true → a +:+ String newline_char s = b +:+ String newline_char t → a = b ∧ s = t.
Proof.
  revert b. induction a as [|c a IH]; intros [|d b] Ha Hb Heq; cbn in Heq.
  - by injection Heq as ->.
  - cbn [one_line] in Hb. injection Heq as Hd _. apply andb_prop in Hb as [Hb _]. apply bool_decide_eq_true in Hb. by destruct Hb.
  - cbn [one_line] in Ha. injection Heq as Hd _. apply andb_prop in Ha as [Ha _]. apply bool_decide_eq_true in Ha. by destruct Ha.
  - cbn [one_line] in *. apply andb_prop in Ha as [_ Ha], Hb as [_ Hb]. injection Heq as -> Heq.
    destruct (IH b Ha Hb Heq) as [-> ->]. done.
Qed.

Lemma line_ends a b s : one_line a = true → a ≠ b +:+ String newline_char s.
Proof.
  revert a. induction b as [|d b IH]; intros [|c a] Ha Heq; cbn in Heq; try discriminate Heq;
    cbn [one_line] in Ha; apply andb_prop in Ha as [Hc Ha]; injection Heq as Hd Heq.
  - apply bool_decide_eq_true in Hc. by destruct Hc.
  - by apply (IH a).
Qed.

Lemma join_lines_cons a b l : join_lines (a :: b :: l) = a +:+ String newline_char (join_lines (b :: l)).
Proof. reflexivity. Qed.

Lemma join_lines_inj l1 l2 :
  Forall (λ s, one_line s = true) l1 → Forall (λ s, one_line s = true) l2 → l1 ≠ [] → l2 ≠ [] →
  join_lines l1 = join_lines l2 → l1 = l2.
Proof.
  revert l2. induction l1 as [|a l1 IH]; [done|]. intros [|b l2] H1 H2 _ Hne Heq; [done|].
  apply Forall_cons in H1 as [Ha H1], H2 as [Hb H2]. destruct l1 as [|a' l1], l2 as [|b' l2].
  - unfold join_lines in Heq. simpl in Heq. by rewrite Heq.
  - rewrite join_lines_cons in Heq. by apply line_ends in Heq.
  - rewrite join_lines_cons in Heq. symmetry in Heq. by apply line_ends in Heq.
  - rewrite !join_lines_cons in Heq. apply line_split in Heq as [-> Heq]; [|done..].
    f_equal. by apply IH.
Qed.

(** Lines with distinct labels, each there or not: what is there is determined. *)
Lemma labelled_lines_inj (label : string) (a b : option string) (l m : list string) :
  (∀ s, label +:+ s ∉ l) → (∀ s, label +:+ s ∉ m) →
  (option_list ((λ s, label +:+ s) <$> a)) ++ l = (option_list ((λ s, label +:+ s) <$> b)) ++ m →
  a = b ∧ l = m.
Proof.
  intros Hl Hm Heq. destruct a as [a|], b as [b|]; simpl in Heq.
  - injection Heq as Heq ->. split; [|done]. f_equal. clear -Heq.
    induction label as [|c label IH]; [done|]. cbn in Heq. injection Heq as Heq. by apply IH.
  - subst m. exfalso. apply (Hm a). left.
  - subst l. exfalso. apply (Hl b). left.
  - done.
Qed.

(** * The signed activation chain of an inference

    Models prsm/compute/inference/stage_activation_proof.py: what each stage of a
    multi-stage inference signs, the chain of these proofs, and its verification.
    Diagnostic texts are the constructors of [ChainFault]. *)

#[local] Open Scope string_scope.
#[local] Open Scope list_scope.
#[local] Open Scope Z_scope.

Definition STAGE_PROOF_DOMAIN : string := "prsm-stage-activation-proof-v1".

(** ** Proofs *)

Record StageActivationProof : Type := {
  sap_stage_index : Z;
  sap_stage_node_id : string;
  sap_input_activation_hash : string;
  sap_output_activation_hash : string;
  sap_stage_signature_b64 : string;
  sap_tee_attestation_hash : string
}.

Definition tee_line (p : StageActivationProof) : list string :=
  if str_nonempty (sap_tee_attestation_hash p)
  then ["tee_attestation_hash=" +:+ sap_tee_attestation_hash p] else [].

(** The lines a stage signs. *)
Definition stage_lines (p : StageActivationProof) (request_id : string) : list string :=
  [STAGE_PROOF_DOMAIN; request_id; str_of_int (sap_stage_index p); sap_stage_node_id p;
   sap_input_activation_hash p; sap_output_activation_hash p] ++ tee_line p.

Definition signing_bytes (p : StageActivationProof) (request_id : string) : bytes :=
  utf8 (join_lines (stage_lines p request_id)).

Definition stage_proof_to_dict (p : StageActivationProof) : jtext :=
  TObj ([("stage_index", TInt (sap_stage_index p)); ("stage_node_id", TStr (sap_stage_node_id p));
         ("input_activation_hash", TStr (sap_input_activation_hash p));
         ("output_activation_hash", TStr (sap_output_activation_hash p));
         ("stage_signature_b64", TStr (sap_stage_signature_b64 p))] ++
        if str_nonempty (sap_tee_attestation_hash p)
        then [("tee_attestation_hash", TStr (sap_tee_attestation_hash p))] else []).

Definition stage_proof_from_dict (d : jtext) : result StageActivationProof :=
  index ← subscript d "stage_index" ≫= int_of_jtext;
  node ← subscript d "stage_node_id" ≫= str_of_jtext;
  input ← subscript d "input_activation_hash" ≫= str_of_jtext;
  output ← subscript d "output_activation_hash" ≫= str_of_jtext;
  signature ← get_or d "stage_signature_b64" (TStr "") ≫= str_of_jtext;
  tee ← get_or d "tee_attestation_hash" (TStr "") ≫= str_of_jtext;
  Ok {| sap_stage_index := index; sap_stage_node_id := node; sap_input_activation_hash := input;
        sap_output_activation_hash := output; sap_stage_signature_b64 := signature;
        sap_tee_attestation_hash := tee |}.

(** ** Chains *)

Record StageActivationChain : Type := { sac_request_id : string; sac_proofs : list StageActivationProof }.

Definition stage_leb (p q : StageActivationProof) : bool := sap_stage_index p <=? sap_stage_index q.

Definition sorted_proofs (c : StageActivationChain) : list StageActivationProof := sort_by stage_leb (sac_proofs c).

Definition chain_to_dict (c : StageActivationChain) : jtext :=
  TObj [("request_id", TStr (sac_request_id c)); ("proofs", TArr (stage_proof_to_dict <$> sorted_proofs c))].

Definition chain_stable_hash (c : StageActivationChain) : string := json_digest (chain_to_dict c).

Definition chain_from_dict (d : jtext) : result StageActivationChain :=
  rid ← get_or d "request_id" (TStr "") ≫= str_of_jtext;
  proofs ← get_or d "proofs" (TArr []) ≫= iter_jtext;
  proofs ← result_mapM stage_proof_from_dict proofs;
  Ok {| sac_request_id := rid; sac_proofs := proofs |}.

(** Why a chain is refused. *)
Inductive ChainFault : Type :=
| EmptyChain
| NotContiguous (got expected : Z)
| BrokenBetween (k : Z)
| BrokenEntry
| BrokenExit
| WrongRequest
| InvalidStage (index : Z) (node : string).

(** The first stage whose index is not its position. *)
Fixpoint check_indices (expected : Z) (stages : list StageActivationProof) : option ChainFault :=
  match stages with
  | [] => None
  | p :: rest => if sap_stage_index p =? expected then check_indices (expected + 1) rest
                 else Some (NotContiguous (sap_stage_index p) expected)
  end.

(** The first stage whose output is not the input of the next. *)
Fixpoint check_links (k : Z) (stages : list StageActivationProof) : option ChainFault :=
  match stages with
  | p :: ((q :: _) as rest) =>
      if bool_decide (sap_output_activation_hash p = sap_input_activation_hash q) then check_links (k + 1) rest
      else Some (BrokenBetween k)
  | _ => None
  end.

(** [verify_internal_links]; [None] is [True]. *)
Definition verify_internal_links (c : StageActivationChain) : option ChainFault :=
  match sorted_proofs c with
  | [] => Some EmptyChain
  | stages =>
      match check_indices 0 stages with Some f => Some f | None => check_links 0 stages end
  end.

Definition verify_continuity (c : StageActivationChain) (prompt_hash_hex output_hash_hex : string) : option ChainFault :=
  match verify_internal_links c with
  | Some f => Some f
  | None =>
      if negb (bool_decide (sap_input_activation_hash <$> head (sorted_proofs c) = Some prompt_hash_hex)) then Some BrokenEntry
      else if negb (bool_decide (sap_output_activation_hash <$> last (sorted_proofs c) = Some output_hash_hex)) then Some BrokenExit
      else None
  end.

Definition topology_node_ids (c : StageActivationChain) : list string := sap_stage_node_id <$> sorted_proofs c.

(** [chain_supports_topology] for the positions of a topology; [None] is [True]. *)
Definition chain_supports_topology (c : StageActivationChain) (positions : option (dict (Z * Z) string))
  : option ChainFault :=
  match positions with
  | None => None
  | Some positions =>
      let by_stage i := (filter (λ kv : (Z * Z) * string, kv.1.1 = i) positions).*2 in
      match filter (λ p, sap_stage_node_id p ∉ by_stage (sap_stage_index p)) (sac_proofs c) with
      | [] => None
      | p :: _ => Some (InvalidStage (sap_stage_index p) (sap_stage_node_id p))
      end
  end.

(** ** The attestation of a stage *)

Definition activation_hash (blob : bytes) : string := sha256_hex blob.

(** [environ.get("PRSM_STAGE_PROOF_BIND_ATTESTATION")] is the argument. *)
Definition stage_proof_bind_attestation_enabled (setting : option string) : bool :=
  bool_decide (lower (strip (default "" setting)) ∈ ["1"; "true"; "yes"; "on"]).

Definition tee_attestation_hash_for (attestation : bytes) (setting : option string) : string :=
  match attestation with
  | [] => ""
  | _ => if stage_proof_bind_attestation_enabled setting then activation_hash attestation else ""
  end.

(** ** Signatures *)

Section Signatures.
Context `{Externals}.

(** [anchor] is [anchor.lookup]. *)
Definition verify_stage_proof (anchor : string → option string) (p : StageActivationProof) (request_id : string) : bool :=
  if negb (str_nonempty (sap_stage_signature_b64 p)) then false
  else
    match anchor (sap_stage_node_id p) with
    | None => false
    | Some pubkey_b64 =>
        if negb (str_nonempty pubkey_b64) then false
        else verify_signature (JStr pubkey_b64) (signing_bytes p request_id) (JStr (sap_stage_signature_b64 p))
    end.

Definition verify_stage_activation_chain (anchor : string → option string) (c : StageActivationChain)
    (prompt_hash_hex output_hash_hex : string) (expected_request_id : option string) : option ChainFault :=
  if match expected_request_id with
     | Some r => negb (bool_decide (sac_request_id c = r)) | None => false end
  then Some WrongRequest
  else
    match verify_continuity c prompt_hash_hex output_hash_hex with
    | Some f => Some f
    | None =>
        match filter (λ p, verify_stage_proof anchor p (sac_request_id c) = false) (sorted_proofs c) with
        | [] => None
        | p :: _ => Some (InvalidStage (sap_stage_index p) (sap_stage_node_id p))
        end
    end.

(** The summary's entries; an entry that is left out is [None]. *)
Record ChainSummary : Type := {
  su_stage_count : Z;
  su_node_ids : list string;
  su_internal_links : option ChainFault;
  su_request_id_bound : option bool;
  su_signatures_valid : option bool;
  su_topology : option (option ChainFault)
}.

Definition summarize_stage_activation_chain (c : StageActivationChain) (stage_public_keys : option (dict string string))
    (positions : option (dict (Z * Z) string)) (expected_request_id : option string) : ChainSummary :=
  {| su_stage_count := zlen (sac_proofs c);
     su_node_ids := topology_node_ids c;
     su_internal_links := verify_internal_links c;
     su_request_id_bound := (λ r, bool_decide (sac_request_id c = r)) <$> expected_request_id;
     su_signatures_valid :=
       match stage_public_keys with
       | None | Some [] => None
       | Some keys =>
           Some (forallb (λ p, verify_stage_proof (λ n, dict_get n keys) p (sac_request_id c)) (sac_proofs c))
       end;
     su_topology := (λ ps, chain_supports_topology c (Some ps)) <$> positions |}.
End Signatures.

(** * Theorems on signed activation chains *)

#[local] Open Scope string_scope.
#[local] Open Scope list_scope.
#[local] Open Scope Z_scope.

(** ** The checks *)

Lemma check_indices_None n stages :
  check_indices n stages = None ↔ ∀ k p, stages !! k = Some p → sap_stage_index p = n + Z.of_nat k.
Proof.
  revert n. induction stages as [|q stages IH]; intros n; simpl; [done|]. destruct (Z.eqb_spec (sap_stage_index q) n) as [Hq|Hq].
  - rewrite IH. split.
    + intros Hall [|k] p Hk; simpl in Hk; [injection Hk as <-; lia|]. rewrite (Hall _ _ Hk). lia.
    + intros Hall k p Hk. rewrite (Hall (S k) p Hk). lia.
  - split; [done|]. intros Hall. specialize (Hall O q eq_refl). lia.
Qed.

Lemma check_links_None n stages :
  check_links n stages = None ↔
  ∀ k p q, stages !! k = Some p → stages !! S k = Some q → sap_output_activation_hash p = sap_input_activation_hash q.
Proof.
  revert n. induction stages as [|p [|q stages] IH]; intros n; [by split|by split; [intros _ [] | ]; intros|].
  change (check_links n (p :: q :: stages)) with
    (if bool_decide (sap_output_activation_hash p = sap_input_activation_hash q) then check_links (n + 1) (q :: stages)
     else Some (BrokenBetween n)).
  case_bool_decide as Hpq.
  - rewrite IH. split.
    + intros Hall [|k] p' q' Hp Hq; [by injection Hp as <-; injection Hq as <-|]. by apply (Hall k).
    + intros Hall k p' q' Hp Hq. by apply (Hall (S k)).
  - split; [done|]. intros Hall. destruct Hpq. by apply (Hall O).
Qed.

Lemma filter_false_nil {A} (f : A → bool) l : filter (λ x, f x = false) l = [] ↔ ∀ x, x ∈ l → f x = true.
Proof.
  split.
  - intros Hf x Hx. destruct (f x) eqn:E; [done|].
    assert (x ∈ filter (λ x, f x = false) l) as Hin by by apply list_elem_of_filter. by rewrite Hf in Hin; apply not_elem_of_nil in Hin.
  - intros Hall. destruct (filter _ l) as [|x r] eqn:E; [done|]. exfalso.
    assert (x ∈ filter (λ x, f x = false) l) as [Hx Hin]%list_elem_of_filter by (rewrite E; left). rewrite Hall in Hx; done.
Qed.

(** The stages of a chain, in order. *)
Record ordered_stages (c : StageActivationChain) (stages : list StageActivationProof) : Prop := {
  os_perm : stages ≡ₚ sac_proofs c;
  os_nonempty : stages ≠ [];
  os_index k p : stages !! k = Some p → sap_stage_index p = Z.of_nat k;
  os_link k p q : stages !! k = Some p → stages !! S k = Some q → sap_output_activation_hash p = sap_input_activation_hash q
}.

Lemma stage_leb_total x y : stage_leb x y = true ∨ stage_leb y x = true.
Proof. unfold stage_leb. lia. Qed.
Lemma stage_leb_trans x y z : stage_leb x y = true → stage_leb y z = true → stage_leb x z = true.
Proof. unfold stage_leb. lia. Qed.

Lemma indexed_sorted stages :
  (∀ k p, stages !! k = Some p → sap_stage_index p = Z.of_nat k) → sort_by stage_leb stages = stages.
Proof.
  intros Hidx. apply sort_by_id. unfold sorted_by.
  assert (∀ n l, (∀ k p, l !! k = Some p → sap_stage_index p = n + Z.of_nat k) → StronglySorted (λ x y, stage_leb x y = true) l) as Hgen.
  { intros n l. revert n. induction l as [|p l IH]; intros n Hl; constructor.
    - apply (IH (n + 1)). intros k q Hk. rewrite (Hl (S k) q Hk). lia.
    - apply Forall_forall. intros q [k Hk]%list_elem_of_lookup. unfold stage_leb.
      pose proof (Hl O p eq_refl). pose proof (Hl (S k) q Hk). lia. }
  apply (Hgen 0). intros k p Hk. by rewrite (Hidx k p Hk).
Qed.

Lemma ordered_stages_unique c stages : ordered_stages c stages → sorted_proofs c = stages.
Proof.
  intros [Hp _ Hidx _]. unfold sorted_proofs. rewrite <-(indexed_sorted stages Hidx). symmetry.
  apply sort_by_unique; [apply stage_leb_total | apply stage_leb_trans | | done].
  intros x y [i Hi]%list_elem_of_lookup [j Hj]%list_elem_of_lookup Hxy Hyx. unfold stage_leb in *.
  pose proof (Hidx i x Hi). pose proof (Hidx j y Hj). assert (i = j) as -> by lia. congruence.
Qed.

Lemma internal_links_None c : verify_internal_links c = None ↔ ordered_stages c (sorted_proofs c).
Proof.
  pose proof (sort_by_perm stage_leb (sac_proofs c)) as Hperm. unfold verify_internal_links. fold (sorted_proofs c) in Hperm.
  destruct (sorted_proofs c) as [|p l] eqn:E.
  - split; [done|]. by intros [_ Hne _ _].
  - rewrite <-E. destruct (check_indices 0 (sorted_proofs c)) eqn:Hi; rewrite ?E in *.
    + split; [done|]. intros [_ _ Hidx _]. assert (check_indices 0 (p :: l) = None) as Hn; [|congruence].
      apply check_indices_None. intros k q Hk. by rewrite (Hidx k q Hk).
    + rewrite check_links_None. apply check_indices_None with (n := 0) in Hi || idtac. split.
      * intros Hl. split; [done | done | | exact Hl]. intros k q Hk. rewrite (proj1 (check_indices_None _ _) Hi k q Hk). lia.
      * by intros [_ _ _ Hl].
Qed.

Section Chain.
Context `{Externals}.

(** A chain that proves that [prompt] gave [output]: its stages, in the order of
    their indices 0, 1, ..., lead from one to the other, each signed by its node. *)
Definition proves_computation (anchor : string → option string) (c : StageActivationChain) (prompt output : string) : Prop :=
  ∃ stages, ordered_stages c stages ∧
    sap_input_activation_hash <$> head stages = Some prompt ∧
    sap_output_activation_hash <$> last stages = Some output ∧
    ∀ p, p ∈ stages → verify_stage_proof anchor p (sac_request_id c) = true.

(** C16 A chain is accepted exactly when it proves the computation.  Verification of an
    activation chain succeeds if and only if the chain is of the expected request, its
    stages have the indices 0, 1, ..., n - 1 with n at least 1, in whatever order they
    are listed, each stage's output is the next one's input, the first input is the
    prompt and the last output is the output, and every stage carries a signature that
    verifies under the key the anchor has for its node. *)
Theorem chain_exact anchor c prompt output expected :
  verify_stage_activation_chain anchor c prompt output expected = None ↔
  (∀ r, expected = Some r → sac_request_id c = r) ∧ proves_computation anchor c prompt output.
Proof.
  unfold verify_stage_activation_chain, verify_continuity.
  assert (match expected with Some r => negb (bool_decide (sac_request_id c = r)) | None => false end = false ↔
          ∀ r, expected = Some r → sac_request_id c = r) as Hreq.
  { destruct expected as [r|]; [|by split]. rewrite negb_false_iff, bool_decide_eq_true. split; [by intros -> ? [= <-] | auto]. }
  rewrite <-Hreq. destruct (match expected with Some _ => _ | None => _ end); [by split; [|intros [? _]]|].
  assert (∀ P, (false = false ∧ P) ↔ P) as Ht by tauto. rewrite Ht. clear Hreq Ht. split.
  - destruct (verify_internal_links c) eqn:Hl; [done|]. apply internal_links_None in Hl.
    repeat case_bool_decide; try done. cbn [negb]. destruct (filter _ _) eqn:Hf; [|done]. intros _.
    exists (sorted_proofs c). split_and!; [done..|]. by apply filter_false_nil.
  - intros (stages & Ho & Hin & Hout & Hsig). pose proof (ordered_stages_unique c stages Ho) as E.
    rewrite (proj2 (internal_links_None c)) by by rewrite E. rewrite E, Hin, Hout, !bool_decide_true by done. cbn [negb].
    by rewrite (proj2 (filter_false_nil _ stages)).
Qed.
End Chain.

(** ** What a stage signs *)

(** Texts that do not spill into the next line. *)
Definition stage_one_line (p : StageActivationProof) (request_id : string) : Prop :=
  one_line request_id = true ∧ one_line (sap_stage_node_id p) = true ∧ one_line (sap_input_activation_hash p) = true ∧
  one_line (sap_output_activation_hash p) = true ∧ one_line (sap_tee_attestation_hash p) = true.

Lemma stage_lines_one_line p r : stage_one_line p r → Forall (λ s, one_line s = true) (stage_lines p r).
Proof.
  intros (Hr & Hn & Hi & Ho & Ht). unfold stage_lines, tee_line. rewrite Forall_app, !Forall_cons, Forall_nil.
  split_and!; try done; [apply one_line_int|]. destruct (str_nonempty _); [|done].
  rewrite Forall_singleton, one_line_app, Ht. done.
Qed.

Lemma signing_bytes_inj p r q s :
  stage_one_line p r → stage_one_line q s → signing_bytes p r = signing_bytes q s →
  r = s ∧ sap_stage_index p = sap_stage_index q ∧ sap_stage_node_id p = sap_stage_node_id q ∧
  sap_input_activation_hash p = sap_input_activation_hash q ∧ sap_output_activation_hash p = sap_output_activation_hash q ∧
  sap_tee_attestation_hash p = sap_tee_attestation_hash q.
Proof.
  intros Hp Hq Heq%utf8_inj. apply join_lines_inj in Heq; [|by apply stage_lines_one_line..|done|done].
  unfold stage_lines in Heq. injection Heq as Hr Hi%(inj str_of_int) Hn Hin Hout Ht. split_and!; try done.
  unfold tee_line in Ht. destruct (sap_tee_attestation_hash p), (sap_tee_attestation_hash q); cbn in Ht; try done.
  by injection Ht as -> ->.
Qed.

(** Without that, a signature for one stage is one for another: here a proof bound to
    an attestation has the signing bytes of an unbound one. *)
Lemma stage_signature_reused :
  let p := {| sap_stage_index := 0; sap_stage_node_id := "n"; sap_input_activation_hash := "a"; sap_output_activation_hash := "b";
              sap_stage_signature_b64 := ""; sap_tee_attestation_hash := "t" |} in
  let q := {| sap_stage_index := 0; sap_stage_node_id := "n"; sap_input_activation_hash := "a";
              sap_output_activation_hash := "b" +:+ newline +:+ "tee_attestation_hash=t";
              sap_stage_signature_b64 := ""; sap_tee_attestation_hash := "" |} in
  signing_bytes p "r" = signing_bytes q "r".
Proof. reflexivity. Qed.

(** ** The dictionaries *)

Lemma stage_proof_roundtrip p : stage_proof_from_dict (stage_proof_to_dict p) = Ok p.
Proof.
  destruct p as [i n a b s t]. unfold stage_proof_to_dict. cbn. destruct t as [|c t]; reflexivity.
Qed.

Lemma chain_roundtrip c :
  chain_from_dict (chain_to_dict c) = Ok {| sac_request_id := sac_request_id c; sac_proofs := sorted_proofs c |}.
Proof.
  assert (result_mapM stage_proof_from_dict (stage_proof_to_dict <$> sorted_proofs c) = Ok (sorted_proofs c)) as Hm.
  { induction (sorted_proofs c) as [|p l IH]; [done|]. rewrite fmap_cons. cbn [result_mapM].
    rewrite stage_proof_roundtrip. cbn [mbind result_bind]. by rewrite IH. }
  unfold chain_from_dict, chain_to_dict.
  change (get_or _ "request_id" _) with (Ok (TStr (sac_request_id c))).
  change (get_or _ "proofs" _) with (Ok (TArr (stage_proof_to_dict <$> sorted_proofs c))).
  cbn [mbind result_bind str_of_jtext iter_jtext]. by rewrite Hm.
Qed.
