(* ===== verification/InferenceModels.v ===== *)
(** * Inference receipts

    Models prsm/compute/inference/models.py ([InferenceReceipt] and what its settler
    signs), with the records it carries: partial completion
    (compute/inference/partial_completion.py), the topology of the stages
    (compute/inference/topology_rotation.py), the noise trace
    (compute/inference/activation_dp.py), the trusted execution environments
    (compute/tee/models.py).  A float is its text. *)
From Stdlib Require Import ZArith Lia.
From S2P Require Import PyStd.
From S2P Require Import PyNumbers.
From S2P Require Import ActivationChain.
From S2P Require Import PyJson.
From S2P Require Import PerStageSplit.
From S2P Require Import Prelude.

#[local] Open Scope string_scope.
#[local] Open Scope list_scope.
#[local] Open Scope Z_scope.

(** ** Enumerations *)

Inductive ContentTier : Type := TIER_A | TIER_B | TIER_C.

Definition content_tier_value (t : ContentTier) : string :=
  match t with TIER_A => "A" | TIER_B => "B" | TIER_C => "C" end.

Inductive PrivacyLevel : Type := PRIVACY_NONE | PRIVACY_STANDARD | PRIVACY_HIGH | PRIVACY_MAXIMUM.

Definition privacy_value (p : PrivacyLevel) : string :=
  match p with
  | PRIVACY_NONE => "none" | PRIVACY_STANDARD => "standard" | PRIVACY_HIGH => "high" | PRIVACY_MAXIMUM => "maximum"
  end.

Inductive TEEType : Type := TEE_NONE | SGX | TDX | SEV | TRUSTZONE | SECURE_ENCLAVE | TEE_SOFTWARE.

Definition tee_value (t : TEEType) : string :=
  match t with
  | TEE_NONE => "none" | SGX => "sgx" | TDX => "tdx" | SEV => "sev" | TRUSTZONE => "trustzone"
  | SECURE_ENCLAVE => "secure_enclave" | TEE_SOFTWARE => "software"
  end.

(** ** The records a receipt carries *)

Record PartialCompletionInfo : Type := {
  pci_reason : string;
  pci_tokens_completed : Z;
  pci_tokens_requested : Z;
  pci_timestamp : string
}.

Definition partial_to_dict (i : PartialCompletionInfo) : jtext :=
  TObj [("reason", TStr (pci_reason i)); ("tokens_completed", TInt (pci_tokens_completed i));
        ("tokens_requested", TInt (pci_tokens_requested i)); ("timestamp", TStr (pci_timestamp i))].

Definition partial_from_dict (d : jtext) : result PartialCompletionInfo :=
  reason ← subscript d "reason" ≫= str_of_jtext;
  completed ← subscript d "tokens_completed" ≫= int_of_jtext;
  requested ← subscript d "tokens_requested" ≫= int_of_jtext;
  timestamp ← subscript d "timestamp" ≫= str_of_jtext;
  Ok {| pci_reason := reason; pci_tokens_completed := completed; pci_tokens_requested := requested;
        pci_timestamp := timestamp |}.

Definition partial_stable_hash (i : PartialCompletionInfo) : string := json_digest (partial_to_dict i).

Record TopologyAssignment : Type := {
  ta_positions : dict (Z * Z) string;
  ta_stage_count : Z;
  ta_slots_per_stage : Z
}.

Definition topology_position_leb (a b : (Z * Z) * string) : bool :=
  let '(s, sl, _) := a in let '(s', sl', _) := b in (s <? s') || ((s =? s') && (sl <=? sl')).

Definition positions_json (ta : TopologyAssignment) : jtext :=
  TArr ((λ kv : (Z * Z) * string, TArr [TInt kv.1.1; TInt kv.1.2; TStr kv.2]) <$>
        sort_by topology_position_leb (ta_positions ta)).

Definition topology_stable_hash (ta : TopologyAssignment) : string := json_digest (positions_json ta).

Definition topology_to_dict (ta : TopologyAssignment) : jtext :=
  TObj [("positions", positions_json ta); ("stage_count", TInt (ta_stage_count ta));
        ("slots_per_stage", TInt (ta_slots_per_stage ta))].

(** One entry of the list of positions: [s, sl, node = entry]. *)
Definition position_entry (ps : dict (Z * Z) string) (entry : jtext) : result (dict (Z * Z) string) :=
  parts ← iter_jtext entry;
  match parts with
  | [s; sl; node] =>
      s ← int_of_jtext s; sl ← int_of_jtext sl; node ← str_of_jtext node; Ok (dict_set (s, sl) node ps)
  | _ => Err ValueError
  end.

Definition topology_from_dict (d : jtext) : result TopologyAssignment :=
  entries ← get_or d "positions" (TArr []) ≫= iter_jtext;
  positions ← result_foldM position_entry [] entries;
  stage_count ← get_or d "stage_count" (TInt 0) ≫= int_of_jtext;
  slots ← get_or d "slots_per_stage" (TInt 0) ≫= int_of_jtext;
  Ok {| ta_positions := positions; ta_stage_count := stage_count; ta_slots_per_stage := slots |}.

(** The topology of a routed chain: one slot per stage. *)
Definition topology_from_chain_stages (stages : list string) : TopologyAssignment :=
  {| ta_positions := imap (λ i node, ((Z.of_nat i, 0), node)) stages;
     ta_stage_count := zlen stages; ta_slots_per_stage := 1 |}.

Record ActivationNoiseTrace : Type := {
  nt_per_stage_epsilon : list string;
  nt_total_epsilon_spent : string;
  nt_clip_norm : string;
  nt_stage_count : Z;
  nt_tier : string
}.

Definition noise_trace_to_dict (t : ActivationNoiseTrace) : jtext :=
  TObj [("per_stage_epsilon", TArr (TFloat <$> nt_per_stage_epsilon t));
        ("total_epsilon_spent", TFloat (nt_total_epsilon_spent t)); ("clip_norm", TFloat (nt_clip_norm t));
        ("stage_count", TInt (nt_stage_count t)); ("tier", TStr (nt_tier t))].

(** ** Receipts *)

Record InferenceReceipt : Type := {
  ir_job_id : string;
  ir_request_id : string;
  ir_model_id : string;
  ir_content_tier : ContentTier;
  ir_privacy_tier : PrivacyLevel;
  ir_epsilon_spent : string;
  ir_tee_type : TEEType;
  ir_tee_attestation : bytes;
  ir_output_hash : bytes;
  ir_duration_seconds : string;
  ir_cost_ftns : decimal;
  ir_settler_signature : bytes;
  ir_settler_node_id : string;
  ir_settler_pubkey_b64 : option string;
  ir_streamed_output : bool;
  ir_activation_noise_trace : option ActivationNoiseTrace;
  ir_topology_assignment : option TopologyAssignment;
  ir_partial_completion : option PartialCompletionInfo;
  ir_prompt_hash : option bytes;
  ir_stage_activation_chain : option StageActivationChain;
  ir_per_stage_settlement_signatures : option (dict string NodeSignatureMaterial)
}.

(** [receipt.topology_assignment.positions], if any *)
Definition ir_positions (r : InferenceReceipt) : option (dict (Z * Z) string) :=
  ta_positions <$> ir_topology_assignment r.

(** A line that is there when its field is. *)
Definition opt_line (label : string) (value : option string) : list string :=
  option_list ((λ s, label +:+ s) <$> value).

Definition signing_lines (r : InferenceReceipt) : list string :=
  [ir_job_id r; ir_request_id r; ir_model_id r; content_tier_value (ir_content_tier r);
   privacy_value (ir_privacy_tier r); format_fixed 10 (float_of_repr (ir_epsilon_spent r));
   tee_value (ir_tee_type r); hex (ir_tee_attestation r); hex (ir_output_hash r);
   format_fixed 6 (float_of_repr (ir_duration_seconds r)); dec_str (ir_cost_ftns r); ir_settler_node_id r] ++
  opt_line "streamed_output:" (if ir_streamed_output r then Some "true" else None) ++
  opt_line "activation_noise_trace:" ((λ t, json_digest (noise_trace_to_dict t)) <$> ir_activation_noise_trace r) ++
  opt_line "topology_assignment:" (topology_stable_hash <$> ir_topology_assignment r) ++
  opt_line "partial_completion:" (partial_stable_hash <$> ir_partial_completion r) ++
  opt_line "prompt_hash:" (hex <$> ir_prompt_hash r) ++
  opt_line "stage_activation_chain:" (chain_stable_hash <$> ir_stage_activation_chain r).

Definition signing_payload (r : InferenceReceipt) : bytes := utf8 (join_lines (signing_lines r)).
