(* ===== verification/CreditPolicy.v ===== *)
(** * The credit policy of a settled inference

    Models prsm/economy/credit_policy.py: what an operator is credited for a
    receipt, whether it is slashed, what goes back to the payer, and how the
    release is split over the stage nodes.  The awaited calls of the payment
    escrow ([settle_inference_receipt]) are not modelled. *)
From Stdlib Require Import ZArith Lia QArith Lqa.
From S2P Require Import PyStd.
From S2P Require Import PyNumbers.
From S2P Require Import Receipt.
From S2P Require Import PerStageSplit.
From S2P Require Import InferenceModels.
From S2P Require Import Prelude.

#[local] Open Scope string_scope.
#[local] Open Scope list_scope.
#[local] Open Scope Z_scope.

(** ** Data *)

Record SettlementDecision : Type := {
  release_to_operator : decimal;
  refund_to_payer : decimal;
  should_slash : bool
}.

(** ** Operations *)

Definition NO_SLASH_REASONS : list string := ["preempted"; "timeout"].

Definition should_slash_for_receipt (r : InferenceReceipt) : bool :=
  match ir_partial_completion r with
  | None => false
  | Some info => negb (bool_decide (pci_reason info ∈ NO_SLASH_REASONS))
  end.

Section Policy.
Variable prec : Z.

Definition effective_cost_for_receipt (r : InferenceReceipt) : result decimal :=
  match ir_partial_completion r with
  | None => Ok (ir_cost_ftns r)
  | Some info =>
      let requested := pci_tokens_requested info in
      let completed := pci_tokens_completed info in
      if requested <=? 0 then Ok dec_zero
      else if requested <=? completed then Ok (ir_cost_ftns r)
      else if completed <=? 0 then Ok dec_zero
      else
        scaled ← dec_mul prec (ir_cost_ftns r) (dec_of_int completed);
        dec_div prec scaled (dec_of_int requested)
  end.

Definition compute_settlement_for_receipt (r : InferenceReceipt) (escrow : option decimal)
  : result SettlementDecision :=
  let escrow_amount := default (ir_cost_ftns r) escrow in
  release ← effective_cost_for_receipt r;
  let release := if negb (dec_leb release escrow_amount) then escrow_amount else release in
  refund ← dec_sub prec escrow_amount release;
  Ok {| release_to_operator := release; refund_to_payer := refund;
        should_slash := should_slash_for_receipt r |}.

(** [None]: the caller keeps the single payee. *)
Definition split_release_across_stages (r : InferenceReceipt) (release : decimal)
  : result (option (list (string * decimal))) :=
  match distinct_node_ids_with_stage (ir_positions r) with
  | None => Ok None
  | Some distinct =>
      per ← dec_div prec release (dec_of_int (zlen distinct));
      let splits := (λ node : string * Z, (node.1, per)) <$> distinct in
      total ← dec_sum prec splits.*2;
      drift ← dec_sub prec release total;
      if dec_eqb drift dec_zero then Ok (Some splits)
      else
        match splits with
        | (first_id, first_amt) :: rest =>
            amt ← dec_add prec first_amt drift; Ok (Some ((first_id, amt) :: rest))
        | [] => Err IndexError
        end
  end.
End Policy.

(** ** Properties *)

Lemma strip_zeros_nonneg f c e i : 0 <= c → 0 <= dec_coef (strip_zeros f c e i).
Proof.
  revert c e. induction f as [|f IH]; intros c e Hc; simpl; [done|].
  destruct (_ && _); [|done]. apply IH, Z.div_pos; lia.
Qed.

Lemma dec_div_nonneg prec a b d :
  0 <= dec_coef a → 0 <= dec_coef b → dec_div prec a b = Ok d → 0 <= dec_coef d.
Proof.
  intros Ha Hb. unfold dec_div. rewrite (Z.abs_eq (dec_coef a)), (Z.abs_eq (dec_coef b)) by done.
  destruct (Z.eqb_spec (dec_coef b) 0); [done|].
  destruct (Z.eqb_spec (dec_coef a) 0); [by intros Hd%dec_fix_nonneg|].
  intros Hd. eapply dec_fix_nonneg; [|exact Hd]. clear Hd. cbn [dec_coef].
  apply Z.mul_nonneg_nonneg; [rewrite !Z.sgn_pos by lia; lia|].
  match goal with |- context [?n / ?m] => set (nn := n); set (mm := m); assert (0 <= nn / mm) end.
  { apply Z.div_pos.
    - unfold nn. case_match; [|done]. apply Z.mul_nonneg_nonneg; [done | apply Z.pow_nonneg; lia].
    - unfold mm. case_match; [lia|]. apply Z.mul_pos_pos; [lia | apply Z.pow_pos_nonneg; lia]. }
  destruct (negb _); [|by apply strip_zeros_nonneg]. cbn [dec_coef]. case_match; lia.
Qed.

Lemma effective_cost_nonneg prec r d :
  0 <= dec_coef (ir_cost_ftns r) → effective_cost_for_receipt prec r = Ok d → 0 <= dec_coef d.
Proof.
  intros Hc. unfold effective_cost_for_receipt.
  destruct (ir_partial_completion r) as [info|]; [|by intros; inv_result].
  destruct (Z.leb_spec (pci_tokens_requested info) 0); [by intros; inv_result|].
  destruct (Z.leb_spec (pci_tokens_requested info) (pci_tokens_completed info)); [by intros; inv_result|].
  destruct (Z.leb_spec (pci_tokens_completed info) 0); [by intros; inv_result|].
  intros Hd. apply bind_Ok_inv in Hd as (s & Hs & Hd). eapply dec_div_nonneg; [| |exact Hd]; [|simpl; lia].
  eapply dec_fix_nonneg; [|exact Hs]. cbn [dec_coef dec_of_int]. apply Z.mul_nonneg_nonneg; [done | lia].
Qed.

(** The decision on a settled inference: whatever the precision, the release is
    between nothing and the escrowed amount and the refund is not negative; the
    operator is slashed exactly when the receipt is partial for a reason other
    than preemption or timeout; a complete receipt releases its cost, or the whole
    escrow when it costs more; and when the escrow and the release are multiples of
    one power of ten with at most [prec] digits, release and refund add up to the
    escrow exactly. *)
Theorem settlement_decision_sound prec r escrow d (amount := default (ir_cost_ftns r) escrow) :
  1 <= prec → 0 <= dec_coef (ir_cost_ftns r) → 0 <= dec_coef amount →
  compute_settlement_for_receipt prec r escrow = Ok d →
  (0 <= dec_val (release_to_operator d) <= dec_val amount)%Q ∧
  (0 <= dec_val (refund_to_payer d))%Q ∧
  (should_slash d = true ↔ ∃ info, ir_partial_completion r = Some info ∧
                             pci_reason info ≠ "preempted" ∧ pci_reason info ≠ "timeout") ∧
  (ir_partial_completion r = None →
     dec_val (release_to_operator d) = dec_val (ir_cost_ftns r) ∧ (dec_val (ir_cost_ftns r) <= dec_val amount)%Q ∨
     release_to_operator d = amount ∧ (dec_val amount < dec_val (ir_cost_ftns r))%Q) ∧
  (∀ k k' e, (dec_val (release_to_operator d) == inject_Z k' * pow10 e)%Q →
     representable prec (dec_val amount) k e →
     (dec_val (release_to_operator d) + dec_val (refund_to_payer d) == dec_val amount)%Q).
Proof.
  intros Hp Hcost Hamount Hd. unfold compute_settlement_for_receipt in Hd. fold amount in Hd.
  apply bind_Ok_inv in Hd as (eff & Heff & Hd). set (release := if negb _ then _ else _) in Hd.
  apply bind_Ok_inv in Hd as (refund & Href & Hd). injection Hd as <-. simpl.
  pose proof (effective_cost_nonneg _ _ _ Hcost Heff) as Heff0.
  assert (0 <= dec_coef release ∧ (dec_val release <= dec_val amount)%Q) as [Hr0 Hr].
  { unfold release. destruct (dec_leb eff amount) eqn:El; simpl; [|split; [done | apply Qle_refl]].
    by apply dec_leb_val in El. }
  apply dec_val_nonneg in Hr0 as Hr0'.
  assert (0 <= dec_coef refund) as Hf0.
  { eapply dec_fix_nonneg; [|exact Href]. apply dec_val_nonneg. rewrite dec_add_val, dec_opp_val. lra. }
  split_and!; [done | done | by apply dec_val_nonneg | | |].
  - unfold should_slash_for_receipt, NO_SLASH_REASONS.
    destruct (ir_partial_completion r) as [info|]; [|by split; [done | intros (? & ? & _)]].
    rewrite negb_true_iff, bool_decide_eq_false. set_solver.
  - intros Hn. unfold effective_cost_for_receipt in Heff. rewrite Hn in Heff. injection Heff as <-.
    unfold release. destruct (dec_leb (ir_cost_ftns r) amount) eqn:El; simpl.
    + left. by apply dec_leb_val in El.
    + right. split; [done|]. apply Qnot_le_lt. intros Hle. apply dec_leb_val in Hle. congruence.
  - intros k k' e Hk' [Hk Hkd Hrange].
    assert (0 <= k' <= k).
    { rewrite Hk' in Hr0', Hr. rewrite Hk in Hr. split.
      - destruct (Z.lt_ge_cases k' 0) as [Hn|]; [|done]. apply (grid_lt _ _ e) in Hn.
        change (inject_Z 0) with 0%Q in Hn. lra.
      - destruct (Z.lt_ge_cases k k') as [Hn|]; [|done]. apply (grid_lt _ _ e) in Hn. lra. }
    destruct (dec_sub_exact prec amount release (k - k') e) as (f & Hf & Hfv); [done | |].
    + split; [|lia|done]. rewrite Hk, Hk'. unfold Z.sub. rewrite inject_Z_plus, inject_Z_opp. ring.
    + rewrite Href in Hf. injection Hf as <-. rewrite Hfv. ring.
Qed.

(** ** A concrete decision *)

(** An inference of one FTNS, [completed] of [requested] tokens done. *)
Definition partial_receipt (completed requested : Z) (nodes : option (dict (Z * Z) string)) : InferenceReceipt :=
  {| ir_job_id := "parallax-job-1"; ir_request_id := "1"; ir_model_id := "m"; ir_content_tier := TIER_A;
     ir_privacy_tier := PRIVACY_NONE; ir_epsilon_spent := "inf"; ir_tee_type := TEE_SOFTWARE; ir_tee_attestation := [];
     ir_output_hash := zero32; ir_duration_seconds := "1.5"; ir_cost_ftns := dec_of_int 1; ir_settler_signature := [];
     ir_settler_node_id := "n0"; ir_settler_pubkey_b64 := None; ir_streamed_output := false;
     ir_activation_noise_trace := None;
     ir_topology_assignment := (λ ps, {| ta_positions := ps; ta_stage_count := zlen ps; ta_slots_per_stage := 1 |}) <$> nodes;
     ir_partial_completion := Some {| pci_reason := "preempted"; pci_tokens_completed := completed;
                                      pci_tokens_requested := requested; pci_timestamp := "2026-05-23T12:00:00Z" |};
     ir_prompt_hash := None; ir_stage_activation_chain := None; ir_per_stage_settlement_signatures := None |}.

Definition quarter : SettlementDecision :=
  {| release_to_operator := {| dec_coef := 25; dec_exp := -2 |};
     refund_to_payer := {| dec_coef := 75; dec_exp := -2 |}; should_slash := false |}.

Lemma settlement_decision_sound_witness :
  compute_settlement_for_receipt 28 (partial_receipt 1 4 None) None = Ok quarter ∧
  (dec_val (release_to_operator quarter) + dec_val (refund_to_payer quarter) == 1)%Q.
Proof.
  assert (compute_settlement_for_receipt 28 (partial_receipt 1 4 None) None = Ok quarter) as Hd by (vm_compute; reflexivity).
  split; [exact Hd|].
  destruct (settlement_decision_sound 28 (partial_receipt 1 4 None) None quarter) as (_ & _ & _ & _ & H);
    [lia | simpl; lia | simpl; lia | exact Hd |].
  apply (H 100 25 (-2)).
  - reflexivity.
  - split; [reflexivity | reflexivity | vm_compute; split; discriminate].
Defined.

(** The decision's documentation states that release and refund always add up to
    the escrow.  At the default precision they do not for 1 of 300 tokens. *)
Lemma conservation_can_fail :
  ∃ d, compute_settlement_for_receipt 28 (partial_receipt 1 300 None) None = Ok d ∧
    ¬ (dec_val (release_to_operator d) + dec_val (refund_to_payer d) == 1)%Q.
Proof. eexists. split; [vm_compute; reflexivity|]. vm_compute. discriminate. Qed.

(** The split's documentation states that the residual of the division is never
    an overpayment.  One FTNS over six nodes pays 2 * 10^-28 too much. *)
Lemma split_can_overpay :
  ∃ splits, split_release_across_stages 28
      (partial_receipt 1 1 (Some [((0, 0), "a"); ((1, 0), "b"); ((2, 0), "c"); ((3, 0), "d"); ((4, 0), "e"); ((5, 0), "f")]))
      (dec_of_int 1) = Ok (Some splits) ∧
    (1 < foldr (λ x acc, dec_val x.2 + acc) 0 splits)%Q.
Proof. eexists. split; [vm_compute; reflexivity|]. vm_compute. reflexivity. Qed.
