(* ===== verification/InferenceAdapter.v ===== *)
(** * From an inference receipt to a settlement receipt

    Models prsm/settlement/inference_adapter.py, the attestation record it
    attaches ([tee_attestation_audit_dict] of prsm/compute/shard_receipt.py) and
    the node identity that re-signs the receipt (prsm/node/identity.py).

    Arguments are taken at their annotated types, so the adapter's [isinstance]
    checks are decided; every other check is kept. *)
From Stdlib Require Import ZArith Lia.
From S2P Require Import PyStd.
From S2P Require Import PyBase64.
From S2P Require Import PyNumbers.
From S2P Require Import Externals.
From S2P Require Import Receipt.
From S2P Require Import Attestation.
From S2P Require Import Merkle.
From S2P Require Import Registry.
From S2P Require Import Challenges.
From S2P Require Import InferenceModels.
From S2P Require Import CreditPolicy.
From S2P Require Import Prelude.

#[local] Open Scope string_scope.
#[local] Open Scope list_scope.
#[local] Open Scope Z_scope.

(** ** Signing keys

    The [cryptography] package's Ed25519: [from_private_bytes] raises on a key of
    a wrong length; a signature verifies under the public key of its key, and is
    not empty; public keys have 32 bytes. *)
Class Ed25519 `{Externals} : Type := {
  (** [Ed25519PrivateKey.from_private_bytes(k).public_key()], raw *)
  ed25519_public : bytes → result bytes;
  (** [Ed25519PrivateKey.from_private_bytes(k).sign(m)] *)
  ed25519_sign : bytes → bytes → result bytes;
  ed25519_sign_verifies : ∀ k p m, ed25519_public k = Ok p →
    ∃ s, ed25519_sign k m = Ok s ∧ ed25519_verify p m s = true;
  ed25519_sign_nonempty k m s : ed25519_sign k m = Ok s → s ≠ [];
  ed25519_public_length k p : ed25519_public k = Ok p → length p = 32%nat
}.

(** ** NodeIdentity *)

Record NodeIdentity : Type := {
  ni_node_id : string;
  ni_public_key_bytes : bytes;
  ni_private_key_bytes : bytes
}.

Definition node_id_for_public_key (public_bytes : bytes) : string := stake 32 (sha256_hex public_bytes).

Definition public_key_b64 (i : NodeIdentity) : string := b64encode (ni_public_key_bytes i).

Section Identity.
Context `{Ed25519}.

(** [NodeIdentity.sign] *)
Definition identity_sign (i : NodeIdentity) (data : bytes) : result string :=
  b64encode <$> ed25519_sign (ni_private_key_bytes i) data.

(** [generate_node_identity]; the generated private key is an argument. *)
Definition generate_node_identity (private_bytes : bytes) : result NodeIdentity :=
  public_bytes ← ed25519_public private_bytes;
  Ok {| ni_node_id := node_id_for_public_key public_bytes; ni_public_key_bytes := public_bytes;
        ni_private_key_bytes := private_bytes |}.
End Identity.

(** ** The attestation record *)

(** [b.startswith(prefix)] *)
Fixpoint starts_with (prefix b : bytes) : bool :=
  match prefix, b with
  | [], _ => true
  | x :: prefix', y :: b' => bool_decide (x = y) && starts_with prefix' b'
  | _ :: _, [] => false
  end.

Definition SOFTWARE_TEE_ATTESTATION_PREFIX : bytes := utf8 "DEV-ONLY-SW-TEE:".
Definition MULTI_STAGE_MAGIC_PREFIX : bytes := utf8 "PRSM-MS-ATT-V1:".

Definition is_multi_stage_attestation (blob : bytes) : bool := starts_with MULTI_STAGE_MAGIC_PREFIX blob.

Definition tee_attestation_audit_dict (attestation : bytes) (tee_type : option TEEType) : option json :=
  match attestation with
  | [] => None
  | _ =>
      Some (JObj ([("attestation_b64", JStr (b64encode attestation));
                   ("is_dev_only", JBool (starts_with SOFTWARE_TEE_ATTESTATION_PREFIX attestation));
                   ("is_multi_stage", JBool (is_multi_stage_attestation attestation))] ++
                  match tee_type with Some t => [("tee_type", JStr (tee_value t))] | None => [] end))
  end.

(** ** The adapter *)

Fixpoint hex_digits_then_end (n : nat) (s : string) : bool :=
  match n, s with
  | O, "" => true
  (* the regular expression's [$] also matches before a final newline *)
  | O, String c "" => bool_decide (N_of_ascii c = 10%N)
  | S n', String c s' => bool_decide (is_Some (hex_val c)) && hex_digits_then_end n' s'
  | _, _ => false
  end.

(** [_ADDRESS_RE.match(s)] *)
Definition address_match (s : string) : bool := starts_0x s && hex_digits_then_end 40 (sdrop 2 s).

Section Adapter.
Context `{Ed25519}.

Record AdapterArgs : Type := {
  ad_requester_address : string;
  ad_provider_address : string;
  ad_value_ftns : Z;
  ad_local_escrow_id : string;
  ad_executed_at_unix : Z;
  ad_shard_index : Z;
  ad_tier_slash_rate_bps : Z;
  ad_consensus_group_id : bytes
}.

(** The receipt built once every check has passed. *)
Definition adapted (r : InferenceReceipt) (i : NodeIdentity) (a : AdapterArgs) (signature : string)
  : BatchedReceipt :=
  {| receipt := {| job_id := ir_job_id r; shard_index := ad_shard_index a; provider_id := ni_node_id i;
                   provider_pubkey_b64 := public_key_b64 i; output_hash := hex (ir_output_hash r);
                   executed_at_unix := ad_executed_at_unix a; signature := signature;
                   tee_attestation := tee_attestation_audit_dict (ir_tee_attestation r) (Some (ir_tee_type r)) |};
     requester_address := ad_requester_address a; provider_address := ad_provider_address a;
     value_ftns := ad_value_ftns a; local_escrow_id := ad_local_escrow_id a;
     tier_slash_rate_bps := ad_tier_slash_rate_bps a; consensus_group_id := ad_consensus_group_id a |}.

Definition inference_receipt_to_batched_receipt (r : InferenceReceipt) (identity : option NodeIdentity)
    (a : AdapterArgs) : result BatchedReceipt :=
  match identity with
  | None => Err ValueError
  | Some i =>
      _ ← raise_if (negb (str_nonempty (ni_node_id i))) ValueError;
      let settler := ir_settler_node_id r in
      _ ← raise_if (negb (str_nonempty settler)) ValueError;
      _ ← raise_if (negb (settler =? ni_node_id i)%string) ValueError;
      _ ← raise_if (negb (zlen (ir_output_hash r) =? 32)) ValueError;
      _ ← raise_if ((ad_value_ftns a <? 0) || (2 ^ 128 <=? ad_value_ftns a)) ValueError;
      _ ← raise_if (negb (str_nonempty (ad_local_escrow_id a))) ValueError;
      _ ← raise_if (negb (address_match (ad_requester_address a))) ValueError;
      _ ← raise_if (negb (address_match (ad_provider_address a))) ValueError;
      _ ← raise_if ((ad_executed_at_unix a <? 0) || (2 ^ 64 <=? ad_executed_at_unix a)) ValueError;
      let sig_payload := build_receipt_signing_payload (ir_job_id r) (ad_shard_index a)
                           (hex (ir_output_hash r)) (ad_executed_at_unix a) in
      signature ← identity_sign i sig_payload;
      BatchedReceipt_post_init (adapted r i a signature)
  end.
End Adapter.

(** ** Properties *)

Section AdapterFacts.
Context `{Ed25519}.

(** The identities [generate_node_identity] makes. *)
Definition genuine (i : NodeIdentity) : Prop :=
  generate_node_identity (ni_private_key_bytes i) = Ok i.

(** What the adapter accepts. *)
Record adaptable (r : InferenceReceipt) (i : NodeIdentity) (a : AdapterArgs) : Prop := {
  aa_settler : ir_settler_node_id r = ni_node_id i;
  aa_output : length (ir_output_hash r) = 32%nat;
  aa_value : 0 <= ad_value_ftns a < 2 ^ 128;
  aa_escrow : ad_local_escrow_id a ≠ "";
  aa_requester : address_match (ad_requester_address a) = true;
  aa_provider : address_match (ad_provider_address a) = true;
  aa_time : 0 <= ad_executed_at_unix a < 2 ^ 64;
  aa_bps : 0 <= ad_tier_slash_rate_bps a <= 10000;
  aa_group : length (ad_consensus_group_id a) = 32%nat
}.

Lemma genuine_key i :
  genuine i → ed25519_public (ni_private_key_bytes i) = Ok (ni_public_key_bytes i) ∧
              ni_node_id i = node_id_for_public_key (ni_public_key_bytes i).
Proof.
  unfold genuine, generate_node_identity. intros Hg. apply bind_Ok_inv in Hg as (p & Hp & Hi).
  destruct i; simpl in *. by injection Hi as <- <-.
Qed.

Lemma genuine_nonempty i : genuine i → str_nonempty (ni_node_id i) = true.
Proof.
  intros [_ ->]%genuine_key. unfold node_id_for_public_key, sha256_hex.
  pose proof (sha256_length (ni_public_key_bytes i)) as Hl. destruct (sha256 _); [done|]. done.
Qed.

(** Signing with a genuine identity succeeds, and the signature is the one every
    verifier of the shard payload accepts. *)
Lemma genuine_sign i m :
  genuine i → ∃ s raw, identity_sign i m = Ok s ∧ b64decode s = Some raw ∧
    ed25519_verify (ni_public_key_bytes i) m raw = true.
Proof.
  intros [Hk _]%genuine_key. destruct (ed25519_sign_verifies _ _ m Hk) as (raw & Hs & Hv).
  exists (b64encode raw), raw. unfold identity_sign. rewrite Hs. by rewrite b64_roundtrip.
Qed.

Lemma str_nonempty_iff s : str_nonempty s = true ↔ s ≠ "".
Proof. by destruct s. Qed.

Lemma adapter_Ok r i a br :
  genuine i → inference_receipt_to_batched_receipt r (Some i) a = Ok br →
  adaptable r i a ∧
  ∃ s raw, br = adapted r i a s ∧ b64decode s = Some raw ∧
    ed25519_verify (ni_public_key_bytes i)
      (build_receipt_signing_payload (ir_job_id r) (ad_shard_index a) (hex (ir_output_hash r)) (ad_executed_at_unix a))
      raw = true.
Proof.
  intros Hg. unfold inference_receipt_to_batched_receipt.
  destruct (genuine_sign i (build_receipt_signing_payload (ir_job_id r) (ad_shard_index a)
    (hex (ir_output_hash r)) (ad_executed_at_unix a)) Hg) as (s & raw & Hs & Hd & Hv).
  rewrite Hs. unfold BatchedReceipt_post_init. intros Hbr. inv_result.
  repeat match goal with
  | Hx : negb _ = false |- _ => apply negb_false_iff in Hx
  | Hx : (_ || _) = false |- _ => apply orb_false_iff in Hx as [? ?]
  | Hx : (_ && _) = true |- _ => apply andb_true_iff in Hx as [? ?]
  | Hx : str_nonempty _ = true |- _ => apply str_nonempty_iff in Hx
  | Hx : (_ =? _)%string = true |- _ => apply String.eqb_eq in Hx
  end.
  simpl in *. split; [split; try done; lia|]. by eexists _, raw.
Qed.

(** What the adapter returns can be committed and defended. *)
Lemma adapted_defensible `{!KeccakLaws} r i a br :
  genuine i → 0 <= ad_shard_index a < 2 ^ 32 →
  inference_receipt_to_batched_receipt r (Some i) a = Ok br →
  batched_ok br ∧ is_Ok (batched_receipt_to_leaf br) ∧ shard_signature_verifies br = true.
Proof.
  intros Hg Hsh Hbr. destruct (adapter_Ok r i a br Hg Hbr) as ([] & s & raw & -> & Hd & Hv).
  assert (b64decode (public_key_b64 i) = Some (ni_public_key_bytes i)) as Hpk by apply b64_roundtrip.
  split; [|split].
  - split_and!; simpl; [lia | lia | done|]. unfold attestation_ok. simpl. unfold tee_attestation_audit_dict.
    by destruct (ir_tee_attestation r).
  - apply leaf_conversion_exact. simpl. rewrite fromhex_hex, Hpk, Hd. split_and!; [|eauto|eauto|lia..].
    by eexists.
  - unfold shard_signature_verifies, verify_signature. simpl. by rewrite Hpk, Hd.
Qed.

(** The adapter.  With a genuine identity it returns a settlement receipt exactly
    for the receipts that identity settled, with a 32-byte output hash, a value
    below 2^128, an escrow id, well-formed addresses and times in range; and for a
    shard index in range the receipt it returns can be committed and defended: it
    keeps the job, the value, the parties and the escrow id, its leaf can be built,
    its provider id is derived from its key, its signature verifies (so no
    INVALID_SIGNATURE challenge can be assembled) and Tier-A verification accepts it
    for the output it hashes. *)
Theorem adapter_exact `{!KeccakLaws} r i a :
  genuine i → 0 <= ad_shard_index a < 2 ^ 32 →
  (is_Ok (inference_receipt_to_batched_receipt r (Some i) a) ↔ adaptable r i a) ∧
  ∀ br, inference_receipt_to_batched_receipt r (Some i) a = Ok br →
    job_id (receipt br) = ir_job_id r ∧ value_ftns br = ad_value_ftns a ∧
    requester_address br = ad_requester_address a ∧ provider_address br = ad_provider_address a ∧
    local_escrow_id br = ad_local_escrow_id a ∧
    batched_ok br ∧ is_Ok (batched_receipt_to_leaf br) ∧
    shard_signature_verifies br = true ∧
    (∀ str out, ir_output_hash r = sha256 out →
       verify_receipt str (wire (receipt br)) out (Some (ni_node_id i)) = true).
Proof.
  intros Hg Hsh. destruct (genuine_key i Hg) as [Hk Hid]. split; [split|].
  - intros [br Hbr]. by destruct (adapter_Ok r i a br Hg Hbr).
  - intros []. unfold inference_receipt_to_batched_receipt.
    destruct (genuine_sign i (build_receipt_signing_payload (ir_job_id r) (ad_shard_index a)
      (hex (ir_output_hash r)) (ad_executed_at_unix a)) Hg) as (s & raw & Hs & _).
    rewrite genuine_nonempty, aa_settler0, genuine_nonempty, String.eqb_refl, aa_output0, aa_requester0, aa_provider0, Hs by done.
    apply str_nonempty_iff in aa_escrow0. rewrite aa_escrow0.
    unfold BatchedReceipt_post_init, adapted. simpl. rewrite aa_group0.
    replace (ad_value_ftns a <? 0) with false by lia. replace (2 ^ 128 <=? ad_value_ftns a) with false by lia.
    replace (ad_executed_at_unix a <? 0) with false by lia. replace (2 ^ 64 <=? ad_executed_at_unix a) with false by lia.
    replace (0 <=? ad_tier_slash_rate_bps a) with true by lia. replace (ad_tier_slash_rate_bps a <=? 10000) with true by lia.
    by eexists.
  - intros br Hbr. destruct (adapted_defensible r i a br Hg Hsh Hbr) as (Hok & Hleaf & Hsig).
    destruct (adapter_Ok r i a br Hg Hbr) as ([] & s & raw & -> & Hd & Hv).
    assert (b64decode (public_key_b64 i) = Some (ni_public_key_bytes i)) as Hpk by apply b64_roundtrip.
    do 8 (split; [done|]).
    intros str out Hout. apply verify_exact. simpl. split_and!.
    + by rewrite Hout.
    + unfold derive_node_id_from_pubkey_b64. by rewrite Hpk, Hid.
    + by intros e [= <-].
    + exists (ni_public_key_bytes i), raw. by rewrite Hpk, Hd.
Qed.
End AdapterFacts.

(** ** Toy keys *)

(** A 32-byte key is its own public key; a signature is a keyed hash. *)
Definition toy_public (k : bytes) : result bytes := if (length k =? 32)%nat then Ok k else Err ValueError.
Definition toy_sign (k m : bytes) : result bytes := p ← toy_public k; Ok (Toy.keccak_ (p ++ m)).

Lemma toy_sign_verifies k p m :
  toy_public k = Ok p → ∃ s, toy_sign k m = Ok s ∧ @ed25519_verify Toy.toy p m s = true.
Proof.
  intros Hk. unfold toy_sign. rewrite Hk. eexists. split; [done|].
  cbn [ed25519_verify Toy.toy]. by apply bool_decide_eq_true.
Qed.

Lemma toy_sign_nonempty k m s : toy_sign k m = Ok s → s ≠ [].
Proof.
  unfold toy_sign. intros (p & _ & Hs)%bind_Ok_inv Hn. injection Hs as Hs. rewrite Hn in Hs. apply (f_equal length) in Hs.
  unfold Toy.keccak_ in Hs. rewrite be_bytes_length in Hs. done.
Qed.

Lemma toy_public_length k p : toy_public k = Ok p → length p = 32%nat.
Proof. unfold toy_public. destruct (Nat.eqb_spec (length k) 32); [|done]. by intros [= <-]. Qed.

#[export] Instance toy_ed25519 : @Ed25519 Toy.toy :=
  {| ed25519_public := toy_public; ed25519_sign := toy_sign; ed25519_sign_verifies := toy_sign_verifies;
     ed25519_sign_nonempty := toy_sign_nonempty; ed25519_public_length := toy_public_length |}.
