(* ===== verification/ReceiptSigning.v ===== *)
(** * Inference receipts, signed and on the wire

    Models prsm/compute/inference/receipt.py with [NodeIdentity.verify] of
    prsm/node/identity.py, and proves what a settler's signature binds. *)
From Stdlib Require Import ZArith Lia.
From S2P Require Import PyStd.
From S2P Require Import Externals.
From S2P Require Import Receipt.
From S2P Require Import Attestation.
From S2P Require Import PerStageSplit.
From S2P Require Import PyNumbers.
From S2P Require Import PyBase64.
From S2P Require Import PyJson.
From S2P Require Import ActivationChain.
From S2P Require Import InferenceModels.
From S2P Require Import InferenceAdapter.
From S2P Require Import Prelude.

#[local] Open Scope string_scope.
#[local] Open Scope list_scope.
#[local] Open Scope Z_scope.

(** [dataclasses.replace] of the settler's fields *)
Definition with_settler (node_id : string) (signature : bytes) (pubkey : option string) (r : InferenceReceipt) : InferenceReceipt :=
  {| ir_job_id := ir_job_id r; ir_request_id := ir_request_id r; ir_model_id := ir_model_id r;
     ir_content_tier := ir_content_tier r; ir_privacy_tier := ir_privacy_tier r; ir_epsilon_spent := ir_epsilon_spent r;
     ir_tee_type := ir_tee_type r; ir_tee_attestation := ir_tee_attestation r; ir_output_hash := ir_output_hash r;
     ir_duration_seconds := ir_duration_seconds r; ir_cost_ftns := ir_cost_ftns r; ir_settler_signature := signature;
     ir_settler_node_id := node_id; ir_settler_pubkey_b64 := pubkey; ir_streamed_output := ir_streamed_output r;
     ir_activation_noise_trace := ir_activation_noise_trace r; ir_topology_assignment := ir_topology_assignment r;
     ir_partial_completion := ir_partial_completion r; ir_prompt_hash := ir_prompt_hash r;
     ir_stage_activation_chain := ir_stage_activation_chain r;
     ir_per_stage_settlement_signatures := ir_per_stage_settlement_signatures r |}.

Section Signing.
Context `{Ed25519}.

Definition sign_receipt (r : InferenceReceipt) (identity : NodeIdentity) : result InferenceReceipt :=
  let intermediate := with_settler (ni_node_id identity) (ir_settler_signature r) (ir_settler_pubkey_b64 r) r in
  signature_b64 ← identity_sign identity (signing_payload intermediate);
  signature_bytes ← of_option BinasciiError (b64decode signature_b64);
  Ok (with_settler (ni_node_id identity) signature_bytes (Some (public_key_b64 identity)) intermediate).

(** [NodeIdentity.verify]: the public key is that of the private key. *)
Definition identity_verify (identity : NodeIdentity) (data : bytes) (signature_b64 : string) : bool :=
  match b64decode signature_b64, ed25519_public (ni_private_key_bytes identity) with
  | Some signature, Ok public => ed25519_verify public data signature
  | _, _ => false
  end.

(** [verify_receipt] of an inference receipt *)
Definition verify_inference_receipt (r : InferenceReceipt) (public_key_b64 : option string) (identity : option NodeIdentity) : bool :=
  match ir_settler_signature r with
  | [] => false
  | signature =>
      let payload := signing_payload r in
      let signature_b64 := b64encode signature in
      match identity, public_key_b64 with
      | Some i, _ => identity_verify i payload signature_b64
      | None, Some pk => verify_signature (JStr pk) payload (JStr signature_b64)
      | None, None =>
          match ir_settler_pubkey_b64 r with
          | None => false
          | Some embedded =>
              if negb (str_nonempty embedded) then false
              else
                match b64decode embedded with
                | None => false
                | Some key =>
                    if negb (bool_decide (node_id_for_public_key key = ir_settler_node_id r)) then false
                    else verify_signature (JStr embedded) payload (JStr signature_b64)
                end
          end
      end
  end.

Definition is_signed (r : InferenceReceipt) : bool :=
  match ir_settler_signature r with [] => false | _ => str_nonempty (ir_settler_node_id r) end.
End Signing.

(** ** What a signature binds *)

Lemma one_line_zeros n : one_line (zeros n) = true.
Proof. by induction n. Qed.

Lemma one_line_zpad n z : one_line (zpad n z) = true.
Proof. unfold zpad. by rewrite one_line_app, one_line_zeros, one_line_int. Qed.

Lemma one_line_fixed p x : one_line (format_fixed p x) = true.
Proof.
  destruct x as [neg m e|[]|]; [|done..]. unfold format_fixed. rewrite !one_line_app, one_line_int, one_line_zpad. by destruct neg.
Qed.

Lemma one_line_stake n s : one_line s = true → one_line (stake n s) = true.
Proof.
  revert s. induction n as [|n IH]; intros [|c s]; simpl; try done. rewrite !andb_true_iff. intros [Hc Hs]. split; [done | by apply IH].
Qed.

Lemma one_line_sdrop n s : one_line s = true → one_line (sdrop n s) = true.
Proof.
  revert s. induction n as [|n IH]; intros [|c s]; simpl; try done. rewrite !andb_true_iff. intros [_ Hs]. by apply IH.
Qed.

Lemma one_line_dec_str d : one_line (dec_str d) = true.
Proof.
  unfold dec_str. rewrite !one_line_app, !andb_true_iff. split_and!; [by case_match | |].
  - repeat case_match; rewrite ?one_line_app, ?one_line_zeros, ?one_line_int; try done;
      rewrite one_line_stake, one_line_sdrop by apply one_line_int; done.
  - destruct (_ =? _); [done|]. cbv zeta. rewrite !one_line_app, one_line_int. by destruct (0 <=? _).
Qed.

(** The JSON texts that enter the payload as digests. *)
Definition digested_json (r : InferenceReceipt) : list jtext :=
  option_list (noise_trace_to_dict <$> ir_activation_noise_trace r) ++
  option_list (positions_json <$> ir_topology_assignment r) ++
  option_list (partial_to_dict <$> ir_partial_completion r) ++
  option_list (chain_to_dict <$> ir_stage_activation_chain r).

Definition digested (r : InferenceReceipt) : list bytes := (λ v, utf8 (dumps_sorted v)) <$> digested_json r.

(** The free texts hold no newline, and JSON texts are printable. *)
Definition signable (r : InferenceReceipt) : bool :=
  one_line (ir_job_id r) && one_line (ir_request_id r) && one_line (ir_model_id r) && one_line (ir_settler_node_id r) &&
  forallb json_ok (digested_json r).

Lemma signing_lines_one_line r : signable r = true → Forall (λ s, one_line s = true) (signing_lines r).
Proof.
  unfold signable. rewrite !andb_true_iff. intros [[[[Hj Hr] Hm] Hn] _]. unfold signing_lines.
  assert (∀ label v, one_line label = true → (∀ s, v = Some s → one_line s = true) →
            Forall (λ s, one_line s = true) (opt_line label v)) as Hopt.
  { intros label [s|] Hl Hs; [|constructor]. constructor; [|constructor]. by rewrite one_line_app, Hl, Hs. }
  rewrite !Forall_app. split_and!.
  - repeat (constructor; [first [done | by destruct (ir_content_tier r) | by destruct (ir_privacy_tier r)
      | by destruct (ir_tee_type r) | apply one_line_fixed | apply one_line_hex | apply one_line_dec_str]|]). constructor.
  - apply Hopt; [done|]. destruct (ir_streamed_output r); [|done]. by intros s [= <-].
  - apply Hopt; [done|]. intros s (?&?&->)%fmap_Some; apply one_line_hex.
  - apply Hopt; [done|]. intros s (?&?&->)%fmap_Some; apply one_line_hex.
  - apply Hopt; [done|]. intros s (?&?&->)%fmap_Some; apply one_line_hex.
  - apply Hopt; [done|]. intros s (?&?&->)%fmap_Some; apply one_line_hex.
  - apply Hopt; [done|]. intros s (?&?&->)%fmap_Some; apply one_line_hex.
Qed.

Section Digested.
Variable r : InferenceReceipt.
Ltac in_digested Hx := unfold digested_json; rewrite Hx, !elem_of_app; simpl; rewrite list_elem_of_singleton; tauto.

Lemma noise_digested t : ir_activation_noise_trace r = Some t → noise_trace_to_dict t ∈ digested_json r.
Proof. intros Hx. in_digested Hx. Qed.
Lemma positions_digested t : ir_topology_assignment r = Some t → positions_json t ∈ digested_json r.
Proof. intros Hx. in_digested Hx. Qed.
Lemma partial_digested t : ir_partial_completion r = Some t → partial_to_dict t ∈ digested_json r.
Proof. intros Hx. in_digested Hx. Qed.
Lemma chain_digested t : ir_stage_activation_chain r = Some t → chain_to_dict t ∈ digested_json r.
Proof. intros Hx. in_digested Hx. Qed.
End Digested.

(** No two of the digested texts collide. *)
Definition no_digest_collision (r1 r2 : InferenceReceipt) : Prop :=
  ∀ x y, x ∈ digested r1 → y ∈ digested r2 → sha256 x = sha256 y → x = y.

Lemma json_digest_inj r1 r2 v w :
  no_digest_collision r1 r2 → signable r1 = true → signable r2 = true →
  v ∈ digested_json r1 → w ∈ digested_json r2 → json_digest v = json_digest w → sort_keys v = sort_keys w.
Proof.
  intros Hnc H1 H2 Hv Hw Heq. unfold json_digest, sha256_hex in Heq. apply (inj hex) in Heq.
  assert (∀ r x, signable r = true → x ∈ digested_json r → json_ok x = true) as Hok.
  { intros r x Hr Hx. unfold signable in Hr. rewrite !andb_true_iff, forallb_forall in Hr. destruct Hr as [_ Hr].
    by apply Hr, list_elem_of_In. }
  apply dumps_sorted_inj; [by apply (Hok r1) | by apply (Hok r2) |].
  apply utf8_inj. apply (Hnc (utf8 (dumps_sorted v)) (utf8 (dumps_sorted w))); [| |exact Heq].
  - by apply (list_elem_of_fmap_2 (λ v, utf8 (dumps_sorted v))).
  - by apply (list_elem_of_fmap_2 (λ v, utf8 (dumps_sorted v))).
Qed.

(** ** The digests determine the records *)

Lemma sort_keys_plain l : Forall (λ v, sort_keys v = v) l → sort_keys (TArr l) = TArr l.
Proof. intros Hl. cbn [sort_keys]. f_equal. induction Hl as [|v l Hv _ IH]; [done|]. cbn [map]. by rewrite Hv, IH. Qed.

Lemma noise_digest_inj t u : sort_keys (noise_trace_to_dict t) = sort_keys (noise_trace_to_dict u) → t = u.
Proof.
  assert (∀ t, sort_keys (noise_trace_to_dict t) =
    TObj [("clip_norm", TFloat (nt_clip_norm t)); ("per_stage_epsilon", sort_keys (TArr (TFloat <$> nt_per_stage_epsilon t)));
          ("stage_count", TInt (nt_stage_count t)); ("tier", TStr (nt_tier t));
          ("total_epsilon_spent", TFloat (nt_total_epsilon_spent t))]) as Hs by reflexivity.
  assert (∀ l, sort_keys (TArr (TFloat <$> l)) = TArr (TFloat <$> l)) as Hl.
  { intros l. apply sort_keys_plain. apply Forall_fmap, Forall_forall. done. }
  assert (Inj (=) (=) TFloat) by (by intros ? ? [= ->]).
  rewrite !Hs, !Hl. intros Heq. injection Heq as Hc Hp%(inj (fmap TFloat)) Hn Ht He. destruct t, u. simpl in *. by subst.
Qed.

Lemma positions_digest_inj t u :
  sort_keys (positions_json t) = sort_keys (positions_json u) → ta_positions t ≡ₚ ta_positions u.
Proof.
  unfold positions_json. intros Heq.
  assert (∀ l : list ((Z * Z) * string), sort_keys (TArr ((λ kv, TArr [TInt kv.1.1; TInt kv.1.2; TStr kv.2]) <$> l)) =
            TArr ((λ kv, TArr [TInt kv.1.1; TInt kv.1.2; TStr kv.2]) <$> l)) as Hp.
  { intros l. apply sort_keys_plain. apply Forall_fmap, Forall_forall. done. }
  rewrite !Hp in Heq. injection Heq as Heq.
  assert (Inj (=) (=) (λ kv : (Z * Z) * string, TArr [TInt kv.1.1; TInt kv.1.2; TStr kv.2])) as Hi.
  { intros [[a b] c] [[a' b'] c'] He. injection He as -> -> ->. done. }
  apply (inj (fmap _)) in Heq. rewrite <-(sort_by_perm topology_position_leb (ta_positions t)), Heq. apply sort_by_perm.
Qed.

Lemma partial_digest_inj i j : sort_keys (partial_to_dict i) = sort_keys (partial_to_dict j) → i = j.
Proof.
  assert (∀ i, partial_from_dict (sort_keys (partial_to_dict i)) = Ok i) as Hr by (by intros []).
  intros Heq. pose proof (Hr i) as H1. pose proof (Hr j) as H2. rewrite Heq, H2 in H1. by injection H1.
Qed.

Lemma sorted_stage_proof p : stage_proof_from_dict (sort_keys (stage_proof_to_dict p)) = Ok p.
Proof. destruct p as [i n a b s [|c t]]; reflexivity. Qed.

Lemma chain_digest_inj c d :
  sort_keys (chain_to_dict c) = sort_keys (chain_to_dict d) →
  sac_request_id c = sac_request_id d ∧ sorted_proofs c = sorted_proofs d.
Proof.
  assert (∀ c, sort_keys (chain_to_dict c) =
    TObj [("proofs", TArr (map sort_keys (stage_proof_to_dict <$> sorted_proofs c))); ("request_id", TStr (sac_request_id c))]) as Hs
    by reflexivity.
  rewrite !Hs. intros Heq. injection Heq as Hp Hr. split; [done|].
  assert (∀ l, result_mapM stage_proof_from_dict (map sort_keys (stage_proof_to_dict <$> l)) = Ok l) as Hm.
  { induction l as [|p l IH]; [done|]. rewrite fmap_cons. cbn [map result_mapM]. rewrite sorted_stage_proof.
    cbn [mbind result_bind]. by rewrite IH. }
  pose proof (Hm (sorted_proofs c)) as H1. pose proof (Hm (sorted_proofs d)) as H2. rewrite Hp, H2 in H1. by injection H1.
Qed.

(** Two labels neither of which begins the other. *)
Fixpoint labels_differ (a b : string) : bool :=
  match a, b with
  | String c a', String d b' => if decide (c = d) then labels_differ a' b' else true
  | _, _ => false
  end.

Lemma labels_differ_lines a b s t : labels_differ a b = true → a +:+ s ≠ b +:+ t.
Proof.
  revert b. induction a as [|c a IH]; intros [|d b]; cbn; try done. case_decide as Hc; intros Hd [=]; [|done]. by apply (IH b).
Qed.

Lemma not_in_opt_line a b v s : labels_differ a b = true → a +:+ s ∉ opt_line b v.
Proof. intros Hd Hin. destruct v as [t|]; [|by apply not_elem_of_nil in Hin]. apply list_elem_of_singleton in Hin. by apply labels_differ_lines in Hin. Qed.

Lemma not_in_lines (x : string) l m : x ∉ l → x ∉ m → x ∉ l ++ m.
Proof. rewrite elem_of_app. tauto. Qed.

Lemma opt_line_inj label a b : opt_line label a = opt_line label b → a = b.
Proof.
  intros Heq. apply (labelled_lines_inj label a b [] []); [intros s; apply not_elem_of_nil..|].
  by rewrite !app_nil_r.
Qed.

Lemma opt_line_app_inj label a b l m :
  (∀ s, label +:+ s ∉ l) → (∀ s, label +:+ s ∉ m) → opt_line label a ++ l = opt_line label b ++ m → a = b ∧ l = m.
Proof. apply labelled_lines_inj. Qed.

Ltac split_opt_line H name :=
  apply opt_line_app_inj in H as [name H];
    [|intros ?; repeat apply not_in_lines; by apply not_in_opt_line..].

Lemma fmap_digest_inj {A} (P : A → A → Prop) (f : A → string) (a b : option A) :
  (∀ x y, a = Some x → b = Some y → f x = f y → P x y) → f <$> a = f <$> b → option_Forall2 P a b.
Proof. destruct a, b; try done; simpl; intros HP Heq; constructor. apply HP; [done..|]. by injection Heq. Qed.

Lemma option_Forall2_eq {A} (a b : option A) : option_Forall2 (=) a b → a = b.
Proof. by destruct 1; subst. Qed.

(** What a settler's signature covers: every field but the signature, the embedded key
    and the out-of-band settlement signatures; of a topology, the positions. *)
Record same_signed_fields (r1 r2 : InferenceReceipt) : Prop := {
  sf_job : ir_job_id r1 = ir_job_id r2;
  sf_request : ir_request_id r1 = ir_request_id r2;
  sf_model : ir_model_id r1 = ir_model_id r2;
  sf_content_tier : ir_content_tier r1 = ir_content_tier r2;
  sf_privacy_tier : ir_privacy_tier r1 = ir_privacy_tier r2;
  sf_epsilon : format_fixed 10 (float_of_repr (ir_epsilon_spent r1)) = format_fixed 10 (float_of_repr (ir_epsilon_spent r2));
  sf_tee_type : ir_tee_type r1 = ir_tee_type r2;
  sf_attestation : ir_tee_attestation r1 = ir_tee_attestation r2;
  sf_output_hash : ir_output_hash r1 = ir_output_hash r2;
  sf_duration : format_fixed 6 (float_of_repr (ir_duration_seconds r1)) = format_fixed 6 (float_of_repr (ir_duration_seconds r2));
  sf_cost : dec_str (ir_cost_ftns r1) = dec_str (ir_cost_ftns r2);
  sf_settler : ir_settler_node_id r1 = ir_settler_node_id r2;
  sf_streamed : ir_streamed_output r1 = ir_streamed_output r2;
  sf_noise : ir_activation_noise_trace r1 = ir_activation_noise_trace r2;
  sf_positions : option_Forall2 (λ a b, ta_positions a ≡ₚ ta_positions b) (ir_topology_assignment r1) (ir_topology_assignment r2);
  sf_partial : ir_partial_completion r1 = ir_partial_completion r2;
  sf_prompt : ir_prompt_hash r1 = ir_prompt_hash r2;
  sf_chain : option_Forall2 (λ c d, sac_request_id c = sac_request_id d ∧ sorted_proofs c = sorted_proofs d)
               (ir_stage_activation_chain r1) (ir_stage_activation_chain r2)
}.


(** The line of the streamed flag is that of a settler's name that ends in it: for a
    verifier that is given the key and does not compare the name, the flag is not bound. *)
Lemma streamed_flag_in_name r :
  ir_streamed_output r = true → ir_activation_noise_trace r = None → ir_topology_assignment r = None →
  ir_partial_completion r = None → ir_prompt_hash r = None → ir_stage_activation_chain r = None →
  ∃ r', ir_streamed_output r' = false ∧ signing_payload r' = signing_payload r.
Proof.
  intros Hs Hn Ht Hp Hh Hc.
  exists {| ir_job_id := ir_job_id r; ir_request_id := ir_request_id r; ir_model_id := ir_model_id r;
     ir_content_tier := ir_content_tier r; ir_privacy_tier := ir_privacy_tier r; ir_epsilon_spent := ir_epsilon_spent r;
     ir_tee_type := ir_tee_type r; ir_tee_attestation := ir_tee_attestation r; ir_output_hash := ir_output_hash r;
     ir_duration_seconds := ir_duration_seconds r; ir_cost_ftns := ir_cost_ftns r;
     ir_settler_signature := ir_settler_signature r;
     ir_settler_node_id := ir_settler_node_id r +:+ newline +:+ "streamed_output:true";
     ir_settler_pubkey_b64 := ir_settler_pubkey_b64 r; ir_streamed_output := false;
     ir_activation_noise_trace := None; ir_topology_assignment := None;
     ir_partial_completion := None; ir_prompt_hash := None;
     ir_stage_activation_chain := None; ir_per_stage_settlement_signatures := None |}.
  split; [done|]. unfold signing_payload, signing_lines. rewrite Hs, Hn, Ht, Hp, Hh, Hc. reflexivity.
Qed.

(** Of a topology only the positions are signed. *)
Lemma topology_size_unsigned ps n m k l :
  topology_stable_hash {| ta_positions := ps; ta_stage_count := n; ta_slots_per_stage := k |} =
  topology_stable_hash {| ta_positions := ps; ta_stage_count := m; ta_slots_per_stage := l |}.
Proof. reflexivity. Qed.

Section Verification.
Context `{Ed25519}.

(** A key with the name [node_id] that verifies the receipt. *)
Definition verifies_as (r : InferenceReceipt) (key : bytes) : Prop :=
  ir_settler_signature r ≠ [] ∧ ed25519_verify key (signing_payload r) (ir_settler_signature r) = true.

Lemma verify_signature_b64 pk_b64 m s :
  verify_signature (JStr pk_b64) m (JStr (b64encode s)) = true ↔
  ∃ key, b64decode pk_b64 = Some key ∧ ed25519_verify key m s = true.
Proof.
  unfold verify_signature. rewrite b64_roundtrip. destruct (b64decode pk_b64) as [key|].
  - split; [by exists key | by intros (? & [= <-] & ?)].
  - split; [done | by intros (? & ? & _)].
Qed.

Lemma verify_given_key r pk_b64 :
  verify_inference_receipt r (Some pk_b64) None = true ↔ ∃ key, b64decode pk_b64 = Some key ∧ verifies_as r key.
Proof.
  unfold verify_inference_receipt, verifies_as. destruct (ir_settler_signature r) as [|b s] eqn:E.
  - split; [done | by intros (? & _ & ? & _)].
  - rewrite <-E, verify_signature_b64, E. split; intros (key & ?); exists key; naive_solver.
Qed.

Lemma verify_embedded r :
  verify_inference_receipt r None None = true ↔
  ∃ e key, ir_settler_pubkey_b64 r = Some e ∧ e ≠ "" ∧ b64decode e = Some key ∧
    node_id_for_public_key key = ir_settler_node_id r ∧ verifies_as r key.
Proof.
  unfold verify_inference_receipt, verifies_as. destruct (ir_settler_signature r) as [|b s] eqn:E.
  { split; [done | intros (?&?&_&_&_&_&?&_); done]. }
  rewrite <-E. destruct (ir_settler_pubkey_b64 r) as [e|]; [|split; [done | naive_solver]].
  destruct (str_nonempty e) eqn:Ee; [|split; [done|]; intros (? & ? & [= <-] & Hne & _); by destruct e].
  assert (e ≠ "") as Hne by by intros ->.
  cbn [negb]. destruct (b64decode e) as [key|] eqn:Hd; [|split; [done | naive_solver]].
  case_bool_decide as Hid; cbn [negb]; [|split; [done | naive_solver]].
  rewrite verify_signature_b64, Hd, E. split.
  - intros (k & [= <-] & Hv). exists e, key. by split_and!.
  - intros (? & k & [= <-] & _ & Hk & _ & _ & Hv). exists k. rewrite Hd in Hk. by split.
Qed.

End Verification.

(** * The wire form of requests, receipts and results

    Models to_dict and from_dict of prsm/compute/inference/models.py. Dictionaries are
    JSON texts; a value that the code would store with another type than its field's
    annotation is [Err Untyped]. *)

#[local] Open Scope string_scope.
#[local] Open Scope list_scope.
#[local] Open Scope Z_scope.

(** ** Enumerations *)

(** [Enum(v)], among the members *)
Definition enum_of {A} (members : list A) (value : A → string) (v : jtext) : result A :=
  match v with
  | TStr s => of_option ValueError (head (filter (λ m, value m = s) members))
  | _ => Err ValueError
  end.

Definition content_tier_of : jtext → result ContentTier := enum_of [TIER_A; TIER_B; TIER_C] content_tier_value.
Definition privacy_of : jtext → result PrivacyLevel :=
  enum_of [PRIVACY_NONE; PRIVACY_STANDARD; PRIVACY_HIGH; PRIVACY_MAXIMUM] privacy_value.
Definition tee_of : jtext → result TEEType :=
  enum_of [TEE_NONE; SGX; TDX; SEV; TRUSTZONE; SECURE_ENCLAVE; TEE_SOFTWARE] tee_value.

(** [Decimal(str(v))]; a value the constructor refuses raises. *)
Definition decimal_of_jtext (v : jtext) : result decimal :=
  match v with
  | TStr s => of_option DecimalException (decimal_of_str s)
  | TInt z => of_option DecimalException (decimal_of_str (str_of_int z))
  | TFloat r => of_option DecimalException (decimal_of_str r)
  | TBool _ | TNull => Err DecimalException
  | _ => Err Untyped
  end.

(** [if isinstance(v, str): v = bytes.fromhex(v)] *)
Definition hex_field (v : jtext) : result bytes :=
  match v with TStr s => of_option ValueError (fromhex s) | _ => Err Untyped end.

(** [if isinstance(v, dict): v = f(v)] *)
Definition dict_field {A} (f : jtext → result A) (v : jtext) : result A :=
  match v with TObj _ => f v | _ => Err Untyped end.

Definition bool_field (v : jtext) : result bool := match v with TBool b => Ok b | _ => Err TypeError end.

(** [v or []], as a list of floats *)
Definition epsilons (v : jtext) : result (list string) :=
  match v with
  | TNull | TArr [] | TObj [] | TBool false | TInt 0 | TStr "" => Ok []
  | TArr l => result_mapM typed_float l
  | TBool true | TInt _ => Err TypeError
  | _ => Err Untyped
  end.

Definition noise_trace_from_dict (d : jtext) : result ActivationNoiseTrace :=
  per_stage ← get_opt d "per_stage_epsilon" ≫= epsilons;
  total ← get_or d "total_epsilon_spent" (TFloat "0.0") ≫= float_of_jtext;
  clip_norm ← get_or d "clip_norm" (TFloat "1.0") ≫= float_of_jtext;
  stage_count ← get_or d "stage_count" (TInt 0) ≫= int_of_jtext;
  tier ← get_or d "tier" (TStr "") ≫= str_of_jtext;
  Ok {| nt_per_stage_epsilon := per_stage; nt_total_epsilon_spent := total; nt_clip_norm := clip_norm;
        nt_stage_count := stage_count; nt_tier := tier |}.

(** ** Signature material, whose dictionaries hold no floats *)

Fixpoint jtext_of_json (j : json) : jtext :=
  match j with
  | JNull => TNull | JBool b => TBool b | JInt z => TInt z | JStr s => TStr s
  | JArr l => TArr (map jtext_of_json l)
  | JObj o => TObj (map (λ kv, (kv.1, jtext_of_json kv.2)) o)
  end.

Fixpoint json_of_jtext (v : jtext) : result json :=
  match v with
  | TNull => Ok JNull | TBool b => Ok (JBool b) | TInt z => Ok (JInt z) | TStr s => Ok (JStr s)
  | TFloat _ => Err Untyped
  | TArr l => l ← (fix go (l : list jtext) : result (list json) :=
                     match l with [] => Ok [] | v :: l' => x ← json_of_jtext v; xs ← go l'; Ok (x :: xs) end) l; Ok (JArr l)
  | TObj o => o ← (fix go (o : list (string * jtext)) : result (list (string * json)) :=
                     match o with [] => Ok [] | (k, v) :: o' => x ← json_of_jtext v; xs ← go o'; Ok ((k, x) :: xs) end) o;
              Ok (JObj o)
  end.

(** ** Receipts *)

Definition opt_entry (key : string) (v : option jtext) : list (string * jtext) := option_list ((λ v, (key, v)) <$> v).

Definition signatures_to_dict (sigs : dict string NodeSignatureMaterial) : jtext :=
  TObj ((λ kv, (kv.1, jtext_of_json (NodeSignatureMaterial_to_dict kv.2))) <$> sigs).

Definition receipt_entries (r : InferenceReceipt) : dict string jtext :=
  [("job_id", TStr (ir_job_id r)); ("request_id", TStr (ir_request_id r)); ("model_id", TStr (ir_model_id r));
   ("content_tier", TStr (content_tier_value (ir_content_tier r)));
   ("privacy_tier", TStr (privacy_value (ir_privacy_tier r)));
   ("epsilon_spent", TFloat (ir_epsilon_spent r)); ("tee_type", TStr (tee_value (ir_tee_type r)));
   ("tee_attestation", TStr (hex (ir_tee_attestation r))); ("output_hash", TStr (hex (ir_output_hash r)));
   ("duration_seconds", TFloat (ir_duration_seconds r)); ("cost_ftns", TStr (dec_str (ir_cost_ftns r)));
   ("settler_signature", TStr (hex (ir_settler_signature r))); ("settler_node_id", TStr (ir_settler_node_id r));
   ("streamed_output", TBool (ir_streamed_output r))] ++
  opt_entry "activation_noise_trace" (noise_trace_to_dict <$> ir_activation_noise_trace r) ++
  opt_entry "topology_assignment" (topology_to_dict <$> ir_topology_assignment r) ++
  opt_entry "partial_completion" (partial_to_dict <$> ir_partial_completion r) ++
  opt_entry "prompt_hash" ((λ h, TStr (hex h)) <$> ir_prompt_hash r) ++
  opt_entry "stage_activation_chain" (chain_to_dict <$> ir_stage_activation_chain r) ++
  opt_entry "settler_pubkey_b64" (TStr <$> ir_settler_pubkey_b64 r) ++
  opt_entry "per_stage_settlement_signatures" (signatures_to_dict <$> ir_per_stage_settlement_signatures r).

Definition receipt_to_dict (r : InferenceReceipt) : jtext := TObj (receipt_entries r).

Record InferenceResult : Type := {
  inf_request_id : string;
  inf_success : bool;
  inf_output : string;
  inf_receipt : option InferenceReceipt;
  inf_error : option string
}.

Definition result_to_dict (r : InferenceResult) : jtext :=
  TObj [("request_id", TStr (inf_request_id r)); ("success", TBool (inf_success r)); ("output", TStr (inf_output r));
        ("receipt", default TNull (receipt_to_dict <$> inf_receipt r)); ("error", default TNull (TStr <$> inf_error r))].

Definition inference_failure (request_id error : string) : InferenceResult :=
  {| inf_request_id := request_id; inf_success := false; inf_output := ""; inf_receipt := None; inf_error := Some error |}.

Section Read.
(** [str()] of a list or a dict *)
Variable str_of_container : json → string.

Definition material_of_jtext (v : jtext) : result NodeSignatureMaterial :=
  j ← json_of_jtext v; NodeSignatureMaterial_from_dict str_of_container j.

Definition signature_entry (kv : string * jtext) : result (string * NodeSignatureMaterial) :=
  m ← dict_field material_of_jtext kv.2; Ok (kv.1, m).

Definition signatures_from_dict (v : jtext) : result (dict string NodeSignatureMaterial) :=
  match v with TObj o => result_mapM signature_entry o | _ => Err Untyped end.

Definition receipt_from_dict (data : jtext) : result InferenceReceipt :=
  match data with
  | TObj d =>
      content_tier ← present "content_tier" content_tier_of d;
      privacy_tier ← present "privacy_tier" privacy_of d;
      tee_type ← present "tee_type" tee_of d;
      tee_attestation ← present "tee_attestation" hex_field d;
      output_hash ← present "output_hash" hex_field d;
      settler_signature ← present "settler_signature" hex_field d;
      cost_ftns ← present "cost_ftns" decimal_of_jtext d;
      streamed_output ← present "streamed_output" bool_field d;
      trace ← present "activation_noise_trace" (nullable (dict_field noise_trace_from_dict)) d;
      topology ← present "topology_assignment" (nullable (dict_field topology_from_dict)) d;
      partial ← present "partial_completion" (nullable (dict_field partial_from_dict)) d;
      prompt_hash ← present "prompt_hash" (nullable hex_field) d;
      chain ← present "stage_activation_chain" (nullable (dict_field chain_from_dict)) d;
      signatures ← present "per_stage_settlement_signatures" (nullable signatures_from_dict) d;
      (* cls(...): the fields without a default must be there *)
      job_id ← of_option TypeError (dict_get "job_id" d) ≫= typed_str;
      request_id ← of_option TypeError (dict_get "request_id" d) ≫= typed_str;
      model_id ← of_option TypeError (dict_get "model_id" d) ≫= typed_str;
      content_tier ← of_option TypeError content_tier;
      privacy_tier ← of_option TypeError privacy_tier;
      epsilon_spent ← of_option TypeError (dict_get "epsilon_spent" d) ≫= typed_float;
      tee_type ← of_option TypeError tee_type;
      tee_attestation ← of_option TypeError tee_attestation;
      output_hash ← of_option TypeError output_hash;
      duration_seconds ← of_option TypeError (dict_get "duration_seconds" d) ≫= typed_float;
      cost_ftns ← of_option TypeError cost_ftns;
      settler_node_id ← present "settler_node_id" typed_str d;
      settler_pubkey_b64 ← present "settler_pubkey_b64" (nullable typed_str) d;
      Ok {| ir_job_id := job_id; ir_request_id := request_id; ir_model_id := model_id; ir_content_tier := content_tier;
            ir_privacy_tier := privacy_tier; ir_epsilon_spent := epsilon_spent; ir_tee_type := tee_type;
            ir_tee_attestation := tee_attestation; ir_output_hash := output_hash;
            ir_duration_seconds := duration_seconds; ir_cost_ftns := cost_ftns;
            ir_settler_signature := default [] settler_signature; ir_settler_node_id := default "" settler_node_id;
            ir_settler_pubkey_b64 := mjoin settler_pubkey_b64; ir_streamed_output := default false streamed_output;
            ir_activation_noise_trace := mjoin trace; ir_topology_assignment := mjoin topology;
            ir_partial_completion := mjoin partial; ir_prompt_hash := mjoin prompt_hash;
            ir_stage_activation_chain := mjoin chain; ir_per_stage_settlement_signatures := mjoin signatures |}
  | _ => Err Untyped
  end.
(** ** Results *)

Definition jtext_truthy (v : jtext) : bool :=
  match v with
  | TNull | TBool false | TStr "" | TArr [] | TObj [] => false
  | TInt z => negb (z =? 0)
  | TFloat r => match float_of_repr r with FFin _ m _ => negb (m =? 0) | _ => true end
  | _ => true
  end.

Definition result_from_dict (data : jtext) : result InferenceResult :=
  match data with
  | TObj d =>
      let v := default TNull (dict_get "receipt" d) in
      receipt ← (if jtext_truthy v then r ← receipt_from_dict v; Ok (Some r) else Ok None);
      request_id ← of_option TypeError (dict_get "request_id" d) ≫= typed_str;
      success ← of_option TypeError (dict_get "success" d) ≫= typed_bool;
      output ← present "output" typed_str d;
      error ← present "error" (nullable typed_str) d;
      Ok {| inf_request_id := request_id; inf_success := success; inf_output := default "" output;
            inf_receipt := receipt; inf_error := mjoin error |}
  | _ => Err Untyped
  end.
End Read.

(** ** Reading back *)

Lemma enum_of_value {A} `{!EqDecision A} (members : list A) value m :
  m ∈ members → (∀ a b, a ∈ members → b ∈ members → value a = value b → a = b) →
  enum_of members value (TStr (value m)) = Ok m.
Proof.
  intros Hm Hinj. unfold enum_of. destruct (filter _ members) as [|x l] eqn:E.
  - assert (m ∈ filter (λ x, value x = value m) members) as Hf by (by apply list_elem_of_filter). rewrite E in Hf. by apply elem_of_nil in Hf.
  - assert (x ∈ filter (λ x, value x = value m) members) as [Hv Hx]%list_elem_of_filter by (rewrite E; by constructor).
    cbn. f_equal. by apply Hinj.
Qed.

Lemma content_tier_read t : content_tier_of (TStr (content_tier_value t)) = Ok t.
Proof. by destruct t. Qed.
Lemma privacy_read t : privacy_of (TStr (privacy_value t)) = Ok t.
Proof. by destruct t. Qed.
Lemma tee_read t : tee_of (TStr (tee_value t)) = Ok t.
Proof. by destruct t. Qed.

Lemma json_of_jtext_of_json j : json_of_jtext (jtext_of_json j) = Ok j.
Proof.
  revert j. fix IH 1. intros [|b|z|s|l|o]; cbn; try done.
  - assert (∀ l, (fix go (l : list jtext) : result (list json) :=
              match l with [] => Ok [] | v :: l' => x ← json_of_jtext v; xs ← go l'; Ok (x :: xs) end) (map jtext_of_json l) = Ok l) as ->; [|done].
    fix IHl 1. intros [|v l']; [done|]. cbn [map]. rewrite (IH v). cbn. by rewrite (IHl l').
  - assert (∀ o, (fix go (o : list (string * jtext)) : result (list (string * json)) :=
              match o with [] => Ok [] | (k, v) :: o' => x ← json_of_jtext v; xs ← go o'; Ok ((k, x) :: xs) end)
             (map (λ kv, (kv.1, jtext_of_json kv.2)) o) = Ok o) as ->; [|done].
    fix IHo 1. intros [|[k v] o']; [done|]. cbn [map fst snd]. rewrite (IH v). cbn. by rewrite (IHo o').
Qed.

Lemma noise_trace_roundtrip t : noise_trace_from_dict (noise_trace_to_dict t) = Ok t.
Proof.
  destruct t as [l e c n tier]. unfold noise_trace_from_dict, noise_trace_to_dict.
  assert (epsilons (TArr (TFloat <$> l)) = Ok l) as Hl.
  2: { change (get_opt _ "per_stage_epsilon") with (Ok (TArr (TFloat <$> l))). cbn [mbind result_bind]. by rewrite Hl. }
  destruct l as [|x l]; [done|]. cbn [epsilons fmap list_fmap]. change (TFloat x :: (TFloat <$> l)) with (TFloat <$> (x :: l)).
  generalize (x :: l). clear. intros l. induction l as [|x l IH]; [done|]. rewrite fmap_cons. cbn [result_mapM].
  cbn [typed_float mbind result_bind]. by rewrite IH.
Qed.

Definition sorted_topology (t : TopologyAssignment) : TopologyAssignment :=
  {| ta_positions := sort_by topology_position_leb (ta_positions t); ta_stage_count := ta_stage_count t;
     ta_slots_per_stage := ta_slots_per_stage t |}.

Lemma positions_read l acc :
  NoDup (acc ++ l).*1 →
  result_foldM position_entry acc ((λ kv : (Z * Z) * string, TArr [TInt kv.1.1; TInt kv.1.2; TStr kv.2]) <$> l) = Ok (acc ++ l).
Proof.
  revert acc. induction l as [|[[s sl] n] l IH]; intros acc Hn; [by rewrite app_nil_r|].
  rewrite fmap_cons. cbn [result_foldM fst snd].
  change (position_entry acc (TArr [TInt s; TInt sl; TStr n])) with (Ok (dict_set (s, sl) n acc) : result (dict (Z * Z) string)).
  cbn [mbind result_bind].
  rewrite dict_set_fresh.
  - rewrite IH; [by rewrite <-app_assoc|]. by rewrite <-app_assoc.
  - unfold dict_keys. rewrite fmap_app, fmap_cons in Hn. apply NoDup_app in Hn as (_ & Hn & _). intros Hin.
    apply (Hn _ Hin). by constructor.
Qed.

Lemma topology_roundtrip t :
  NoDup (ta_positions t).*1 → topology_from_dict (topology_to_dict t) = Ok (sorted_topology t).
Proof.
  intros Hn. unfold topology_from_dict, topology_to_dict.
  change (get_or _ "positions" _) with (Ok (positions_json t)). unfold positions_json. cbn [iter_jtext mbind result_bind].
  pose proof (positions_read (sort_by topology_position_leb (ta_positions t)) []) as Hp. cbn [app] in Hp.
  rewrite Hp; [done|]. by rewrite sort_by_perm.
Qed.

Lemma material_roundtrip soc m :
  mat_tee_attestation m ≠ Some JNull →
  material_of_jtext soc (jtext_of_json (NodeSignatureMaterial_to_dict m)) = Ok m.
Proof.
  intros Hn. unfold material_of_jtext. rewrite json_of_jtext_of_json. destruct m as [k g i o e [t|]]; cbn in *; [|done]. by destruct t.
Qed.

Lemma signature_read soc k m :
  mat_tee_attestation m ≠ Some JNull →
  signature_entry soc (k, jtext_of_json (NodeSignatureMaterial_to_dict m)) = Ok (k, m).
Proof. intros Hn. pose proof (material_roundtrip soc m Hn) as Hm. unfold signature_entry. cbn [snd fst]. unfold dict_field. simpl in *. by rewrite Hm. Qed.

Lemma signatures_roundtrip soc sigs :
  Forall (λ kv : string * NodeSignatureMaterial, mat_tee_attestation kv.2 ≠ Some JNull) sigs →
  signatures_from_dict soc (signatures_to_dict sigs) = Ok sigs.
Proof.
  intros Hn. unfold signatures_from_dict, signatures_to_dict. induction Hn as [|[k m] l Hm _ IH]; [done|].
  rewrite fmap_cons. cbn [result_mapM fst snd]. rewrite signature_read by done. cbn [mbind result_bind]. by rewrite IH.
Qed.

(** ** Looking up optional entries *)

Lemma get_opt_entry_eq key v l : dict_get key l = None → dict_get key (opt_entry key v ++ l) = v.
Proof. intros Hl. destruct v; [|done]. cbn. by rewrite decide_True. Qed.

Lemma get_opt_entry_ne key key' v l : key ≠ key' → dict_get key (opt_entry key' v ++ l) = dict_get key l.
Proof. intros Hne. destruct v; [|done]. cbn. by rewrite decide_False. Qed.

Lemma get_entry_ne (key key' : string) (v : jtext) l : key ≠ key' → dict_get key ((key', v) :: l) = dict_get key l.
Proof. intros Hne. cbn. by rewrite decide_False. Qed.

Lemma get_entry_eq (key : string) (v : jtext) l : dict_get key ((key, v) :: l) = Some v.
Proof. cbn. by rewrite decide_True. Qed.

Lemma present_some {A} key (f : jtext → result A) o v x : dict_get key o = Some v → f v = Ok x → present key f o = Ok (Some x).
Proof. unfold present. intros -> Hf. by rewrite Hf. Qed.

(** An optional field reads back, whether it is there or not. *)
Lemma present_opt {A B} key (f : jtext → result B) o (g : A → jtext) (h : A → B) (v : option A) :
  dict_get key o = g <$> v → (∀ x, v = Some x → g x ≠ TNull ∧ f (g x) = Ok (h x)) →
  ∃ w, present key (nullable f) o = Ok w ∧ mjoin w = h <$> v.
Proof.
  unfold present. intros -> Hf. destruct v as [x|]; [|by exists None]. destruct (Hf x eq_refl) as [Hn Hx]. exists (Some (Some (h x))).
  cbn. split; [|done]. unfold nullable. rewrite Hx. by destruct (g x).
Qed.

(** ** Receipts over the wire *)

Definition sorted_chain (c : StageActivationChain) : StageActivationChain :=
  {| sac_request_id := sac_request_id c; sac_proofs := sorted_proofs c |}.

(** What is read back: positions and stage proofs in their canonical order *)
Definition normal_receipt (r : InferenceReceipt) : InferenceReceipt :=
  {| ir_job_id := ir_job_id r; ir_request_id := ir_request_id r; ir_model_id := ir_model_id r;
     ir_content_tier := ir_content_tier r; ir_privacy_tier := ir_privacy_tier r; ir_epsilon_spent := ir_epsilon_spent r;
     ir_tee_type := ir_tee_type r; ir_tee_attestation := ir_tee_attestation r; ir_output_hash := ir_output_hash r;
     ir_duration_seconds := ir_duration_seconds r; ir_cost_ftns := ir_cost_ftns r;
     ir_settler_signature := ir_settler_signature r; ir_settler_node_id := ir_settler_node_id r;
     ir_settler_pubkey_b64 := ir_settler_pubkey_b64 r; ir_streamed_output := ir_streamed_output r;
     ir_activation_noise_trace := ir_activation_noise_trace r;
     ir_topology_assignment := sorted_topology <$> ir_topology_assignment r;
     ir_partial_completion := ir_partial_completion r; ir_prompt_hash := ir_prompt_hash r;
     ir_stage_activation_chain := sorted_chain <$> ir_stage_activation_chain r;
     ir_per_stage_settlement_signatures := ir_per_stage_settlement_signatures r |}.

Record wire_ok (r : InferenceReceipt) : Prop := {
  wire_cost : dec_in_range (ir_cost_ftns r) = true;
  wire_positions ta : ir_topology_assignment r = Some ta → NoDup (ta_positions ta).*1;
  wire_material sigs : ir_per_stage_settlement_signatures r = Some sigs →
    Forall (λ kv : string * NodeSignatureMaterial, mat_tee_attestation kv.2 ≠ Some JNull) sigs;
  wire_text : json_ok (receipt_to_dict r) = true
}.

Ltac wire_get :=
  unfold receipt_entries; cbn [app];
  repeat first [rewrite get_entry_eq | rewrite get_entry_ne by done];
  try rewrite <-(app_nil_r (opt_entry "per_stage_settlement_signatures" _));
  repeat first [rewrite get_opt_entry_eq; [reflexivity|] | rewrite get_opt_entry_ne by done]; reflexivity.

Section Entries.
Variable r : InferenceReceipt.
Abbreviation d := (receipt_entries r).

Lemma entries_required :
  (dict_get "job_id" d = Some (TStr (ir_job_id r)) ∧ dict_get "request_id" d = Some (TStr (ir_request_id r)) ∧
   dict_get "model_id" d = Some (TStr (ir_model_id r)) ∧ dict_get "epsilon_spent" d = Some (TFloat (ir_epsilon_spent r)) ∧
   dict_get "duration_seconds" d = Some (TFloat (ir_duration_seconds r))).
Proof. split_and!; wire_get. Qed.

Lemma entries_converted :
  dec_in_range (ir_cost_ftns r) = true →
  (present "content_tier" content_tier_of d = Ok (Some (ir_content_tier r)) ∧
   present "privacy_tier" privacy_of d = Ok (Some (ir_privacy_tier r)) ∧
   present "tee_type" tee_of d = Ok (Some (ir_tee_type r)) ∧
   present "tee_attestation" hex_field d = Ok (Some (ir_tee_attestation r)) ∧
   present "output_hash" hex_field d = Ok (Some (ir_output_hash r)) ∧
   present "settler_signature" hex_field d = Ok (Some (ir_settler_signature r)) ∧
   present "cost_ftns" decimal_of_jtext d = Ok (Some (ir_cost_ftns r)) ∧
   present "streamed_output" bool_field d = Ok (Some (ir_streamed_output r)) ∧
   present "settler_node_id" typed_str d = Ok (Some (ir_settler_node_id r))).
Proof.
  intros Hc.
  assert (∀ b, hex_field (TStr (hex b)) = Ok b) as Hh by (intros b; cbn [hex_field]; by rewrite fromhex_hex).
  split_and!; (eapply present_some; [wire_get|]);
    [apply content_tier_read | apply privacy_read | apply tee_read | apply Hh | apply Hh | apply Hh | | done | done].
  cbn [decimal_of_jtext]. by rewrite decimal_of_dec_str.
Qed.

Lemma entries_optional soc :
  (∀ ta, ir_topology_assignment r = Some ta → NoDup (ta_positions ta).*1) →
  (∀ sigs, ir_per_stage_settlement_signatures r = Some sigs →
    Forall (λ kv : string * NodeSignatureMaterial, mat_tee_attestation kv.2 ≠ Some JNull) sigs) →
  (∃ w, present "activation_noise_trace" (nullable (dict_field noise_trace_from_dict)) d = Ok w ∧ mjoin w = ir_activation_noise_trace r) ∧
  (∃ w, present "topology_assignment" (nullable (dict_field topology_from_dict)) d = Ok w ∧ mjoin w = sorted_topology <$> ir_topology_assignment r) ∧
  (∃ w, present "partial_completion" (nullable (dict_field partial_from_dict)) d = Ok w ∧ mjoin w = ir_partial_completion r) ∧
  (∃ w, present "prompt_hash" (nullable hex_field) d = Ok w ∧ mjoin w = ir_prompt_hash r) ∧
  (∃ w, present "stage_activation_chain" (nullable (dict_field chain_from_dict)) d = Ok w ∧ mjoin w = sorted_chain <$> ir_stage_activation_chain r) ∧
  (∃ w, present "per_stage_settlement_signatures" (nullable (signatures_from_dict soc)) d = Ok w ∧ mjoin w = ir_per_stage_settlement_signatures r) ∧
  (∃ w, present "settler_pubkey_b64" (nullable typed_str) d = Ok w ∧ mjoin w = ir_settler_pubkey_b64 r).
Proof.
  intros Hp Hm. split_and!.
  - destruct (present_opt "activation_noise_trace" (dict_field noise_trace_from_dict) d noise_trace_to_dict id (ir_activation_noise_trace r))
      as (w & Hw & Hj); [wire_get | | exists w; by rewrite Hj, option_fmap_id].
    intros x _. split; [done | apply (noise_trace_roundtrip x)].
  - apply (present_opt _ _ _ topology_to_dict); [wire_get|]. intros x Hx. split; [done | apply (topology_roundtrip x), Hp, Hx].
  - destruct (present_opt "partial_completion" (dict_field partial_from_dict) d partial_to_dict id (ir_partial_completion r))
      as (w & Hw & Hj); [wire_get | | exists w; by rewrite Hj, option_fmap_id].
    intros [] _. done.
  - destruct (present_opt "prompt_hash" hex_field d (λ h, TStr (hex h)) id (ir_prompt_hash r))
      as (w & Hw & Hj); [wire_get | | exists w; by rewrite Hj, option_fmap_id].
    intros x _. split; [done|]. cbn [hex_field]. by rewrite fromhex_hex.
  - apply (present_opt _ _ _ chain_to_dict); [wire_get|]. intros x _. split; [done | apply (chain_roundtrip x)].
  - destruct (present_opt "per_stage_settlement_signatures" (signatures_from_dict soc) d signatures_to_dict id
      (ir_per_stage_settlement_signatures r)) as (w & Hw & Hj); [wire_get | | exists w; by rewrite Hj, option_fmap_id].
    intros x Hx. split; [done | by apply signatures_roundtrip, Hm].
  - destruct (present_opt "settler_pubkey_b64" typed_str d TStr id (ir_settler_pubkey_b64 r))
      as (w & Hw & Hj); [wire_get | | exists w; by rewrite Hj, option_fmap_id]. done.
Qed.
End Entries.

Lemma dict_from_dict soc r : wire_ok r → receipt_from_dict soc (receipt_to_dict r) = Ok (normal_receipt r).
Proof.
  intros [Hc Hp Hm _]. unfold receipt_from_dict, receipt_to_dict.
  destruct (entries_required r) as (R1 & R2 & R3 & R4 & R5).
  destruct (entries_converted r Hc) as (C1 & C2 & C3 & C4 & C5 & C6 & C7 & C8 & C9).
  destruct (entries_optional r soc Hp Hm) as ((w1 & O1 & J1) & (w2 & O2 & J2) & (w3 & O3 & J3) & (w4 & O4 & J4) & (w5 & O5 & J5) & (w6 & O6 & J6) & (w7 & O7 & J7)).
  rewrite C1, C2, C3, C4, C5, C6, C7, C8, O1, O2, O3, O4, O5, O6. cbn [mbind result_bind].
  rewrite R1, R2, R3, R4, R5, C9, O7. cbn [of_option mbind result_bind typed_str typed_float default].
  by rewrite J1, J2, J3, J4, J5, J6, J7.
Qed.

Lemma topology_position_total x y : topology_position_leb x y = true ∨ topology_position_leb y x = true.
Proof. destruct x as [[a b] c], y as [[a' b'] c']. unfold topology_position_leb. lia. Qed.

Lemma topology_position_trans x y z : topology_position_leb x y = true → topology_position_leb y z = true → topology_position_leb x z = true.
Proof. destruct x as [[a b] c], y as [[a' b'] c'], z as [[a'' b''] c'']. unfold topology_position_leb. lia. Qed.

Lemma signing_payload_normal r : signing_payload (normal_receipt r) = signing_payload r.
Proof.
  unfold signing_payload, signing_lines. cbn [normal_receipt ir_job_id ir_request_id ir_model_id ir_content_tier ir_privacy_tier
    ir_epsilon_spent ir_tee_type ir_tee_attestation ir_output_hash ir_duration_seconds ir_cost_ftns ir_settler_node_id
    ir_streamed_output ir_activation_noise_trace ir_topology_assignment ir_partial_completion ir_prompt_hash ir_stage_activation_chain].
  rewrite <-!option_fmap_compose. do 3 f_equal.
  assert (∀ t, topology_stable_hash (sorted_topology t) = topology_stable_hash t) as Ht.
  { intros t. unfold topology_stable_hash, positions_json, sorted_topology. cbn [ta_positions].
    by rewrite (sort_by_id _ (sort_by topology_position_leb (ta_positions t))) by
      (apply sort_by_sorted; [apply topology_position_total | apply topology_position_trans]). }
  assert (∀ c, chain_stable_hash (sorted_chain c) = chain_stable_hash c) as Hc.
  { intros c. unfold chain_stable_hash, chain_to_dict, sorted_chain, sorted_proofs. cbn [sac_request_id sac_proofs].
    by rewrite (sort_by_id _ (sort_by stage_leb (sac_proofs c))) by (apply sort_by_sorted; [apply stage_leb_total | apply stage_leb_trans]). }
  assert ((topology_stable_hash ∘ sorted_topology) <$> ir_topology_assignment r = topology_stable_hash <$> ir_topology_assignment r) as ->
    by (destruct (ir_topology_assignment r); [simpl; by rewrite Ht | done]).
  by assert ((chain_stable_hash ∘ sorted_chain) <$> ir_stage_activation_chain r = chain_stable_hash <$> ir_stage_activation_chain r) as ->
    by (destruct (ir_stage_activation_chain r); [simpl; by rewrite Hc | done]).
Qed.

(** C27 Receipts survive the wire.  A receipt that is written as JSON and read back is
    the same receipt up to the order of its topology positions and stage proofs; what
    is read back has the same signing bytes, and so verifies or fails to verify
    exactly as the original, whatever key or identity it is checked with.  A
    successful result and a failure survive the wire too. *)
Theorem receipt_wire_roundtrip `{Ed25519} soc r :
  wire_ok r →
  (v ← loads (dumps (receipt_to_dict r)); receipt_from_dict soc v) = Ok (normal_receipt r) ∧
  signing_payload (normal_receipt r) = signing_payload r ∧
  (∀ key identity, verify_inference_receipt (normal_receipt r) key identity = verify_inference_receipt r key identity) ∧
  (∀ request_id output success error,
     result_from_dict soc (result_to_dict {| inf_request_id := request_id; inf_success := success; inf_output := output;
       inf_receipt := Some r; inf_error := error |}) =
     Ok {| inf_request_id := request_id; inf_success := success; inf_output := output;
           inf_receipt := Some (normal_receipt r); inf_error := error |}) ∧
  (∀ request_id error,
     result_from_dict soc (result_to_dict (inference_failure request_id error)) = Ok (inference_failure request_id error)).
Proof.
  intros Hw. pose proof (dict_from_dict soc r Hw) as Hd. pose proof (signing_payload_normal r) as Hp. split_and!; [|done| | |].
  - rewrite loads_dumps by apply Hw. exact Hd.
  - intros key identity. unfold verify_inference_receipt. by rewrite Hp.
  - intros request_id output success error. unfold result_from_dict, result_to_dict. cbn [inf_receipt fmap option_fmap option_map default].
    change (dict_get "receipt" _) with (Some (receipt_to_dict r)). cbn [default id]. change (id (receipt_to_dict r)) with (receipt_to_dict r).
    change (jtext_truthy (receipt_to_dict r)) with true. rewrite Hd. cbn [mbind result_bind]. by destruct error.
  - done.
Qed.
