(* ===== verification/ChallengeVerifier.v ===== *)
(** * Disputes over inference receipts

    Models settlement/challenge_verifier.py, the verdict on an inference receipt that
    a challenger reaches off chain, and settlement/challenge_auto_defense.py, what a
    node makes of a challenge against one of its own batches.  Texts for the log and
    the details of findings are not modelled. *)
From Stdlib Require Import ZArith Lia.
From S2P Require Import PyStd.
From S2P Require Import Externals.
From S2P Require Import Receipt.
From S2P Require Import Attestation.
From S2P Require Import Registry.
From S2P Require Import ActivationChain.
From S2P Require Import InferenceModels.
From S2P Require Import InferenceAdapter.
From S2P Require Import ReceiptSigning.
From S2P Require Import Prelude.

#[local] Open Scope string_scope.
#[local] Open Scope list_scope.
#[local] Open Scope Z_scope.

(** ** The verdict on a receipt *)

Inductive ChallengeGround : Type :=
| INVALID_SETTLER_SIGNATURE
| INVALID_ACTIVATION_CHAIN
| ACTIVATION_TOPOLOGY_MISMATCH
| ACTIVATION_CHAIN_WRONG_REQUEST.

#[export] Instance ChallengeGround_eq_dec : EqDecision ChallengeGround.
Proof. solve_decision. Defined.

(** The reason code of the contract, if there is one. *)
Definition ON_CHAIN_REASON (g : ChallengeGround) : option Z :=
  match g with INVALID_SETTLER_SIGNATURE => Some 1 | _ => None end.

Record ChallengeFinding : Type := {
  cf_reason : ChallengeGround;
  cf_proven : bool;
  cf_on_chain_reason : option Z
}.

Record ChallengeReport : Type := { cr_receipt_ok : bool; cr_findings : list ChallengeFinding }.

Definition proven_findings (r : ChallengeReport) : list ChallengeFinding :=
  filter (λ f, cf_proven f = true) (cr_findings r).

Definition on_chain_actionable (r : ChallengeReport) : list ChallengeFinding :=
  filter (λ f, is_Some (cf_on_chain_reason f)) (proven_findings r).

Definition finding (g : ChallengeGround) (proven : bool) : ChallengeFinding :=
  {| cf_reason := g; cf_proven := proven; cf_on_chain_reason := ON_CHAIN_REASON g |}.

Section Verifier.
Context `{Externals}.

(** The grounds that the summary of an activation chain proves or not. *)
Definition chain_findings (s : ChainSummary) : list ChallengeFinding :=
  let links_ok := bool_decide (su_internal_links s = None) in
  let sigs_ok := default true (su_signatures_valid s) in
  [finding INVALID_ACTIVATION_CHAIN (negb links_ok || negb sigs_ok)] ++
  match su_topology s with
  | Some t => [finding ACTIVATION_TOPOLOGY_MISMATCH (negb (bool_decide (t = None)))]
  | None => []
  end ++
  match su_request_id_bound s with
  | Some bound => [finding ACTIVATION_CHAIN_WRONG_REQUEST (negb bound)]
  | None => []
  end.
End Verifier.


Section Verdict.
Context `{Ed25519}.

Definition verify_inference_receipt_for_challenge (r : InferenceReceipt) (settler_public_key_b64 : string)
    (stage_public_keys : option (dict string string)) : ChallengeReport :=
  let settler_ok := verify_inference_receipt r (Some settler_public_key_b64) None in
  let findings :=
    [finding INVALID_SETTLER_SIGNATURE (negb settler_ok)] ++
    match ir_stage_activation_chain r with
    | None => []
    | Some chain =>
        chain_findings (summarize_stage_activation_chain chain stage_public_keys (ir_positions r) (Some (ir_request_id r)))
    end in
  {| cr_receipt_ok := forallb (λ f, negb (cf_proven f)) findings; cr_findings := findings |}.

(** What must hold of a chain of stages for no ground to be proven. *)
Record chain_sound (r : InferenceReceipt) (keys : option (dict string string)) (c : StageActivationChain) : Prop := {
  cs_links : ordered_stages c (sorted_proofs c);
  cs_signed : ∀ ks p, keys = Some ks → ks ≠ [] → p ∈ sac_proofs c →
    verify_stage_proof (λ n, dict_get n ks) p (sac_request_id c) = true;
  cs_topology : ∀ ps p, ir_positions r = Some ps → p ∈ sac_proofs c →
    ∃ slot, ((sap_stage_index p, slot), sap_stage_node_id p) ∈ ps;
  cs_request : sac_request_id c = ir_request_id r
}.

Lemma supports_topology_None c ps :
  chain_supports_topology c (Some ps) = None ↔
  ∀ p, p ∈ sac_proofs c → ∃ slot, ((sap_stage_index p, slot), sap_stage_node_id p) ∈ ps.
Proof.
  unfold chain_supports_topology.
  assert (∀ p, sap_stage_node_id p ∈ (filter (λ kv : (Z * Z) * string, kv.1.1 = sap_stage_index p) ps).*2 ↔
            ∃ slot, ((sap_stage_index p, slot), sap_stage_node_id p) ∈ ps) as Hin.
  { intros p. rewrite list_elem_of_fmap. split.
    - intros ([[s sl] n] & Hn & [Hs Hin]%list_elem_of_filter). simpl in *. subst. by exists sl.
    - intros [slot Hslot]. exists ((sap_stage_index p, slot), sap_stage_node_id p). split; [done|].
      by apply list_elem_of_filter. }
  destruct (filter _ (sac_proofs c)) as [|q l] eqn:E.
  - split; [|done]. intros _ p Hp. apply Hin. destruct (decide (sap_stage_node_id p ∈ (filter (λ kv : (Z * Z) * string, kv.1.1 = sap_stage_index p) ps).*2)) as [|Hno]; [done|].
    exfalso. eapply (not_elem_of_nil p). rewrite <-E. by apply list_elem_of_filter.
  - split; [done|]. intros Hall. exfalso.
    assert (q ∈ q :: l) as Hq by left. rewrite <-E in Hq. apply list_elem_of_filter in Hq as [Hno Hq]. by apply Hno, Hin, Hall.
Qed.

Lemma summary_signatures c keys ps req :
  default true (su_signatures_valid (summarize_stage_activation_chain c keys ps req)) = true ↔
  ∀ ks p, keys = Some ks → ks ≠ [] → p ∈ sac_proofs c → verify_stage_proof (λ n, dict_get n ks) p (sac_request_id c) = true.
Proof.
  cbn [summarize_stage_activation_chain su_signatures_valid].
  destruct keys as [[|kv ks]|]; [naive_solver | | naive_solver]. cbn [default from_option]. unfold id. rewrite forallb_forall. split.
  - intros Hall ks' p [= <-] _ Hp. by apply Hall, list_elem_of_In.
  - intros Hall p Hp. apply (Hall (kv :: ks) p); [done..|]. by apply list_elem_of_In.
Qed.

Lemma topology_finding_clean c ps :
  forallb (λ f, negb (cf_proven f))
    match (λ ps, chain_supports_topology c (Some ps)) <$> ps with
    | Some t => [finding ACTIVATION_TOPOLOGY_MISMATCH (negb (bool_decide (t = None)))] | None => [] end = true ↔
  ∀ ps' p, ps = Some ps' → p ∈ sac_proofs c → ∃ slot, ((sap_stage_index p, slot), sap_stage_node_id p) ∈ ps'.
Proof.
  destruct ps as [ps|]; [|naive_solver]. cbn [fmap option_fmap option_map forallb finding cf_proven].
  rewrite andb_true_r, negb_involutive, bool_decide_eq_true, supports_topology_None. naive_solver.
Qed.

Lemma chain_findings_clean r keys c :
  forallb (λ f, negb (cf_proven f)) (chain_findings (summarize_stage_activation_chain c keys (ir_positions r) (Some (ir_request_id r)))) = true ↔
  chain_sound r keys c.
Proof.
  pose proof (summary_signatures c keys (ir_positions r) (Some (ir_request_id r))) as Hsig.
  unfold chain_findings. cbv zeta. set (sigs := default true _) in *.
  cbn [summarize_stage_activation_chain su_internal_links su_topology su_request_id_bound].
  rewrite !forallb_app, !andb_true_iff, topology_finding_clean. cbn [fmap option_fmap option_map forallb finding cf_proven].
  rewrite !andb_true_r, negb_orb, !negb_involutive, !andb_true_iff, !bool_decide_eq_true, internal_links_None, Hsig.
  split; [intros ([? ?] & ? & ?); by split | intros []; tauto].
Qed.

(** C28 The verdict on a receipt is exact.  A receipt is found in order if and only if
    it carries a signature that verifies under the settler's key and, when it has an
    activation chain, the chain's stages are complete and linked, it is of the
    receipt's request, its stages are at nodes the receipt's topology assigns to them
    and, if stage keys are given, every stage's signature verifies.  What can be taken
    to the contract is exactly a settler signature that does not verify. *)
Theorem challenge_report_exact r settler_key keys :
  let report := verify_inference_receipt_for_challenge r settler_key keys in
  (cr_receipt_ok report = true ↔
     (∃ key, b64decode settler_key = Some key ∧ verifies_as r key) ∧
     ∀ c, ir_stage_activation_chain r = Some c → chain_sound r keys c) ∧
  (cr_receipt_ok report = true ↔ proven_findings report = []) ∧
  on_chain_actionable report =
    (if verify_inference_receipt r (Some settler_key) None then [] else [finding INVALID_SETTLER_SIGNATURE true]).
Proof.
  cbn zeta. unfold verify_inference_receipt_for_challenge. split_and!.
  - cbn [cr_receipt_ok]. rewrite forallb_app, andb_true_iff. cbn [forallb finding cf_proven].
    rewrite andb_true_r, negb_involutive, verify_given_key. apply and_iff_compat_l.
    destruct (ir_stage_activation_chain r) as [c|]; [|naive_solver]. rewrite chain_findings_clean. naive_solver.
  - unfold proven_findings. cbn [cr_receipt_ok cr_findings]. set (l := _ ++ _). rewrite forallb_forall. split.
    + intros Hall. destruct (filter _ l) as [|f fs] eqn:E; [done|]. exfalso.
      assert (f ∈ filter (λ f, cf_proven f = true) l) as [Hf Hin]%list_elem_of_filter by (rewrite E; left).
      apply list_elem_of_In, Hall in Hin. by rewrite Hf in Hin.
    + intros Hnil f Hf%list_elem_of_In. destruct (cf_proven f) eqn:E; [|done].
      exfalso. eapply (not_elem_of_nil f). rewrite <-Hnil. by apply list_elem_of_filter.
  - unfold on_chain_actionable, proven_findings. cbn [cr_findings]. rewrite !filter_app.
    assert (∀ s, filter (λ f, is_Some (cf_on_chain_reason f)) (filter (λ f, cf_proven f = true) (chain_findings s)) = []) as Hn.
    { intros s. unfold chain_findings. destruct (su_topology s), (su_request_id_bound s); cbn;
        repeat (case_decide; cbn); done. }
    assert (filter (λ f, is_Some (cf_on_chain_reason f)) (filter (λ f, cf_proven f = true)
              match ir_stage_activation_chain r with None => [] | Some chain =>
                chain_findings (summarize_stage_activation_chain chain keys (ir_positions r) (Some (ir_request_id r))) end) = []) as ->.
    { by destruct (ir_stage_activation_chain r). }
    rewrite app_nil_r. by destruct (verify_inference_receipt r _ _).
Qed.
End Verdict.
