(* ===== verification/SettleWiring.v ===== *)
(** * Wiring of the settlement client into a node

    Models prsm/settlement/client_wiring.py: the commit thresholds read from the
    environment, the booking of a settled inference, the settlement poll cycle and
    the resolution of a paying requester.  The construction of clients, verifiers
    and stores from the environment is not modelled. *)
From Stdlib Require Import ZArith Lia QArith.
From S2P Require Import PyStd.
From S2P Require Import PyNumbers.
From S2P Require Import Externals.
From S2P Require Import Receipt.
From S2P Require Import Attestation.
From S2P Require Import Accumulator.
From S2P Require Import Effects.
From S2P Require Import Client.
From S2P Require Import Payment.
From S2P Require Import PaymentStores.
From S2P Require Import PaymentVerifier.
From S2P Require Import PerStageAuth.
From S2P Require Import InferenceModels.
From S2P Require Import CreditPolicy.
From S2P Require Import InferenceAdapter.
From S2P Require Import Prelude.

#[local] Open Scope string_scope.
#[local] Open Scope list_scope.
#[local] Open Scope Z_scope.

(** ** Commit thresholds *)

Definition wei_per_ftns : decimal := dec_of_int (10 ^ 18).

Section Thresholds.
Variable prec : Z.

(** [(environ.get(name, "") or "").strip()] *)
Definition raw_env (environ : dict string string) (name : string) : string :=
  strip (default "" (dict_get name environ)).

(** [_resolve_accumulator_config]; [None] keeps the defaults. *)
Definition resolve_accumulator_config (environ : dict string string) : option AccumulatorConfig :=
  let count := int_of_str (raw_env environ "PRSM_SETTLEMENT_COUNT_THRESHOLD") in
  let time := int_of_str (raw_env environ "PRSM_SETTLEMENT_TIME_THRESHOLD_S") in
  let value :=
    d ← decimal_of_str (raw_env environ "PRSM_SETTLEMENT_VALUE_THRESHOLD_FTNS");
    match dec_mul prec d wei_per_ftns with Ok wei => Some (dec_int wei) | Err _ => None end in
  match count, time, value with
  | None, None, None => None
  | _, _, _ =>
      match AccumulatorConfig_post_init
              {| count_threshold := default (count_threshold AccumulatorConfig_default) count;
                 time_threshold_seconds := default (time_threshold_seconds AccumulatorConfig_default) time;
                 value_threshold_ftns := default (value_threshold_ftns AccumulatorConfig_default) value |} with
      | Ok config => Some config
      | Err _ => None
      end
  end.
End Thresholds.

(** ** Booking a settled inference *)

Inductive AccumulateStatus : Type :=
| Accumulated
| Skipped (reason : string)
| Errored (e : exn).

Record SettledInference : Type := {
  si_receipt : InferenceReceipt;
  si_release_ftns : decimal;
  si_job_id : string;
  si_requester_address : option string;
  si_executed_at_unix : option Z;
  si_max_spend_wei : option Z
}.

Section Booking.
Context `{Ed25519} (prec : Z).

(** The receipt booked for [value_wei], with the adapter's default shard, slash
    rate and group. *)
Definition booking_args (provider : string) (s : SettledInference) (value_wei at_ : Z) : AdapterArgs :=
  {| ad_requester_address := match si_requester_address s with
                             | Some a => if str_nonempty a then a else provider | None => provider end;
     ad_provider_address := provider; ad_value_ftns := value_wei; ad_local_escrow_id := si_job_id s;
     ad_executed_at_unix := at_; ad_shard_index := 0; ad_tier_slash_rate_bps := 0;
     ad_consensus_group_id := zero32 |}.

(** The body of [accumulate_settled_inference_receipt], without a store of
    inference receipts. *)
Definition book_settled (identity : option NodeIdentity) (provider : string) (s : SettledInference)
  : M settle Client AccumulateStatus :=
  let rel := si_release_ftns s in
  if dec_leb rel dec_zero then mret (Skipped "zero-release")
  else
    split ← lift (split_release_across_stages prec (si_receipt s) rel);
    match split with
    | Some _ => mret (Skipped "multi-stage-deferred")
    | None =>
        wei ← lift (dec_mul prec rel wei_per_ftns);
        let value_wei := dec_int wei in
        if value_wei <=? 0 then mret (Skipped "sub-wei")
        else if match si_max_spend_wei s with Some m => m <? value_wei | None => false end
        then mret (Skipped "exceeds-max-spend")
        else
          at_ ← match si_executed_at_unix s with
                | Some t => mret t | None => perform (E := settle) Now end;
          batched ← lift (inference_receipt_to_batched_receipt (si_receipt s) identity
                            (booking_args provider s value_wei at_));
          _ ← accumulate batched;
          mret Accumulated
    end.

(** [accumulate_settled_inference_receipt]; [has_client] is [client is not None]. *)
Definition accumulate_settled_inference_receipt (has_client : bool) (identity : option NodeIdentity)
    (provider_address : option string) (s : SettledInference) : M settle Client AccumulateStatus :=
  r ← try (if negb has_client then mret (Skipped "no-client")
           else match provider_address with
                | None => mret (Skipped "no-provider-address")
                | Some p => if negb (str_nonempty p) then mret (Skipped "no-provider-address")
                            else book_settled identity p s
                end);
  mret (match r with Ok status => status | Err e => Errored e end).

(** ** The poll cycle *)

Definition POLL_PHASES : list (string * M settle Client unit) :=
  [("recover", _ ← recover_committing_intents; mret ());
   ("reconcile_pending", _ ← reconcile_pending_commits; mret ());
   ("commit", _ ← commit_ready_batches false; mret ());
   ("finalize", _ ← finalize_ready_batches; mret ());
   ("reconcile_finalized", _ ← reconcile_finalized; mret ())].

(** One phase, isolated; the text of a result other than an error is not kept. *)
Definition run_phase (phase : string * M settle Client unit) : M settle Client (list (string * result unit)) :=
  r ← try phase.2; mret [(phase.1, r)].

Definition run_settlement_poll_cycle : M settle Client (list (string * result unit)) :=
  for_collect POLL_PHASES run_phase.
End Booking.

(** ** The paying requester *)

Section Requesters.
Context `{Externals, Eip712} {NS BS : Type} `{NonceStore NS, BudgetStore BS}.

(** A JSON object's fields as the verifier reads them. *)
Definition payload_of_json (j : json) : option payload :=
  match j with JObj o => Some (prod_map id pval_of_json <$> o) | _ => None end.

(** [{payload: {...}, signature: ...}], or the rejection. *)
Definition signed_part (reason : string) (j : json) : result (payload * pval) :=
  match j with
  | JObj o =>
      match payload_of_json (get_or_null "payload" o) with
      | Some p =>
          if json_truthy (get_or_null "signature" o) then Ok (p, pval_of_json (get_or_null "signature" o))
          else Err (AuthorizationRejected reason)
      | None => Err (AuthorizationRejected reason)
      end
  | _ => Err (AuthorizationRejected reason)
  end.

(** [resolve_paid_requester]; a [verifier] is its configuration and its store is
    the state; [now] is the clock reading of the verification. *)
Definition resolve_paid_requester (verifier : option VerifierConfig) (payment_authorization : option json)
    (request_hash : pval) (quoted_price_wei : Z) (now : Q) : M pay NS (option string) :=
  match payment_authorization with
  | None => mret None
  | Some auth =>
      match verifier with
      | None => raise (AuthorizationRejected "verifier-not-wired")
      | Some cfg =>
          '(p, signature) ← lift (signed_part "malformed-authorization" auth);
          requester ← verify_authorization cfg p signature request_hash quoted_price_wei now;
          mret (Some requester)
      end
  end.

Definition resolve_relayer_requester (verifier : option VerifierConfig)
    (payment_authorization payment_delegation : option json) (request_hash : pval) (quoted_price_wei : Z)
    (now_d now_a : Q) : M pay (Relayer NS BS) (option string) :=
  match payment_delegation with
  | None => mret None
  | Some delegation =>
      match verifier with
      | None => raise (AuthorizationRejected "verifier-not-wired")
      | Some cfg =>
          let auth := default JNull payment_authorization in
          _ ← lift (raise_if (negb (match auth with JObj _ => true | _ => false end))
                      (AuthorizationRejected "malformed-authorization"));
          _ ← lift (raise_if (negb (match delegation with JObj _ => true | _ => false end))
                      (AuthorizationRejected "malformed-delegation"));
          '(auth_payload, auth_sig) ← lift (signed_part "malformed-authorization" auth);
          '(deleg_payload, deleg_sig) ← lift (signed_part "malformed-delegation" delegation);
          funder ← verify_relayed cfg
            {| rq_auth := auth_payload; rq_auth_signature := auth_sig; rq_delegation := deleg_payload;
               rq_delegation_signature := deleg_sig; rq_request_hash := request_hash;
               rq_quoted_price_wei := quoted_price_wei |} now_d now_a;
          mret (Some funder)
      end
  end.
End Requesters.
