(* ===== verification/ClientLiveness.v ===== *)
(** * BatchSettlementClient: progress

    Safety says what never happens; here is what does.  A queued batch that is due
    reaches the chain in one poll cycle of a world that takes it, and is finalized
    in the next one after its challenge window, whatever the world does to the
    other batches. *)
From Stdlib Require Import ZArith Lia.
From S2P Require Import PyStd.
From S2P Require Import Externals.
From S2P Require Import Receipt.
From S2P Require Import Attestation.
From S2P Require Import Merkle.
From S2P Require Import Accumulator.
From S2P Require Import Published.
From S2P Require Import Effects.
From S2P Require Import Client.
From S2P Require Import ClientDurable.
From S2P Require Import ClientSafety.
From S2P Require Import SettleWiring.
From S2P Require Import Prelude.

#[local] Open Scope string_scope.
#[local] Open Scope list_scope.
#[local] Open Scope Z_scope.

(** A specification holds in every world with fewer behaviours. *)
Lemma wp_exec_mono {E : signature} {W A} (exec exec' : ∀ e : E, W → response e → W → Prop) I
    (p : prog E A) Q w :
  (∀ e w r w', exec' e w r w' → exec e w r w') → wp exec I p Q w → wp exec' I p Q w.
Proof.
  intros Hx. revert w. induction p as [a|e k IH]; simpl; intros w [Hi Hp]; [done|].
  split; [done|]. intros r w' Hr. by apply IH, Hp, Hx.
Qed.

Lemma wpm_exec_mono {E : signature} {W S A} (exec exec' : ∀ e : E, W → response e → W → Prop) I
    (m : M E S A) Q s w :
  (∀ e w r w', exec' e w r w' → exec e w r w') → wpm exec I m Q s w → wpm exec' I m Q s w.
Proof. apply wp_exec_mono. Qed.

(** What a scripted run of a method returns satisfies its specification. *)
Lemma run_wpm {E : signature} {W S A} (exec : ∀ e : E, W → response e → W → Prop)
    (answer : ∀ e : E, W → option (response e * W)) I (m : M E S A) Q s w r s' w' :
  (∀ e w r w', answer e w = Some (r, w') → exec e w r w') →
  run answer (m s) w = Some (r, s', w') → wpm exec I m Q s w → Q r s' w'.
Proof. intros Hx Hrun Hw. exact (run_wp exec answer I _ _ _ _ _ Hx Hw Hrun). Qed.

(** ** Methods that keep a preorder *)

Section Stable.
Context `{Deployment} (R : Client * World → Client * World → Prop) `{!PreOrder R}.

Abbreviation wpt := (wpm (E := settle) exec (λ _, True)).

(** Whatever the world answers, [m] moves along [R]. *)
Definition stable {A} (m : method A) : Prop := ∀ c w, wpt m (λ _ c' w', R (c, w) (c', w')) c w.

Lemma stable_ret {A} (x : A) : stable (mret x).
Proof. intros c w. by apply wpm_ret. Qed.

Lemma stable_lift {A} (r : result A) : stable (lift r).
Proof. intros c w. by apply wpm_lift. Qed.

Lemma stable_bind {A B} (m : method A) (f : A → method B) :
  stable m → (∀ x, stable (f x)) → stable (m ≫= f).
Proof.
  intros Hm Hf c w. apply wpm_bind. eapply wpm_mono; [apply Hm|]. intros [x|e] c1 w1 _ Hr1; [|done].
  eapply wpm_mono; [apply Hf|]. intros r c2 w2 _ Hr2. by etrans.
Qed.

Lemma stable_get {A} (f : Client → method A) : (∀ c, stable (f c)) → stable (c ← get; f c).
Proof. intros Hf c w. by apply wpm_bind, wpm_get; [|apply Hf]. Qed.

Lemma stable_modify (f : Client → Client) : (∀ c w, R (c, w) (f c, w)) → stable (modify f).
Proof. intros Hf c w. by apply wpm_modify. Qed.

Lemma stable_perform (e : settle) :
  (∀ c w r w', exec e w r w' → R (c, w) (c, w')) → stable (perform (E := settle) e).
Proof. intros He c w. apply (wpm_perform (E := settle) exec _ e); [done|]. eauto. Qed.

Lemma stable_try {A} (m : method A) : stable m → stable (try m).
Proof. intros Hm c w. apply wpm_try. apply Hm. Qed.

Lemma stable_for_collect {A B} (P : A → Prop) (l : list A) (f : A → method (list B)) :
  Forall P l → (∀ x, P x → stable (f x)) → stable (for_collect l f).
Proof.
  intros Hl Hf. induction Hl as [|x l Hx Hl IH]; simpl; [apply stable_ret|].
  apply stable_bind; [by apply Hf|]. intros ys. apply stable_bind; [done|]. intros; apply stable_ret.
Qed.

(** With the invariants. *)
Lemma keeps_stable {A} (m : method A) c w :
  keeps m → stable m → disk_inv w → mem_inv c (w_sent w) →
  wpt m (λ r c' w', inv_post r c' w' ∧ R (c, w) (c', w')) c w.
Proof.
  intros Hk Hs Hd Hi. unfold wpm.
  eapply (wp_weaken (E := settle) exec (λ w, disk_inv w ∧ True)); [done|].
  apply (wp_and (E := settle) exec disk_inv (λ _, True)); [by apply Hk | apply Hs].
Qed.
End Stable.

(** Decompose a method into steps that keep the preorder. *)
Ltac stable_step :=
  lazymatch goal with
  | |- stable _ (mret _) => apply stable_ret
  | |- stable _ (lift _) => apply stable_lift
  | |- PreOrder _ => apply _
  | |- stable _ (mbind _ get) => apply stable_get; [..|intros ?]
  | |- stable _ (mbind _ _) => apply stable_bind; [..|intros ?]
  | |- stable _ (try _) => apply stable_try
  | |- stable _ (match ?x with _ => _ end) => destruct x
  end.
Ltac stable_steps := repeat stable_step.

(** ** What only grows *)

Section Forward.
Context `{Deployment}.

(** Tracked batches, finalized ids and sent commits are never forgotten by a
    running client, and its address does not change. *)
Record forward (s s' : Client * World) : Prop := {
  fw_tracked : ∀ b : bytes, b ∈ dict_keys (c_tracked s.1) → b ∈ dict_keys (c_tracked s'.1);
  fw_finalized : ∀ b : bytes, b ∈ c_finalized_ids s.1 → b ∈ c_finalized_ids s'.1;
  fw_sent : ∀ x, x ∈ w_sent s.2 → x ∈ w_sent s'.2;
  fw_address : c_address s'.1 = c_address s.1
}.

#[export] Instance forward_preorder : PreOrder forward.
Proof.
  split.
  - intros s. by split.
  - intros s1 s2 s3 [] []. split; eauto. congruence.
Qed.

Lemma exec_sent (e : settle) w r w' x : exec e w r w' → x ∈ w_sent w → x ∈ w_sent w'.
Proof.
  intros He Hx. destruct e; simpl in He; try (by subst); try (by destruct He as [-> _]).
  - destruct He as [[_ ->]|(? & _ & ->)]; done.
  - destruct r as [[b t]|[]]; simpl in He; try (by subst);
      first [destruct He as (_ & ->) | subst w']; simpl; apply elem_of_app; by left.
Qed.

Lemma forward_perform (e : settle) : stable forward (perform (E := settle) e).
Proof.
  apply stable_perform. intros c w r w' He. split; simpl; try done. intros x. by apply (exec_sent e w r).
Qed.

(** A change of the client that keeps what [forward] is about. *)
Lemma forward_client f :
  (∀ c, (∀ b, b ∈ dict_keys (c_tracked c) → b ∈ dict_keys (c_tracked (f c))) ∧
        (∀ b, b ∈ c_finalized_ids c → b ∈ c_finalized_ids (f c)) ∧ c_address (f c) = c_address c) →
  stable forward (modify f).
Proof. intros Hf. apply stable_modify. intros c w. destruct (Hf c) as (? & ? & ?). by split. Qed.

Lemma forward_modify f :
  (∀ c, c_tracked (f c) = c_tracked c ∧ c_finalized_ids (f c) = c_finalized_ids c ∧ c_address (f c) = c_address c) →
  stable forward (modify f).
Proof. intros Hf. apply forward_client. intros c. destruct (Hf c) as (-> & -> & ->). done. Qed.

Lemma forward_tracked (b : bytes) cb : stable forward (modify (with_tracked (dict_set b cb))).
Proof.
  apply forward_client. intros c. split_and!; [|done|done]. intros b' Hb'. simpl.
  rewrite dict_keys_set. case_decide; [done|]. apply elem_of_app. by left.
Qed.

Lemma forward_finalized b : stable forward (modify (with_finalized b)).
Proof. apply forward_client. intros c. split_and!; [done| |done]. set_solver. Qed.

Ltac forward_step :=
  first [ apply forward_perform | apply forward_tracked | apply forward_finalized
        | apply forward_modify; by intros ? ].

Lemma forward_persist : stable forward persist.
Proof. unfold persist. repeat first [stable_step | forward_step]. Qed.

Ltac forward_steps := repeat first [stable_step | apply forward_persist | forward_step].

Lemma forward_commit r : stable forward (commit_iteration r).
Proof.
  unfold commit_iteration, commit_one, promote, quarantine_pending. forward_steps.
Qed.

Lemma forward_collect {A B} (l : list A) (f : A → method (list B)) :
  (∀ x, stable forward (f x)) → stable forward (for_collect l f).
Proof. intros Hf. apply (stable_for_collect forward (λ _, True)); [by apply Forall_true|auto]. Qed.

Lemma forward_finalize : stable forward finalize_ready_batches.
Proof.
  unfold finalize_ready_batches. repeat first [stable_step | apply forward_collect; intros ?].
  all: unfold finalize_iteration; forward_steps.
Qed.

(** Every phase of the poll cycle. *)
Lemma forward_phase p : p ∈ POLL_PHASES → stable forward p.2.
Proof.
  intros Hp. unfold POLL_PHASES in Hp.
  repeat (apply elem_of_cons in Hp as [->|Hp]); [..|by apply not_elem_of_nil in Hp]; cbn [snd].
  - unfold recover_committing_intents. repeat first [stable_step | apply forward_collect; intros [??]].
    all: unfold recover_iteration; forward_steps.
  - unfold reconcile_pending_commits. repeat first [stable_step | apply forward_collect; intros [??]].
    all: unfold reconcile_iteration; forward_steps.
  - unfold commit_ready_batches. repeat first [stable_step | forward_step | apply forward_collect; intros ?].
    all: apply forward_commit.
  - apply stable_bind; [apply _|apply forward_finalize|]. intros; apply stable_ret; apply _.
  - unfold reconcile_finalized. repeat first [stable_step | apply forward_collect; intros ?].
    all: unfold reconcile_finalized_iteration; forward_steps.
Qed.

(** ** What the adoption phases leave alone *)

(** The batch queued under [k] and the thresholds are unchanged. *)
Definition same_slot (k : AccumulatorKey) (s s' : Client * World) : Prop :=
  dict_get k (acc_pending (c_accumulator s'.1)) = dict_get k (acc_pending (c_accumulator s.1)) ∧
  acc_config (c_accumulator s'.1) = acc_config (c_accumulator s.1) ∧ c_address s'.1 = c_address s.1.

#[export] Instance same_slot_preorder k : PreOrder (same_slot k).
Proof.
  split; [by intros s|]. intros s1 s2 s3 (?&?&?) (?&?&?). unfold same_slot. split_and!; congruence.
Qed.

Lemma same_slot_perform k (e : settle) : stable (same_slot k) (perform (E := settle) e).
Proof. by apply stable_perform. Qed.

Lemma same_slot_modify k f :
  (∀ c, c_accumulator (f c) = c_accumulator c ∧ c_address (f c) = c_address c) →
  stable (same_slot k) (modify f).
Proof. intros Hf. apply stable_modify. intros c w. destruct (Hf c) as [Ha Hb]. unfold same_slot. simpl. by rewrite Ha, Hb. Qed.

Lemma dict_get_del_other {K V} `{!EqDecision K} (k k' : K) (d : dict K V) :
  k ≠ k' → dict_get k' (dict_del k d) = dict_get k' d.
Proof.
  intros Hne. induction d as [|[k1 v] d IH]; simpl; [done|].
  destruct (decide (k = k1)) as [->|]; simpl; [by rewrite decide_False by congruence|].
  by destruct (decide (k' = k1)).
Qed.

Lemma same_slot_pop k k' : k' ≠ k → stable (same_slot k) (modify (pop_key k')).
Proof.
  intros Hne. apply stable_modify. intros c w. split; [|done]. simpl. by apply dict_get_del_other.
Qed.

Lemma same_slot_persist k : stable (same_slot k) persist.
Proof. unfold persist. repeat first [stable_step | apply same_slot_perform]. Qed.

Ltac same_slot_steps :=
  repeat first [stable_step | apply same_slot_persist | apply same_slot_perform | by apply same_slot_pop
               | apply same_slot_modify; by intros ?].

Lemma same_slot_recover k ki : ci_accumulator_key ki.2 ≠ k → stable (same_slot k) (recover_iteration ki).
Proof. destruct ki as [ik ci]. intros Hk. unfold recover_iteration. same_slot_steps. Qed.

Lemma same_slot_reconcile k : stable (same_slot k) reconcile_pending_commits.
Proof.
  unfold reconcile_pending_commits. repeat stable_step.
  apply (stable_for_collect (same_slot k) (λ _, True)); [by apply Forall_true|]. intros [tx pc] _.
  unfold reconcile_iteration. same_slot_steps.
Qed.
End Forward.

Ltac in_phases := unfold POLL_PHASES; repeat first [by left | right].

(** ** Worlds that make progress *)

Section Progress.
Context `{Deployment}.

(** The clock has reached [t], writes succeed, and a commit of [rs] lands; the
    world is free otherwise. *)
Definition commits (rs : list BatchedReceipt) (t : Z) (e : settle_request) (w : World)
    (r : settle_response e) (w' : World) : Prop :=
  exec e w r w' ∧
  match e return settle_response e → Prop with
  | Now => λ now, t <= now
  | Save _ => λ r, r = Ok tt
  | CommitBatch _ rs' => λ r, rs' = rs → is_Ok r
  | _ => λ _, True
  end r.

(** Writes succeed and every batch may be finalized. *)
Definition matures (e : settle_request) (w : World) (r : settle_response e) (w' : World) : Prop :=
  exec e w r w' ∧
  match e return settle_response e → Prop with
  | Save _ => λ r, r = Ok tt
  | IsFinalizable _ => λ r, r = Ok true
  | FinalizeBatch _ => λ r, is_Ok r
  | _ => λ _, True
  end r.

Lemma commits_exec rs t e w r w' : commits rs t e w r w' → exec e w r w'.
Proof. by intros []. Qed.
Lemma matures_exec e w r w' : matures e w r w' → exec e w r w'.
Proof. by intros []. Qed.

(** [rs] was sent to the chain in a batch the client tracks. *)
Definition landed (rs : list BatchedReceipt) (s : Client * World) : Prop :=
  ∃ call id, (call, rs) ∈ w_sent s.2 ∧ batch_root id = cc_merkle_root call ∧ id ∈ dict_keys (c_tracked s.1).

Lemma landed_forward rs s s' : forward s s' → landed rs s → landed rs s'.
Proof. intros [] (call & id & ? & ? & ?). exists call, id. eauto. Qed.

(** *** One commit *)

(** Under [commits] a write does not fail. *)
Lemma persist_ok rs t c w (Q : result unit → Client → World → Prop) :
  (∀ w', forward (c, w) (c, w') → Q (Ok tt) c w') → wpm (E := settle) (commits rs t) (λ _, True) persist Q c w.
Proof.
  intros HQ. unfold persist. apply wpm_bind, wpm_get; [done|]. destruct (c_has_store c).
  - apply wpm_bind, (wpm_perform (E := settle) (commits rs t) _ (Save (serialize_state c))); [done|].
    intros r w' [He ->]. split; [done|]. apply wpm_lift; [done|]. apply HQ.
    split; try done. intros x Hx. by eapply (exec_sent (Save (serialize_state c))).
  - apply wpm_ret; [done|]. by apply HQ.
Qed.

Lemma wp_trivial {E : signature} {W A} (X : ∀ e : E, W → response e → W → Prop) (p : prog E A) w :
  wp X (λ _, True) p (λ _ _, True) w.
Proof. revert w. induction p as [a|e k IH]; simpl; intros w; [done|]. split; [done|]. intros; apply IH. Qed.

Abbreviation wpc rs t := (wpm (E := settle) (commits rs t) (λ _, True)).

(** What [forward] methods do here. *)
Lemma forward_wpc {A} rs t (m : method A) c w :
  stable forward m → wpc rs t m (λ _ c' w', forward (c, w) (c', w')) c w.
Proof. intros Hm. apply (wpm_exec_mono (E := settle) exec); [apply commits_exec | apply Hm]. Qed.

Lemma promote_returns rs t ready ik rec c w :
  wpc rs t (promote ready ik rec) (λ res _ _, res = Ok tt) c w.
Proof.
  unfold promote. do 4 (apply wpm_bind, wpm_modify; [done|]).
  apply wpm_bind, persist_ok. intros w1 _. apply wpm_bind, wpm_get; [done|].
  destruct (c_published _) as [ps|]; [|by apply wpm_ret].
  apply wpm_bind, wpm_modify; [done|].
  apply wpm_bind, (wpm_perform (E := settle) (commits rs t) _ (SavePublished _)); [done|].
  intros res w2 _. split; [done|]. by apply wpm_ret.
Qed.

(** An iteration over any ready batch that builds does not raise. *)
Lemma commit_iteration_returns rs t r c w :
  is_Ok (build_leaves_root (batch_receipts (ready_batch r))) →
  wpc rs t (commit_iteration r) (λ res _ _, is_Ok res) c w.
Proof.
  intros [[ls root] Hb]. unfold commit_iteration. rewrite Hb.
  apply wpm_bind, wpm_lift; [done|]. cbn beta iota.
  do 2 (apply wpm_bind, wpm_modify; [done|]). apply wpm_bind, persist_ok. intros w1 _.
  apply wpm_bind, wpm_try. eapply (wpm_mono (E := settle) _ _ _ (λ _ _ _, True)); [apply wp_trivial|].
  intros outcome c2 w2 _ _.
  destruct outcome as [rec|exc].
  - apply wpm_bind. eapply wpm_mono; [apply promote_returns|]. intros res c3 w3 _ ->.
    apply wpm_ret; [done|]. by eexists.
  - destruct (exn_tx_hash exc) as [tx|]; [|case_bool_decide]; unfold quarantine_pending.
    + apply wpm_bind, wpm_modify; [done|]. apply wpm_bind. do 2 (apply wpm_bind, wpm_modify; [done|]).
      apply persist_ok. intros w3 _. apply wpm_ret; [done|]. by eexists.
    + apply wpm_bind, wpm_modify; [done|]. apply wpm_bind, persist_ok. intros w3 _.
      apply wpm_ret; [done|]. by eexists.
    + do 2 (apply wpm_bind, wpm_modify; [done|]). apply wpm_bind, persist_ok. intros w3 _.
      apply wpm_ret; [done|]. by eexists.
Qed.

(** The tracked batch of a landed commit outlives the rest of the iteration. *)
Lemma promote_landed rs t ready ik rec call c w :
  (call, rs) ∈ w_sent w → batch_root (cb_batch_id rec) = cc_merkle_root call →
  wpc rs t (promote ready ik rec) (λ _ c' w', landed rs (c', w')) c w.
Proof.
  intros Hsent Hroot. unfold promote. do 2 (apply wpm_bind, wpm_modify; [done|]).
  set (c2 := with_tracked _ _).
  assert (landed rs (c2, w)) as Hl.
  { exists call, (cb_batch_id rec). split_and!; [done | done |]. simpl. rewrite dict_keys_set.
    case_decide; [done|]. apply elem_of_app. right. by left. }
  eapply wpm_mono.
  - apply forward_wpc. repeat first [stable_step | apply forward_persist | apply forward_perform
                                    | apply forward_modify; by intros ?].
  - intros res c' w' _ Hf. exact (landed_forward _ _ _ Hf Hl).
Qed.

(** An iteration over the batch of [rs] itself. *)
Lemma commit_iteration_lands t r c w :
  is_Ok (build_leaves_root (batch_receipts (ready_batch r))) →
  signer_check (c_address c) (ready_key r).1.1.2 = Ok tt →
  is_Ok (batch_attestation_commitment ((λ br, tee_attestation (receipt br)) <$> batch_receipts (ready_batch r))) →
  wpc (batch_receipts (ready_batch r)) t (commit_iteration r)
    (λ _ c' w', landed (batch_receipts (ready_batch r)) (c', w')) c w.
Proof.
  intros [[ls root] Hb] Hsig [att Hatt]. unfold commit_iteration, commit_one. rewrite Hb.
  apply wpm_bind, wpm_lift; [done|]. cbn beta iota.
  do 2 (apply wpm_bind, wpm_modify; [done|]). apply wpm_bind, persist_ok. intros w1 _.
  apply wpm_bind, wpm_try. apply wpm_bind, wpm_get; [done|]. simpl c_address. rewrite Hsig.
  apply wpm_bind, wpm_lift; [done|]. rewrite Hatt. apply wpm_bind, wpm_lift; [done|].
  set (call := commit_call r ls root att). set (rs := batch_receipts (ready_batch r)).
  apply wpm_bind, (wpm_perform (E := settle) (commits rs t) _ (CommitBatch call rs)); [done|].
  intros res w2 [Hx Hres]. split; [done|]. destruct (Hres eq_refl) as [[id ts] ->]. simpl in Hx.
  destruct Hx as [Hroot ->]. apply wpm_bind, wpm_lift; [done|]. cbn beta iota. apply wpm_ret; [done|].
  assert (cb_batch_id (committed_of r ls root id ts) = id) as Hid
    by (unfold committed_of; by destruct (ready_key r) as [[[? ?] ?] ?]).
  assert (cc_merkle_root call = root) as Hcall
    by (unfold call, commit_call; by destruct (ready_key r) as [[[? ?] ?] ?]).
  apply wpm_bind. eapply wpm_mono.
  - apply (promote_landed rs t r _ _ call); [simpl; apply elem_of_app; right; by left | by rewrite Hid].
  - intros [[]|e] c3 w3 _ Hl; [by apply wpm_ret | done].
Qed.

(** *** The phases *)

(** The batch [b] under [k] is due at [t]: it has receipts and is old enough. *)
Definition due (cfg : AccumulatorConfig) (b : PendingBatch) (t : Z) : Prop :=
  batch_is_empty b = false ∧ time_threshold_seconds cfg <= t - batch_started_at_unix b.

Lemma due_ready a k b t now :
  dict_get k (acc_pending a) = Some b → due (acc_config a) b t → t <= now →
  ∃ r, r ∈ ready_batches a now ∧ ready_key r = k ∧ ready_batch r = b.
Proof.
  intros Hg [He Ht] Hnow. unfold ready_batches.
  assert (∃ tr, check_triggers (acc_config a) b now = Some tr) as [tr Htr].
  { unfold check_triggers. rewrite He. destruct (_ <=? batch_count b); [by eexists|].
    replace (time_threshold_seconds (acc_config a) <=? now - batch_started_at_unix b) with true by lia. by eexists. }
  exists {| ready_key := k; ready_batch := b; ready_trigger := tr |}. split_and!; [|done|done].
  apply list_elem_of_omap. exists (k, b). split; [by apply dict_get_elem|]. simpl. by rewrite Htr.
Qed.

(** Receipts that convert to leaves build. *)
Lemma convertible_builds rs :
  rs ≠ [] → Forall (λ br, is_Ok (batched_receipt_to_leaf br)) rs → is_Ok (build_leaves_root rs).
Proof.
  intros Hne Hc. unfold build_leaves_root.
  assert (∃ ls, result_mapM (λ br, hash_leaf <$> batched_receipt_to_leaf br) rs = Ok ls ∧ length ls = length rs)
    as (ls & -> & Hl).
  { clear Hne. induction Hc as [|br rs [l Hbr] Hc (ls & IH & Hl)]; [by exists []|]. exists (hash_leaf l :: ls).
    simpl. rewrite Hbr, IH. simpl. by rewrite Hl. }
  simpl. destruct (build_tree_ok ls) as (tr & -> & _); [|by eexists].
  intros ->. by destruct rs.
Qed.

Lemma commit_phase_lands c w k b t :
  mem_inv c (w_sent w) → (∀ br, known br → is_Ok (batched_receipt_to_leaf br)) →
  dict_get k (acc_pending (c_accumulator c)) = Some b → due (acc_config (c_accumulator c)) b t →
  signer_check (c_address c) k.1.1.2 = Ok tt →
  is_Ok (batch_attestation_commitment ((λ br, tee_attestation (receipt br)) <$> batch_receipts b)) →
  wpc (batch_receipts b) t (commit_ready_batches false) (λ _ c' w', landed (batch_receipts b) (c', w')) c w.
Proof.
  intros Hi Hconv Hg Hdue Hsig Hatt. unfold commit_ready_batches.
  apply wpm_bind, (wpm_perform (E := settle) (commits _ t) _ Now); [done|].
  intros now w1 [Hw Hnow]. simpl in Hw. subst w1. split; [done|]. apply wpm_bind, wpm_get; [done|].
  destruct (due_ready _ k b t now Hg Hdue Hnow) as (r0 & Hr0 & Hk0 & Hb0).
  apply (wpm_for_collect (E := settle) (commits (batch_receipts b) t) (λ _, True) _ _
    (λ l (_ : list CommittedBatch) c1 w1, c_address c1 = c_address c ∧
       Forall (λ r, is_Ok (build_leaves_root (batch_receipts (ready_batch r)))) l ∧
       (r0 ∈ l ∨ landed (batch_receipts b) (c1, w1))) _ _ _ []); [done | | |].
  - split_and!; [done| |by left]. apply Forall_forall. intros r Hr.
    apply list_elem_of_omap in Hr as ([k' b'] & Hin & Hr). simpl in Hr.
    destruct (check_triggers _ b' now); simplify_eq/=. apply convertible_builds.
    + pose proof (awf_batches _ (cw_acc _ (ci_wf _ _ _ Hi))) as Hb. rewrite Forall_forall in Hb.
      apply (bwf_nonempty _ _ (Hb _ Hin)).
    + eapply Forall_impl; [by apply (cw_known _ (ci_wf _ _ _ Hi) k' b') | done].
  - intros r l ys c1 w1 (Haddr & Hall & Hd). apply Forall_cons in Hall as [Hr Hall].
    assert (wpc (batch_receipts b) t (commit_iteration r) (λ res c' w', is_Ok res ∧ forward (c1, w1) (c', w')) c1 w1) as Hany.
    { unfold wpm. eapply (wp_weaken (E := settle) _ (λ _, True ∧ True)); [done|].
      by apply (wp_and (E := settle) (commits _ t) (λ _, True) (λ _, True));
        [apply commit_iteration_returns | apply forward_wpc, forward_commit]. }
    assert (∀ c' w', forward (c1, w1) (c', w') → c_address c' = c_address c) as Haddr'
      by (intros c' w' Hf; pose proof (fw_address _ _ Hf) as Ha; simpl in Ha; congruence).
    assert (r0 = r ∨ r0 ∈ l ∨ landed (batch_receipts b) (c1, w1)) as [<-|Hd'].
    { destruct Hd as [[->|]%elem_of_cons|]; auto. }
    + eapply (wpm_mono (E := settle) _ _ _ (λ res c' w', (is_Ok res ∧ forward (c1, w1) (c', w')) ∧ landed (batch_receipts b) (c', w'))).
      * unfold wpm. eapply (wp_weaken (E := settle) _ (λ _, True ∧ True)); [done|].
        apply (wp_and (E := settle) (commits _ t) (λ _, True) (λ _, True)); [exact Hany|].
        rewrite <- Hb0. apply commit_iteration_lands; [done| |by rewrite Hb0]. by rewrite Haddr, Hk0.
      * intros res c' w' _ [[[zs ->] Hf] Hl]. split_and!; [by eapply Haddr' | done | by right].
    + eapply wpm_mono; [exact Hany|]. intros res c' w' _ [[zs ->] Hf].
      split_and!; [by eapply Haddr' | done|]. destruct Hd' as [|Hl]; [by left | right; by eapply landed_forward].
  - intros ys c' w' (_ & _ & [Hn|Hl]); [by apply not_elem_of_nil in Hn | done].
Qed.

(** One iteration of the finalization of a mature batch. *)
Lemma finalize_phase_all c w :
  wpm (E := settle) matures (λ _, True) finalize_ready_batches
    (λ _ c' _, ∀ b : bytes, b ∈ dict_keys (c_tracked c) → b ∈ c_finalized_ids c') c w.
Proof.
  unfold finalize_ready_batches. apply wpm_bind, wpm_get; [done|].
  apply (wpm_for_collect (E := settle) matures (λ _, True) _ _
    (λ l (_ : list FinalizedBatch) c1 (_ : World), ∀ b : bytes, b ∈ dict_keys (c_tracked c) → b ∈ l ∨ b ∈ c_finalized_ids c1)
    _ _ _ []); [done | auto | |].
  - intros b l ys c1 w1 HJ. unfold finalize_iteration. apply wpm_bind, wpm_get; [done|].
    destruct (bool_decide_reflect (b ∈ c_finalized_ids c1)) as [Hb|Hb].
    { apply wpm_ret; [done|]. intros b' Hb'. destruct (HJ b' Hb') as [[->|]%elem_of_cons|]; auto. }
    apply wpm_bind, (wpm_perform (E := settle) matures _ (IsFinalizable b)); [done|].
    intros r w2 [_ ->]. split; [done|].
    apply wpm_bind, (wpm_perform (E := settle) matures _ (FinalizeBatch b)); [done|].
    intros r w3 [_ [u ->]]. split; [done|]. apply wpm_bind, wpm_modify; [done|].
    apply wpm_bind. unfold persist. apply wpm_bind, wpm_get; [done|].
    assert (∀ b' : bytes, b' ∈ dict_keys (c_tracked c) → b' ∈ l ∨ b' ∈ {[b]} ∪ c_finalized_ids c1) as HJ'.
    { intros b' Hb'. destruct (HJ b' Hb') as [[->|]%elem_of_cons|]; set_solver. }
    destruct (c_has_store _).
    + apply wpm_bind, (wpm_perform (E := settle) matures _ (Save _)); [done|]. intros r w4 [_ ->]. split; [done|].
      apply wpm_lift; [done|]. by apply wpm_ret.
    + apply wpm_ret; [done|]. by apply wpm_ret.
  - intros ys c' w' HJ b Hb. destruct (HJ b Hb) as [Hn|]; [by apply not_elem_of_nil in Hn | done].
Qed.

(** *** The cycle *)

(** A phase, then the rest: an exception of the phase does not leave the cycle. *)
Lemma phases_cons (X : ∀ e : settle, World → response e → World → Prop) p l (R Q : Client → World → Prop) c w :
  wpm (E := settle) X (λ _, True) p.2 (λ _ c' w', R c' w') c w →
  (∀ c' w', R c' w' → wpm (E := settle) X (λ _, True) (for_collect l run_phase) (λ r c2 w2, is_Ok r ∧ Q c2 w2) c' w') →
  wpm (E := settle) X (λ _, True) (for_collect (p :: l) run_phase) (λ r c2 w2, is_Ok r ∧ Q c2 w2) c w.
Proof.
  intros Hp Hl. cbn [for_collect]. apply wpm_bind. unfold run_phase at 1. apply wpm_bind, wpm_try.
  eapply wpm_mono; [exact Hp|]. intros r c1 w1 _ HR. apply wpm_ret; [done|]. apply wpm_bind.
  eapply wpm_mono; [by apply Hl|]. intros [zs|e] c2 w2 _ [[? Hok] HQ]; [|done].
  apply wpm_ret; [done|]. split; [by eexists | done].
Qed.

Lemma phases_nil (X : ∀ e : settle, World → response e → World → Prop) (Q : Client → World → Prop) c w :
  Q c w → wpm (E := settle) X (λ _, True) (for_collect [] run_phase) (λ r c2 w2, is_Ok r ∧ Q c2 w2) c w.
Proof. intros HQ. apply wpm_ret; [done|]. split; [by eexists | done]. Qed.

(** A phase as far as [forward] goes. *)
Lemma phase_forward (X : ∀ e : settle, World → response e → World → Prop) p c w :
  (∀ e w r w', X e w r w' → exec e w r w') → p ∈ POLL_PHASES →
  wpm (E := settle) X (λ _, True) p.2 (λ _ c' w', forward (c, w) (c', w')) c w.
Proof. intros HX Hp. apply (wpm_exec_mono (E := settle) exec); [done | by apply (forward_phase p Hp)]. Qed.

(** What [forward] preserves survives any phase. *)
Lemma phase_keeps (X : ∀ e : settle, World → response e → World → Prop) p (Q : Client * World → Prop) c w :
  (∀ e w r w', X e w r w' → exec e w r w') → p ∈ POLL_PHASES →
  (∀ s s', forward s s' → Q s → Q s') → Q (c, w) →
  wpm (E := settle) X (λ _, True) p.2 (λ _ c' w', Q (c', w')) c w.
Proof.
  intros HX Hp HQ Hc. eapply wpm_mono; [by apply phase_forward|]. intros r c' w' _ Hf. exact (HQ _ _ Hf Hc).
Qed.

(** [rs] was sent in a batch that is finalized. *)
Definition settled (rs : list BatchedReceipt) (s : Client * World) : Prop :=
  ∃ call id, (call, rs) ∈ w_sent s.2 ∧ batch_root id = cc_merkle_root call ∧ id ∈ c_finalized_ids s.1.

Lemma settled_forward rs s s' : forward s s' → settled rs s → settled rs s'.
Proof. intros [] (call & id & ? & ? & ?). exists call, id. eauto. Qed.

(** A cycle in which batches mature finalizes what has landed. *)
Lemma mature_cycle rs c w :
  landed rs (c, w) →
  wpm (E := settle) matures (λ _, True) run_settlement_poll_cycle (λ r c' w', is_Ok r ∧ settled rs (c', w')) c w.
Proof.
  intros Hl. unfold run_settlement_poll_cycle, POLL_PHASES at 1.
  assert (∀ c w p, landed rs (c, w) → p ∈ POLL_PHASES →
            wpm (E := settle) matures (λ _, True) p.2 (λ _ c' w', landed rs (c', w')) c w) as Hkeep.
  { intros c1 w1 p Hl1 Hp. apply (phase_keeps matures p (landed rs)); [apply matures_exec | done | apply landed_forward | done]. }
  do 3 (eapply (phases_cons _ _ _ (λ c' w', landed rs (c', w'))); [apply Hkeep; [done | in_phases]|]; clear c w Hl; intros c w Hl).
  apply (phases_cons _ _ _ (λ c' w', settled rs (c', w'))).
  { apply wpm_bind. eapply (wpm_mono (E := settle) _ _ _ (λ _ c' w', forward (c, w) (c', w') ∧
      ∀ b : bytes, b ∈ dict_keys (c_tracked c) → b ∈ c_finalized_ids c')).
    - unfold wpm. eapply (wp_weaken (E := settle) _ (λ _, True ∧ True)); [done|].
      apply (wp_and (E := settle) matures (λ _, True) (λ _, True)); [|apply finalize_phase_all].
      apply (wpm_exec_mono (E := settle) exec matures (λ _, True) finalize_ready_batches (λ _ c' w', forward (c, w) (c', w'))); [apply matures_exec|]. apply forward_finalize.
    - assert (∀ c' w', forward (c, w) (c', w') ∧ (∀ b : bytes, b ∈ dict_keys (c_tracked c) → b ∈ c_finalized_ids c') →
                settled rs (c', w')) as Hs.
      { intros c' w' [Hf Hall]. destruct Hl as (call & id & Hsent & Hroot & Hid). exists call, id.
        split_and!; [by apply (fw_sent _ _ Hf) | done | by apply Hall]. }
      intros [zs|e] c' w' _ Hc'; [apply wpm_ret; [done|]|]; by apply Hs. }
  clear c w Hl. intros c w Hs.
  eapply (phases_cons _ _ _ (λ c' w', settled rs (c', w'))).
  { apply (phase_keeps matures (_, _ ← reconcile_finalized; mret ()) (settled rs)); [apply matures_exec | in_phases | apply settled_forward | done]. }
  intros c1 w1 Hs1. by apply phases_nil.
Qed.

(** An adoption phase: the batch under [k] stays queued, and the invariants hold. *)
Lemma adoption_phase rs t k (m : method Z) c w :
  keeps m → wpm (E := settle) exec (λ _, True) m (λ _ c' w', same_slot k (c, w) (c', w')) c w →
  disk_inv w → mem_inv c (w_sent w) →
  wpc rs t (_ ← m; mret ()) (λ _ c' w', (disk_inv w' ∧ mem_inv c' (w_sent w')) ∧ same_slot k (c, w) (c', w')) c w.
Proof.
  intros Hk Hs Hd Hi. apply (wpm_exec_mono (E := settle) exec); [apply commits_exec|].
  apply wpm_bind. eapply (wpm_mono (E := settle) exec _ _ (λ r c' w', inv_post r c' w' ∧ same_slot k (c, w) (c', w'))).
  - unfold wpm. eapply (wp_weaken (E := settle) exec (λ w, disk_inv w ∧ True)); [done|].
    apply (wp_and (E := settle) exec disk_inv (λ _, True)); [by apply Hk | exact Hs].
  - intros [z|e] c' w' _ [[? ?] ?]; [by apply wpm_ret | done].
Qed.

(** The recovery phase when no commit intent is outstanding under [k]. *)
Lemma recover_same_slot k c w :
  Forall (λ ki : string * CommitIntent, ci_accumulator_key ki.2 ≠ k) (c_committing c) →
  wpm (E := settle) exec (λ _, True) recover_committing_intents (λ _ c' w', same_slot k (c, w) (c', w')) c w.
Proof.
  intros Hk. unfold recover_committing_intents. apply wpm_bind, wpm_get; [done|].
  destruct (c_can_scan c); [|by apply wpm_ret].
  apply (stable_bind (same_slot k)); [|intros; apply stable_ret; apply _].
  apply (stable_for_collect _ _ _ _ Hk). intros ki. apply same_slot_recover.
Qed.
End Progress.

