(* ===== verification/SettleTheorems.v ===== *)
(** * What the settlement wiring guarantees

    The booking of a settled inference and the commit thresholds; a run of the
    whole path, from an inference receipt to a finalized batch, executed. *)
From Stdlib Require Import ZArith Lia QArith Qround Lqa.
From S2P Require Import PyStd.
From S2P Require Import PyNumbers.
From S2P Require Import Externals.
From S2P Require Import Receipt.
From S2P Require Import Attestation.
From S2P Require Import Merkle.
From S2P Require Import Accumulator.
From S2P Require Import Effects.
From S2P Require Import Client.
From S2P Require Import ClientDurable.
From S2P Require Import ClientSafety.
From S2P Require Import ClientOwned.
From S2P Require Import InferenceModels.
From S2P Require Import CreditPolicy.
From S2P Require Import InferenceAdapter.
From S2P Require Import SettleWiring.
From S2P Require Import Prelude.

#[local] Open Scope string_scope.
#[local] Open Scope list_scope.
#[local] Open Scope Z_scope.

(** ** Thresholds *)

Lemma config_post_init c c' : AccumulatorConfig_post_init c = Ok c' → c' = c ∧ AccumulatorConfig_post_init c' = Ok c'.
Proof.
  intros Hc. assert (c' = c) as ->; [|done]. unfold AccumulatorConfig_post_init in Hc. by inv_result.
Qed.

(** Whatever the environment holds, the thresholds are the defaults or a valid
    configuration whose fields were set or defaulted one by one. *)
Lemma thresholds_valid prec environ c :
  resolve_accumulator_config prec environ = Some c →
  AccumulatorConfig_post_init c = Ok c ∧
  (count_threshold c = 1000 ∨
   int_of_str (raw_env environ "PRSM_SETTLEMENT_COUNT_THRESHOLD") = Some (count_threshold c)) ∧
  (time_threshold_seconds c = 3600 ∨
   int_of_str (raw_env environ "PRSM_SETTLEMENT_TIME_THRESHOLD_S") = Some (time_threshold_seconds c)).
Proof.
  unfold resolve_accumulator_config. set (value := (_ ≫= _)).
  destruct (int_of_str (raw_env environ "PRSM_SETTLEMENT_COUNT_THRESHOLD")) as [n|],
    (int_of_str (raw_env environ "PRSM_SETTLEMENT_TIME_THRESHOLD_S")) as [m|], value as [v|]; intros Hc; try done.
  all: match type of Hc with match ?p with _ => _ end = _ => destruct p as [c'|e] eqn:Hp; [|done] end.
  all: injection Hc as <-; apply config_post_init in Hp as [-> Hp]; simpl in *; auto.
Qed.

(** ** Booking *)

(** The release is worth this many wei. *)
Definition release_wei (d : decimal) : Z := Qfloor (dec_val d * pow10 18).

(** The release has at most [prec] digits and an exponent in range, so that scaling
    it to wei is exact. *)
Definition exact_release (prec : Z) (d : decimal) : Prop :=
  0 <= dec_coef d < 10 ^ prec ∧ Etiny prec <= dec_exp d + 18 <= Etop prec.

Lemma release_wei_exact prec d :
  1 <= prec → exact_release prec d →
  ∃ x, dec_mul prec d wei_per_ftns = Ok x ∧ dec_int x = release_wei d.
Proof.
  intros Hp [Hc He].
  assert (dec_val wei_per_ftns == pow10 18)%Q as Hw by (vm_compute; reflexivity).
  destruct (dec_mul_exact prec d wei_per_ftns (dec_coef d) (dec_exp d + 18)) as (x & Hx & Hv); [done| |].
  - split; [|lia|done]. rewrite Hw. unfold dec_val. rewrite pow10_plus. ring.
  - exists x. split; [done|]. rewrite dec_int_floor.
    + unfold release_wei. apply Qfloor_comp. by rewrite Hv, Hw.
    + eapply dec_fix_nonneg; [|exact Hx]. simpl. lia.
Qed.

Section Booking.
Context `{Deployment} `{!Ed25519}.

(** What the booked receipt was. *)
Record booked (prec : Z) (i : option NodeIdentity) (provider : string) (s : SettledInference) : Prop := {
  bk_single : PerStageSplit.distinct_node_ids_with_stage (ir_positions (si_receipt s)) = None;
  bk_positive : 0 < release_wei (si_release_ftns s);
  bk_within : ∀ m, si_max_spend_wei s = Some m → release_wei (si_release_ftns s) <= m;
  bk_receipt : ∃ t br, inference_receipt_to_batched_receipt (si_receipt s) i
                         (booking_args provider s (release_wei (si_release_ftns s)) t) = Ok br
}.

(** How a booking leaves the client. *)
Definition booking_post prec i provider s (c : Client) (r : result AccumulateStatus) (c' : Client) (w' : World) : Prop :=
  inv_post r c' w' ∧ grows c c' ∧ (∀ reason, r = Ok (Skipped reason) → c' = c) ∧
  (r = Ok Accumulated → owned (si_job_id s) c' ∧ booked prec i provider s).

Lemma booking_same prec i provider s c (r : result AccumulateStatus) w :
  disk_inv w → mem_inv c (w_sent w) → r ≠ Ok Accumulated → booking_post prec i provider s c r c w.
Proof. intros. split_and!; [by split | apply grows_refl | done | done]. Qed.

Lemma adapted_escrow r i a br :
  inference_receipt_to_batched_receipt r i a = Ok br → local_escrow_id br = ad_local_escrow_id a.
Proof.
  unfold inference_receipt_to_batched_receipt. destruct i as [i|]; [|done]. intros Hbr.
  repeat (apply bind_Ok_inv in Hbr as (? & _ & Hbr)). unfold BatchedReceipt_post_init in Hbr.
  by inv_result.
Qed.

Lemma book_settled_post prec i provider s c w :
  1 <= prec → exact_release prec (si_release_ftns s) →
  (∀ v t br, inference_receipt_to_batched_receipt (si_receipt s) i (booking_args provider s v t) = Ok br → known br) →
  disk_inv w → mem_inv c (w_sent w) →
  wpm (E := settle) exec disk_inv (book_settled prec i provider s) (booking_post prec i provider s c) c w.
Proof.
  intros Hp Hrel Hknown Hd Hi. destruct (release_wei_exact prec _ Hp Hrel) as (x & Hx & Hxi).
  unfold book_settled. destruct (dec_leb _ _); [by apply wpm_ret; [|apply booking_same]|].
  apply wpm_check; [done | |by intros; apply booking_same]. intros split Hsplit.
  destruct split as [l|]; [by apply wpm_ret; [|apply booking_same]|].
  rewrite Hx. apply wpm_bind, wpm_lift; [done|]. rewrite Hxi.
  destruct (Z.leb_spec (release_wei (si_release_ftns s)) 0) as [|Hpos]; [by apply wpm_ret; [|apply booking_same]|].
  destruct (match si_max_spend_wei s with Some m => _ | None => false end) eqn:Hmax;
    [by apply wpm_ret; [|apply booking_same]|].
  apply wpm_bind. eapply (wpm_mono (E := settle) exec _ _ (λ r c' w', c' = c ∧ w' = w ∧ is_Ok r)).
  { destruct (si_executed_at_unix s); [apply wpm_ret; [done|]; eauto|].
    - split_and!; [done..|by eexists].
    - apply (wpm_perform (E := settle) exec _ Now); [done|]. intros r w' ->. split; [done|]. split_and!; [done..|by eexists]. }
  intros r c' w' _ (-> & -> & t & ->). apply wpm_check; [done | |by intros; apply booking_same].
  intros br Hbr. apply wpm_bind. eapply wpm_mono; [apply (accumulate_owned br); [by eapply Hknown | done | done]|].
  intros [[]|e] c2 w2 Hd2 (Hpost & Hg & Hown).
  - apply wpm_ret; [done|]. split_and!; [done | done | done|]. intros _. split.
    + apply adapted_escrow in Hbr as He. simpl in He. rewrite <- He. by apply Hown.
    + split; [|done| |by exists t, br].
      * unfold split_release_across_stages in Hsplit. destruct (PerStageSplit.distinct_node_ids_with_stage _) as [l|]; [|done].
        exfalso. repeat (apply bind_Ok_inv in Hsplit as (? & _ & Hsplit)). by repeat (case_match; inv_result).
      * intros m Hm. rewrite Hm in Hmax. lia.
  - split_and!; [done | done | done | done].
Qed.

End Booking.
