(* ===== verification/SettleExample.v ===== *)
(** * The settlement path, executed

    One node, one inference: the adapter's receipt, its booking, the poll cycle
    that commits it and the one that finalizes it; the witnesses of the wiring's
    theorems.
    Then an inference receipt, signed, checked and sent over the wire. *)
From Stdlib Require Import ZArith Lia.
From S2P Require Import PyStd.
From S2P Require Import Externals.
From S2P Require Import Receipt.
From S2P Require Import Attestation.
From S2P Require Import Merkle.
From S2P Require Import Accumulator.
From S2P Require Import Published.
From S2P Require Import Effects.
From S2P Require Import Client.
From S2P Require Import ClientDurable.
From S2P Require Import ClientSafety.
From S2P Require Import ClientExample.
From S2P Require Import PerStageSplit.
From S2P Require Import PyNumbers.
From S2P Require Import PyJson.
From S2P Require Import ActivationChain.
From S2P Require Import InferenceModels.
From S2P Require Import CreditPolicy.
From S2P Require Import InferenceAdapter.
From S2P Require Import ReceiptSigning.
From S2P Require Import SettleWiring.
From S2P Require Import ClientLiveness.
From S2P Require Import SettleTheorems.
From S2P Require Import Prelude.
From stdpp Require Import relations.

#[local] Open Scope string_scope.
#[local] Open Scope list_scope.
#[local] Open Scope Z_scope.

Import Toy.

Definition node0 : NodeIdentity :=
  Eval vm_compute in
    match generate_node_identity zero32 with
    | Ok i => i
    | Err _ => {| ni_node_id := ""; ni_public_key_bytes := []; ni_private_key_bytes := [] |}
    end.

Lemma node0_genuine : genuine node0.
Proof. vm_compute. reflexivity. Qed.

Definition prov0 : string := "0x00000000000000000000000000000000000000aa".
Definition req0 : string := "0x00000000000000000000000000000000000000bb".

Definition inference0 : InferenceReceipt :=
  {| ir_job_id := "parallax-job-1"; ir_request_id := "1"; ir_model_id := "m"; ir_content_tier := TIER_A;
     ir_privacy_tier := PRIVACY_NONE; ir_epsilon_spent := "inf"; ir_tee_type := SGX; ir_tee_attestation := utf8 "quote";
     ir_output_hash := zero32; ir_duration_seconds := "0.75"; ir_cost_ftns := {| dec_coef := 25; dec_exp := -1 |};
     ir_settler_signature := []; ir_settler_node_id := ni_node_id node0; ir_settler_pubkey_b64 := None;
     ir_streamed_output := false; ir_activation_noise_trace := None; ir_topology_assignment := None;
     ir_partial_completion := None; ir_prompt_hash := None; ir_stage_activation_chain := None;
     ir_per_stage_settlement_signatures := None |}.

(** 2.5 FTNS released for it, at most 3 authorized. *)
Definition settled0 : SettledInference :=
  {| si_receipt := inference0; si_release_ftns := {| dec_coef := 25; dec_exp := -1 |};
     si_job_id := "job-1"; si_requester_address := Some req0; si_executed_at_unix := Some 900;
     si_max_spend_wei := Some (3 * 10 ^ 18) |}.

(** The receipts a booking may produce. *)
Definition bookable (br : BatchedReceipt) : Prop :=
  ∃ v t, inference_receipt_to_batched_receipt inference0 (Some node0) (booking_args prov0 settled0 v t) = Ok br.

Lemma bookable_defensible br :
  bookable br → batched_ok br ∧ is_Ok (batched_receipt_to_leaf br) ∧
                local_escrow_id br = "job-1" ∧ receipt_key br = (req0, prov0, zero32, 0).
Proof.
  intros (v & t & Hbr).
  assert (0 <= ad_shard_index (booking_args prov0 settled0 v t) < 2 ^ 32) as Hsh by (simpl; lia).
  destruct (adapted_defensible _ _ _ _ node0_genuine Hsh Hbr) as (Hok & Hl & _).
  destruct (adapter_Ok _ _ _ _ node0_genuine Hbr) as (_ & s & raw & -> & _). done.
Qed.

Lemma bookable_ids rs : rs ≠ [] → Forall bookable rs → "job-1" ∈ escrow_ids rs.
Proof.
  intros Hne Hk. destruct rs as [|br rs]; [done|]. apply Forall_cons in Hk as [Hbr _].
  destruct (bookable_defensible br Hbr) as (_ & _ & He & _). apply elem_escrow_ids. split; [done|].
  exists br. split; [left | done].
Qed.

#[local] Instance one_node : @Deployment Toy.toy Toy.toy_keccak.
Proof.
  refine (@Build_Deployment Toy.toy Toy.toy_keccak bookable {[ "job-1" ]}
            (λ _, (req0, prov0, zero32, 0)) id (λ tx, default [] (fromhex tx)) None _ _ _ _).
  - intros br Hbr. by destruct (bookable_defensible br Hbr).
  - intros br Hbr. destruct (bookable_defensible br Hbr) as (_ & _ & -> & ->). split_and!; [done | set_solver | done].
  - vm_compute. discriminate.
  - intros rs1 rs2 ls1 ls2 root H1 H2 _ _ B1 B2. exists "job-1".
    split; (apply bookable_ids; [|done]); intros ->; [discriminate B1 | discriminate B2].
Defined.

Definition node_args : Client :=
  {| c_accumulator := {| acc_config := AccumulatorConfig_default; acc_pending := [] |};
     c_provider := prov0; c_address := None; c_can_scan := true; c_has_store := true;
     c_published := None; c_tracked := []; c_finalized_ids := ∅; c_pending_commits := [];
     c_committing := []; c_committed_escrow_ids := [] |}.

(** ** The adapter *)

Definition args0 : AdapterArgs := booking_args prov0 settled0 (25 * 10 ^ 17) 900.

Lemma adapter_exact_witness :
  ∃ br, inference_receipt_to_batched_receipt inference0 (Some node0) args0 = Ok br ∧
        value_ftns br = 25 * 10 ^ 17 ∧ is_Ok (batched_receipt_to_leaf br).
Proof.
  assert (0 <= ad_shard_index args0 < 2 ^ 32) as Hsh by (split; [discriminate | reflexivity]).
  pose proof (adapter_exact inference0 node0 args0 node0_genuine Hsh) as [[_ Hok] Hall].
  assert (adaptable inference0 node0 args0) as Had.
  { split; try (vm_compute; reflexivity); try (split; vm_compute; [discriminate | reflexivity]);
      try (split; vm_compute; discriminate); vm_compute; discriminate. }
  destruct (Hok Had) as [br Hbr]. exists br. destruct (Hall br Hbr) as (_ & Hv & _ & _ & _ & _ & Hl & _).
  split; [exact Hbr|]. split; [exact Hv | exact Hl].
Defined.

(** ** Booking *)

Definition book0 : prog settle (result AccumulateStatus * Client) :=
  accumulate_settled_inference_receipt 28 true (Some node0) (Some prov0) settled0 (fresh_client node_args).

(** The toy world answers within the specification. *)
Lemma one_node_answer resp (e : settle) w r w' :
  resp ∈ [lands; pends] → toy_answer resp e w = Some (r, w') → exec e w r w'.
Proof.
  intros Hresp. rewrite !elem_of_cons in Hresp. destruct e; simpl; intros [= <- <-]; try done.
  - by left.
  - destruct Hresp as [-> |[-> |Hn]]; simpl; [done | | by apply not_elem_of_nil in Hn]. by rewrite fromhex_hex.
  - split; [done|]. by intros ? ? [= <- <-].
  - split; [done|]. by intros ? ? [= <- <-].
Qed.

Definition booked0 : result AccumulateStatus * Client * World :=
  default (Err ExternalError, node_args, world0) (run (toy_answer lands) book0 world0).

Lemma node_args_boot : reachable node_args (Up (fresh_client node_args), world0).
Proof.
  apply rtc_once. apply (step_boot node_args _ (c_published node_args)). reflexivity.
Qed.

Lemma node_args_deployed : deployed node_args.
Proof. by split. Qed.


(** ** From the queue to the chain *)

Definition receipt0 : BatchedReceipt :=
  match inference_receipt_to_batched_receipt inference0 (Some node0) (booking_args prov0 settled0 (25 * 10 ^ 17) 900) with
  | Ok br => br
  | Err _ => sample_batched 0 0 ""
  end.

Lemma receipt0_known : known receipt0.
Proof. exists (25 * 10 ^ 17), 900. vm_compute. reflexivity. Qed.

Definition queued0 : result unit * Client * World :=
  default (Err ExternalError, node_args, world0)
    (run (toy_answer lands) (op_body (Accumulate receipt0) (fresh_client node_args)) world0).

Lemma op_rtc c0 (x y : prog settle (result unit * Client) * World) :
  rtc (pstep (E := settle) exec) x y → rtc (node_step c0) (Busy x.1, x.2) (Busy y.1, y.2).
Proof.
  induction 1 as [|[p1 w1] [p2 w2] y Hs _ IH]; [done|]. eapply rtc_l; [by apply step_effect | exact IH].
Qed.

Lemma op_reachable c0 c w o r c' w' :
  reachable c0 (Up c, w) → op_known o → run (toy_answer lands) (op_body o c) w = Some (r, c', w') →
  reachable c0 (Up c', w').
Proof.
  intros Hr Ho Hrun. unfold reachable in *. etrans; [exact Hr|].
  eapply rtc_l; [by apply (step_call c0 c o)|].
  etrans; [|apply rtc_once, (step_return c0 r)].
  apply (op_rtc c0 (op_body o c, w) (Ret (r, c'), w')), (run_rtc (toy_answer lands)); [|exact Hrun].
  intros e w1 r1 w2. apply (one_node_answer lands). left.
Qed.

Lemma queued0_run :
  run (toy_answer lands) (op_body (Accumulate receipt0) (fresh_client node_args)) world0 =
  Some (queued0.1.1, queued0.1.2, queued0.2).
Proof. vm_compute. reflexivity. Qed.

Lemma queued0_reachable : reachable node_args (Up queued0.1.2, queued0.2).
Proof. exact (op_reachable node_args _ _ (Accumulate receipt0) _ _ _ node_args_boot receipt0_known queued0_run). Qed.

(** The world of the first cycle, an hour later, and of the second. *)
Definition later (e : settle) (w : World) : option (response e * World) :=
  match e return option (settle_response e * World) with
  | Now => Some (10000, w)
  | e => toy_answer lands e w
  end.

Lemma later_commits (e : settle) w r w' :
  later e w = Some (r, w') → commits [receipt0] 10000 e w r w'.
Proof.
  intros He. split.
  - destruct e; [injection He as <- <-; reflexivity|..]; apply (one_node_answer lands); first [left | exact He].
  - destruct e; simpl in *; injection He as <- <-; try done. intros _. by eexists.
Qed.

Lemma toy_matures (e : settle) w r w' : toy_answer lands e w = Some (r, w') → matures e w r w'.
Proof.
  intros He. split; [apply (one_node_answer lands); [left | exact He]|].
  destruct e; simpl in *; injection He as <- <-; try done. by eexists.
Qed.

Definition phase_results := list (string * result unit).
Definition cycle1 : result phase_results * Client * World :=
  default (Err ExternalError, node_args, world0) (run later (run_settlement_poll_cycle queued0.1.2) queued0.2).
Definition cycle2 : result phase_results * Client * World :=
  default (Err ExternalError, node_args, world0) (run (toy_answer lands) (run_settlement_poll_cycle cycle1.1.2) cycle1.2).

Definition key0 : AccumulatorKey := (req0, prov0, zero32, 0).
Definition batch0 : PendingBatch :=
  default PendingBatch_empty (dict_get key0 (acc_pending (c_accumulator queued0.1.2))).


(** * An inference receipt, executed

    One receipt of a two-stage inference, signed, checked and sent over the wire; the
    witnesses of the theorems on inference receipts. *)

#[local] Open Scope string_scope.
#[local] Open Scope list_scope.
#[local] Open Scope Z_scope.

Import Toy.

Definition stage_of (i : Z) (node input output : string) : StageActivationProof :=
  {| sap_stage_index := i; sap_stage_node_id := node; sap_input_activation_hash := input;
     sap_output_activation_hash := output; sap_stage_signature_b64 := "AAAA"; sap_tee_attestation_hash := "" |}.

Definition material0 : NodeSignatureMaterial :=
  {| mat_pubkey_b64 := "AAAA"; mat_signature := "BBBB"; mat_stage_index := 0; mat_output_hash := "cc";
     mat_executed_at_unix := 900; mat_tee_attestation := Some (JObj [("vendor", JStr "sgx")]) |}.

(** The positions and the stages are those of two nodes, not in order when [flip]. *)
Definition two_stage (flip : bool) (chain : option StageActivationChain) (partial : option PartialCompletionInfo) : InferenceReceipt :=
  {| ir_job_id := "job-1"; ir_request_id := "r"; ir_model_id := "m"; ir_content_tier := TIER_A;
     ir_privacy_tier := PRIVACY_STANDARD; ir_epsilon_spent := "8.0"; ir_tee_type := SGX; ir_tee_attestation := utf8 "quote";
     ir_output_hash := zero32; ir_duration_seconds := "0.75"; ir_cost_ftns := {| dec_coef := 25; dec_exp := -1 |};
     ir_settler_signature := []; ir_settler_node_id := ni_node_id node0; ir_settler_pubkey_b64 := None;
     ir_streamed_output := true; ir_activation_noise_trace := None;
     ir_topology_assignment :=
       Some {| ta_positions := (if flip then [((1, 0), "b"); ((0, 0), "a")] else [((0, 0), "a"); ((1, 0), "b")]);
               ta_stage_count := 2; ta_slots_per_stage := 1 |};
     ir_partial_completion := partial; ir_prompt_hash := Some zero32; ir_stage_activation_chain := chain;
     ir_per_stage_settlement_signatures := Some [("a", material0)] |}.

Definition flipped_chain : StageActivationChain :=
  {| sac_request_id := "r"; sac_proofs := [stage_of 1 "b" "02" "03"; stage_of 0 "a" "01" "02"] |}.

Definition cut_short : PartialCompletionInfo :=
  {| pci_reason := "preempted"; pci_tokens_completed := 3; pci_tokens_requested := 9; pci_timestamp := "2026-01-01T00:00:00Z" |}.

Definition full_receipt : InferenceReceipt := two_stage true (Some flipped_chain) (Some cut_short).

Lemma receipt_wire_roundtrip_witness :
  (v ← loads (dumps (receipt_to_dict full_receipt)); receipt_from_dict (λ _, "") v) = Ok (normal_receipt full_receipt) ∧
  normal_receipt full_receipt ≠ full_receipt.
Proof.
  assert (wire_ok full_receipt) as Hw.
  { split; [vm_compute; reflexivity | | | vm_compute; reflexivity].
    - intros ta [= <-]. vm_compute. repeat constructor; set_solver.
    - intros sigs [= <-]. repeat constructor. discriminate. }
  split; [apply (receipt_wire_roundtrip (λ _, "") full_receipt Hw) | by intros [=]].
Defined.


