(* ===== verification/FieldPoly.v ===== *)
(** * Polynomials over a field

    Lists of coefficients, constant term first, over any field with decidable
    equality: evaluation, root counting and Lagrange interpolation.  The secret
    sharing of Shamir.v instantiates it with GF(256). *)
From Stdlib Require Import Ring Field Setoid.
From S2P Require Import Prelude.

(** The operations of a field and their laws, as the [field] tactic wants them. *)
Class Field (F : Type) : Type := {
  f0 : F; f1 : F;
  fadd : F → F → F; fmul : F → F → F; fsub : F → F → F; fopp : F → F;
  fdiv : F → F → F; finv : F → F;
  field_laws : field_theory f0 f1 fadd fmul fsub fopp fdiv finv eq;
  field_eq_dec :: EqDecision F
}.

Declare Scope field_scope.
Delimit Scope field_scope with F.
Infix "+" := fadd : field_scope.
Infix "*" := fmul : field_scope.
Infix "-" := fsub : field_scope.
Notation "0" := f0 : field_scope.
Notation "1" := f1 : field_scope.

Section Poly.
Context {F : Type} `{Field F}.
Implicit Types (x y : F) (p q : list F) (xs : list F).
#[local] Open Scope field_scope.

Add Field F_field : field_laws.

Lemma fadd_0_l x : 0 + x = x.
Proof. ring. Qed.

Lemma fadd_0_r x : x + 0 = x.
Proof. ring. Qed.

Lemma fadd_assoc x y z : x + y + z = x + (y + z).
Proof. ring. Qed.

Lemma fmul_zero x y : x * y = 0 → x = 0 ∨ y = 0.
Proof.
  intros Hxy. destruct (decide (x = 0)) as [|Hx]; [by left|]. right.
  transitivity (finv x * (x * y)); [by field|]. rewrite Hxy. ring.
Qed.

Lemma fsub_eq x y : x - y = 0 → x = y.
Proof. intros Hxy. transitivity (x - y + y); [ring|]. rewrite Hxy. ring. Qed.

(** Horner's rule. *)
Definition eval p x : F := foldr (λ c acc, acc * x + c) 0 p.

Lemma eval_cons c p x : eval (c :: p) x = eval p x * x + c.
Proof. done. Qed.

Lemma eval_zero p : eval p 0 = default 0 (head p).
Proof. destruct p as [|c p]; [done|]. rewrite eval_cons. simpl. ring. Qed.

Lemma eval_zeros n x : eval (replicate n 0) x = 0.
Proof. induction n as [|n IH]; [done|]. simpl replicate. rewrite eval_cons, IH. ring. Qed.

Lemma eval_pad p n x : eval (p ++ replicate n 0) x = eval p x.
Proof.
  induction p as [|c p IH]; [apply eval_zeros|].
  change ((c :: p) ++ replicate n 0) with (c :: (p ++ replicate n 0)). by rewrite !eval_cons, IH.
Qed.

(** *** Root counting *)

(** The quotient of [p] by [X - a]: the partial sums of Horner's rule at [a]. *)
Fixpoint quotient a p : list F :=
  match p with
  | [] => []
  | _ :: p' => match p' with [] => [] | _ => eval p' a :: quotient a p' end
  end.

Lemma quotient_length a p : length (quotient a p) = pred (length p).
Proof. induction p as [|c [|c' p] IH]; [done..|]. simpl in *. by rewrite IH. Qed.

Lemma quotient_cons a c c' p : quotient a (c :: c' :: p) = eval (c' :: p) a :: quotient a (c' :: p).
Proof. done. Qed.

Lemma quotient_spec a p x : eval p x = (x - a) * eval (quotient a p) x + eval p a.
Proof.
  induction p as [|c p IH]; [simpl; ring|]. rewrite !eval_cons. destruct p as [|c' p]; [simpl; ring|].
  rewrite quotient_cons, (eval_cons (eval (c' :: p) a)). rewrite IH at 1. ring.
Qed.

Lemma quotient_zero a p n :
  quotient a p = replicate (pred n) 0 → length p = n → eval p a = 0 → p = replicate n 0.
Proof.
  revert n. induction p as [|c p IH]; intros n Hq Hn Ha; [by subst|]. subst n. rewrite eval_cons in Ha.
  destruct p as [|c' p].
  - simpl in *. f_equal. rewrite <-Ha. ring.
  - rewrite quotient_cons in Hq. cbn [length pred replicate] in Hq. injection Hq as Hc Hq.
    change (eval (c' :: p) a = 0) in Hc. rewrite Hc in Ha. cbn [length replicate].
    f_equal; [transitivity (0 * a + c); [ring | done] | exact (IH (S (length p)) Hq eq_refl Hc)].
Qed.

(** A polynomial with as many roots as coefficients is zero. *)
Lemma too_many_roots xs p :
  NoDup xs → length p = length xs → (∀ x, x ∈ xs → eval p x = 0) → p = replicate (length xs) 0.
Proof.
  revert p. induction xs as [|a xs IH]; intros p Hnd Hlen Hroot; [by destruct p|].
  apply NoDup_cons in Hnd as [Ha Hnd]. apply (quotient_zero a); [|done|apply Hroot; left].
  apply IH; [done | by rewrite quotient_length, Hlen |].
  intros x Hx. assert (eval p x = 0) as Hpx by (apply Hroot; by right).
  rewrite (quotient_spec a), (Hroot a) in Hpx by left.
  destruct (fmul_zero (x - a) (eval (quotient a p) x)) as [Hxa|]; [rewrite <-Hpx; ring | | done].
  apply fsub_eq in Hxa as ->. done.
Qed.

Lemma eval_sub p q x :
  length p = length q → eval (zip_with (λ c d, c - d) p q) x = eval p x - eval q x.
Proof.
  revert q. induction p as [|c p IH]; intros [|d q] Hlen; try done; [simpl; ring|].
  simpl in Hlen. injection Hlen as Hlen. simpl zip_with. rewrite !eval_cons, IH by done. ring.
Qed.

(** Two polynomials of [n] coefficients that agree at [n] points are equal. *)
Lemma poly_unique xs p q :
  NoDup xs → length p = length xs → length q = length xs →
  (∀ x, x ∈ xs → eval p x = eval q x) → p = q.
Proof.
  intros Hnd Hp Hq Heq. assert (zip_with (λ c d, c - d) p q = replicate (length xs) 0) as Hz.
  { apply too_many_roots; [done | rewrite length_zip_with; lia |].
    intros x Hx. rewrite eval_sub by congruence. rewrite Heq by done. ring. }
  apply list_eq. intros i. assert (zip_with (λ c d, c - d) p q !! i = replicate (length xs) 0 !! i) as Hi by by rewrite Hz.
  rewrite lookup_zip_with in Hi. destruct (p !! i) as [c|] eqn:Hc; destruct (q !! i) as [d|] eqn:Hd; try done.
  - simpl in Hi. apply lookup_lt_Some in Hc. rewrite lookup_replicate_2 in Hi by lia.
    injection Hi as Hi. by rewrite (fsub_eq _ _ Hi).
  - apply lookup_lt_Some in Hc. apply lookup_ge_None in Hd. lia.
  - apply lookup_lt_Some in Hd. apply lookup_ge_None in Hc. lia.
Qed.

(** *** Functions that are polynomials *)

(** [f] is a polynomial of [n] coefficients. *)
Definition is_poly (n : nat) (f : F → F) : Prop := ∃ p, length p = n ∧ ∀ x, f x = eval p x.

#[export] Instance is_poly_proper n : Proper (pointwise_relation F eq ==> iff) (is_poly n).
Proof.
  intros f g Hfg. unfold pointwise_relation in Hfg.
  split; intros (p & Hp & Hf); exists p; split; try done; intros x; by rewrite <-Hf, ?Hfg.
Qed.

Lemma is_poly_zero n : is_poly n (λ _, 0).
Proof. exists (replicate n 0). split; [apply length_replicate|]. intros x. by rewrite eval_zeros. Qed.

Lemma is_poly_const c : is_poly 1 (λ _, c).
Proof. exists [c]. split; [done|]. intros x. simpl. ring. Qed.

Lemma is_poly_add n f g : is_poly n f → is_poly n g → is_poly n (λ x, f x + g x).
Proof.
  intros (p & Hp & Hf) (q & Hq & Hg).
  exists (zip_with (λ c d, c - d) p (fopp <$> q)). split; [rewrite length_zip_with, length_fmap; lia|].
  intros x. rewrite eval_sub by (rewrite length_fmap; congruence). rewrite Hf, Hg.
  assert (eval (fopp <$> q) x = fopp (eval q x)) as ->; [|ring].
  clear Hq Hg. induction q as [|d q IH]; [simpl; ring|]. rewrite fmap_cons, !eval_cons, IH. ring.
Qed.

(** One more linear factor. *)
Lemma is_poly_linear n f a c : is_poly n f → is_poly (S n) (λ x, f x * ((x - a) * c)).
Proof.
  intros (p & Hp & Hf).
  exists (zip_with (λ u v, u - v) (0 :: ((λ d, c * d) <$> p)) (((λ d, a * c * d) <$> p) ++ [0])).
  split; [rewrite length_zip_with, length_app, length_cons, !length_fmap; cbn [length]; lia|].
  assert (∀ k q x, eval ((λ d, k * d) <$> q) x = k * eval q x) as Hscale.
  { intros k q x. induction q as [|d q IH]; [simpl; ring|]. rewrite fmap_cons, !eval_cons, IH. ring. }
  intros x. rewrite eval_sub by (rewrite length_app, length_cons, !length_fmap; cbn [length]; lia).
  rewrite eval_cons, (eval_pad _ 1), !Hscale, Hf. ring.
Qed.

(** *** Lagrange interpolation *)

(** The factor of the point [xj] in the basis polynomial of [xi], and the basis
    polynomials times their values. *)
Definition factor (xi xj x : F) : F := (x - xj) * finv (xi - xj).

Definition basis (others : list F) (xi yi x : F) : F :=
  foldl (λ acc xj, acc * factor xi xj x) yi others.

(** The points of [xs] but the one at position [i]. *)
Definition skip (i : nat) (l : list F) : list F := take i l ++ drop (S i) l.

Definition fsum (l : list F) : F := foldr fadd 0 l.

Definition lagrange (pts : list (F * F)) (x : F) : F :=
  fsum (imap (λ i pt, basis (skip i pts.*1) pt.1 pt.2 x) pts).

Lemma basis_vanish others xi yi x : x ∈ others → basis others xi yi x = 0.
Proof.
  unfold basis. intros Hx. apply list_elem_of_split in Hx as (l1 & l2 & ->).
  rewrite foldl_app. simpl. set (v := foldl _ yi l1). clearbody v.
  replace (v * factor xi x x) with 0 by (unfold factor; ring).
  induction l2 as [|a l2 IH]; simpl; [done|]. replace (0 * factor xi a x) with 0 by ring. done.
Qed.

Lemma basis_self others xi yi : xi ∉ others → basis others xi yi xi = yi.
Proof.
  unfold basis. revert yi. induction others as [|a l IH]; intros yi Hn; [done|].
  apply not_elem_of_cons in Hn as [Ha Hn]. simpl.
  replace (yi * factor xi a xi) with yi; [by apply IH|]. unfold factor.
  field. intros Hz. apply Ha. apply fsub_eq. exact Hz.
Qed.

Lemma is_poly_basis others xi yi : is_poly (S (length others)) (basis others xi yi).
Proof.
  unfold basis. assert (∀ n f, is_poly n f →
    is_poly (length others + n) (λ x, foldl (λ acc xj, acc * factor xi xj x) (f x) others)) as Hg.
  { induction others as [|a l IH]; intros n f Hf; [done|]. simpl.
    replace (S (length l + n)) with (length l + S n)%nat by lia.
    apply (IH (S n) (λ x, f x * factor xi a x)). by apply is_poly_linear. }
  replace (S (length others)) with (length others + 1)%nat by lia. apply (Hg 1%nat (λ _, yi)), is_poly_const.
Qed.

Lemma skip_length i l : (i < length l)%nat → S (length (skip i l)) = length l.
Proof. intros Hi. unfold skip. rewrite length_app, length_take, length_drop. lia. Qed.

Lemma elem_skip i l x : NoDup l → x ∈ skip i l ↔ ∃ j, l !! j = Some x ∧ j ≠ i.
Proof.
  intros Hnd. unfold skip. rewrite elem_of_app, elem_of_take, list_elem_of_lookup. split.
  - intros [(j & Hj & Hlt)|[j Hj]]; [exists j; split; [done | lia]|].
    rewrite lookup_drop in Hj. exists (S i + j)%nat. split; [done | lia].
  - intros (j & Hj & Hne). destruct (decide (j < i)%nat); [left; by exists j|].
    right. exists (j - S i)%nat. rewrite lookup_drop. by replace (S i + (j - S i))%nat with j by lia.
Qed.

Lemma fsum_single l k v :
  l !! k = Some v → (∀ j u, j ≠ k → l !! j = Some u → u = 0) → fsum l = v.
Proof.
  revert k. induction l as [|c l IH]; intros k Hk Hz; [done|]. simpl. destruct k as [|k]; simpl in Hk.
  - injection Hk as ->. assert (fsum l = 0) as ->; [|ring]. clear IH.
    assert (∀ j u, l !! j = Some u → u = 0) as Hl by (intros j u Hj; apply (Hz (S j)); done). clear Hz.
    induction l as [|d l IH]; [done|]. simpl. rewrite (Hl 0%nat d) by done.
    rewrite IH; [ring|]. intros j u. apply (Hl (S j)).
  - rewrite (Hz 0%nat c) by done. rewrite (IH k); [ring | done|].
    intros j u Hj. apply (Hz (S j)). congruence.
Qed.

Lemma is_poly_fsum {A} n (f : nat → A → F → F) (l : list A) :
  (∀ i a, l !! i = Some a → is_poly n (f i a)) → is_poly n (λ x, fsum (imap (λ i a, f i a x) l)).
Proof.
  revert f. induction l as [|a l IH]; intros f Hf; [apply is_poly_zero|].
  apply (is_poly_add n (f 0%nat a) (λ x, fsum (imap (λ i a, f (S i) a x) l))); [by apply Hf|].
  apply (IH (λ i, f (S i))). intros i b Hi. by apply Hf.
Qed.

Lemma is_poly_lagrange pts : is_poly (length pts) (lagrange pts).
Proof.
  unfold lagrange. apply (is_poly_fsum _ (λ i pt, basis (skip i pts.*1) pt.1 pt.2)). intros i pt Hi.
  apply lookup_lt_Some in Hi.
  replace (length pts) with (S (length (skip i pts.*1))); [apply is_poly_basis|].
  rewrite skip_length; by rewrite length_fmap.
Qed.

(** Interpolation goes through its points. *)
Lemma lagrange_point pts k pt :
  NoDup pts.*1 → pts !! k = Some pt → lagrange pts pt.1 = pt.2.
Proof.
  intros Hnd Hk. unfold lagrange. assert (pts.*1 !! k = Some pt.1) as Hx by by rewrite list_lookup_fmap, Hk.
  apply (fsum_single _ k).
  - rewrite list_lookup_imap, Hk. simpl. f_equal. apply basis_self. rewrite elem_skip by done.
    intros (j & Hj & Hne). apply Hne. by eapply NoDup_lookup.
  - intros j u Hj Hu. rewrite list_lookup_imap in Hu. destruct (pts !! j) as [pt'|]; [|done]. simpl in Hu.
    injection Hu as <-. apply basis_vanish. rewrite elem_skip by done. by exists k.
Qed.

(** [n] points of a polynomial of at most [n] coefficients determine it. *)
Theorem lagrange_eval p pts x :
  NoDup pts.*1 → (length p <= length pts)%nat → Forall (λ pt, pt.2 = eval p pt.1) pts → lagrange pts x = eval p x.
Proof.
  intros Hnd Hlen Hpts. destruct (is_poly_lagrange pts) as (q & Hq & Heval). rewrite Heval.
  rewrite <-(eval_pad p (length pts - length p)). f_equal.
  apply (poly_unique pts.*1); [done | by rewrite length_fmap | rewrite length_app, length_replicate, length_fmap; lia|].
  intros y Hy. rewrite eval_pad, <-Heval. apply list_elem_of_lookup in Hy as [k Hk].
  rewrite list_lookup_fmap in Hk. destruct (pts !! k) as [pt|] eqn:Hpt; [|done]. injection Hk as <-.
  rewrite (lagrange_point _ k) by done. rewrite Forall_forall in Hpts. apply Hpts. by eapply list_elem_of_lookup_2.
Qed.

(** For any points with distinct abscissae there is exactly one polynomial with as
    many coefficients through them. *)
Theorem interpolant pts :
  NoDup pts.*1 →
  ∃ p, length p = length pts ∧ Forall (λ pt, eval p pt.1 = pt.2) pts ∧
       ∀ q, length q = length pts → Forall (λ pt, eval q pt.1 = pt.2) pts → q = p.
Proof.
  intros Hnd. destruct (is_poly_lagrange pts) as (p & Hp & Heval). exists p.
  assert (Forall (λ pt, eval p pt.1 = pt.2) pts) as Hpts.
  { apply Forall_lookup. intros k pt Hk. rewrite <-Heval. by apply lagrange_point with k. }
  split_and!; [done | done|]. intros q Hq Hqpts.
  apply (poly_unique pts.*1); [done | by rewrite length_fmap..|]. intros y Hy.
  apply list_elem_of_fmap in Hy as (pt & -> & Hpt). rewrite !Forall_forall in *.
  rewrite Hpts, Hqpts by done. done.
Qed.
End Poly.
