(* ===== verification/Gf256.v ===== *)
(** * The field GF(256) of the key manager

    Models the tables and the arithmetic of prsm/storage/key_manager.py, and
    proves that they are a field: addition is exclusive or, multiplication goes
    through the discrete logarithm to the generator 3. *)
From Stdlib Require Import ZArith Lia.
From Stdlib Require Import Ring Field.
From S2P Require Import PyStd.
From S2P Require Import FieldPoly.
From S2P Require Import Prelude.

#[local] Open Scope Z_scope.

(** [l[i]]; a negative index counts from the end. *)
Definition py_index {A} (l : list A) (i : Z) : result A :=
  let n := Z.of_nat (length l) in
  if (0 <=? i) && (i <? n) then of_option IndexError (l !! Z.to_nat i)
  else if (- n <=? i) && (i <? 0) then of_option IndexError (l !! Z.to_nat (n + i))
  else Err IndexError.

(** ** The tables *)

Record GfTables : Type := { gf_exp : list Z; gf_log : list Z }.

(** [x ^ (x << 1)], reduced: multiplication by the generator. *)
Definition gf_step (x : Z) : Z :=
  let x1 := Z.lxor x (Z.shiftl x 1) in
  if Z.land x1 0x100 =? 0 then x1 else Z.lxor x1 0x11B.

(** One iteration of the loop over [i]. *)
Definition table_step (s : Z * GfTables) (i : Z) : Z * GfTables :=
  let '(x, t) := s in
  (gf_step x, {| gf_exp := <[Z.to_nat i := x]> (gf_exp t); gf_log := <[Z.to_nat x := i]> (gf_log t) |}).

Definition gf_tables : GfTables :=
  let t := (foldl table_step (1, {| gf_exp := replicate 256 0; gf_log := replicate 256 0 |}) (seqZ 0 255)).2 in
  {| gf_exp := <[255%nat := default 0 (head (gf_exp t))]> (gf_exp t); gf_log := gf_log t |}.

Definition EXP : list Z := Eval vm_compute in gf_exp gf_tables.
Definition LOG : list Z := Eval vm_compute in gf_log gf_tables.

(** ** Arithmetic *)

Definition gf256_mul (a b : Z) : result Z :=
  if (a =? 0) || (b =? 0) then Ok 0
  else la ← py_index LOG a; lb ← py_index LOG b; py_index EXP ((la + lb) mod 255).

Definition gf256_inv (a : Z) : result Z :=
  if a =? 0 then Err ZeroDivisionError
  else la ← py_index LOG a; py_index EXP (255 - la).

(** ** The field laws *)

(** [P] on the numbers below [n], by computation. *)
Lemma forallb_below n (P : Z → bool) :
  forallb P (seqZ 0 n) = true → ∀ i, 0 <= i < n → P i = true.
Proof.
  intros Hall i Hi. rewrite forallb_forall in Hall. apply Hall, list_elem_of_In, elem_of_seqZ. lia.
Qed.

Definition gf (a : Z) : Prop := 0 <= a < 256.

Definition lg (a : Z) : Z := default 0 (LOG !! Z.to_nat a).
Definition ex (i : Z) : Z := default 0 (EXP !! Z.to_nat i).

Lemma py_index_table l i : length l = 256%nat → gf i → py_index l i = Ok (default 0 (l !! Z.to_nat i)).
Proof.
  intros Hl Hi. unfold py_index, gf in *. rewrite Hl. cbn zeta.
  destruct (lookup_lt_is_Some_2 l (Z.to_nat i)) as [z Hz]; [rewrite Hl; lia|].
  rewrite Hz. change (Z.of_nat 256) with 256. by replace ((0 <=? i) && (i <? 256)) with true by lia.
Qed.

Lemma ex_lg a : 1 <= a < 256 → ex (lg a) = a ∧ 0 <= lg a < 255.
Proof.
  intros Ha. pose proof (forallb_below 256 (λ a, (a =? 0) || ((ex (lg a) =? a) && (0 <=? lg a) && (lg a <? 255)))) as Hc.
  specialize (Hc eq_refl a ltac:(lia)). simpl in Hc. lia.
Qed.

Lemma lg_ex i : 0 <= i < 255 → lg (ex i) = i ∧ 1 <= ex i < 256.
Proof.
  intros Hi. pose proof (forallb_below 255 (λ i, (lg (ex i) =? i) && (1 <=? ex i) && (ex i <? 256))) as Hc.
  specialize (Hc eq_refl i Hi). simpl in Hc. lia.
Qed.

Lemma ex_step i : 0 <= i < 255 → gf_step (ex i) = ex ((i + 1) mod 255).
Proof.
  intros Hi. pose proof (forallb_below 255 (λ i, gf_step (ex i) =? ex ((i + 1) mod 255))) as Hc.
  specialize (Hc eq_refl i Hi). simpl in Hc. lia.
Qed.

Lemma lxor_gf a b : gf a → gf b → gf (Z.lxor a b).
Proof.
  unfold gf. intros Ha Hb. assert (0 <= Z.lxor a b) as Hn by (apply Z.lxor_nonneg; lia). split; [done|].
  destruct (Z.eq_dec (Z.lxor a b) 0) as [->|]; [lia|]. apply Z.log2_lt_pow2 with (b := 8); [lia|].
  pose proof (Z.log2_lxor a b ltac:(lia) ltac:(lia)) as Hl.
  assert (∀ x, 0 <= x < 256 → Z.log2 x <= 7) as Hlog.
  { intros x Hx. destruct (Z.eq_dec x 0) as [->|]; [done|]. assert (Z.log2 x < 8); [|lia].
    apply Z.log2_lt_pow2; lia. }
  pose proof (Hlog a Ha). pose proof (Hlog b Hb). lia.
Qed.

Lemma step_gf a : gf a → gf (gf_step a).
Proof.
  intros Ha. pose proof (forallb_below 256 (λ a, (0 <=? gf_step a) && (gf_step a <? 256))) as Hc.
  specialize (Hc eq_refl a Ha). unfold gf. simpl in Hc. lia.
Qed.

Lemma step_lxor a b : gf a → gf b → gf_step (Z.lxor a b) = Z.lxor (gf_step a) (gf_step b).
Proof.
  intros Ha Hb.
  pose proof (forallb_below 256 (λ a, forallb (λ b, gf_step (Z.lxor a b) =? Z.lxor (gf_step a) (gf_step b)) (seqZ 0 256))) as Hc.
  assert (forallb (λ a, forallb (λ b, gf_step (Z.lxor a b) =? Z.lxor (gf_step a) (gf_step b)) (seqZ 0 256)) (seqZ 0 256) = true)
    as Hall by (vm_compute; reflexivity).
  specialize (Hc Hall a Ha). apply (forallb_below 256 _ Hc b) in Hb. lia.
Qed.

(** The product of field elements. *)
Definition gmul (a b : Z) : Z := if (a =? 0) || (b =? 0) then 0 else ex ((lg a + lg b) mod 255).
Definition ginv (a : Z) : Z := ex (255 - lg a).

Lemma gf256_mul_Ok a b : gf a → gf b → gf256_mul a b = Ok (gmul a b).
Proof.
  intros Ha Hb. unfold gf256_mul, gmul. destruct ((a =? 0) || (b =? 0)) eqn:Hz; [done|].
  rewrite !py_index_table by done. simpl.
  rewrite py_index_table; [done | done|]. unfold gf.
  pose proof (Z.mod_pos_bound (lg a + lg b) 255 ltac:(lia)). unfold lg in *. lia.
Qed.

Lemma gf256_inv_Ok a : gf a → a ≠ 0 → gf256_inv a = Ok (ginv a).
Proof.
  intros Ha Hz. unfold gf256_inv, ginv. replace (a =? 0) with false by (unfold gf in *; lia).
  rewrite py_index_table by done. simpl.
  destruct (ex_lg a) as [_ Hl]; [unfold gf in *; lia|].
  rewrite py_index_table; [done | done|]. unfold gf, lg in *. lia.
Qed.

Lemma gmul_gf a b : gf a → gf b → gf (gmul a b).
Proof.
  intros Ha Hb. unfold gmul. destruct (_ || _); [done|].
  pose proof (Z.mod_pos_bound (lg a + lg b) 255 ltac:(lia)) as Hm. apply lg_ex in Hm. unfold gf. lia.
Qed.

Lemma ginv_gf a : gf a → a ≠ 0 → gf (ginv a) ∧ ginv a ≠ 0.
Proof.
  unfold gf, ginv. intros Ha Hz. destruct (ex_lg a) as [_ Hl]; [lia|].
  destruct (Z.eq_dec (lg a) 0) as [->|]; [done|]. destruct (lg_ex (255 - lg a)); lia.
Qed.

(** A nonzero element acts by multiplication as a power of the step. *)
Lemma step_iter_gf n b : gf b → gf (Nat.iter n gf_step b).
Proof. intros Hb. induction n as [|n IH]; [done|]. by apply step_gf. Qed.

Lemma step_iter_lxor n a b :
  gf a → gf b → Nat.iter n gf_step (Z.lxor a b) = Z.lxor (Nat.iter n gf_step a) (Nat.iter n gf_step b).
Proof.
  intros Ha Hb. induction n as [|n IH]; [done|]. simpl. rewrite IH. by apply step_lxor; apply step_iter_gf.
Qed.

Lemma step_iter_ex n j : 0 <= j < 255 → Nat.iter n gf_step (ex j) = ex ((j + Z.of_nat n) mod 255).
Proof.
  intros Hj. induction n as [|n IH]; [simpl; rewrite Z.add_0_r, Z.mod_small; done|].
  simpl Nat.iter. rewrite IH, ex_step by (apply Z.mod_pos_bound; lia).
  rewrite Zplus_mod_idemp_l. do 2 f_equal. lia.
Qed.

Lemma gmul_iter a b : gf a → a ≠ 0 → gf b → gmul a b = Nat.iter (Z.to_nat (lg a)) gf_step b.
Proof.
  unfold gf. intros Ha Hz Hb. destruct (ex_lg a) as [_ Hl]; [lia|]. unfold gmul.
  replace (a =? 0) with false by lia. destruct (Z.eqb_spec b 0) as [->|Hb0]; simpl.
  - clear. induction (Z.to_nat (lg a)) as [|n IH]; [done|]. simpl. by rewrite <-IH.
  - destruct (ex_lg b) as [Heb Hlb]; [lia|]. rewrite <-Heb at 2. rewrite step_iter_ex by done.
    do 2 f_equal. lia.
Qed.

Lemma gmul_comm a b : gmul a b = gmul b a.
Proof. unfold gmul. rewrite orb_comm. destruct (_ || _); [done|]. by rewrite Z.add_comm. Qed.

Lemma gmul_0_l a : gmul 0 a = 0.
Proof. done. Qed.

Lemma gmul_0_r a : gmul a 0 = 0.
Proof. by rewrite gmul_comm. Qed.

Lemma gmul_lxor a b c : gf a → gf b → gf c → gmul a (Z.lxor b c) = Z.lxor (gmul a b) (gmul a c).
Proof.
  intros Ha Hb Hc. destruct (Z.eq_dec a 0) as [->|Hz]; [done|].
  rewrite !gmul_iter by (done || by apply lxor_gf). by apply step_iter_lxor.
Qed.

Lemma gmul_zero a b : gf a → gf b → gmul a b = 0 → a = 0 ∨ b = 0.
Proof.
  intros Ha Hb. unfold gmul. destruct (_ || _) eqn:Hz; [intros _; lia|]. intros He.
  pose proof (Z.mod_pos_bound (lg a + lg b) 255 ltac:(lia)) as Hm. apply lg_ex in Hm. lia.
Qed.

Lemma lg_gmul a b : gf a → gf b → a ≠ 0 → b ≠ 0 → lg (gmul a b) = (lg a + lg b) mod 255 ∧ gmul a b ≠ 0.
Proof.
  intros Ha Hb Ha0 Hb0. split; [|intros Hz; by apply gmul_zero in Hz as []].
  unfold gmul. replace ((a =? 0) || (b =? 0)) with false by lia.
  by apply lg_ex, Z.mod_pos_bound.
Qed.

Lemma gmul_assoc a b c : gf a → gf b → gf c → gmul a (gmul b c) = gmul (gmul a b) c.
Proof.
  intros Ha Hb Hc. destruct (Z.eq_dec a 0) as [->|Ha0]; [done|].
  destruct (Z.eq_dec b 0) as [->|Hb0]; [by rewrite ?gmul_0_l, ?gmul_0_r, ?gmul_0_l|].
  destruct (Z.eq_dec c 0) as [->|Hc0]; [by rewrite !gmul_0_r|].
  destruct (lg_gmul a b) as [Hl1 Hn1]; [done..|]. destruct (lg_gmul b c) as [Hl2 Hn2]; [done..|].
  unfold gmul at 1 3. rewrite Hl1, Hl2.
  replace ((a =? 0) || (gmul b c =? 0)) with false by lia. replace ((gmul a b =? 0) || (c =? 0)) with false by lia.
  rewrite Zplus_mod_idemp_r, Zplus_mod_idemp_l. do 2 f_equal. lia.
Qed.

Lemma gmul_1_l a : gf a → gmul 1 a = a.
Proof. intros Ha. by rewrite gmul_iter. Qed.

Lemma gmul_inv a : gf a → a ≠ 0 → gmul (ginv a) a = 1.
Proof.
  intros Ha Ha0. destruct (ginv_gf a Ha Ha0) as [Hi Hi0]. unfold gmul.
  replace ((ginv a =? 0) || (a =? 0)) with false by lia.
  destruct (ex_lg a) as [_ Hl]; [unfold gf in *; lia|]. unfold ginv.
  destruct (Z.eq_dec (lg a) 0) as [->|Hne]; [done|].
  destruct (lg_ex (255 - lg a)) as [-> _]; [lia|]. by replace (255 - lg a + lg a) with 255 by lia.
Qed.

(** ** Bytes as field elements *)

Definition badd (a b : byte) : byte := z2b (Z.lxor (b2z a) (b2z b)).
Definition bmul (a b : byte) : byte := z2b (gmul (b2z a) (b2z b)).
Definition binv (a : byte) : byte := if decide (a = x00) then x00 else z2b (ginv (b2z a)).

Lemma b2z_gf a : gf (b2z a).
Proof. apply b2z_range. Qed.
#[local] Hint Resolve b2z_gf lxor_gf gmul_gf : core.

Lemma b2z_zero a : b2z a = 0 ↔ a = x00.
Proof. split; [|by intros ->]. intros Ha. apply (inj b2z). by rewrite Ha. Qed.

Lemma b2z_badd a b : b2z (badd a b) = Z.lxor (b2z a) (b2z b).
Proof. apply b2z_z2b. by apply lxor_gf. Qed.

Lemma b2z_bmul a b : b2z (bmul a b) = gmul (b2z a) (b2z b).
Proof. apply b2z_z2b. by apply gmul_gf. Qed.

Lemma b2z_binv a : a ≠ x00 → b2z (binv a) = ginv (b2z a).
Proof.
  intros Ha. unfold binv. rewrite decide_False by done. apply b2z_z2b.
  destruct (ginv_gf (b2z a)); [done | by rewrite b2z_zero | done].
Qed.

Lemma byte_field_theory :
  field_theory x00 x01 badd bmul badd id (λ a b, bmul a (binv b)) binv (@eq byte).
Proof.
  split; [split| | |]; try done.
  all: intros; apply (inj b2z); rewrite ?b2z_badd, ?b2z_bmul, ?b2z_badd, ?b2z_bmul.
  - done.
  - apply Z.lxor_comm.
  - by rewrite Z.lxor_assoc.
  - by apply gmul_1_l.
  - apply gmul_comm.
  - by apply gmul_assoc.
  - rewrite (gmul_comm (Z.lxor _ _)), gmul_lxor by done. by rewrite !(gmul_comm (b2z z)).
  - apply Z.lxor_nilpotent.
  - rewrite b2z_binv by done. by apply gmul_inv; [|rewrite b2z_zero].
Qed.

#[export] Instance gf256 : Field byte := {|
  f0 := x00; f1 := x01; fadd := badd; fmul := bmul; fsub := badd; fopp := id;
  fdiv := λ a b, bmul a (binv b); finv := binv; field_laws := byte_field_theory
|}.

(** The code's arithmetic on bytes is the field's. *)
Lemma gf256_mul_field a b : gf256_mul (b2z a) (b2z b) = Ok (b2z (fmul a b)).
Proof. rewrite gf256_mul_Ok by done. simpl. by rewrite b2z_bmul. Qed.

Lemma gf256_inv_field a : a ≠ x00 → gf256_inv (b2z a) = Ok (b2z (finv a)).
Proof. intros Ha. rewrite gf256_inv_Ok; [|done|by rewrite b2z_zero]. simpl. by rewrite b2z_binv. Qed.

Lemma lxor_field a b : Z.lxor (b2z a) (b2z b) = b2z (fadd a b).
Proof. simpl. by rewrite b2z_badd. Qed.
