(* ===== verification/AesGcm.v ===== *)
(** * AES-256-GCM

    The [AESGCM] class of the [cryptography] package, which the storage code
    calls: a class of parameters with its documented laws, and an executable
    instance for the examples. *)
From Stdlib Require Import ZArith Lia.
From S2P Require Import PyStd.
From S2P Require Import Externals.
From S2P Require Import Prelude.

#[local] Open Scope list_scope.
#[local] Open Scope Z_scope.

Class AesGcm : Type := {
  (** [AESGCM(key).encrypt(nonce, data, associated_data)] *)
  aesgcm_encrypt : bytes → bytes → bytes → option bytes → result bytes;
  (** [AESGCM(key).decrypt(nonce, data, associated_data)] *)
  aesgcm_decrypt : bytes → bytes → bytes → option bytes → result bytes
}.

(** The sizes the code uses, within the limits of the package: a 256-bit key, a
    96-bit nonce, and at most 2^31 - 1 bytes. *)
Definition gcm_sizes (key nonce data : bytes) : Prop :=
  length key = 32%nat ∧ length nonce = 12%nat ∧ zlen data < 2 ^ 31.

(** A ciphertext is as long as its plaintext plus a 16-byte tag, decrypts to it
    under its key, nonce and associated data, and is the only one that does:
    any other raises [InvalidTag].  Only the length of the data makes encryption
    fail, with [OverflowError]. *)
Class AesGcmLaws `{AesGcm} : Prop := {
  aesgcm_encrypt_Ok key nonce p a : gcm_sizes key nonce p →
    ∃ c, aesgcm_encrypt key nonce p a = Ok c ∧ length c = (length p + 16)%nat;
  aesgcm_encrypt_Err key nonce p a e : length key = 32%nat → length nonce = 12%nat →
    aesgcm_encrypt key nonce p a = Err e → e = OverflowError;
  aesgcm_decrypt_encrypt key nonce p a c :
    aesgcm_encrypt key nonce p a = Ok c → aesgcm_decrypt key nonce c a = Ok p;
  aesgcm_decrypt_Ok key nonce p a c :
    aesgcm_decrypt key nonce c a = Ok p → aesgcm_encrypt key nonce p a = Ok c;
  aesgcm_decrypt_Err key nonce a c e : gcm_sizes key nonce c →
    aesgcm_decrypt key nonce c a = Err e → e = InvalidTag
}.

(** The exact ciphertext that decrypts. *)
Lemma aesgcm_inverse `{AesGcmLaws} key nonce p a c :
  aesgcm_decrypt key nonce c a = Ok p ↔ aesgcm_encrypt key nonce p a = Ok c.
Proof. split; [apply aesgcm_decrypt_Ok | apply aesgcm_decrypt_encrypt]. Qed.

(** ** An executable instance *)

Module ToyGcm.
(** A checksum of everything authenticated, as a 16-byte tag. *)
Definition tag (key nonce p : bytes) (a : option bytes) : bytes :=
  take 16 (Toy.keccak_ (key ++ nonce ++ default [] a ++ p)).

Definition encrypt_ (key nonce p : bytes) (a : option bytes) : result bytes :=
  if (length key =? 32)%nat && (length nonce =? 12)%nat then Ok (p ++ tag key nonce p a) else Err ValueError.

Definition decrypt_ (key nonce c : bytes) (a : option bytes) : result bytes :=
  if (length key =? 32)%nat && (length nonce =? 12)%nat then
    let p := take (length c - 16) c in
    if bool_decide (c = p ++ tag key nonce p a) then Ok p else Err InvalidTag
  else Err ValueError.

#[export] Instance toy_gcm : AesGcm := {| aesgcm_encrypt := encrypt_; aesgcm_decrypt := decrypt_ |}.

Lemma tag_length key nonce p a : length (tag key nonce p a) = 16%nat.
Proof. unfold tag, Toy.keccak_. by rewrite length_take, be_bytes_length. Qed.

#[export] Instance toy_gcm_laws : AesGcmLaws.
Proof.
  split; simpl; unfold encrypt_, decrypt_.
  - intros key nonce p a (-> & -> & _). simpl. eexists. split; [done|]. rewrite length_app, tag_length. lia.
  - by intros key nonce p a e -> ->.
  - intros key nonce p a c. destruct (_ && _); [|done]. intros [= <-].
    rewrite length_app, tag_length, Nat.add_sub, take_app_length. by rewrite bool_decide_true.
  - intros key nonce p a c. destruct (_ && _); [|done]. case_bool_decide as Hc; [|done]. intros [= Hp].
    by rewrite Hp in Hc; rewrite <-Hc.
  - intros key nonce a c e (-> & -> & _). simpl. case_bool_decide; [done|]. by intros [= <-].
Qed.
End ToyGcm.
