(* ===== verification/StorageModels.v ===== *)
(** * The data of the content storage

    Models the types of prsm/storage/models.py that the storage components share:
    content hashes and their text form, shard manifests, key shares, placement
    policies and content descriptors.  A [float] time stamp is the text of its
    [repr]. *)
From Stdlib Require Import ZArith Lia.
From S2P Require Import PyStd.
From S2P Require Import Prelude.

#[local] Open Scope string_scope.
#[local] Open Scope list_scope.
#[local] Open Scope Z_scope.

(** ** ContentHash *)

Inductive AlgorithmID : Type := SHA256 | SHA3_256 | BLAKE3.

#[export] Instance AlgorithmID_eq_dec : EqDecision AlgorithmID.
Proof. solve_decision. Defined.

Definition algorithm_int (a : AlgorithmID) : Z :=
  match a with SHA256 => 1 | SHA3_256 => 2 | BLAKE3 => 3 end.

(** [AlgorithmID(z)] *)
Definition algorithm_of_int (z : Z) : option AlgorithmID :=
  if z =? 1 then Some SHA256 else if z =? 2 then Some SHA3_256 else if z =? 3 then Some BLAKE3 else None.

Lemma algorithm_of_to a : algorithm_of_int (algorithm_int a) = Some a.
Proof. by destruct a. Qed.

Record ContentHash : Type := { ch_algorithm : AlgorithmID; ch_digest : bytes }.

#[export] Instance ContentHash_eq_dec : EqDecision ContentHash.
Proof. solve_decision. Defined.

#[export] Program Instance ContentHash_countable : Countable ContentHash :=
  inj_countable (λ h, (algorithm_int (ch_algorithm h), ch_digest h))
    (λ p, a ← algorithm_of_int p.1; Some {| ch_algorithm := a; ch_digest := p.2 |}) _.
Next Obligation. intros [a d]. simpl. by rewrite algorithm_of_to. Qed.

(** [ContentHash.from_data] *)
Definition from_data (data : bytes) (algorithm : AlgorithmID) : result ContentHash :=
  match algorithm with
  | SHA256 => Ok {| ch_algorithm := SHA256; ch_digest := sha256 data |}
  | SHA3_256 => Ok {| ch_algorithm := SHA3_256; ch_digest := sha3_256 data |}
  | BLAKE3 => Err ValueError
  end.

(** [ContentHash.hex] *)
Definition content_hash_hex (h : ContentHash) : string :=
  (hex [z2b (algorithm_int (ch_algorithm h))] +:+ hex (ch_digest h))%string.

(** The body of [int(s, 16)] after sign and prefix. *)
Fixpoint hex_digits_of_str (s : string) (acc : Z) (after_digit : bool) : option Z :=
  match s with
  | EmptyString => if after_digit then Some acc else None
  | String c s' =>
      match hex_val c with
      | Some v => hex_digits_of_str s' (acc * 16 + v) true
      | None => if bool_decide (c = "_"%char) && after_digit then hex_digits_of_str s' acc false else None
      end
  end.

(** An optional 0x, after which an underscore may follow. *)
Definition hex_unsigned (s : string) : option Z :=
  match s with
  | String "0" (String x s') =>
      if bool_decide (x = "x"%char) || bool_decide (x = "X"%char) then
        match s' with String "_" s'' => hex_digits_of_str s'' 0 false | _ => hex_digits_of_str s' 0 false end
      else hex_digits_of_str s 0 false
  | _ => hex_digits_of_str s 0 false
  end.

(** [int(s, 16)] *)
Definition int_of_hex_str (s : string) : option Z :=
  match strip s with
  | String "-" s' => Z.opp <$> hex_unsigned s'
  | String "+" s' => hex_unsigned s'
  | s' => hex_unsigned s'
  end.

(** [ContentHash.from_hex] *)
Definition content_hash_from_hex (hex_str : string) : result ContentHash :=
  _ ← raise_if (Z.of_nat (String.length hex_str) <? 4) ValueError;
  algorithm_byte ← of_option ValueError (int_of_hex_str (stake 2 hex_str));
  algorithm_id ← of_option ValueError (algorithm_of_int algorithm_byte);
  digest ← of_option ValueError (fromhex (sdrop 2 hex_str));
  Ok {| ch_algorithm := algorithm_id; ch_digest := digest |}.

Lemma algorithm_hex a s :
  ∃ c1 c2, (hex [z2b (algorithm_int a)] +:+ s)%string = String c1 (String c2 s) ∧
           int_of_hex_str (String c1 (String c2 "")) = Some (algorithm_int a).
Proof. destruct a; by eexists _, _. Qed.

(** A nonempty digest survives its text form. *)
Lemma content_hash_roundtrip h :
  ch_digest h ≠ [] → content_hash_from_hex (content_hash_hex h) = Ok h.
Proof.
  intros Hne. destruct h as [a d]. simpl in Hne. unfold content_hash_from_hex, content_hash_hex. simpl ch_algorithm.
  simpl ch_digest. destruct (algorithm_hex a (hex d)) as (c1 & c2 & -> & Hi).
  destruct (_ <? 4) eqn:Hl.
  { apply Z.ltb_lt in Hl. cbn [String.length] in Hl. rewrite length_hex in Hl. destruct d; simpl in *; [done | lia]. }
  cbn [stake sdrop]. rewrite Hi. simpl. by rewrite algorithm_of_to, fromhex_hex.
Qed.

#[export] Instance content_hash_hex_inj : Inj (=) (=) content_hash_hex.
Proof.
  intros [a1 d1] [a2 d2]. unfold content_hash_hex. cbn [ch_algorithm ch_digest].
  destruct (algorithm_hex a1 (hex d1)) as (c1 & c2 & -> & H1).
  destruct (algorithm_hex a2 (hex d2)) as (c3 & c4 & -> & H2).
  intros [= -> -> Hd%(inj hex)]. f_equal; [|done]. rewrite H1 in H2. injection H2 as Ha.
  pose proof (algorithm_of_to a1) as Hb. rewrite Ha, algorithm_of_to in Hb. congruence.
Qed.

(** ** Manifests *)

Inductive ShardingMode : Type := REPLICATION | ERASURE.

#[export] Instance ShardingMode_eq_dec : EqDecision ShardingMode.
Proof. solve_decision. Defined.

Record ErasureParams : Type := {
  ep_k : Z; ep_n : Z; ep_payload_bytes : Z; ep_shard_bytes : Z; ep_payload_sha256 : string
}.

Record ShardManifest : Type := {
  sm_content_hash : ContentHash;
  sm_shard_hashes : list ContentHash;
  sm_total_size : Z;
  sm_shard_size : Z;
  sm_algorithm_id : AlgorithmID;
  sm_created_at : string;
  sm_replication_factor : Z;
  sm_owner_node_id : string;
  sm_visibility : string;
  sm_sharding_mode : ShardingMode;
  sm_erasure_params : option ErasureParams
}.

(** ** Key shares, policies and descriptors *)

Record KeyShare : Type := {
  ks_content_hash : ContentHash;
  ks_share_index : Z;
  ks_share_data : bytes;
  ks_threshold : Z;
  ks_total_shares : Z;
  ks_algorithm_id : Z
}.

Record ReplicationPolicy : Type := {
  rp_replication_factor : Z;
  rp_min_asn_diversity : Z;
  rp_owner_excluded : bool;
  rp_key_shard_separation : bool;
  rp_degraded_constraints : list string
}.

Record ContentDescriptor : Type := {
  cd_content_hash : ContentHash;
  cd_manifest_holders : list string;
  cd_key_share_holders : list string;
  cd_contract_key_share_holders : list string;
  cd_shard_map : dict string (list string);
  cd_replication_policy : ReplicationPolicy;
  cd_visibility : string;
  cd_epoch : Z;
  cd_version : Z;
  cd_owner_node_id : string;
  cd_contract_pubkey : bytes;
  cd_signature : bytes;
  cd_signer_type : string;
  cd_created_at : string;
  cd_updated_at : string
}.
