(* ===== verification/KeyManager.v ===== *)
(** * The key manager: secret sharing and manifest encryption

    Models prsm/storage/key_manager.py over the field of Gf256.v.  The random
    draws are arguments: [rnd i j] is the [j]-th [secrets.randbelow(256)] made for
    the [i]-th byte of a secret. *)
From Stdlib Require Import ZArith Lia.
From S2P Require Import PyStd.
From S2P Require Import FieldPoly.
From S2P Require Import Gf256.
From S2P Require Import AesGcm.
From S2P Require Import StorageModels.
From S2P Require Import Prelude.

#[local] Open Scope list_scope.
#[local] Open Scope Z_scope.

(** [enumerate(l)], with the positions in [nat] *)
Definition indexed {A} (l : list A) : list (nat * A) := imap pair l.

(** [bytearray.append(y)] *)
Definition byte_of (y : Z) : result byte :=
  if (0 <=? y) && (y <? 256) then Ok (z2b y) else Err ValueError.

(** ** Polynomials *)

Definition evaluate_polynomial (coeffs : list Z) (x : Z) : result Z :=
  result_foldM (λ r coeff, m ← gf256_mul r x; Ok (Z.lxor m coeff)) 0 (rev coeffs).

(** One turn of the inner loop. *)
Definition basis_step (x : Z) (i : nat) (xi basis : Z) (s : nat * (Z * Z)) : result Z :=
  let '(j, (xj, _)) := s in
  if (i =? j)%nat then Ok basis
  else
    let num := Z.lxor x xj in
    let den := Z.lxor xi xj in
    inv ← gf256_inv den; m ← gf256_mul num inv; gf256_mul basis m.

(** One turn of the outer loop. *)
Definition lagrange_step (shares : list (Z * Z)) (x acc : Z) (s : nat * (Z * Z)) : result Z :=
  let '(i, (xi, yi)) := s in
  basis ← result_foldM (basis_step x i xi) yi (indexed shares); Ok (Z.lxor acc basis).

Definition lagrange_interpolate (shares : list (Z * Z)) (x : Z) : result Z :=
  result_foldM (lagrange_step shares x) 0 (indexed shares).

(** ** Splitting and reconstruction *)

(** The polynomial of one byte. *)
Definition byte_coeffs (threshold : Z) (rnd : nat → nat → Z) (i : nat) (b : byte) : list Z :=
  b2z b :: (rnd i <$> seq 0 (Z.to_nat (threshold - 1))).

(** The shares with one more byte. *)
Definition share_byte (coeffs : list Z) (shares_data : list bytes) : result (list bytes) :=
  result_mapM (λ '(share_idx, data),
    y ← evaluate_polynomial coeffs (Z.of_nat share_idx + 1); b ← byte_of y; Ok (data ++ [b]))
    (indexed shares_data).

Definition split_secret (secret : bytes) (threshold num_shares : Z) (rnd : nat → nat → Z)
  : result (list (Z * bytes)) :=
  _ ← raise_if (threshold <? 2) ValueError;
  _ ← raise_if (num_shares <? threshold) ValueError;
  shares_data ← result_foldM (λ acc '(i, b), share_byte (byte_coeffs threshold rnd i b) acc)
                  (replicate (Z.to_nat num_shares) []) (indexed secret);
  Ok (imap (λ i data, (Z.of_nat i + 1, data)) shares_data).

Definition reconstruct_byte (shares : list (Z * bytes)) (byte_pos : nat) : result byte :=
  points ← result_mapM (λ '(idx, data), y ← of_option IndexError (data !! byte_pos); Ok (idx, b2z y)) shares;
  y ← lagrange_interpolate points 0;
  byte_of y.

(** The threshold argument is not used. *)
Definition reconstruct_secret (shares : list (Z * bytes)) (threshold : Z) : result bytes :=
  match shares with
  | [] => Err KeyReconstructionError
  | (_, data) :: _ => result_mapM (reconstruct_byte shares) (seq 0 (length data))
  end.

(** ** Encryption *)

Section Encryption.
Context `{AesGcm}.

Definition km_encrypt (nonce key plaintext : bytes) : result bytes :=
  ct_with_tag ← aesgcm_encrypt key nonce plaintext None; Ok (nonce ++ ct_with_tag).

Definition km_decrypt (key data : bytes) : result bytes :=
  _ ← raise_if (length data <? 12)%nat ValueError;
  aesgcm_decrypt key (take 12 data) (drop 12 data) None.

Definition key_share (content_hash : ContentHash) (threshold num_shares : Z) (s : Z * bytes) : KeyShare :=
  {| ks_content_hash := content_hash; ks_share_index := s.1; ks_share_data := s.2;
     ks_threshold := threshold; ks_total_shares := num_shares; ks_algorithm_id := 1 |}.

(** [key] and [nonce] are what [os.urandom] returns. *)
Definition encrypt_manifest (key nonce : bytes) (rnd : nat → nat → Z) (manifest_data : bytes)
    (content_hash : ContentHash) (threshold num_shares : Z) : result (bytes * list KeyShare) :=
  ciphertext ← km_encrypt nonce key manifest_data;
  raw_shares ← split_secret key threshold num_shares rnd;
  Ok (ciphertext, map (key_share content_hash threshold num_shares) raw_shares).

Definition decrypt_manifest (ciphertext : bytes) (key_shares : list KeyShare) : result bytes :=
  match key_shares with
  | [] => Err KeyReconstructionError
  | ks :: _ =>
      key ← reconstruct_secret ((λ k, (ks_share_index k, ks_share_data k)) <$> key_shares) (ks_threshold ks);
      km_decrypt key ciphertext
  end.
End Encryption.
