(* ===== verification/Shamir.v ===== *)
(** * Secret sharing: any threshold of shares, and nothing from fewer

    The key manager's sharing is Shamir's scheme over GF(256): any
    [threshold] shares reconstruct the secret, and [threshold - 1] of them are
    compatible with every secret in exactly one way. *)
From Stdlib Require Import ZArith Lia.
From S2P Require Import PyStd.
From S2P Require Import FieldPoly.
From S2P Require Import Gf256.
From S2P Require Import AesGcm.
From S2P Require Import StorageModels.
From S2P Require Import KeyManager.
From S2P Require Import Prelude.

#[local] Open Scope list_scope.
#[local] Open Scope Z_scope.

(** ** The code computes in the field *)

Lemma evaluate_field p x : evaluate_polynomial (b2z <$> p) (b2z x) = Ok (b2z (eval p x)).
Proof.
  unfold evaluate_polynomial. induction p as [|c p IH]; [done|].
  cbn [fmap list_fmap rev]. rewrite result_foldM_app, IH. cbn [mbind result_bind result_foldM].
  rewrite gf256_mul_field. cbn [mbind result_bind]. by rewrite lxor_field.
Qed.

(** A point of the field, as the code holds it. *)
Definition zpt (pt : byte * byte) : Z * Z := (b2z pt.1, b2z pt.2).

Lemma indexed_fmap {A B} (g : A → B) l : indexed (g <$> l) = imap (λ i x, (i, g x)) l.
Proof. unfold indexed. by rewrite imap_fmap. Qed.

Lemma basis_step_skip x i xi acc pt : basis_step x i xi acc (i, pt) = Ok acc.
Proof. destruct pt. unfold basis_step. by rewrite Nat.eqb_refl. Qed.

Lemma basis_step_field x i xi acc j pt :
  i ≠ j → xi ≠ pt.1 →
  basis_step (b2z x) i (b2z xi) (b2z acc) (j, zpt pt) = Ok (b2z (fmul acc (factor xi pt.1 x))).
Proof.
  intros Hj Hx. destruct pt as [xj yj]. simpl in Hx. unfold basis_step, zpt. cbn [fst snd].
  destruct (Nat.eqb_spec i j) as [|_]; [done|]. rewrite (lxor_field xi xj), gf256_inv_field, (lxor_field x xj).
  - cbn [mbind result_bind]. rewrite gf256_mul_field. cbn [mbind result_bind]. by rewrite gf256_mul_field.
  - intros Hz. apply Hx. apply fsub_eq. exact Hz.
Qed.

Lemma basis_loop i x xi acc k (l : list (byte * byte)) :
  (∀ j, (j < length l)%nat → (k + j)%nat ≠ i) → xi ∉ l.*1 →
  result_foldM (basis_step (b2z x) i (b2z xi)) (b2z acc) (imap (λ j pt, ((k + j)%nat, zpt pt)) l) =
  Ok (b2z (basis l.*1 xi acc x)).
Proof.
  revert acc k. induction l as [|pt l IH]; intros acc k Hk Hx; [done|].
  rewrite fmap_cons in Hx. apply not_elem_of_cons in Hx as [Hxj Hx]. cbn [imap result_foldM].
  rewrite basis_step_field; [|intros ->; apply (Hk 0%nat); [simpl; lia | lia] | done]. cbn [mbind result_bind].
  rewrite (imap_ext _ (λ j pt, ((S k + j)%nat, zpt pt))) by (intros; simpl; f_equal; lia).
  rewrite (IH (fmul acc (factor xi pt.1 x)) (S k)); [done | | done].
  intros j Hj. simpl in Hk. specialize (Hk (S j)). lia.
Qed.

Lemma basis_field pts i pt x :
  NoDup pts.*1 → pts !! i = Some pt →
  result_foldM (basis_step (b2z x) i (b2z pt.1)) (b2z pt.2) (indexed (zpt <$> pts)) =
  Ok (b2z (basis (skip i pts.*1) pt.1 pt.2 x)).
Proof.
  intros Hnd Hpt. rewrite indexed_fmap.
  assert (pt.1 ∉ skip i pts.*1) as Hns.
  { rewrite elem_skip by done. intros (j & Hj & Hne). apply Hne.
    by eapply NoDup_lookup; [done..|rewrite list_lookup_fmap, Hpt]. }
  unfold skip in *. apply lookup_lt_Some in Hpt as Hlen.
  rewrite <-(take_drop_middle pts i pt) at 1 by done. rewrite <-fmap_take, <-fmap_drop in *.
  rewrite elem_of_app in Hns. rewrite imap_app, result_foldM_app.
  rewrite (basis_loop i x pt.1 pt.2 0); [|intros j Hj; rewrite length_take in Hj; lia | tauto].
  cbn [mbind result_bind imap]. rewrite length_take_le by lia. cbn [result_foldM].
  rewrite Nat.add_0_r, basis_step_skip. cbn [mbind result_bind].
  rewrite (imap_ext _ (λ j pt, ((S i + j)%nat, zpt pt))) by (intros; simpl; f_equal; lia).
  rewrite basis_loop; [| intros j _; lia | tauto].
  unfold basis. by rewrite foldl_app.
Qed.

Lemma lagrange_step_field pts x acc i pt :
  NoDup pts.*1 → pts !! i = Some pt →
  lagrange_step (zpt <$> pts) (b2z x) (b2z acc) (i, zpt pt) =
  Ok (b2z (fadd acc (basis (skip i pts.*1) pt.1 pt.2 x))).
Proof.
  intros Hnd Hpt. change (lagrange_step (zpt <$> pts) (b2z x) (b2z acc) (i, zpt pt)) with
    (basis ← result_foldM (basis_step (b2z x) i (b2z pt.1)) (b2z pt.2) (indexed (zpt <$> pts));
     Ok (Z.lxor (b2z acc) basis)).
  rewrite basis_field by done. cbn [mbind result_bind]. by rewrite lxor_field.
Qed.

Lemma lagrange_loop pts x l acc k :
  NoDup pts.*1 → (∀ i, l !! i = pts !! (k + i)%nat) →
  result_foldM (lagrange_step (zpt <$> pts) (b2z x)) (b2z acc) (imap (λ i pt, ((k + i)%nat, zpt pt)) l) =
  Ok (b2z (fadd acc (fsum (imap (λ i pt, basis (skip (k + i) pts.*1) pt.1 pt.2 x) l)))).
Proof.
  intros Hnd. revert acc k. induction l as [|pt l IH]; intros acc k Hl; cbn [imap result_foldM].
  - f_equal. f_equal. symmetry. apply fadd_0_r.
  - pose proof (Hl 0%nat) as H0. rewrite Nat.add_0_r in *.
    rewrite lagrange_step_field by done. cbn [mbind result_bind].
    rewrite (imap_ext _ (λ j pt, ((S k + j)%nat, zpt pt))) by (intros; simpl; f_equal; lia).
    rewrite IH by (intros i; specialize (Hl (S i)); by rewrite Nat.add_succ_r in Hl).
    f_equal. f_equal. rewrite fadd_assoc. f_equal. unfold fsum. cbn [foldr imap]. do 2 f_equal.
    apply imap_ext. intros j pt' _. simpl. do 2 f_equal. lia.
Qed.

(** Interpolation in the code is interpolation in the field. *)
Lemma lagrange_field pts x :
  NoDup pts.*1 → lagrange_interpolate (zpt <$> pts) (b2z x) = Ok (b2z (lagrange pts x)).
Proof.
  intros Hnd. unfold lagrange_interpolate. rewrite indexed_fmap.
  etrans; [exact (lagrange_loop pts x pts f0 0 Hnd (λ _, eq_refl))|]. by rewrite fadd_0_l.
Qed.

(** ** Splitting *)

(** The draws are bytes. *)
Definition draws (rnd : nat → nat → Z) : Prop := ∀ i j, 0 <= rnd i j < 256.

(** The polynomial of a byte, in the field. *)
Definition byte_poly (threshold : Z) (rnd : nat → nat → Z) (i : nat) (b : byte) : list byte :=
  b :: ((λ j, z2b (rnd i j)) <$> seq 0 (Z.to_nat (threshold - 1))).

(** The share of holder [x]. *)
Definition share_at (threshold : Z) (rnd : nat → nat → Z) (secret : bytes) (x : Z) : bytes :=
  imap (λ i b, eval (byte_poly threshold rnd i b) (z2b x)) secret.

Lemma share_at_lookup threshold rnd secret x i :
  share_at threshold rnd secret x !! i = (λ b, eval (byte_poly threshold rnd i b) (z2b x)) <$> secret !! i.
Proof. apply list_lookup_imap. Qed.

Lemma byte_coeffs_field threshold rnd i b :
  draws rnd → byte_coeffs threshold rnd i b = b2z <$> byte_poly threshold rnd i b.
Proof.
  intros Hr. unfold byte_coeffs, byte_poly. rewrite fmap_cons, <-list_fmap_compose. f_equal.
  apply list_fmap_ext. intros _ j _. simpl. by rewrite b2z_z2b.
Qed.

Lemma byte_poly_length threshold rnd i b :
  2 <= threshold → length (byte_poly threshold rnd i b) = Z.to_nat threshold.
Proof. intros Ht. simpl. rewrite length_fmap, length_seq. lia. Qed.

Lemma result_mapM_compose {A B C} (f : B → result C) (g : A → B) l :
  result_mapM f (g <$> l) = result_mapM (λ x, f (g x)) l.
Proof. induction l as [|x l IH]; [done|]. cbn. destruct (f (g x)); cbn; [by rewrite IH | done]. Qed.

Lemma share_byte_field n (pre : Z → bytes) p :
  n <= 255 →
  share_byte (b2z <$> p) (pre <$> seqZ 1 n) = Ok ((λ x, pre x ++ [eval p (z2b x)]) <$> seqZ 1 n).
Proof.
  intros Hn. unfold share_byte. rewrite indexed_fmap.
  assert (imap (λ i x, (i, pre x)) (seqZ 1 n) = (λ x, (Z.to_nat (x - 1), pre x)) <$> seqZ 1 n) as ->.
  { apply list_eq. intros i. rewrite list_lookup_imap, list_lookup_fmap.
    destruct (seqZ 1 n !! i) as [x|] eqn:Hx; [|done]. apply lookup_seqZ in Hx as [-> _]. simpl. do 2 f_equal. lia. }
  rewrite result_mapM_compose. apply result_mapM_fmap. intros x Hx%elem_of_seqZ. cbn [fst snd].
  replace (Z.of_nat (Z.to_nat (x - 1)) + 1) with (b2z (z2b x)) by (rewrite b2z_z2b; lia).
  rewrite evaluate_field. cbn [mbind result_bind]. unfold byte_of.
  pose proof (b2z_range (eval p (z2b x))). replace (_ && _) with true by lia. cbn [mbind result_bind].
  by rewrite z2b_b2z.
Qed.

Lemma secret_loop threshold rnd n k secret (pre : Z → bytes) :
  draws rnd → n <= 255 →
  result_foldM (λ acc '(i, b), share_byte (byte_coeffs threshold rnd i b) acc) (pre <$> seqZ 1 n)
    (imap (λ i b, ((k + i)%nat, b)) secret) =
  Ok ((λ x, pre x ++ imap (λ i b, eval (byte_poly threshold rnd (k + i) b) (z2b x)) secret) <$> seqZ 1 n).
Proof.
  intros Hr Hn. revert k pre. induction secret as [|b secret IH]; intros k pre.
  - simpl. f_equal. apply list_fmap_ext. intros. by rewrite app_nil_r.
  - cbn [imap result_foldM]. rewrite Nat.add_0_r, byte_coeffs_field, share_byte_field by done.
    cbn [mbind result_bind]. rewrite (imap_ext _ (λ j b, ((S k + j)%nat, b))) by (intros; simpl; f_equal; lia).
    rewrite IH. f_equal. apply list_fmap_ext. intros _ x _. rewrite <-app_assoc. f_equal. cbn [app]. f_equal.
    apply imap_ext. intros j b' _. unfold compose. by rewrite Nat.add_succ_r.
Qed.

(** The shares are the values of the polynomials at 1, ..., [num_shares]. *)
Lemma split_shape secret threshold num_shares rnd :
  draws rnd → 2 <= threshold <= num_shares → num_shares <= 255 →
  split_secret secret threshold num_shares rnd =
  Ok ((λ x, (x, share_at threshold rnd secret x)) <$> seqZ 1 num_shares).
Proof.
  intros Hr Ht Hn. unfold split_secret.
  replace (threshold <? 2) with false by lia. replace (num_shares <? threshold) with false by lia.
  cbn [raise_if mbind result_bind].
  set (none := replicate _ _). assert (none = (λ _ : Z, [] : bytes) <$> seqZ 1 num_shares) as ->.
  { unfold none. symmetry. apply list_eq. intros i. rewrite list_lookup_fmap. destruct (seqZ 1 num_shares !! i) as [x|] eqn:Hx; simpl.
    - apply lookup_seqZ in Hx. symmetry. apply lookup_replicate_2. lia.
    - symmetry. apply lookup_ge_None_2. rewrite length_replicate.
      apply lookup_ge_None in Hx. rewrite length_seqZ in Hx. done. }
  etrans; [apply (f_equal (λ r, shares_data ← r; _)), (secret_loop threshold rnd num_shares 0 secret (λ _, [])); done|].
  cbn [mbind result_bind]. f_equal. apply list_eq. intros i. rewrite list_lookup_imap, !list_lookup_fmap.
  destruct (seqZ 1 num_shares !! i) as [x|] eqn:Hx; [|done]. apply lookup_seqZ in Hx as [-> _]. simpl.
  do 2 f_equal. lia.
Qed.

(** ** Reconstruction *)

(** [sub] are shares of [secret], each for its holder. *)
Definition shares_of (threshold : Z) (rnd : nat → nat → Z) (secret : bytes) (sub : list (Z * bytes)) : Prop :=
  Forall (λ s, 1 <= s.1 <= 255 ∧ s.2 = share_at threshold rnd secret s.1) sub.

Lemma z2b_inj x y : 0 <= x < 256 → 0 <= y < 256 → z2b x = z2b y → x = y.
Proof. intros Hx Hy Hz. rewrite <-(b2z_z2b x), <-(b2z_z2b y), Hz by done. done. Qed.

Lemma NoDup_z2b (l : list Z) : NoDup l → Forall (λ x, 0 <= x < 256) l → NoDup (z2b <$> l).
Proof.
  intros Hnd Hl. rewrite Forall_forall in Hl. apply NoDup_fmap_2_strong; [|done].
  intros x y Hx Hy. apply z2b_inj; auto.
Qed.

Lemma shares_range threshold rnd secret sub :
  shares_of threshold rnd secret sub → Forall (λ x, 0 <= x < 256) sub.*1.
Proof. intros Hs. apply Forall_fmap. eapply Forall_impl; [exact Hs|]. intros s [? _]. simpl. lia. Qed.

Lemma reconstruct_byte_Ok threshold rnd secret sub i b :
  2 <= threshold → shares_of threshold rnd secret sub → NoDup sub.*1 → (Z.to_nat threshold <= length sub)%nat →
  secret !! i = Some b → reconstruct_byte sub i = Ok b.
Proof.
  intros Ht Hs Hnd Hlen Hb. unfold reconstruct_byte. set (p := byte_poly threshold rnd i b).
  pose (pts := (λ s : Z * bytes, (z2b s.1, eval p (z2b s.1))) <$> sub).
  assert (pts.*1 = z2b <$> sub.*1) as Hpts by (unfold pts; by rewrite <-!list_fmap_compose).
  assert (NoDup pts.*1) as Hnd' by (rewrite Hpts; apply NoDup_z2b; [done | by eapply shares_range]).
  rewrite (result_mapM_fmap _ (λ s : Z * bytes, zpt (z2b s.1, eval p (z2b s.1)))).
  2: { intros [x data] Hin. unfold shares_of in Hs. rewrite Forall_forall in Hs. destruct (Hs _ Hin) as [Hx Hd].
       simpl in Hx, Hd. subst data. rewrite share_at_lookup, Hb. cbn [fmap option_fmap option_map of_option mbind result_bind].
       unfold zpt. cbn [fst snd]. by rewrite b2z_z2b by lia. }
  cbn [mbind result_bind]. replace (_ <$> sub) with (zpt <$> pts) by (unfold pts; by rewrite <-list_fmap_compose).
  change 0 with (b2z x00). rewrite lagrange_field by done. cbn [mbind result_bind].
  rewrite (lagrange_eval p); [|done| |].
  - change x00 with (f0 : byte). rewrite eval_zero. change (default f0 (head p)) with b. unfold byte_of.
    pose proof (b2z_range b). replace (_ && _) with true by lia. by rewrite z2b_b2z.
  - unfold p, pts. rewrite byte_poly_length by done. by rewrite length_fmap.
  - apply Forall_fmap. by apply Forall_true.
Qed.

Lemma reconstruct_Ok threshold rnd secret sub t :
  2 <= threshold → shares_of threshold rnd secret sub → NoDup sub.*1 → (Z.to_nat threshold <= length sub)%nat →
  reconstruct_secret sub t = Ok secret.
Proof.
  intros Ht Hs Hnd Hlen. unfold reconstruct_secret. destruct sub as [|[x data] sub]; [simpl in Hlen; lia|].
  assert (length data = length secret) as ->.
  { apply Forall_cons in Hs as [[_ Hd] _]. simpl in Hd. rewrite Hd. unfold share_at. by rewrite length_imap. }
  apply result_mapM_Forall2, Forall2_same_length_lookup. split; [by rewrite length_seq|].
  intros i j b Hj Hb. apply lookup_seq in Hj as [-> _]. eapply reconstruct_byte_Ok; eauto.
Qed.

(** C19 Any threshold of shares reconstructs the secret.  With a threshold of at
    least 2 and at most 255 holders, splitting succeeds, whatever the random draws,
    with one share per holder 1, ..., [num_shares]; and any selection of them, in
    any order, that has [threshold] distinct holders or more reconstructs exactly
    the secret.  Parameters outside those bounds are refused. *)
Theorem shamir_any_threshold secret threshold num_shares rnd :
  draws rnd → num_shares <= 255 →
  (threshold < 2 ∨ num_shares < threshold → split_secret secret threshold num_shares rnd = Err ValueError) ∧
  (2 <= threshold <= num_shares →
   ∃ shares, split_secret secret threshold num_shares rnd = Ok shares ∧ shares.*1 = seqZ 1 num_shares ∧
             (∀ sub t, sub ⊆ shares → NoDup sub.*1 → threshold <= zlen sub →
                       reconstruct_secret sub t = Ok secret)).
Proof.
  intros Hr Hn. split.
  - intros Hbad. unfold split_secret. destruct (Z.ltb_spec threshold 2); [done|].
    destruct (Z.ltb_spec num_shares threshold); [done | lia].
  - intros Ht. eexists. split; [by apply split_shape|]. split.
    { rewrite <-list_fmap_compose. apply list_fmap_id. }
    intros sub t Hsub Hnd Hlen. apply (reconstruct_Ok threshold rnd); [lia | | done | lia].
    apply Forall_forall. intros s Hs. apply Hsub in Hs. apply list_elem_of_fmap in Hs as (x & -> & Hx).
    apply elem_of_seqZ in Hx. simpl. split; [lia | done].
Qed.

(** ** Secrecy *)

(** The draws that give [holders] the same shares of another byte. *)
Lemma byte_secrecy threshold rnd i b b' (holders : list Z) :
  draws rnd → 2 <= threshold → NoDup holders → Forall (λ x, 1 <= x <= 255) holders →
  length holders = Z.to_nat (threshold - 1) →
  ∃ r, length r = length holders ∧
       (∀ x, x ∈ holders → eval (b' :: r) (z2b x) = eval (byte_poly threshold rnd i b) (z2b x)) ∧
       (∀ r', length r' = length holders →
              (∀ x, x ∈ holders → eval (b' :: r') (z2b x) = eval (byte_poly threshold rnd i b) (z2b x)) → r' = r).
Proof.
  intros Hr Ht Hnd Hh Hlen.
  pose (pts := (f0, b') :: ((λ x, (z2b x, eval (byte_poly threshold rnd i b) (z2b x))) <$> holders)).
  assert (pts.*1 = f0 :: (z2b <$> holders)) as Hx by (unfold pts; rewrite fmap_cons, <-list_fmap_compose; done).
  assert (length pts = S (length holders)) as Hl by (unfold pts; simpl; by rewrite length_fmap).
  destruct (interpolant pts) as (p & Hp & Hpts & Huniq).
  { rewrite Hx. apply NoDup_cons. split.
    - intros (x & Hz & Hin)%list_elem_of_fmap. rewrite Forall_forall in Hh. specialize (Hh _ Hin).
      apply (z2b_inj 0 x) in Hz; lia.
    - apply NoDup_z2b; [done|]. eapply Forall_impl; [exact Hh|]. simpl. lia. }
  assert (∀ q, Forall (λ pt, eval q pt.1 = pt.2) pts ↔
            eval q f0 = b' ∧ ∀ x, x ∈ holders → eval q (z2b x) = eval (byte_poly threshold rnd i b) (z2b x)) as Hall.
  { intros q. unfold pts. by rewrite Forall_cons, Forall_fmap, Forall_forall. }
  clearbody pts. apply Hall in Hpts as [H0 Hpts]. destruct p as [|c r]; [simpl in Hp; lia|].
  rewrite eval_zero in H0. simpl in H0. subst c. exists r. split; [simpl in Hp; lia|]. split; [done|].
  intros r' Hr' Heq. assert (b' :: r' = b' :: r) as [= ->]; [|done].
  apply Huniq; [simpl; lia|]. apply Hall. split; [by rewrite eval_zero | done].
Qed.

Lemma finite_choice {A} `{!Inhabited A} (n : nat) (P : nat → A → Prop) :
  (∀ i, (i < n)%nat → ∃ y, P i y) → ∃ f, ∀ i, (i < n)%nat → P i (f i).
Proof.
  induction n as [|n IH]; intros Hex; [exists (λ _, inhabitant); lia|].
  destruct IH as [f Hf]; [intros i Hi; apply Hex; lia|]. destruct (Hex n) as [y Hy]; [lia|].
  exists (λ i, if decide (i = n) then y else f i). intros i Hi. case_decide as Heq; [by subst|]. apply Hf. lia.
Qed.

(** What a group of holders sees of a sharing. *)
Definition view (holders : list Z) (shares : list (Z * bytes)) : list (Z * bytes) :=
  filter (λ s, s.1 ∈ holders) shares.

Lemma view_shape threshold rnd1 rnd2 secret1 secret2 num_shares holders :
  holders ⊆ seqZ 1 num_shares →
  view holders ((λ x, (x, share_at threshold rnd1 secret1 x)) <$> seqZ 1 num_shares) =
  view holders ((λ x, (x, share_at threshold rnd2 secret2 x)) <$> seqZ 1 num_shares) ↔
  ∀ x, x ∈ holders → share_at threshold rnd1 secret1 x = share_at threshold rnd2 secret2 x.
Proof.
  intros Hsub. split.
  - intros Hv x Hx. assert ((x, share_at threshold rnd1 secret1 x) ∈
      view holders ((λ x, (x, share_at threshold rnd1 secret1 x)) <$> seqZ 1 num_shares)) as Hin.
    { apply list_elem_of_filter. split; [done|]. apply list_elem_of_fmap. eauto. }
    rewrite Hv in Hin. apply list_elem_of_filter in Hin as [_ (x' & [= <- ->] & _)%list_elem_of_fmap]. done.
  - intros Heq. unfold view. clear Hsub. induction (seqZ 1 num_shares) as [|x l IH]; [done|].
    rewrite !fmap_cons, !filter_cons. simpl. case_decide as Hx; [|done]. rewrite IH. by rewrite Heq.
Qed.

(** Two secrets of one length, shared with these draws, look alike to [x]. *)
Lemma share_at_eq threshold rnd1 rnd2 (secret1 secret2 : bytes) x :
  length secret1 = length secret2 →
  share_at threshold rnd1 secret1 x = share_at threshold rnd2 secret2 x ↔
  ∀ i b1 b2, secret1 !! i = Some b1 → secret2 !! i = Some b2 →
    eval (byte_poly threshold rnd1 i b1) (z2b x) = eval (byte_poly threshold rnd2 i b2) (z2b x).
Proof.
  intros Hlen. split.
  - intros Heq i b1 b2 H1 H2. pose proof (share_at_lookup threshold rnd1 secret1 x i) as L1.
    rewrite Heq, share_at_lookup, H1, H2 in L1. by injection L1.
  - intros Heq. apply list_eq. intros i.
    etrans; [apply share_at_lookup|]. symmetry. etrans; [apply share_at_lookup|]. symmetry.
    destruct (secret1 !! i) as [b1|] eqn:H1, (secret2 !! i) as [b2|] eqn:H2; cbn [fmap option_fmap option_map]; try done.
    + by rewrite (Heq i b1 b2).
    + apply lookup_lt_Some in H1. apply lookup_ge_None in H2. lia.
    + apply lookup_lt_Some in H2. apply lookup_ge_None in H1. lia.
Qed.

Lemma byte_poly_draws threshold rnd i b r :
  (∀ j, (j < Z.to_nat (threshold - 1))%nat → z2b (rnd i j) = default x00 (r !! j)) →
  length r = Z.to_nat (threshold - 1) → byte_poly threshold rnd i b = b :: r.
Proof.
  intros Hj Hlen. unfold byte_poly. f_equal. apply list_eq. intros j. rewrite list_lookup_fmap.
  destruct (decide (j < length r)%nat) as [Hlt|Hge].
  - rewrite lookup_seq_lt by lia. simpl. destruct (lookup_lt_is_Some_2 r j Hlt) as [c Hc].
    rewrite Hj by lia. by rewrite Hc.
  - rewrite lookup_seq_ge by lia. symmetry. apply lookup_ge_None. lia.
Qed.

(** C34 Fewer shares say nothing.  Whatever [threshold - 1] holders see of the
    sharing of a secret, they would see it for every other secret of the same
    length, under exactly one choice of the random draws: with uniform draws, their
    view is independent of the secret. *)
Theorem shamir_secrecy (secret secret' : bytes) threshold num_shares rnd holders shares :
  draws rnd → num_shares <= 255 → split_secret secret threshold num_shares rnd = Ok shares →
  length secret' = length secret →
  NoDup holders → holders ⊆ seqZ 1 num_shares → zlen holders = threshold - 1 →
  ∃ rnd' shares', draws rnd' ∧ split_secret secret' threshold num_shares rnd' = Ok shares' ∧
    view holders shares' = view holders shares ∧
    (∀ rnd'' shares'', draws rnd'' → split_secret secret' threshold num_shares rnd'' = Ok shares'' →
       view holders shares'' = view holders shares →
       ∀ i j, (i < length secret')%nat → (j < length holders)%nat → rnd'' i j = rnd' i j).
Proof.
  intros Hr Hn Hsplit Hlen Hnd Hsub Hcard.
  assert (2 <= threshold <= num_shares) as Ht.
  { unfold split_secret in Hsplit. destruct (Z.ltb_spec threshold 2); [done|].
    destruct (Z.ltb_spec num_shares threshold); [done | lia]. }
  rewrite split_shape in Hsplit by done. injection Hsplit as <-.
  assert (Forall (λ x, 1 <= x <= 255) holders) as Hrange.
  { apply Forall_forall. intros x Hx%Hsub. apply elem_of_seqZ in Hx. lia. }
  pose (same i (b' : byte) r := ∀ x b, x ∈ holders → secret !! i = Some b →
          eval (b' :: r) (z2b x) = eval (byte_poly threshold rnd i b) (z2b x)).
  destruct (finite_choice (length secret') (λ i r, ∀ b', secret' !! i = Some b' →
      length r = length holders ∧ same i b' r ∧
      ∀ r', length r' = length holders → same i b' r' → r' = r)) as [rs Hrs].
  { intros i Hi. destruct (lookup_lt_is_Some_2 secret' i Hi) as [b' Hb'].
    destruct (lookup_lt_is_Some_2 secret i) as [b Hb]; [lia|].
    destruct (byte_secrecy threshold rnd i b b' holders) as (r & Hl & Hs & Hu); [done | lia | done | done | lia |].
    exists r. intros b'' Hb''. assert (b'' = b') as -> by (apply (inj Some); etrans; [symmetry; exact Hb'' | exact Hb']). split; [done|].
    split; [intros x b2 Hx Hb2; replace b2 with b; [by apply Hs | apply (inj Some); etrans; [symmetry; exact Hb | exact Hb2]]|].
    intros r' Hl' Hs'. apply Hu; [done|]. intros x Hx. by apply Hs'. }
  pose (rnd' := λ i j, b2z (default x00 (rs i !! j))).
  assert (draws rnd') as Hr' by (intros i j; apply b2z_range).
  assert (∀ rnd2, draws rnd2 → (∀ x, x ∈ holders → share_at threshold rnd2 secret' x = share_at threshold rnd secret x) ↔
            ∀ i j, (i < length secret')%nat → (j < length holders)%nat → rnd2 i j = rnd' i j) as Hview.
  { intros rnd2 Hr2. split.
    - intros Hsh i j Hi Hj. destruct (lookup_lt_is_Some_2 secret' i Hi) as [b' Hb'].
      destruct (Hrs i Hi b' Hb') as (Hl & _ & Hu).
      pose (r2 := (λ j, z2b (rnd2 i j)) <$> seq 0 (Z.to_nat (threshold - 1))).
      assert (r2 = rs i) as Heq.
      { apply Hu; [unfold r2; rewrite length_fmap, length_seq; lia|]. intros x b Hx Hb.
        exact (proj1 (share_at_eq _ _ _ _ _ _ Hlen) (Hsh x Hx) i b' b Hb' Hb). }
      unfold rnd'. rewrite <-Heq. unfold r2. rewrite list_lookup_fmap, lookup_seq_lt by lia. simpl.
      by rewrite b2z_z2b.
    - intros Hd x Hx. apply share_at_eq; [done|]. intros i b' b Hb' Hb.
      apply lookup_lt_Some in Hb' as Hi. destruct (Hrs i Hi b' Hb') as (Hl & Hs & _).
      rewrite (byte_poly_draws threshold rnd2 i b' (rs i)); [by apply Hs | | lia].
      intros j Hj. rewrite Hd by lia. unfold rnd'. by rewrite z2b_b2z. }
  exists rnd'. eexists. split; [done|]. split; [by apply split_shape|]. split.
  - apply view_shape; [done|]. by apply Hview.
  - intros rnd'' shares'' Hr'' Hs'' Hv. rewrite split_shape in Hs'' by done. injection Hs'' as <-.
    apply Hview; [done|]. by apply (view_shape threshold rnd'' rnd secret' secret num_shares).
Qed.

(** ** Manifests *)

Section Manifests.
Context `{AesGcmLaws}.

Lemma km_decrypt_encrypt key nonce p c :
  length nonce = 12%nat → km_encrypt nonce key p = Ok c → km_decrypt key c = Ok p.
Proof.
  intros Hn. unfold km_encrypt, km_decrypt. intros Hc. apply bind_Ok_inv in Hc as (ct & Hc & [= <-]).
  rewrite length_app. destruct (Nat.ltb_spec (length nonce + length ct) 12) as [|_]; [lia|].
  cbn [raise_if mbind result_bind]. rewrite take_app_length', drop_app_length' by done.
  by apply aesgcm_decrypt_encrypt.
Qed.

(** The key shares of an encrypted manifest decrypt it, [threshold] of them at a
    time.  Encrypting fails only for the length of the manifest. *)
Lemma manifest_shares key nonce rnd data ch threshold num_shares :
  length key = 32%nat → length nonce = 12%nat → draws rnd → 2 <= threshold <= num_shares → num_shares <= 255 →
  match encrypt_manifest key nonce rnd data ch threshold num_shares with
  | Ok (ciphertext, shares) =>
      ks_share_index <$> shares = seqZ 1 num_shares ∧
      (∀ sub, sub ⊆ shares → NoDup (ks_share_index <$> sub) → threshold <= zlen sub →
              decrypt_manifest ciphertext sub = Ok data)
  | Err e => e = OverflowError
  end.
Proof.
  intros Hk Hnonce Hr Ht Hn. unfold encrypt_manifest. destruct (km_encrypt nonce key data) as [c|e] eqn:Hc.
  2: { unfold km_encrypt in Hc. destruct (aesgcm_encrypt key nonce data None) as [ct|e'] eqn:He; [done|].
       injection Hc as <-. by eapply aesgcm_encrypt_Err. }
  apply km_decrypt_encrypt in Hc as Hd; [|done].
  cbn [mbind result_bind]. rewrite split_shape by done. cbn [mbind result_bind].
  change map with (@fmap list list_fmap). split.
  { rewrite <-!list_fmap_compose. apply list_fmap_id. }
  intros sub Hsub Hnd Hlen. unfold decrypt_manifest. destruct sub as [|ks sub]; [simpl in Hlen; lia|].
  rewrite (reconstruct_Ok threshold rnd key); [by cbn [mbind result_bind] | lia | | | ].
  - apply Forall_fmap, Forall_forall. intros x Hx%Hsub. rewrite <-list_fmap_compose in Hx.
    apply list_elem_of_fmap in Hx as (y & -> & Hy%elem_of_seqZ). simpl. split; [lia | done].
  - by rewrite <-list_fmap_compose.
  - rewrite length_fmap. lia.
Qed.
End Manifests.

(** ** Three holders, a threshold of two, executed *)

Definition rnd0 (i j : nat) : Z := (Z.of_nat i * 57 + Z.of_nat j * 31 + 200) mod 256.
Definition secret0 : bytes := utf8 "PRSM".
Definition shares0 : list (Z * bytes) :=
  Eval vm_compute in match split_secret secret0 2 3 rnd0 with Ok l => l | Err _ => [] end.

Lemma rnd0_draws : draws rnd0.
Proof. intros i j. apply Z.mod_pos_bound. reflexivity. Qed.

Lemma shares0_split : split_secret secret0 2 3 rnd0 = Ok shares0.
Proof. vm_compute. reflexivity. Qed.

Definition holders31 : list (Z * bytes) :=
  Eval vm_compute in filter (λ s, s.1 ≠ 2) (rev shares0).

Lemma shamir_any_threshold_witness :
  split_secret secret0 2 3 rnd0 = Ok shares0 ∧ holders31.*1 = [3; 1] ∧
  reconstruct_secret holders31 2 = Ok secret0.
Proof.
  destruct (shamir_any_threshold secret0 2 3 rnd0 rnd0_draws ltac:(discriminate)) as [_ Hok].
  destruct (Hok ltac:(split; discriminate)) as (shares & Hs & _ & Hrec).
  rewrite shares0_split in Hs. injection Hs as <-.
  split; [exact shares0_split|]. split; [reflexivity|]. apply Hrec; [|vm_compute; repeat constructor; set_solver | discriminate].
  intros s Hin. unfold holders31 in Hin. unfold shares0. set_solver.
Defined.

(** One share of three is compatible with another word. *)
Lemma shamir_secrecy_witness :
  ∃ rnd' shares', split_secret (utf8 "word") 2 3 rnd' = Ok shares' ∧ view [2] shares' = view [2] shares0.
Proof.
  destruct (shamir_secrecy secret0 (utf8 "word") 2 3 rnd0 [2] shares0 rnd0_draws ltac:(discriminate)
              shares0_split eq_refl) as (rnd' & shares' & _ & Hs & Hv & _).
  - apply NoDup_singleton.
  - vm_compute. set_solver.
  - reflexivity.
  - exists rnd', shares'. split; [exact Hs | exact Hv].
Defined.

(** With 256 holders the last evaluation point has no logarithm: the call raises
    where it should refuse the parameters. *)
Lemma too_many_shares_raise : split_secret [x01] 2 256 (λ _ _, 1) = Err IndexError.
Proof. vm_compute. reflexivity. Qed.
