(* ===== verification/Zfec.v ===== *)
(** * The erasure code of the zfec package

    The storage code calls [zfec.Encoder(k, n).encode] and
    [zfec.Decoder(k, n).decode]: a class of parameters whose laws are the
    documented contract of the package, that any [k] of the [n] shares give back
    the [k] blocks.  [ReedSolomon] is an executable instance over GF(256). *)
From Stdlib Require Import ZArith Lia.
From S2P Require Import PyStd.
From S2P Require Import FieldPoly.
From S2P Require Import Gf256.
From S2P Require Import Prelude.

#[local] Open Scope list_scope.
#[local] Open Scope Z_scope.

Class Zfec : Type := {
  (** [Encoder(k, n).encode(blocks)] *)
  zfec_encode : Z → Z → list bytes → result (list bytes);
  (** [Decoder(k, n).decode(datas, indices)] *)
  zfec_decode : Z → Z → list bytes → list Z → result (list bytes)
}.

(** [k] blocks of one size. *)
Definition zfec_blocks (k n : Z) (size : nat) (blocks : list bytes) : Prop :=
  1 <= k <= n ∧ n <= 256 ∧ zlen blocks = k ∧ Forall (λ b, length b = size) blocks.

Class ZfecLaws `{Zfec} : Prop := {
  zfec_encode_Ok k n size blocks : zfec_blocks k n size blocks →
    ∃ shares, zfec_encode k n blocks = Ok shares ∧ zlen shares = n ∧ Forall (λ s, length s = size) shares;
  zfec_any_k k n size blocks shares indices datas : zfec_blocks k n size blocks →
    zfec_encode k n blocks = Ok shares → zlen indices = k → NoDup indices →
    Forall2 (λ i d, 0 <= i ∧ shares !! Z.to_nat i = Some d) indices datas →
    zfec_decode k n datas indices = Ok blocks
}.

(** ** Reed-Solomon over GF(256) *)

Module ReedSolomon.
(** The bytes at position [p]. *)
Definition column (p : nat) (l : list bytes) : list byte := (λ b, default x00 (b !! p)) <$> l.

(** The polynomial through [ys] at the points [xs], at the point [x]. *)
Definition interp (xs ys : list byte) (x : byte) : byte := lagrange (zip xs ys) x.

Definition first_points (k : Z) : list byte := z2b <$> seqZ 0 k.

(** The words of length [size] that interpolate [l], at the points of [out]. *)
Definition words (size : nat) (xs : list byte) (l : list bytes) (out : list Z) : list bytes :=
  (λ j, (λ p, interp xs (column p l) (z2b j)) <$> seq 0 size) <$> out.

Definition size_of (l : list bytes) : nat := match l with [] => 0%nat | b :: _ => length b end.

Definition encode_ (k n : Z) (blocks : list bytes) : result (list bytes) :=
  if (1 <=? k) && (k <=? n) && (n <=? 256) && (zlen blocks =? k)
  then Ok (words (size_of blocks) (first_points k) blocks (seqZ 0 n)) else Err ExternalError.

Definition decode_ (k n : Z) (datas : list bytes) (indices : list Z) : result (list bytes) :=
  if (zlen datas =? k) && (zlen indices =? k)
  then Ok (words (size_of datas) (z2b <$> indices) datas (seqZ 0 k)) else Err ExternalError.

#[export] Instance reed_solomon : Zfec := {| zfec_encode := encode_; zfec_decode := decode_ |}.

Lemma z2b_points (l : list Z) : NoDup l → Forall (λ x, 0 <= x < 256) l → NoDup (z2b <$> l).
Proof.
  intros Hnd Hl. rewrite Forall_forall in Hl. apply NoDup_fmap_2_strong; [|done].
  intros x y Hx Hy Heq. rewrite <-(b2z_z2b x), <-(b2z_z2b y) by auto. by rewrite Heq.
Qed.

Lemma first_points_NoDup k : k <= 256 → NoDup (first_points k).
Proof.
  intros Hk. apply z2b_points; [apply NoDup_seqZ|]. apply Forall_forall. intros x Hx%elem_of_seqZ. lia.
Qed.

Lemma length_column p l : length (column p l) = length l.
Proof. apply length_fmap. Qed.

Lemma length_first_points k : length (first_points k) = Z.to_nat k.
Proof. unfold first_points. by rewrite length_fmap, length_seqZ. Qed.

Lemma words_size size xs l out : Forall (λ s, length s = size) (words size xs l out).
Proof. apply Forall_fmap, Forall_forall. intros j _. simpl. by rewrite length_fmap, length_seq. Qed.

Lemma size_of_blocks size l : l ≠ [] → Forall (λ b, length b = size) l → size_of l = size.
Proof. destruct l as [|b l]; [done|]. intros _ [Hb _]%Forall_cons. done. Qed.

Lemma words_lookup size xs l out i j p :
  out !! i = Some j → (p < size)%nat →
  words size xs l out !! i ≫= (.!! p) = Some (interp xs (column p l) (z2b j)).
Proof.
  intros Hi Hp. unfold words, bytes. rewrite list_lookup_fmap, Hi. simpl.
  rewrite list_lookup_fmap, lookup_seq_lt by done. done.
Qed.

(** Interpolating [k] values of an interpolant gives the interpolant. *)
Lemma interp_interp xs ys xs' x :
  NoDup xs → NoDup xs' → length ys = length xs → length xs' = length xs →
  interp xs' (interp xs ys <$> xs') x = interp xs ys x.
Proof.
  intros Hnd Hnd' Hl Hl'. unfold interp.
  destruct (is_poly_lagrange (zip xs ys)) as (q & Hq & Heval). rewrite length_zip_with, Hl, Nat.min_id in Hq.
  rewrite Heval. apply lagrange_eval.
  - by rewrite fst_zip by (rewrite length_fmap; lia).
  - rewrite length_zip_with, length_fmap. lia.
  - apply Forall_lookup. intros i [a b] Hi. simpl. rewrite <-Heval. rewrite lookup_zip_with in Hi.
    destruct (xs' !! i) as [a'|] eqn:Ha; [|done]. simpl in Hi. rewrite list_lookup_fmap, Ha in Hi. simpl in Hi.
    injection Hi as -> <-. done.
Qed.

Lemma interp_point xs ys i x y :
  NoDup xs → xs !! i = Some x → ys !! i = Some y → length ys = length xs → interp xs ys x = y.
Proof.
  intros Hnd Hx Hy Hl. apply (lagrange_point (zip xs ys) i (x, y)).
  - by rewrite fst_zip by lia.
  - rewrite lookup_zip_with, Hx. simpl. by rewrite Hy.
Qed.

Lemma blocks_nonempty k n size blocks : zfec_blocks k n size blocks → blocks ≠ [].
Proof. intros (Hk & _ & Hl & _) ->. simpl in Hl. lia. Qed.

Section Decode.
Context (k n : Z) (size : nat) (blocks : list bytes) (Hblocks : zfec_blocks k n size blocks).

#[local] Abbreviation shares := (words size (first_points k) blocks (seqZ 0 n)).

(** [d] is the share of index [i]. *)
Definition share_is (i : Z) (d : bytes) : Prop := 0 <= i ∧ shares !! Z.to_nat i = Some d.

Lemma share_range i d : share_is i d → 0 <= i < n ∧ length d = size.
Proof.
  intros [Hi Hd]. split.
  - apply lookup_lt_Some in Hd. unfold words in Hd. rewrite length_fmap, length_seqZ in Hd. lia.
  - eapply (Forall_lookup_1 (λ s, length s = size)); [apply words_size | exact Hd].
Qed.

Lemma share_byte_at i d p :
  share_is i d → (p < size)%nat → d !! p = Some (interp (first_points k) (column p blocks) (z2b i)).
Proof.
  intros Hs Hp. apply share_range in Hs as Hr. destruct Hs as [Hi Hd].
  assert (shares !! Z.to_nat i ≫= (.!! p) = d !! p) as <- by by rewrite Hd.
  apply words_lookup; [|done]. rewrite lookup_seqZ_lt by lia. f_equal. lia.
Qed.

Lemma share_column indices datas p :
  Forall2 share_is indices datas → (p < size)%nat →
  column p datas = interp (first_points k) (column p blocks) <$> (z2b <$> indices).
Proof.
  intros Hd Hp. induction Hd as [|i d js ds Hi _ IH]; [done|]. cbn [column fmap list_fmap]. f_equal; [|exact IH].
  by rewrite (share_byte_at i).
Qed.

(** Block [i], interpolated from [k] shares. *)
Lemma block_byte_at indices datas i b p v :
  Forall2 share_is indices datas → NoDup indices → zlen indices = k →
  blocks !! i = Some b → b !! p = Some v → (p < size)%nat →
  interp (z2b <$> indices) (column p datas) (z2b (Z.of_nat i)) = v.
Proof.
  intros Hd Hnd Hli Hb Hv Hp. destruct Hblocks as (Hk & Hn & Hl & _).
  rewrite (share_column indices datas p) by done.
  assert (length (column p blocks) = length (first_points k)) as Hlc
    by (rewrite length_column, length_first_points; lia).
  rewrite interp_interp; [| | |done|].
  - apply (interp_point _ _ i); [apply first_points_NoDup; lia | | | done].
    + unfold first_points. rewrite list_lookup_fmap, lookup_seqZ_lt by (apply lookup_lt_Some in Hb; lia). done.
    + unfold column. rewrite list_lookup_fmap, Hb. simpl. by rewrite Hv.
  - apply first_points_NoDup. lia.
  - apply z2b_points; [done|]. apply Forall_forall. intros x Hx. apply list_elem_of_lookup in Hx as [j Hj].
    destruct (Forall2_lookup_l _ _ _ _ _ Hd Hj) as (d & _ & Hs). apply share_range in Hs. lia.
  - rewrite length_fmap, length_first_points. lia.
Qed.
End Decode.

#[export] Instance reed_solomon_laws : ZfecLaws.
Proof.
  split.
  - intros k n size blocks Hb. simpl. unfold encode_. pose proof (blocks_nonempty _ _ _ _ Hb) as Hne.
    destruct Hb as (Hk & Hn & Hl & Hs). replace (_ && _) with true by lia. eexists. split; [done|]. split.
    + unfold words. rewrite length_fmap, length_seqZ. lia.
    + rewrite (size_of_blocks size) by done. apply words_size.
  - intros k n size blocks shares indices datas Hb Henc Hli Hnd Hd. pose proof (blocks_nonempty _ _ _ _ Hb) as Hne.
    pose proof Hb as (Hk & Hn & Hl & Hs). simpl in *. unfold encode_ in Henc.
    replace (_ && _) with true in Henc by lia. injection Henc as <-. rewrite (size_of_blocks size) in Hd by done.
    unfold decode_. apply Forall2_length in Hd as Hld. replace (_ && _) with true by lia. f_equal.
    rewrite (size_of_blocks size datas).
    2: { intros ->. simpl in *. lia. }
    2: { apply Forall_lookup. intros j d Hj. destruct (Forall2_lookup_r _ _ _ _ _ Hd Hj) as (i & _ & Hi).
         by destruct (share_range k n size blocks i d Hi). }
    apply list_eq. intros i. destruct (blocks !! i) as [b|] eqn:Hbi.
    2: { apply lookup_ge_None in Hbi. apply lookup_ge_None. unfold words. rewrite length_fmap, length_seqZ. lia. }
    apply lookup_lt_Some in Hbi as Hi. unfold words at 1.
    rewrite list_lookup_fmap, lookup_seqZ_lt by lia. cbn [fmap option_fmap option_map]. f_equal.
    assert (length b = size) as Hbs by by eapply (Forall_lookup_1 (λ b, length b = size)).
    apply list_eq. intros p. rewrite list_lookup_fmap. destruct (b !! p) as [v|] eqn:Hv.
    + apply lookup_lt_Some in Hv as Hp. rewrite lookup_seq_lt by lia. etrans; [|symmetry; exact Hv].
      cbn [fmap option_fmap option_map]. f_equal. rewrite Z.add_0_l. eapply (block_byte_at k n size blocks); eauto. lia.
    + pose proof Hv as Hp%lookup_ge_None. rewrite lookup_seq_ge by lia. symmetry. exact Hv.
Qed.
End ReedSolomon.
