(* ===== verification/Erasure.v ===== *)
(** * Erasure coding of a payload

    Models prsm/storage/erasure.py: the payload is padded into [k] blocks, coded
    into [n] shards with a digest each, and rebuilt from any [k] of them. *)
From Stdlib Require Import ZArith Lia.
From S2P Require Import PyStd.
From S2P Require Import Zfec.
From S2P Require Import Prelude.

#[local] Open Scope list_scope.
#[local] Open Scope Z_scope.

Record ErasureMetadata : Type := {
  em_k : Z; em_n : Z; em_payload_bytes : Z; em_shard_bytes : Z; em_payload_sha256 : string
}.

Record ErasureShard : Type := { es_index : Z; es_data : bytes; es_sha256 : string }.

(** [ErasureShard.verify] *)
Definition shard_verify (s : ErasureShard) : result unit :=
  raise_if (negb (bool_decide (sha256_hex (es_data s) = es_sha256 s))) CorruptShardError.

Definition validate_params (k n : Z) : result unit :=
  _ ← raise_if (k <=? 0) ErasureError;
  _ ← raise_if (n <? k) ErasureError;
  raise_if (256 <? n) ErasureError.

(** [b[:n]]; a negative [n] counts from the end. *)
Definition py_prefix (n : Z) (b : bytes) : bytes :=
  take (Z.to_nat (if n <? 0 then zlen b + n else n)) b.

Section Coding.
Context `{Zfec}.

Definition shard_of (i : Z) (data : bytes) : ErasureShard :=
  {| es_index := i; es_data := data; es_sha256 := sha256_hex data |}.

(** The [k] blocks of a padded payload. *)
Definition blocks_of (k : Z) (payload : bytes) : list bytes :=
  let block_bytes := (zlen payload + k - 1) / k in
  let padded := payload ++ replicate (Z.to_nat (block_bytes * k - zlen payload)) x00 in
  (λ i, slice (i * block_bytes) ((i + 1) * block_bytes) padded) <$> seqZ 0 k.

Definition metadata_of (k n : Z) (payload : bytes) : ErasureMetadata :=
  {| em_k := k; em_n := n; em_payload_bytes := zlen payload;
     em_shard_bytes := (zlen payload + k - 1) / k; em_payload_sha256 := sha256_hex payload |}.

Definition erasure_encode (payload : bytes) (k n : Z) : result (ErasureMetadata * list ErasureShard) :=
  _ ← validate_params k n;
  match payload with
  | [] => Ok ({| em_k := k; em_n := n; em_payload_bytes := 0; em_shard_bytes := 0;
                 em_payload_sha256 := sha256_hex [] |}, [])
  | _ =>
      shares ← zfec_encode k n (blocks_of k payload);
      shards ← result_mapM (λ i, data ← of_option IndexError (shares !! Z.to_nat i); Ok (shard_of i data)) (seqZ 0 n);
      Ok (metadata_of k n payload, shards)
  end.

(** One turn of the loop over the supplied shards. *)
Definition check_shard (n : Z) (by_index : dict Z ErasureShard) (s : ErasureShard)
  : result (dict Z ErasureShard) :=
  _ ← raise_if ((es_index s <? 0) || (n <=? es_index s)) ErasureError;
  _ ← raise_if (dict_mem (es_index s) by_index) DuplicateShardError;
  _ ← shard_verify s;
  Ok (dict_set (es_index s) s by_index).

Definition index_leb (a b : ErasureShard) : bool := es_index a <=? es_index b.

Definition erasure_decode (metadata : ErasureMetadata) (shards : list ErasureShard) : result bytes :=
  if em_payload_bytes metadata =? 0 then Ok []
  else
    _ ← validate_params (em_k metadata) (em_n metadata);
    by_index ← result_foldM (check_shard (em_n metadata)) [] shards;
    _ ← raise_if (zlen by_index <? em_k metadata) InsufficientShardsError;
    let picked := take (Z.to_nat (em_k metadata)) (sort_by index_leb (dict_values by_index)) in
    blocks ← zfec_decode (em_k metadata) (em_n metadata) (es_data <$> picked) (es_index <$> picked);
    let payload := py_prefix (em_payload_bytes metadata) (concat blocks) in
    _ ← raise_if (negb (bool_decide (sha256_hex payload = em_payload_sha256 metadata))) PayloadChecksumError;
    Ok payload.
End Coding.

(** ** Blocks *)

Lemma validate_params_Ok k n : validate_params k n = Ok tt ↔ 1 <= k <= n ∧ n <= 256.
Proof.
  unfold validate_params. split.
  - intros Hv. repeat (apply bind_Ok_inv in Hv as ([] & ?%raise_if_Ok & Hv)). apply raise_if_Ok in Hv. lia.
  - intros [Hk Hn]. replace (k <=? 0) with false by lia. replace (n <? k) with false by lia.
    by replace (256 <? n) with false by lia.
Qed.

Lemma validate_params_Err k n : ¬ (1 <= k <= n ∧ n <= 256) → validate_params k n = Err ErasureError.
Proof.
  intros Hb. unfold validate_params. destruct (Z.leb_spec k 0); [done|]. simpl.
  destruct (Z.ltb_spec n k); [done|]. simpl. destruct (Z.ltb_spec 256 n); [done | lia].
Qed.

(** Consecutive pieces of [m] bytes. *)
Definition pieces (m : nat) (s k : nat) (b : bytes) : list bytes := (λ i, take m (drop (i * m) b)) <$> seq s k.

Lemma slices_pieces (m : nat) (k : Z) (b : bytes) :
  (λ i, slice (i * Z.of_nat m) ((i + 1) * Z.of_nat m) b) <$> seqZ 0 k = pieces m 0 (Z.to_nat k) b.
Proof.
  unfold pieces, seqZ. rewrite <-list_fmap_compose. apply list_fmap_ext. intros _ i _. unfold compose, slice.
  f_equal; [lia|]. f_equal. lia.
Qed.

Lemma concat_pieces m s k b : concat (pieces m s k b) = take (k * m) (drop (s * m) b).
Proof.
  revert s. induction k as [|k IH]; intros s; [done|]. cbn [pieces seq fmap list_fmap concat].
  fold (pieces m (S s) k b). rewrite IH. simpl. rewrite <-(take_take_drop _ m (k * m)), drop_drop.
  do 3 f_equal. lia.
Qed.

Lemma pieces_size m k b : length b = (k * m)%nat → Forall (λ c, length c = m) (pieces m 0 k b).
Proof.
  intros Hlen. apply Forall_fmap, Forall_forall. intros i Hi%elem_of_seq. simpl.
  rewrite length_take, length_drop, Hlen. nia.
Qed.

Lemma block_bytes_bounds k len : 1 <= k → 0 <= len → len <= (len + k - 1) / k * k.
Proof. intros Hk Hl. pose proof (Z.div_mod (len + k - 1) k). pose proof (Z.mod_pos_bound (len + k - 1) k). lia. Qed.

(** The blocks of a payload are [k] of one size, and the payload starts their
    concatenation. *)
Lemma blocks_of_spec k payload :
  1 <= k →
  zlen (blocks_of k payload) = k ∧
  Forall (λ b, length b = Z.to_nat ((zlen payload + k - 1) / k)) (blocks_of k payload) ∧
  py_prefix (zlen payload) (concat (blocks_of k payload)) = payload.
Proof.
  intros Hk. set (m := Z.to_nat ((zlen payload + k - 1) / k)). pose proof (block_bytes_bounds k (zlen payload) Hk ltac:(lia)) as Hb.
  assert (0 <= (zlen payload + k - 1) / k) as Hm0 by (apply Z.div_pos; lia).
  set (padded := payload ++ replicate (Z.to_nat ((zlen payload + k - 1) / k * k - zlen payload)) x00).
  assert (length padded = (Z.to_nat k * m)%nat) as Hlen.
  { unfold padded, m. rewrite length_app, length_replicate. nia. }
  assert (blocks_of k payload = pieces m 0 (Z.to_nat k) padded) as Hbl.
  { unfold blocks_of. fold padded. rewrite <-(slices_pieces m k padded). unfold m. by rewrite Z2Nat.id. }
  rewrite Hbl. split_and!.
  - unfold pieces. rewrite length_fmap, length_seq. lia.
  - by apply pieces_size.
  - rewrite concat_pieces. rewrite Nat.mul_0_l, drop_0, take_ge by lia.
    unfold py_prefix. replace (zlen payload <? 0) with false by lia. rewrite Nat2Z.id.
    unfold padded. by rewrite take_app_length.
Qed.

(** ** Checking the supplied shards *)

(** In range, and with the digest it names. *)
Definition sound_shard (n : Z) (s : ErasureShard) : Prop :=
  0 <= es_index s < n ∧ sha256_hex (es_data s) = es_sha256 s.

Lemma shard_verify_Ok s : shard_verify s = Ok tt ↔ sha256_hex (es_data s) = es_sha256 s.
Proof. unfold shard_verify. rewrite raise_if_Ok, negb_false_iff. apply bool_decide_eq_true. Qed.

Lemma check_shard_Ok n d s d' :
  check_shard n d s = Ok d' ↔
  sound_shard n s ∧ (es_index s ∉ dict_keys d) ∧ d' = d ++ [(es_index s, s)].
Proof.
  unfold check_shard, sound_shard. split.
  - intros Hc. apply bind_Ok_inv in Hc as ([] & Hr%raise_if_Ok & Hc).
    apply bind_Ok_inv in Hc as ([] & Hd%raise_if_Ok & Hc).
    apply bind_Ok_inv in Hc as ([] & Hv%shard_verify_Ok & [= <-]).
    apply dict_mem_false, dict_get_None in Hd. rewrite dict_set_fresh by done. split_and!; [lia | lia | done..].
  - intros ([Hr Hv%shard_verify_Ok] & Hd & ->). replace (_ || _) with false by lia.
    replace (dict_mem (es_index s) d) with false by (symmetry; by apply dict_mem_false, dict_get_None).
    simpl. rewrite Hv. simpl. by rewrite dict_set_fresh.
Qed.

(** The loop accepts exactly sound shards of distinct indices. *)
Lemma check_shards_Ok n shards d d' :
  result_foldM (check_shard n) d shards = Ok d' ↔
  Forall (sound_shard n) shards ∧ NoDup (es_index <$> shards) ∧
  (∀ s, s ∈ shards → es_index s ∉ dict_keys d) ∧ d' = d ++ ((λ s, (es_index s, s)) <$> shards).
Proof.
  revert d. induction shards as [|s shards IH]; intros d.
  - cbn. rewrite app_nil_r. split; [intros [= <-]; split_and!; [done | constructor | set_solver | done]|].
    by intros (_ & _ & _ & ->).
  - cbn [result_foldM]. rewrite fmap_cons, Forall_cons, NoDup_cons. split.
    + intros Hc. apply bind_Ok_inv in Hc as (d1 & (Hs & Hk & ->)%check_shard_Ok & (Hss & Hnd & Hd & ->)%IH).
      split_and!; try done.
      * intros (s' & Heq & Hin)%list_elem_of_fmap. apply (Hd s' Hin).
        unfold dict_keys. rewrite fmap_app, elem_of_app. right. simpl. rewrite Heq. left.
      * intros s' [->|Hin]%elem_of_cons; [done|]. intros Hkd. apply (Hd s' Hin).
        unfold dict_keys. rewrite fmap_app, elem_of_app. by left.
      * cbn [fmap list_fmap]. by rewrite <-app_assoc.
    + intros ((Hs & Hss) & (Hn & Hnd) & Hd & ->).
      assert (check_shard n d s = Ok (d ++ [(es_index s, s)])) as ->.
      { apply check_shard_Ok. split_and!; [done | apply Hd; left | done]. }
      cbn [mbind result_bind]. apply IH. split_and!; [done | done | | cbn [fmap list_fmap]; by rewrite <-app_assoc].
      intros s' Hin. unfold dict_keys. rewrite fmap_app, elem_of_app. intros [Hk|Hk].
      * revert Hk. apply Hd. by right.
      * simpl in Hk. apply list_elem_of_singleton in Hk. apply Hn. rewrite <-Hk. by apply list_elem_of_fmap_2.
Qed.

Lemma check_shards_values n shards d' :
  result_foldM (check_shard n) [] shards = Ok d' → dict_values d' = shards ∧ zlen d' = zlen shards.
Proof.
  intros (_ & _ & _ & ->)%check_shards_Ok. rewrite app_nil_l. unfold dict_values. rewrite length_fmap.
  split; [|done]. rewrite <-list_fmap_compose. apply list_fmap_id.
Qed.

(** ** Any [k] shards *)

Section Theorems.
Context `{ZfecLaws}.

Lemma erasure_encode_bad payload k n : ¬ (1 <= k <= n ∧ n <= 256) → erasure_encode payload k n = Err ErasureError.
Proof. intros Hb. unfold erasure_encode. by rewrite validate_params_Err. Qed.

(** What encoding a nonempty payload returns. *)
Lemma erasure_encode_Ok payload k n :
  1 <= k <= n → n <= 256 → payload ≠ [] →
  ∃ shares, zfec_encode k n (blocks_of k payload) = Ok shares ∧ zlen shares = n ∧
    erasure_encode payload k n = Ok (metadata_of k n payload, imap (λ i d, shard_of (Z.of_nat i) d) shares).
Proof.
  intros Hk Hn Hne. destruct (blocks_of_spec k payload) as (Hl & Hs & _); [lia|].
  destruct (zfec_encode_Ok k n (Z.to_nat ((zlen payload + k - 1) / k)) (blocks_of k payload)) as (shares & Henc & Hlen & _); [done|].
  exists shares. split_and!; [done..|]. unfold erasure_encode.
  rewrite (proj2 (validate_params_Ok k n)) by done. destruct payload as [|b payload]; [done|].
  cbn [mbind result_bind]. rewrite Henc. cbn [mbind result_bind].
  assert (result_mapM (λ i, data ← of_option IndexError (shares !! Z.to_nat i); Ok (shard_of i data)) (seqZ 0 n) =
            Ok (imap (λ i d, shard_of (Z.of_nat i) d) shares)) as ->; [|done].
  apply result_mapM_Forall2, Forall2_same_length_lookup. split; [rewrite length_imap, length_seqZ; lia|].
  intros i z s Hz Hs'. apply lookup_seqZ in Hz as [-> _]. rewrite list_lookup_imap in Hs'. rewrite Z.add_0_l, Nat2Z.id.
  destruct (shares !! i) as [d|]; [|done]. simpl in *. congruence.
Qed.

(** Whatever is supplied, a payload that decoding returns has the digest of the
    metadata, and came from enough sound shards. *)
Lemma erasure_decode_sound meta shards p :
  erasure_decode meta shards = Ok p → em_payload_bytes meta ≠ 0 →
  (1 <= em_k meta <= em_n meta ∧ em_n meta <= 256) ∧ Forall (sound_shard (em_n meta)) shards ∧
  NoDup (es_index <$> shards) ∧ em_k meta <= zlen shards ∧ sha256_hex p = em_payload_sha256 meta.
Proof.
  unfold erasure_decode. intros Hd Hne. replace (em_payload_bytes meta =? 0) with false in Hd by lia.
  apply bind_Ok_inv in Hd as ([] & Hv%validate_params_Ok & Hd).
  apply bind_Ok_inv in Hd as (by_index & Hc & Hd). apply check_shards_values in Hc as Hl.
  apply check_shards_Ok in Hc as (Hs & Hnd & _). apply bind_Ok_inv in Hd as ([] & Hk%raise_if_Ok & Hd).
  apply bind_Ok_inv in Hd as (blocks & _ & Hd). apply bind_Ok_inv in Hd as ([] & Hsha%raise_if_Ok & [= <-]).
  apply negb_false_iff, bool_decide_eq_true in Hsha. split_and!; try done; lia.
Qed.

(** Fewer than [k] sound shards are refused. *)
Lemma erasure_decode_insufficient meta shards :
  em_payload_bytes meta ≠ 0 → 1 <= em_k meta <= em_n meta → em_n meta <= 256 →
  Forall (sound_shard (em_n meta)) shards → NoDup (es_index <$> shards) → zlen shards < em_k meta →
  erasure_decode meta shards = Err InsufficientShardsError.
Proof.
  intros Hne Hk Hn Hs Hnd Hlt. unfold erasure_decode. replace (em_payload_bytes meta =? 0) with false by lia.
  rewrite (proj2 (validate_params_Ok _ _)) by done. cbn [mbind result_bind].
  assert (result_foldM (check_shard (em_n meta)) [] shards = Ok ((λ s, (es_index s, s)) <$> shards)) as ->.
  { apply check_shards_Ok. split_and!; [done..|set_solver | done]. }
  cbn [mbind result_bind]. rewrite length_fmap. by replace (zlen shards <? em_k meta) with true by lia.
Qed.

(** Enough sound shards are decoded, the [k] of lowest index. *)
Lemma erasure_decode_enough meta shards blocks :
  em_payload_bytes meta ≠ 0 → 1 <= em_k meta <= em_n meta → em_n meta <= 256 →
  Forall (sound_shard (em_n meta)) shards → NoDup (es_index <$> shards) → em_k meta <= zlen shards →
  (let picked := take (Z.to_nat (em_k meta)) (sort_by index_leb shards) in
   zfec_decode (em_k meta) (em_n meta) (es_data <$> picked) (es_index <$> picked) = Ok blocks) →
  sha256_hex (py_prefix (em_payload_bytes meta) (concat blocks)) = em_payload_sha256 meta →
  erasure_decode meta shards = Ok (py_prefix (em_payload_bytes meta) (concat blocks)).
Proof.
  intros Hne Hk Hn Hs Hnd Hle Hdec Hsha. unfold erasure_decode.
  replace (em_payload_bytes meta =? 0) with false by lia.
  rewrite (proj2 (validate_params_Ok _ _)) by done. cbn [mbind result_bind].
  assert (result_foldM (check_shard (em_n meta)) [] shards = Ok ((λ s, (es_index s, s)) <$> shards)) as Hc
    by (apply check_shards_Ok; split_and!; [done..|set_solver | done]).
  apply check_shards_values in Hc as Hv. rewrite Hc. cbn [mbind result_bind]. destruct Hv as [-> ->].
  replace (zlen shards <? em_k meta) with false by lia. cbn [raise_if mbind result_bind].
  rewrite Hdec. cbn [mbind result_bind]. by rewrite bool_decide_true.
Qed.

(** The shards of one encoding, picked for decoding. *)
Lemma picked_shards (shards : list ErasureShard) sub k :
  sub ⊆ shards → NoDup (es_index <$> sub) → (k <= length sub)%nat →
  let picked := take k (sort_by index_leb sub) in
  length picked = k ∧ NoDup (es_index <$> picked) ∧ picked ⊆ shards.
Proof.
  intros Hsub Hnd Hk picked. split_and!.
  - unfold picked. rewrite length_take, sort_by_length. lia.
  - unfold picked. rewrite fmap_take. eapply sublist_NoDup; [|apply sublist_take]. by rewrite sort_by_perm.
  - intros s Hin. apply Hsub. apply (elem_of_sort_by index_leb). eapply elem_of_submseteq; [exact Hin|].
    apply sublist_submseteq, sublist_take.
Qed.

(** Erasure coding.  A nonempty payload with 1 <= k <= n <= 256 is encoded into
    [n] shards, numbered 0 to n - 1, each with its own digest.  Any selection of
    them with distinct indices, in any order, decodes to exactly the payload when
    it has [k] shards or more, and raises InsufficientShardsError when it has fewer:
    [n - k] losses are survived and no more are guessed at. *)
Lemma erasure_any_k payload k n :
  1 <= k <= n → n <= 256 → payload ≠ [] →
  ∃ meta shards, erasure_encode payload k n = Ok (meta, shards) ∧
    es_index <$> shards = seqZ 0 n ∧ Forall (sound_shard n) shards ∧
    (∀ sub, sub ⊆ shards → NoDup (es_index <$> sub) →
       erasure_decode meta sub = if k <=? zlen sub then Ok payload else Err InsufficientShardsError).
Proof.
  intros Hk Hn Hne. destruct (erasure_encode_Ok payload k n Hk Hn Hne) as (shares & Henc & Hlen & Hok).
  set (shards := imap (λ i d, shard_of (Z.of_nat i) d) shares) in Hok.
  assert (∀ s, s ∈ shards → sound_shard n s ∧ shares !! Z.to_nat (es_index s) = Some (es_data s)) as Hshards.
  { intros s (i & Hi)%list_elem_of_lookup. unfold shards in Hi. rewrite list_lookup_imap in Hi.
    destruct (shares !! i) as [d|] eqn:Hd; [|done]. simpl in Hi. injection Hi as <-. apply lookup_lt_Some in Hd as Hlt.
    unfold sound_shard. simpl. rewrite Nat2Z.id. split_and!; [lia | lia | done..]. }
  exists (metadata_of k n payload), shards. split; [done|]. split_and!.
  - unfold shards. apply list_eq. intros i. rewrite list_lookup_fmap, list_lookup_imap.
    destruct (shares !! i) as [d|] eqn:Hd; simpl.
    + apply lookup_lt_Some in Hd. by rewrite lookup_seqZ_lt by lia.
    + apply lookup_ge_None in Hd. by rewrite lookup_seqZ_ge by lia.
  - apply Forall_forall. intros s Hs. by apply Hshards.
  - intros sub Hsub Hnd. assert (em_payload_bytes (metadata_of k n payload) ≠ 0) as Hpb by (destruct payload; [done | simpl; lia]).
    assert (Forall (sound_shard n) sub) as Hss by (apply Forall_forall; intros s Hin; by apply Hshards, Hsub).
    destruct (Z.leb_spec k (zlen sub)) as [Hle|Hlt]; [|by apply erasure_decode_insufficient].
    destruct (picked_shards shards sub (Z.to_nat k) Hsub Hnd ltac:(lia)) as (Hpl & Hpnd & Hps).
    destruct (blocks_of_spec k payload) as (Hbl & Hbs & Hpre); [lia|].
    rewrite (erasure_decode_enough _ sub (blocks_of k payload));
      [exact (f_equal Ok Hpre) | done.. | | exact (f_equal sha256_hex Hpre)].
    cbn zeta. change (em_k (metadata_of k n payload)) with k. change (em_n (metadata_of k n payload)) with n.
    apply (zfec_any_k k n (Z.to_nat ((zlen payload + k - 1) / k)) (blocks_of k payload) shares);
      [done..|rewrite length_fmap, Hpl; lia | done|].
    apply Forall2_fmap, Forall_Forall2_diag, Forall_forall. intros s Hin.
    destruct (Hshards s (Hps s Hin)) as [[[? _] _] ?]. done.
Qed.
End Theorems.

(** ** Two of three, executed *)

Import ReedSolomon.

Definition payload0 : bytes := utf8 "PRSM!".
Definition coded0 : ErasureMetadata * list ErasureShard :=
  Eval vm_compute in match erasure_encode payload0 2 3 with Ok r => r | Err _ => (metadata_of 2 3 [], []) end.

Definition survivors0 : list ErasureShard := reverse (drop 1 coded0.2).

Lemma rev_drop_subseteq {A} n (l : list A) : reverse (drop n l) ⊆ l.
Proof. intros x. rewrite elem_of_reverse. apply subseteq_drop. Qed.

Lemma survivors0_coded : survivors0 ⊆ coded0.2.
Proof. unfold survivors0. apply rev_drop_subseteq. Qed.

Lemma survivors0_enough : (2 <=? zlen survivors0) = true.
Proof. reflexivity. Qed.

Lemma survivors0_NoDup : NoDup (es_index <$> survivors0).
Proof. change (NoDup [2; 1]). apply NoDup_cons. split; [set_solver | apply NoDup_singleton]. Qed.

Lemma coded0_encode : erasure_encode payload0 2 3 = Ok coded0.
Proof. vm_compute. reflexivity. Qed.

Lemma erasure_any_k_run :
  erasure_encode payload0 2 3 = Ok coded0 ∧ erasure_decode coded0.1 survivors0 = Ok payload0.
Proof.
  destruct (erasure_any_k payload0 2 3 ltac:(split; discriminate) ltac:(discriminate) ltac:(discriminate))
    as (meta & shards & He & _ & _ & Hdec).
  split; [exact coded0_encode|]. rewrite coded0_encode in He.
  pose proof (f_equal (λ r, match r with Ok x => x | Err _ => coded0 end) He : coded0 = (meta, shards)) as E.
  rewrite (surjective_pairing coded0) in E. injection E as <- <-.
  specialize (Hdec survivors0 survivors0_coded survivors0_NoDup). rewrite survivors0_enough in Hdec. exact Hdec.
Defined.

(** An empty payload has no shards, and what is decoded for its metadata is not
    compared with the digest. *)
Lemma empty_payload_unchecked :
  erasure_decode {| em_k := 2; em_n := 3; em_payload_bytes := 0; em_shard_bytes := 0; em_payload_sha256 := "00" |} [] = Ok [].
Proof. reflexivity. Qed.
