(* ===== verification/ManifestJson.v ===== *)
(** * Shard manifests as text

    Models [to_json] and [from_json] of [ShardManifest] (prsm/storage/models.py) and
    the strict UTF-8 decoding of the decrypted bytes.

    [from_json] stores total_size, shard_size, created_at, replication_factor,
    owner_node_id, visibility and the values of erasure_params as they come, whatever
    their type.  The model has values only for the types the dataclass declares; the
    exception [Untyped] stands for a manifest that the code accepts with another type
    in one of these places, or that has a float for an enum.  Nothing that [to_json] writes leads there. *)
From Stdlib Require Import ZArith Lia.
From S2P Require Import PyStd.
From S2P Require Import StorageModels.
From S2P Require Import PyJson.
From S2P Require Import Prelude.

#[local] Open Scope string_scope.
#[local] Open Scope list_scope.
#[local] Open Scope Z_scope.

(** ** Writing *)

Definition sharding_mode_int (m : ShardingMode) : Z := match m with REPLICATION => 0 | ERASURE => 1 end.

Definition erasure_params_json (p : ErasureParams) : jtext :=
  TObj [("k", TInt (ep_k p)); ("n", TInt (ep_n p)); ("payload_bytes", TInt (ep_payload_bytes p));
        ("shard_bytes", TInt (ep_shard_bytes p)); ("payload_sha256", TStr (ep_payload_sha256 p))].

Definition manifest_body (m : ShardManifest) : list (string * jtext) :=
  [("content_hash", TStr (content_hash_hex (sm_content_hash m)));
   ("shard_hashes", TArr ((λ sh, TStr (content_hash_hex sh)) <$> sm_shard_hashes m));
   ("total_size", TInt (sm_total_size m));
   ("shard_size", TInt (sm_shard_size m));
   ("algorithm_id", TInt (algorithm_int (sm_algorithm_id m)));
   ("created_at", TFloat (sm_created_at m));
   ("replication_factor", TInt (sm_replication_factor m));
   ("owner_node_id", TStr (sm_owner_node_id m));
   ("visibility", TStr (sm_visibility m))] ++
  match sm_sharding_mode m with
  | REPLICATION => []
  | mode => [("sharding_mode", TInt (sharding_mode_int mode))]
  end ++
  match sm_erasure_params m with
  | None => []
  | Some p => [("erasure_params", erasure_params_json p)]
  end.

Definition to_json (m : ShardManifest) : string := dumps (TObj (manifest_body m)).

(** ** Reading *)

(** [data[key]] *)
Definition field (data : dict string jtext) (key : string) : result jtext :=
  of_option KeyError (dict_get key data).

(** [ContentHash.from_hex(v)]: a value that is not a [str] fails on [len] or [int]. *)
Definition hash_of_value (v : jtext) : result ContentHash :=
  match v with TStr s => content_hash_from_hex s | _ => Err TypeError end.

(** [AlgorithmID(v)] and [ShardingMode(v)]: booleans are the integers 0 and 1. *)
Definition enum_value {A} (of_int : Z → option A) (v : jtext) : result A :=
  match v with
  | TInt z => of_option ValueError (of_int z)
  | TBool b => of_option ValueError (of_int (Z.b2z b))
  | TFloat _ => Err Untyped
  | _ => Err ValueError
  end.

Definition sharding_mode_of_int (z : Z) : option ShardingMode :=
  if z =? 0 then Some REPLICATION else if z =? 1 then Some ERASURE else None.


Definition ERASURE_KEYS : list string := ["k"; "n"; "payload_bytes"; "shard_bytes"; "payload_sha256"].

(** The keyword arguments of the [ErasureParams] constructor: exactly its five. *)
Definition erasure_args (v : jtext) : result (list jtext) :=
  match v with
  | TObj o =>
      _ ← raise_if (negb (forallb (λ k, bool_decide (k ∈ ERASURE_KEYS)) (dict_keys o))) TypeError;
      result_mapM (λ k, of_option TypeError (dict_get k o)) ERASURE_KEYS
  | _ => Err TypeError
  end.

Definition typed_erasure_params (args : list jtext) : result ErasureParams :=
  match args with
  | [k; n; payload_bytes; shard_bytes; payload_sha256] =>
      k ← typed_int k; n ← typed_int n;
      payload_bytes ← typed_int payload_bytes; shard_bytes ← typed_int shard_bytes;
      payload_sha256 ← typed_str payload_sha256;
      Ok {| ep_k := k; ep_n := n; ep_payload_bytes := payload_bytes; ep_shard_bytes := shard_bytes;
            ep_payload_sha256 := payload_sha256 |}
  | _ => Err TypeError
  end.

(** [data.get("erasure_params")] and its constructor call *)
Definition erasure_raw (data : dict string jtext) : result (option (list jtext)) :=
  match dict_get "erasure_params" data with
  | None | Some TNull => Ok None
  | Some v => args ← erasure_args v; Ok (Some args)
  end.

(** The body of the second [try]; what it refuses it refuses before types matter. *)
Definition manifest_of_fields (data : dict string jtext) : result ShardManifest :=
  erasure ← erasure_raw data;
  mode ← enum_value sharding_mode_of_int (default (TInt 0) (dict_get "sharding_mode" data));
  content_hash ← field data "content_hash" ≫= hash_of_value;
  shard_hashes ← (v ← field data "shard_hashes"; l ← iter_jtext v; result_mapM hash_of_value l);
  total_size ← field data "total_size";
  shard_size ← field data "shard_size";
  algorithm_id ← field data "algorithm_id" ≫= enum_value algorithm_of_int;
  created_at ← field data "created_at";
  replication_factor ← field data "replication_factor";
  owner_node_id ← field data "owner_node_id";
  let visibility := default (TStr "public") (dict_get "visibility" data) in
  total_size ← typed_int total_size;
  shard_size ← typed_int shard_size;
  created_at ← typed_float created_at;
  replication_factor ← typed_int replication_factor;
  owner_node_id ← typed_str owner_node_id;
  visibility ← typed_str visibility;
  erasure_params ← match erasure with
                   | None => Ok None
                   | Some args => p ← typed_erasure_params args; Ok (Some p)
                   end;
  Ok {| sm_content_hash := content_hash; sm_shard_hashes := shard_hashes; sm_total_size := total_size;
        sm_shard_size := shard_size; sm_algorithm_id := algorithm_id; sm_created_at := created_at;
        sm_replication_factor := replication_factor; sm_owner_node_id := owner_node_id;
        sm_visibility := visibility; sm_sharding_mode := mode; sm_erasure_params := erasure_params |}.

Definition is_field_error (e : exn) : bool :=
  match e with KeyError | TypeError => true | _ => is_value_error e end.

(** A text that is not an object has no [get]. *)
Definition from_json (json_str : string) : result ShardManifest :=
  data ← rethrow (λ e, bool_decide (e = JSONDecodeError)) ManifestError (loads json_str);
  match data with
  | TObj o => rethrow is_field_error ManifestError (manifest_of_fields o)
  | _ => Err AttributeError
  end.

(** ** Strict UTF-8 *)

Definition continues (b : byte) : bool := (128 <=? b2z b) && (b2z b <? 192).

(** Well-formed sequences: no overlong form, no surrogate, nothing above U+10FFFF. *)
Fixpoint utf8_valid (b : bytes) : bool :=
  match b with
  | [] => true
  | x :: b1 =>
      let n := b2z x in
      if n <? 128 then utf8_valid b1
      else
        match b1 with
        | y :: b2 =>
            if (194 <=? n) && (n <? 224) then continues y && utf8_valid b2
            else
              match b2 with
              | z :: b3 =>
                  if (224 <=? n) && (n <? 240) then
                    continues y && continues z && (negb (n =? 224) || (160 <=? b2z y)) &&
                    (negb (n =? 237) || (b2z y <? 160)) && utf8_valid b3
                  else
                    match b3 with
                    | u :: b4 =>
                        (240 <=? n) && (n <=? 244) && continues y && continues z && continues u &&
                        (negb (n =? 240) || (144 <=? b2z y)) && (negb (n =? 244) || (b2z y <? 144)) &&
                        utf8_valid b4
                    | [] => false
                    end
              | [] => false
              end
        | [] => false
        end
  end.

(** [b.decode("utf-8")] *)
Definition utf8_decode (b : bytes) : result string :=
  if utf8_valid b then Ok (string_of_list_byte b) else Err UnicodeDecodeError.

(** ** The round trip *)

(** The text fields are ASCII, the time stamp is the text of a float, and every digest
    has bytes in it. *)
Definition manifest_ok (m : ShardManifest) : bool :=
  ascii_str (sm_owner_node_id m) && ascii_str (sm_visibility m) && float_token (sm_created_at m) &&
  forallb (λ h, negb (bool_decide (ch_digest h = []))) (sm_content_hash m :: sm_shard_hashes m) &&
  match sm_erasure_params m with Some p => ascii_str (ep_payload_sha256 p) | None => true end.

Lemma ascii_hex_digit z : 0 <= z < 16 → ascii_char (hex_digit z) = true.
Proof.
  intros Hz. unfold ascii_char, code, hex_digit. destruct (z <? 10) eqn:?;
    rewrite N_ascii_embedding, ?Z2N.id by lia; lia.
Qed.

Lemma ascii_hex b : ascii_str (hex b) = true.
Proof.
  induction b as [|x b IH]; [done|]. pose proof (b2z_range x). cbn [hex ascii_str]. rewrite IH.
  rewrite !ascii_hex_digit; [done | apply Z.mod_pos_bound; lia |].
  split; [apply Z.div_pos; lia | apply Z.div_lt_upper_bound; lia].
Qed.

Lemma ascii_content_hash h : ascii_str (content_hash_hex h) = true.
Proof. unfold content_hash_hex. by rewrite ascii_str_app, !ascii_hex. Qed.

Lemma body_ok m : manifest_ok m = true → json_ok (TObj (manifest_body m)) = true.
Proof.
  unfold manifest_ok. rewrite !andb_true_iff. intros ((((Ho & Hv) & Hf) & _) & Hp).
  assert (forallb json_ok ((λ sh, TStr (content_hash_hex sh)) <$> sm_shard_hashes m) = true) as Hl.
  { induction (sm_shard_hashes m) as [|h l IH]; [done|]. cbn [fmap list_fmap forallb json_ok].
    by rewrite ascii_content_hash. }
  cbn [json_ok]. apply andb_true_iff. split.
  - unfold manifest_body. rewrite !forallb_app. cbn [forallb fst snd json_ok].
    rewrite ascii_content_hash, Hl, Ho, Hv, Hf. cbn -[forallb].
    destruct (sm_sharding_mode m), (sm_erasure_params m) as [p|]; cbn -[ascii_str]; by rewrite ?Hp.
  - apply bool_decide_eq_true. unfold manifest_body.
    destruct (sm_sharding_mode m), (sm_erasure_params m) as [p|]; cbn [app fmap list_fmap fst];
      by apply (bool_decide_unpack _), I.
Qed.

(** A hash with a digest is read back. *)
Lemma hash_of_value_hex h : ch_digest h ≠ [] → hash_of_value (TStr (content_hash_hex h)) = Ok h.
Proof. apply content_hash_roundtrip. Qed.

(** Where the fields are found. *)
Lemma body_fields m :
  let get := field (manifest_body m) in
  get "content_hash" = Ok (TStr (content_hash_hex (sm_content_hash m))) ∧
  get "shard_hashes" = Ok (TArr ((λ sh, TStr (content_hash_hex sh)) <$> sm_shard_hashes m)) ∧
  get "total_size" = Ok (TInt (sm_total_size m)) ∧ get "shard_size" = Ok (TInt (sm_shard_size m)) ∧
  get "algorithm_id" = Ok (TInt (algorithm_int (sm_algorithm_id m))) ∧
  get "created_at" = Ok (TFloat (sm_created_at m)) ∧
  get "replication_factor" = Ok (TInt (sm_replication_factor m)) ∧
  get "owner_node_id" = Ok (TStr (sm_owner_node_id m)).
Proof. split_and!; reflexivity. Qed.

Lemma body_mode m :
  enum_value sharding_mode_of_int (default (TInt 0) (dict_get "sharding_mode" (manifest_body m))) = Ok (sm_sharding_mode m).
Proof. destruct m as [ch hs ts ss alg ca rf own vis [] [p|]]; reflexivity. Qed.

Lemma body_visibility m : dict_get "visibility" (manifest_body m) = Some (TStr (sm_visibility m)).
Proof. reflexivity. Qed.

Definition params_args (p : ErasureParams) : list jtext :=
  [TInt (ep_k p); TInt (ep_n p); TInt (ep_payload_bytes p); TInt (ep_shard_bytes p); TStr (ep_payload_sha256 p)].

Lemma body_erasure m : erasure_raw (manifest_body m) = Ok (params_args <$> sm_erasure_params m).
Proof. destruct m as [ch hs ts ss alg ca rf own vis [] [p|]]; reflexivity. Qed.

Lemma fields_ok m : manifest_ok m = true → manifest_of_fields (manifest_body m) = Ok m.
Proof.
  unfold manifest_ok. rewrite !andb_true_iff. intros ((_ & Hh) & _). cbn [forallb] in Hh.
  apply andb_true_iff in Hh as [Hc Hl]. apply negb_true_iff, bool_decide_eq_false in Hc.
  assert (result_mapM hash_of_value ((λ sh, TStr (content_hash_hex sh)) <$> sm_shard_hashes m) = Ok (sm_shard_hashes m)) as Hm.
  { revert Hl. induction (sm_shard_hashes m) as [|h l IH]; intros Hl; [done|]. cbn [forallb] in Hl.
    apply andb_true_iff in Hl as [Hh%negb_true_iff%bool_decide_eq_false Hl]. cbn [fmap list_fmap result_mapM].
    rewrite hash_of_value_hex by done. cbn [mbind result_bind]. by rewrite IH. }
  unfold manifest_of_fields. rewrite body_erasure, body_mode, body_visibility.
  destruct (body_fields m) as (-> & -> & -> & -> & -> & -> & -> & ->).
  cbn [mbind result_bind iter_jtext default]. rewrite hash_of_value_hex by done. cbn [mbind result_bind].
  rewrite Hm. cbn [mbind result_bind enum_value]. rewrite algorithm_of_to.
  cbn [of_option mbind result_bind typed_int typed_float typed_str].
  destruct m as [ch hs ts ss alg ca rf own vis mode [[k n pb sb sha]|]]; reflexivity.
Qed.

(** What was written is read back as it was. *)
Lemma manifest_json_roundtrip m : manifest_ok m = true → from_json (to_json m) = Ok m.
Proof.
  intros Hok. unfold from_json, to_json. rewrite loads_dumps by by apply body_ok. cbn [rethrow mbind result_bind].
  by rewrite fields_ok.
Qed.

Lemma utf8_valid_ascii s : ascii_str s = true → utf8_valid (utf8 s) = true.
Proof.
  induction s as [|c s IH]; [done|]. cbn [ascii_str]. intros [Hc Hs]%andb_true_iff.
  change (utf8 (String c s)) with (byte_of_ascii c :: utf8 s). cbn [utf8_valid]. cbn zeta.
  assert ((b2z (byte_of_ascii c) <? 128) = true) as ->; [|by apply IH].
  clear -Hc. destruct c as [[] [] [] [] [] [] [] []]; first [discriminate Hc | reflexivity].
Qed.

(** The bytes of a manifest, and the manifest of the bytes. *)
Lemma manifest_bytes_roundtrip m :
  manifest_ok m = true → (utf8_decode (utf8 (to_json m)) ≫= from_json) = Ok m.
Proof.
  intros Hok. unfold utf8_decode. rewrite utf8_valid_ascii by by apply ascii_dumps, body_ok.
  unfold utf8. rewrite string_of_list_byte_of_string. by apply manifest_json_roundtrip.
Qed.
