(* ===== verification/BlobStore.v ===== *)
(** * The blob store

    Models prsm/storage/blob_store.py: content-addressed files under a root
    directory, over the effects of a file system.  A write replaces the whole file
    or fails and leaves it; a file that is present can be read. *)
From Stdlib Require Import ZArith Lia.
From S2P Require Import PyStd.
From S2P Require Import Effects.
From S2P Require Import StorageModels.
From S2P Require Import PyJson.
From S2P Require Import Prelude.

#[local] Open Scope string_scope.
#[local] Open Scope list_scope.
#[local] Open Scope Z_scope.

(** ** Effects *)

Inductive storage_request : Type :=
| FileExists (path : string)
| WriteFile (path : string) (data : bytes)   (* makedirs, mkstemp, write, os.replace *)
| ReadFile (path : string)
| Unlink (path : string)
| Clock                                       (* time.time(), as the text of its repr *)
| Urandom (n : nat)
| Draws.                                      (* the secrets.randbelow(256) of one sharing *)

Definition storage_response (r : storage_request) : Type :=
  match r with
  | FileExists _ => bool
  | WriteFile _ _ => result unit
  | ReadFile _ => result bytes
  | Unlink _ => result bool                      (* false: FileNotFoundError *)
  | Clock => string
  | Urandom _ => bytes
  | Draws => nat → nat → Z
  end.

Canonical Structure storage : signature := {| request := storage_request; response := storage_response |}.

(** The files under the root directory. *)
Abbreviation Disk := (gmap string bytes).

(** The file system; writes and deletions can fail only when [faulty]. *)
Definition disk_exec (faulty : Prop) (r : storage_request) (w : Disk) (x : storage_response r) (w' : Disk) : Prop :=
  match r return storage_response r → Prop with
  | FileExists p => λ b, b = bool_decide (is_Some (w !! p)) ∧ w' = w
  | WriteFile p d => λ res, (res = Ok tt ∧ w' = <[p := d]> w) ∨ (faulty ∧ ∃ e, res = Err e ∧ w' = w)
  | ReadFile p => λ res, res = of_option OSError (w !! p) ∧ w' = w
  | Unlink p => λ res, (res = Ok (bool_decide (is_Some (w !! p))) ∧ w' = delete p w) ∨ (faulty ∧ ∃ e, res = Err e ∧ w' = w)
  | Clock => λ now, float_token now = true ∧ w' = w
  | Urandom n => λ b, length b = n ∧ w' = w
  | Draws => λ rnd, (∀ i j, 0 <= rnd i j < 256) ∧ w' = w
  end x.

(** ** Paths *)

Fixpoint last_is_slash (s : string) : bool :=
  match s with
  | "" => false
  | String c "" => bool_decide (c = "/"%char)
  | String _ s' => last_is_slash s'
  end.

(** [os.path.join(a, b)] *)
Definition os_path_join (a b : string) : string :=
  if String.prefix "/" b then b
  else if bool_decide (a = "") || last_is_slash a then a +:+ b else a +:+ "/" +:+ b.

Section BlobStore.
Variable data_dir : string.

Definition path_for (content_hash : ContentHash) : string :=
  let digest_hex := hex (ch_digest content_hash) in
  os_path_join (os_path_join data_dir (stake 2 digest_hex)) (content_hash_hex content_hash).

(** ** Operations *)

Context {S : Type}.

Definition blob_store (data : bytes) : M storage S ContentHash :=
  content_hash ← lift (from_data data SHA256);
  let dest_path := path_for content_hash in
  present ← perform (E := storage) (FileExists dest_path);
  if (present : bool) then mret content_hash
  else r ← perform (E := storage) (WriteFile dest_path data); _ ← lift r; mret content_hash.

Definition blob_retrieve (content_hash : ContentHash) : M storage S bytes :=
  let path := path_for content_hash in
  present ← perform (E := storage) (FileExists path);
  if (present : bool) then r ← perform (E := storage) (ReadFile path); lift r
  else raise ContentNotFoundError.

Definition blob_exists (content_hash : ContentHash) : M storage S bool :=
  perform (E := storage) (FileExists (path_for content_hash)).

(** A missing file is not an error. *)
Definition blob_delete (content_hash : ContentHash) : M storage S unit :=
  r ← perform (E := storage) (Unlink (path_for content_hash)); _ ← lift r; mret ().
End BlobStore.

(** ** Paths are injective *)

Lemma hex_no_slash b : String.prefix "/" (hex b) = false.
Proof.
  destruct b as [|x b]; [done|]. cbn [hex String.prefix].
  destruct (hex_val_digit (b2z x / 16)) as [Hv _].
  { pose proof (b2z_range x). split; [apply Z.div_pos; lia | apply Z.div_lt_upper_bound; lia]. }
  destruct (ascii_dec "/" (hex_digit (b2z x / 16))) as [Heq|]; [|done]. by rewrite <-Heq in Hv.
Qed.

Lemma last_slash_snoc a c : last_is_slash (a +:+ String c "") = bool_decide (c = "/"%char).
Proof.
  induction a as [|c' a IH]; [done|]. change (String c' a +:+ String c "") with (String c' (a +:+ String c "")).
  cbn [last_is_slash]. rewrite IH. by destruct a.
Qed.

Lemma app_nil_string s : (s +:+ "") = s.
Proof.
  induction s as [|c s IH]; [done|]. change (String c s +:+ "") with (String c (s +:+ "")). by rewrite IH.
Qed.

Lemma app_cancel_l s t u : s +:+ t = s +:+ u → t = u.
Proof. apply (inj (String.append s)). Qed.

(** The directory part that [os_path_join a] puts before a relative path. *)
Definition join_base (a : string) : string :=
  if bool_decide (a = "") || last_is_slash a then a else a +:+ "/".

Lemma os_path_join_base a b : String.prefix "/" b = false → os_path_join a b = join_base a +:+ b.
Proof.
  intros Hb. unfold os_path_join, join_base. rewrite Hb. destruct (_ || _); [done|]. by rewrite str_app_assoc.
Qed.

Lemma join_base_idemp a : join_base (join_base a) = join_base a.
Proof.
  unfold join_base at 2 3. destruct (bool_decide (a = "") || last_is_slash a) eqn:Ha; unfold join_base; [by rewrite Ha|].
  rewrite last_slash_snoc. by rewrite orb_true_r.
Qed.

Lemma content_hash_hex_no_slash h : String.prefix "/" (content_hash_hex h) = false.
Proof. destruct h as [a d]. by destruct a. Qed.

(** The path under the root: two directories down, or none for an empty digest. *)
Lemma path_for_eq data_dir h :
  path_for data_dir h = join_base data_dir +:+
    match hex (ch_digest h) with
    | String c1 (String c2 _) => String c1 (String c2 (String "/" (content_hash_hex h)))
    | _ => content_hash_hex h
    end.
Proof.
  unfold path_for. rewrite (os_path_join_base _ (content_hash_hex h)) by apply content_hash_hex_no_slash.
  destruct (ch_digest h) as [|x d] eqn:Hd.
  - rewrite (os_path_join_base _ (stake 2 _)) by done. cbn [hex stake]. by rewrite app_nil_string, join_base_idemp.
  - rewrite (os_path_join_base _ (stake 2 _)).
    2: { pose proof (hex_no_slash (x :: d)) as Hn. cbn [hex stake] in *. exact Hn. }
    cbn [hex stake]. set (c1 := hex_digit (b2z x / 16)). set (c2 := hex_digit (b2z x mod 16)).
    assert (c2 ≠ "/"%char) as Hc2.
    { destruct (hex_val_digit (b2z x mod 16)) as [Hv _]; [apply Z.mod_pos_bound; lia|].
      unfold c2. intros Heq. by rewrite Heq in Hv. }
    unfold join_base at 1. replace (join_base data_dir +:+ String c1 (String c2 "")) with
      ((join_base data_dir +:+ String c1 "") +:+ String c2 "") by (by rewrite str_app_assoc).
    rewrite last_slash_snoc, (bool_decide_false (c2 = "/"%char)) by done. rewrite orb_false_r, bool_decide_false.
    + by rewrite !str_app_assoc.
    + intros Hnil. destruct (join_base data_dir); discriminate Hnil.
Qed.

Lemma path_for_inj data_dir h1 h2 : path_for data_dir h1 = path_for data_dir h2 → h1 = h2.
Proof.
  rewrite !path_for_eq. intros Heq%app_cancel_l.
  assert (∀ h, ∃ a1 a2, content_hash_hex h = String a1 (String a2 (hex (ch_digest h)))) as Hhex.
  { intros [[] d]; by eexists _, _. }
  destruct (ch_digest h1) as [|x1 d1] eqn:Hd1, (ch_digest h2) as [|x2 d2] eqn:Hd2; cbn [hex] in Heq.
  - by apply (inj content_hash_hex).
  - destruct (Hhex h1) as (a1 & a2 & Hh). rewrite Hd1 in Hh. rewrite Hh in Heq. discriminate Heq.
  - destruct (Hhex h2) as (a1 & a2 & Hh). rewrite Hd2 in Hh. rewrite Hh in Heq. discriminate Heq.
  - apply (f_equal (sdrop 3)) in Heq. cbn [sdrop] in Heq. by apply (inj content_hash_hex).
Qed.

(** ** Specifications *)

Definition hash_of (data : bytes) : ContentHash := {| ch_algorithm := SHA256; ch_digest := sha256 data |}.

(** Methods that leave the object alone and read the world. *)
Lemma wpm_for_collect_pure {E : signature} {W S A B} (exec : ∀ e : E, W → response e → W → Prop) (I : W → Prop)
    (l : list A) (f : A → M E S (list B)) (g : A → result (list B)) s w :
  I w → (∀ x, x ∈ l → wpm exec I (f x) (λ r s' w', r = g x ∧ s' = s ∧ w' = w) s w) →
  wpm exec I (for_collect l f) (λ r s' w', r = (ls ← result_mapM g l; Ok (concat ls)) ∧ s' = s ∧ w' = w) s w.
Proof.
  intros Hi. induction l as [|x l IH]; intros Hf; cbn [for_collect result_mapM].
  - by apply wpm_ret.
  - apply wpm_bind. eapply wpm_mono; [apply Hf; left|]. intros r s' w' _ (-> & -> & ->).
    destruct (g x) as [ys|e]; [|done]. cbn [mbind result_bind]. apply wpm_bind.
    eapply wpm_mono; [apply IH; intros y Hy; apply Hf; by right|]. intros r s' w' _ (-> & -> & ->).
    destruct (result_mapM g l) as [ls|e]; [|done]. by apply wpm_ret.
Qed.

Section Specs.
Variable data_dir : string.

(** Every file is the blob of its own hash. *)
Definition addressed (w : Disk) : Prop := ∀ p d, w !! p = Some d → p = path_for data_dir (hash_of d).

(** [data] is the blob of [h]. *)
Definition stored (w : Disk) (h : ContentHash) (data : bytes) : Prop :=
  h = hash_of data ∧ w !! path_for data_dir h = Some data.

(** No blob has the digest of another of the contents in question. *)
Definition no_sha_collision (w : Disk) (contents : list bytes) : Prop :=
  ∀ x y, (x ∈ contents ∨ ∃ p, w !! p = Some x) → y ∈ contents → sha256 x = sha256 y → x = y.

Context (faulty : Prop) {S : Type}.
#[local] Abbreviation wps := (wpm (E := storage) (S := S) (disk_exec faulty) addressed).

Lemma addressed_insert w data : addressed w → addressed (<[path_for data_dir (hash_of data) := data]> w).
Proof.
  intros Hw p d. rewrite lookup_insert_Some. intros [[<- <-]|[_ Hd]]; [done | by apply Hw].
Qed.

Lemma addressed_delete w p : addressed w → addressed (delete p w).
Proof. intros Hw q d. rewrite lookup_delete_Some. intros [_ Hd]. by apply Hw. Qed.

(** A blob that is present has the digest of its name. *)
Lemma addressed_digest w data d : addressed w → w !! path_for data_dir (hash_of data) = Some d → sha256 d = sha256 data.
Proof. intros Hw Hd. apply Hw, path_for_inj in Hd. apply (f_equal ch_digest) in Hd. done. Qed.

(** Storing returns the hash of the data, under which a blob of that digest is
    found from then on; it raises only when the write fails, and changes nothing then. *)
Lemma blob_store_spec data s w :
  addressed w →
  wps (blob_store data_dir data)
    (λ r s' w', s' = s ∧ w ⊆ w' ∧
       match r with
       | Ok h => h = hash_of data ∧ ∃ d, w' !! path_for data_dir h = Some d ∧ sha256 d = sha256 data ∧
                   (w' = w ∨ w' = <[path_for data_dir h := data]> w ∧ d = data)
       | Err _ => w' = w ∧ faulty
       end) s w.
Proof.
  intros Hw. unfold blob_store. apply wpm_bind, wpm_lift; [done|]. cbn [from_data].
  change {| ch_algorithm := SHA256; ch_digest := sha256 data |} with (hash_of data).
  apply wpm_bind, (wpm_perform (E := storage) (disk_exec faulty) _ (FileExists _)); [done|]. intros b w' [-> ->]. split; [done|].
  destruct (w !! path_for data_dir (hash_of data)) as [d|] eqn:Hd.
  - rewrite bool_decide_true by done. apply wpm_ret; [done|]. split_and!; [done..|].
    exists d. split_and!; [done | by eapply addressed_digest | by left].
  - rewrite bool_decide_false by (by intros []).
    apply wpm_bind, (wpm_perform (E := storage) (disk_exec faulty) _ (WriteFile _ _)); [done|].
    intros r w' [[-> ->]|(Hf & e & -> & ->)].
    + split; [by apply addressed_insert|]. apply wpm_bind, wpm_lift; [by apply addressed_insert|].
      apply wpm_ret; [by apply addressed_insert|]. split_and!; [done | by apply insert_subseteq | done |].
      exists data. split_and!; [apply lookup_insert_eq | done | by right].
    + split; [done|]. by apply wpm_bind, wpm_lift.
Qed.

(** What a blob is found to be. *)
Definition blob_at (w : Disk) (h : ContentHash) : result bytes :=
  of_option ContentNotFoundError (w !! path_for data_dir h).

Lemma blob_retrieve_spec h s w :
  addressed w → wps (blob_retrieve data_dir h) (λ r s' w', r = blob_at w h ∧ s' = s ∧ w' = w) s w.
Proof.
  intros Hw. unfold blob_retrieve, blob_at.
  apply wpm_bind, (wpm_perform (E := storage) (disk_exec faulty) _ (FileExists _)); [done|]. intros b w' [-> ->]. split; [done|].
  destruct (w !! path_for data_dir h) as [d|] eqn:Hd.
  - rewrite bool_decide_true by done.
    apply wpm_bind, (wpm_perform (E := storage) (disk_exec faulty) _ (ReadFile _)); [done|]. intros r w' [-> ->].
    split; [done|]. rewrite Hd. by apply wpm_lift.
  - rewrite bool_decide_false by (by intros []). by apply wpm_raise.
Qed.

(** Deleting removes the blob or raises and leaves it. *)
Lemma blob_delete_spec h s w :
  addressed w →
  wps (blob_delete data_dir h)
    (λ r s' w', s' = s ∧ match r with Ok _ => w' = delete (path_for data_dir h) w | Err _ => w' = w ∧ faulty end) s w.
Proof.
  intros Hw. unfold blob_delete. apply wpm_bind, (wpm_perform (E := storage) (disk_exec faulty) _ (Unlink _)); [done|].
  intros r w' [[-> ->]|(Hf & e & -> & ->)].
  - split; [by apply addressed_delete|]. apply wpm_bind, wpm_lift; [by apply addressed_delete|].
    by apply wpm_ret; [apply addressed_delete|].
  - split; [done|]. by apply wpm_bind, wpm_lift.
Qed.
End Specs.
