(* ===== verification/ShardEngine.v ===== *)
(** * The shard engine

    Models prsm/storage/shard_engine.py: content is cut into chunks, or erasure
    coded, and each shard is stored as a blob; a manifest lists the shard hashes. *)
From Stdlib Require Import ZArith Lia.
From S2P Require Import PyStd.
From S2P Require Import Effects.
From S2P Require Import PyJson.
From S2P Require Import StorageModels.
From S2P Require Import Zfec.
From S2P Require Import Erasure.
From S2P Require Import ManifestJson.
From S2P Require Import BlobStore.
From S2P Require Import Prelude.

#[local] Open Scope string_scope.
#[local] Open Scope list_scope.
#[local] Open Scope Z_scope.

Record ShardEngine : Type := {
  se_data_dir : string;      (* of its blob store *)
  se_shard_threshold : Z;
  se_shard_size : Z
}.

Section Engine.
Context `{Zfec} (e : ShardEngine) {S : Type}.

(** [math.ceil(a / b)]: exact for the sizes of data in memory. *)
Definition ceil_div (a b : Z) : result Z := if b =? 0 then Err ZeroDivisionError else Ok (- (- a / b)).

(** The chunks of the replication mode. *)
Definition chunks_of (data : bytes) : result (list bytes) :=
  if zlen data <=? se_shard_threshold e then Ok [data]
  else
    num_shards ← ceil_div (zlen data) (se_shard_size e);
    Ok ((λ i, slice (i * se_shard_size e) ((i + 1) * se_shard_size e) data) <$> seqZ 0 num_shards).

(** [self.blob_store.store] of each chunk in order. *)
Definition store_all (chunks : list bytes) : M storage S (list ContentHash) :=
  for_collect chunks (λ chunk, h ← blob_store (se_data_dir e) chunk; mret [h]).

Definition store_shards (shards : list ErasureShard) : M storage S (list ContentHash) :=
  for_collect shards (λ shard,
    h ← blob_store (se_data_dir e) (es_data shard);
    if bool_decide (hex (ch_digest h) = es_sha256 shard) then mret [h] else raise ShardIntegrityError).

Definition split_erasure (data : bytes) (content_hash : ContentHash) (total_size : Z) (owner : string)
    (replication_factor : Z) (visibility : string) (k n : Z) : M storage S ShardManifest :=
  '(meta, shards) ← lift (erasure_encode data k n);
  shard_hashes ← store_shards shards;
  now ← perform (E := storage) Clock;
  mret {| sm_content_hash := content_hash; sm_shard_hashes := shard_hashes; sm_total_size := total_size;
          sm_shard_size := em_shard_bytes meta; sm_algorithm_id := SHA256; sm_created_at := now;
          sm_replication_factor := replication_factor; sm_owner_node_id := owner; sm_visibility := visibility;
          sm_sharding_mode := ERASURE;
          sm_erasure_params := Some {| ep_k := em_k meta; ep_n := em_n meta;
                                       ep_payload_bytes := em_payload_bytes meta;
                                       ep_shard_bytes := em_shard_bytes meta;
                                       ep_payload_sha256 := em_payload_sha256 meta |} |}.

Definition engine_split (data : bytes) (owner : string) (replication_factor : Z) (visibility : string)
    (mode : ShardingMode) (erasure_k erasure_n : Z) : M storage S ShardManifest :=
  content_hash ← lift (from_data data SHA256);
  match mode with
  | ERASURE => split_erasure data content_hash (zlen data) owner replication_factor visibility erasure_k erasure_n
  | REPLICATION =>
      chunks ← lift (chunks_of data);
      shard_hashes ← store_all chunks;
      now ← perform (E := storage) Clock;
      mret {| sm_content_hash := content_hash; sm_shard_hashes := shard_hashes; sm_total_size := zlen data;
              sm_shard_size := se_shard_size e; sm_algorithm_id := SHA256; sm_created_at := now;
              sm_replication_factor := replication_factor; sm_owner_node_id := owner;
              sm_visibility := visibility; sm_sharding_mode := REPLICATION; sm_erasure_params := None |}
  end.

(** A check that [raw] is the content named [h]. *)
Definition check_hash (h : ContentHash) (raw : bytes) : result unit :=
  actual ← from_data raw (ch_algorithm h);
  raise_if (negb (bool_decide (actual = h))) ShardIntegrityError.

Definition retrieve_shard (h : ContentHash) : M storage S (list bytes) :=
  raw ← blob_retrieve (se_data_dir e) h; _ ← lift (check_hash h raw); mret [raw].

(** A shard the store cannot supply is skipped. *)
Definition surviving_shard (ih : Z * ContentHash) : M storage S (list ErasureShard) :=
  let '(index, h) := ih in
  r ← try (blob_retrieve (se_data_dir e) h);
  mret (match r with
        | Ok raw => [{| es_index := index; es_data := raw; es_sha256 := hex (ch_digest h) |}]
        | Err _ => []
        end).

Definition metadata_of_params (p : ErasureParams) : ErasureMetadata :=
  {| em_k := ep_k p; em_n := ep_n p; em_payload_bytes := ep_payload_bytes p;
     em_shard_bytes := ep_shard_bytes p; em_payload_sha256 := ep_payload_sha256 p |}.

Definition reassemble_erasure (manifest : ShardManifest) : M storage S bytes :=
  match sm_erasure_params manifest with
  | None => raise ShardIntegrityError
  | Some params =>
      survivors ← for_collect (enumerate (sm_shard_hashes manifest)) surviving_shard;
      recovered ← lift (erasure_decode (metadata_of_params params) survivors);
      _ ← lift (check_hash (sm_content_hash manifest) recovered);
      mret recovered
  end.

Definition reassemble (manifest : ShardManifest) : M storage S bytes :=
  match sm_sharding_mode manifest with
  | ERASURE => reassemble_erasure manifest
  | REPLICATION =>
      parts ← for_collect (sm_shard_hashes manifest) retrieve_shard;
      let reassembled := concat parts in
      _ ← lift (check_hash (sm_content_hash manifest) reassembled);
      mret reassembled
  end.
End Engine.

(** ** Chunks *)

Lemma chunks_concat e data chunks :
  0 < se_shard_size e → chunks_of e data = Ok chunks → concat chunks = data.
Proof.
  intros Hs. unfold chunks_of. destruct (zlen data <=? se_shard_threshold e); [intros [= <-]; simpl; apply app_nil_r|].
  unfold ceil_div. replace (se_shard_size e =? 0) with false by lia. cbn [mbind result_bind]. intros [= <-].
  rewrite <-(Z2Nat.id (se_shard_size e)) by lia. rewrite slices_pieces, concat_pieces.
  rewrite Nat.mul_0_l, drop_0. apply take_ge.
  pose proof (Z.div_mod (- zlen data) (se_shard_size e)). pose proof (Z.mod_pos_bound (- zlen data) (se_shard_size e)).
  rewrite Z2Nat.id by lia. nia.
Qed.

Lemma chunks_of_Ok e data : 0 < se_shard_size e → ∃ chunks, chunks_of e data = Ok chunks.
Proof.
  intros Hs. unfold chunks_of, ceil_div. destruct (_ <=? _); [by eexists|].
  replace (se_shard_size e =? 0) with false by lia. by eexists.
Qed.

(** ** Integrity *)

Lemma check_hash_Ok h raw u : check_hash h raw = Ok u → from_data raw (ch_algorithm h) = Ok h.
Proof.
  unfold check_hash. intros Hc. apply bind_Ok_inv in Hc as (a & -> & Hd%raise_if_Ok).
  apply negb_false_iff, bool_decide_eq_true in Hd. by subst.
Qed.

Lemma check_hash_hash_of d u : check_hash (hash_of d) d = Ok u.
Proof. unfold check_hash. cbn. destruct u. by rewrite bool_decide_true. Qed.

Lemma check_hash_digest data raw u : check_hash (hash_of data) raw = Ok u → sha256 raw = sha256 data.
Proof. intros Hc%check_hash_Ok. exact (f_equal (λ r, match r with Ok h => ch_digest h | Err _ => [] end) Hc). Qed.

Section Quiet.
Context {S : Type}.

(** Whatever the system answers, the object is left alone and a result has [Q]. *)
Definition quiet {A} (m : M storage S A) (Q : A → Prop) : Prop :=
  ∀ s (w : Disk), wpm (E := storage) (λ _ _ _ _, True) (λ _, True) m (λ r s' _, s' = s ∧ ∀ a, r = Ok a → Q a) s w.

Lemma quiet_mono {A} (m : M storage S A) (P Q : A → Prop) : quiet m P → (∀ a, P a → Q a) → quiet m Q.
Proof. intros Hm Hpq s w. eapply wpm_mono; [apply Hm|]. intros r s' w' _ [-> Hr]. split; [done|]. eauto. Qed.

Lemma quiet_ret {A} (a : A) (Q : A → Prop) : Q a → quiet (mret a) Q.
Proof. intros Ha s w. apply wpm_ret; [done|]. split; [done|]. by intros ? [= <-]. Qed.

Lemma quiet_raise {A} e (Q : A → Prop) : quiet (raise e) Q.
Proof. intros s w. by apply wpm_raise. Qed.

Lemma quiet_lift {A} (r : result A) : quiet (lift r) (λ a, r = Ok a).
Proof. intros s w. by apply wpm_lift. Qed.

Lemma quiet_perform (e : storage) : quiet (perform e) (λ _, True).
Proof. intros s w. by apply wpm_perform. Qed.

Lemma quiet_bind {A B} (m : M storage S A) (f : A → M storage S B) P Q :
  quiet m P → (∀ a, P a → quiet (f a) Q) → quiet (m ≫= f) Q.
Proof.
  intros Hm Hf s w. apply wpm_bind. eapply wpm_mono; [apply Hm|].
  intros [a|e] s' w' _ [-> Hp]; [by apply Hf, Hp | done].
Qed.

Lemma quiet_ask {B} (e : storage) (f : response e → M storage S B) Q :
  (∀ a, quiet (f a) Q) → quiet (perform e ≫= f) Q.
Proof. intros Hf. eapply quiet_bind; [apply quiet_perform | auto]. Qed.

Lemma quiet_try {A} (m : M storage S A) P : quiet m P → quiet (try m) (λ _, True).
Proof. intros Hm s w. apply wpm_try. eapply wpm_mono; [apply Hm|]. by intros r s' w' _ [-> _]. Qed.

Lemma quiet_for_collect {A B} (l : list A) (f : A → M storage S (list B)) P :
  (∀ x, quiet (f x) P) → quiet (for_collect l f) (λ _, True).
Proof.
  intros Hf. induction l as [|x l IH]; cbn [for_collect]; [by apply quiet_ret|].
  eapply quiet_bind; [apply Hf|]. intros ys _. eapply quiet_bind; [apply IH|]. intros zs _. by apply quiet_ret.
Qed.

Lemma quiet_for_each {A} (l : list A) (f : A → M storage S unit) P :
  (∀ x, quiet (f x) P) → quiet (for_each l f) (λ _, True).
Proof.
  intros Hf. induction l as [|x l IH]; cbn [for_each]; [by apply quiet_ret|].
  eapply quiet_bind; [apply Hf|]. intros [] _. apply IH.
Qed.
End Quiet.

Section Integrity.
Context `{Zfec} {S : Type}.
#[local] Abbreviation quiet := (quiet (S := S)).

Lemma blob_store_quiet dir data : quiet (blob_store dir data) (λ h, h = hash_of data).
Proof.
  unfold blob_store. eapply quiet_bind; [apply quiet_lift|]. intros h [= <-].
  apply (quiet_ask (FileExists _)). intros []; [by apply quiet_ret|].
  apply (quiet_ask (WriteFile _ _)). intros r. eapply quiet_bind; [apply quiet_lift|]. intros [] _.
  by apply quiet_ret.
Qed.

Lemma blob_retrieve_quiet dir h : quiet (blob_retrieve dir h) (λ _, True).
Proof.
  unfold blob_retrieve. apply (quiet_ask (FileExists _)). intros []; [|apply quiet_raise].
  apply (quiet_ask (ReadFile _)). intros r. eapply quiet_mono; [apply quiet_lift | done].
Qed.

Lemma blob_delete_quiet dir h : quiet (blob_delete dir h) (λ _, True).
Proof.
  unfold blob_delete. apply (quiet_ask (Unlink _)). intros r.
  eapply quiet_bind; [apply quiet_lift|]. intros b _. by apply quiet_ret.
Qed.

(** A manifest names the content it was made of. *)
Lemma engine_split_quiet e data owner rf vis mode k n :
  quiet (engine_split e data owner rf vis mode k n) (λ m, sm_content_hash m = hash_of data).
Proof.
  unfold engine_split. eapply quiet_bind; [apply quiet_lift|]. intros h [= <-]. destruct mode.
  - eapply quiet_bind; [apply quiet_lift|]. intros chunks _. eapply quiet_bind.
    + apply quiet_for_collect with (P := λ _, True). intros chunk.
      eapply quiet_bind; [apply blob_store_quiet|]. intros h _. by apply quiet_ret.
    + intros hs _. apply (quiet_ask Clock). intros now. by apply quiet_ret.
  - unfold split_erasure. eapply quiet_bind; [apply quiet_lift|]. intros [meta shards] _. eapply quiet_bind.
    + apply quiet_for_collect with (P := λ _, True). intros shard. eapply quiet_bind; [apply blob_store_quiet|].
      intros h _. case_bool_decide; [by apply quiet_ret | apply quiet_raise].
    + intros hs _. apply (quiet_ask Clock). intros now. by apply quiet_ret.
Qed.

(** Reassembly returns only data with the hash of the manifest. *)
Lemma reassemble_quiet e manifest :
  quiet (reassemble e manifest)
    (λ d, from_data d (ch_algorithm (sm_content_hash manifest)) = Ok (sm_content_hash manifest)).
Proof.
  unfold reassemble. destruct (sm_sharding_mode manifest).
  - eapply quiet_bind.
    + apply quiet_for_collect with (P := λ _, True). intros h. unfold retrieve_shard.
      eapply quiet_bind; [apply blob_retrieve_quiet|]. intros raw _. eapply quiet_bind; [apply quiet_lift|].
      intros u _. by apply quiet_ret.
    + intros parts _. eapply quiet_bind; [apply quiet_lift|]. intros u Hu. apply quiet_ret. exact (check_hash_Ok _ _ _ Hu).
  - unfold reassemble_erasure. destruct (sm_erasure_params manifest) as [p|]; [|apply quiet_raise]. eapply quiet_bind.
    + apply quiet_for_collect with (P := λ _, True). intros [i h]. unfold surviving_shard.
      eapply quiet_bind; [eapply quiet_try, blob_retrieve_quiet|]. intros r _. by apply quiet_ret.
    + intros survivors _. eapply quiet_bind; [apply quiet_lift|]. intros recovered _.
      eapply quiet_bind; [apply quiet_lift|]. intros u Hu. apply quiet_ret. exact (check_hash_Ok _ _ _ Hu).
Qed.
End Integrity.

(** ** What reassembly computes *)

Section Reassemble.
Context `{Zfec} (e : ShardEngine) (faulty : Prop) {S : Type}.
#[local] Abbreviation wps := (wpm (E := storage) (S := S) (disk_exec faulty) (addressed (se_data_dir e))).

Definition shard_at (w : Disk) (h : ContentHash) : result (list bytes) :=
  raw ← blob_at (se_data_dir e) w h; _ ← check_hash h raw; Ok [raw].

Definition survivor_at (w : Disk) (ih : Z * ContentHash) : list ErasureShard :=
  match blob_at (se_data_dir e) w ih.2 with
  | Ok raw => [{| es_index := ih.1; es_data := raw; es_sha256 := hex (ch_digest ih.2) |}]
  | Err _ => []
  end.

Definition survivors_at (w : Disk) (hashes : list ContentHash) : list ErasureShard :=
  concat (survivor_at w <$> enumerate hashes).

Definition reassembled (w : Disk) (manifest : ShardManifest) : result bytes :=
  match sm_sharding_mode manifest, sm_erasure_params manifest with
  | ERASURE, None => Err ShardIntegrityError
  | ERASURE, Some params =>
      recovered ← erasure_decode (metadata_of_params params) (survivors_at w (sm_shard_hashes manifest));
      _ ← check_hash (sm_content_hash manifest) recovered;
      Ok recovered
  | REPLICATION, _ =>
      parts ← result_mapM (shard_at w) (sm_shard_hashes manifest);
      let data := concat (concat parts) in
      _ ← check_hash (sm_content_hash manifest) data;
      Ok data
  end.

Lemma reassemble_spec manifest s w :
  addressed (se_data_dir e) w →
  wps (reassemble e manifest) (λ r s' w', r = reassembled w manifest ∧ s' = s ∧ w' = w) s w.
Proof.
  intros Hw. unfold reassemble, reassembled. destruct (sm_sharding_mode manifest).
  - apply wpm_bind. eapply wpm_mono.
    + apply (wpm_for_collect_pure (E := storage) _ _ _ _ (shard_at w)); [done|]. intros h _. unfold retrieve_shard, shard_at.
      apply wpm_bind. eapply wpm_mono; [by apply blob_retrieve_spec|]. intros r s' w' _ (-> & -> & ->).
      destruct (blob_at _ w h) as [raw|x]; [|done]. cbn [mbind result_bind].
      apply wpm_bind, wpm_lift; [done|]. destruct (check_hash h raw); [by apply wpm_ret | done].
    + intros r s' w' _ (-> & -> & ->). destruct (result_mapM (shard_at w) _) as [parts|x]; [|done]. cbn [mbind result_bind].
      apply wpm_bind, wpm_lift; [done|]. destruct (check_hash _ _); [by apply wpm_ret | done].
  - unfold reassemble_erasure. destruct (sm_erasure_params manifest) as [p|]; [|by apply wpm_raise].
    apply wpm_bind. eapply wpm_mono.
    + apply (wpm_for_collect_pure (E := storage) _ _ _ _ (λ ih, Ok (survivor_at w ih))); [done|].
      intros [i h] _. unfold surviving_shard, survivor_at. cbn [fst snd].
      apply wpm_bind, wpm_try. eapply wpm_mono; [by apply blob_retrieve_spec|]. intros r s' w' _ (-> & -> & ->).
      apply wpm_ret; [done|]. split_and!; [|done..]. by destruct (blob_at _ w h).
    + intros r s' w' _ (-> & -> & ->). rewrite (result_mapM_fmap _ (survivor_at w)) by done. cbn [mbind result_bind].
      change (concat (survivor_at w <$> enumerate (sm_shard_hashes manifest))) with (survivors_at w (sm_shard_hashes manifest)).
      apply wpm_bind, wpm_lift; [done|]. destruct (erasure_decode _ _) as [recovered|x]; [|done]. cbn [mbind result_bind].
      apply wpm_bind, wpm_lift; [done|]. destruct (check_hash _ _); [by apply wpm_ret | done].
Qed.
End Reassemble.

(** * What the shard engine guarantees

    Content that was split can be reassembled from any disk that still holds enough
    of its shards. *)

#[local] Open Scope string_scope.
#[local] Open Scope list_scope.
#[local] Open Scope Z_scope.

(** ** Storing shards *)

Section Store.
Context (e : ShardEngine) (faulty : Prop) {S : Type}.
#[local] Abbreviation dir := (se_data_dir e).
#[local] Abbreviation wps := (wpm (E := storage) (S := S) (disk_exec faulty) (addressed dir)).

Lemma stored_mono w w' h d : w ⊆ w' → stored dir w h d → stored dir w' h d.
Proof. intros Hsub [Hh Hd]. split; [done|]. by eapply lookup_weaken. Qed.

Lemma no_sha_collision_insert w p c cs :
  c ∈ cs → no_sha_collision w cs → no_sha_collision (<[p := c]> w) cs.
Proof.
  intros Hc Hn x y [Hx|[q Hx]] Hy; [apply Hn; auto|].
  apply lookup_insert_Some in Hx as [[_ <-]|[_ Hx]]; apply Hn; eauto.
Qed.

Lemma no_sha_collision_sub w cs cs' : cs' ⊆ cs → no_sha_collision w cs → no_sha_collision w cs'.
Proof. intros Hs Hn x y Hx Hy. apply Hn; [|by apply Hs]. destruct Hx; [left; by apply Hs | by right]. Qed.

(** Storing one of the contents in question. *)
Lemma blob_store_stored c cs s w :
  addressed dir w → no_sha_collision w cs → c ∈ cs →
  wps (blob_store dir c)
    (λ r s' w', s' = s ∧ w ⊆ w' ∧ no_sha_collision w' cs ∧
                match r with Ok h => stored dir w' h c | Err _ => faulty end) s w.
Proof.
  intros Hw Hn Hc. eapply wpm_mono; [by apply blob_store_spec|].
  intros [h|x] s' w' _ (-> & Hsub & Hr); [|by destruct Hr as [-> Hf]].
  destruct Hr as (-> & d & Hd & Hsha & [->|[-> ->]]); split_and!; try done.
  - assert (d = c) as -> by (apply (Hn d c); eauto). done.
  - by apply no_sha_collision_insert.
Qed.

(** Storing all of them, each checked. *)
Lemma store_loop {A} (l : list A) (content : A → bytes) (f : A → M storage S (list ContentHash)) cs s w :
  addressed dir w → no_sha_collision w cs → content <$> l ⊆ cs →
  (∀ x s w, x ∈ l → addressed dir w → no_sha_collision w cs →
     wps (f x) (λ r s' w', s' = s ∧ w ⊆ w' ∧ no_sha_collision w' cs ∧
                match r with Ok hs => Forall2 (stored dir w') hs [content x] | Err _ => faulty end) s w) →
  wps (for_collect l f)
    (λ r s' w', s' = s ∧ w ⊆ w' ∧ no_sha_collision w' cs ∧
                match r with Ok hs => Forall2 (stored dir w') hs (content <$> l) | Err _ => faulty end) s w.
Proof.
  revert s w. induction l as [|x l IH]; intros s w Hw Hn Hsub Hf; cbn [for_collect].
  - apply wpm_ret; [done|]. split_and!; [done..|constructor].
  - apply wpm_bind. eapply wpm_mono; [apply Hf; [left | done | done]|].
    intros [hs|err] s1 w1 Hw1 (-> & Hs1 & Hn1 & Hh); [|done].
    apply wpm_bind. eapply wpm_mono.
    { apply IH; [done | done | set_solver |]. intros y s2 w2 Hy. apply Hf. by right. }
    intros [hs2|err] s2 w2 Hw2 (-> & Hs2 & Hn2 & Hh2).
    + apply wpm_ret; [done|]. split_and!; [done | by etrans | done |]. rewrite fmap_cons.
      change (content x :: (content <$> l)) with ([content x] ++ (content <$> l)).
      apply Forall2_app; [|done]. eapply Forall2_impl; [exact Hh|]. intros h c. by apply stored_mono.
    + split_and!; [done | by etrans | done..].
Qed.

Lemma store_all_spec chunks cs s w :
  addressed dir w → no_sha_collision w cs → chunks ⊆ cs →
  wps (store_all e chunks)
    (λ r s' w', s' = s ∧ w ⊆ w' ∧ match r with Ok hs => Forall2 (stored dir w') hs chunks | Err _ => faulty end) s w.
Proof.
  intros Hw Hn Hsub. eapply wpm_mono.
  - apply (store_loop chunks id _ cs); [done | done | by rewrite list_fmap_id |].
    intros c s1 w1 Hc Hw1 Hn1. apply wpm_bind. eapply wpm_mono; [apply (blob_store_stored c cs); set_solver|].
    intros [h|err] s2 w2 Hw2 (-> & ? & ? & Hh); [|done]. apply wpm_ret; [done|]. split_and!; [done..|].
    constructor; [done | constructor].
  - intros [hs|err] s' w' _ (-> & ? & _ & Hh); split_and!; try done. by rewrite list_fmap_id in Hh.
Qed.

Lemma store_shards_spec shards cs s w n :
  addressed dir w → no_sha_collision w cs → es_data <$> shards ⊆ cs → Forall (sound_shard n) shards →
  wps (store_shards e shards)
    (λ r s' w', s' = s ∧ w ⊆ w' ∧
       match r with Ok hs => Forall2 (stored dir w') hs (es_data <$> shards) | Err _ => faulty end) s w.
Proof.
  intros Hw Hn Hsub Hs. rewrite Forall_forall in Hs. eapply wpm_mono.
  - apply (store_loop shards es_data _ cs); [done..|].
    intros sh s1 w1 Hsh Hw1 Hn1. apply wpm_bind. eapply wpm_mono.
    { apply (blob_store_stored (es_data sh) cs); [done | done |]. apply Hsub. by apply list_elem_of_fmap_2. }
    intros [h|err] s2 w2 Hw2 (-> & ? & ? & Hh); [|done].
    destruct (Hs sh Hsh) as [_ Hsha]. destruct Hh as [-> Hd].
    rewrite bool_decide_true by (unfold hash_of; simpl; exact Hsha).
    apply wpm_ret; [done|]. split_and!; [done..|]. constructor; [done | constructor].
  - intros r s' w' _ (-> & ? & _ & Hh). done.
Qed.
End Store.

(** ** Recovery from what is left *)

Section Recover.
Context `{ZfecLaws} (e : ShardEngine).
#[local] Abbreviation dir := (se_data_dir e).

(** The blob of [h] is there as it was stored, or it is gone. *)
Definition intact (w : Disk) (h : ContentHash) (c : bytes) : Prop :=
  h = hash_of c ∧ (w !! path_for dir h = Some c ∨ w !! path_for dir h = None).

(** How many of the shards are there. *)
Definition present (w : Disk) (hashes : list ContentHash) : Z :=
  zlen (filter (λ h, is_Some (w !! path_for dir h)) hashes).

Lemma intact_mono w h c : stored dir w h c → intact w h c.
Proof. intros [-> Hd]. split; [done | by left]. Qed.

Lemma blob_at_intact w h c :
  intact w h c → blob_at dir w h = if decide (is_Some (w !! path_for dir h)) then Ok c else Err ContentNotFoundError.
Proof.
  intros [_ [Hd|Hd]]; unfold blob_at; rewrite Hd.
  - by rewrite decide_True.
  - rewrite decide_False; [done|]. by intros [].
Qed.

Lemma leb_succ a b : (Z.succ a <=? Z.succ b) = (a <=? b).
Proof. destruct (Z.leb_spec (Z.succ a) (Z.succ b)), (Z.leb_spec a b); lia. Qed.

(** Replicated chunks: all of them are needed. *)
Lemma chunks_at w hashes chunks :
  Forall2 (intact w) hashes chunks →
  result_mapM (shard_at e w) hashes =
  if zlen hashes <=? present w hashes then Ok ((λ c, [c]) <$> chunks) else Err ContentNotFoundError.
Proof.
  intros Hi. assert (∀ l, present w l <= zlen l) as Hle.
  { intros l. unfold present. pose proof (length_filter (λ h, is_Some (w !! path_for dir h)) l). lia. }
  induction Hi as [|h c hashes chunks Hh Hi IH]; [done|].
  cbn [result_mapM]. change (shard_at e w h) with (raw ← blob_at dir w h; _ ← check_hash h raw; Ok [raw]).
  rewrite (blob_at_intact w h c) by done. destruct Hh as [-> Hh].
  unfold present. rewrite filter_cons. case_decide as Hp; cbn [mbind result_bind length].
  - rewrite (check_hash_hash_of c tt). cbn [mbind result_bind]. rewrite IH. fold (present w hashes).
    rewrite !Nat2Z.inj_succ, leb_succ. fold (present w hashes). by destruct (_ <=? _).
  - fold (present w hashes). specialize (Hle hashes). destruct (Z.leb_spec (Z.of_nat (S (length hashes))) (present w hashes)); [lia | done].
Qed.

(** What reassembly makes of them. *)
Lemma reassembled_chunks w m data chunks :
  sm_sharding_mode m = REPLICATION → sm_content_hash m = hash_of data →
  Forall2 (intact w) (sm_shard_hashes m) chunks → concat chunks = data →
  reassembled e w m = if zlen (sm_shard_hashes m) <=? present w (sm_shard_hashes m)
                      then Ok data else Err ContentNotFoundError.
Proof.
  intros Hm Hh Hi Hc. unfold reassembled. rewrite Hm, Hh, (chunks_at w _ chunks) by done.
  destruct (_ <=? _); [|done]. cbn [mbind result_bind].
  replace (concat (concat ((λ c, [c]) <$> chunks))) with data; [by rewrite (check_hash_hash_of data tt)|].
  rewrite <-Hc. f_equal. clear. induction chunks as [|c chunks IH]; [done|]. cbn. by rewrite <-IH.
Qed.

(** Coded shards: those that are there are sound shards of the encoding, one per
    hash that is present. *)
Lemma survivors_intact w hashes (shards : list ErasureShard) k :
  Forall2 (intact w) hashes (es_data <$> shards) →
  es_index <$> shards = seqZ k (zlen shards) → Forall (λ s, sha256_hex (es_data s) = es_sha256 s) shards →
  let survivors := concat (survivor_at e w <$> enumerate_from k hashes) in
  survivors ⊆ shards ∧ NoDup (es_index <$> survivors) ∧ zlen survivors = present w hashes ∧
  Forall (λ s, k <= es_index s) survivors.
Proof.
  revert k hashes. induction shards as [|sh shards IH]; intros k hashes Hi Hidx Hsha.
  - apply Forall2_nil_inv_r in Hi as ->. split_and!; [done | constructor | done | constructor].
  - rewrite fmap_cons in Hi. apply Forall2_cons_inv_r in Hi as (h & hashes' & Hh & Hi & ->).
    apply Forall_cons in Hsha as [Hs Hsha].
    rewrite fmap_cons, seqZ_cons in Hidx by (simpl; lia). injection Hidx as Hk Hidx.
    destruct (IH (Z.succ k) hashes') as (Hsub & Hnd & Hlen & Hge);
      [done | rewrite Hidx; f_equal; simpl; lia | done |].
    rewrite enumerate_from_cons, fmap_cons. cbn [concat]. rewrite Z.add_1_r.
    unfold survivor_at at 1 3 5 7. cbn [fst snd]. rewrite (blob_at_intact w h (es_data sh)) by done.
    unfold present. rewrite filter_cons. destruct Hh as [-> Hh]. case_decide as Hp.
    + assert ({| es_index := k; es_data := es_data sh; es_sha256 := hex (ch_digest (hash_of (es_data sh))) |} = sh) as ->.
      { destruct sh as [i d x]. simpl in *. by subst. }
      fold (present w hashes'). cbn [app]. split_and!.
      * intros s [->|Hin]%elem_of_cons; [left | right; by apply Hsub].
      * rewrite fmap_cons. apply NoDup_cons. split; [|done]. intros (s & Heq & Hin)%list_elem_of_fmap.
        rewrite Forall_forall in Hge. specialize (Hge s Hin). lia.
      * cbn [length]. rewrite !Nat2Z.inj_succ. by f_equal.
      * constructor; [lia|]. eapply Forall_impl; [exact Hge|]. simpl. intros. lia.
    + cbn [app]. split_and!; [intros s Hin; right; by apply Hsub | done | done |].
      eapply Forall_impl; [exact Hge|]. simpl. intros. lia.
Qed.
End Recover.

(** ** Round trip *)

Section RoundTrip.
Context `{ZfecLaws} (e : ShardEngine) (faulty : Prop) {S : Type}.
#[local] Abbreviation dir := (se_data_dir e).
#[local] Abbreviation wps := (wpm (E := storage) (S := S) (disk_exec faulty) (addressed dir)).

(** What the engine stores for [data]. *)
Definition shard_contents (data : bytes) (mode : ShardingMode) (k n : Z) : list bytes :=
  match mode with
  | REPLICATION => match chunks_of e data with Ok chunks => chunks | Err _ => [] end
  | ERASURE => match erasure_encode data k n with Ok (_, shards) => es_data <$> shards | Err _ => [] end
  end.

(** How many of them are needed, and what is raised when there are fewer. *)
Definition needed (mode : ShardingMode) (k : Z) (hashes : list ContentHash) : Z :=
  match mode with REPLICATION => zlen hashes | ERASURE => k end.
Definition lost (mode : ShardingMode) : exn :=
  match mode with REPLICATION => ContentNotFoundError | ERASURE => InsufficientShardsError end.

(** The parameters the engine accepts. *)
Definition valid_mode (data : bytes) (mode : ShardingMode) (k n : Z) : Prop :=
  0 < se_shard_size e ∧ (mode = ERASURE → 1 <= k <= n ∧ n <= 256 ∧ data ≠ []).

(** [m] is a manifest of [data] whose shards are on [w]: from any disk with enough of
    them, [data] is recovered. *)
Definition recoverable (data : bytes) (mode : ShardingMode) (k n : Z) (m : ShardManifest) (w : Disk) : Prop :=
  Forall2 (stored dir w) (sm_shard_hashes m) (shard_contents data mode k n) ∧
  ∀ w2, Forall2 (intact e w2) (sm_shard_hashes m) (shard_contents data mode k n) →
    reassembled e w2 m =
    if needed mode k (sm_shard_hashes m) <=? present e w2 (sm_shard_hashes m) then Ok data else Err (lost mode).

(** What splitting ends with; it raises only when a write fails.  The manifest has a
    text form when the names in it are ASCII. *)
Definition split_post (data : bytes) (owner vis : string) (mode : ShardingMode) (k n : Z) (s : S) (w : Disk)
    (r : result ShardManifest) (s' : S) (w' : Disk) : Prop :=
  s' = s ∧ w ⊆ w' ∧
  match r with
  | Ok m => sm_content_hash m = hash_of data ∧ sm_total_size m = zlen data ∧ sm_sharding_mode m = mode ∧
            (ascii_str owner = true → ascii_str vis = true → manifest_ok m = true) ∧
            recoverable data mode k n m w'
  | Err _ => faulty
  end.

Lemma stored_digests w hs cs :
  Forall2 (stored dir w) hs cs → forallb (λ h, negb (bool_decide (ch_digest h = []))) hs = true.
Proof.
  induction 1 as [|h c hs cs [-> _] _ IH]; [done|]. cbn [forallb]. rewrite IH, bool_decide_false; [done|].
  intros Hd. pose proof (sha256_length c) as Hl. unfold hash_of in Hd. simpl in Hd. by rewrite Hd in Hl.
Qed.

Lemma split_manifest_ok m data w cs :
  sm_content_hash m = hash_of data → Forall2 (stored dir w) (sm_shard_hashes m) cs →
  float_token (sm_created_at m) = true →
  match sm_erasure_params m with Some p => ep_payload_sha256 p = sha256_hex data | None => True end →
  ascii_str (sm_owner_node_id m) = true → ascii_str (sm_visibility m) = true → manifest_ok m = true.
Proof.
  intros Hh Hs Ht Hp Ho Hv. unfold manifest_ok. rewrite Ho, Hv, Ht. cbn [forallb andb].
  rewrite (stored_digests w _ cs) by done. rewrite bool_decide_false.
  - cbn [negb andb]. destruct (sm_erasure_params m) as [p|]; [|done]. rewrite Hp. apply ascii_hex.
  - rewrite Hh. intros Hd. pose proof (sha256_length data) as Hl. unfold hash_of in Hd. simpl in Hd. by rewrite Hd in Hl.
Qed.

Lemma split_replication_spec data owner rf vis k n s w :
  addressed dir w → valid_mode data REPLICATION k n →
  no_sha_collision w (shard_contents data REPLICATION k n) →
  wps (engine_split e data owner rf vis REPLICATION k n)
    (split_post data owner vis REPLICATION k n s w) s w.
Proof.
  intros Hw [Hsz _] Hn. destruct (chunks_of_Ok e data Hsz) as [chunks Hc]. unfold shard_contents in Hn. rewrite Hc in Hn.
  unfold engine_split. apply wpm_bind, wpm_lift; [done|]. cbn [from_data]. rewrite Hc. apply wpm_bind, wpm_lift; [done|].
  apply wpm_bind. eapply wpm_mono; [by apply (store_all_spec e faulty chunks chunks)|].
  intros [hs|x] s1 w1 Hw1 (-> & Hsub & Hst); [|done].
  apply wpm_bind, (wpm_perform (E := storage) (disk_exec faulty) _ Clock); [done|]. intros now w2 [Hnow ->]. split; [done|].
  apply wpm_ret; [done|]. unfold split_post. split_and!; [done..| |].
  { intros Ho Hv. match goal with |- manifest_ok ?m = true => by apply (split_manifest_ok m data w1 chunks) end. }
  unfold recoverable, shard_contents. rewrite Hc. cbn [sm_shard_hashes]. split; [done|]. intros w2 Hi.
  rewrite (reassembled_chunks e w2 _ data chunks); [done..| by apply (chunks_concat e)].
Qed.

Lemma split_erasure_spec data owner rf vis k n s w :
  addressed dir w → valid_mode data ERASURE k n → no_sha_collision w (shard_contents data ERASURE k n) →
  wps (engine_split e data owner rf vis ERASURE k n)
    (split_post data owner vis ERASURE k n s w) s w.
Proof.
  intros Hw [_ He] Hn. destruct (He eq_refl) as (Hk & Hn256 & Hne).
  destruct (erasure_any_k data k n Hk Hn256 Hne) as (meta & shards & Henc & Hidx & Hsound & Hdec).
  assert (em_payload_sha256 meta = sha256_hex data) as Hsha.
  { destruct (erasure_encode_Ok data k n Hk Hn256 Hne) as (shares & _ & _ & Henc'). rewrite Henc in Henc'.
    by injection Henc' as -> _. }
  unfold shard_contents in Hn. rewrite Henc in Hn.
  unfold engine_split. apply wpm_bind, wpm_lift; [done|]. cbn [from_data]. unfold split_erasure. rewrite Henc.
  apply wpm_bind, wpm_lift; [done|]. apply wpm_bind.
  eapply wpm_mono; [by apply (store_shards_spec e faulty shards (es_data <$> shards) s w n)|].
  intros [hs|x] s1 w1 Hw1 (-> & Hsub & Hst); [|done].
  apply wpm_bind, (wpm_perform (E := storage) (disk_exec faulty) _ Clock); [done|]. intros now w2 [Hnow ->]. split; [done|].
  apply wpm_ret; [done|]. unfold split_post. split_and!; [done..| |].
  { intros Ho Hv. match goal with |- manifest_ok ?m = true => by apply (split_manifest_ok m data w1 (es_data <$> shards)) end. }
  unfold recoverable, shard_contents. rewrite Henc. cbn [sm_shard_hashes]. split; [done|]. intros w2 Hi.
  unfold reassembled. cbn [sm_sharding_mode sm_shard_hashes sm_content_hash sm_erasure_params needed lost].
  assert (length shards = length (seqZ 0 n)) as Hl by (rewrite <-Hidx; symmetry; apply length_fmap).
  rewrite length_seqZ in Hl.
  destruct (survivors_intact e w2 hs shards 0) as (Hss & Hnd & Hlen & _);
    [done | rewrite Hidx; f_equal; lia | eapply Forall_impl; [exact Hsound|]; by intros ? [_ ?] |].
  change (concat (survivor_at e w2 <$> enumerate_from 0 hs)) with (survivors_at e w2 hs) in *.
  replace (metadata_of_params _) with meta by by destruct meta.
  rewrite (Hdec _ Hss Hnd), Hlen. destruct (k <=? present e w2 hs); [|done]. cbn [mbind result_bind].
  change {| ch_algorithm := SHA256; ch_digest := sha256 data |} with (hash_of data).
  by rewrite (check_hash_hash_of data tt).
Qed.

(** Content that was split can be recovered. *)
Lemma split_spec data owner rf vis mode k n s w :
  addressed dir w → valid_mode data mode k n → no_sha_collision w (shard_contents data mode k n) →
  wps (engine_split e data owner rf vis mode k n)
    (split_post data owner vis mode k n s w) s w.
Proof. destruct mode; [apply split_replication_spec | apply split_erasure_spec]. Qed.

Lemma intact_later w' w2 hs cs :
  Forall2 (stored dir w') hs cs →
  Forall (λ h, w2 !! path_for dir h = w' !! path_for dir h ∨ w2 !! path_for dir h = None) hs →
  Forall2 (intact e w2) hs cs.
Proof.
  induction 1 as [|h c hs cs [Hh Hd] _ IH]; [constructor|]. intros [Hw Hr]%Forall_cons. constructor; [|by apply IH].
  split; [done|]. rewrite Hd in Hw. destruct Hw; auto.
Qed.

(** C18 Content survives sharding and the loss of shards.  Splitting writes the shards,
    touches no other file and answers with a manifest of the content; it raises only
    when a write fails.  From any later disk that still holds shards of it as they
    were written, reassembly of the manifest returns exactly the content when enough
    of them are left: all of them for replicated chunks, any k for erasure coding.
    With fewer it raises that shards are missing, and never returns anything else. *)
Theorem shard_roundtrip data owner rf vis mode k n s w :
  addressed dir w → valid_mode data mode k n → no_sha_collision w (shard_contents data mode k n) →
  wps (engine_split e data owner rf vis mode k n)
    (λ r s' w', s' = s ∧ w ⊆ w' ∧
       match r with
       | Err _ => faulty
       | Ok m =>
           sm_content_hash m = hash_of data ∧ sm_total_size m = zlen data ∧
           let hashes := sm_shard_hashes m in
           ∀ w2, addressed dir w2 →
             Forall (λ h, w2 !! path_for dir h = w' !! path_for dir h ∨ w2 !! path_for dir h = None) hashes →
             wps (reassemble e m)
               (λ r2 s2 w2', s2 = s ∧ w2' = w2 ∧
                  r2 = if needed mode k hashes <=? present e w2 hashes then Ok data else Err (lost mode)) s w2
       end) s w.
Proof.
  intros Hw Hv Hn. eapply wpm_mono; [by apply split_spec|]. intros [m|x] s' w' Hw' (-> & Hsub & Hr); [|done].
  destruct Hr as (Hh & Htot & _ & _ & Hst & Hrec). split_and!; [done..|]. intros hashes w2 Hw2 Hl.
  eapply wpm_mono; [by apply (reassemble_spec e faulty)|]. intros r s2 w2' _ (-> & -> & ->). split_and!; [done..|].
  apply Hrec. by eapply intact_later.
Qed.
End RoundTrip.
