(* ===== verification/Lru.v ===== *)
(** * The bounded cache of the content store

    Models [_cache_put] and [_cache_get] of prsm/storage/content_store.py: an
    [OrderedDict], least recently used entry first. *)
From Stdlib Require Import ZArith Lia String.
From S2P Require Import Prelude.

#[local] Open Scope string_scope.
#[local] Open Scope list_scope.
#[local] Open Scope Z_scope.

Section Lru.
Context {K V : Type} `{!EqDecision K}.
Implicit Types (d : dict K V) (k : K) (v : V).

(** [d.move_to_end(k)] of a key that is there *)
Definition move_to_end k d : dict K V :=
  match dict_get k d with Some v => dict_del k d ++ [(k, v)] | None => d end.

(** [while len(d) > m: d.popitem(last=False)] *)
Fixpoint popitems (m : Z) d : dict K V :=
  match d with
  | [] => []
  | _ :: d' => if m <? zlen d then popitems m d' else d
  end.

Definition cache_put (m : Z) k v d : dict K V := popitems m (move_to_end k (dict_set k v d)).

Definition cache_get k d : option V * dict K V :=
  if dict_mem k d then let d' := move_to_end k d in (dict_get k d', d') else (None, d).

(** ** Uses of the cache *)

Inductive cache_use : Type := Put (k : K) (v : V) | Get (k : K).

Definition used (u : cache_use) : K := match u with Put k _ | Get k => k end.

Definition cache_step (m : Z) d (u : cache_use) : dict K V :=
  match u with Put k v => cache_put m k v d | Get k => (cache_get k d).2 end.

Definition cache_run (m : Z) (uses : list cache_use) d : dict K V := fold_left (cache_step m) uses d.

(** ** Entries and what came after them *)

(** The keys used after [k]. *)
Fixpoint keys_after k d : list K :=
  match d with
  | [] => []
  | (k', _) :: d' => if decide (k = k') then dict_keys d' else keys_after k d'
  end.

Lemma keys_after_sublist k d : keys_after k d `sublist_of` dict_keys d.
Proof.
  induction d as [|[k' v'] d IH]; [done|]. simpl. case_decide; by apply sublist_cons.
Qed.

Lemma keys_after_app k d k' v' :
  k ∈ dict_keys d → keys_after k (d ++ [(k', v')]) = keys_after k d ++ [k'].
Proof.
  induction d as [|[k1 v1] d IH]; simpl; [set_solver|]. intros Hin. destruct (decide (k = k1)) as [->|Hne].
  - unfold dict_keys. by rewrite fmap_app.
  - apply IH. set_solver.
Qed.

Lemma keys_after_del k k' d : k ≠ k' → keys_after k (dict_del k' d) ⊆ keys_after k d.
Proof.
  intros Hne. induction d as [|[k1 v1] d IH]; [done|]. simpl. destruct (decide (k' = k1)) as [->|Hk].
  - rewrite decide_False by done. done.
  - simpl. case_decide; [|done]. intros x Hx. unfold dict_keys in *.
    eapply sublist_subseteq; [apply fmap_sublist, dict_del_sublist | exact Hx].
Qed.

Lemma keys_after_del_notin k k' d : dict_wf d → k ≠ k' → k' ∉ keys_after k (dict_del k' d).
Proof.
  intros Hwf Hne Hin. eapply elem_of_submseteq in Hin; [|by apply sublist_submseteq, keys_after_sublist].
  apply list_elem_of_fmap in Hin as ([k1 v1] & -> & Hin). apply elem_dict_del in Hin as [? _]; done.
Qed.

Lemma keys_after_set k k' v' d :
  k ∈ dict_keys d → keys_after k (dict_set k' v' d) ⊆ k' :: keys_after k d.
Proof.
  induction d as [|[k1 v1] d IH]; simpl; [set_solver|]. intros Hin.
  destruct (decide (k' = k1)) as [->|Hk]; simpl.
  - case_decide; set_solver.
  - destruct (decide (k = k1)) as [->|Hne].
    + intros x Hx%elem_dict_keys_set. set_solver.
    + apply IH. set_solver.
Qed.

(** ** Moving and evicting *)

Lemma dict_wf_move k d : dict_wf d → dict_wf (move_to_end k d).
Proof.
  intros Hwf. unfold move_to_end. destruct (dict_get k d) as [v|]; [|done]. unfold dict_wf, dict_keys.
  rewrite fmap_app. apply NoDup_app. split_and!; [by apply dict_wf_del | | apply NoDup_singleton].
  intros x ([k1 v1] & -> & Hx)%list_elem_of_fmap Hk%list_elem_of_singleton. simpl in Hk. subst.
  apply elem_dict_del in Hx as [? _]; done.
Qed.

Lemma dict_get_app k d d' :
  dict_get k (d ++ d') = match dict_get k d with Some v => Some v | None => dict_get k d' end.
Proof. induction d as [|[k1 v1] d IH]; [done|]. simpl. by case_decide. Qed.

Lemma dict_get_move k k' d : dict_wf d → dict_get k (move_to_end k' d) = dict_get k d.
Proof.
  intros Hwf. unfold move_to_end. destruct (dict_get k' d) as [v|] eqn:Hv; [|done].
  rewrite dict_get_app, dict_get_del by done. destruct (decide (k' = k)) as [->|Hne].
  - simpl. by rewrite decide_True, Hv.
  - destruct (dict_get k d); [done|]. simpl. by rewrite decide_False.
Qed.

Lemma popitems_suffix m d : popitems m d `suffix_of` d.
Proof. induction d as [|kv d IH]; simpl; [done|]. case_match; [by apply suffix_cons_r | done]. Qed.

Lemma popitems_length m d : 0 <= m → zlen (popitems m d) <= m.
Proof.
  intros Hm. induction d as [|kv d IH]; [simpl; lia|]. cbn [popitems].
  destruct (Z.ltb_spec m (zlen (kv :: d))); [done | lia].
Qed.

Lemma dict_wf_popitems m d : dict_wf d → dict_wf (popitems m d).
Proof.
  unfold dict_wf, dict_keys. intros Hwf. destruct (popitems_suffix m d) as [pre Hd]. rewrite Hd, fmap_app in Hwf.
  by apply NoDup_app in Hwf as (_ & _ & Hwf).
Qed.

(** An entry that few enough others follow is not evicted. *)
Lemma popitems_keeps m k d :
  k ∈ dict_keys d → zlen (keys_after k d) < m →
  dict_get k (popitems m d) = dict_get k d ∧ keys_after k (popitems m d) = keys_after k d.
Proof.
  induction d as [|[k1 v1] d IH]; [done|]. intros Hin Hlen. cbn [popitems].
  destruct (Z.ltb_spec m (zlen ((k1, v1) :: d))) as [Hm|Hm]; [|done]. simpl in Hlen |- *.
  destruct (decide (k = k1)) as [->|Hne].
  - unfold dict_keys in Hlen. rewrite length_fmap in Hlen. simpl in Hm. lia.
  - apply IH; [|done]. unfold dict_keys in Hin. set_solver.
Qed.

(** ** What a use keeps *)

Lemma dict_wf_step m d u : dict_wf d → dict_wf (cache_step m d u).
Proof.
  intros Hwf. destruct u as [k v|k]; simpl.
  - by apply dict_wf_popitems, dict_wf_move, dict_wf_set.
  - unfold cache_get. case_match; [by apply dict_wf_move | done].
Qed.

Lemma move_length k d : zlen (move_to_end k d) = zlen d.
Proof.
  unfold move_to_end. destruct (dict_get k d) as [v|] eqn:Hv; [|done]. revert Hv.
  induction d as [|[k1 v1] d IH]; [done|]. simpl. destruct (decide (k = k1)) as [->|].
  - intros _. rewrite length_app. simpl. lia.
  - intros Hv. specialize (IH Hv). simpl. rewrite length_app in *. simpl in *. lia.
Qed.

Lemma cache_step_length m d u : 0 <= m → zlen d <= m → zlen (cache_step m d u) <= m.
Proof.
  intros Hm Hd. destruct u as [k v|k]; simpl; [by apply popitems_length|].
  unfold cache_get. case_match; [|done]. simpl. by rewrite move_length.
Qed.

(** Nothing else gets in. *)
Lemma elem_move kv k d : kv ∈ move_to_end k d → kv ∈ d.
Proof.
  unfold move_to_end. destruct (dict_get k d) as [v|] eqn:Hv; [|done].
  intros [Hin%elem_dict_del_1|Hin%list_elem_of_singleton]%elem_of_app; [done|]. subst. by apply dict_get_elem.
Qed.

Lemma elem_cache_put kv m k v d : dict_wf d → kv ∈ cache_put m k v d → kv = (k, v) ∨ kv ∈ d.
Proof.
  intros Hwf Hin. unfold cache_put in Hin.
  assert (kv ∈ move_to_end k (dict_set k v d)) as Hin'.
  { destruct (popitems_suffix m (move_to_end k (dict_set k v d))) as [pre ->]. apply elem_of_app. by right. }
  clear Hin. rename Hin' into Hin. apply elem_move in Hin. destruct kv as [k' v']. apply elem_dict_set in Hin as [[-> ->]|[_ Hin]]; [by left | by right | done].
Qed.

Lemma cache_get_spec k d : dict_wf d → cache_get k d = (dict_get k d, if dict_mem k d then move_to_end k d else d).
Proof.
  intros Hwf. unfold cache_get. destruct (dict_mem k d) eqn:Hm; [by rewrite dict_get_move|].
  apply dict_mem_false in Hm. by rewrite Hm.
Qed.

(** [k] is there, with [v], and only keys of [ks] were used after it. *)
Definition recent k v (ks : list K) d : Prop := dict_get k d = Some v ∧ keys_after k d ⊆ ks.

Lemma recent_keys k v ks d : recent k v ks d → k ∈ dict_keys d.
Proof. intros [Hg _]. apply dict_get_elem in Hg. apply list_elem_of_fmap. by exists (k, v). Qed.

Lemma recent_length k v ks d : dict_wf d → recent k v ks d → zlen (keys_after k d) <= zlen ks.
Proof.
  intros Hwf [_ Hsub]. apply inj_le, submseteq_length, NoDup_submseteq; [|done].
  eapply sublist_NoDup; [exact Hwf | apply keys_after_sublist].
Qed.

Lemma recent_move k v k' ks d :
  dict_wf d → recent k v ks d → k' = k ∨ k' ∈ ks → recent k v ks (move_to_end k' d).
Proof.
  intros Hwf Hr Hk. pose proof (recent_keys _ _ _ _ Hr) as Hin. destruct Hr as [Hg Hs]. split; [by rewrite dict_get_move|].
  unfold move_to_end. destruct (dict_get k' d) as [v'|] eqn:Hv'; [|done]. destruct (decide (k' = k)) as [->|Hne].
  - assert (k ∉ dict_keys (dict_del k d)) as Hn by (apply dict_get_None; by rewrite dict_get_del_eq).
    assert (keys_after k (dict_del k d ++ [(k, v')]) = []) as ->; [|set_solver].
    clear -Hn. induction (dict_del k d) as [|[k1 v1] d' IH]; simpl; [by rewrite decide_True|].
    unfold dict_keys in Hn. rewrite fmap_cons in Hn. rewrite decide_False by set_solver. apply IH.
    unfold dict_keys. set_solver.
  - destruct Hk as [|Hk]; [done|]. rewrite keys_after_app.
    + intros x [Hx|Hx%list_elem_of_singleton]%elem_of_app; [|by subst]. by apply Hs, (keys_after_del k k' d).
    + destruct (dict_get k (dict_del k' d)) as [v1|] eqn:Hd; [|by rewrite dict_get_del_ne, Hg in Hd].
      apply dict_get_elem in Hd. apply list_elem_of_fmap. by exists (k, v1).
Qed.

Lemma recent_put m k v k' v' ks d :
  dict_wf d → zlen ks < m → recent k v ks d → k' ≠ k → k' ∈ ks → recent k v ks (cache_put m k' v' d).
Proof.
  intros Hwf Hm Hr Hne Hk. unfold cache_put. pose proof (dict_wf_set k' v' d Hwf) as Hwf1.
  assert (recent k v ks (dict_set k' v' d)) as Hr1.
  { split; [rewrite dict_get_set_ne by done; apply Hr|]. etrans; [apply keys_after_set; by eapply recent_keys|].
    destruct Hr as [_ Hs]. set_solver. }
  pose proof (recent_move k v k' ks _ Hwf1 Hr1 (or_intror Hk)) as Hr2.
  pose proof (recent_length k v ks _ (dict_wf_move k' _ Hwf1) Hr2).
  destruct (popitems_keeps m k (move_to_end k' (dict_set k' v' d))) as [Hg Ha]; [by eapply recent_keys | lia|].
  split; [rewrite Hg; apply Hr2 | rewrite Ha; apply Hr2].
Qed.

Lemma recent_step m k v ks d u :
  dict_wf d → zlen ks < m → recent k v ks d →
  match u with Put k' _ => k' ∈ ks ∧ k' ≠ k | Get k' => k' = k ∨ k' ∈ ks end →
  recent k v ks (cache_step m d u).
Proof.
  intros Hwf Hm Hr Hu. destruct u as [k' v'|k']; simpl; [destruct Hu; by apply recent_put|].
  unfold cache_get. case_match; [|done]. by apply recent_move.
Qed.

Lemma recent_new m k v d : 0 < m → dict_wf d → recent k v [] (cache_put m k v d).
Proof.
  intros Hm Hwf. unfold cache_put. pose proof (dict_wf_set k v d Hwf) as Hwf1.
  assert (dict_get k (move_to_end k (dict_set k v d)) = Some v ∧ keys_after k (move_to_end k (dict_set k v d)) = []) as [Hg Ha].
  { rewrite dict_get_move by done. split; [apply dict_get_set_eq|]. unfold move_to_end. rewrite dict_get_set_eq.
    set (d' := dict_del k (dict_set k v d)). assert (k ∉ dict_keys d') as Hn by (apply dict_get_None; by apply dict_get_del_eq).
    clearbody d'. induction d' as [|[k1 v1] d' IH]; simpl; [by rewrite decide_True|].
    unfold dict_keys in Hn. rewrite fmap_cons in Hn. rewrite decide_False by set_solver. apply IH.
    unfold dict_keys. set_solver. }
  destruct (popitems_keeps m k (move_to_end k (dict_set k v d))) as [Hg' Ha'].
  - apply dict_get_elem in Hg. apply list_elem_of_fmap. by exists (k, v).
  - rewrite Ha. simpl. lia.
  - split; [by rewrite Hg' | by rewrite Ha', Ha].
Qed.

Lemma cache_run_inv m uses d :
  0 <= m → dict_wf d → zlen d <= m → dict_wf (cache_run m uses d) ∧ zlen (cache_run m uses d) <= m.
Proof.
  intros Hm. unfold cache_run. revert d. induction uses as [|u uses IH]; intros d Hwf Hlen; [done|].
  simpl. apply IH; [by apply dict_wf_step | by apply cache_step_length].
Qed.

(** The uses that leave an entry for [k] alone, over the other keys [ks]. *)
Definition spares k (ks : list K) (u : cache_use) : Prop :=
  match u with Put k' _ => k' ∈ ks ∧ k' ≠ k | Get k' => k' = k ∨ k' ∈ ks end.

Lemma cache_run_recent m k v ks uses d :
  zlen ks < m → dict_wf d → recent k v ks d → Forall (spares k ks) uses → recent k v ks (cache_run m uses d).
Proof.
  intros Hm. unfold cache_run. revert d. induction uses as [|u uses IH]; intros d Hwf Hr Hall; [done|].
  apply Forall_cons in Hall as [Hu Hall]. simpl. apply IH; [by apply dict_wf_step | by apply recent_step | done].
Qed.

Lemma recent_get k v ks d : dict_wf d → recent k v ks d → (cache_get k d).1 = Some v.
Proof.
  intros Hwf [Hg _]. unfold cache_get, dict_mem. rewrite Hg, bool_decide_true by done. simpl. by rewrite dict_get_move.
Qed.

(** The cache is bounded and forgets the least recently used.  Whatever sequence of
    insertions and lookups follows, it never holds more than its maximum and never a
    key twice.  An entry is found with the value it was inserted with as long as it
    was not overwritten and fewer than the maximum of other keys were used since,
    however often; its own lookups do not count. *)
Theorem cache_lru m k v uses d others :
  1 <= m → dict_wf d → zlen d <= m →
  let d' := cache_run m uses (cache_put m k v d) in
  zlen d' <= m ∧ dict_wf d' ∧
  (Forall (spares k others) uses → zlen others < m → (cache_get k d').1 = Some v).
Proof.
  intros Hm Hwf Hlen d'.
  pose proof (dict_wf_step m d (Put k v) Hwf) as Hwf1. pose proof (cache_step_length m d (Put k v) ltac:(lia) Hlen) as Hlen1.
  destruct (cache_run_inv m uses (cache_put m k v d)) as [Hwf' Hlen']; [lia | done..|].
  split_and!; [done..|]. intros Hall Hlt. eapply (recent_get k v others); [done|]. apply cache_run_recent; [done..| |done].
  destruct (recent_new m k v d) as [Hg Ha]; [lia | done|]. split; [done | set_solver].
Qed.
End Lru.

(** Two entries at most: a third insertion evicts the one used longest ago. *)
Lemma cache_lru_witness :
  let uses := [Put 2 "b"; Get 1; Put 2 "c"] in
  (cache_get 1 (cache_run 2 uses (cache_put 2 1 "a" []))).1 = Some "a" ∧
  (cache_get 2 (cache_run 2 (uses ++ [Get 1; Put 3 "d"]) (cache_put 2 1 "a" []))).1 = None.
Proof.
  split; [|reflexivity]. destruct (cache_lru 2 1 "a"%string [Put 2 "b"; Get 1; Put 2 "c"]%string [] [2]) as (_ & _ & Hget).
  - lia.
  - apply NoDup_nil_2.
  - simpl. lia.
  - apply Hget; [|simpl; lia]. repeat constructor; simpl; set_solver.
Defined.
