(* ===== verification/ContentStore.v ===== *)
(** * The content store

    Models prsm/storage/content_store.py: content is sharded into the blob store, its
    manifest encrypted under a fresh key that is split among key holders, and the
    three kept in a bounded cache in order of last use.  One store is one object whose
    state is that cache; its methods run one after the other. *)
From Stdlib Require Import ZArith Lia.
From S2P Require Import PyStd.
From S2P Require Import Effects.
From S2P Require Import PyJson.
From S2P Require Import AesGcm.
From S2P Require Import StorageModels.
From S2P Require Import KeyManager.
From S2P Require Import Shamir.
From S2P Require Import Zfec.
From S2P Require Import ManifestJson.
From S2P Require Import BlobStore.
From S2P Require Import ShardEngine.
From S2P Require Import Lru.
From S2P Require Import Prelude.

#[local] Open Scope string_scope.
#[local] Open Scope list_scope.
#[local] Open Scope Z_scope.

Record StorageArtifacts : Type := {
  sa_content_hash : ContentHash;
  sa_encrypted_manifest : bytes;
  sa_key_shares : list KeyShare;
  sa_shard_paths : list string;
  sa_manifest : ShardManifest
}.

Definition select_threshold_params (num_shards : Z) : Z * Z :=
  if num_shards <? 10 then (3, 5) else if num_shards <? 100 then (5, 8) else (7, 12).

Definition DEFAULT_MANIFEST_CACHE_MAX : Z := 4096.

(** The bound: the argument, or the environment's, at least one. *)
Definition manifest_cache_bound (arg : option Z) (env : option string) : Z :=
  Z.max 1 (match arg with
           | Some m => m
           | None => match env with
                     | Some s => default DEFAULT_MANIFEST_CACHE_MAX (int_of_str s)
                     | None => DEFAULT_MANIFEST_CACHE_MAX
                     end
           end).

(** ** The store *)

Abbreviation Entry := (bytes * list KeyShare * ShardManifest)%type.
Abbreviation Cache := (dict string Entry).

(** What is set at construction and never changed. *)
Record ContentStore : Type := {
  cs_node_id : string;
  cs_engine : ShardEngine;
  cs_cache_max : Z
}.

Definition content_store (data_dir node_id : string) (shard_threshold shard_size : Z)
    (manifest_cache_max : option Z) (env : option string) : ContentStore :=
  {| cs_node_id := node_id;
     cs_engine := {| se_data_dir := data_dir; se_shard_threshold := shard_threshold; se_shard_size := shard_size |};
     cs_cache_max := manifest_cache_bound manifest_cache_max env |}.

Section Store.
Context `{Zfec} `{AesGcm} (c : ContentStore).
#[local] Abbreviation method := (M storage Cache).

Definition cache_entry (content_hash : ContentHash) (entry : Entry) : method unit :=
  modify (cache_put (cs_cache_max c) (content_hash_hex content_hash) entry).

Definition store_and_encrypt (data : bytes) (owner : string) (replication_factor : Z) (visibility : string)
  : method (ContentHash * ShardManifest * bytes * list KeyShare) :=
  manifest ← engine_split (cs_engine c) data owner replication_factor visibility REPLICATION 6 10;
  let content_hash := sm_content_hash manifest in
  let '(threshold, num_shares) := select_threshold_params (zlen (sm_shard_hashes manifest)) in
  key ← perform (E := storage) (Urandom 32);
  nonce ← perform (E := storage) (Urandom 12);
  rnd ← perform (E := storage) Draws;
  '(ciphertext, key_shares) ←
    lift (encrypt_manifest key nonce rnd (utf8 (to_json manifest)) content_hash threshold num_shares);
  mret (content_hash, manifest, ciphertext, key_shares).

Definition decode_manifest (ciphertext : bytes) (key_shares : list KeyShare) : result ShardManifest :=
  manifest_bytes ← rethrow (λ e, bool_decide (e = InvalidTag)) ManifestError (decrypt_manifest ciphertext key_shares);
  rethrow is_value_error ManifestError (utf8_decode manifest_bytes ≫= from_json).

Definition store_local (data : bytes) (replication_factor : Z) : method ContentHash :=
  '(content_hash, manifest, ciphertext, key_shares) ←
    store_and_encrypt data (cs_node_id c) replication_factor "public";
  _ ← cache_entry content_hash (ciphertext, key_shares, manifest);
  mret content_hash.

Definition retrieve_local (content_hash : ContentHash) : method bytes :=
  d ← get;
  let '(entry, d') := cache_get (content_hash_hex content_hash) d in
  _ ← modify (λ _, d');
  match entry with
  | None => raise ContentNotFoundError
  | Some (_, _, manifest) => reassemble (cs_engine c) manifest
  end.

Definition exists_local (content_hash : ContentHash) (d : Cache) : bool :=
  dict_mem (content_hash_hex content_hash) d.

Definition size_local (content_hash : ContentHash) (d : Cache) : Z :=
  match dict_get (content_hash_hex content_hash) d with
  | None => 0
  | Some (_, _, manifest) => sm_total_size manifest
  end.

Definition store_local_with_artifacts (data : bytes) (replication_factor : Z) : method StorageArtifacts :=
  '(content_hash, manifest, ciphertext, key_shares) ←
    store_and_encrypt data (cs_node_id c) replication_factor "public";
  _ ← cache_entry content_hash (ciphertext, key_shares, manifest);
  mret {| sa_content_hash := content_hash; sa_encrypted_manifest := ciphertext; sa_key_shares := key_shares;
          sa_shard_paths := path_for (se_data_dir (cs_engine c)) <$> sm_shard_hashes manifest;
          sa_manifest := manifest |}.

(** The two integrity errors are constructed with one of their two arguments, so that
    what is raised is the constructor's [TypeError]. *)
Definition retrieve_with_artifacts (encrypted_manifest : bytes) (key_shares : list KeyShare)
    (shard_blobs : list bytes) : method bytes :=
  manifest ← lift (decode_manifest encrypted_manifest key_shares);
  _ ← lift (raise_if (negb (zlen shard_blobs =? zlen (sm_shard_hashes manifest))) TypeError);
  _ ← for_each (zip shard_blobs (sm_shard_hashes manifest)) (λ '(shard_blob, expected_hash),
        stored_hash ← blob_store (se_data_dir (cs_engine c)) shard_blob;
        lift (raise_if (negb (bool_decide (stored_hash = expected_hash))) TypeError));
  reassemble (cs_engine c) manifest.

(** The entry goes first; a deletion that fails leaves the rest of the blobs. *)
Definition delete_local (content_hash : ContentHash) : method unit :=
  let cache_key := content_hash_hex content_hash in
  d ← get;
  match dict_get cache_key d with
  | None => mret ()
  | Some (_, _, manifest) =>
      _ ← modify (dict_del cache_key);
      for_each (sm_shard_hashes manifest) (blob_delete (se_data_dir (cs_engine c)))
  end.
End Store.

(** * What the content store guarantees

    Content that was stored is retrieved unchanged or not at all, on the node that
    stored it and on any node that holds the artefacts. *)

#[local] Open Scope string_scope.
#[local] Open Scope list_scope.
#[local] Open Scope Z_scope.

(** ** Any history

    The files and the system answer whatever they like; calls follow each other and
    the process may stop at any point and start again with an empty cache. *)

Section History.
Context `{Zfec} `{AesGcm} (c : ContentStore).

Inductive content_call : Type :=
| StoreLocal (data : bytes) (replication_factor : Z)
| StoreWithArtifacts (data : bytes) (replication_factor : Z)
| RetrieveLocal (content_hash : ContentHash)
| RetrieveWithArtifacts (encrypted_manifest : bytes) (key_shares : list KeyShare) (shard_blobs : list bytes)
| DeleteLocal (content_hash : ContentHash).

(** The hash and the data that a call answers for. *)
Definition content_exec (call : content_call) : M storage Cache (option (ContentHash * bytes)) :=
  match call with
  | StoreLocal data rf => h ← store_local c data rf; mret (Some (h, data))
  | StoreWithArtifacts data rf => a ← store_local_with_artifacts c data rf; mret (Some (sa_content_hash a, data))
  | RetrieveLocal h => d ← retrieve_local c h; mret (Some (h, d))
  | RetrieveWithArtifacts em ks blobs =>
      d ← retrieve_with_artifacts c em ks blobs;
      m ← lift (decode_manifest em ks); mret (Some (sm_content_hash m, d))
  | DeleteLocal h => _ ← delete_local c h; mret None
  end.

(** The world is the list of the answers given. *)
Abbreviation Answers := (list (ContentHash * bytes)).
Definition content_calls (s : Cache) (w : Answers) (p : prog storage (result (option (ContentHash * bytes)) * Cache))
    (w' : Answers) : Prop := w' = w ∧ ∃ call, p = content_exec call s.
Definition content_returns (r : result (option (ContentHash * bytes))) (w w' : Answers) : Prop :=
  w' = match r with Ok (Some hd) => hd :: w | _ => w end.
Definition content_boots (w : Answers) (s : Cache) : Prop := s = [].

Abbreviation content_step :=
  (process_step (E := storage) (λ _ w _ w', w' = w) content_calls content_returns content_boots).

(** Every answer is content of its hash. *)
Definition genuine (hd : ContentHash * bytes) : Prop := from_data hd.2 (ch_algorithm hd.1) = Ok hd.1.
Definition answers_genuine (w : Answers) : Prop := Forall genuine w.

(** Entries are filed under the hash of their manifest. *)
Definition cache_inv (s : Cache) : Prop :=
  dict_wf s ∧ zlen s <= cs_cache_max c ∧
  Forall (λ kv : string * Entry, content_hash_hex (sm_content_hash kv.2.2) = kv.1) s.

#[local] Abbreviation wps := (wpm (E := storage) (λ _ w _ w', w' = w) answers_genuine).

Lemma wps_quiet {A} (m : M storage Cache A) Q s (w : Answers) :
  answers_genuine w → quiet m Q → wps m (λ r s' w', s' = s ∧ w' = w ∧ ∀ a, r = Ok a → Q a) s w.
Proof.
  intros Hw Hm. specialize (Hm s (∅ : Disk)). revert Hm. unfold wpm. generalize (m s) (∅ : Disk). intros p.
  induction p as [[r s']|e k IH]; intros d [_ Hp].
  - split; [done|]. destruct Hp. done.
  - split; [done|]. intros r w' ->. by apply (IH r d), Hp.
Qed.

(** ** The cache keeps its invariant *)

Hypothesis bound : 1 <= cs_cache_max c.

Lemma cache_inv_nil : cache_inv [].
Proof. split_and!; [apply NoDup_nil_2 | simpl; lia | constructor]. Qed.

Lemma cache_inv_sub s s' : cache_inv s → dict_wf s' → zlen s' <= cs_cache_max c → s' ⊆ s → cache_inv s'.
Proof.
  intros (_ & _ & Hs) Hwf Hlen Hsub. split_and!; [done..|]. rewrite Forall_forall in *. intros kv Hin. by apply Hs, Hsub.
Qed.

Lemma cache_inv_put h (entry : Entry) s :
  cache_inv s → sm_content_hash entry.2 = h → cache_inv (cache_put (cs_cache_max c) (content_hash_hex h) entry s).
Proof.
  intros (Hwf & Hlen & Hs) Hh. split_and!.
  - by apply (dict_wf_step _ s (Put (content_hash_hex h) entry)).
  - apply (cache_step_length _ s (Put (content_hash_hex h) entry)); [lia | done].
  - rewrite Forall_forall in *. intros kv [->|Hin]%elem_cache_put; [by rewrite <-Hh | by apply Hs | done].
Qed.

Lemma cache_inv_get k s : cache_inv s → cache_inv (cache_get k s).2.
Proof.
  intros Hi. pose proof Hi as (Hwf & Hlen & _). rewrite cache_get_spec by done. simpl. destruct (dict_mem k s); [|done].
  apply (cache_inv_sub s); [done | by apply dict_wf_move | by rewrite move_length |]. intros kv. apply elem_move.
Qed.

Lemma cache_inv_del k s : cache_inv s → cache_inv (dict_del k s).
Proof.
  intros Hi. pose proof Hi as (Hwf & Hlen & _). apply (cache_inv_sub s); [done | by apply dict_wf_del | |].
  - pose proof (sublist_length _ _ (dict_del_sublist k s)). lia.
  - intros kv. apply elem_dict_del_1.
Qed.

Lemma cache_inv_entry h s entry :
  cache_inv s → dict_get (content_hash_hex h) s = Some entry → sm_content_hash entry.2 = h.
Proof.
  intros (_ & _ & Hs) Hg%dict_get_elem. rewrite Forall_forall in Hs. specialize (Hs _ Hg). by apply (inj content_hash_hex).
Qed.

(** ** Every call *)

Definition call_ok {A} (m : M storage Cache A) (Q : A → Prop) : Prop :=
  ∀ s w, cache_inv s → answers_genuine w →
    wps m (λ r s' w', cache_inv s' ∧ w' = w ∧ ∀ a, r = Ok a → Q a) s w.

Lemma call_ok_quiet {A} (m : M storage Cache A) Q : quiet m Q → call_ok m Q.
Proof.
  intros Hm s w Hi Hw. eapply wpm_mono; [by apply wps_quiet|]. intros r s' w' _ (-> & -> & Hr). done.
Qed.

Lemma call_ok_bind {A B} (m : M storage Cache A) (f : A → M storage Cache B) P Q :
  call_ok m P → (∀ a, P a → call_ok (f a) Q) → call_ok (m ≫= f) Q.
Proof.
  intros Hm Hf s w Hi Hw. apply wpm_bind. eapply wpm_mono; [by apply Hm|].
  intros [a|e] s' w' _ (Hi' & -> & Hp); [by apply Hf; [apply Hp|..] | done].
Qed.

Lemma call_ok_modify f : (∀ s, cache_inv s → cache_inv (f s)) → call_ok (modify f) (λ _, True).
Proof. intros Hf s w Hi Hw. apply wpm_modify; [done|]. split_and!; [by apply Hf | done..]. Qed.

Lemma call_ok_ret {A} (a : A) (Q : A → Prop) : Q a → call_ok (mret a) Q.
Proof. intros Ha. by apply call_ok_quiet, quiet_ret. Qed.

Lemma store_and_encrypt_ok data owner rf vis :
  call_ok (store_and_encrypt c data owner rf vis) (λ '(h, m, _, _), h = hash_of data ∧ sm_content_hash m = h).
Proof.
  apply call_ok_quiet. unfold store_and_encrypt. eapply quiet_bind; [apply engine_split_quiet|]. intros m Hm.
  destruct (select_threshold_params _) as [t n].
  apply (quiet_ask (Urandom 32)). intros key. apply (quiet_ask (Urandom 12)). intros nonce. apply (quiet_ask Draws). intros rnd.
  eapply quiet_bind; [apply quiet_lift|]. intros [ct ks] _. by apply quiet_ret.
Qed.

Lemma store_local_ok data rf : call_ok (store_local c data rf) (λ h, h = hash_of data).
Proof.
  unfold store_local. eapply call_ok_bind; [apply store_and_encrypt_ok|]. intros [[[h m] ct] ks] [-> Hm].
  eapply call_ok_bind; [apply call_ok_modify; intros s Hs; by apply cache_inv_put|]. intros [] _. by apply call_ok_ret.
Qed.

Lemma store_artifacts_ok data rf : call_ok (store_local_with_artifacts c data rf) (λ a, sa_content_hash a = hash_of data).
Proof.
  unfold store_local_with_artifacts. eapply call_ok_bind; [apply store_and_encrypt_ok|]. intros [[[h m] ct] ks] [-> Hm].
  eapply call_ok_bind; [apply call_ok_modify; intros s Hs; by apply cache_inv_put|]. intros [] _. by apply call_ok_ret.
Qed.

Lemma retrieve_local_ok h : call_ok (retrieve_local c h) (λ d, genuine (h, d)).
Proof.
  intros s w Hi Hw. unfold retrieve_local. apply wpm_bind, wpm_get; [done|].
  pose proof (cache_inv_get (content_hash_hex h) s Hi) as Hi'. pose proof Hi as (Hwf & _).
  rewrite cache_get_spec in * by done. cbn [snd] in Hi'. cbv iota beta zeta.
  apply wpm_bind, wpm_modify; [done|]. destruct (dict_get (content_hash_hex h) s) as [[[ct ks] m]|] eqn:Hg.
  - pose proof (cache_inv_entry h s _ Hi Hg) as Hm. simpl in Hm.
    apply (call_ok_quiet _ (λ d, genuine (h, d))); [|done..]. eapply quiet_mono; [apply reassemble_quiet|]. intros d. by rewrite Hm.
  - by apply wpm_raise.
Qed.

Lemma retrieve_artifacts_ok em ks blobs m :
  decode_manifest em ks = Ok m → call_ok (retrieve_with_artifacts c em ks blobs) (λ d, genuine (sm_content_hash m, d)).
Proof.
  intros Hm. apply call_ok_quiet. unfold retrieve_with_artifacts. rewrite Hm. eapply quiet_bind; [apply quiet_lift|].
  intros m' [= <-]. eapply quiet_bind; [apply quiet_lift|]. intros _ _. eapply quiet_bind.
  - apply quiet_for_each with (P := λ _, True). intros [blob h]. eapply quiet_bind; [apply blob_store_quiet|].
    intros h' _. eapply quiet_mono; [apply quiet_lift | done].
  - intros [] _. apply reassemble_quiet.
Qed.

Lemma delete_local_ok h : call_ok (delete_local c h) (λ _, True).
Proof.
  intros s w Hi Hw. unfold delete_local. apply wpm_bind, wpm_get; [done|].
  destruct (dict_get _ s) as [[[ct ks] m]|]; [|by apply wpm_ret].
  apply wpm_bind, wpm_modify; [done|]. apply call_ok_quiet; [|by apply cache_inv_del | done].
  apply quiet_for_each with (P := λ _, True). intros x. apply blob_delete_quiet.
Qed.

Lemma content_exec_ok call : call_ok (content_exec call) (λ r, ∀ hd, r = Some hd → genuine hd).
Proof.
  destruct call as [data rf|data rf|h|em ks blobs|h]; unfold content_exec.
  - eapply call_ok_bind; [apply store_local_ok|]. intros h ->. apply call_ok_ret. by intros hd [= <-].
  - eapply call_ok_bind; [apply store_artifacts_ok|]. intros a ->. apply call_ok_ret. by intros hd [= <-].
  - eapply call_ok_bind; [apply retrieve_local_ok|]. intros d Hd. apply call_ok_ret. by intros hd [= <-].
  - destruct (decode_manifest em ks) as [m|e] eqn:Hm.
    + eapply call_ok_bind; [by apply retrieve_artifacts_ok|]. intros d Hd. eapply call_ok_bind; [apply call_ok_quiet, quiet_lift|].
      intros m' [= <-]. apply call_ok_ret. by intros hd [= <-].
    + unfold retrieve_with_artifacts. rewrite Hm. by apply call_ok_quiet, quiet_raise.
  - eapply call_ok_bind; [apply delete_local_ok|]. intros [] _. by apply call_ok_ret.
Qed.
End History.

(** C20 What is answered is genuine.  The content store serves any sequence of calls,
    over files and a system that answer anything, and may be stopped in the middle of
    a call and started anew.  Every hash and data that a store or a retrieval answers
    with belong together: the data has the hash, be it from this node's shards or
    from artefacts of another.  The cache keeps its bound, holds no key twice, and
    files every manifest under the hash of its content. *)
Theorem content_history `{Zfec} `{AesGcm} (c : ContentStore) n :
  1 <= cs_cache_max c →
  rtc (process_step (E := storage) (λ _ w _ w', w' = w) (content_calls c) content_returns content_boots)
      (Crashed, []) n →
  answers_genuine n.2 ∧ ∀ s, n.1 = Idle s → cache_inv c s.
Proof.
  intros Hb Hr. apply (process_reachable_inv _ _ _ _ answers_genuine (λ s _, cache_inv c s)) in Hr as [Hn Hw].
  - split; [done|]. intros s Hs. destruct n as [p w]. simpl in Hs. subst p. apply Hn.
  - intros s w p w' [-> [call ->]] Hw Hs. eapply wp_mono; [apply (content_exec_ok c Hb call s w Hs Hw)|].
    intros [r s'] w' Hw' (Hs' & -> & Hg) w2 ->. split; [|done]. simpl. destruct r as [[hd|]|e]; [|done..].
    constructor; [by eapply Hg | done].
  - intros w s -> _. by apply cache_inv_nil.
  - constructor.
Qed.

(** ** Artefacts *)

Section Artifacts.
Context `{ZfecLaws} `{AesGcmLaws} (faulty : Prop).

#[local] Abbreviation dir c := (se_data_dir (cs_engine c)).
#[local] Abbreviation wps c := (wpm (E := storage) (S := Cache) (disk_exec faulty) (addressed (dir c))).
#[local] Abbreviation chunks c data := (shard_contents (cs_engine c) data REPLICATION 6 10).

(** [threshold] of the key shares decode the manifest. *)
Definition opens (ks : list KeyShare) (ct : bytes) (threshold : Z) (m : ShardManifest) : Prop :=
  ∀ sub, sub ⊆ ks → NoDup (ks_share_index <$> sub) → threshold <= zlen sub → decode_manifest ct sub = Ok m.

Lemma select_threshold_bounds n :
  let '(t, num) := select_threshold_params n in 2 <= t <= num ∧ num <= 255.
Proof. unfold select_threshold_params. destruct (n <? 10); [lia|]. destruct (n <? 100); lia. Qed.

(** Encrypting a manifest fails only for its length. *)
Lemma encrypt_opens key nonce rnd m h t num :
  length key = 32%nat → length nonce = 12%nat → draws rnd → 2 <= t <= num → num <= 255 → manifest_ok m = true →
  match encrypt_manifest key nonce rnd (utf8 (to_json m)) h t num with
  | Ok (ct, ks) => opens ks ct t m ∧ ks_share_index <$> ks = seqZ 1 num
  | Err x => x = OverflowError
  end.
Proof.
  intros Hk Hn Hr Ht Hnum Hm. pose proof (manifest_shares key nonce rnd (utf8 (to_json m)) h t num Hk Hn Hr Ht Hnum) as Hs.
  destruct (encrypt_manifest key nonce rnd (utf8 (to_json m)) h t num) as [[ct ks]|x]; [|done].
  destruct Hs as [Hidx Hdec]. split; [|done]. intros sub Hsub Hnd Hlen. unfold decode_manifest.
  rewrite Hdec by done. cbn [rethrow mbind result_bind].
  by rewrite manifest_bytes_roundtrip.
Qed.

(** What a store leaves behind. *)
Definition stored_content (c : ContentStore) (data : bytes) (w : Disk)
    (h : ContentHash) (m : ShardManifest) (ct : bytes) (ks : list KeyShare) : Prop :=
  h = hash_of data ∧ sm_content_hash m = h ∧ sm_total_size m = zlen data ∧ sm_sharding_mode m = REPLICATION ∧
  Forall2 (stored (dir c) w) (sm_shard_hashes m) (chunks c data) ∧
  opens ks ct (select_threshold_params (zlen (chunks c data))).1 m.

Definition can_store (c : ContentStore) (data : bytes) (w : Disk) : Prop :=
  addressed (dir c) w ∧ 0 < se_shard_size (cs_engine c) ∧ ascii_str (cs_node_id c) = true ∧
  no_sha_collision w (chunks c data).

Lemma chunks_data c data : 0 < se_shard_size (cs_engine c) → concat (chunks c data) = data.
Proof.
  intros Hs. unfold shard_contents. destruct (chunks_of_Ok (cs_engine c) data Hs) as [cs Hc]. rewrite Hc.
  by apply (chunks_concat (cs_engine c)).
Qed.

Lemma store_and_encrypt_spec c data rf s w :
  can_store c data w →
  wps c (store_and_encrypt c data (cs_node_id c) rf "public")
    (λ r s' w', s' = s ∧ w ⊆ w' ∧
       match r with
       | Ok (h, m, ct, ks) => stored_content c data w' h m ct ks
       | Err x => faulty ∨ x = OverflowError
       end) s w.
Proof.
  intros (Hw & Hs & Hid & Hn). unfold store_and_encrypt. apply wpm_bind.
  eapply wpm_mono; [apply (split_spec (cs_engine c) faulty); [done | by split; [|done] | done]|].
  intros [m|x] s1 w1 Hw1 (-> & Hsub & Hr); [|split_and!; [done..|by left]].
  destruct Hr as (Hh & Htot & Hmode & Hok & Hst & _). specialize (Hok Hid eq_refl).
  pose proof (Forall2_length _ _ _ Hst) as Hlen. rewrite Hlen.
  pose proof (select_threshold_bounds (zlen (chunks c data))) as Hb.
  destruct (select_threshold_params (zlen (chunks c data))) as [t num] eqn:Hp.
  apply wpm_bind, (wpm_perform (E := storage) (disk_exec faulty) _ (Urandom 32)); [done|]. intros key w2 [Hk ->]. split; [done|].
  apply wpm_bind, (wpm_perform (E := storage) (disk_exec faulty) _ (Urandom 12)); [done|]. intros nonce w2 [Hnc ->]. split; [done|].
  apply wpm_bind, (wpm_perform (E := storage) (disk_exec faulty) _ Draws); [done|]. intros rnd w2 [Hr ->]. split; [done|].
  pose proof (encrypt_opens key nonce rnd m (sm_content_hash m) t num Hk Hnc Hr (proj1 Hb) (proj2 Hb) Hok) as He.
  apply wpm_check; [done | |].
  - intros [ct ks] Hct. rewrite Hct in He. destruct He as [He _]. apply wpm_ret; [done|].
    unfold stored_content. rewrite Hp. split_and!; try done.
  - intros x Hx. rewrite Hx in He. split_and!; [done..|by right].
Qed.

(** Staging the blobs that a manifest names. *)
Lemma stage_blobs_spec e blobs cs s w :
  addressed (se_data_dir e) w → no_sha_collision w cs → blobs ⊆ cs →
  wpm (E := storage) (S := Cache) (disk_exec faulty) (addressed (se_data_dir e))
    (for_each (zip blobs (hash_of <$> blobs)) (λ '(shard_blob, expected_hash),
        stored_hash ← blob_store (se_data_dir e) shard_blob;
        lift (raise_if (negb (bool_decide (stored_hash = expected_hash))) TypeError)))
    (λ r s' w', s' = s ∧ w ⊆ w' ∧
       match r with Ok _ => Forall2 (stored (se_data_dir e) w') (hash_of <$> blobs) blobs | Err _ => faulty end) s w.
Proof.
  revert w. induction blobs as [|b blobs IH]; intros w Hw Hn Hsub; cbn [for_each zip_with fmap list_fmap].
  - apply wpm_ret; [done|]. split_and!; [done..|constructor].
  - apply wpm_bind, wpm_bind. eapply wpm_mono; [apply (blob_store_stored e faulty); [done | exact Hn | set_solver]|].
    intros [h|x] s1 w1 Hw1 (-> & Hs1 & Hn1 & Hh); [|done]. apply wpm_lift; [done|].
    rewrite bool_decide_true by apply Hh. cbn [negb raise_if].
    eapply wpm_mono; [apply IH; [done..|set_solver]|]. intros r s2 w2 Hw2 (-> & Hs2 & Hr).
    split_and!; [done | by etrans |]. destruct r; [|done]. constructor; [|done].
    destruct Hh as [-> Hd]. split; [done|]. by eapply lookup_weaken.
Qed.

Lemma stored_present e w (hs : list ContentHash) cs : Forall2 (stored (se_data_dir e) w) hs cs → present e w hs = zlen hs.
Proof.
  intros Hst. unfold present. f_equal. f_equal. apply filter_all, Forall_forall. intros h [i Hi]%list_elem_of_lookup.
  destruct (Forall2_lookup_l _ _ _ _ _ Hst Hi) as (b & _ & _ & Hb). by eexists.
Qed.

(** All of them are there, counted. *)
Lemma all_present e w hs :
  (zlen hs <=? present e w hs) = bool_decide (Forall (λ h, is_Some (w !! path_for (se_data_dir e) h)) hs).
Proof.
  induction hs as [|h hs IH]; [done|]. unfold present in *. rewrite filter_cons.
  pose proof (length_filter (λ h, is_Some (w !! path_for (se_data_dir e) h)) hs) as Hle. case_decide as Hp.
  - cbn [length]. rewrite !Nat2Z.inj_succ, leb_succ, IH. apply bool_decide_ext. rewrite Forall_cons. tauto.
  - rewrite bool_decide_false by (rewrite Forall_cons; tauto). cbn [length].
    apply Z.leb_gt. rewrite Nat2Z.inj_succ. lia.
Qed.

Lemma stored_hashes d w hs cs : Forall2 (stored d w) hs cs → hs = hash_of <$> cs.
Proof. intros Hst. apply list_eq_Forall2, Forall2_fmap_r. eapply Forall2_impl; [exact Hst|]. by intros h b [-> _]. Qed.

(** Retrieval on a node that is given the artefacts. *)
Lemma retrieve_with_artifacts_spec c em sub m data blobs s w :
  decode_manifest em sub = Ok m → sm_sharding_mode m = REPLICATION → sm_content_hash m = hash_of data →
  sm_shard_hashes m = hash_of <$> blobs → concat blobs = data → addressed (dir c) w → no_sha_collision w blobs →
  wps c (retrieve_with_artifacts c em sub blobs)
    (λ r s' w', s' = s ∧ w ⊆ w' ∧ match r with Ok d => d = data | Err _ => faulty end) s w.
Proof.
  intros Hdec Hmode Hh Hhs Hcat Hw Hn. unfold retrieve_with_artifacts. rewrite Hdec.
  apply wpm_check; [done | | done]. intros m' [= <-]. rewrite Hhs, length_fmap, Z.eqb_refl.
  apply wpm_check; [done | | done]. intros _ _.
  apply wpm_bind. eapply wpm_mono; [by apply (stage_blobs_spec (cs_engine c) blobs blobs)|].
  intros [[]|x] s1 w1 Hw1 (-> & Hsub & Hst); [|done].
  eapply wpm_mono; [by apply (reassemble_spec _ faulty)|]. intros r s2 w2 _ (-> & -> & ->). split_and!; [done..|].
  rewrite (reassembled_chunks (cs_engine c) w1 m data blobs); try done.
  - rewrite Hhs, (stored_present _ _ _ _ Hst). by rewrite Z.leb_refl.
  - rewrite Hhs. eapply Forall2_impl; [exact Hst|]. apply intact_mono.
Qed.

(** C21 Content travels with its artefacts.  Storing content on one node answers with
    the content's hash and, at the paths it names, the shards; it raises only when a
    write fails or the manifest is too long to encrypt.  Any node with those shard
    bytes, the encrypted manifest and any threshold of the key shares, in any order,
    retrieves exactly the content, whatever else it holds and wherever its own
    directory is; it raises only when a write fails. *)
Theorem artifacts_roundtrip c1 c2 data rf s1 w1 :
  can_store c1 data w1 →
  wps c1 (store_local_with_artifacts c1 data rf)
    (λ r _ w1',
       match r with
       | Err x => faulty ∨ x = OverflowError
       | Ok a =>
           sa_content_hash a = hash_of data ∧
           ∃ blobs, Forall2 (λ p b, w1' !! p = Some b) (sa_shard_paths a) blobs ∧
           ∀ sub s2 w2, sub ⊆ sa_key_shares a → NoDup (ks_share_index <$> sub) →
             (select_threshold_params (zlen blobs)).1 <= zlen sub →
             addressed (dir c2) w2 → no_sha_collision w2 blobs →
             wps c2 (retrieve_with_artifacts c2 (sa_encrypted_manifest a) sub blobs)
               (λ r _ _, match r with Ok d => d = data | Err _ => faulty end) s2 w2
       end) s1 w1.
Proof.
  intros Hc. pose proof Hc as (Hw & Hs & _). unfold store_local_with_artifacts. apply wpm_bind.
  eapply wpm_mono; [by apply store_and_encrypt_spec|].
  intros [[[[h m] ct] ks]|x] s' w1' Hw1' (-> & _ & Hr); [|done].
  destruct Hr as (-> & Hh & _ & Hmode & Hst & Hop).
  apply wpm_bind, wpm_modify; [done|]. apply wpm_ret; [done|]. cbn [sa_content_hash sa_shard_paths sa_key_shares sa_encrypted_manifest].
  split; [done|]. exists (chunks c1 data). split.
  - apply Forall2_fmap_l. eapply Forall2_impl; [exact Hst|]. by intros h b [_ Hb].
  - intros sub s2 w2 Hsub Hnd Hlen Hw2 Hn2.
    eapply wpm_mono; [eapply (retrieve_with_artifacts_spec c2 ct sub m data (chunks c1 data)); try done|].
    + by apply Hop.
    + by eapply stored_hashes.
    + by apply chunks_data.
    + by intros r s2' w2' _ (_ & _ & Hr).
Qed.

(** Content is found again where it was stored.  A store answers with the hash of
    the data, under which it is then known with its size.  Whatever other files come and
    go, retrieval by that hash returns exactly the data while every shard is there, and
    raises ContentNotFoundError when one is gone; it changes no file. *)
Theorem local_roundtrip c data rf s w :
  1 <= cs_cache_max c → dict_wf s → can_store c data w →
  wps c (store_local c data rf)
    (λ r s' w', w ⊆ w' ∧
       match r with
       | Err x => s' = s ∧ (faulty ∨ x = OverflowError)
       | Ok h =>
           h = hash_of data ∧ exists_local h s' = true ∧ size_local h s' = zlen data ∧
           ∀ w2, addressed (dir c) w2 →
             Forall (λ b, w2 !! path_for (dir c) (hash_of b) = Some b ∨ w2 !! path_for (dir c) (hash_of b) = None) (chunks c data) →
             wps c (retrieve_local c h)
               (λ r _ w2', w2' = w2 ∧
                  r = if bool_decide (Forall (λ b, is_Some (w2 !! path_for (dir c) (hash_of b))) (chunks c data))
                      then Ok data else Err ContentNotFoundError) s' w2
       end) s w.
Proof.
  intros Hb Hwf Hc. pose proof Hc as (Hw & Hs & _). unfold store_local. apply wpm_bind.
  eapply wpm_mono; [by apply store_and_encrypt_spec|].
  intros [[[[h m] ct] ks]|x] s' w1 Hw1 (-> & Hsub & Hr); [|done].
  destruct Hr as (-> & Hh & Htot & Hmode & Hst & _).
  apply wpm_bind, wpm_modify; [done|]. apply wpm_ret; [done|]. split; [done|]. split; [done|].
  destruct (recent_new (cs_cache_max c) (content_hash_hex (hash_of data)) (ct, ks, m) s) as [Hg _]; [lia | done|].
  pose proof (dict_wf_step (cs_cache_max c) s (Put (content_hash_hex (hash_of data)) (ct, ks, m)) Hwf) as Hwf'. cbn [cache_step] in Hwf'.
  split_and!.
  - unfold exists_local, dict_mem. rewrite Hg. by rewrite bool_decide_true.
  - unfold size_local. by rewrite Hg.
  - intros w2 Hw2 Hi. unfold retrieve_local. apply wpm_bind, wpm_get; [done|]. rewrite cache_get_spec, Hg by done. cbv iota beta zeta.
    apply wpm_bind, wpm_modify; [done|]. eapply wpm_mono; [by apply (reassemble_spec _ faulty)|].
    intros r s2 w2' _ (-> & -> & ->). split; [done|].
    apply stored_hashes in Hst. rewrite (reassembled_chunks (cs_engine c) w2 m data (chunks c data)).
    + rewrite all_present, Hst. by erewrite bool_decide_ext by apply Forall_fmap.
    + done.
    + done.
    + rewrite Hst. apply Forall2_fmap_l, Forall_Forall2_diag. eapply Forall_impl; [exact Hi|]. by split.
    + by apply chunks_data.
Qed.
End Artifacts.
