(* ===== verification/StorageExample.v ===== *)
(** * The storage components, executed

    A disk that answers as [disk_exec] allows, and the theorems of the storage
    components applied to runs on it. *)
From Stdlib Require Import ZArith Lia.
From S2P Require Import PyStd.
From S2P Require Import Effects.
From S2P Require Import Zfec.
From S2P Require Import Erasure.
From S2P Require Import AesGcm.
From S2P Require Import StorageModels.
From S2P Require Import PyJson.
From S2P Require Import ManifestJson.
From S2P Require Import BlobStore.
From S2P Require Import ShardEngine.
From S2P Require Import KeyManager.
From S2P Require Import Shamir.
From S2P Require Import Lru.
From S2P Require Import ContentStore.
From S2P Require Import Prelude.

#[local] Open Scope string_scope.
#[local] Open Scope list_scope.
#[local] Open Scope Z_scope.

Import ReedSolomon ToyGcm.

(** ** A disk without faults *)

Definition disk_answer (r : storage_request) (w : Disk) : option (storage_response r * Disk) :=
  match r with
  | FileExists p => Some (bool_decide (is_Some (w !! p)), w)
  | WriteFile p d => Some (Ok tt, <[p := d]> w)
  | ReadFile p => Some (of_option OSError (w !! p), w)
  | Unlink p => Some (Ok (bool_decide (is_Some (w !! p))), delete p w)
  | Clock => Some ("1760000000.5", w)
  | Urandom n => Some (replicate n x2a, w)
  | Draws => Some (rnd0, w)
  end.

Lemma disk_answer_exec r w x w' : disk_answer r w = Some (x, w') → disk_exec False r w x w'.
Proof.
  destruct r; simpl; intros [= <- <-]; auto.
  - split; [apply length_replicate | done].
  - split; [apply rnd0_draws | done].
Qed.

Lemma run_disk {S A} d (m : M storage S A) Q s w r s' w' :
  wpm (E := storage) (disk_exec False) (addressed d) m Q s w →
  run (E := storage) disk_answer (m s) w = Some ((r, s'), w') → addressed d w' ∧ Q r s' w'.
Proof.
  intros Hm Hr. eapply (run_wp (disk_exec False) disk_answer _ _ _ _ _ _ disk_answer_exec) in Hr.
  2: { eapply wpm_mono; [exact Hm|]. intros r1 s1 w1 Hw1 Hq1. exact (conj Hw1 Hq1). }
  exact Hr.
Qed.

Lemma addressed_empty d : addressed d ∅.
Proof. intros p x Hx. by rewrite lookup_empty in Hx. Qed.

(** Contents whose digests differ. *)
Lemma no_sha_collision_empty cs : NoDup (sha256 <$> cs) → no_sha_collision ∅ cs.
Proof.
  intros Hnd x y [Hx|[p Hp]] Hy Hxy; [|by rewrite lookup_empty in Hp]. by eapply NoDup_fmap_inj_on.
Qed.

(** ** Two of three coded shards *)

Definition e0 : ShardEngine := {| se_data_dir := "/var/prsm"; se_shard_threshold := 4; se_shard_size := 3 |}.

Definition run0 : option (result ShardManifest * unit * Disk) :=
  Eval vm_compute in run (E := storage) disk_answer (engine_split e0 payload0 "owner" 3 "public" ERASURE 2 3 tt) ∅.

Definition manifest0 : ShardManifest :=
  match run0 with
  | Some (Ok m, _, _) => m
  | _ => {| sm_content_hash := hash_of []; sm_shard_hashes := []; sm_total_size := 0; sm_shard_size := 0;
            sm_algorithm_id := SHA256; sm_created_at := ""; sm_replication_factor := 0; sm_owner_node_id := "";
            sm_visibility := ""; sm_sharding_mode := REPLICATION; sm_erasure_params := None |}
  end.
Definition disk0 : Disk := match run0 with Some (_, _, w) => w | None => ∅ end.

(** The first coded shard is lost. *)
Definition lost_path : string := path_for "/var/prsm" (hash_of (default [] (head (es_data <$> coded0.2)))).
Definition disk1 : Disk := delete lost_path disk0.

Lemma run0_split :
  run (E := storage) disk_answer (engine_split e0 payload0 "owner" 3 "public" ERASURE 2 3 tt) ∅ = Some (Ok manifest0, tt, disk0).
Proof. vm_cast_no_check (eq_refl run0). Qed.

Definition ran {A} (o : option A) : bool := match o with Some _ => true | None => false end.

Lemma reassemble0_ran : ran (run (E := storage) disk_answer (reassemble e0 manifest0 tt) disk1) = true.
Proof. vm_cast_no_check (eq_refl true). Qed.

Lemma present0 : present e0 disk1 (sm_shard_hashes manifest0) = 2.
Proof. vm_cast_no_check (eq_refl 2). Qed.

Lemma contents0 : NoDup (sha256 <$> shard_contents e0 payload0 ERASURE 2 3).
Proof. apply (bool_decide_unpack _). vm_compute. exact I. Qed.

Lemma shard_roundtrip_witness :
  run (E := storage) disk_answer (engine_split e0 payload0 "owner" 3 "public" ERASURE 2 3 tt) ∅ = Some (Ok manifest0, tt, disk0) ∧
  present e0 disk1 (sm_shard_hashes manifest0) = 2 ∧
  (run (E := storage) disk_answer (reassemble e0 manifest0 tt) disk1) = Some (Ok payload0, tt, disk1).
Proof.
  split; [exact run0_split|]. split; [exact present0|].
  destruct (run_disk "/var/prsm" _ _ tt ∅ _ _ _
              (shard_roundtrip e0 False payload0 "owner" 3 "public" ERASURE 2 3 tt ∅ (addressed_empty _)
                 ltac:(split; [reflexivity | intros _; split; [split; discriminate | split; discriminate]])
                 (no_sha_collision_empty _ contents0)) run0_split) as (Hw & _ & _ & _ & _ & Hre).
  pose proof reassemble0_ran as Hran.
  destruct (run (E := storage) disk_answer (reassemble e0 manifest0 tt) disk1) as [[[r []] w2]|] eqn:Hrun; [clear Hran | discriminate Hran].
  destruct (run_disk "/var/prsm" _ _ tt disk1 _ _ _ (Hre disk1 (addressed_delete _ _ _ Hw)
    ltac:(apply Forall_forall; intros h _; unfold disk1; destruct (decide (lost_path = path_for "/var/prsm" h)) as [Heq|Hne];
          [right; rewrite Heq; apply lookup_delete_eq | left; apply lookup_delete_ne; exact Hne])) Hrun) as (_ & _ & -> & ->).
  change (se_data_dir e0) with "/var/prsm". rewrite present0. reflexivity.
Defined.

(** ** A store and a retrieval *)

Definition c0 : ContentStore := content_store "/var/prsm" "node-1" 4 3 (Some 2) None.
Definition data0 : bytes := utf8 "PRSM store".

Definition dummy : Disk * Cache := (∅, []).

(** The disk and the cache after storing. *)
Definition after0 : Disk * Cache :=
  Eval vm_compute in
    match run (E := storage) disk_answer (store_local c0 data0 3 []) ∅ with
    | Some (Ok _, s, w) => (w, s) | _ => dummy
    end.

Lemma store0 :
  run (E := storage) disk_answer (store_local c0 data0 3 []) ∅ = Some (Ok (hash_of data0), after0.2, after0.1).
Proof. vm_cast_no_check (eq_refl (Some (Ok (hash_of data0), after0.2, after0.1))). Qed.

Lemma chunks0 : NoDup (sha256 <$> shard_contents (cs_engine c0) data0 REPLICATION 6 10).
Proof. apply (bool_decide_unpack _). vm_compute. exact I. Qed.

Lemma can_store0 : can_store c0 data0 ∅.
Proof.
  split_and!; [apply addressed_empty | reflexivity | reflexivity | apply no_sha_collision_empty, chunks0].
Qed.

(** The last shard is lost. *)
Definition disk2 : Disk := delete (path_for "/var/prsm" (hash_of (utf8 "e"))) after0.1.

#[local] Abbreviation dir0 := (se_data_dir (cs_engine c0)).
#[local] Abbreviation chunks_of0 := (shard_contents (cs_engine c0) data0 REPLICATION 6 10).
#[local] Abbreviation retrieve0 w :=
  (run (E := storage) disk_answer (retrieve_local c0 (hash_of data0) after0.2) w).

Lemma retrieved_all : ran (retrieve0 after0.1) = true.
Proof. vm_cast_no_check (eq_refl true). Qed.

Lemma retrieved_lost : ran (retrieve0 disk2) = true.
Proof. vm_cast_no_check (eq_refl true). Qed.

Lemma all_there : bool_decide (Forall (λ b, is_Some (after0.1 !! path_for dir0 (hash_of b))) chunks_of0) = true.
Proof. vm_cast_no_check (eq_refl true). Qed.

Lemma one_lost : bool_decide (Forall (λ b, is_Some (disk2 !! path_for dir0 (hash_of b))) chunks_of0) = false.
Proof. vm_cast_no_check (eq_refl false). Qed.

Lemma stored0 :
  forallb (λ b, bool_decide (after0.1 !! path_for dir0 (hash_of b) = Some b)) chunks_of0 = true.
Proof. vm_cast_no_check (eq_refl true). Qed.

(** Shards that are as stored, or gone. *)
Lemma still_there d (w : Disk) cs :
  forallb (λ b, bool_decide (w !! path_for d (hash_of b) = Some b)) cs = true →
  Forall (λ b, w !! path_for d (hash_of b) = Some b ∨ w !! path_for d (hash_of b) = None) cs.
Proof.
  induction cs as [|b cs IH]; [constructor|]. cbn [forallb]. intros [Hb%bool_decide_eq_true Hc]%andb_true_iff.
  constructor; [by left | by apply IH].
Qed.

Lemma still_there_delete d (w : Disk) (p : string) cs :
  forallb (λ b, bool_decide (w !! path_for d (hash_of b) = Some b)) cs = true →
  Forall (λ b, delete p w !! path_for d (hash_of b) = Some b ∨ delete p w !! path_for d (hash_of b) = None) cs.
Proof.
  intros Hf%still_there. eapply Forall_impl; [exact Hf|]. intros b Hb.
  destruct (decide (p = path_for d (hash_of b))) as [->|Hne]; [right; apply lookup_delete_eq|].
  simpl in *. by rewrite lookup_delete_ne.
Qed.

Lemma local_roundtrip_witness :
  run (E := storage) disk_answer (store_local c0 data0 3 []) ∅ = Some (Ok (hash_of data0), after0.2, after0.1) ∧
  (∃ s, retrieve0 after0.1 = Some (Ok data0, s, after0.1)) ∧
  (∃ s, retrieve0 disk2 = Some (Err ContentNotFoundError, s, disk2)).
Proof.
  split; [exact store0|].
  destruct (run_disk dir0 _ _ [] ∅ _ _ _
              (local_roundtrip False c0 data0 3 [] ∅ ltac:(discriminate) (NoDup_nil_2) can_store0) store0)
    as (Hw & _ & _ & _ & _ & Hre). split.
  - pose proof retrieved_all as Hran. destruct (retrieve0 after0.1) as [[[r s] w]|] eqn:Hrun; [clear Hran|discriminate Hran].
    destruct (run_disk dir0 _ _ _ _ _ _ _ (Hre after0.1 Hw (still_there _ _ _ stored0)) Hrun) as (_ & -> & ->).
    rewrite all_there. exists s. reflexivity.
  - pose proof retrieved_lost as Hran. destruct (retrieve0 disk2) as [[[r s] w]|] eqn:Hrun; [clear Hran|discriminate Hran].
    destruct (run_disk dir0 _ _ _ _ _ _ _ (Hre disk2 (addressed_delete _ _ _ Hw) (still_there_delete _ _ _ _ stored0)) Hrun)
      as (_ & -> & ->).
    rewrite one_lost. exists s. reflexivity.
Defined.

(** ** Another node *)

Definition c1 : ContentStore := content_store "/srv/other" "node-2" 1048576 262144 None (Some " 7 ").
#[local] Abbreviation dir1 := (se_data_dir (cs_engine c1)).

Definition no_artifacts : StorageArtifacts :=
  {| sa_content_hash := hash_of []; sa_encrypted_manifest := []; sa_key_shares := []; sa_shard_paths := [];
     sa_manifest := manifest0 |}.

Definition published : option (result StorageArtifacts * Cache * Disk) :=
  Eval vm_compute in run (E := storage) disk_answer (store_local_with_artifacts c0 data0 3 []) ∅.
Definition artifacts0 : StorageArtifacts := match published with Some (Ok a, _, _) => a | _ => no_artifacts end.
Definition published_cache : Cache := match published with Some (_, s, _) => s | None => [] end.
Definition published_disk : Disk := match published with Some (_, _, w) => w | None => ∅ end.

Lemma publish0 :
  run (E := storage) disk_answer (store_local_with_artifacts c0 data0 3 []) ∅ =
  Some (Ok artifacts0, published_cache, published_disk).
Proof. vm_cast_no_check (eq_refl published). Qed.

(** The shard files, and the last three of the five key shares. *)
Definition blobs0 : list bytes := (λ p, default [] (published_disk !! p)) <$> sa_shard_paths artifacts0.
Definition shares35 : list KeyShare := reverse (drop 2 (sa_key_shares artifacts0)).

Lemma blobs_unique (w : Disk) ps blobs :
  Forall2 (λ p b, w !! p = Some b) ps blobs → blobs = (λ p, default [] (w !! p)) <$> ps.
Proof. induction 1 as [|p b ps blobs Hp _ IH]; [done|]. rewrite fmap_cons, <-IH, Hp. done. Qed.

Lemma blobs0_digests : NoDup (sha256 <$> blobs0).
Proof. apply (bool_decide_unpack _). vm_cast_no_check I. Qed.

Lemma shares35_indices : NoDup (ks_share_index <$> shares35).
Proof. apply (bool_decide_unpack _). vm_cast_no_check I. Qed.

Lemma shares35_enough : ((select_threshold_params (zlen blobs0)).1 <=? zlen shares35) = true.
Proof. vm_cast_no_check (eq_refl true). Qed.

#[local] Abbreviation fetched :=
  (run (E := storage) disk_answer (retrieve_with_artifacts c1 (sa_encrypted_manifest artifacts0) shares35 blobs0 []) ∅).

Lemma fetched_ran : match fetched with Some (Ok _, _, _) => true | _ => false end = true.
Proof. vm_cast_no_check (eq_refl true). Qed.

Lemma artifacts_roundtrip_witness :
  run (E := storage) disk_answer (store_local_with_artifacts c0 data0 3 []) ∅ =
    Some (Ok artifacts0, published_cache, published_disk) ∧
  ∃ s w, fetched = Some (Ok data0, s, w).
Proof.
  split; [exact publish0|].
  destruct (run_disk dir0 _ _ [] ∅ _ _ _ (artifacts_roundtrip False c0 c1 data0 3 [] ∅ can_store0) publish0)
    as (_ & _ & blobs & Hblobs & Hfetch).
  apply blobs_unique in Hblobs. fold blobs0 in Hblobs. rewrite Hblobs in Hfetch.
  pose proof fetched_ran as Hran. destruct fetched as [[[[d|x] s] w]|] eqn:Hrun; [clear Hran | discriminate Hran..].
  destruct (run_disk dir1 _ _ _ _ _ _ _
    (Hfetch shares35 [] ∅ (rev_drop_subseteq 2 _) shares35_indices (proj1 (Z.leb_le _ _) shares35_enough)
       (addressed_empty _) (no_sha_collision_empty _ blobs0_digests)) Hrun) as (_ & ->).
  exists s, w. reflexivity.
Defined.

(** ** A history *)

(** The responses of a node that has the files of [data0]. *)
Definition history_answer (r : storage_request) (w : list (ContentHash * bytes))
  : option (storage_response r * list (ContentHash * bytes)) :=
  '(x, _) ← disk_answer r after0.1; Some (x, w).

Lemma history_answer_exec r w x w' : history_answer r w = Some (x, w') → w' = w.
Proof. unfold history_answer. destruct (disk_answer r after0.1) as [[y d]|]; [|done]. by intros [= _ <-]. Qed.

#[local] Abbreviation step := (process_step (E := storage) (λ _ w _ w', w' = w) (content_calls c0) content_returns content_boots).

(** One call, from start to return. *)
Lemma served call s w r s' w' :
  run (E := storage) history_answer (content_exec c0 call s) w = Some ((r, s'), w) →
  content_returns r w w' → rtc step (Idle s, w) (Idle s', w').
Proof.
  intros Hrun Hret. eapply rtc_l; [apply process_call; split; [done | by exists call]|].
  etrans; [eapply (run_process _ _ _ _ history_answer); [apply history_answer_exec | exact Hrun]|].
  eapply rtc_l; [by apply process_return | apply rtc_refl].
Qed.

Definition answer0 : ContentHash * bytes := (hash_of data0, data0).

Definition cache_after (r : option (result (option (ContentHash * bytes)) * Cache * list (ContentHash * bytes))) : Cache :=
  match r with Some (_, s, _) => s | None => [] end.
Definition history1 : Cache :=
  Eval vm_compute in cache_after (run (E := storage) history_answer (content_exec c0 (StoreLocal data0 3) []) []).
Definition history2 : Cache :=
  Eval vm_compute in cache_after (run (E := storage) history_answer (content_exec c0 (RetrieveLocal (hash_of data0)) history1) [answer0]).

Lemma history_store :
  run (E := storage) history_answer (content_exec c0 (StoreLocal data0 3) []) [] = Some (Ok (Some answer0), history1, []).
Proof. vm_cast_no_check (eq_refl (Some (Ok (Some answer0), history1, @nil (ContentHash * bytes)))). Qed.

Lemma history_retrieve :
  run (E := storage) history_answer (content_exec c0 (RetrieveLocal (hash_of data0)) history1) [answer0] =
  Some (Ok (Some answer0), history2, [answer0]).
Proof. vm_cast_no_check (eq_refl (Some (Ok (Some answer0), history2, [answer0]))). Qed.

Lemma content_history_witness :
  rtc step (Crashed, []) (Idle history2, [answer0; answer0]) ∧ answers_genuine [answer0; answer0] ∧ cache_inv c0 history2.
Proof.
  assert (rtc step (Crashed, []) (Idle history2, [answer0; answer0])) as Hr.
  { eapply rtc_l; [apply process_boot; reflexivity|].
    etrans; [eapply (served _ _ _ _ _ _ history_store); reflexivity|].
    eapply (served _ _ _ _ _ _ history_retrieve). reflexivity. }
  split; [exact Hr|]. destruct (content_history c0 (Idle history2, [answer0; answer0]) ltac:(discriminate) Hr) as [Hg Hc].
  split; [exact Hg | apply Hc; reflexivity].
Defined.

(** ** Two contents with a chunk in common *)

Definition data_b : bytes := utf8 "PRSxyz".

(** Deleting one takes the shard of the other, which is still listed. *)
Definition shared_chunk : M storage Cache (bool * result bytes) :=
  a ← store_local c0 data0 3; b ← store_local c0 data_b 3; _ ← delete_local c0 a;
  listed ← gets (exists_local b); r ← try (retrieve_local c0 b); mret (listed, r).

Lemma shared_shard_lost :
  match run (E := storage) disk_answer (shared_chunk []) ∅ with
  | Some (r, _, _) => r = Ok (true, Err ContentNotFoundError) | None => False
  end.
Proof. vm_cast_no_check (eq_refl (Ok (true, @Err bytes ContentNotFoundError))). Qed.

(** A missing blob: the error that is raised is not the documented one. *)
Lemma wrong_count_type_error c em ks blobs m s w :
  decode_manifest em ks = Ok m → zlen blobs ≠ zlen (sm_shard_hashes m) →
  wpm (E := storage) (disk_exec True) (λ _, True) (retrieve_with_artifacts c em ks blobs)
    (λ r s' w', r = Err TypeError ∧ s' = s ∧ w' = w) s w.
Proof.
  intros Hm Hne. unfold retrieve_with_artifacts. rewrite Hm. apply wpm_check; [done | | done]. intros m' [= <-].
  apply wpm_check; [done | |].
  - intros u Hu%raise_if_Ok. lia.
  - intros e [_ ->]%raise_if_Err. done.
Qed.
