(* ===== verification/StorageProof.v ===== *)
(** * Proofs of retrievability

    Models prsm/storage/proof.py: the padded SHA-256 Merkle tree over the chunks of a
    shard, the challenges, and the verifier with its escalation.  The clock readings
    and random bytes are arguments, whole seconds as [int(clock())]; the slash hook is
    the submission that the verifier hands to it, if any.  What the hook raises is
    logged and dropped, so it does not appear. *)
From Stdlib Require Import ZArith Lia.
From S2P Require Import PyStd.
From S2P Require Import Prelude.

#[local] Open Scope string_scope.
#[local] Open Scope list_scope.
#[local] Open Scope Z_scope.

(** ** The tree *)

Definition EMPTY_LEAF : bytes := replicate 32 x00.

(** [while target < n: target *= 2]; the loop ends within [n] turns. *)
Fixpoint pad_target (fuel : nat) (target n : nat) : option nat :=
  if (target <? n)%nat then match fuel with O => None | S f => pad_target f (2 * target) n end
  else Some target.

(** One level up; an odd level would raise on the missing sibling. *)
Fixpoint level_up (prev : list bytes) : result (list bytes) :=
  match prev with
  | [] => Ok []
  | [_] => Err IndexError
  | a :: b :: rest => level ← level_up rest; Ok (sha256 (a ++ b) :: level)
  end.

(** [while len(levels[-1]) > 1]; the levels above [prev], lowest first. *)
Fixpoint build_up (fuel : nat) (prev : list bytes) : result (list (list bytes)) :=
  if (1 <? length prev)%nat then
    match fuel with
    | O => Err AssertionError
    | S f => level ← level_up prev; rest ← build_up f level; Ok (level :: rest)
    end
  else Ok [].

Record MerkleTree : Type := { mt_levels : list (list bytes); mt_leaf_count : Z }.

(** [MerkleTree(chunks)] *)
Definition merkle_tree (chunks : list bytes) : result MerkleTree :=
  match chunks with
  | [] => Err ValueError
  | _ =>
      let leaves := sha256 <$> chunks in
      target ← of_option AssertionError (pad_target (length leaves) 1 (length leaves));
      let leaves := leaves ++ replicate (target - length leaves) EMPTY_LEAF in
      rest ← build_up (length leaves) leaves;
      Ok {| mt_levels := leaves :: rest; mt_leaf_count := Z.of_nat target |}
  end.

(** [self._levels[-1][0]] *)
Definition tree_root (t : MerkleTree) : result bytes :=
  level ← of_option IndexError (last (mt_levels t)); of_option IndexError (head level).

(** The siblings of [idx] on the levels below the root. *)
Fixpoint proof_path (levels : list (list bytes)) (idx : Z) : result (list bytes) :=
  match levels with
  | [] | [_] => Ok []
  | level :: rest =>
      sibling ← of_option IndexError (level !! Z.to_nat (Z.lxor idx 1));
      path ← proof_path rest (idx / 2);
      Ok (sibling :: path)
  end.

Definition tree_proof (t : MerkleTree) (leaf_index : Z) : result (list bytes) :=
  _ ← raise_if ((leaf_index <? 0) || (mt_leaf_count t <=? leaf_index)) IndexError;
  proof_path (mt_levels t) leaf_index.

(** One sibling. *)
Definition climb_step (digest sibling : bytes) (idx : Z) : bytes :=
  if idx mod 2 =? 0 then sha256 (digest ++ sibling) else sha256 (sibling ++ digest).

Fixpoint climb (digest : bytes) (proof : list bytes) (idx : Z) : bytes :=
  match proof with
  | [] => digest
  | sibling :: proof' => climb (climb_step digest sibling idx) proof' (idx / 2)
  end.

Definition verify_merkle_proof (leaf : bytes) (proof : list bytes) (leaf_index : Z) (root : bytes) : bool :=
  bool_decide (climb (sha256 leaf) proof leaf_index = root).

(** ** Challenges *)

Record ProofChallenge : Type := {
  pc_challenge_id : string;
  pc_shard_id : string;
  pc_provider_id : string;
  pc_chunk_index : Z;
  pc_issued_at_unix : Z;
  pc_deadline_unix : Z;
  pc_nonce : bytes
}.

Record ProofResponse : Type := {
  pr_challenge_id : string;
  pr_chunk_data : bytes;
  pr_merkle_proof : list bytes
}.

Inductive ProofVerdict : Type :=
| OK | MISSING_RESPONSE | DEADLINE_EXCEEDED | CHALLENGE_ID_MISMATCH | MERKLE_MISMATCH.

#[export] Instance ProofVerdict_eq_dec : EqDecision ProofVerdict.
Proof. solve_decision. Defined.

Definition verdict_value (v : ProofVerdict) : string :=
  match v with
  | OK => "ok"
  | MISSING_RESPONSE => "missing_response"
  | DEADLINE_EXCEEDED => "deadline_exceeded"
  | CHALLENGE_ID_MISMATCH => "challenge_id_mismatch"
  | MERKLE_MISMATCH => "merkle_mismatch"
  end.

Record ProofResult : Type := {
  po_challenge : ProofChallenge;
  po_response : option ProofResponse;
  po_verdict : ProofVerdict
}.

Definition verified (r : ProofResult) : bool := bool_decide (po_verdict r = OK).

(** [ChallengeIssuer.issue]; [rng4] and [rng16] are what the generator returns for
    the index and for the nonce, [now] the clock in between. *)
Definition issue (rng4 : bytes) (now : Z) (rng16 : bytes) (provider_id shard_id : string)
    (num_chunks deadline_seconds : Z) : result ProofChallenge :=
  _ ← raise_if (num_chunks <=? 0) ValueError;
  let raw := from_bytes_be rng4 in
  issued_at_bytes ← to_bytes_be 8 now;
  Ok {| pc_challenge_id := sha256_hex (utf8 shard_id ++ utf8 provider_id ++ rng16 ++ issued_at_bytes);
        pc_shard_id := shard_id; pc_provider_id := provider_id; pc_chunk_index := raw mod num_chunks;
        pc_issued_at_unix := now; pc_deadline_unix := now + deadline_seconds; pc_nonce := rng16 |}.

(** ** The verifier *)

Definition classify_response (now : Z) (challenge : ProofChallenge) (response : option ProofResponse)
    (expected_root : bytes) : ProofVerdict :=
  match response with
  | None => if pc_deadline_unix challenge <? now then DEADLINE_EXCEEDED else MISSING_RESPONSE
  | Some response =>
      if pc_deadline_unix challenge <? now then DEADLINE_EXCEEDED
      else if negb (bool_decide (pr_challenge_id response = pc_challenge_id challenge)) then CHALLENGE_ID_MISMATCH
      else if negb (verify_merkle_proof (pr_chunk_data response) (pr_merkle_proof response)
                      (pc_chunk_index challenge) expected_root) then MERKLE_MISMATCH
      else OK
  end.

(** The arguments of [submit_proof_failure]. *)
Record ProofFailure : Type := {
  pf_provider_id : string;
  pf_shard_id : string;
  pf_evidence_hash : string;
  pf_challenger : string
}.

Definition escalate (challenger_id : string) (result : ProofResult) : ProofFailure :=
  let challenge := po_challenge result in
  let evidence_blob := utf8 (pc_challenge_id challenge +:+ ":" +:+ verdict_value (po_verdict result)) in
  let evidence_blob :=
    match po_response result with
    | Some r => evidence_blob ++ utf8 ":" ++ sha256 (pr_chunk_data r)
    | None => evidence_blob
    end in
  {| pf_provider_id := pc_provider_id challenge; pf_shard_id := pc_shard_id challenge;
     pf_evidence_hash := "0x" +:+ sha256_hex evidence_blob; pf_challenger := challenger_id |}.

(** [ProofVerifier.verify]; [hook] tells whether a slash hook is configured. *)
Definition verify_response (challenger_id : string) (hook : bool) (now : Z) (challenge : ProofChallenge)
    (response : option ProofResponse) (expected_root : bytes) : ProofResult * option ProofFailure :=
  let verdict := classify_response now challenge response expected_root in
  let result := {| po_challenge := challenge; po_response := response; po_verdict := verdict |} in
  (result, if negb (verified result) && hook then Some (escalate challenger_id result) else None).

(** * What proofs of retrievability guarantee

    An honest provider answers every challenge, and an answer of full depth shows the
    challenged chunk. *)

#[local] Open Scope string_scope.
#[local] Open Scope list_scope.
#[local] Open Scope Z_scope.

(** ** Building the tree *)

Lemma pad_target_spec fuel t n :
  (n <= t * 2 ^ fuel)%nat → ∃ j, pad_target fuel t n = Some (t * 2 ^ j)%nat ∧ (n <= t * 2 ^ j)%nat ∧ (j <= fuel)%nat.
Proof.
  revert t. induction fuel as [|f IH]; intros t Hn; cbn [pad_target].
  - exists 0%nat. simpl in *. destruct (Nat.ltb_spec t n); [lia|]. split_and!; [f_equal; lia | lia | lia].
  - destruct (Nat.ltb_spec t n) as [Hlt|Hge].
    + destruct (IH (2 * t)%nat) as (j & Hj & Hle & Hjf); [simpl in Hn; lia|]. exists (S j). rewrite Hj.
      split_and!; [f_equal; simpl; lia | simpl; lia | lia].
    + exists 0%nat. split_and!; [f_equal; simpl; lia | simpl; lia | lia].
Qed.

Lemma level_up_spec (m : nat) l :
  length l = (2 * m)%nat →
  ∃ l', level_up l = Ok l' ∧ length l' = m ∧
    ∀ j d, l' !! j = Some d → ∃ a b, l !! (2 * j)%nat = Some a ∧ l !! S (2 * j)%nat = Some b ∧ d = sha256 (a ++ b).
Proof.
  revert l. induction m as [|m IH]; intros l Hl.
  - destruct l; [|simpl in Hl; lia]. exists []. split_and!; [done..|]. by intros j d Hj.
  - destruct l as [|a [|b l]]; simpl in Hl; [lia..|]. destruct (IH l) as (l' & Hl' & Hlen & Hj); [lia|].
    exists (sha256 (a ++ b) :: l'). cbn [level_up]. rewrite Hl'. split_and!; [done | simpl; lia |].
    intros [|j] d; [intros [= <-]; by exists a, b|]. cbn [lookup list_lookup]. intros Hd.
    destruct (Hj j d Hd) as (x & y & Hx & Hy & ->). exists x, y.
    replace (2 * S j)%nat with (S (S (2 * j))) by lia. done.
Qed.

(** The levels over [l], up to a single digest. *)
Inductive tower : list bytes → list (list bytes) → bytes → Prop :=
| tower_top r : tower [r] [] r
| tower_up l l' rest r :
    length l = (2 * length l')%nat → level_up l = Ok l' → tower l' rest r → tower l (l' :: rest) r.

Lemma build_up_tower d fuel l :
  length l = (2 ^ d)%nat → (d <= fuel)%nat →
  ∃ rest r, build_up fuel l = Ok rest ∧ tower l rest r ∧ length rest = d.
Proof.
  revert fuel l. induction d as [|d IH]; intros fuel l Hl Hf.
  - destruct l as [|r [|]]; simpl in Hl; [lia | | lia]. exists [], r. split_and!; [by destruct fuel | constructor | done].
  - destruct fuel as [|fuel]; [lia|]. pose proof (Nat.pow_nonzero 2 d). cbn [Nat.pow] in Hl.
    destruct (level_up_spec (2 ^ d) l) as (l' & Hl' & Hlen & _); [lia|].
    destruct (IH fuel l') as (rest & r & Hb & Ht & Hr); [done | lia|]. exists (l' :: rest), r. cbn [build_up].
    destruct (Nat.ltb_spec 1 (length l)); [|lia]. rewrite Hl'. cbn [mbind result_bind]. rewrite Hb.
    split_and!; [done | constructor; [lia | done | done] | simpl; lia].
Qed.

Lemma tower_root l rest r : tower l rest r → last (l :: rest) = Some [r].
Proof. induction 1; [done|]. by rewrite last_cons_cons. Qed.

(** The tree of a nonempty list of chunks. *)
Lemma merkle_tree_Ok chunks :
  chunks ≠ [] →
  ∃ leaves rest r pad, merkle_tree chunks = Ok {| mt_levels := leaves :: rest; mt_leaf_count := zlen leaves |} ∧
    leaves = (sha256 <$> chunks) ++ replicate pad EMPTY_LEAF ∧ tower leaves rest r ∧
    length leaves = (2 ^ length rest)%nat.
Proof.
  intros Hne. unfold merkle_tree. destruct chunks as [|c chunks]; [done|]. set (n := length (sha256 <$> c :: chunks)).
  destruct (pad_target_spec n 1 n) as (d & Hd & Hle & Hdn).
  { pose proof (Nat.pow_gt_lin_r 2 n). lia. }
  rewrite Hd. rewrite Nat.mul_1_l in *. cbn [of_option mbind result_bind].
  set (leaves := (sha256 <$> c :: chunks) ++ replicate (2 ^ d - n) EMPTY_LEAF).
  assert (length leaves = (2 ^ d)%nat) as Hl by (unfold leaves; rewrite length_app, length_replicate; fold n; lia).
  destruct (build_up_tower d (length leaves) leaves) as (rest & r & Hb & Ht & Hr); [done | |].
  { rewrite Hl. pose proof (Nat.pow_gt_lin_r 2 d). lia. }
  exists leaves, rest, r, (2 ^ d - n)%nat. rewrite Hb, Hr, Hl. done.
Qed.

(** ** Climbing *)

(** An index is even or odd, and its sibling is next to it. *)
Lemma index_cases (i : nat) :
  ∃ k : nat, (i = (2 * k)%nat ∧ Z.to_nat (Z.lxor (Z.of_nat i) 1) = S (2 * k) ∧ (Z.of_nat i mod 2 =? 0) = true ∨
              i = S (2 * k) ∧ Z.to_nat (Z.lxor (Z.of_nat i) 1) = (2 * k)%nat ∧ (Z.of_nat i mod 2 =? 0) = false) ∧
             Z.of_nat i / 2 = Z.of_nat k.
Proof.
  assert (∀ k, Z.lxor (Z.of_nat (2 * k)) 1 = Z.of_nat (S (2 * k))) as He.
  { intros k. replace (Z.of_nat (2 * k)) with (2 * Z.of_nat k) by lia.
    replace (Z.of_nat (S (2 * k))) with (2 * Z.of_nat k + 1) by lia. by destruct (Z.of_nat k) as [|p|p] eqn:Hk; [| |lia]. }
  assert (∀ k, Z.lxor (Z.of_nat (S (2 * k))) 1 = Z.of_nat (2 * k)) as Ho.
  { intros k. rewrite <-He, Z.lxor_assoc, Z.lxor_nilpotent. apply Z.lxor_0_r. }
  exists (i / 2)%nat. pose proof (Nat.div_mod_eq i 2) as Hd. pose proof (Nat.mod_upper_bound i 2 ltac:(lia)) as Hm.
  assert (Z.of_nat i / 2 = Z.of_nat (i / 2)) as Hz by (by rewrite Nat2Z.inj_div). split; [|done].
  assert (Z.of_nat i mod 2 = Z.of_nat (i mod 2)) as Hzm by (by rewrite Nat2Z.inj_mod). rewrite Hzm.
  destruct (i mod 2)%nat as [|[|]] eqn:Hr; [left | right | lia].
  - assert (i = 2 * (i / 2))%nat as Hi by lia. split_and!; [done | | done]. rewrite Hi at 1. rewrite He. lia.
  - assert (i = S (2 * (i / 2)))%nat as Hi by lia. split_and!; [done | | done]. rewrite Hi at 1. rewrite Ho. lia.
Qed.

(** The path from a leaf leads to the root. *)
Lemma climb_complete l rest r (i : nat) d :
  tower l rest r → l !! i = Some d →
  ∃ path, proof_path (l :: rest) (Z.of_nat i) = Ok path ∧ length path = length rest ∧ climb d path (Z.of_nat i) = r.
Proof.
  intros Ht. revert i d. induction Ht as [r|l l' rest r Hlen Hup Ht IH]; intros i d Hd.
  - exists []. apply list_lookup_singleton_Some in Hd as [-> ->]. done.
  - destruct (index_cases i) as (k & Hi & Hk). destruct (level_up_spec (length l') l Hlen) as (l1 & Hl1 & Hlen1 & Hl').
    rewrite Hup in Hl1. injection Hl1 as <-. apply lookup_lt_Some in Hd as Hlt.
    destruct (lookup_lt_is_Some_2 l' k) as [dk Hdk]; [lia|]. destruct (Hl' k dk Hdk) as (a & b & Ha & Hb & ->).
    destruct (IH k _ Hdk) as (path & Hp & Hlp & Hc).
    assert (∃ sib, l !! Z.to_nat (Z.lxor (Z.of_nat i) 1) = Some sib ∧ climb_step d sib (Z.of_nat i) = sha256 (a ++ b)) as (sib & Hs & Hstep).
    { unfold climb_step. destruct Hi as [(-> & -> & ->)|(-> & -> & ->)].
      - exists b. pose proof (eq_trans (eq_sym Hd) Ha) as [= ->]. done.
      - exists a. pose proof (eq_trans (eq_sym Hd) Hb) as [= ->]. done. }
    exists (sib :: path). change (proof_path (l :: l' :: rest) (Z.of_nat i)) with
      (sibling ← of_option IndexError (l !! Z.to_nat (Z.lxor (Z.of_nat i) 1));
       path ← proof_path (l' :: rest) (Z.of_nat i / 2); Ok (sibling :: path)).
    rewrite Hs, Hk, Hp. cbn [of_option mbind result_bind climb length]. by rewrite Hlp, Hstep, Hk, Hc.
Qed.

(** ** What is hashed *)

(** The inputs of the digests above a level, and of a climb. *)
Fixpoint pair_inputs (l : list bytes) : list bytes :=
  match l with a :: b :: l' => (a ++ b) :: pair_inputs l' | _ => [] end.

Fixpoint tower_inputs (levels : list (list bytes)) : list bytes :=
  match levels with [] => [] | l :: rest => pair_inputs l ++ tower_inputs rest end.

Definition step_input (digest sibling : bytes) (idx : Z) : bytes :=
  if idx mod 2 =? 0 then digest ++ sibling else sibling ++ digest.

Fixpoint climb_inputs (digest : bytes) (proof : list bytes) (idx : Z) : list bytes :=
  match proof with
  | [] => []
  | sibling :: proof' => step_input digest sibling idx :: climb_inputs (climb_step digest sibling idx) proof' (idx / 2)
  end.

Lemma climb_step_input d s i : climb_step d s i = sha256 (step_input d s i).
Proof. unfold climb_step, step_input. by destruct (_ =? 0). Qed.

(** Nothing in the one list collides with anything else in the other. *)
Definition no_collision (xs ys : list bytes) : Prop := ∀ x y, x ∈ xs → y ∈ ys → sha256 x = sha256 y → x = y.

Lemma pair_inputs_lookup l j a b :
  l !! (2 * j)%nat = Some a → l !! S (2 * j)%nat = Some b → (a ++ b) ∈ pair_inputs l.
Proof.
  revert l. induction j as [|j IH]; intros l.
  - destruct l as [|x [|y l]]; [done..|]. intros [= ->] [= ->]. left.
  - destruct l as [|x [|y l]]; [done..| |].
    + replace (2 * S j)%nat with (S (S (2 * j))) by lia. done.
    + replace (2 * S j)%nat with (S (S (2 * j))) by lia. intros Ha Hb. right. by apply IH.
Qed.

Lemma app_inv_32_l (a b c d : bytes) : length a = 32%nat → length c = 32%nat → a ++ b = c ++ d → a = c.
Proof. intros Ha Hc Heq. apply (f_equal (take 32)) in Heq. by rewrite !take_app_length' in Heq. Qed.

Lemma app_inv_32_r (a b c d : bytes) : length b = 32%nat → length d = 32%nat → a ++ b = c ++ d → b = d.
Proof. intros Hb Hd Heq. apply app_inj_2 in Heq as [_ ?]; [done | lia]. Qed.

Lemma level_up_32 l l' : level_up l = Ok l' → Forall (λ d, length d = 32%nat) l'.
Proof.
  revert l l'. fix IH 1. intros [|a [|b l]] l'; cbn [level_up]; [intros [= <-]; constructor | done |].
  intros Hl. apply bind_Ok_inv in Hl as (l1 & Hl1 & [= <-]). constructor; [apply sha256_length | by apply (IH l)].
Qed.

(** A climb of full depth that reaches the root starts at the leaf. *)
Lemma climb_sound l rest r (i : nat) d path :
  tower l rest r → Forall (λ d, length d = 32%nat) l → length d = 32%nat → (i < length l)%nat →
  length path = length rest → climb d path (Z.of_nat i) = r →
  no_collision (climb_inputs d path (Z.of_nat i)) (tower_inputs (l :: rest)) → l !! i = Some d.
Proof.
  intros Ht. revert i d path. induction Ht as [r|l l' rest r Hlen Hup Ht IH]; intros i d path Hl Hd Hi Hp Hc Hn.
  - destruct path; [|done]. simpl in Hi, Hc. assert (i = 0%nat) as -> by lia. by subst.
  - destruct path as [|s path]; [done|]. destruct (index_cases i) as (k & Hik & Hk).
    destruct (level_up_spec (length l') l Hlen) as (l1 & Hl1 & Hlen1 & Hl').
    rewrite Hup in Hl1. injection Hl1 as <-. cbn [climb climb_inputs] in Hc, Hn. rewrite Hk in Hc, Hn.
    assert (l' !! k = Some (climb_step d s (Z.of_nat i))) as Hdk.
    { apply (IH k _ path); [by eapply level_up_32 | rewrite climb_step_input; apply sha256_length | lia | by injection Hp | done |].
      intros x y Hx Hy. apply Hn; [by right|]. cbn [tower_inputs]. apply elem_of_app. by right. }
    destruct (Hl' k _ Hdk) as (a & b & Ha & Hb & Heq). rewrite climb_step_input in Heq.
    apply Hn in Heq; [|left|cbn [tower_inputs]; apply elem_of_app; left; by eapply pair_inputs_lookup].
    rewrite Forall_forall in Hl. pose proof (Hl a (list_elem_of_lookup_2 _ _ _ Ha)) as Ha32.
    pose proof (Hl b (list_elem_of_lookup_2 _ _ _ Hb)) as Hb32. unfold step_input in Heq.
    destruct Hik as [(-> & _ & Hm)|(-> & _ & Hm)]; rewrite Hm in Heq.
    + apply app_inv_32_l in Heq; [|done..]. by subst.
    + apply app_inv_32_r in Heq; [|done..]. by subst.
Qed.

(** ** Trees *)

Lemma tree_of_chunks chunks :
  chunks ≠ [] →
  ∃ leaves rest r, merkle_tree chunks = Ok {| mt_levels := leaves :: rest; mt_leaf_count := zlen leaves |} ∧
    tree_root {| mt_levels := leaves :: rest; mt_leaf_count := zlen leaves |} = Ok r ∧ tower leaves rest r ∧
    Forall (λ d, length d = 32%nat) leaves ∧ (length chunks <= length leaves)%nat ∧
    (∀ i c, chunks !! i = Some c → leaves !! i = Some (sha256 c)) ∧ length leaves = (2 ^ length rest)%nat.
Proof.
  intros Hne. destruct (merkle_tree_Ok chunks Hne) as (leaves & rest & r & pad & Ht & Hl & Htow & Hpow).
  exists leaves, rest, r. split; [done|]. split; [|split; [done|]].
  { unfold tree_root. cbn [mt_levels]. by rewrite (tower_root leaves rest r Htow). }
  subst leaves. split_and!.
  - apply Forall_app. split.
    + apply Forall_fmap, Forall_true. intros c. apply sha256_length.
    + apply Forall_forall. intros d Hd%elem_of_replicate. destruct Hd as [-> _]. unfold EMPTY_LEAF. apply length_replicate.
  - rewrite length_app, length_fmap. lia.
  - intros i c Hc. apply lookup_app_l_Some. by rewrite list_lookup_fmap, Hc.
  - done.
Qed.

Lemma issue_Ok rng4 now rng16 provider shard n secs ch :
  issue rng4 now rng16 provider shard n secs = Ok ch →
  0 < n ∧ pc_chunk_index ch = from_bytes_be rng4 mod n ∧ 0 <= pc_chunk_index ch < n ∧
  pc_deadline_unix ch = now + secs ∧ pc_provider_id ch = provider ∧ pc_shard_id ch = shard.
Proof.
  unfold issue. intros Hi. apply bind_Ok_inv in Hi as ([] & Hn%raise_if_Ok & Hi).
  apply bind_Ok_inv in Hi as (b & _ & [= <-]). cbn. split_and!; try done; [lia | apply Z.mod_pos_bound; lia | apply Z.mod_pos_bound; lia].
Qed.

(** C35 An honest provider is never slashed.  Every nonempty shard has a tree and a
    root.  Whatever challenge is issued for the number of its chunks, and whatever
    the random bytes, the provider that has the chunks finds the challenged one among
    them and a proof for it; its response before the deadline is verified, and nothing
    is submitted against it. *)
Theorem honest_provider_verified chunks :
  chunks ≠ [] →
  ∃ t root, merkle_tree chunks = Ok t ∧ tree_root t = Ok root ∧
    ∀ rng4 issued rng16 provider shard secs ch,
      issue rng4 issued rng16 provider shard (zlen chunks) secs = Ok ch →
      ∃ chunk path, chunks !! Z.to_nat (pc_chunk_index ch) = Some chunk ∧ tree_proof t (pc_chunk_index ch) = Ok path ∧
        ∀ challenger hook now, now <= issued + secs →
          let r := {| pr_challenge_id := pc_challenge_id ch; pr_chunk_data := chunk; pr_merkle_proof := path |} in
          verify_response challenger hook now ch (Some r) root =
          ({| po_challenge := ch; po_response := Some r; po_verdict := OK |}, None).
Proof.
  intros Hne. destruct (tree_of_chunks chunks Hne) as (leaves & rest & r & Ht & Hroot & Htow & _ & Hlen & Hleaf & _).
  eexists _, r. split; [done|]. split; [done|]. intros rng4 issued rng16 provider shard secs ch Hi.
  destruct (issue_Ok _ _ _ _ _ _ _ _ Hi) as (Hn & _ & Hidx & Hdl & _ & _).
  destruct (lookup_lt_is_Some_2 chunks (Z.to_nat (pc_chunk_index ch))) as [chunk Hc]; [lia|].
  destruct (climb_complete leaves rest r (Z.to_nat (pc_chunk_index ch)) _ Htow (Hleaf _ _ Hc)) as (path & Hp & _ & Hclimb).
  rewrite Z2Nat.id in Hp, Hclimb by lia. exists chunk, path. split; [done|]. split.
  - unfold tree_proof. cbn [mt_levels mt_leaf_count]. replace (_ || _) with false by lia. by cbn [raise_if mbind result_bind].
  - intros challenger hook now Hnow resp. unfold verify_response, classify_response. rewrite Hdl. unfold resp.
    cbn [pr_challenge_id pr_chunk_data pr_merkle_proof]. replace (issued + secs <? now) with false by lia.
    rewrite bool_decide_true by done. unfold verify_merkle_proof. rewrite Hclimb, !bool_decide_true by done.
    cbn [negb]. unfold verified. cbn [po_verdict]. by rewrite bool_decide_true.
Qed.

(** C22 A verified response of full depth is the challenged chunk.  When the verifier
    accepts a response, it came in time and names the challenge; and if its proof has
    one sibling for every level of the tree and no digest collides, its data is
    exactly the chunk at the challenged index of the shard whose root was expected.
    A response that is not accepted is submitted for slashing when a hook is
    configured, against the provider and shard of the challenge, and an accepted one
    never. *)
Theorem verified_chunk chunks t root challenger hook now ch resp :
  chunks ≠ [] → merkle_tree chunks = Ok t → tree_root t = Ok root → 0 <= pc_chunk_index ch < zlen chunks →
  let '(result, failure) := verify_response challenger hook now ch (Some resp) root in
  (verified result = true →
     now <= pc_deadline_unix ch ∧ pr_challenge_id resp = pc_challenge_id ch ∧ failure = None ∧
     (S (length (pr_merkle_proof resp)) = length (mt_levels t) →
      no_collision (pr_chunk_data resp :: climb_inputs (sha256 (pr_chunk_data resp)) (pr_merkle_proof resp) (pc_chunk_index ch))
                   (chunks ++ tower_inputs (mt_levels t)) →
      chunks !! Z.to_nat (pc_chunk_index ch) = Some (pr_chunk_data resp))) ∧
  (verified result = false → hook = true →
     ∃ f, failure = Some f ∧ pf_provider_id f = pc_provider_id ch ∧ pf_shard_id f = pc_shard_id ch ∧ pf_challenger f = challenger).
Proof.
  intros Hne Ht Hroot Hidx. destruct (tree_of_chunks chunks Hne) as (leaves & rest & r & Ht' & Hr & Htow & H32 & Hlen & Hleaf & _).
  rewrite Ht in Ht'. injection Ht' as ->. rewrite Hroot in Hr. injection Hr as ->. cbn [mt_levels].
  unfold verify_response. set (result := {| po_verdict := classify_response now ch (Some resp) r |}).
  split; [|intros -> ->; by eexists].
  unfold verified. intros Hv%bool_decide_eq_true. rewrite (bool_decide_true (po_verdict result = OK)) by done. cbn [negb andb].
  unfold result in Hv. cbn [po_verdict classify_response] in Hv.
  destruct (Z.ltb_spec (pc_deadline_unix ch) now); [done|].
  case_bool_decide as Hid; [|done]. cbn [negb] in Hv. unfold verify_merkle_proof in Hv.
  case_bool_decide as Hc; [|done]. split_and!; [lia | done | done |]. intros Hdepth Hn.
  rewrite <-(Z2Nat.id (pc_chunk_index ch)) in Hc, Hn by lia.
  destruct (lookup_lt_is_Some_2 chunks (Z.to_nat (pc_chunk_index ch))) as [chunk Hchunk]; [lia|]. rewrite Hchunk. f_equal.
  assert (leaves !! Z.to_nat (pc_chunk_index ch) = Some (sha256 (pr_chunk_data resp))) as Hd.
  { apply (climb_sound leaves rest r _ _ (pr_merkle_proof resp)); try done; try lia; try apply sha256_length.
    { cbn [length] in Hdepth. lia. }
    intros x y Hx Hy. apply Hn; [by right|]. apply elem_of_app. by right. }
  rewrite (Hleaf _ _ Hchunk) in Hd. apply (inj Some) in Hd. symmetry. apply Hn; [left | | by rewrite Hd].
  apply elem_of_app. left. by eapply list_elem_of_lookup_2.
Qed.

(** ** What the verifier does not check *)

Lemma tower_top_pair l rest r :
  tower l rest r → rest ≠ [] → Forall (λ d, length d = 32%nat) l →
  ∃ a b, r = sha256 (a ++ b) ∧ length a = 32%nat ∧ length b = 32%nat.
Proof.
  induction 1 as [|l l' rest r Hlen Hup Ht IH]; [done|]. intros _ Hl. destruct rest as [|l2 rest].
  - inversion Ht; subst. destruct (level_up_spec 1 l Hlen) as (l1 & Hl1 & _ & Hj). rewrite Hup in Hl1. injection Hl1 as <-.
    destruct (Hj 0%nat r eq_refl) as (a & b & Ha & Hb & ->). rewrite Forall_forall in Hl. exists a, b. split_and!; [done|..].
    + apply Hl. exact (list_elem_of_lookup_2 _ _ _ Ha).
    + apply Hl. exact (list_elem_of_lookup_2 _ _ _ Hb).
  - apply IH; [done|]. by eapply level_up_32.
Qed.

(** Sixty-four bytes, the two digests under the root, answer every challenge on a
    shard of two chunks or more: the verifier compares neither the length of the proof
    with the depth of the tree nor the length of the data with that of a chunk. *)
Lemma two_digests_answer_everything chunks t root :
  (2 <= length chunks)%nat → merkle_tree chunks = Ok t → tree_root t = Ok root →
  ∃ c, length c = 64%nat ∧
    ∀ challenger hook now ch, now <= pc_deadline_unix ch →
      verified (verify_response challenger hook now ch
        (Some {| pr_challenge_id := pc_challenge_id ch; pr_chunk_data := c; pr_merkle_proof := [] |}) root).1 = true.
Proof.
  intros H2 Ht Hroot. destruct (tree_of_chunks chunks) as (leaves & rest & r & Ht' & Hr & Htow & H32 & Hlen & _ & Hpow).
  { intros ->. simpl in H2. lia. }
  rewrite Ht in Ht'. injection Ht' as ->. rewrite Hroot in Hr. injection Hr as ->.
  destruct (tower_top_pair leaves rest r) as (a & b & -> & Ha & Hb); [done | | done |].
  { intros ->. simpl in Hpow. lia. }
  exists (a ++ b). split; [rewrite length_app; lia|]. intros challenger hook now ch Hnow.
  unfold verify_response, classify_response, verified. cbn [fst po_verdict pr_challenge_id pr_chunk_data pr_merkle_proof].
  replace (pc_deadline_unix ch <? now) with false by lia. rewrite (bool_decide_true (pc_challenge_id ch = _)) by done. cbn [negb].
  unfold verify_merkle_proof. cbn [climb]. rewrite (bool_decide_true (sha256 (a ++ b) = _)) by done. cbn [negb].
  by rewrite bool_decide_true.
Qed.

(** ** Three chunks, executed *)

Definition shard3 : list bytes := [utf8 "PRSM"; utf8 "stor"; utf8 "age!"].
Definition tree3 : MerkleTree :=
  Eval vm_compute in match merkle_tree shard3 with Ok t => t | Err _ => {| mt_levels := []; mt_leaf_count := 0 |} end.
Definition root3 : bytes := Eval vm_compute in match tree_root tree3 with Ok r => r | Err _ => [] end.
Definition challenge3 : ProofChallenge :=
  Eval vm_compute in
    match issue [x00; x00; x00; x07] 1000 (replicate 16 x2a) "provider" "shard" 3 30 with
    | Ok ch => ch
    | Err _ => {| pc_challenge_id := ""; pc_shard_id := ""; pc_provider_id := ""; pc_chunk_index := 0;
                  pc_issued_at_unix := 0; pc_deadline_unix := 0; pc_nonce := [] |}
    end.
Definition path3 : list bytes := Eval vm_compute in match tree_proof tree3 1 with Ok p => p | Err _ => [] end.
Definition response3 : ProofResponse :=
  {| pr_challenge_id := pc_challenge_id challenge3; pr_chunk_data := utf8 "stor"; pr_merkle_proof := path3 |}.

Lemma tree3_built : merkle_tree shard3 = Ok tree3.
Proof. vm_cast_no_check (eq_refl (Ok tree3)). Qed.

Lemma root3_built : tree_root tree3 = Ok root3.
Proof. vm_cast_no_check (eq_refl (Ok root3)). Qed.

Lemma challenge3_issued : issue [x00; x00; x00; x07] 1000 (replicate 16 x2a) "provider" "shard" 3 30 = Ok challenge3.
Proof. vm_cast_no_check (eq_refl (Ok challenge3)). Qed.

(** The seventh chunk modulo three is the second. *)
Lemma honest_provider_verified_witness :
  ∃ t root chunk path, merkle_tree shard3 = Ok t ∧ tree_root t = Ok root ∧ shard3 !! 1%nat = Some chunk ∧
    tree_proof t 1 = Ok path ∧
    (verify_response "challenger" true 1020 challenge3
       (Some {| pr_challenge_id := pc_challenge_id challenge3; pr_chunk_data := chunk; pr_merkle_proof := path |}) root).2 = None.
Proof.
  destruct (honest_provider_verified shard3 ltac:(discriminate)) as (t & root & Ht & Hr & Hall).
  destruct (Hall _ _ _ _ _ _ _ challenge3_issued) as (chunk & path & Hc & Hp & Hv).
  exists t, root, chunk, path. split; [exact Ht|]. split; [exact Hr|]. split; [exact Hc|]. split; [exact Hp|].
  specialize (Hv "challenger" true 1020 ltac:(discriminate)). exact (f_equal snd Hv).
Defined.

Lemma no_collision_dec xs ys :
  forallb (λ x, forallb (λ y, negb (bool_decide (sha256 x = sha256 y)) || bool_decide (x = y)) ys) xs = true →
  no_collision xs ys.
Proof.
  intros Hf x y Hx Hy Heq. rewrite forallb_forall in Hf. apply list_elem_of_In in Hx, Hy. specialize (Hf x Hx).
  rewrite forallb_forall in Hf. specialize (Hf y Hy). rewrite (bool_decide_true (sha256 x = sha256 y)) in Hf by done.
  by apply bool_decide_eq_true in Hf.
Qed.

Lemma no_collision3 :
  no_collision (utf8 "stor" :: climb_inputs (sha256 (utf8 "stor")) path3 1) (shard3 ++ tower_inputs (mt_levels tree3)).
Proof. apply no_collision_dec. vm_cast_no_check (eq_refl true). Qed.

Lemma response3_verified : verified (verify_response "challenger" true 1020 challenge3 (Some response3) root3).1 = true.
Proof. vm_cast_no_check (eq_refl true). Qed.

Lemma verified_chunk_witness :
  verified (verify_response "challenger" true 1020 challenge3 (Some response3) root3).1 = true ∧
  shard3 !! 1%nat = Some (pr_chunk_data response3).
Proof.
  split; [exact response3_verified|].
  pose proof (verified_chunk shard3 tree3 root3 "challenger" true 1020 challenge3 response3 ltac:(discriminate)
    tree3_built root3_built ltac:(split; [discriminate | reflexivity])) as Hv.
  destruct (verify_response "challenger" true 1020 challenge3 (Some response3) root3) as [result failure] eqn:Hr.
  destruct Hv as [Hv _]. pose proof response3_verified as Hok. rewrite Hr in Hok.
  destruct (Hv Hok) as (_ & _ & _ & Hchunk). exact (Hchunk eq_refl no_collision3).
Defined.
