(* ===== verification/Distribution.v ===== *)
(** * Placement of shards and content descriptors

    Models prsm/storage/distribution.py: which nodes hold the shards and the key
    shares, and the descriptors that record it, their signing text, the rules of their
    updates and the choice between two of them. *)
From Stdlib Require Import ZArith Lia.
From S2P Require Import PyStd.
From S2P Require Import Externals.
From S2P Require Import PyJson.
From S2P Require Import StorageModels.
From S2P Require Import ManifestJson.
From S2P Require Import Prelude.

#[local] Open Scope string_scope.
#[local] Open Scope list_scope.
#[local] Open Scope Z_scope.

(** ** Placement *)

Definition MIN_NETWORK_NODES : Z := 3.

Record ShardPlacement : Type := {
  sp_shard_assignments : dict string (list string);
  sp_key_share_holders : list string;
  sp_contract_key_share_holders : list string;
  sp_degraded_constraints : list string
}.

(** [asn_groups[asn].append(nid)] of a [defaultdict(list)] *)
Definition group_append (groups : dict string (list string)) (asn nid : string) : dict string (list string) :=
  dict_set asn (default [] (dict_get asn groups) ++ [nid]) groups.

(** The eligible nodes by their network, in order. *)
Definition group_by_asn (peer_asn_map : dict string string) (eligible : list string)
  : result (dict string (list string)) :=
  result_foldM (λ groups nid, asn ← of_option KeyError (dict_get nid peer_asn_map); Ok (group_append groups asn nid))
    [] eligible.

(** The first pass: one node of each network in turn. *)
Fixpoint first_pass (rf : Z) (groups : dict string (list string)) (asns : list string)
    (assigned used_asns : list string) (cursors : dict string Z) : result (list string * dict string Z) :=
  match asns with
  | [] => Ok (assigned, cursors)
  | asn :: asns' =>
      if rf <=? zlen assigned then Ok (assigned, cursors)
      else if bool_decide (asn ∈ used_asns) then first_pass rf groups asns' assigned used_asns cursors
      else
        group ← of_option KeyError (dict_get asn groups);
        cursor ← of_option KeyError (dict_get asn cursors);
        _ ← raise_if (zlen group =? 0) ZeroDivisionError;
        node ← of_option IndexError (group !! Z.to_nat (cursor mod zlen group));
        first_pass rf groups asns' (assigned ++ [node]) (asn :: used_asns) (dict_set asn (cursor + 1) cursors)
  end.

(** The second pass: any node that is not there yet. *)
Fixpoint second_pass (rf : Z) (eligible assigned : list string) : list string :=
  match eligible with
  | [] => assigned
  | nid :: eligible' =>
      if rf <=? zlen assigned then assigned
      else second_pass rf eligible' (if bool_decide (nid ∈ assigned) then assigned else assigned ++ [nid])
  end.

(** What the loop over the shards carries. *)
Record PlacementState : Type := {
  ps_assignments : dict string (list string);
  ps_all_shard_nodes : list string;
  ps_cursors : dict string Z;
  ps_asn_list : list string;
  ps_degraded : list string
}.

Definition place_shard (rf : Z) (eligible : list string) (groups : dict string (list string))
    (s : PlacementState) (shard_hash : string) : result PlacementState :=
  '(assigned, cursors) ← first_pass rf groups (ps_asn_list s) [] [] (ps_cursors s);
  let relaxed := zlen assigned <? rf in
  let assigned := if relaxed then second_pass rf eligible assigned else assigned in
  Ok {| ps_assignments := dict_set shard_hash assigned (ps_assignments s);
        ps_all_shard_nodes := set_union assigned (ps_all_shard_nodes s);
        ps_cursors := cursors;
        ps_asn_list := drop 1 (ps_asn_list s) ++ take 1 (ps_asn_list s);
        ps_degraded := if relaxed && negb (bool_decide ("asn_relaxed" ∈ ps_degraded s))
                       then ps_degraded s ++ ["asn_relaxed"] else ps_degraded s |}.

Definition compute_shard_placement (shard_hashes : list string) (replication_factor : Z)
    (owner_node_id : string) (peer_asn_map : dict string string) : result ShardPlacement :=
  let eligible := filter (λ nid, nid ≠ owner_node_id) (dict_keys peer_asn_map) in
  _ ← raise_if (zlen eligible <? MIN_NETWORK_NODES) PlacementError;
  groups ← group_by_asn peer_asn_map eligible;
  s ← result_foldM (place_shard replication_factor eligible groups)
        {| ps_assignments := []; ps_all_shard_nodes := [];
           ps_cursors := (λ asn, (asn, 0)) <$> dict_keys groups; ps_asn_list := dict_keys groups;
           ps_degraded := [] |} shard_hashes;
  let non_shard_nodes := filter (λ nid, nid ∉ ps_all_shard_nodes s) eligible in
  let '(key_share_holders, degraded) :=
    match non_shard_nodes with
    | [] => (eligible, ps_degraded s ++ ["key_shard_separation_relaxed"])
    | _ => (non_shard_nodes, ps_degraded s)
    end in
  Ok {| sp_shard_assignments := ps_assignments s; sp_key_share_holders := key_share_holders;
        sp_contract_key_share_holders := key_share_holders; sp_degraded_constraints := degraded |}.

(** ** Descriptors *)

(** [now] is the text of the [time.time()] taken. *)
Definition create_descriptor_stub (now : string) (content_hash : ContentHash) (owner_node_id visibility : string)
    (replication_policy : ReplicationPolicy) (contract_pubkey : bytes) : ContentDescriptor :=
  {| cd_content_hash := content_hash; cd_manifest_holders := []; cd_key_share_holders := [];
     cd_contract_key_share_holders := []; cd_shard_map := []; cd_replication_policy := replication_policy;
     cd_visibility := visibility; cd_epoch := 1; cd_version := 1; cd_owner_node_id := owner_node_id;
     cd_contract_pubkey := contract_pubkey; cd_signature := []; cd_signer_type := "";
     cd_created_at := now; cd_updated_at := now |}.

(** [sorted(l)] of strings *)
Definition sorted_strs (l : list string) : list string := sort_by string_leb l.
Definition strs_json (l : list string) : jtext := TArr (TStr <$> sorted_strs l).

Definition item_leb (a b : string * list string) : bool := string_leb a.1 b.1.

(** The keys are written in their sorted order. *)
Definition signing_json (d : ContentDescriptor) : jtext :=
  let rp := cd_replication_policy d in
  TObj [("content_hash", TStr (content_hash_hex (cd_content_hash d)));
        ("contract_key_share_holders", strs_json (cd_contract_key_share_holders d));
        ("contract_pubkey", TStr (hex (cd_contract_pubkey d)));
        ("epoch", TInt (cd_epoch d));
        ("key_share_holders", strs_json (cd_key_share_holders d));
        ("manifest_holders", strs_json (cd_manifest_holders d));
        ("owner_node_id", TStr (cd_owner_node_id d));
        ("replication_policy", TObj
          [("degraded_constraints", strs_json (rp_degraded_constraints rp));
           ("key_shard_separation", TBool (rp_key_shard_separation rp));
           ("min_asn_diversity", TInt (rp_min_asn_diversity rp));
           ("owner_excluded", TBool (rp_owner_excluded rp));
           ("replication_factor", TInt (rp_replication_factor rp))]);
        ("shard_map", TObj ((λ kv, (kv.1, strs_json kv.2)) <$> sort_by item_leb (cd_shard_map d)));
        ("version", TInt (cd_version d));
        ("visibility", TStr (cd_visibility d))].

Definition descriptor_signing_data (d : ContentDescriptor) : bytes := utf8 (dumps_compact (signing_json d)).

Section Signing.
Context `{Externals}.

(** [sign] is [private_key.sign]. *)
Definition sign_descriptor (sign : bytes → bytes) (d : ContentDescriptor) (signer_type : string) : ContentDescriptor :=
  {| cd_content_hash := cd_content_hash d; cd_manifest_holders := cd_manifest_holders d;
     cd_key_share_holders := cd_key_share_holders d;
     cd_contract_key_share_holders := cd_contract_key_share_holders d; cd_shard_map := cd_shard_map d;
     cd_replication_policy := cd_replication_policy d; cd_visibility := cd_visibility d; cd_epoch := cd_epoch d;
     cd_version := cd_version d; cd_owner_node_id := cd_owner_node_id d;
     cd_contract_pubkey := cd_contract_pubkey d; cd_signature := sign (descriptor_signing_data d);
     cd_signer_type := signer_type; cd_created_at := cd_created_at d; cd_updated_at := cd_updated_at d |}.

Definition verify_descriptor_signature (d : ContentDescriptor) (public_key : bytes) : bool :=
  ed25519_verify public_key (descriptor_signing_data d) (cd_signature d).
End Signing.

Definition validate_contract_update (base updated : ContentDescriptor) : bool :=
  let bp := cd_replication_policy base in
  let up := cd_replication_policy updated in
  bool_decide (cd_owner_node_id base = cd_owner_node_id updated) &&
  (cd_epoch base =? cd_epoch updated) &&
  bool_decide (cd_visibility base = cd_visibility updated) &&
  ((rp_replication_factor bp =? rp_replication_factor up) && (rp_min_asn_diversity bp =? rp_min_asn_diversity up) &&
   eqb (rp_owner_excluded bp) (rp_owner_excluded up) &&
   eqb (rp_key_shard_separation bp) (rp_key_shard_separation up)) &&
  bool_decide (cd_contract_pubkey base = cd_contract_pubkey updated).

(** [(a.epoch, a.version) >= (b.epoch, b.version)] *)
Definition at_least_as_new (a b : ContentDescriptor) : bool :=
  (cd_epoch b <? cd_epoch a) || ((cd_epoch a =? cd_epoch b) && (cd_version b <=? cd_version a)).

Definition resolve_conflict (a b : ContentDescriptor) : ContentDescriptor := if at_least_as_new a b then a else b.

(** * What placement and descriptors guarantee *)

#[local] Open Scope string_scope.
#[local] Open Scope list_scope.
#[local] Open Scope Z_scope.

(** ** The networks *)

Section Placement.
Context (peers : dict string string).

(** Groups that hold nodes of [seen], each under its own network. *)
Definition grouped (seen : list string) (groups : dict string (list string)) : Prop :=
  dict_wf groups ∧
  ∀ asn g, dict_get asn groups = Some g → g ≠ [] ∧ ∀ n, n ∈ g → n ∈ seen ∧ dict_get n peers = Some asn.

Lemma group_append_grouped seen groups asn nid :
  grouped seen groups → dict_get nid peers = Some asn → grouped (seen ++ [nid]) (group_append groups asn nid).
Proof.
  intros [Hwf Hg] Hn. unfold group_append. split; [by apply dict_wf_set|]. intros a g. rewrite dict_get_set.
  destruct (decide (asn = a)) as [<-|Hne].
  - intros [= <-]. split; [by destruct (default _ _)|]. intros n [Hin| ->%list_elem_of_singleton]%elem_of_app.
    + destruct (dict_get asn groups) as [g|] eqn:Hga; simpl in Hin; [|by apply not_elem_of_nil in Hin].
      destruct (Hg asn g Hga) as [_ Hall]. destruct (Hall n Hin) as [? ?]. split; [|done]. apply elem_of_app. by left.
    + split; [|done]. apply elem_of_app. right. by apply list_elem_of_singleton.
  - intros Hga. destruct (Hg a g Hga) as [Hne' Hall]. split; [done|]. intros n Hin. destruct (Hall n Hin).
    split; [|done]. apply elem_of_app. by left.
Qed.

Lemma group_by_asn_Ok eligible :
  eligible ⊆ dict_keys peers → ∃ groups, group_by_asn peers eligible = Ok groups ∧ grouped eligible groups.
Proof.
  intros Hsub. unfold group_by_asn.
  enough (∀ l seen groups, l ⊆ dict_keys peers → grouped seen groups →
    ∃ groups', result_foldM (λ groups nid, asn ← of_option KeyError (dict_get nid peers); Ok (group_append groups asn nid)) groups l
      = Ok groups' ∧ grouped (seen ++ l) groups') as Hl.
  { apply (Hl eligible [] []); [done|]. split; [apply NoDup_nil_2 | done]. }
  clear. induction l as [|n l IH]; intros seen groups Hsub Hg.
  - exists groups. by rewrite app_nil_r.
  - cbn [result_foldM]. destruct (dict_get n peers) as [asn|] eqn:Hn.
    + cbn [of_option mbind result_bind]. destruct (IH (seen ++ [n]) (group_append groups asn n)) as (g' & Hg' & Hgr).
      * set_solver.
      * by apply group_append_grouped.
      * exists g'. split; [done|]. by rewrite <-app_assoc in Hgr.
    + apply dict_get_None in Hn. exfalso. apply Hn, Hsub. left.
Qed.

(** ** One shard *)

Section Shard.
Context (eligible : list string) (groups : dict string (list string)) (rf : Z).
Context (Hgroups : grouped eligible groups) (Heligible : NoDup eligible).

(** A cursor for each network. *)
Definition cursors_ok (cursors : dict string Z) : Prop := dict_wf cursors ∧ ∀ a, a ∈ dict_keys groups → a ∈ dict_keys cursors.

Lemma dict_keys_get {V} a (d : dict string V) : a ∈ dict_keys d → ∃ v, dict_get a d = Some v.
Proof. intros Hin. destruct (dict_get a d) as [v|] eqn:Hg; [by exists v|]. by apply dict_get_None in Hg. Qed.

(** The first pass takes one node from each of the networks in turn. *)
Lemma first_pass_Ok asns assigned used cursors :
  asns ⊆ dict_keys groups → NoDup asns → (∀ a, a ∈ asns → a ∉ used) → cursors_ok cursors →
  ∃ new cursors', first_pass rf groups asns assigned used cursors = Ok (assigned ++ new, cursors') ∧ cursors_ok cursors' ∧
    new ⊆ eligible ∧ (λ n, dict_get n peers) <$> new = Some <$> take (Z.to_nat (rf - zlen assigned)) asns.
Proof.
  revert assigned used cursors. induction asns as [|asn asns IH]; intros assigned used cursors Hsub Hnd Hused Hcur; cbn [first_pass].
  - exists [], cursors. rewrite app_nil_r, take_nil. split_and!; [done | done | set_solver | done].
  - destruct (Z.leb_spec rf (zlen assigned)) as [Hle|Hlt].
    { exists [], cursors. rewrite app_nil_r. replace (Z.to_nat (rf - zlen assigned)) with 0%nat by lia.
      split_and!; [done | done | set_solver | done]. }
    rewrite bool_decide_false by (apply Hused; left).
    destruct (dict_keys_get asn groups) as [g Hg]; [apply Hsub; left|]. rewrite Hg.
    destruct (dict_keys_get asn cursors) as [cur Hc]; [apply Hcur, Hsub; left|]. rewrite Hc. cbn [of_option mbind result_bind].
    destruct Hgroups as [_ Hgr]. destruct (Hgr asn g Hg) as [Hne Hall].
    replace (zlen g =? 0) with false by (destruct g; [done | simpl; lia]). cbn [raise_if mbind result_bind].
    assert (0 < zlen g) as Hpos by (destruct g; [done | simpl; lia]).
    pose proof (Z.mod_pos_bound cur (zlen g) Hpos). destruct (lookup_lt_is_Some_2 g (Z.to_nat (cur mod zlen g))) as [n Hn]; [lia|].
    rewrite Hn. cbn [of_option mbind result_bind]. apply list_elem_of_lookup_2 in Hn. destruct (Hall n Hn) as [Hel Hpe].
    apply NoDup_cons in Hnd as [Hnin Hnd].
    destruct (IH (assigned ++ [n]) (asn :: used) (dict_set asn (cur + 1) cursors)) as (new & cursors' & Hf & Hcur' & Hnew & Hasn).
    + set_solver.
    + done.
    + intros a Ha. rewrite not_elem_of_cons. split; [by intros -> | apply Hused; by right].
    + split; [apply dict_wf_set, Hcur|]. intros a Ha. apply elem_dict_keys_set. right. by apply Hcur.
    + exists (n :: new), cursors'. rewrite Hf, <-app_assoc. split_and!; [done | done | set_solver |].
      rewrite fmap_cons, Hasn, Hpe, length_app. cbn [length].
      replace (Z.to_nat (rf - zlen assigned)) with (S (Z.to_nat (rf - Z.of_nat (length assigned + 1)))) by lia. done.
Qed.

(** The second pass adds the first eligible nodes that are missing. *)
Lemma second_pass_eq l assigned :
  NoDup l → second_pass rf l assigned = assigned ++ take (Z.to_nat (rf - zlen assigned)) (filter (λ n, n ∉ assigned) l).
Proof.
  revert assigned. induction l as [|n l IH]; intros assigned Hnd; cbn [second_pass]; [by rewrite filter_nil, take_nil, app_nil_r|].
  destruct (Z.leb_spec rf (zlen assigned)) as [Hle|Hlt].
  { replace (Z.to_nat (rf - zlen assigned)) with 0%nat by lia. by rewrite app_nil_r. }
  apply NoDup_cons in Hnd as [Hn Hnd]. rewrite filter_cons. case_bool_decide as Hin.
  - rewrite decide_False by tauto. by apply IH.
  - rewrite decide_True by done. rewrite IH by done. rewrite <-app_assoc. f_equal. rewrite length_app. cbn [length app].
    replace (Z.to_nat (rf - zlen assigned)) with (S (Z.to_nat (rf - Z.of_nat (length assigned + 1)))) by lia.
    cbn [take]. do 2 f_equal. apply filter_ext_on. intros x Hx. rewrite elem_of_app, list_elem_of_singleton.
    split; [tauto|]. intros Hni [?| ->]; tauto.
Qed.

(** The nodes of one shard. *)
Definition well_placed (nodes : list string) (relaxed : bool) : Prop :=
  NoDup nodes ∧ nodes ⊆ eligible ∧ zlen nodes = Z.max 0 (Z.min rf (zlen eligible)) ∧
  (relaxed = false → NoDup ((λ n, dict_get n peers) <$> nodes)).

Lemma length_missing assigned :
  NoDup assigned → assigned ⊆ eligible →
  (length (filter (λ n, n ∉ assigned) eligible) + length assigned = length eligible)%nat.
Proof.
  intros Hnd Hsub. rewrite <-(length_app (filter _ eligible) assigned). apply Permutation_length, NoDup_Permutation; [|done|].
  - apply NoDup_app. split_and!; [by apply NoDup_filter | | done]. intros x [? _]%list_elem_of_filter. done.
  - intros x. rewrite elem_of_app, list_elem_of_filter. split; [intros [[_ ?]|?]; auto|]. intros Hx.
    destruct (decide (x ∈ assigned)); [by right | by left].
Qed.

Lemma place_nodes asns cursors :
  asns ⊆ dict_keys groups → NoDup asns → cursors_ok cursors →
  ∃ assigned cursors', first_pass rf groups asns [] [] cursors = Ok (assigned, cursors') ∧ cursors_ok cursors' ∧
    let relaxed := zlen assigned <? rf in
    well_placed (if relaxed then second_pass rf eligible assigned else assigned) relaxed ∧
    (relaxed = true → zlen asns < rf).
Proof.
  intros Hsub Hnd Hcur. destruct (first_pass_Ok asns [] [] cursors Hsub Hnd) as (new & cursors' & Hf & Hcur' & Hnew & Hasn);
    [intros a _; apply not_elem_of_nil | done|].
  rewrite app_nil_l in Hf. cbn [length] in Hasn. replace (rf - Z.of_nat 0) with rf in Hasn by lia.
  exists new, cursors'. split; [done|]. split; [done|]. intros relaxed.
  assert (NoDup ((λ n, dict_get n peers) <$> new)) as Hnda.
  { rewrite Hasn. apply NoDup_fmap_2; [intros ? ?; by intros [=]|]. eapply sublist_NoDup; [exact Hnd | apply sublist_take]. }
  assert (NoDup new) as Hndn by (by eapply NoDup_fmap_1).
  assert (length new = Nat.min (Z.to_nat rf) (length asns)) as Hlen.
  { apply (f_equal length) in Hasn. by rewrite !length_fmap, length_take in Hasn. }
  pose proof (length_missing new Hndn Hnew) as Hmiss. subst relaxed. split.
  - destruct (Z.ltb_spec (zlen new) rf) as [Hlt|Hge].
    + rewrite second_pass_eq by done. set (extra := take _ _).
      assert (extra ⊆ filter (λ n, n ∉ new) eligible) as Hex.
      { intros x Hx. eapply elem_of_submseteq; [exact Hx|]. apply sublist_submseteq, sublist_take. }
      split_and!; [| | | done].
      * apply NoDup_app. split_and!; [done | intros x Hx Hx2%Hex%list_elem_of_filter; by destruct Hx2 |].
        eapply sublist_NoDup; [|apply sublist_take]. by apply NoDup_filter.
      * intros x [Hx|Hx%Hex%list_elem_of_filter]%elem_of_app; [by apply Hnew | by destruct Hx].
      * rewrite length_app. unfold extra. rewrite length_take. lia.
    + split_and!; [done | done | | done]. lia.
  - intros Hlt%Z.ltb_lt. lia.
Qed.
End Shard.

(** ** All the shards *)

Section Loop.
Context (eligible : list string) (groups : dict string (list string)) (rf : Z).
Context (Hgroups : grouped eligible groups) (Heligible : NoDup eligible).

Definition state_ok (placed : list string) (s : PlacementState) : Prop :=
  (∀ h, h ∈ placed → ∃ nodes relaxed, dict_get h (ps_assignments s) = Some nodes ∧
     well_placed eligible rf nodes relaxed ∧ (relaxed = true → "asn_relaxed" ∈ ps_degraded s)) ∧
  (∀ h nodes, dict_get h (ps_assignments s) = Some nodes → nodes ⊆ ps_all_shard_nodes s) ∧
  ps_asn_list s ≡ₚ dict_keys groups ∧ cursors_ok groups (ps_cursors s) ∧
  (∀ x, x ∈ ps_degraded s → x = "asn_relaxed" ∧ zlen (dict_keys groups) < rf).

Lemma rotate_perm {A} (l : list A) : drop 1 l ++ take 1 l ≡ₚ l.
Proof. rewrite (Permutation_app_comm (drop 1 l)). by rewrite take_drop. Qed.

Lemma place_shard_Ok placed s h :
  state_ok placed s → ∃ s', place_shard rf eligible groups s h = Ok s' ∧ state_ok (placed ++ [h]) s'.
Proof.
  intros (Hp & Hall & Hasn & Hcur & Hdeg). pose proof Hgroups as [Hwf _].
  destruct (place_nodes eligible groups rf Hgroups Heligible (ps_asn_list s) (ps_cursors s)) as (assigned & cursors' & Hf & Hcur' & Hw & Hr).
  { intros a Ha. by rewrite <-Hasn. }
  { by rewrite Hasn. }
  { done. }
  unfold place_shard. rewrite Hf. cbn [mbind result_bind]. eexists. split; [done|].
  unfold state_ok. cbn [ps_assignments ps_all_shard_nodes ps_cursors ps_asn_list ps_degraded].
  set (relaxed := zlen assigned <? rf) in *. set (nodes := if relaxed then second_pass rf eligible assigned else assigned) in *.
  set (deg := if relaxed && _ then _ else _).
  assert (∀ x, x ∈ ps_degraded s → x ∈ deg) as Hkeep.
  { intros x Hx. unfold deg. destruct (relaxed && _); [apply elem_of_app; by left | done]. }
  assert (relaxed = true → "asn_relaxed" ∈ deg) as Hrel.
  { intros Ht. unfold deg. rewrite Ht. cbn [andb]. case_bool_decide as Hin; simpl; [done|]. apply elem_of_app. right.
    by apply list_elem_of_singleton. }
  split_and!.
  - intros h' [Hin| ->%list_elem_of_singleton]%elem_of_app; rewrite dict_get_set.
    + destruct (decide (h = h')) as [->|]; [by exists nodes, relaxed|].
      destruct (Hp h' Hin) as (ns & r & Hns & Hwp & Hd). exists ns, r. split_and!; [done | done | auto].
    + rewrite decide_True by done. by exists nodes, relaxed.
  - intros h' ns. rewrite dict_get_set. destruct (decide (h = h')) as [->|].
    + intros [= <-] x Hx. apply elem_set_union. by left.
    + intros Hns x Hx. apply elem_set_union. right. by apply (Hall h' ns).
  - by rewrite rotate_perm.
  - done.
  - intros x Hx. unfold deg in Hx. destruct (relaxed && _) eqn:Hrd; [|auto].
    apply elem_of_app in Hx as [Hx| ->%list_elem_of_singleton]; [auto|]. split; [done|].
    apply andb_true_iff in Hrd as [Ht _]. specialize (Hr Ht). by rewrite Hasn in Hr.
Qed.

Lemma place_all_Ok hashes placed s :
  state_ok placed s → ∃ s', result_foldM (place_shard rf eligible groups) s hashes = Ok s' ∧ state_ok (placed ++ hashes) s'.
Proof.
  revert placed s. induction hashes as [|h hashes IH]; intros placed s Hs.
  - exists s. by rewrite app_nil_r.
  - destruct (place_shard_Ok placed s h Hs) as (s1 & H1 & Hs1). destruct (IH _ _ Hs1) as (s2 & H2 & Hs2).
    exists s2. cbn [result_foldM]. rewrite H1. cbn [mbind result_bind]. by rewrite <-app_assoc in Hs2.
Qed.
End Loop.

(** C39 Shards are placed within the constraints.  With fewer than three nodes besides
    the owner, placement raises PlacementError; with three or more it never raises.
    Then every shard is given distinct nodes, none of them the owner, as many as the
    replication factor or all there are; on distinct networks unless the placement
    says that this was relaxed, which it says only when the factor exceeds the number
    of networks.  The key shares go to a nonempty set of such nodes, none of which
    holds a shard unless the placement says that this was relaxed. *)
Theorem placement_constraints hashes rf owner :
  dict_wf peers →
  let eligible := filter (λ n, n ≠ owner) (dict_keys peers) in
  match compute_shard_placement hashes rf owner peers with
  | Err e => e = PlacementError ∧ zlen eligible < 3
  | Ok p =>
      3 <= zlen eligible ∧
      (∀ h, h ∈ hashes → ∃ nodes, dict_get h (sp_shard_assignments p) = Some nodes ∧ NoDup nodes ∧ nodes ⊆ eligible ∧
         zlen nodes = Z.max 0 (Z.min rf (zlen eligible)) ∧
         ("asn_relaxed" ∉ sp_degraded_constraints p → NoDup ((λ n, dict_get n peers) <$> nodes))) ∧
      ("asn_relaxed" ∈ sp_degraded_constraints p →
         ∃ groups, group_by_asn peers eligible = Ok groups ∧ zlen (dict_keys groups) < rf) ∧
      sp_key_share_holders p ≠ [] ∧ NoDup (sp_key_share_holders p) ∧ sp_key_share_holders p ⊆ eligible ∧
      sp_contract_key_share_holders p = sp_key_share_holders p ∧
      ("key_shard_separation_relaxed" ∉ sp_degraded_constraints p →
         ∀ h nodes n, dict_get h (sp_shard_assignments p) = Some nodes → n ∈ nodes → n ∉ sp_key_share_holders p)
  end.
Proof.
  intros Hwf eligible. unfold compute_shard_placement. fold eligible.
  destruct (Z.ltb_spec (zlen eligible) MIN_NETWORK_NODES) as [Hlt|Hge]; [done|]. cbn [raise_if mbind result_bind].
  assert (NoDup eligible) as Hnd by (by apply NoDup_filter).
  destruct (group_by_asn_Ok eligible) as (groups & Hg & Hgr); [intros n Hn; by apply list_elem_of_filter in Hn as [_ ?]|].
  rewrite Hg. cbn [mbind result_bind].
  destruct (place_all_Ok eligible groups rf Hgr Hnd hashes []
    {| ps_assignments := []; ps_all_shard_nodes := []; ps_cursors := (λ asn, (asn, 0)) <$> dict_keys groups;
       ps_asn_list := dict_keys groups; ps_degraded := [] |}) as (s & Hs & Hp & Hall & _ & _ & Hdeg).
  { assert (dict_keys ((λ asn, (asn, 0)) <$> dict_keys groups) = dict_keys groups) as Hk.
    { unfold dict_keys. rewrite <-!list_fmap_compose. done. }
    split_and!; cbn; [by intros h Hh%not_elem_of_nil | done | done | | by intros x Hx%not_elem_of_nil].
    split; [unfold dict_wf; rewrite Hk; by apply Hgr | by rewrite Hk]. }
  rewrite app_nil_l in Hp. rewrite Hs. cbn [mbind result_bind].
  set (spare := filter (λ nid, nid ∉ ps_all_shard_nodes s) eligible).
  assert (∀ deg : list string, (∀ x, x ∈ ps_degraded s → x ∈ deg) →
    ∀ h, h ∈ hashes → ∃ nodes, dict_get h (ps_assignments s) = Some nodes ∧ NoDup nodes ∧ nodes ⊆ eligible ∧
         zlen nodes = Z.max 0 (Z.min rf (zlen eligible)) ∧
         ("asn_relaxed" ∉ deg → NoDup ((λ n, dict_get n peers) <$> nodes))) as Hshards.
  { intros deg Hd h Hh. destruct (Hp h Hh) as (nodes & r & Hn & (Hnn & Hsub & Hlen & Hasn) & Hr). exists nodes.
    split_and!; try done. intros Hno. apply Hasn. destruct r; [|done]. exfalso. by apply Hno, Hd, Hr. }
  assert (∀ x, x ∈ ps_degraded s → ∃ gs, Ok groups = Ok gs ∧ zlen (dict_keys gs) < rf) as Hrelax.
  { intros x Hx. exists groups. split; [done|]. by destruct (Hdeg x Hx). }
  destruct spare as [|n0 rest] eqn:Hspare.
  - split_and!; cbn [sp_shard_assignments sp_degraded_constraints sp_key_share_holders sp_contract_key_share_holders]; try done.
    + apply Hshards. intros x Hx. apply elem_of_app. by left.
    + intros [Hx|Hx%list_elem_of_singleton]%elem_of_app; [exact (Hrelax _ Hx) | done].
    + intros Hnil. rewrite Hnil in Hge. simpl in Hge. unfold MIN_NETWORK_NODES in Hge. lia.
    + intros Hno. exfalso. apply Hno, elem_of_app. right. by apply list_elem_of_singleton.
  - assert (∀ n, n ∈ (n0 :: rest) → (n ∉ ps_all_shard_nodes s) ∧ n ∈ eligible) as Hin.
    { intros n Hn. rewrite <-Hspare in Hn. by apply list_elem_of_filter in Hn. }
    split_and!; cbn [sp_shard_assignments sp_degraded_constraints sp_key_share_holders sp_contract_key_share_holders]; try done.
    + by apply Hshards.
    + apply Hrelax.
    + rewrite <-Hspare. by apply NoDup_filter.
    + intros n Hn. by apply Hin.
    + intros _ h nodes n Hn Hnin Hk. destruct (Hin n Hk) as [Hno _]. apply Hno. by apply (Hall h nodes).
Qed.
End Placement.

(** ** What a signature covers *)

(** The text of a descriptor can be read back. *)
Definition signable (d : ContentDescriptor) : bool := json_ok (signing_json d).

Lemma strs_json_inj l1 l2 : strs_json l1 = strs_json l2 → l1 ≡ₚ l2.
Proof.
  assert (Inj (=) (=) TStr) by (by intros ? ? [= ->]). intros [= Heq]. apply (inj (fmap TStr)) in Heq. unfold sorted_strs in Heq.
  rewrite <-(sort_by_perm string_leb l1), <-(sort_by_perm string_leb l2). by rewrite Heq.
Qed.

Lemma sorted_items_get m1 m2 k :
  dict_wf m1 → dict_wf m2 →
  (λ kv : string * list string, (kv.1, strs_json kv.2)) <$> sort_by item_leb m1 =
  (λ kv, (kv.1, strs_json kv.2)) <$> sort_by item_leb m2 →
  match dict_get k m1, dict_get k m2 with
  | Some v1, Some v2 => v1 ≡ₚ v2 | None, None => True | _, _ => False
  end.
Proof.
  intros H1 H2 Heq.
  assert (∀ m : dict string (list string), dict_wf m → dict_get k m = dict_get k (sort_by item_leb m)) as Hs.
  { intros m Hm. apply dict_perm_get; [done|]. symmetry. apply sort_by_perm. }
  rewrite (Hs m1), (Hs m2) by done. generalize dependent (sort_by item_leb m2). generalize (sort_by item_leb m1). clear.
  intros l1. induction l1 as [|[k1 v1] l1 IH]; intros [|[k2 v2] l2] Heq; try discriminate Heq; [done|].
  rewrite !fmap_cons in Heq. injection Heq as Hk Hv Hl. cbn [fst snd] in Hk. subst k2. simpl.
  case_decide; [|by apply IH]. apply strs_json_inj. unfold strs_json. simpl in Hv. by rewrite Hv.
Qed.

(** The fields that a signature covers; lists up to order. *)
Definition same_signed (d1 d2 : ContentDescriptor) : Prop :=
  let rp1 := cd_replication_policy d1 in
  let rp2 := cd_replication_policy d2 in
  cd_content_hash d1 = cd_content_hash d2 ∧ cd_contract_pubkey d1 = cd_contract_pubkey d2 ∧
  cd_epoch d1 = cd_epoch d2 ∧ cd_version d1 = cd_version d2 ∧ cd_owner_node_id d1 = cd_owner_node_id d2 ∧
  cd_visibility d1 = cd_visibility d2 ∧
  cd_manifest_holders d1 ≡ₚ cd_manifest_holders d2 ∧ cd_key_share_holders d1 ≡ₚ cd_key_share_holders d2 ∧
  cd_contract_key_share_holders d1 ≡ₚ cd_contract_key_share_holders d2 ∧
  (rp_replication_factor rp1 = rp_replication_factor rp2 ∧ rp_min_asn_diversity rp1 = rp_min_asn_diversity rp2 ∧
   rp_owner_excluded rp1 = rp_owner_excluded rp2 ∧ rp_key_shard_separation rp1 = rp_key_shard_separation rp2 ∧
   rp_degraded_constraints rp1 ≡ₚ rp_degraded_constraints rp2) ∧
  ∀ k, match dict_get k (cd_shard_map d1), dict_get k (cd_shard_map d2) with
       | Some v1, Some v2 => v1 ≡ₚ v2 | None, None => True | _, _ => False
       end.

Lemma signing_data_json d1 d2 :
  signable d1 = true → signable d2 = true → descriptor_signing_data d1 = descriptor_signing_data d2 →
  signing_json d1 = signing_json d2.
Proof.
  intros H1 H2 Heq. apply utf8_inj in Heq. apply (f_equal loads) in Heq.
  rewrite (loads_dumps_compact _ H1), (loads_dumps_compact _ H2) in Heq. exact (f_equal (λ r, match r with Ok v => v | Err _ => TNull end) Heq).
Qed.

(** The parts of a JSON value. *)
Definition jfield (k : string) (j : jtext) : jtext :=
  match j with TObj o => default TNull (dict_get k o) | _ => TNull end.
Definition tstr (j : jtext) : string := match j with TStr s => s | _ => "" end.
Definition tint (j : jtext) : Z := match j with TInt z => z | _ => 0 end.
Definition tbool (j : jtext) : bool := match j with TBool b => b | _ => false end.
Definition tobj (j : jtext) : list (string * jtext) := match j with TObj o => o | _ => [] end.

(** A descriptor's signature binds its content.  Two descriptors whose signing text
    is the same agree on the content hash, the owner, the visibility, the contract
    key, the epoch and version, every field of the replication policy, the holders of
    manifest and key shares and the nodes of every shard, up to the order of lists: a
    signature that verifies for one verifies for no descriptor that differs in any of
    these.  Reading the text back is what shows it: nothing is lost in writing it. *)
Theorem descriptor_signature_binds d1 d2 :
  signable d1 = true → signable d2 = true → dict_wf (cd_shard_map d1) → dict_wf (cd_shard_map d2) →
  descriptor_signing_data d1 = descriptor_signing_data d2 → same_signed d1 d2.
Proof.
  intros H1 H2 Hw1 Hw2 Heq. apply signing_data_json in Heq; [|done..].
  pose proof (f_equal (λ j, jfield "replication_policy" j) Heq) as Hrp.
  unfold same_signed. split_and!.
  - apply (inj content_hash_hex). exact (f_equal (λ j, tstr (jfield "content_hash" j)) Heq).
  - apply (inj hex). exact (f_equal (λ j, tstr (jfield "contract_pubkey" j)) Heq).
  - exact (f_equal (λ j, tint (jfield "epoch" j)) Heq).
  - exact (f_equal (λ j, tint (jfield "version" j)) Heq).
  - exact (f_equal (λ j, tstr (jfield "owner_node_id" j)) Heq).
  - exact (f_equal (λ j, tstr (jfield "visibility" j)) Heq).
  - apply strs_json_inj. exact (f_equal (λ j, jfield "manifest_holders" j) Heq).
  - apply strs_json_inj. exact (f_equal (λ j, jfield "key_share_holders" j) Heq).
  - apply strs_json_inj. exact (f_equal (λ j, jfield "contract_key_share_holders" j) Heq).
  - exact (f_equal (λ j, tint (jfield "replication_factor" j)) Hrp).
  - exact (f_equal (λ j, tint (jfield "min_asn_diversity" j)) Hrp).
  - exact (f_equal (λ j, tbool (jfield "owner_excluded" j)) Hrp).
  - exact (f_equal (λ j, tbool (jfield "key_shard_separation" j)) Hrp).
  - apply strs_json_inj. exact (f_equal (λ j, jfield "degraded_constraints" j) Hrp).
  - intros k. apply sorted_items_get; [done..|]. exact (f_equal (λ j, tobj (jfield "shard_map" j)) Heq).
Qed.

(** ** Updates and conflicts *)

(** An accepted update keeps the owner, the epoch, the visibility, the contract key
    and the numbers and flags of the policy. *)
Lemma validate_contract_update_true base updated :
  validate_contract_update base updated = true ↔
  cd_owner_node_id base = cd_owner_node_id updated ∧ cd_epoch base = cd_epoch updated ∧
  cd_visibility base = cd_visibility updated ∧ cd_contract_pubkey base = cd_contract_pubkey updated ∧
  let bp := cd_replication_policy base in
  let up := cd_replication_policy updated in
  rp_replication_factor bp = rp_replication_factor up ∧ rp_min_asn_diversity bp = rp_min_asn_diversity up ∧
  rp_owner_excluded bp = rp_owner_excluded up ∧ rp_key_shard_separation bp = rp_key_shard_separation up.
Proof.
  unfold validate_contract_update.
  rewrite !andb_true_iff, !bool_decide_eq_true, !Z.eqb_eq, !eqb_true_iff. cbn zeta. tauto.
Qed.

(** The winner has the greatest epoch and version. *)
Lemma resolve_conflict_newest a b :
  (resolve_conflict a b = a ∨ resolve_conflict a b = b) ∧
  at_least_as_new (resolve_conflict a b) a = true ∧ at_least_as_new (resolve_conflict a b) b = true.
Proof.
  unfold resolve_conflict. destruct (at_least_as_new a b) eqn:Hab; split_and!; auto; unfold at_least_as_new in *; lia.
Qed.

Section Conflict.
Variable (d : ContentDescriptor).

(** [d] with other manifest holders, and of another content with a shortened policy. *)
Definition with_holders (holders : list string) : ContentDescriptor :=
  {| cd_content_hash := cd_content_hash d; cd_manifest_holders := holders; cd_key_share_holders := cd_key_share_holders d;
     cd_contract_key_share_holders := cd_contract_key_share_holders d; cd_shard_map := cd_shard_map d;
     cd_replication_policy := cd_replication_policy d; cd_visibility := cd_visibility d; cd_epoch := cd_epoch d;
     cd_version := cd_version d; cd_owner_node_id := cd_owner_node_id d; cd_contract_pubkey := cd_contract_pubkey d;
     cd_signature := cd_signature d; cd_signer_type := cd_signer_type d; cd_created_at := cd_created_at d;
     cd_updated_at := cd_updated_at d |}.

(** Two descriptors of one epoch and version: each replica keeps its own. *)
Lemma resolve_tie_diverges h1 h2 :
  h1 ≠ h2 →
  resolve_conflict (with_holders h1) (with_holders h2) ≠ resolve_conflict (with_holders h2) (with_holders h1).
Proof.
  intros Hne. assert (∀ a b, at_least_as_new (with_holders a) (with_holders b) = true) as Hn.
  { intros a b. unfold at_least_as_new. simpl. lia. }
  unfold resolve_conflict. rewrite !Hn. intros Heq. by apply (f_equal cd_manifest_holders) in Heq.
Qed.

Definition with_content (h : ContentHash) (degraded : list string) : ContentDescriptor :=
  {| cd_content_hash := h; cd_manifest_holders := cd_manifest_holders d; cd_key_share_holders := cd_key_share_holders d;
     cd_contract_key_share_holders := cd_contract_key_share_holders d; cd_shard_map := cd_shard_map d;
     cd_replication_policy :=
       {| rp_replication_factor := rp_replication_factor (cd_replication_policy d);
          rp_min_asn_diversity := rp_min_asn_diversity (cd_replication_policy d);
          rp_owner_excluded := rp_owner_excluded (cd_replication_policy d);
          rp_key_shard_separation := rp_key_shard_separation (cd_replication_policy d);
          rp_degraded_constraints := degraded |};
     cd_visibility := cd_visibility d; cd_epoch := cd_epoch d; cd_version := cd_version d;
     cd_owner_node_id := cd_owner_node_id d; cd_contract_pubkey := cd_contract_pubkey d;
     cd_signature := cd_signature d; cd_signer_type := cd_signer_type d; cd_created_at := cd_created_at d;
     cd_updated_at := cd_updated_at d |}.

(** An update to another content and other degraded constraints is accepted. *)
Lemma validate_ignores_content h degraded : validate_contract_update d (with_content h degraded) = true.
Proof. apply validate_contract_update_true. done. Qed.
End Conflict.

(** ** Examples *)

Definition peers0 : dict string string := [("owner", "AS1"); ("n1", "AS1"); ("n2", "AS2"); ("n3", "AS1"); ("n4", "AS2")].

(** Three replicas over two networks: the diversity is relaxed, and the node without
    shards holds the key shares. *)
Lemma placement_constraints_witness :
  ∃ p, compute_shard_placement ["s1"] 3 "owner" peers0 = Ok p ∧
    dict_get "s1" (sp_shard_assignments p) = Some ["n1"; "n2"; "n3"] ∧
    sp_degraded_constraints p = ["asn_relaxed"] ∧ sp_key_share_holders p ⊆ ["n1"; "n2"; "n3"; "n4"].
Proof.
  pose proof (placement_constraints peers0 ["s1"] 3 "owner") as Hp.
  destruct (compute_shard_placement ["s1"] 3 "owner" peers0) as [p|e] eqn:He; [|discriminate He].
  exists p. split; [reflexivity|]. destruct (Hp ltac:(apply (bool_decide_unpack _); vm_compute; exact I)) as (_ & _ & _ & _ & _ & Hk & _).
  split; [vm_compute in He; injection He as <-; reflexivity|].
  split; [vm_compute in He; injection He as <-; reflexivity | exact Hk].
Defined.

Definition descriptor0 (holders : list string) : ContentDescriptor :=
  with_holders (create_descriptor_stub "1760000000.5" {| ch_algorithm := SHA256; ch_digest := sha256 (utf8 "PRSM") |}
    "owner" "public" {| rp_replication_factor := 3; rp_min_asn_diversity := 2; rp_owner_excluded := true;
                        rp_key_shard_separation := true; rp_degraded_constraints := ["asn_relaxed"] |} [x2a]) holders.

Lemma descriptor0_signable : signable (descriptor0 ["n1"; "n2"]) = true ∧ signable (descriptor0 ["n2"; "n1"]) = true.
Proof. split; vm_cast_no_check (eq_refl true). Qed.

Lemma descriptor0_text : descriptor_signing_data (descriptor0 ["n1"; "n2"]) = descriptor_signing_data (descriptor0 ["n2"; "n1"]).
Proof. vm_cast_no_check (eq_refl (descriptor_signing_data (descriptor0 ["n1"; "n2"]))). Qed.

Lemma descriptor_signature_binds_witness :
  descriptor_signing_data (descriptor0 ["n1"; "n2"]) = descriptor_signing_data (descriptor0 ["n2"; "n1"]) ∧
  same_signed (descriptor0 ["n1"; "n2"]) (descriptor0 ["n2"; "n1"]).
Proof.
  split; [exact descriptor0_text|].
  exact (descriptor_signature_binds _ _ (proj1 descriptor0_signable) (proj2 descriptor0_signable)
           (NoDup_nil_2) (NoDup_nil_2) descriptor0_text).
Defined.
