(* ===== verification/Encryption.v ===== *)
(** * Content encryption

    Models prsm/storage/encryption.py: AES-256-GCM under a content key, in one piece
    and chunk by chunk.  What [os.urandom] and [uuid4] return are arguments. *)
From Stdlib Require Import ZArith Lia.
From S2P Require Import PyStd.
From S2P Require Import AesGcm.
From S2P Require Import Prelude.

#[local] Open Scope string_scope.
#[local] Open Scope list_scope.
#[local] Open Scope Z_scope.

(** ** The streaming interface of the package

    [Cipher(AES(key), GCM(iv))]: contexts that are fed chunks and finalized. *)
Class GcmStream `{AesGcm} : Type := {
  gcm_context : Type;
  gcm_encryptor : bytes → bytes → result gcm_context;
  gcm_decryptor : bytes → bytes → bytes → result gcm_context;
  gcm_authenticate : gcm_context → bytes → gcm_context;
  gcm_update : gcm_context → bytes → gcm_context * bytes;
  (** the tag of an encryptor *)
  gcm_tag : gcm_context → bytes;
  (** what [finalize] of a decryptor does *)
  gcm_check : gcm_context → result unit
}.

Section Stream.
Context `{GcmStream}.

(** A context with its associated data, and what it puts out for some chunks. *)
Definition gcm_start (ctx : gcm_context) (ad : option bytes) : gcm_context :=
  match ad with Some a => gcm_authenticate ctx a | None => ctx end.

Fixpoint gcm_feed (ctx : gcm_context) (chunks : list bytes) : gcm_context * bytes :=
  match chunks with
  | [] => (ctx, [])
  | c :: chunks' => let '(ctx1, out) := gcm_update ctx c in let '(ctx2, rest) := gcm_feed ctx1 chunks' in (ctx2, out ++ rest)
  end.
End Stream.

(** The documented behaviour: keys of 32 and nonces of 12 bytes make contexts; chunks
    give together what the one-shot interface gives for their concatenation. *)
Class GcmStreamLaws `{GcmStream} : Prop := {
  gcm_encryptor_Ok key iv : length key = 32%nat → length iv = 12%nat → ∃ ctx, gcm_encryptor key iv = Ok ctx;
  gcm_decryptor_Ok key iv tag : length key = 32%nat → length iv = 12%nat → length tag = 16%nat →
    ∃ ctx, gcm_decryptor key iv tag = Ok ctx;
  gcm_encrypt_chunks key iv ad ctx chunks ct : gcm_encryptor key iv = Ok ctx →
    aesgcm_encrypt key iv (concat chunks) ad = Ok ct →
    let '(ctx', out) := gcm_feed (gcm_start ctx ad) chunks in out ++ gcm_tag ctx' = ct ∧ length (gcm_tag ctx') = 16%nat;
  gcm_decrypt_chunks key iv tag ad ctx chunks p : gcm_decryptor key iv tag = Ok ctx →
    aesgcm_decrypt key iv (concat chunks ++ tag) ad = Ok p →
    let '(ctx', out) := gcm_feed (gcm_start ctx ad) chunks in out = p ∧ gcm_check ctx' = Ok tt;
  gcm_decrypt_bad key iv tag ad ctx chunks e : gcm_decryptor key iv tag = Ok ctx →
    zlen (concat chunks) < 2 ^ 31 → aesgcm_decrypt key iv (concat chunks ++ tag) ad = Err e →
    gcm_check (gcm_feed (gcm_start ctx ad) chunks).1 = Err InvalidTag
}.

Definition AES_KEY_BYTES : nat := 32.
Definition IV_BYTES : nat := 12.
Definition AUTH_TAG_BYTES : nat := 16.

(** ** Keys and payloads *)

Record AESKey : Type := { ak_key_id : string; ak_key_bytes : bytes }.

(** The constructor *)
Definition aes_key (key_id : string) (key_bytes : bytes) : result AESKey :=
  _ ← raise_if (negb (length key_bytes =? AES_KEY_BYTES)%nat) EncryptionError;
  Ok {| ak_key_id := key_id; ak_key_bytes := key_bytes |}.

Record EncryptedPayload : Type := {
  ep_ciphertext : bytes;
  ep_iv : bytes;
  ep_auth_tag : bytes;
  ep_key_id : string
}.

(** The constructor *)
Definition encrypted_payload (ciphertext iv auth_tag : bytes) (key_id : string) : result EncryptedPayload :=
  _ ← raise_if (negb (length iv =? IV_BYTES)%nat) EncryptionError;
  _ ← raise_if (negb (length auth_tag =? AUTH_TAG_BYTES)%nat) EncryptionError;
  Ok {| ep_ciphertext := ciphertext; ep_iv := iv; ep_auth_tag := auth_tag; ep_key_id := key_id |}.

(** [generate_key], of a fresh identifier and the random bytes *)
Definition generate_key (uuid : string) (random : bytes) : result AESKey := aes_key uuid random.

Section OneShot.
Context `{AesGcm}.

(** [encrypt]; [iv] is the random nonce. *)
Definition encrypt (plaintext : bytes) (key : AESKey) (iv : bytes) (associated_data : option bytes)
  : result EncryptedPayload :=
  combined ← aesgcm_encrypt (ak_key_bytes key) iv plaintext associated_data;
  let cut := (length combined - AUTH_TAG_BYTES)%nat in
  encrypted_payload (take cut combined) iv (drop cut combined) (ak_key_id key).

Definition decrypt (payload : EncryptedPayload) (key : AESKey) (associated_data : option bytes) : result bytes :=
  _ ← raise_if (negb (bool_decide (ep_key_id payload = ak_key_id key))) EncryptionError;
  rethrow (λ e, bool_decide (e = InvalidTag)) EncryptionAuthError
    (aesgcm_decrypt (ak_key_bytes key) (ep_iv payload) (ep_ciphertext payload ++ ep_auth_tag payload) associated_data).
End OneShot.

(** ** Streams *)

Section Streams.
Context `{GcmStream}.

Record StreamingEncryptor : Type := {
  se_key : AESKey; se_iv : bytes; se_cipher : gcm_context; se_finalized : bool
}.

(** The constructor; [iv] is the random nonce. *)
Definition streaming_encryptor (key : AESKey) (iv : bytes) (associated_data : option bytes) : result StreamingEncryptor :=
  cipher ← gcm_encryptor (ak_key_bytes key) iv;
  Ok {| se_key := key; se_iv := iv; se_cipher := gcm_start cipher associated_data; se_finalized := false |}.

Definition encrypt_chunk (s : StreamingEncryptor) (chunk : bytes) : result (StreamingEncryptor * bytes) :=
  if se_finalized s then Err EncryptionError
  else
    let '(cipher, out) := gcm_update (se_cipher s) chunk in
    Ok ({| se_key := se_key s; se_iv := se_iv s; se_cipher := cipher; se_finalized := false |}, out).

Definition encryptor_finalize (s : StreamingEncryptor) : result (StreamingEncryptor * bytes) :=
  if se_finalized s then Err EncryptionError
  else Ok ({| se_key := se_key s; se_iv := se_iv s; se_cipher := se_cipher s; se_finalized := true |},
           gcm_tag (se_cipher s)).

Record StreamingDecryptor : Type := { sd_cipher : gcm_context; sd_finalized : bool }.

Definition streaming_decryptor (key : AESKey) (iv auth_tag : bytes) (associated_data : option bytes)
  : result StreamingDecryptor :=
  _ ← raise_if (negb (length iv =? IV_BYTES)%nat) EncryptionError;
  _ ← raise_if (negb (length auth_tag =? AUTH_TAG_BYTES)%nat) EncryptionError;
  cipher ← gcm_decryptor (ak_key_bytes key) iv auth_tag;
  Ok {| sd_cipher := gcm_start cipher associated_data; sd_finalized := false |}.

Definition decrypt_chunk (s : StreamingDecryptor) (chunk : bytes) : result (StreamingDecryptor * bytes) :=
  if sd_finalized s then Err EncryptionError
  else let '(cipher, out) := gcm_update (sd_cipher s) chunk in Ok ({| sd_cipher := cipher; sd_finalized := false |}, out).

(** A failed check leaves the decryptor as it was. *)
Definition decryptor_finalize (s : StreamingDecryptor) : result StreamingDecryptor :=
  if sd_finalized s then Err EncryptionError
  else
    _ ← rethrow (λ e, bool_decide (e = InvalidTag)) EncryptionAuthError (gcm_check (sd_cipher s));
    Ok {| sd_cipher := sd_cipher s; sd_finalized := true |}.

(** ** Whole streams *)

Fixpoint encrypt_chunks (s : StreamingEncryptor) (chunks : list bytes) : result (StreamingEncryptor * bytes) :=
  match chunks with
  | [] => Ok (s, [])
  | c :: chunks' => '(s1, out) ← encrypt_chunk s c; '(s2, rest) ← encrypt_chunks s1 chunks'; Ok (s2, out ++ rest)
  end.

Fixpoint decrypt_chunks (s : StreamingDecryptor) (chunks : list bytes) : result (StreamingDecryptor * bytes) :=
  match chunks with
  | [] => Ok (s, [])
  | c :: chunks' => '(s1, out) ← decrypt_chunk s c; '(s2, rest) ← decrypt_chunks s1 chunks'; Ok (s2, out ++ rest)
  end.

Lemma encrypt_chunks_feed s chunks :
  se_finalized s = false →
  encrypt_chunks s chunks =
  let '(ctx, out) := gcm_feed (se_cipher s) chunks in
  Ok ({| se_key := se_key s; se_iv := se_iv s; se_cipher := ctx; se_finalized := false |}, out).
Proof.
  revert s. induction chunks as [|c chunks IH]; intros s Hf; cbn [encrypt_chunks gcm_feed].
  - destruct s. simpl in *. by subst.
  - unfold encrypt_chunk. rewrite Hf. destruct (gcm_update (se_cipher s) c) as [ctx out]. cbn [mbind result_bind].
    rewrite IH by done. simpl. by destruct (gcm_feed ctx chunks).
Qed.

Lemma decrypt_chunks_feed s chunks :
  sd_finalized s = false →
  decrypt_chunks s chunks =
  let '(ctx, out) := gcm_feed (sd_cipher s) chunks in Ok ({| sd_cipher := ctx; sd_finalized := false |}, out).
Proof.
  revert s. induction chunks as [|c chunks IH]; intros s Hf; cbn [decrypt_chunks gcm_feed].
  - destruct s. simpl in *. by subst.
  - unfold decrypt_chunk. rewrite Hf. destruct (gcm_update (sd_cipher s) c) as [ctx out]. cbn [mbind result_bind].
    rewrite IH by done. simpl. by destruct (gcm_feed ctx chunks).
Qed.
End Streams.
Arguments StreamingEncryptor {_ _}.
Arguments StreamingDecryptor {_ _}.

(** ** Guarantees *)

Section Theorems.
Context `{AesGcmLaws}.

Lemma take_drop_tag (c : bytes) n : take n c ++ drop n c = c.
Proof. apply take_drop. Qed.

End Theorems.

Section StreamTheorems.
Context `{GcmStream} `{!AesGcmLaws} `{!GcmStreamLaws}.

(** Streams are the one-shot encryption.  Encrypting content in chunks, however it
    is cut, gives the ciphertext and tag of encrypting it whole, and decrypting that
    ciphertext in chunks, however they are cut, gives the content and passes the
    final check.  For any other ciphertext or tag the final check raises
    EncryptionAuthError.  Once finalized, neither takes another chunk. *)
Theorem streaming_matches_one_shot key iv ad chunks :
  length (ak_key_bytes key) = 32%nat → length iv = 12%nat → zlen (concat chunks) < 2 ^ 31 →
  ∃ s s1 s2 ct tag,
    streaming_encryptor key iv ad = Ok s ∧ encrypt_chunks s chunks = Ok (s1, ct) ∧
    encryptor_finalize s1 = Ok (s2, tag) ∧ (∀ c, encrypt_chunk s2 c = Err EncryptionError) ∧
    encryptor_finalize s2 = Err EncryptionError ∧
    encrypt (concat chunks) key iv ad =
      Ok {| ep_ciphertext := ct; ep_iv := iv; ep_auth_tag := tag; ep_key_id := ak_key_id key |} ∧
    ∀ ct' tag' pieces, concat pieces = ct' → length tag' = 16%nat → zlen ct' < 2 ^ 31 - 16 →
      ∃ d d1 out, streaming_decryptor key iv tag' ad = Ok d ∧ decrypt_chunks d pieces = Ok (d1, out) ∧
        match aesgcm_decrypt (ak_key_bytes key) iv (ct' ++ tag') ad with
        | Ok p => out = p ∧ ∃ d2, decryptor_finalize d1 = Ok d2 ∧ (∀ c, decrypt_chunk d2 c = Err EncryptionError)
        | Err _ => decryptor_finalize d1 = Err EncryptionAuthError
        end ∧
        (ct' = ct → tag' = tag → aesgcm_decrypt (ak_key_bytes key) iv (ct' ++ tag') ad = Ok (concat chunks)).
Proof.
  intros Hk Hiv Hlen. destruct (gcm_encryptor_Ok (ak_key_bytes key) iv Hk Hiv) as [ctx Hctx].
  destruct (aesgcm_encrypt_Ok (ak_key_bytes key) iv (concat chunks) ad) as (c & Hc & Hcl); [done|].
  pose proof (gcm_encrypt_chunks _ _ ad ctx chunks c Hctx Hc) as Hf.
  destruct (gcm_feed (gcm_start ctx ad) chunks) as [ctx' ct] eqn:Hfeed. destruct Hf as [Hct Htl].
  eexists _, _, _, ct, (gcm_tag ctx'). unfold streaming_encryptor. rewrite Hctx. split; [done|].
  rewrite encrypt_chunks_feed by done. cbn [se_cipher]. rewrite Hfeed. split; [done|]. split; [done|].
  split; [done|]. split; [done|]. split.
  { unfold encrypt. rewrite Hc. cbn [mbind result_bind]. rewrite <-Hct, length_app, Htl. unfold AUTH_TAG_BYTES.
    rewrite Nat.add_sub, take_app_length, drop_app_length. unfold encrypted_payload. by rewrite Hiv, Htl. }
  intros ct' tag' pieces <- Htag Hlen'. destruct (gcm_decryptor_Ok (ak_key_bytes key) iv tag' Hk Hiv Htag) as [dctx Hd].
  destruct (gcm_feed (gcm_start dctx ad) pieces) as [d' out] eqn:Hdf.
  eexists _, _, out. unfold streaming_decryptor, IV_BYTES, AUTH_TAG_BYTES. rewrite Hiv, Htag, Hd. cbn. split; [done|].
  rewrite decrypt_chunks_feed by done. cbn [sd_cipher]. rewrite Hdf. split; [done|]. split.
  - destruct (aesgcm_decrypt (ak_key_bytes key) iv (concat pieces ++ tag') ad) as [p|e] eqn:Hdec.
    + pose proof (gcm_decrypt_chunks _ _ _ ad dctx pieces p Hd Hdec) as Hg. rewrite Hdf in Hg. destruct Hg as [-> Hok].
      split; [done|]. unfold decryptor_finalize. cbn. rewrite Hok. by eexists.
    + pose proof (gcm_decrypt_bad _ _ _ ad dctx pieces e Hd) as Hg. rewrite Hdf in Hg. unfold decryptor_finalize. cbn.
      simpl in Hg. rewrite Hg; [done | lia | done].
  - intros Heq ->. rewrite Heq, Hct. by apply aesgcm_decrypt_encrypt.
Qed.
End StreamTheorems.

(** ** An executable instance *)

Module ToyStream.
Import AesGcm.ToyGcm.

Record toy_context : Type := { t_key : bytes; t_iv : bytes; t_ad : option bytes; t_seen : bytes; t_tag : bytes }.

Definition toy_open (key iv tag_ : bytes) : result toy_context :=
  if (length key =? 32)%nat && (length iv =? 12)%nat && (length tag_ =? 16)%nat then
    Ok {| t_key := key; t_iv := iv; t_ad := None; t_seen := []; t_tag := tag_ |}
  else Err ValueError.

Definition toy_tag (c : toy_context) : bytes := tag (t_key c) (t_iv c) (t_seen c) (t_ad c).

#[export] Instance toy_stream : GcmStream := {|
  gcm_context := toy_context;
  gcm_encryptor key iv := toy_open key iv (replicate 16 Byte.x00);
  gcm_decryptor := toy_open;
  gcm_authenticate c a := {| t_key := t_key c; t_iv := t_iv c; t_ad := Some a; t_seen := t_seen c; t_tag := t_tag c |};
  gcm_update c d := ({| t_key := t_key c; t_iv := t_iv c; t_ad := t_ad c; t_seen := t_seen c ++ d; t_tag := t_tag c |}, d);
  gcm_tag := toy_tag;
  gcm_check c := if bool_decide (t_tag c = toy_tag c) then Ok tt else Err InvalidTag
|}.

Lemma toy_feed c chunks :
  gcm_feed c chunks =
  ({| t_key := t_key c; t_iv := t_iv c; t_ad := t_ad c; t_seen := t_seen c ++ concat chunks; t_tag := t_tag c |},
   concat chunks).
Proof.
  revert c. induction chunks as [|d chunks IH]; intros c; simpl.
  - rewrite app_nil_r. by destruct c.
  - rewrite IH. simpl. by rewrite <-app_assoc.
Qed.

Lemma toy_open_Ok key iv tag_ c :
  toy_open key iv tag_ = Ok c →
  length key = 32%nat ∧ length iv = 12%nat ∧ length tag_ = 16%nat ∧
  c = {| t_key := key; t_iv := iv; t_ad := None; t_seen := []; t_tag := tag_ |}.
Proof.
  unfold toy_open. destruct (_ && _) eqn:E; [|done]. intros [= <-].
  apply andb_prop in E as [[?%Nat.eqb_eq ?%Nat.eqb_eq]%andb_prop ?%Nat.eqb_eq]. done.
Qed.

Lemma toy_start_seen key iv tag_ ad chunks :
  gcm_feed (gcm_start {| t_key := key; t_iv := iv; t_ad := None; t_seen := []; t_tag := tag_ |} ad) chunks =
  ({| t_key := key; t_iv := iv; t_ad := ad; t_seen := concat chunks; t_tag := tag_ |}, concat chunks).
Proof. rewrite toy_feed. by destruct ad. Qed.

#[export] Instance toy_stream_laws : GcmStreamLaws.
Proof.
  split.
  - intros key iv Hk Hi. simpl. unfold toy_open. rewrite Hk, Hi. by eexists.
  - intros key iv t Hk Hi Ht. simpl. unfold toy_open. rewrite Hk, Hi, Ht. by eexists.
  - intros key iv ad ctx chunks ct (Hk & Hi & _ & ->)%toy_open_Ok. simpl. unfold encrypt_. rewrite Hk, Hi. intros [= <-].
    pose proof (toy_start_seen key iv (replicate 16 Byte.x00) ad chunks) as Hf. simpl in Hf. rewrite Hf.
    by split.
  - intros key iv t ad ctx chunks p (Hk & Hi & Ht & ->)%toy_open_Ok. simpl. unfold decrypt_. rewrite Hk, Hi. simpl.
    rewrite length_app, Ht, Nat.add_sub, take_app_length. case_bool_decide as Hc; [|done]. intros [= <-].
    apply app_inv_head in Hc. pose proof (toy_start_seen key iv t ad chunks) as Hf. simpl in Hf. rewrite Hf.
    split; [done|]. simpl. by rewrite bool_decide_true.
  - intros key iv t ad ctx chunks e (Hk & Hi & Ht & ->)%toy_open_Ok _. simpl. unfold decrypt_. rewrite Hk, Hi. simpl.
    rewrite length_app, Ht, Nat.add_sub, take_app_length. case_bool_decide as Hc; [done|]. intros _.
    pose proof (toy_start_seen key iv t ad chunks) as Hf. simpl in Hf. rewrite Hf. simpl.
    rewrite bool_decide_false; [done|]. intros Ht'. apply Hc. by f_equal.
Qed.
End ToyStream.

Import AesGcm.ToyGcm ToyStream.

Definition sample_key : AESKey := {| ak_key_id := "k1"; ak_key_bytes := replicate 32 Byte.x01 |}.
Definition sample_iv : bytes := replicate 12 Byte.x02.
Definition sample_text : bytes := [Byte.x10; Byte.x11; Byte.x12].


Lemma streaming_matches_one_shot_witness :
  ∃ s s1 s2 ct tag,
    streaming_encryptor sample_key sample_iv None = Ok s ∧ encrypt_chunks s [[Byte.x10]; []; [Byte.x11; Byte.x12]] = Ok (s1, ct) ∧
    encryptor_finalize s1 = Ok (s2, tag) ∧ encrypt_chunk s2 [] = Err EncryptionError ∧
    encrypt sample_text sample_key sample_iv None =
      Ok {| ep_ciphertext := ct; ep_iv := sample_iv; ep_auth_tag := tag; ep_key_id := "k1" |}.
Proof.
  destruct (streaming_matches_one_shot sample_key sample_iv None [[Byte.x10]; []; [Byte.x11; Byte.x12]] eq_refl eq_refl eq_refl)
    as (s & s1 & s2 & ct & tag & H1 & H2 & H3 & H4 & _ & H6 & _).
  exact (ex_intro _ s (ex_intro _ s1 (ex_intro _ s2 (ex_intro _ ct (ex_intro _ tag
    (conj H1 (conj H2 (conj H3 (conj (H4 []) H6))))))))).
Defined.
