(* ===== verification/Escrow.v ===== *)
(** * The payment escrow

    Models prsm/node/payment_escrow.py (PaymentEscrow).  The ledger, the two payment rails
    and the lock of each job are effects; the table of escrows is shared by the coroutines
    that run.  A ledger call either moves its amount and gives the transaction, or raises
    and moves nothing ([DagSteps.spec_submit_locked] for the node's ledger). *)
From Stdlib Require Import ZArith Lia.
From S2P Require Import PyStd.
From S2P Require Import PyNumbers.
From S2P Require Import Effects.
From S2P Require Import DagLedger.
From S2P Require Import Prelude.

#[local] Open Scope string_scope.
#[local] Open Scope list_scope.
#[local] Open Scope Z_scope.

(** ** Data *)

Inductive EscrowStatus : Type := PENDING | RELEASED | REFUNDED | DISPUTED.

#[export] Instance escrow_status_eq_dec : EqDecision EscrowStatus.
Proof. solve_decision. Defined.

(** A transaction of the ledger that the escrow made *)
Record Tx : Type := { tr_id : string; tr_from : string; tr_to : string; tr_amount : pyfloat }.

Record Rollback : Type := {
  rb_failed_recipient : string;
  rb_failed_amount : pyfloat;
  rb_failed_reason : exn;
  rb_compensated : list (string * pyfloat);
  rb_ts : pyfloat
}.

(** [EscrowEntry.metadata], by the keys the split release sets *)
Record Metadata : Type := {
  md_rollback_history : list Rollback;
  md_partial_release_unrecoverable : bool;
  md_leaked_recipients : list (string * pyfloat);
  md_splits : list (string * pyfloat * string)
}.

Definition no_metadata : Metadata :=
  {| md_rollback_history := []; md_partial_release_unrecoverable := false; md_leaked_recipients := []; md_splits := [] |}.

Record EscrowEntry : Type := {
  ee_escrow_id : string;
  ee_job_id : string;
  ee_requester_id : string;
  ee_amount : pyfloat;
  ee_status : EscrowStatus;
  ee_provider_winner : option string;
  ee_tx_lock : option string;
  ee_tx_release : option string;
  ee_created_at : pyfloat;
  ee_completed_at : option pyfloat;
  ee_metadata : Metadata
}.

Definition with_release (winner tx_id : string) (now : pyfloat) (e : EscrowEntry) : EscrowEntry :=
  {| ee_escrow_id := ee_escrow_id e; ee_job_id := ee_job_id e; ee_requester_id := ee_requester_id e; ee_amount := ee_amount e;
     ee_status := RELEASED; ee_provider_winner := Some winner; ee_tx_lock := ee_tx_lock e; ee_tx_release := Some tx_id;
     ee_created_at := ee_created_at e; ee_completed_at := Some now; ee_metadata := ee_metadata e |}.
Definition with_refund (now : pyfloat) (e : EscrowEntry) : EscrowEntry :=
  {| ee_escrow_id := ee_escrow_id e; ee_job_id := ee_job_id e; ee_requester_id := ee_requester_id e; ee_amount := ee_amount e;
     ee_status := REFUNDED; ee_provider_winner := ee_provider_winner e; ee_tx_lock := ee_tx_lock e; ee_tx_release := ee_tx_release e;
     ee_created_at := ee_created_at e; ee_completed_at := Some now; ee_metadata := ee_metadata e |}.
Definition with_metadata (f : Metadata → Metadata) (e : EscrowEntry) : EscrowEntry :=
  {| ee_escrow_id := ee_escrow_id e; ee_job_id := ee_job_id e; ee_requester_id := ee_requester_id e; ee_amount := ee_amount e;
     ee_status := ee_status e; ee_provider_winner := ee_provider_winner e; ee_tx_lock := ee_tx_lock e; ee_tx_release := ee_tx_release e;
     ee_created_at := ee_created_at e; ee_completed_at := ee_completed_at e; ee_metadata := f (ee_metadata e) |}.

Definition escrow_wallet (id : string) : string := "escrow-" +:+ id.

(** ** Effects *)

#[warnings="-register-all"]
Inductive escrow_request : Type :=
| GetBalance (wallet : string)
| LedgerTransfer (from to : string) (amount : pyfloat) (description : string)
| BroadcastTx (tx : Tx)
| GossipTx (tx : Tx)
| Now
(* uuid4(), drawn for a job *)
| EscrowUuid (job_id : string)
| ReadEscrows
(* self._escrows[e.escrow_id] = e *)
| Register (e : EscrowEntry)
(* assignments to the fields of the entry *)
| Mutate (escrow_id : string) (f : EscrowEntry → EscrowEntry)
| LockJob (job_id : string)
| UnlockJob (job_id : string).

Definition escrow_io : signature := {|
  request := escrow_request;
  response := λ e, match e with
                   | GetBalance _ => result pyfloat
                   | LedgerTransfer _ _ _ _ => result Tx
                   | BroadcastTx _ | GossipTx _ => result unit
                   | Now => pyfloat
                   | EscrowUuid _ => string
                   | ReadEscrows => dict string EscrowEntry
                   | _ => unit
                   end
|}.

(** [ew_ids]: the identifiers drawn, each with the job it was drawn for; [ew_trace]: the
    transfers that were made, in order. *)
Record EscrowWorld : Type := {
  ew_escrows : dict string EscrowEntry;
  ew_ids : list (string * string);
  ew_trace : list Tx;
  ew_held : gset string
}.

Definition escrow_effect (e : escrow_request) (w : EscrowWorld) : @response escrow_io e → EscrowWorld → Prop :=
  match e return @response escrow_io e → EscrowWorld → Prop with
  | LedgerTransfer from to amount _ => λ r w',
      match r with
      | Ok tx => tr_from tx = from ∧ tr_to tx = to ∧ tr_amount tx = amount ∧
          w' = {| ew_escrows := ew_escrows w; ew_ids := ew_ids w; ew_trace := ew_trace w ++ [tx]; ew_held := ew_held w |}
      | Err _ => w' = w
      end
  | EscrowUuid job => λ r w',
      (r ∉ (ew_ids w).*1) ∧ Forall (λ tx, tr_from tx ≠ escrow_wallet r) (ew_trace w) ∧
      w' = {| ew_escrows := ew_escrows w; ew_ids := ew_ids w ++ [(r, job)]; ew_trace := ew_trace w; ew_held := ew_held w |}
  | ReadEscrows => λ r w', r = ew_escrows w ∧ w' = w
  | Register e => λ _ w',
      w' = {| ew_escrows := dict_set (ee_escrow_id e) e (ew_escrows w); ew_ids := ew_ids w; ew_trace := ew_trace w; ew_held := ew_held w |}
  | Mutate id f => λ _ w',
      w' = {| ew_escrows := dict_update id f (ew_escrows w); ew_ids := ew_ids w; ew_trace := ew_trace w; ew_held := ew_held w |}
  | LockJob j => λ _ w',
      (j ∉ ew_held w) ∧ w' = {| ew_escrows := ew_escrows w; ew_ids := ew_ids w; ew_trace := ew_trace w; ew_held := {[j]} ∪ ew_held w |}
  | UnlockJob j => λ _ w',
      w' = {| ew_escrows := ew_escrows w; ew_ids := ew_ids w; ew_trace := ew_trace w; ew_held := ew_held w ∖ {[j]} |}
  | _ => λ _ w', w' = w
  end.
Definition escrow_exec : ∀ e : escrow_io, EscrowWorld → response e → EscrowWorld → Prop := escrow_effect.

(** ** The service *)

(** [broadcast_tx] and [gossip_tx] may be None. *)
Record EscrowConfig : Type := {
  ec_node_id : string;
  ec_broadcast : bool;
  ec_gossip : bool;
  ec_default_timeout : pyfloat
}.

Section Service.
Variable config : EscrowConfig.
Abbreviation act := (M escrow_io unit).

Definition get_balance (w : string) : act pyfloat := perform (E := escrow_io) (GetBalance w) ≫= lift.
Definition transfer (from to : string) (amount : pyfloat) (description : string) : act Tx :=
  perform (E := escrow_io) (LedgerTransfer from to amount description) ≫= lift.
Definition now : act pyfloat := perform (E := escrow_io) Now.
Definition read_escrows : act (dict string EscrowEntry) := perform (E := escrow_io) ReadEscrows.
Definition mutate (id : string) (f : EscrowEntry → EscrowEntry) : act unit := perform (E := escrow_io) (Mutate id f).

(** [async with self._job_lock(job_id)] *)
Definition with_job {A} (job : string) (m : act A) : act A :=
  _ ← perform (E := escrow_io) (LockJob job); r ← try m; _ ← perform (E := escrow_io) (UnlockJob job); lift r.

(** The scan of [self._escrows]: [escrow_any], and the first that is pending *)
Fixpoint locate (job : string) (es : list EscrowEntry) (any : option EscrowEntry) : option EscrowEntry * option EscrowEntry :=
  match es with
  | [] => (any, None)
  | e :: es' =>
      if bool_decide (ee_job_id e = job) then
        if bool_decide (ee_status e = PENDING) then (Some e, Some e) else locate job es' (Some e)
      else locate job es' any
  end.

(** *** Creating *)

(** A broadcast whose failure is only logged *)
Definition broadcast_logged (tx : Tx) : act unit :=
  if ec_broadcast config then _ ← try (perform (E := escrow_io) (BroadcastTx tx) ≫= lift); mret tt else mret tt.

Definition create_escrow_locked (job : string) (amount : pyfloat) (requester : string) : act (option EscrowEntry) :=
  balance ← get_balance requester;
  if flt balance amount then mret None
  else
    id ← perform (E := escrow_io) (EscrowUuid job);
    created ← now;
    r ← try
      (tx ← transfer requester (escrow_wallet id) amount ("Escrow for job " +:+ stake 8 job);
       let e := {| ee_escrow_id := id; ee_job_id := job; ee_requester_id := requester; ee_amount := amount; ee_status := PENDING;
                   ee_provider_winner := None; ee_tx_lock := Some (tr_id tx); ee_tx_release := None; ee_created_at := created;
                   ee_completed_at := None; ee_metadata := no_metadata |} in
       _ ← perform (E := escrow_io) (Register e);
       _ ← broadcast_logged tx;
       mret (Some e));
    match r with
    | Ok e => mret e
    | Err exc => if is_value_error exc then mret None else raise exc
    end.

Definition create_escrow (job : string) (amount : pyfloat) (requester_id : option string) : act (option EscrowEntry) :=
  let requester := match requester_id with Some r => if str_nonempty r then r else ec_node_id config | None => ec_node_id config end in
  with_job job
    (es ← read_escrows;
     match find (λ e, bool_decide (ee_job_id e = job ∧ ee_status e = PENDING)) (dict_values es) with
     | Some e => mret (Some e)
     | None => create_escrow_locked job amount requester
     end).

(** *** Releasing *)

(** [_looks_like_node_id] of prsm/economy/batch_settlement.py *)
Definition hex_lower (c : ascii) : bool :=
  let n := Z.of_N (N_of_ascii (ascii_lower c)) in ((48 <=? n) && (n <=? 57)) || ((97 <=? n) && (n <=? 102)).
Fixpoint all_chars (p : ascii → bool) (s : string) : bool :=
  match s with EmptyString => true | String c s' => p c && all_chars p s' end.
Definition looks_like_node_id (w : string) : bool :=
  str_nonempty w && negb (String.prefix "0x" w) && all_chars (λ c, negb (Ascii.eqb c "-"%char)) w &&
  (String.length w =? 32)%nat && all_chars hex_lower w.

Definition maybe_gossip (tx : Tx) (payee : string) (broadcast : bool) : act bool :=
  if negb (ec_gossip config) || negb broadcast then mret false
  else
    let payee := strip payee in
    if negb (looks_like_node_id payee) || bool_decide (payee = ec_node_id config) then mret false
    else
      r ← try (perform (E := escrow_io) (GossipTx tx) ≫= lift);
      mret (match r with Ok _ => true | Err _ => false end).

(** The answer of a release when nothing is pending *)
Definition release_finalized {A} (any : option EscrowEntry) : act (option A) :=
  match any with
  | Some e => if bool_decide (ee_status e = REFUNDED) then raise EscrowAlreadyFinalizedError else mret None
  | None => mret None
  end.

Definition positive_finite (a : pyfloat) : bool := is_finite a && negb (fle a fzero).

Definition payment_note (job : string) (consensus : bool) : string :=
  "Payment for job " +:+ stake 8 job +:+ " (consensus=" +:+ (if consensus then "yes" else "partial") +:+ ")".

Definition release_escrow_locked (job provider : string) (consensus : bool) (partial_amount : option pyfloat) : act (option Tx) :=
  _ ← lift (raise_if (match partial_amount with Some a => negb (positive_finite a) | None => false end) ValueError);
  es ← read_escrows;
  match locate job (dict_values es) None with
  | (any, None) => release_finalized any
  | (_, Some e) =>
      let wallet := escrow_wallet (ee_escrow_id e) in
      let amount := default (ee_amount e) partial_amount in
      balance ← get_balance wallet;
      if flt balance amount then mret None
      else
        r ← try
          (tx ← transfer wallet provider amount (payment_note job consensus);
           completed ← now;
           _ ← mutate (ee_escrow_id e) (with_release provider (tr_id tx) completed);
           let remainder := fsub balance amount in
           refund_tx ← (if flt fzero remainder then
                          t ← transfer wallet (ee_requester_id e) remainder ("Escrow refund for job " +:+ stake 8 job); mret (Some t)
                        else mret None);
           _ ← (if ec_broadcast config then
                  _ ← try (_ ← perform (E := escrow_io) (BroadcastTx tx) ≫= lift;
                           match refund_tx with Some t => perform (E := escrow_io) (BroadcastTx t) ≫= lift | None => mret tt end);
                  mret tt
                else mret tt);
           _ ← maybe_gossip tx provider true;
           mret (Some tx));
        match r with
        | Ok tx => mret tx
        | Err exc => if is_value_error exc then mret None else raise exc
        end
  end.

Definition release_escrow (job provider : string) (consensus : bool) (partial_amount : option pyfloat) : act (option Tx) :=
  with_job job (release_escrow_locked job provider consensus partial_amount).

(** *** Splitting *)

(** [max(range(len(splits)), key=...)] takes the first of the largest: that leg is cut. *)
Fixpoint cut_largest (splits : list (string * pyfloat)) (largest : pyfloat) (overshoot : pyfloat) : list (string * pyfloat) :=
  match splits with
  | [] => []
  | (r, a) :: splits' => if fle largest a then (r, fsub a overshoot) :: splits' else (r, a) :: cut_largest splits' largest overshoot
  end.
Definition largest_leg (splits : list (string * pyfloat)) : pyfloat :=
  fold_left (λ m p, if flt m p.2 then p.2 else m) splits fzero.

(** The legs, in order: the transactions, and what failed, if a leg raised ValueError *)
Fixpoint pay_legs (wallet note : string) (splits : list (string * pyfloat)) (txs : list Tx)
  : act (list Tx * option (string * pyfloat * exn)) :=
  match splits with
  | [] => mret (txs, None)
  | (recipient, amount) :: splits' =>
      r ← try (transfer wallet recipient amount note);
      match r with
      | Ok tx => pay_legs wallet note splits' (txs ++ [tx])
      | Err exc => if is_value_error exc then mret (txs, Some (recipient, amount, exc)) else raise exc
      end
  end.

(** The reverse transfers of the legs that were paid: those that succeed, and those that do
    not *)
Fixpoint compensate (wallet note : string) (legs : list (string * pyfloat)) (compensated leaked : list (string * pyfloat))
  : act (list (string * pyfloat) * list (string * pyfloat)) :=
  match legs with
  | [] => mret (compensated, leaked)
  | (recipient, amount) :: legs' =>
      r ← try (transfer recipient wallet amount note);
      match r with
      | Ok _ => compensate wallet note legs' (compensated ++ [(recipient, amount)]) leaked
      | Err _ => compensate wallet note legs' compensated (leaked ++ [(recipient, amount)])
      end
  end.

Definition add_rollback (b : Rollback) (leaked : list (string * pyfloat)) (m : Metadata) : Metadata :=
  {| md_rollback_history := md_rollback_history m ++ [b];
     md_partial_release_unrecoverable := match leaked with [] => md_partial_release_unrecoverable m | _ => true end;
     md_leaked_recipients := md_leaked_recipients m ++ leaked; md_splits := md_splits m |}.
Definition add_splits (l : list (string * pyfloat * string)) (m : Metadata) : Metadata :=
  {| md_rollback_history := md_rollback_history m; md_partial_release_unrecoverable := md_partial_release_unrecoverable m;
     md_leaked_recipients := md_leaked_recipients m; md_splits := md_splits m ++ l |}.

Fixpoint broadcast_each (txs : list Tx) : act unit :=
  match txs with [] => mret tt | tx :: txs' => _ ← broadcast_logged tx; broadcast_each txs' end.
Fixpoint gossip_each (txs : list Tx) (broadcast : bool) : act unit :=
  match txs with [] => mret tt | tx :: txs' => _ ← maybe_gossip tx (tr_to tx) broadcast; gossip_each txs' broadcast end.

(** What follows when every leg was paid *)
Definition split_released (e : EscrowEntry) (splits : list (string * pyfloat)) (remainder : pyfloat) (broadcast : bool) (txs : list Tx)
  : act (option (list Tx)) :=
  completed ← now;
  _ ← mutate (ee_escrow_id e) (λ e, with_metadata (add_splits (zip_with (λ s tx, (s.1, s.2, tr_id tx)) splits txs))
         (with_release ("split:" +:+ str_of_int (zlen splits)) (from_option tr_id "" (head txs)) completed e));
  refund_tx ← (if flt fzero remainder then
                 r ← try (transfer (escrow_wallet (ee_escrow_id e)) (ee_requester_id e) remainder
                            ("Escrow split-release remainder for job " +:+ stake 8 (ee_job_id e)));
                 match r with
                 | Ok t => mret [t]
                 | Err exc => if is_value_error exc then mret [] else raise exc
                 end
               else mret []);
  _ ← (if broadcast then broadcast_each (txs ++ refund_tx) else mret tt);
  _ ← gossip_each txs broadcast;
  mret (Some txs).

(** What follows when a leg raised ValueError *)
Definition split_rolled_back (e : EscrowEntry) (legs : list (string * pyfloat)) (failed : string * pyfloat * exn) : act (option (list Tx)) :=
  let '(recipient, amount, exc) := failed in
  '(compensated, leaked) ← compensate (escrow_wallet (ee_escrow_id e))
     ("Atomic rollback: compensating reverse of split-leg for job " +:+ stake 8 (ee_job_id e) +:+ " (failed at recipient "
        +:+ stake 12 recipient +:+ "...)") legs [] [];
  ts ← now;
  _ ← mutate (ee_escrow_id e) (with_metadata (add_rollback
        {| rb_failed_recipient := recipient; rb_failed_amount := amount; rb_failed_reason := exc; rb_compensated := compensated; rb_ts := ts |}
        leaked));
  mret None.

Definition TOLERANCE : pyfloat := lit "1e-9".

Definition release_escrow_split_locked (job : string) (splits : list (string * pyfloat)) (consensus broadcast : bool) : act (option (list Tx)) :=
  match splits with
  | [] => mret None
  | _ =>
      _ ← lift (raise_if (existsb (λ s : string * pyfloat, negb (str_nonempty s.1) || fle s.2 fzero) splits) ValueError);
      es ← read_escrows;
      match locate job (dict_values es) None with
      | (any, None) => release_finalized any
      | (_, Some e) =>
          let total := fsum splits.*2 in
          if flt (fadd (ee_amount e) TOLERANCE) total then raise ValueError
          else
            let wallet := escrow_wallet (ee_escrow_id e) in
            balance ← get_balance wallet;
            if flt (fadd balance TOLERANCE) total then mret None
            else
              let splits := if flt balance total then cut_largest splits (largest_leg splits) (fsub total balance) else splits in
              let total := fsum splits.*2 in
              '(txs, failed) ← pay_legs wallet ("Split p" +:+ sdrop 1 (payment_note job consensus)) splits [];
              match failed with
              | Some f => split_rolled_back e (take (length txs) splits) f
              | None => split_released e splits (fsub balance total) broadcast txs
              end
      end
  end.

Definition release_escrow_split (job : string) (splits : list (string * pyfloat)) (consensus broadcast : bool) : act (option (list Tx)) :=
  with_job job (release_escrow_split_locked job splits consensus broadcast).

(** *** Refunding *)

Definition refund_escrow_locked (job reason : string) : act bool :=
  es ← read_escrows;
  match locate job (dict_values es) None with
  | (Some e, None) =>
      match ee_status e with
      | REFUNDED => mret true
      | RELEASED => raise EscrowAlreadyFinalizedError
      | _ => mret false
      end
  | (None, None) => mret false
  | (_, Some e) =>
      let wallet := escrow_wallet (ee_escrow_id e) in
      balance ← get_balance wallet;
      r ← (if flt fzero balance then try (transfer wallet (ee_requester_id e) balance ("Escrow refund: " +:+ reason) ≫= λ _, mret tt)
           else mret (Ok tt));
      match r with
      | Ok _ => completed ← now; _ ← mutate (ee_escrow_id e) (with_refund completed); mret true
      | Err exc => if is_value_error exc then mret false else raise exc
      end
  end.

Definition refund_escrow (job reason : string) : act bool := with_job job (refund_escrow_locked job reason).

(** [list(self._escrows.values())] gives the objects: their status is read as the sweep
    comes to them. *)
Fixpoint cleanup_loop (ids : list string) (now_ : pyfloat) (cleaned : Z) : act Z :=
  match ids with
  | [] => mret cleaned
  | id :: ids' =>
      es ← read_escrows;
      match dict_get id es with
      | Some e =>
          if bool_decide (ee_status e = PENDING) && flt (ec_default_timeout config) (fsub now_ (ee_created_at e)) then
            _ ← refund_escrow (ee_job_id e) "Escrow timed out"; cleanup_loop ids' now_ (cleaned + 1)
          else cleanup_loop ids' now_ cleaned
      | None => cleanup_loop ids' now_ cleaned
      end
  end.

Definition cleanup_expired_escrows : act Z :=
  n ← now; es ← read_escrows; cleanup_loop (dict_keys es) n 0.

(** *** Queries *)

Definition list_escrows_by_requester (requester : string) (pending_only : bool) : act (list EscrowEntry) :=
  es ← read_escrows;
  mret (filter (λ e, lower (ee_requester_id e) = lower requester ∧ (pending_only = true → ee_status e = PENDING)) (dict_values es)).

Definition get_escrow (job : string) : act (option EscrowEntry) :=
  es ← read_escrows; mret (find (λ e, bool_decide (ee_job_id e = job)) (dict_values es)).

Definition get_by_escrow_id (id : string) : act (option EscrowEntry) := es ← read_escrows; mret (dict_get id es).

(** [get_stats]: the statuses that occur, with their counts, and what is locked *)
Definition status_counts (es : list EscrowEntry) : dict string Z :=
  fold_left (λ d e, let k := match ee_status e with PENDING => "pending" | RELEASED => "released" | REFUNDED => "refunded"
                                               | DISPUTED => "disputed" end in
                    dict_set k (default 0 (dict_get k d) + 1) d) es [].
Definition get_stats : act (Z * dict string Z * pyfloat) :=
  es ← read_escrows;
  let es := dict_values es in
  mret (zlen es, status_counts es, fround 6 (fsum (ee_amount <$> filter (λ e, ee_status e = PENDING) es))).
End Service.
