(* ===== verification/EscrowSafety.v ===== *)
(** * Every escrow is settled once

    Over every interleaving of calls of the payment escrow ([Escrow];
    prsm/node/payment_escrow.py): what the lock of a job protects is the job's entries and
    the transfers out of their wallets ([JobCore]), and whenever nobody holds it each
    escrow of the job has paid what its status says, once.
    Then what one split release can do. *)
From Stdlib Require Import ZArith Lia.
From S2P Require Import PyStd.
From S2P Require Import Effects.
From S2P Require Import PyNumbers.
From S2P Require Import DagLedger.
From S2P Require Import Escrow.
From S2P Require Import Prelude.
From stdpp Require Import relations.

#[local] Open Scope string_scope.
#[local] Open Scope list_scope.
#[local] Open Scope Z_scope.

Lemma filter_ext_in {A} (P Q : A → Prop) `{∀ x, Decision (P x), ∀ x, Decision (Q x)} (l : list A) :
  (∀ x, x ∈ l → P x ↔ Q x) → filter P l = filter Q l.
Proof.
  induction l as [|x l IH]; [done|]. intros HPQ. pose proof (HPQ x ltac:(set_solver)). rewrite !filter_cons.
  rewrite IH by (intros y Hy; apply HPQ; set_solver). by repeat case_decide; try tauto.
Qed.

Lemma filter_none {A} (P : A → Prop) `{∀ x, Decision (P x)} (l : list A) : (∀ x, x ∈ l → ¬ P x) → filter P l = [].
Proof.
  induction l as [|x l IH]; [done|]. intros HP. rewrite filter_cons, decide_False by (apply HP; set_solver). apply IH. set_solver.
Qed.

Lemma filter_dict_set {A} (P : string * A → Prop) `{∀ x, Decision (P x)} (d : dict string A) id v0 v :
  dict_get id d = Some v0 → (P (id, v0) ↔ P (id, v)) →
  filter P (dict_set id v d) = if decide (P (id, v)) then dict_set id v (filter P d) else filter P d.
Proof.
  change (dict string A) with (list (string * A)) in *. intros Hg HP. induction d as [|[k x] d IH]; [done|]. cbn [dict_get dict_set] in *.
  destruct (decide (id = k)) as [->|Hne].
  - injection Hg as ->. rewrite !filter_cons. destruct (decide (P (k, v))) as [Hv|Hv].
    + rewrite decide_True by tauto. cbn [dict_set]. by rewrite decide_True.
    + by rewrite decide_False by tauto.
  - rewrite !filter_cons. rewrite IH by done. destruct (decide (P (id, v))), (decide (P (k, x))); try done.
    cbn [dict_set]. by rewrite decide_False.
Qed.

Lemma filter_dict_fresh {A} (P : string * A → Prop) `{∀ x, Decision (P x)} (d : dict string A) id v :
  id ∉ dict_keys d → filter P (dict_set id v d) = if decide (P (id, v)) then dict_set id v (filter P d) else filter P d.
Proof.
  intros Hf. rewrite dict_set_fresh by done. change (dict string A) with (list (string * A)) in *. rewrite filter_app, filter_cons.
  case_decide; [|by rewrite app_nil_r]. symmetry. apply dict_set_fresh. intros Hk. apply Hf.
  apply list_elem_of_fmap in Hk as (kv & -> & Hin). apply list_elem_of_filter in Hin as [_ Hin]. apply list_elem_of_fmap. eauto.
Qed.

(** ** What belongs to a job *)

Record JobCore : Type := { jc_entries : dict string EscrowEntry; jc_ids : list string; jc_out : list Tx }.

Definition ids_of (j : string) (w : EscrowWorld) : list string := fst <$> filter (λ p : string * string, p.2 = j) (ew_ids w).
Definition jcore (j : string) (w : EscrowWorld) : JobCore :=
  {| jc_entries := filter (λ kv : string * EscrowEntry, ee_job_id kv.2 = j) (ew_escrows w);
     jc_ids := ids_of j w;
     jc_out := filter (λ tx, tr_from tx ∈ escrow_wallet <$> ids_of j w) (ew_trace w) |}.

(** The transfers out of one escrow's wallet *)
Definition outs (id : string) (c : JobCore) : list Tx := filter (λ tx, tr_from tx = escrow_wallet id) (jc_out c).

(** What an escrow has paid, by its status *)
Definition settled_as (e : EscrowEntry) (out : list Tx) : Prop :=
  match ee_status e with
  | PENDING => out = []
  | RELEASED => ∃ tx rest, out = tx :: rest ∧ ee_provider_winner e = Some (tr_to tx) ∧ ee_tx_release e = Some (tr_id tx) ∧
                  (rest = [] ∨ ∃ tx2, rest = [tx2] ∧ tr_to tx2 = ee_requester_id e)
  | REFUNDED => out = [] ∨ ∃ tx, out = [tx] ∧ tr_to tx = ee_requester_id e
  | DISPUTED => False
  end.

Record job_ok (c : JobCore) : Prop := {
  jo_entries id e : dict_get id (jc_entries c) = Some e → settled_as e (outs id c);
  jo_free id : id ∈ jc_ids c → dict_get id (jc_entries c) = None → outs id c = [];
  jo_one id1 e1 id2 e2 : dict_get id1 (jc_entries c) = Some e1 → dict_get id2 (jc_entries c) = Some e2 →
    ee_status e1 = PENDING → ee_status e2 = PENDING → id1 = id2
}.

(** ** The world *)

Record world_ok (w : EscrowWorld) : Prop := {
  wo_ids : NoDup (ew_ids w).*1;
  wo_wf : dict_wf (ew_escrows w);
  wo_entries k e : (k, e) ∈ ew_escrows w → k = ee_escrow_id e ∧ (k, ee_job_id e) ∈ ew_ids w
}.

Definition escrow_inv (w : EscrowWorld) : Prop := world_ok w ∧ ∀ j, j ∉ ew_held w → job_ok (jcore j w).

Definition escrow_rely (L : gset string) (w w' : EscrowWorld) : Prop := ∀ j, j ∈ L → jcore j w' = jcore j w.

Definition escrow_after (e : escrow_io) (L : gset string) : gset string :=
  match (e : escrow_request) with LockJob j => {[j]} ∪ L | UnlockJob j => L ∖ {[j]} | _ => L end.

Abbreviation erg := (rg escrow_exec ew_held escrow_after escrow_rely escrow_inv).

Lemma escrow_wallet_inj a b : escrow_wallet a = escrow_wallet b → a = b.
Proof. unfold escrow_wallet. intros Heq. cbn in Heq. by injection Heq. Qed.

Lemma elem_ids j id w : id ∈ ids_of j w ↔ (id, j) ∈ ew_ids w.
Proof.
  unfold ids_of. rewrite list_elem_of_fmap. split.
  - intros ([a b] & -> & Hin). apply list_elem_of_filter in Hin as [Hb Hin]. cbn in *. by subst b.
  - intros Hin. exists (id, j). split; [done|]. by apply list_elem_of_filter.
Qed.

(** A drawn identifier belongs to one job. *)
Lemma ids_apart w j k id : world_ok w → id ∈ ids_of j w → id ∈ ids_of k w → j = k.
Proof.
  intros Hw [i Hi]%elem_ids%list_elem_of_lookup [i' Hi']%elem_ids%list_elem_of_lookup. pose proof (wo_ids _ Hw) as Hnd.
  assert (i = i') as <-; [|congruence]. eapply (NoDup_lookup _ _ _ id Hnd); by rewrite list_lookup_fmap, ?Hi, ?Hi'.
Qed.

Lemma is_escrow_wallet id : String.prefix "escrow-" (escrow_wallet id) = true.
Proof. unfold escrow_wallet. by destruct id. Qed.

Lemma not_escrow_wallet from (ids : list string) : String.prefix "escrow-" from = false → from ∉ escrow_wallet <$> ids.
Proof. intros Hp (id & -> & _)%list_elem_of_fmap. by rewrite is_escrow_wallet in Hp. Qed.

Lemma elem_wallets id (ids : list string) : escrow_wallet id ∈ escrow_wallet <$> ids ↔ id ∈ ids.
Proof.
  rewrite list_elem_of_fmap. split; [|intros Hin; by exists id]. by intros (id' & ->%escrow_wallet_inj & Hin).
Qed.

(** ** Effects by the holder of a job's lock *)

Definition is_job_lock (e : escrow_request) : bool := match e with LockJob _ | UnlockJob _ => true | _ => false end.

Section Holder.
Variable j : string.

Definition jw {A} (m : M escrow_io unit A) (Q : result A → JobCore → Prop) (c : JobCore) : Prop :=
  ∀ w, jcore j w = c → erg {[j]} (m tt) (λ rs L' w', L' = {[j]} ∧ Q rs.1 (jcore j w')) w.

Lemma jw_mono {A} (m : M escrow_io unit A) (Q Q' : result A → JobCore → Prop) c :
  jw m Q c → (∀ r c, Q r c → Q' r c) → jw m Q' c.
Proof. intros Hm HQ w Hw. eapply rg_mono; [|by apply Hm]. intros rs L' w' [-> H]. split; [done | by apply HQ]. Qed.

Lemma jw_lift {A} (r : result A) (Q : result A → JobCore → Prop) c : Q r c → jw (lift r) Q c.
Proof. intros HQ w <-. by split. Qed.
Lemma jw_ret {A} (a : A) (Q : result A → JobCore → Prop) c : Q (Ok a) c → jw (mret a) Q c.
Proof. apply (jw_lift (Ok a)). Qed.
Lemma jw_raise {A} e (Q : result A → JobCore → Prop) c : Q (Err e) c → jw (raise e) Q c.
Proof. apply (jw_lift (Err e)). Qed.

Lemma jw_bind {A B} (m : M escrow_io unit A) (f : A → M escrow_io unit B) (Q : result B → JobCore → Prop) c :
  jw m (λ r c, match r with Ok a => jw (f a) Q c | Err e => Q (Err e) c end) c → jw (m ≫= f) Q c.
Proof.
  intros Hm w Hw. unfold mbind, M_bind. apply rg_bind. eapply rg_mono; [|by apply Hm].
  intros [[a|e] []] L' w' [-> H]; cbn in *; [by apply H | by split].
Qed.

Lemma jw_try {A} (m : M escrow_io unit A) (Q : result (result A) → JobCore → Prop) c :
  jw m (λ r c, Q (Ok r) c) c → jw (try m) Q c.
Proof. intros Hm w Hw. unfold try. apply rg_bind. eapply rg_mono; [|by apply Hm]. intros [r []] L' w' [-> H]. by split. Qed.

(** An effect that changes nothing of the other jobs *)
Lemma jw_effect (e : escrow_request) (Q : result (@response escrow_io e) → JobCore → Prop) c :
  is_job_lock e = false →
  (∀ w r w', world_ok w → jcore j w = c → escrow_effect e w r w' →
     world_ok w' ∧ (∀ k, k ≠ j → jcore k w' = jcore k w) ∧ ew_held w' = ew_held w ∧ Q (Ok r) (jcore j w')) →
  jw (perform (E := escrow_io) e) Q c.
Proof.
  intros Hl He w Hw w1 Hr [Hok Hjobs] HL r w2 Hx. specialize (Hr j ltac:(set_solver)). rewrite Hw in Hr.
  destruct (He w1 r w2 Hok Hr Hx) as (Hok2 & Hk & Hh & HQ). assert (escrow_after e = id) as Ha by by destruct e.
  rewrite Ha. unfold id. split_and!; [split | | | | ].
  - done.
  - intros k Hkh. rewrite Hh in Hkh. assert (k ≠ j) as Hne by set_solver. rewrite Hk by done. by apply Hjobs.
  - intros M HM k HkM. apply Hk. intros ->. apply HM in HkM. set_solver.
  - rewrite Hh. apply set_eq. intros t. rewrite elem_of_union, elem_of_difference. destruct (decide (t ∈ ({[j]} : gset string))); set_solver.
  - set_solver.
  - by split.
Qed.

(** One that changes nothing *)
Lemma jw_same (e : escrow_request) (Q : result (@response escrow_io e) → JobCore → Prop) c :
  is_job_lock e = false → (∀ w r w', escrow_effect e w r w' → w' = w) → (∀ r, Q (Ok r) c) → jw (perform (E := escrow_io) e) Q c.
Proof.
  intros Hl He HQ. apply jw_effect; [done|]. intros w r w' Hok Hc Hx. apply He in Hx as ->. split_and!; [done..|]. rewrite Hc. apply HQ.
Qed.

Lemma jw_get_balance wl (Q : result pyfloat → JobCore → Prop) c : (∀ r, Q r c) → jw (get_balance wl) Q c.
Proof. intros HQ. apply jw_bind, (jw_same (GetBalance wl)); [done | done |]. intros r. by apply jw_lift. Qed.
Lemma jw_now (Q : result pyfloat → JobCore → Prop) c : (∀ r, Q (Ok r) c) → jw now Q c.
Proof. by apply (jw_same Now). Qed.
Lemma jw_broadcast tx (Q : result unit → JobCore → Prop) c :
  (∀ r, Q r c) → jw (perform (E := escrow_io) (BroadcastTx tx) ≫= lift) Q c.
Proof. intros HQ. apply jw_bind, (jw_same (BroadcastTx tx)); [done | done |]. intros r. by apply jw_lift. Qed.
Lemma jw_gossip tx (Q : result unit → JobCore → Prop) c :
  (∀ r, Q r c) → jw (perform (E := escrow_io) (GossipTx tx) ≫= lift) Q c.
Proof. intros HQ. apply jw_bind, (jw_same (GossipTx tx)); [done | done |]. intros r. by apply jw_lift. Qed.

(** The table that is read, as far as it is the job's *)
Definition table_of (es : dict string EscrowEntry) (c : JobCore) : Prop :=
  (∀ id e, dict_get id (jc_entries c) = Some e → ee_escrow_id e = id ∧ id ∈ jc_ids c ∧ e ∈ dict_values es ∧ ee_job_id e = j) ∧
  ∀ e, e ∈ dict_values es → ee_job_id e = j ↔ dict_get (ee_escrow_id e) (jc_entries c) = Some e.

Lemma jcore_table w : world_ok w → table_of (ew_escrows w) (jcore j w).
Proof.
  intros [Hids Hwf He]. assert (dict_wf (jc_entries (jcore j w))) as Hwf'.
  { unfold dict_wf, dict_keys. eapply sublist_NoDup; [exact Hwf | apply fmap_sublist, sublist_filter]. }
  split.
  - intros id e Hg%dict_get_elem. apply list_elem_of_filter in Hg as [Hj Hg]. cbn in Hj. destruct (He _ _ Hg) as [-> Hin]. split_and!; [done | | | done].
    + apply elem_ids. by rewrite <-Hj.
    + apply list_elem_of_fmap. by exists (ee_escrow_id e, e).
  - intros e. unfold dict_values. rewrite list_elem_of_fmap. intros ([k e'] & -> & Hin). cbn. destruct (He _ _ Hin) as [-> _]. split.
    + intros Hj. apply elem_dict_get; [done|]. by apply list_elem_of_filter.
    + intros Hg%dict_get_elem. by apply list_elem_of_filter in Hg as [? _].
Qed.

Lemma jw_read (Q : result (dict string EscrowEntry) → JobCore → Prop) c : (∀ es, table_of es c → Q (Ok es) c) → jw read_escrows Q c.
Proof.
  intros HQ. apply (jw_effect ReadEscrows); [done|]. intros w r w' Hok Hc Hx. simpl in Hx. destruct Hx as [-> ->]. split_and!; [done..|]. rewrite Hc. apply HQ.
  rewrite <-Hc. by apply jcore_table.
Qed.

(** *** Transfers *)

Definition add_out (tx : Tx) (c : JobCore) : JobCore := {| jc_entries := jc_entries c; jc_ids := jc_ids c; jc_out := jc_out c ++ [tx] |}.

Lemma outs_add_same id tx c : tr_from tx = escrow_wallet id → outs id (add_out tx c) = outs id c ++ [tx].
Proof. intros Hf. unfold outs. cbn [add_out jc_out]. rewrite filter_app. f_equal. rewrite filter_cons. by rewrite decide_True. Qed.
Lemma outs_add_other id id' tx c : tr_from tx = escrow_wallet id' → id ≠ id' → outs id (add_out tx c) = outs id c.
Proof.
  intros Hf Hne. unfold outs. cbn [add_out jc_out]. rewrite filter_app, filter_cons, decide_False; [by rewrite app_nil_r|].
  rewrite Hf. by intros ?%escrow_wallet_inj.
Qed.

Definition with_trace (tx : Tx) (w : EscrowWorld) : EscrowWorld :=
  {| ew_escrows := ew_escrows w; ew_ids := ew_ids w; ew_trace := ew_trace w ++ [tx]; ew_held := ew_held w |}.

Lemma jcore_other k tx w : tr_from tx ∉ escrow_wallet <$> ids_of k w → jcore k (with_trace tx w) = jcore k w.
Proof.
  intros Hn. unfold jcore. f_equal. cbn [with_trace ew_trace]. rewrite filter_app, filter_cons, decide_False; [by rewrite app_nil_r | done].
Qed.

Lemma jw_pay id to amount d (Q : result Tx → JobCore → Prop) c :
  id ∈ jc_ids c →
  (∀ tx, tr_from tx = escrow_wallet id → tr_to tx = to → tr_amount tx = amount → Q (Ok tx) (add_out tx c)) → (∀ e, Q (Err e) c) →
  jw (transfer (escrow_wallet id) to amount d) Q c.
Proof.
  intros Hid HQ HE. apply jw_bind, (jw_effect (LedgerTransfer (escrow_wallet id) to amount d)); [done|].
  intros w [tx|e] w' Hok Hc Hx; simpl in Hx.
  - destruct Hx as (Hf & Ht & Ha & ->). change {| ew_escrows := _ |} with (with_trace tx w). subst c. split_and!.
    + by destruct Hok.
    + intros k Hk. apply jcore_other. rewrite Hf, elem_wallets. intros Hk'. by destruct Hk; apply (ids_apart w _ _ id).
    + done.
    + apply jw_lift. assert (jcore j (with_trace tx w) = add_out tx (jcore j w)) as ->; [|by apply HQ].
      unfold jcore, add_out. f_equal. cbn [with_trace ew_trace jc_out]. rewrite filter_app. f_equal. rewrite filter_cons, decide_True; [done|].
      by rewrite Hf, elem_wallets.
  - subst w'. split_and!; [done..|]. rewrite Hc. by apply jw_lift.
Qed.

(** A transfer from a wallet that is no escrow's *)
Lemma jw_fund from to amount d (Q : result Tx → JobCore → Prop) c :
  String.prefix "escrow-" from = false → (∀ r, Q r c) → jw (transfer from to amount d) Q c.
Proof.
  intros Hp HQ. apply jw_bind, (jw_effect (LedgerTransfer from to amount d)); [done|].
  intros w [tx|e] w' Hok Hc Hx; simpl in Hx.
  - destruct Hx as (Hf & _ & _ & ->). change {| ew_escrows := _ |} with (with_trace tx w). split_and!.
    + by destruct Hok.
    + intros k _. apply jcore_other. rewrite Hf. by apply not_escrow_wallet.
    + done.
    + rewrite jcore_other by (rewrite Hf; by apply not_escrow_wallet). rewrite Hc. by apply jw_lift.
  - subst w'. split_and!; [done..|]. rewrite Hc. by apply jw_lift.
Qed.

(** *** The table *)

Definition add_id (id : string) (c : JobCore) : JobCore := {| jc_entries := jc_entries c; jc_ids := jc_ids c ++ [id]; jc_out := jc_out c |}.
Definition add_entry (e : EscrowEntry) (c : JobCore) : JobCore :=
  {| jc_entries := dict_set (ee_escrow_id e) e (jc_entries c); jc_ids := jc_ids c; jc_out := jc_out c |}.

Lemma jw_uuid (Q : result string → JobCore → Prop) c :
  (∀ id, dict_get id (jc_entries c) = None → outs id c = [] → id ∉ jc_ids c → Q (Ok id) (add_id id c)) →
  jw (perform (E := escrow_io) (EscrowUuid j)) Q c.
Proof.
  intros HQ. apply (jw_effect (EscrowUuid j)); [done|]. intros w id w' Hok Hc (Hn & Hun & ->).
  set (w' := {| ew_ids := _ |}).
  assert (∀ tx, tx ∈ ew_trace w → tr_from tx ≠ escrow_wallet id) as Hun' by by rewrite Forall_forall in Hun.
  split_and!.
  - destruct Hok as [Hids Hwf He]. split; cbn; [|done|].
    + rewrite fmap_app. apply NoDup_app. split_and!; [done | | apply NoDup_singleton]. cbn. set_solver.
    + intros k e Hin. destruct (He _ _ Hin). set_solver.
  - intros k Hk. unfold jcore, ids_of. cbn [ew_ids w' ew_escrows ew_trace]. rewrite filter_app, filter_cons, decide_False by (cbn; congruence).
    by rewrite app_nil_r.
  - done.
  - assert (jcore j w' = add_id id c) as ->.
    { subst c. unfold jcore, add_id, ids_of. cbn [w' ew_ids ew_escrows ew_trace jc_entries jc_ids jc_out].
      rewrite filter_app, filter_cons, decide_True, fmap_app by done. f_equal. apply filter_ext_in. intros tx Htx.
      cbn. rewrite fmap_app, elem_of_app. cbn. rewrite list_elem_of_singleton. pose proof (Hun' _ Htx). naive_solver. }
    subst c. apply HQ.
    + apply dict_get_None. intros Hk. apply list_elem_of_fmap in Hk as ([k e] & -> & Hin). apply list_elem_of_filter in Hin as [_ Hin].
      destruct (wo_entries _ Hok _ _ Hin) as [_ Hi]. apply Hn. apply list_elem_of_fmap. eexists; split; [|exact Hi]; done.
    + unfold outs. cbn. apply filter_none. intros tx Hin. apply list_elem_of_filter in Hin as [_ Hin]. by apply Hun'.
    + intros Hi%elem_ids. apply Hn. apply list_elem_of_fmap. eexists; split; [|exact Hi]; done.
Qed.

Definition with_escrows (d : dict string EscrowEntry) (w : EscrowWorld) : EscrowWorld :=
  {| ew_escrows := d; ew_ids := ew_ids w; ew_trace := ew_trace w; ew_held := ew_held w |}.

Lemma jw_register e (Q : result unit → JobCore → Prop) c :
  ee_job_id e = j → ee_escrow_id e ∈ jc_ids c → dict_get (ee_escrow_id e) (jc_entries c) = None →
  Q (Ok tt) (add_entry e c) → jw (perform (E := escrow_io) (Register e)) Q c.
Proof.
  intros Hj Hid Hnone HQ. apply (jw_effect (Register e)); [done|]. intros w [] w' Hok Hc Hx. simpl in Hx. subst w'.
  change {| ew_escrows := _ |} with (with_escrows (dict_set (ee_escrow_id e) e (ew_escrows w)) w). subst c.
  assert (ee_escrow_id e ∉ dict_keys (ew_escrows w)) as Hfresh.
  { intros Hk. apply list_elem_of_fmap in Hk as ([k e'] & Heq & Hin). cbn in Heq. subst k. destruct (wo_entries _ Hok _ _ Hin) as [_ Hi].
    assert (ee_job_id e' = j) as Hj' by (apply (ids_apart w _ _ (ee_escrow_id e)); [done | by apply elem_ids | done]).
    apply dict_get_None in Hnone. apply Hnone. apply list_elem_of_fmap. exists (ee_escrow_id e, e'). split; [done|]. by apply list_elem_of_filter. }
  split_and!; [split; cbn | | done |].
  - apply Hok.
  - apply dict_wf_set, Hok.
  - intros k e'. rewrite dict_set_fresh by done. rewrite elem_of_app, list_elem_of_singleton. intros [Hin|[= -> ->]]; [by apply Hok|].
    split; [done|]. rewrite Hj. by apply elem_ids.
  - intros k Hk. unfold jcore. cbn [with_escrows ew_escrows]. f_equal. rewrite filter_dict_fresh by done.
    rewrite decide_False by (cbn; congruence). done.
  - assert (jcore j (with_escrows (dict_set (ee_escrow_id e) e (ew_escrows w)) w) = add_entry e (jcore j w)) as ->; [|done].
    unfold jcore, add_entry. cbn [with_escrows ew_escrows jc_entries jc_ids jc_out]. f_equal.
    by rewrite filter_dict_fresh, decide_True.
Qed.

Lemma jw_mutate id f e (Q : result unit → JobCore → Prop) c :
  dict_get id (jc_entries c) = Some e → ee_escrow_id (f e) = id → ee_job_id (f e) = ee_job_id e →
  Q (Ok tt) (add_entry (f e) c) → jw (mutate id f) Q c.
Proof.
  intros Hg Hid Hjob HQ. apply (jw_effect (Mutate id f)); [done|]. intros w [] w' Hok Hc Hx. simpl in Hx. subst w'.
  change {| ew_escrows := _ |} with (with_escrows (dict_update id f (ew_escrows w)) w). subst c.
  pose proof Hg as Hin%dict_get_elem. apply list_elem_of_filter in Hin as [Hj Hin]. cbn in Hj.
  assert (dict_get id (ew_escrows w) = Some e) as Hgw by (apply elem_dict_get; [apply Hok | done]).
  unfold dict_update. rewrite Hgw. split_and!; [split; cbn | | done |].
  - apply Hok.
  - apply dict_wf_set, Hok.
  - intros k e' Hk. apply elem_dict_get in Hk; [|apply dict_wf_set, Hok]. rewrite dict_get_set in Hk. destruct (decide (id = k)) as [->|Hne].
    + injection Hk as <-. split; [done|]. rewrite Hjob. by apply (wo_entries _ Hok).
    + apply dict_get_elem in Hk. by apply (wo_entries _ Hok).
  - intros k Hk. unfold jcore. cbn [with_escrows ew_escrows]. f_equal. rewrite (filter_dict_set _ _ _ e) by (done || (cbn; by rewrite Hjob)).
    rewrite decide_False; [done|]. cbn. congruence.
  - assert (jcore j (with_escrows (dict_set id (f e) (ew_escrows w)) w) = add_entry (f e) (jcore j w)) as ->; [|done].
    unfold jcore, add_entry. cbn [with_escrows ew_escrows jc_entries jc_ids jc_out]. f_equal. rewrite Hid.
    rewrite (filter_dict_set _ _ _ e) by (done || (cbn; by rewrite Hjob)). rewrite decide_True; [done|]. cbn. congruence.
Qed.
End Holder.

(** ** Changes to one escrow *)

Definition no_pending (c : JobCore) : Prop := ∀ id e, dict_get id (jc_entries c) = Some e → ee_status e ≠ PENDING.

Lemma ok_at id c c' :
  job_ok c →
  (∀ id', id' ≠ id → dict_get id' (jc_entries c') = dict_get id' (jc_entries c) ∧ outs id' c' = outs id' c) →
  (∀ id', id' ∈ jc_ids c' → id' = id ∨ id' ∈ jc_ids c) →
  match dict_get id (jc_entries c') with
  | Some e => settled_as e (outs id c') ∧
      (ee_status e = PENDING → no_pending c ∨ ∃ e0, dict_get id (jc_entries c) = Some e0 ∧ ee_status e0 = PENDING)
  | None => outs id c' = []
  end → job_ok c'.
Proof.
  intros [H1 H2 H3] Ho Hi He. split.
  - intros id' e Hg. destruct (decide (id' = id)) as [->|Hne]; [by rewrite Hg in He; destruct He|].
    destruct (Ho _ Hne) as [Hg' ->]. rewrite Hg' in Hg. by apply H1.
  - intros id' Hid Hg. destruct (decide (id' = id)) as [->|Hne]; [by rewrite Hg in He|].
    destruct (Ho _ Hne) as [Hg' ->]. rewrite Hg' in Hg. apply H2; [|done]. by destruct (Hi _ Hid).
  - assert (∀ id1 e1 id2 e2, dict_get id1 (jc_entries c') = Some e1 → dict_get id2 (jc_entries c') = Some e2 →
      ee_status e1 = PENDING → ee_status e2 = PENDING → id1 = id → id1 = id2) as Hone.
    { intros id1 e1 id2 e2 G1 G2 P1 P2 ->. destruct (decide (id2 = id)) as [->|Hne]; [done|]. destruct (Ho _ Hne) as [Hg2 _]. rewrite Hg2 in G2.
      rewrite G1 in He. destruct He as [_ Hp]. destruct (Hp P1) as [Hn|(e0 & G0 & P0)]; [by destruct (Hn _ _ G2) | by eapply H3]. }
    intros id1 e1 id2 e2 G1 G2 P1 P2. destruct (decide (id1 = id)) as [->|N1]; [by eapply Hone|].
    destruct (decide (id2 = id)) as [->|N2]; [symmetry; by eapply Hone|].
    destruct (Ho _ N1) as [E1 _], (Ho _ N2) as [E2 _]. rewrite E1 in G1. rewrite E2 in G2. by eapply H3.
Qed.

Lemma get_add_entry e c id :
  dict_get id (jc_entries (add_entry e c)) = if decide (ee_escrow_id e = id) then Some e else dict_get id (jc_entries c).
Proof. cbn. by rewrite dict_get_set. Qed.

Lemma locate_pending j es any x e :
  locate j es any = (x, Some e) → e ∈ es ∧ ee_job_id e = j ∧ ee_status e = PENDING.
Proof.
  revert any. induction es as [|e' es IH]; intros any; cbn [locate]; [done|]. case_bool_decide.
  - case_bool_decide; [intros [= _ <-]; split_and!; [set_solver | done | done]|]. intros He%IH. set_solver.
  - intros He%IH. set_solver.
Qed.

(** The pending escrow of a job has paid nothing. *)
Lemma located j es c x e :
  table_of j es c → job_ok c → locate j (dict_values es) None = (x, Some e) →
  dict_get (ee_escrow_id e) (jc_entries c) = Some e ∧ ee_escrow_id e ∈ jc_ids c ∧ ee_job_id e = j ∧ ee_status e = PENDING ∧
  outs (ee_escrow_id e) c = [].
Proof.
  intros [Ht1 Ht2] Hok Hl. apply locate_pending in Hl as (Hin & Hj & Hp). pose proof (proj1 (Ht2 _ Hin) Hj) as Hg.
  split_and!; [done | by apply (Ht1 _ e) | done | done |]. pose proof (jo_entries _ Hok _ _ Hg) as Hs. unfold settled_as in Hs. by rewrite Hp in Hs.
Qed.

Section Calls.
Variable config : EscrowConfig.
Variable j : string.
Implicit Type c : JobCore.
Abbreviation ok := (λ _ c, job_ok c).

(** A release is paid, and its entry is final. *)
Lemma ok_released e tx n c :
  job_ok c → dict_get (ee_escrow_id e) (jc_entries c) = Some e → outs (ee_escrow_id e) c = [] →
  tr_from tx = escrow_wallet (ee_escrow_id e) →
  job_ok (add_entry (with_release (tr_to tx) (tr_id tx) n e) (add_out tx c)).
Proof.
  intros Hok Hg Ho Hf. apply (ok_at (ee_escrow_id e) c); [done | | intros id'; by right |].
  - intros id' Hne. rewrite get_add_entry. cbn [with_release ee_escrow_id]. rewrite decide_False by done. split; [done|].
    by apply (outs_add_other id' (ee_escrow_id e)).
  - rewrite get_add_entry, decide_True by done. split; [|done]. unfold settled_as. cbn [ee_status with_release].
    assert (outs (ee_escrow_id e) (add_entry (with_release (tr_to tx) (tr_id tx) n e) (add_out tx c)) = [tx]) as ->.
    { etrans; [by apply (outs_add_same (ee_escrow_id e) tx c)|]. by rewrite Ho. }
    exists tx, []. split_and!; [done..|by left].
Qed.

Lemma ok_remainder e tx n t c :
  job_ok c → dict_get (ee_escrow_id e) (jc_entries c) = Some e → outs (ee_escrow_id e) c = [] →
  tr_from tx = escrow_wallet (ee_escrow_id e) → tr_from t = escrow_wallet (ee_escrow_id e) → tr_to t = ee_requester_id e →
  job_ok (add_out t (add_entry (with_release (tr_to tx) (tr_id tx) n e) (add_out tx c))).
Proof.
  intros Hok Hg Ho Hf Hf2 Ht. pose proof (ok_released e tx n c Hok Hg Ho Hf) as Hok2.
  set (c2 := add_entry _ _) in *. apply (ok_at (ee_escrow_id e) c2); [done | | intros id'; by right |].
  - intros id' Hne. split; [done | by apply (outs_add_other id' (ee_escrow_id e))].
  - assert (dict_get (ee_escrow_id e) (jc_entries (add_out t c2)) = Some (with_release (tr_to tx) (tr_id tx) n e)) as ->.
    { unfold c2. cbn. by rewrite dict_get_set_eq. }
    split; [|done]. unfold settled_as. cbn [ee_status with_release ee_requester_id].
    assert (outs (ee_escrow_id e) (add_out t c2) = [tx; t]) as ->.
    { rewrite (outs_add_same (ee_escrow_id e) t c2) by done. unfold c2. etrans; [apply (f_equal (λ l, l ++ [t])); by apply (outs_add_same (ee_escrow_id e) tx c)|].
      by rewrite Ho. }
    exists tx, [t]. split_and!; [done..|]. right. by exists t.
Qed.

Lemma jw_gossiped tx payee b (Q : result bool → JobCore → Prop) c : (∀ r, Q (Ok r) c) → jw j (maybe_gossip config tx payee b) Q c.
Proof.
  intros HQ. unfold maybe_gossip. destruct (_ || _); [by apply jw_ret|]. destruct (_ || _); [by apply jw_ret|].
  apply jw_bind, jw_try, jw_gossip. intros r. by apply jw_ret.
Qed.

Lemma jw_broadcast_logged tx (Q : result unit → JobCore → Prop) c : Q (Ok tt) c → jw j (broadcast_logged config tx) Q c.
Proof.
  intros HQ. unfold broadcast_logged. destruct (ec_broadcast config); [|by apply jw_ret].
  apply jw_bind, jw_try, jw_broadcast. intros r. by apply jw_ret.
Qed.

(** [except ValueError: return ...] *)
Lemma jw_value_error {A} (r : result A) (a : A) c :
  job_ok c → jw j (match r with Ok x => mret x | Err exc => if is_value_error exc then mret a else raise exc end) ok c.
Proof. intros Hok. destruct r as [x|exc]; [by apply jw_ret|]. destruct (is_value_error exc); [by apply jw_ret | by apply jw_raise]. Qed.

(** The two rails, after the payment *)
Lemma jw_announce tx (refund_tx : option Tx) payee (Q : result (option Tx) → JobCore → Prop) c :
  Q (Ok (Some tx)) c →
  jw j (_ ← (if ec_broadcast config then
               _ ← try (_ ← perform (E := escrow_io) (BroadcastTx tx) ≫= lift;
                        match refund_tx with Some t => perform (E := escrow_io) (BroadcastTx t) ≫= lift | None => mret tt end);
               mret tt
             else mret tt);
        _ ← maybe_gossip config tx payee true; mret (Some tx)) Q c.
Proof.
  intros HQ. apply jw_bind.
  assert (∀ b : bool, jw j (_ ← maybe_gossip config tx payee b; mret (Some tx)) Q c) as Hg by (intros b; by apply jw_bind, jw_gossiped; intros; apply jw_ret).
  destruct (ec_broadcast config); [|by apply jw_ret]. apply jw_bind, jw_try, jw_bind, jw_broadcast.
  intros [[]|x]; [|by apply jw_ret, Hg]. destruct refund_tx; [apply jw_broadcast; intros r'; by apply jw_ret | by apply jw_ret, jw_ret].
Qed.

Lemma jw_finalized {A} any c : job_ok c → jw j (release_finalized (A := A) any) ok c.
Proof. intros Hok. unfold release_finalized. destruct any as [e|]; [|by apply jw_ret]. case_bool_decide; [by apply jw_raise | by apply jw_ret]. Qed.

Lemma jw_release provider consensus partial c : job_ok c → jw j (release_escrow_locked config j provider consensus partial) ok c.
Proof.
  intros Hok. unfold release_escrow_locked. apply jw_bind, jw_lift. destruct (raise_if _ _); [|done].
  apply jw_bind, jw_read. intros es Ht. destruct (locate j (dict_values es) None) as [any [e|]] eqn:El; [|by apply jw_finalized].
  destruct (located _ _ _ _ _ Ht Hok El) as (Hg & Hid & Hj & Hp & Ho). apply jw_bind, jw_get_balance. intros [balance|x]; [|done].
  destruct (flt balance (default (ee_amount e) partial)); [by apply jw_ret|]. apply jw_bind, jw_try.
  apply jw_bind, jw_pay; [done | | intros x; by apply (jw_value_error (Err x) None)]. intros tx Hf Hto _. apply jw_bind, jw_now. intros n.
  apply jw_bind, (jw_mutate j _ _ e); [exact Hg | done | done |]. rewrite <-Hto.
  apply jw_bind. destruct (flt fzero _).
  - apply jw_bind, jw_pay; [done | | intros x; apply (jw_value_error (Err x) None); by apply ok_released].
    intros t Hf2 Ht2 _. apply jw_ret, (jw_announce tx (Some t)), (jw_value_error (Ok (Some tx)) None). by apply ok_remainder.
  - apply jw_ret, (jw_announce tx None), (jw_value_error (Ok (Some tx)) None). by apply ok_released.
Qed.

(** A refund is paid, and its entry is final. *)
Lemma ok_refunded e tx n c :
  job_ok c → dict_get (ee_escrow_id e) (jc_entries c) = Some e → outs (ee_escrow_id e) c = [] →
  tr_from tx = escrow_wallet (ee_escrow_id e) → tr_to tx = ee_requester_id e →
  job_ok (add_entry (with_refund n e) (add_out tx c)).
Proof.
  intros Hok Hg Ho Hf Ht. apply (ok_at (ee_escrow_id e) c); [done | | intros id'; by right |].
  - intros id' Hne. rewrite get_add_entry. cbn [with_refund ee_escrow_id]. rewrite decide_False by done. split; [done|].
    by apply (outs_add_other id' (ee_escrow_id e)).
  - rewrite get_add_entry, decide_True by done. split; [|done]. right. exists tx. split; [|done].
    etrans; [by apply (outs_add_same (ee_escrow_id e) tx c)|]. by rewrite Ho.
Qed.

Lemma ok_refunded_empty e n c :
  job_ok c → dict_get (ee_escrow_id e) (jc_entries c) = Some e → outs (ee_escrow_id e) c = [] → job_ok (add_entry (with_refund n e) c).
Proof.
  intros Hok Hg Ho. apply (ok_at (ee_escrow_id e) c); [done | | intros id'; by right |].
  - intros id' Hne. rewrite get_add_entry. cbn [with_refund ee_escrow_id]. by rewrite decide_False.
  - rewrite get_add_entry, decide_True by done. split; [by left | done].
Qed.

Lemma jw_refund reason c : job_ok c → jw j (refund_escrow_locked j reason) ok c.
Proof.
  intros Hok. unfold refund_escrow_locked. apply jw_bind, jw_read. intros es Ht.
  destruct (locate j (dict_values es) None) as [any [e|]] eqn:El; [|].
  2: { destruct any as [e|]; [|by apply jw_ret]. destruct (ee_status e); first [by apply jw_ret | by apply jw_raise]. }
  destruct (located _ _ _ _ _ Ht Hok El) as (Hg & Hid & Hj & Hp & Ho).
  destruct any as [a|]; (apply jw_bind, jw_get_balance; intros [balance|x]; [|done]); apply jw_bind;
    (destruct (flt fzero balance);
     [apply jw_try, jw_bind, jw_pay; [done | intros tx Hf Hto _; apply jw_ret | intros x; destruct (is_value_error x); [by apply jw_ret | by apply jw_raise]]
     |apply jw_ret]);
    apply jw_bind, jw_now; intros n; apply jw_bind, (jw_mutate j _ _ e); try done; apply jw_ret;
    first [by apply ok_refunded | by apply ok_refunded_empty].
Qed.

(** A hold is locked and its entry is the job's only pending one. *)
Lemma ok_created e c :
  job_ok c → no_pending c → dict_get (ee_escrow_id e) (jc_entries c) = None → outs (ee_escrow_id e) c = [] → ee_status e = PENDING →
  job_ok (add_entry e (add_id (ee_escrow_id e) c)).
Proof.
  intros Hok Hno Hg Ho Hp. apply (ok_at (ee_escrow_id e) c); [done | | |].
  - intros id' Hne. rewrite get_add_entry. by rewrite decide_False.
  - intros id'. cbn. rewrite elem_of_app, list_elem_of_singleton. tauto.
  - rewrite get_add_entry, decide_True by done. split; [|by left]. unfold settled_as. by rewrite Hp.
Qed.

Lemma ok_drawn id c : job_ok c → dict_get id (jc_entries c) = None → outs id c = [] → job_ok (add_id id c).
Proof.
  intros Hok Hg Ho. apply (ok_at id c); [done | done | | by cbn; rewrite Hg].
  intros id'. cbn. rewrite elem_of_app, list_elem_of_singleton. tauto.
Qed.

Lemma jw_create amount requester c :
  String.prefix "escrow-" requester = false → job_ok c → no_pending c → jw j (create_escrow_locked config j amount requester) ok c.
Proof.
  intros Hreq Hok Hno. unfold create_escrow_locked. apply jw_bind, jw_get_balance. intros [balance|x]; [|done].
  destruct (flt balance amount); [by apply jw_ret|]. apply jw_bind, jw_uuid. intros id Hg Ho Hn.
  apply jw_bind, jw_now. intros n. pose proof (ok_drawn id c Hok Hg Ho) as Hok'.
  apply jw_bind, jw_try, jw_bind, jw_fund; [done|]. intros [tx|x]; [|by apply (jw_value_error (Err x) None)].
  apply jw_bind, jw_register; [done | cbn; set_solver | exact Hg |]. apply jw_bind, jw_broadcast_logged, jw_ret, (jw_value_error (Ok (Some _)) None).
  by apply (ok_created {| ee_escrow_id := id |}).
Qed.

Lemma jw_create_scan amount requester c :
  String.prefix "escrow-" requester = false → job_ok c →
  jw j (es ← read_escrows;
        match find (λ e, bool_decide (ee_job_id e = j ∧ ee_status e = PENDING)) (dict_values es) with
        | Some e => mret (Some e)
        | None => create_escrow_locked config j amount requester
        end) ok c.
Proof.
  intros Hreq Hok. apply jw_bind, jw_read. intros es [Ht1 Ht2].
  destruct (find _ (dict_values es)) as [e|] eqn:Ef; [by apply jw_ret|]. apply jw_create; [done | done |].
  intros id e Hg Hp. destruct (Ht1 _ _ Hg) as (_ & _ & Hin & Hj). apply list_elem_of_In in Hin.
  pose proof (find_none _ _ Ef _ Hin) as Hn. cbn in Hn. apply bool_decide_eq_false in Hn. tauto.
Qed.
End Calls.

(** ** The pool *)

Section Pool.
Variable config : EscrowConfig.

Definition run_escrow {A} (m : M escrow_io unit A) : prog escrow_io unit := prog_bind (m tt) (λ _, Ret tt).

(** Whoever pays for an escrow is not an escrow. *)
Definition payer_of (requester_id : option string) : string :=
  match requester_id with Some r => if str_nonempty r then r else ec_node_id config | None => ec_node_id config end.

Inductive escrow_call : prog escrow_io unit → Prop :=
| call_create job amount requester_id :
    String.prefix "escrow-" (payer_of requester_id) = false → escrow_call (run_escrow (create_escrow config job amount requester_id))
| call_release job provider consensus partial : escrow_call (run_escrow (release_escrow config job provider consensus partial))
| call_refund job reason : escrow_call (run_escrow (refund_escrow job reason))
| call_cleanup : escrow_call (run_escrow (cleanup_expired_escrows config))
| call_list requester pending_only : escrow_call (run_escrow (list_escrows_by_requester requester pending_only))
| call_get job : escrow_call (run_escrow (get_escrow job))
| call_get_by_id id : escrow_call (run_escrow (get_by_escrow_id id))
| call_stats : escrow_call (run_escrow get_stats).

Definition free {A} (m : M escrow_io unit A) : Prop := ∀ w, erg ∅ (m tt) (λ _ L _, L = ∅) w.

Lemma free_lift {A} (r : result A) : free (lift r).
Proof. by intros w. Qed.
Lemma free_ret {A} (a : A) : free (mret a).
Proof. apply (free_lift (Ok a)). Qed.
Lemma free_bind {A B} (m : M escrow_io unit A) (f : A → M escrow_io unit B) : free m → (∀ a, free (f a)) → free (m ≫= f).
Proof.
  intros Hm Hf w. unfold mbind, M_bind. apply rg_bind. eapply rg_mono; [|apply Hm]. intros [[a|e] []] L w' ->; [apply Hf | done].
Qed.

Lemma free_same (e : escrow_request) :
  is_job_lock e = false → (∀ w r w', escrow_effect e w r w' → w' = w) → free (perform (E := escrow_io) e).
Proof.
  intros Hl He w w1 _ Hi _ r w2 Hx. apply He in Hx as ->. assert (escrow_after e = id) as -> by by destruct e. unfold id.
  split_and!; [done | by intros M _ k _ | set_solver | set_solver | done].
Qed.

Lemma free_read_escrows : free read_escrows.
Proof. apply (free_same ReadEscrows); [done | by intros w r w' [_ ->]]. Qed.

(** A body that keeps its job in order, under the job's lock *)
Lemma free_with_job {A} j (m : M escrow_io unit A) : (∀ c, job_ok c → jw j m (λ _ c, job_ok c) c) → free (with_job j m).
Proof.
  intros Hm w. unfold with_job. apply rg_bind. intros w1 _ [Hok Hjobs] _ [] w2 [Hnh ->]. cbn [escrow_after]. assert ({[j]} ∪ ∅ = ({[j]} : gset string)) as -> by set_solver.
  set (w2 := {| ew_held := _ |}).
  assert (escrow_inv w2) as Hi2 by (split; [by destruct Hok | intros k Hk; apply Hjobs; set_solver]).
  split_and!; [done | by intros M _ k _ | cbn; set_solver | set_solver|]. cbn [rg fst snd].
  apply rg_bind. unfold try. apply rg_bind. eapply rg_mono; [|apply (Hm (jcore j w2)); [by apply Hjobs | done]].
  intros [r []] L w3 [-> Hj3]. cbn [fst snd rg]. apply rg_bind. intros w4 Hr [Hok4 Hjobs4] HL4 [] w5 Hx. cbn in Hx. unfold escrow_exec in Hx.
  simpl in Hx. subst w5. cbn [escrow_after]. assert ({[j]} ∖ {[j]} = (∅ : gset string)) as -> by set_solver.
  split_and!; [split; [by destruct Hok4|] | by intros M _ k _ | cbn; set_solver | set_solver | done].
  intros k Hk. cbn in Hk. destruct (decide (k = j)) as [->|Hne]; [|apply Hjobs4; set_solver].
  change (job_ok (jcore j w4)). by rewrite (Hr j ltac:(set_solver)).
Qed.

Lemma free_cleanup ids n cleaned : free (cleanup_loop config ids n cleaned).
Proof.
  revert cleaned. induction ids as [|id ids IH]; intros cleaned; cbn [cleanup_loop]; [apply free_ret|].
  apply free_bind; [apply free_read_escrows|]. intros es. destruct (dict_get id es) as [e|]; [|apply IH].
  destruct (_ && _); [|apply IH]. apply free_bind; [|intros _; apply IH]. apply free_with_job. apply jw_refund.
Qed.

Lemma free_read {A} (f : dict string EscrowEntry → A) : free (es ← read_escrows; mret (f es)).
Proof. apply free_bind; [apply free_read_escrows|]. intros es. apply free_ret. Qed.

Lemma escrow_call_safe p w : escrow_call p → erg ∅ p (λ _ L _, L = ∅) w.
Proof.
  assert (∀ A (m : M escrow_io unit A), free m → erg ∅ (run_escrow m) (λ _ L _, L = ∅) w) as Hrun.
  { intros A m Hm. apply rg_bind. eapply rg_mono; [|apply Hm]. by intros [r []] L w' ->. }
  intros [job amount req Hreq|job prov cons part|job reason| | | | |]; apply Hrun; try apply free_read.
  - apply free_with_job. intros c. by apply jw_create_scan.
  - apply free_with_job. intros c. by apply jw_release.
  - apply free_with_job. intros c. by apply jw_refund.
  - apply free_bind; [by apply (free_same Now)|]. intros n. apply free_bind; [apply free_read_escrows|].
    intros es. apply free_cleanup.
Qed.
End Pool.

Definition no_escrows : EscrowWorld := {| ew_escrows := []; ew_ids := []; ew_trace := []; ew_held := ∅ |}.

(** C14 Over every interleaving of create, release, refund and cleanup, whatever the ledger
    and the rails answer: whenever nobody holds a job's lock, a pending escrow of the job
    has paid nothing; a released one has paid its winner once, and at most a remainder to
    the requester after it; a refunded one has paid at most the requester, once; and the
    job has at most one pending escrow. *)
Theorem escrow_settles_once config n j :
  rtc (pool_step escrow_exec (escrow_call config)) ([], no_escrows) n → j ∉ ew_held n.2 →
  (∀ id e, dict_get id (ew_escrows n.2) = Some e → ee_job_id e = j →
     settled_as e (filter (λ tx, tr_from tx = escrow_wallet id) (ew_trace n.2))) ∧
  (∀ id1 e1 id2 e2, dict_get id1 (ew_escrows n.2) = Some e1 → dict_get id2 (ew_escrows n.2) = Some e2 →
     ee_job_id e1 = j → ee_job_id e2 = j → ee_status e1 = PENDING → ee_status e2 = PENDING → id1 = id2).
Proof.
  intros Hs Hj. eapply (pool_reachable escrow_exec ew_held escrow_after escrow_rely escrow_inv) in Hs as [_ [Hok Hjobs]].
  - specialize (Hjobs j Hj). assert (∀ id e, dict_get id (ew_escrows n.2) = Some e → ee_job_id e = j →
      dict_get id (jc_entries (jcore j n.2)) = Some e ∧ (id, j) ∈ ew_ids n.2) as Hin.
    { intros id e Hg Hje. apply dict_get_elem in Hg. destruct (wo_entries _ Hok _ _ Hg) as [-> Hi]. rewrite Hje in Hi. split; [|done].
      apply (jcore_table j n.2 Hok); [|done]. apply list_elem_of_fmap. by exists (ee_escrow_id e, e). }
    split.
    + intros id e Hg Hje. destruct (Hin _ _ Hg Hje) as [Hg' Hi]. pose proof (jo_entries _ Hjobs _ _ Hg') as Hse.
      assert (outs id (jcore j n.2) = filter (λ tx, tr_from tx = escrow_wallet id) (ew_trace n.2)) as <-; [|done].
      unfold outs, jcore. cbn [jc_out]. rewrite list_filter_filter. apply filter_ext_in. intros tx _.
      split; [by intros [? _]|]. intros Hf. split; [done|]. by rewrite Hf, elem_wallets, elem_ids.
    + intros id1 e1 id2 e2 G1 G2 J1 J2. destruct (Hin _ _ G1 J1) as [G1' _], (Hin _ _ G2 J2) as [G2' _]. by eapply jo_one.
  - by intros L w k _.
  - intros L w1 w2 w3 H1 H2 k Hk. by rewrite (H2 k Hk), (H1 k Hk).
  - intros p w. apply escrow_call_safe.
  - split; [split; [constructor | constructor | by intros ? ? ?%elem_of_nil]|]. intros k _. split; [done | done | done].
  - done.
Qed.

(** * The split release, branch by branch

    What release_escrow_split of prsm/node/payment_escrow.py does under the lock of its
    job, whatever the ledger answers. *)

#[local] Open Scope string_scope.
#[local] Open Scope list_scope.
#[local] Open Scope Z_scope.

(** To whom how much was paid *)
Definition legs_of (txs : list Tx) : list (string * pyfloat) := (λ tx, (tr_to tx, tr_amount tx)) <$> txs.

Definition paid_out (txs : list Tx) (c : JobCore) : JobCore := {| jc_entries := jc_entries c; jc_ids := jc_ids c; jc_out := jc_out c ++ txs |}.

Lemma add_paid tx txs c : add_out tx (paid_out txs c) = paid_out (txs ++ [tx]) c.
Proof. unfold add_out, paid_out. cbn. by rewrite app_assoc. Qed.

Lemma outs_paid id txs c : Forall (λ tx, tr_from tx = escrow_wallet id) txs → outs id (paid_out txs c) = outs id c ++ txs.
Proof.
  intros Hf. unfold outs. cbn [paid_out jc_out]. rewrite filter_app. f_equal. induction Hf as [|tx txs Htx _ IH]; [done|].
  rewrite filter_cons, decide_True by done. by rewrite IH.
Qed.

Section Split.
Variable config : EscrowConfig.
Variable j : string.
Implicit Type c : JobCore.

(** The legs in order, up to the first that fails *)
Lemma jw_legs id note splits txs (Q : result (list Tx * option (string * pyfloat * exn)) → JobCore → Prop) c :
  id ∈ jc_ids c → Forall (λ tx, tr_from tx = escrow_wallet id) txs →
  (∀ new, legs_of new = splits → Forall (λ tx, tr_from tx = escrow_wallet id) (txs ++ new) →
     Q (Ok (txs ++ new, None)) (paid_out (txs ++ new) c)) →
  (∀ new r a rest exc, splits = legs_of new ++ (r, a) :: rest → Forall (λ tx, tr_from tx = escrow_wallet id) (txs ++ new) →
     Q (if is_value_error exc then Ok (txs ++ new, Some (r, a, exc)) else Err exc) (paid_out (txs ++ new) c)) →
  jw j (pay_legs (escrow_wallet id) note splits txs) Q (paid_out txs c).
Proof.
  intros Hid. revert txs. induction splits as [|[r a] splits IH]; intros txs Hf HQ HE; cbn [pay_legs].
  - apply jw_ret. specialize (HQ []). rewrite app_nil_r in HQ. by apply HQ.
  - apply jw_bind, jw_try, jw_pay; [exact Hid | |].
    + intros tx Hfr Hto Ha. rewrite add_paid. apply IH.
      * apply Forall_app. split; [done|]. by apply Forall_singleton.
      * intros new Hnew Hf'. rewrite <-app_assoc in *. apply HQ; [|done]. unfold legs_of in *. cbn. by rewrite Hnew, Hto, Ha.
      * intros new r' a' rest exc Hs Hf'. rewrite <-app_assoc in *. apply (HE _ r' a' rest); [|done]. unfold legs_of in *. cbn. by rewrite Hs, Hto, Ha.
    + intros exc. specialize (HE [] r a splits exc eq_refl). rewrite app_nil_r in HE. specialize (HE Hf).
      destruct (is_value_error exc); [by apply jw_ret | by apply jw_raise].
Qed.

Lemma paid_nil c : paid_out [] c = c.
Proof. unfold paid_out. rewrite app_nil_r. by destruct c. Qed.

Lemma jw_all_legs id note splits (Q : result (list Tx * option (string * pyfloat * exn)) → JobCore → Prop) c :
  id ∈ jc_ids c →
  (∀ txs, legs_of txs = splits → Forall (λ tx, tr_from tx = escrow_wallet id) txs → Q (Ok (txs, None)) (paid_out txs c)) →
  (∀ txs r a rest exc, splits = legs_of txs ++ (r, a) :: rest → Forall (λ tx, tr_from tx = escrow_wallet id) txs →
     Q (if is_value_error exc then Ok (txs, Some (r, a, exc)) else Err exc) (paid_out txs c)) →
  jw j (pay_legs (escrow_wallet id) note splits []) Q c.
Proof.
  intros Hid HQ HE. pose proof (jw_legs id note splits [] Q c Hid (Forall_nil_2 _) HQ HE) as Hl. by rewrite paid_nil in Hl.
Qed.

(** The reverse transfers of legs to wallets that are no escrow's: each is either
    compensated or leaked. *)
Lemma jw_compensate wallet note legs comp leaked (Q : result (list (string * pyfloat) * list (string * pyfloat)) → JobCore → Prop) c :
  Forall (λ l : string * pyfloat, String.prefix "escrow-" l.1 = false) legs →
  (∀ comp' leaked', comp' ++ leaked' ≡ₚ legs → Q (Ok (comp ++ comp', leaked ++ leaked')) c) →
  jw j (compensate wallet note legs comp leaked) Q c.
Proof.
  intros Hl. revert comp leaked. induction Hl as [|[r a] legs Hr _ IH]; intros comp leaked HQ; cbn [compensate].
  - apply jw_ret. specialize (HQ [] []). rewrite !app_nil_r in HQ. by apply HQ.
  - apply jw_bind, jw_try, jw_fund; [exact Hr|]. intros [tx|e]; apply IH; intros comp' leaked' Hp.
    + rewrite <-app_assoc. apply HQ. cbn. by rewrite Hp.
    + rewrite <-(app_assoc leaked). apply HQ. cbn. by rewrite <-Permutation_middle, Hp.
Qed.

Lemma jw_gossip_each txs b (Q : result unit → JobCore → Prop) c : Q (Ok tt) c → jw j (gossip_each config txs b) Q c.
Proof. intros HQ. induction txs as [|tx txs IH]; cbn [gossip_each]; [by apply jw_ret|]. apply jw_bind, jw_gossiped. by intros r. Qed.
Lemma jw_broadcast_each txs (Q : result unit → JobCore → Prop) c : Q (Ok tt) c → jw j (broadcast_each config txs) Q c.
Proof. intros HQ. induction txs as [|tx txs IH]; cbn [broadcast_each]; [by apply jw_ret|]. by apply jw_bind, jw_broadcast_logged. Qed.

(** The outcomes of a split release of the pending escrow [e].  [legs]: the splits as they
    are paid. *)
Inductive split_outcome (e : EscrowEntry) (legs : list (string * pyfloat)) (c : JobCore) : result (option (list Tx)) → JobCore → Prop :=
(* every leg once, then at most a remainder to the requester: the escrow is released, also when the remainder raises *)
| split_paid r c' txs rest e' :
    legs_of txs = legs → outs (ee_escrow_id e) c' = txs ++ rest →
    rest = [] ∨ (∃ t, rest = [t] ∧ tr_to t = ee_requester_id e) →
    dict_get (ee_escrow_id e) (jc_entries c') = Some e' → ee_status e' = RELEASED →
    md_splits (ee_metadata e') = md_splits (ee_metadata e) ++ ((λ tx, (tr_to tx, tr_amount tx, tr_id tx)) <$> txs) →
    r = Ok (Some txs) ∨ (∃ exc, r = Err exc ∧ is_value_error exc = false) → split_outcome e legs c r c'
(* a leg raised ValueError: the legs before it were sent back, or are recorded as leaked; the escrow is pending *)
| split_rolled c' txs b leaked r a rest e' :
    legs = legs_of txs ++ (r, a) :: rest → outs (ee_escrow_id e) c' = txs →
    dict_get (ee_escrow_id e) (jc_entries c') = Some e' → ee_status e' = PENDING →
    ee_metadata e' = add_rollback b leaked (ee_metadata e) → rb_failed_recipient b = r → rb_compensated b ++ leaked ≡ₚ legs_of txs →
    split_outcome e legs c (Ok None) c'
(* a leg raised anything else: the legs before it stay paid, the escrow stays pending, nothing records it *)
| split_torn c' txs r a rest exc :
    legs = legs_of txs ++ (r, a) :: rest → outs (ee_escrow_id e) c' = txs → jc_entries c' = jc_entries c → is_value_error exc = false →
    split_outcome e legs c (Err exc) c'.

(** The two rails, after the payments *)
Lemma jw_split_rails txs refund broadcast (Q : result (option (list Tx)) → JobCore → Prop) c :
  Q (Ok (Some txs)) c →
  jw j (_ ← (if broadcast then broadcast_each config (txs ++ refund) else mret tt); _ ← gossip_each config txs broadcast; mret (Some txs)) Q c.
Proof.
  intros HQ. apply jw_bind. destruct broadcast; [apply jw_broadcast_each | apply jw_ret]; by apply jw_bind, jw_gossip_each, jw_ret.
Qed.

Lemma zip_legs txs : zip_with (λ (s : string * pyfloat) tx, (s.1, s.2, tr_id tx)) (legs_of txs) txs = (λ tx, (tr_to tx, tr_amount tx, tr_id tx)) <$> txs.
Proof. induction txs as [|tx txs IH]; [done|]. unfold legs_of in *. cbn. by rewrite IH. Qed.

(** After the last leg *)
Lemma jw_split_released e legs remainder broadcast txs c :
  dict_get (ee_escrow_id e) (jc_entries c) = Some e → ee_escrow_id e ∈ jc_ids c → outs (ee_escrow_id e) c = [] →
  legs_of txs = legs → Forall (λ tx, tr_from tx = escrow_wallet (ee_escrow_id e)) txs →
  jw j (split_released config e legs remainder broadcast txs) (split_outcome e legs c) (paid_out txs c).
Proof.
  intros Hg Hid Ho Hlegs Hf. unfold split_released. apply jw_bind, jw_now. intros n.
  apply jw_bind, (jw_mutate j _ _ e); [exact Hg | done | done |]. set (e2 := with_metadata _ _). set (c2 := add_entry e2 _).
  assert (dict_get (ee_escrow_id e) (jc_entries c2) = Some e2) as Hg2 by (unfold c2; cbn; by rewrite dict_get_set_eq).
  assert (outs (ee_escrow_id e) c2 = txs) as Ho2 by (change (outs (ee_escrow_id e) (paid_out txs c) = txs); by rewrite outs_paid, Ho).
  assert (md_splits (ee_metadata e2) = md_splits (ee_metadata e) ++ ((λ tx, (tr_to tx, tr_amount tx, tr_id tx)) <$> txs)) as Hmd
    by (unfold e2; cbn; by rewrite <-Hlegs, zip_legs).
  assert (∀ rest c', c' = paid_out rest c2 → rest = [] ∨ (∃ t, rest = [t] ∧ tr_to t = ee_requester_id e) →
    Forall (λ tx, tr_from tx = escrow_wallet (ee_escrow_id e)) rest → ∀ r, r = Ok (Some txs) ∨ (∃ exc, r = Err exc ∧ is_value_error exc = false) →
    split_outcome e legs c r c') as Hout.
  { intros rest c' -> Hrest Hfr r Hr. eapply (split_paid e legs c r _ txs rest e2); try done. by rewrite outs_paid, Ho2. }
  pose proof (eq_sym (paid_nil c2)) as Hc2.
  apply jw_bind. destruct (flt fzero remainder); [|apply jw_ret, jw_split_rails, (Hout []); [done | by left | done | by left]].
  apply jw_bind, jw_try, jw_pay; [exact Hid | |].
  - intros t Hft Ht _. apply jw_ret, jw_split_rails, (Hout [t]); [done | right; by exists t | by apply Forall_singleton | by left].
  - intros exc. destruct (is_value_error exc) eqn:Ev.
    + apply jw_ret, jw_split_rails, (Hout []); [done | by left | done | by left].
    + apply jw_raise, (Hout []); [done | by left | done | right; by exists exc].
Qed.

(** After a leg that raised ValueError *)
Lemma jw_split_rolled e legs txs r a rest exc c :
  dict_get (ee_escrow_id e) (jc_entries c) = Some e → outs (ee_escrow_id e) c = [] → ee_status e = PENDING →
  Forall (λ l : string * pyfloat, String.prefix "escrow-" l.1 = false) legs →
  legs = legs_of txs ++ (r, a) :: rest → Forall (λ tx, tr_from tx = escrow_wallet (ee_escrow_id e)) txs →
  jw j (split_rolled_back e (take (length txs) legs) (r, a, exc)) (split_outcome e legs c) (paid_out txs c).
Proof.
  intros Hg Ho Hp Hl Hlegs Hf. unfold split_rolled_back.
  assert (take (length txs) legs = legs_of txs) as -> by (rewrite Hlegs, take_app_length'; [done | by unfold legs_of; rewrite length_fmap]).
  apply jw_bind, jw_compensate; [by rewrite Hlegs, Forall_app in Hl; destruct Hl|]. intros comp leaked Hperm. apply jw_bind, jw_now. intros ts.
  apply jw_bind, (jw_mutate j _ _ e); [exact Hg | done | done |]. apply jw_ret. set (e2 := with_metadata _ _).
  eapply (split_rolled e legs c _ txs _ leaked r a rest e2); try done.
  - change (outs (ee_escrow_id e) (paid_out txs c) = txs). by rewrite outs_paid, Ho.
  - cbn. by rewrite dict_get_set_eq.
Qed.

Lemma cut_recipients splits largest overshoot : (cut_largest splits largest overshoot).*1 = splits.*1.
Proof. induction splits as [|[r a] splits IH]; [done|]. cbn. destruct (fle largest a); [done|]. cbn. by rewrite IH. Qed.
End Split.

