(* ===== verification/DagSafety.v ===== *)
(** * The DAG ledger however its coroutines interleave

    From a booted ledger, over every interleaving of calls of its methods
    (prsm/node/dag_ledger.py): whenever nobody holds the write lock the database is
    committed, the balance cache is the replay of the transactions, and every payment was
    covered when it was made. *)
From Stdlib Require Import ZArith Lia.
From S2P Require Import PyStd.
From S2P Require Import Externals.
From S2P Require Import Effects.
From S2P Require Import PyNumbers.
From S2P Require Import DagLedger.
From S2P Require Import DagSteps.
From S2P Require Import Prelude.
From stdpp Require Import relations.

#[local] Open Scope string_scope.
#[local] Open Scope list_scope.
#[local] Open Scope Z_scope.

(** ** Replaying transactions *)

Definition replay (b : string → pyfloat) (l : list Move) : string → pyfloat := fold_left apply_move l b.

Lemma replay_ext b b' l w : (∀ w, b w = b' w) → replay b l w = replay b' l w.
Proof.
  revert b b'. induction l as [|m l IH]; intros b b' Hb; [apply Hb|]. apply IH. intros w'. by apply apply_move_ext.
Qed.

Lemma replay_snoc b l m : replay b (l ++ [m]) = apply_move (replay b l) m.
Proof. unfold replay. by rewrite fold_left_app. Qed.

(** Every payment was covered by the balance of its time. *)
Definition covered (b : string → pyfloat) (l : list Move) : Prop :=
  ∀ l1 m l2 f, l = l1 ++ m :: l2 → mv_from m = Some f → fle (mv_amount m) (replay b l1 f) = true.

Lemma covered_snoc b l m :
  covered b l → (∀ f, mv_from m = Some f → fle (mv_amount m) (replay b l f) = true) → covered b (l ++ [m]).
Proof.
  intros Hl Hm l1 m1 l2 f Heq Hf. destruct l2 as [|x l2] using rev_ind.
  - apply app_inj_tail in Heq as [-> ->]. by apply Hm.
  - clear IHl2. change (m1 :: l2 ++ [x]) with ((m1 :: l2) ++ [x]) in Heq. rewrite app_assoc in Heq. apply app_inj_tail in Heq as [Heq _].
    by eapply Hl.
Qed.

Definition good_amount (a : pyfloat) : bool := is_finite a && negb (flt a fzero).

Lemma good_amount_nonneg a : good_amount a = true → is_finite a = true ∧ fnonneg a = true.
Proof.
  unfold good_amount, flt, fnonneg, fle. destruct a as [n m e| |]; try done. change (default 0 (fval fzero)) with 0.
  intros [_ Hn]%andb_prop. split; [done|]. apply negb_true_iff, Z.ltb_ge in Hn. by apply Z.leb_le.
Qed.

(** Then no balance was ever negative. *)
Lemma replay_nonneg b l :
  (∀ w, fnonneg (b w) = true) → covered b l → Forall (λ m, good_amount (mv_amount m) = true) l →
  ∀ w, fnonneg (replay b l w) = true.
Proof.
  intros Hb. induction l as [|m l IH] using rev_ind; [done|]. intros Hc Hgm w. apply Forall_app in Hgm as [Hg Hm]. assert (good_amount (mv_amount m) = true) as Hma by (by inversion Hm).
  assert (∀ w, fnonneg (replay b l w) = true) as IHl.
  { apply IH; [|done]. intros l1 m1 l2 f -> Hf. eapply (Hc l1 m1 (l2 ++ [m])); [|done]. by rewrite <-app_assoc. }
  destruct (good_amount_nonneg _ Hma) as [Hfin Hpos]. rewrite replay_snoc. unfold apply_move.
  assert (∀ w, fnonneg ((match mv_from m with Some f => λ w, if decide (w = f) then fsub (replay b l f) (mv_amount m) else replay b l w
                         | None => replay b l end) w) = true) as Hd.
  { intros w'. destruct (mv_from m) as [f|] eqn:Ef; [|done]. case_decide; [|done]. apply fsub_nonneg; [done|].
    by apply (Hc l m [] f). }
  destruct (str_nonempty (mv_to m)); [|done]. case_decide; [by apply fadd_nonneg | done].
Qed.

(** Each transaction approves exactly the one before it: the DAG is a chain. *)
Fixpoint chained (x : string) (l : list (string * DAGTransaction)) (y : string) : Prop :=
  match l with [] => x = y | (id, tx) :: l' => dt_parent_ids tx = [x] ∧ chained id l' y end.

Lemma chained_snoc x l y id tx : chained x l y → dt_parent_ids tx = [y] → chained x (l ++ [(id, tx)]) id.
Proof.
  revert x. induction l as [|[id' tx'] l IH]; simpl; intros x; [by intros ->|]. intros [? ?] ?. split; [done | by apply IH].
Qed.

(** ** The invariant *)

(** [booted l t x]: nothing is pending, every balance row has its version in the cache,
    there is one tip. *)
Definition booted (l : Ledger) (t : LedgerTables) (x : string) : Prop :=
  ∃ vs p, core l = idle t [x] vs p ∧ versions_agree t vs ∧ t_tips t = [x].

Definition moves (l : list (string * DAGTransaction)) : list Move := tx_move <$> l.*2.

Record ledger_inv (t0 : LedgerTables) (x0 : string) (c : Core) : Prop := {
  li_ex : ∃ t x vs p new,
    c = idle t [x] vs p ∧ versions_agree t vs ∧ t_tips t = [x] ∧
    log (t_transactions t) = log (t_transactions t0) ++ new ∧ chained x0 new x ∧
    (∀ w, tbal t w = replay (tbal t0) (moves new) w) ∧ covered (tbal t0) (moves new) ∧
    Forall (λ m, good_amount (mv_amount m) = true) (moves new)
}.

Section Calls.
Context `{Externals}.
Variable sql_sum : list pyfloat → pyfloat.
Variable tip_weight : Z → pyfloat.
Variable t0 : LedgerTables.
Variable x0 : string.

Abbreviation J := (ledger_inv t0 x0).
Abbreviation lrgm' := (lrgm sql_sum J).

Section Methods.
Context {S : Type}.
Implicit Type st : S.

Lemma submit_keeps_inv L c a idem st :
  J c → good_amount (ta_amount a) = true → (∀ id, idem = Some id → has_tx c id = false ∧ Key id ∈ L) →
  wpm (core_exec sql_sum) (keys_kept L c) (submit_locked tip_weight false a idem) (λ _ _ c', J c') st c.
Proof.
  intros [(t & x & vs & p & new & -> & Hv & Ht & Hl & Hch & Hb & Hc & Hg)] Ham Hid.
  apply spec_submit_locked; [by intros id _ _ | done | done | done | |].
  - intros tx t' vs' Hca Hl' Ht' Hv' Hb' Hcov. split. exists t', (dt_tx_id tx), vs', None, (new ++ [(dt_tx_id tx, skel tx)]).
    assert (moves (new ++ [(dt_tx_id tx, skel tx)]) = moves new ++ [args_move a]) as Hm.
    { unfold moves. rewrite !fmap_app. cbn. f_equal. f_equal. apply (ca_move _ _ _ _ Hca). }
    rewrite Hm. split_and!; try done.
    + by rewrite Hl', Hl, app_assoc.
    + apply chained_snoc with (y := x); [done|]. apply (ca_parents _ _ _ _ Hca).
    + intros w. rewrite Hb', replay_snoc. by apply apply_move_ext.
    + apply covered_snoc; [done|]. intros f Hf. rewrite <-Hb. by apply Hcov.
    + apply Forall_app. split; [done|]. by apply Forall_singleton.
  - intros t' vs' f _ _ Htx Hti Hv' Hb'. split. exists t', x, vs', p, new. split_and!; try done.
    + by rewrite Htx.
    + intros w. by rewrite Hb'.
Qed.

(** *** Methods that leave the books alone *)

Definition same_books (t t' : LedgerTables) : Prop :=
  t_transactions t' = t_transactions t ∧ t_balances t' = t_balances t ∧ t_tips t' = t_tips t.

Lemma same_books_inv t t' x vs p : J (idle t [x] vs p) → same_books t t' → J (idle t' [x] vs p).
Proof.
  intros [(t1 & x1 & vs1 & p1 & new & Heq & Hv & Ht & Hl & Hch & Hb & Hc & Hg)] (Htx & Hba & Hti).
  assert (t1 = t ∧ x1 = x ∧ vs1 = vs ∧ p1 = p) as (-> & -> & -> & ->) by (unfold idle, core_at in Heq; by inversion Heq).
  split. exists t', x, vs, p, new. split_and!; try done.
  - intros w. by rewrite Hba.
  - by rewrite Hti.
  - by rewrite Htx.
  - intros w. rewrite <-Hb. unfold tbal, balance_row. by rewrite Hba.
Qed.

(** What a coroutine with the write lock does that leaves the books alone *)
Definition keeps_books {A} (m : M ledger_io S A) : Prop :=
  ∀ L c0 st t x vs p, kept L c0 (t_transactions t) →
    wpm (core_exec sql_sum) (keys_kept L c0) m (λ _ _ c', ∃ t', same_books t t' ∧ c' = idle t' [x] vs p) st (idle t [x] vs p).

Lemma lrgm_keeps_books {A} (m : M ledger_io S A) L st w :
  Write ∉ L → lock_freem m → keeps_books m → lrgm' L (with_lock Write m) (λ _ _ L' _, L' = L) st w.
Proof.
  intros HW Hf Hm. apply lrgm_with_lock; [done | done |]. intros w1 c _ HJ _.
  pose proof HJ as [(t & x & vs & p & new & -> & _)]. eapply wpm_mono; [apply Hm; by intros id _ _|].
  intros r s c' _ (t' & Hs & ->). by eapply same_books_inv.
Qed.
End Methods.
End Calls.

(** * The DAG ledger's methods, interleaved

    Every method of the node's ledger (prsm/node/dag_ledger.py) that may run next to
    others, as a coroutine of the pool of [Effects]; each keeps the ledger's invariant
    ([DagSafety.ledger_inv]) whenever it gives the write lock back. *)

#[local] Open Scope string_scope.
#[local] Open Scope list_scope.
#[local] Open Scope Z_scope.

(** ** The coroutines

    [_gossip] stores, the allowances and the other services of LedgerNodeServicesMixin
    commit without the lock and are not among them. *)
Section Pool.
Context `{Externals}.
Variable tip_weight : Z → pyfloat.

(** A call whose result nobody waits for *)
Definition run_call {A} (m : M ledger_io unit A) : prog ledger_io unit := prog_bind (m tt) (λ _, Ret tt).

(** No two credits with one idempotency key at a time *)
Definition keyed {A} (key : option string) (m : M ledger_io unit A) : M ledger_io unit A :=
  match idempotent_id key with Some id => with_lock (Key id) m | None => m end.

Inductive dag_call : prog ledger_io unit → Prop :=
| call_create_wallet w name pk : dag_call (run_call (create_wallet w name pk))
| call_register_public_key w key : dag_call (run_call (register_wallet_public_key w key))
| call_link_eth w a : dag_call (run_call (link_eth_address w a))
| call_wallet_for_eth a : dag_call (run_call (wallet_for_eth_address a))
| call_eth_for_wallet w : dag_call (run_call (eth_address_for_wallet w))
| call_get_requires w : dag_call (run_call (get_requires_user_signature w))
| call_set_requires w b : dag_call (run_call (set_requires_user_signature w b))
| call_get_nonce w : dag_call (run_call (get_next_withdraw_nonce w))
| call_bump_nonce w : dag_call (run_call (bump_withdraw_nonce w))
| call_cas_nonce w n : dag_call (run_call (compare_and_bump_withdraw_nonce w n))
| call_get_balance w : dag_call (run_call (get_balance w))
| call_get_transaction id : dag_call (run_call (get_transaction id))
| call_has_transaction id : dag_call (run_call (has_transaction id))
| call_has_seen_nonce n : dag_call (run_call (has_seen_nonce n))
| call_record_nonce n o : dag_call (run_call (record_nonce n o))
| call_release_nonce n : dag_call (run_call (release_nonce n))
| call_transfer from to amount d s k : dag_call (run_call (transfer tip_weight false from to amount d s k))
| call_credit w amount t d s k key : dag_call (run_call (keyed key (credit tip_weight false w amount t d s k key)))
| call_debit w amount t d s k : dag_call (run_call (debit tip_weight false w amount t d s k))
| call_grant w amount :
    dag_call (run_call (keyed (Some ("welcome-grant:" +:+ w)) (issue_welcome_grant tip_weight false w amount)))
| call_approve w id : dag_call (run_call (approve_transaction tip_weight false w id)).
End Pool.

(** ** Methods without lock operations *)

Section LockFree.
Context `{Externals} {S : Type}.
Variable tip_weight : Z → pyfloat.
Variable verify_signatures : bool.

Lemma lock_freem_wallet_exists w : lock_freem (wallet_exists (S := S) w).
Proof. unfold wallet_exists. lock_free. Qed.
Lemma lock_freem_create_wallet_impl w n k : lock_freem (create_wallet_impl (S := S) w n k).
Proof. unfold create_wallet_impl, commit, update_state. lock_free. Qed.
#[local] Hint Resolve lock_freem_wallet_exists lock_freem_create_wallet_impl : lock_free.
Lemma lock_freem_rollback : lock_freem (rollback_balance_check (S := S)).
Proof. unfold rollback_balance_check, rollback_to_savepoint, release_savepoint. lock_free. Qed.
Lemma lock_freem_check w a : lock_freem (check_balance_atomic (S := S) w a).
Proof.
  unfold check_balance_atomic, get_or_create_balance_cache, set_savepoint, release_savepoint, rollback_to_savepoint, update_state, read_state.
  lock_free.
Qed.
Lemma lock_freem_draw n available total : lock_freem (draw_tips (S := S) n available total).
Proof. revert available total. induction n as [|n IH]; simpl; lock_free; apply IH. Qed.
#[local] Hint Resolve lock_freem_rollback lock_freem_check lock_freem_draw : lock_free.
Lemma lock_freem_select n : lock_freem (select_tips_mcmc (S := S) tip_weight n).
Proof. unfold select_tips_mcmc, read_state. lock_free. Qed.
Lemma lock_freem_discard ps : lock_freem (discard_tips (S := S) ps).
Proof. induction ps as [|p ps IH]; simpl; unfold read_state, update_state; lock_free; apply IH. Qed.
Lemma lock_freem_weights n q u : lock_freem (update_weights_loop (S := S) n q u).
Proof. revert q u. induction n as [|n IH]; intros q u; simpl; unfold read_state, update_state; lock_free; apply IH. Qed.
#[local] Hint Resolve lock_freem_select lock_freem_discard lock_freem_weights : lock_free.
Lemma lock_freem_append tx : lock_freem (append_transaction (S := S) tx).
Proof. unfold append_transaction, store_transaction, update_weights, update_state, read_state. lock_free. Qed.
Lemma lock_freem_move a v : lock_freem (move_balances (S := S) a v).
Proof.
  unfold move_balances, commit_balance_deduction, commit_balance_credit, rollback_to_savepoint, release_savepoint, commit, update_state. lock_free.
Qed.
Lemma lock_freem_signature t f s k : lock_freem (signature_to_verify (S := S) verify_signatures t f s k).
Proof. unfold signature_to_verify, update_state, read_state. lock_free. Qed.
Lemma lock_freem_verify tx : lock_freem (verify_pending (S := S) tx).
Proof. unfold verify_pending, update_state, read_state. lock_free. Qed.
#[local] Hint Resolve lock_freem_append lock_freem_move lock_freem_signature lock_freem_verify : lock_free.
Lemma lock_freem_submit a idem : lock_freem (submit_locked (S := S) tip_weight verify_signatures a idem).
Proof. unfold submit_locked, submit_checked, submit_rest, ensure_wallet, read_state, update_state. lock_free. Qed.
End LockFree.
#[export] Hint Resolve lock_freem_create_wallet_impl lock_freem_submit : lock_free.

(** ** Reads, and updates of what is no part of the core *)

Section Quiet.
Context `{Externals}.
Variable sql_sum : list pyfloat → pyfloat.
Variable J : Core → Prop.
Context {S : Type}.
Implicit Types (s : S) (L : gset token) (w : LedgerWorld).
Abbreviation lrgm' := (lrgm sql_sum J).

Lemma read_keeps st c a db : writes st = false → db_execute sql_sum st c = (a, db) → db = c ∧ ∀ d x, run_statement sql_sum st (c_tables c) = Ok (d, x) → a = Ok x.
Proof.
  intros Hw. unfold db_execute. rewrite Hw, orb_false_r. destruct c as [disk t open saves]. cbn [c_tables c_open c_disk c_saves].
  destruct st; try done; cbn [run_statement]; intros [= <- <-]; (split; [done | by intros ? ? [= <- <-]]).
Qed.

Lemma lrgm_read st L (Q : result (answer st) → S → gset token → LedgerWorld → Prop) s w :
  writes st = false →
  (∀ w1 w2 a, ledger_rely L w w1 → lw_core w2 = lw_core w1 →
     (∀ d x, run_statement sql_sum st (tables (lw_core w1)) = Ok (d, x) → a = Ok x) → Q a s L w2) →
  lrgm' L (execute st) Q s w.
Proof.
  intros Hw HQ. unfold execute. apply lrgm_bind. apply (lrgm_quiet sql_sum J (Execute st)); [done | |].
  - intros c r c' (l & l' & <- & <- & Hx). simpl in Hx. destruct (db_execute sql_sum st (l_db l)) as [a db] eqn:E. destruct Hx as [-> ->].
    apply read_keeps in E as [-> _]; [|done]. by destruct l.
  - intros w1 w2 r Hr (l & l' & Hl & Hl' & Hx) Hc. simpl in Hx. destruct (db_execute sql_sum st (l_db l)) as [a db] eqn:E.
    destruct Hx as [-> ->]. apply read_keeps in E as [-> Ha]; [|done]. apply lrgm_ret. apply (HQ w1); [done | done|].
    rewrite <-Hl. exact Ha.
Qed.

Lemma lrgm_read_state L (Q : result DAGState → S → gset token → LedgerWorld → Prop) s w :
  (∀ m w1 w2, ledger_rely L w w1 → lw_core w2 = lw_core w1 → Q (Ok m) s L w2) → lrgm' L read_state Q s w.
Proof.
  intros HQ. apply (lrgm_quiet sql_sum J ReadState); [done | |].
  - intros c r c' (l & l' & <- & <- & Hx). simpl in Hx. by destruct Hx as [_ ->].
  - intros w1 w2 m Hr _ Hc. by apply (HQ m w1).
Qed.

Lemma lrgm_update_state f L (Q : result unit → S → gset token → LedgerWorld → Prop) s w :
  (∀ l, core {| l_db := l_db l; l_state := f (l_state l) |} = core l) →
  (∀ w1 w2, ledger_rely L w w1 → lw_core w2 = lw_core w1 → Q (Ok tt) s L w2) → lrgm' L (update_state f) Q s w.
Proof.
  intros Hf HQ. apply (lrgm_quiet sql_sum J (UpdateState f)); [done | |].
  - intros c r c' (l & l' & <- & <- & Hx). simpl in Hx. by subst l'.
  - intros w1 w2 [] Hr _ Hc. by apply (HQ w1).
Qed.

(** A lookup that finds nothing has found nothing in the database. *)
Lemma lrgm_get_transaction id L (Q : result (option DAGTransaction) → S → gset token → LedgerWorld → Prop) s w :
  (∀ r w1 w2, ledger_rely L w w1 → lw_core w2 = lw_core w1 → (r = None → has_tx (lw_core w2) id = false) → Q (Ok r) s L w2) →
  lrgm' L (get_transaction id) Q s w.
Proof.
  intros HQ. unfold get_transaction. apply lrgm_bind, lrgm_read_state. intros m w1 w2 Hr Hc.
  assert (ledger_rely L w w2) as Hr2 by (destruct Hr as [Ha Hb]; split; intros; rewrite Hc; auto).
  destruct (dict_get id (d_transactions m)) as [tx|]; [by apply lrgm_ret, (HQ _ w1)|].
  apply lrgm_bind, lrgm_read; [done|]. intros w3 w4 a Hr3 Hc4 Ha. cbn [run_statement] in Ha. rewrite (Ha _ _ eq_refl).
  pose proof (ledger_rely_trans _ _ _ _ Hr2 Hr3) as Hr4.
  destruct (dict_get id (t_transactions (tables (lw_core w3)))) as [tx|] eqn:E.
  - apply lrgm_bind, lrgm_update_state; [done|]. intros w5 w6 Hr5 Hc6. apply lrgm_ret, (HQ _ w5); [|done..].
    eapply ledger_rely_trans; [exact Hr4|]. destruct Hr5 as [H1 H2]. rewrite Hc4 in H1, H2. by split.
  - apply lrgm_ret, (HQ _ w3); [done | done |]. intros _. rewrite Hc4. unfold has_tx. by apply dict_has_false.
Qed.
End Quiet.

(** ** Statements on wallets and nonces *)

Section Books.
Context `{Externals}.
Variable sql_sum : list pyfloat → pyfloat.
Context {S : Type}.
Implicit Type st : S.
Abbreviation keeps := (keeps_books sql_sum (S := S)).

Lemma books_wallets f t : same_books t (set_wallets f t).
Proof. by split_and!. Qed.
Lemma books_nonces f t : same_books t (set_nonces f t).
Proof. by split_and!. Qed.
Lemma books_refl t : same_books t t.
Proof. by split_and!. Qed.

Lemma commit_idle d t open x vs p :
  (open = false → d = t) →
  in_db (core_at d t open [] [x] vs p) (db_commit (co_db (core_at d t open [] [x] vs p))) = idle t [x] vs p.
Proof. intros Hd. unfold in_db, db_commit, idle, core_at. cbn. destruct open; [done | by rewrite Hd]. Qed.

(** [execute(...); commit()], then something that has no effect on the core *)
Lemma kb_commit_then L c0 t0 d t open x vs p {A} (rest : M ledger_io S A) st :
  kept L c0 (t_transactions t) → same_books t0 t → (open = false → d = t) →
  (kept L c0 (t_transactions t) → wpm (core_exec sql_sum) (keys_kept L c0) rest (λ _ _ c', c' = idle t [x] vs p) st (idle t [x] vs p)) →
  wpm (core_exec sql_sum) (keys_kept L c0) (_ ← commit; rest)
    (λ _ _ c', ∃ t', same_books t0 t' ∧ c' = idle t' [x] vs p) st (core_at d t open [] [x] vs p).
Proof.
  intros HK Hs Hd Hr. apply wpm_bind, cwp_commit; [exact HK | exact HK |]. rewrite commit_idle by done.
  eapply wpm_mono; [by apply Hr|]. intros r s c _ ->. eauto.
Qed.

Lemma commit_last L c0 t0 d t open x vs p st :
  kept L c0 (t_transactions t) → same_books t0 t → (open = false → d = t) →
  wpm (core_exec sql_sum) (keys_kept L c0) commit
    (λ _ _ c', ∃ t', same_books t0 t' ∧ c' = idle t' [x] vs p) st (core_at d t open [] [x] vs p).
Proof.
  intros HK Hs Hd. apply cwp_commit; [exact HK | exact HK |]. rewrite commit_idle by done. eauto.
Qed.

(** A statement that answers, whatever the tables, and leaves the books alone *)
Lemma kb_execute {A} (s : statement) (rest : answer s → M ledger_io S A) L c0 t0 d t open x vs p st (Q : result A → S → Core → Prop) :
  kept L c0 (t_transactions t) → same_books t0 t →
  (∃ t' a, run_statement sql_sum s t = Ok (t', a) ∧ same_books t t' ∧
     (kept L c0 (t_transactions t') → same_books t0 t' →
      wpm (core_exec sql_sum) (keys_kept L c0) (rest a) Q st (core_at d t' (open || writes s) [] [x] vs p))) →
  wpm (core_exec sql_sum) (keys_kept L c0) (execute s ≫= rest) Q st (core_at d t open [] [x] vs p).
Proof.
  intros HK (H1 & H2 & H3) (t' & a & Hr & (H1' & H2' & H3') & Hw). assert (kept L c0 (t_transactions t')) as HK' by by rewrite H1'.
  apply wpm_bind, (exec_at sql_sum _ _ s) with (a := a) (t' := t'); [done..|]. apply Hw; [done|].
  split_and!; congruence.
Qed.

Lemma kb_create_wallet w n k : keeps (create_wallet_impl w n k).
Proof.
  intros L c0 st t x vs p HK. unfold create_wallet_impl. apply kb_execute with (t0 := t); [done | apply books_refl|]. cbn [run_statement].
  eexists _, _. split; [done|]. split; [destruct (dict_has w (t_wallets t)); [apply books_refl | apply books_wallets]|].
  intros HK' Hs. apply kb_commit_then; [done | done | done |]. intros HK2.
  destruct k as [k|]; [|by apply wpm_ret]. destruct (str_nonempty k); [|by apply wpm_ret].
  by eapply cwp_update_state with (g := id).
Qed.

Lemma kb_public_key w key : keeps (_ ← execute (UpdatePublicKey w key); commit).
Proof.
  intros L c0 st t x vs p HK. apply kb_execute with (t0 := t); [done | apply books_refl|]. eexists _, _. split; [done|].
  split; [apply books_wallets|]. intros HK' Hs. by apply commit_last.
Qed.

(** Nobody has the address once it was cleared. *)
Lemma eth_cleared a (d : LedgerTables) :
  wallet_with_eth a (set_wallets (fmap (λ kv, (kv.1, if bool_decide (wr_eth_address kv.2 = Some a) then with_eth None kv.2 else kv.2))) d) = None.
Proof.
  unfold wallet_with_eth. cbn [t_wallets set_wallets]. induction (t_wallets d) as [|[k r] l IH]; [done|].
  cbn. case_bool_decide as Ha; cbn; (rewrite decide_False; [exact IH|]); [done | exact Ha].
Qed.

Lemma kb_link_eth w a :
  keeps (_ ← execute (InsertWallet w "" None); _ ← execute (ClearEth a); _ ← execute (UpdateEth w a); commit).
Proof.
  intros L c0 st t x vs p HK. apply kb_execute with (t0 := t); [done | apply books_refl|]. cbn [run_statement].
  eexists _, _. split; [done|]. split; [destruct (dict_has w (t_wallets t)); [apply books_refl | apply books_wallets]|].
  intros HK1 Hs1. apply kb_execute with (t0 := t); [done..|]. eexists _, _. split; [done|]. split; [apply books_wallets|].
  intros HK2 Hs2. apply kb_execute with (t0 := t); [done..|]. cbn [run_statement]. rewrite eth_cleared.
  eexists _, _. split; [done|]. split; [apply books_wallets|]. intros HK3 Hs3. by apply commit_last.
Qed.

Lemma idle_books t x vs p : ∃ t', same_books t t' ∧ idle t [x] vs p = idle t' [x] vs p.
Proof. exists t. split; [apply books_refl | done]. Qed.

(** A method that reads the wallet's row first, and raises KeyError when there is none *)
Lemma kb_row {A} w (body : WalletRow → M ledger_io S A) :
  (∀ row L c0 st t x vs p, kept L c0 (t_transactions t) →
     wpm (core_exec sql_sum) (keys_kept L c0) (body row) (λ _ _ c', ∃ t', same_books t t' ∧ c' = idle t' [x] vs p) st (idle t [x] vs p)) →
  keeps (r ← execute (SelectWallet w); match r with None => raise KeyError | Some row => body row end).
Proof.
  intros Hb L c0 st t x vs p HK. apply kb_execute with (t0 := t); [done | apply books_refl|]. eexists _, _. split; [done|].
  split; [apply books_refl|]. intros _ _. destruct (dict_get w (t_wallets t)) as [r|]; [by apply Hb|].
  apply wpm_raise; [exact HK | apply idle_books].
Qed.

(** A statement on wallets, and the commit *)
Lemma kb_wallets {A} s f (a : A) L c0 st t x vs p :
  kept L c0 (t_transactions t) → (∃ r, run_statement sql_sum s t = Ok (set_wallets f t, r)) →
  wpm (core_exec sql_sum) (keys_kept L c0) (_ ← execute s; _ ← commit; mret a)
    (λ _ _ c', ∃ t', same_books t t' ∧ c' = idle t' [x] vs p) st (idle t [x] vs p).
Proof.
  intros HK [r Hr]. apply kb_execute with (t0 := t); [done | apply books_refl|]. eexists _, _. split; [exact Hr|]. split; [apply books_wallets|].
  intros HK' Hs. apply kb_commit_then; [done | done | |]; [|by intros; apply wpm_ret].
  destruct (writes s) eqn:Ew; [done|]. intros _. by destruct s; try done; injection Hr as <- _.
Qed.

Lemma kb_set_requires w b :
  keeps (r ← execute (SelectWallet w);
         match r with None => raise KeyError | Some _ => _ ← execute (UpdateRequiresSignature w b); commit end).
Proof.
  apply kb_row. intros _ L c0 st t x vs p HK. apply kb_execute with (t0 := t); [done | apply books_refl|].
  eexists _, _. split; [done|]. split; [apply books_wallets|]. intros HK' Hs. by apply commit_last.
Qed.

Lemma kb_bump w :
  keeps (r ← execute (SelectWallet w);
         match r with
         | None => raise KeyError
         | Some row =>
             let old := wr_next_withdraw_nonce row in
             _ ← execute (UpdateNextNonce w (old + 1)); _ ← commit; mret old
         end).
Proof. apply kb_row. intros row L c0 st t x vs p HK. eapply kb_wallets; [done | by eexists]. Qed.

Lemma kb_cas w expected :
  keeps (r ← execute (SelectWallet w);
         match r with
         | None => raise KeyError
         | Some row =>
             let current := wr_next_withdraw_nonce row in
             if negb (current =? expected) then mret None
             else _ ← execute (UpdateNextNonce w (current + 1)); _ ← commit; mret (Some current)
         end).
Proof.
  apply kb_row. intros row L c0 st t x vs p HK. cbv zeta. destruct (negb _).
  - apply wpm_ret; [exact HK | apply idle_books].
  - eapply kb_wallets; [done | by eexists].
Qed.

Lemma kb_nonce (s : statement) (f : answer s → bool) :
  (∀ t, ∃ t' r, run_statement sql_sum s t = Ok (t', r) ∧ same_books t t') → writes s = true →
  keeps (n ← execute s; _ ← commit; mret (f n)).
Proof.
  intros Hs Hw L c0 st t x vs p HK. apply kb_execute with (t0 := t); [done | apply books_refl|]. destruct (Hs t) as (t' & r & Hr & Hb).
  eexists _, _. split; [exact Hr|]. split; [done|]. intros HK' Hs'. rewrite Hw. apply kb_commit_then; [done..|]. by intros; apply wpm_ret.
Qed.

Lemma kb_record n origin : keeps (k ← execute (InsertNonce n origin); _ ← commit; mret (k =? 1)).
Proof.
  apply (kb_nonce (InsertNonce n origin) (λ k : Z, k =? 1)); [|done]. intros t. cbn [run_statement].
  destruct (dict_has n (t_nonces t)); eexists _, _; (split; [done|]); [apply books_refl | apply books_nonces].
Qed.

Lemma kb_release n : keeps (k ← execute (DeleteNonce n); _ ← commit; mret (k =? 1)).
Proof.
  apply (kb_nonce (DeleteNonce n) (λ k : Z, k =? 1)); [|done]. intros t. cbn [run_statement].
  destruct (dict_has n (t_nonces t)); eexists _, _; (split; [done|]); [apply books_nonces | apply books_refl].
Qed.
End Books.

(** ** Methods that keep the invariant *)

Create HintDb safe_calls.

Section Safe.
Context `{Externals}.
Variable sql_sum : list pyfloat → pyfloat.
Variable tip_weight : Z → pyfloat.
Variable t0 : LedgerTables.
Variable x0 : string.
Abbreviation J := (ledger_inv t0 x0).
Abbreviation lrgm' := (lrgm sql_sum J).
Context {S : Type}.
(** The tokens the method is called with *)
Variable P : gset token → Prop.

Definition safe {A} (m : M ledger_io S A) : Prop :=
  ∀ L s w, Write ∉ L → P L → lrgm' L m (λ _ _ L' _, L' = L) s w.

Lemma safe_lift {A} (r : result A) : safe (lift r).
Proof. by intros L s w _ _. Qed.
Lemma safe_ret {A} (a : A) : safe (mret a).
Proof. apply (safe_lift (Ok a)). Qed.
Lemma safe_bind {A B} (m : M ledger_io S A) (f : A → M ledger_io S B) : safe m → (∀ a, safe (f a)) → safe (m ≫= f).
Proof.
  intros Hm Hf L s w HL HP. apply lrgm_bind. eapply lrgm_mono; [by apply Hm|]. intros [a|e] s' L' w' ->; [by apply Hf | done].
Qed.
Lemma safe_read st : writes st = false → safe (execute st).
Proof. intros Hw L s w _ _. by apply lrgm_read. Qed.
Lemma safe_read_state : safe read_state.
Proof. intros L s w _ _. by apply lrgm_read_state. Qed.
Lemma safe_update_state f : (∀ l, core {| l_db := l_db l; l_state := f (l_state l) |} = core l) → safe (update_state f).
Proof. intros Hf L s w _ _. by apply lrgm_update_state. Qed.
Lemma safe_get_transaction id : safe (get_transaction id).
Proof. intros L s w _ _. by apply lrgm_get_transaction. Qed.
Lemma safe_with_lock {A} (m : M ledger_io S A) : lock_freem m → keeps_books sql_sum m → safe (with_lock Write m).
Proof. intros Hf Hm L s w HL _. by apply lrgm_keeps_books. Qed.

(** [submit_transaction]: an idempotent one is called with its key. *)
Lemma safe_submit a idem :
  (∀ L id, P L → idem = Some id → Key id ∈ L) → safe (submit_transaction tip_weight false a idem).
Proof.
  intros Hkey L s w HL HP. unfold submit_transaction. apply lrgm_bind, lrgm_ret.
  destruct (negb (is_finite (ta_amount a)) || flt (ta_amount a) fzero) eqn:Eg; [done|]. cbn [raise_if].
  assert (good_amount (ta_amount a) = true) as Hg.
  { apply orb_false_iff in Eg as [Ef El]. unfold good_amount. rewrite El. apply negb_false_iff in Ef. by rewrite Ef. }
  assert (∀ w', (∀ id, idem = Some id → has_tx (lw_core w') id = false) →
    lrgm' L (with_lock Write (submit_locked tip_weight false a idem)) (λ _ _ L' _, L' = L) s w') as Hlock.
  { intros w' Hno. apply lrgm_with_lock; [done | apply lock_freem_submit |]. intros w1 c [_ Hr] HJ Hc.
    apply submit_keeps_inv; [done | done |]. intros id Hid. assert (Key id ∈ L) as HidL by by eapply Hkey.
    split; [|done]. rewrite Hc, Hr by done. by apply Hno. }
  destruct idem as [id|].
  - apply lrgm_bind, lrgm_get_transaction. intros [tx|] w1 w2 _ _ Hn; [by apply lrgm_ret|].
    apply Hlock. intros id' [= <-]. by apply Hn.
  - apply lrgm_bind, lrgm_ret. by apply Hlock.
Qed.

Lemma safe_get_balance w : safe (get_balance w).
Proof. unfold get_balance. apply safe_bind; [by apply safe_read|]. intros c. apply safe_bind; [by apply safe_read|]. intros d. apply safe_ret. Qed.

Lemma safe_credit w amount t d s k key :
  (∀ L id, P L → idempotent_id key = Some id → Key id ∈ L) → safe (credit tip_weight false w amount t d s k key).
Proof. apply safe_submit. Qed.

Lemma safe_grant w amount :
  (∀ L id, P L → idempotent_id (Some ("welcome-grant:" +:+ w)) = Some id → Key id ∈ L) → safe (issue_welcome_grant tip_weight false w amount).
Proof.
  intros Hk. unfold issue_welcome_grant. apply safe_bind; [by apply safe_read|]. intros g. apply safe_bind; [apply safe_lift|]. intros _.
  by apply safe_credit.
Qed.

Lemma safe_debit w amount t d s k : safe (debit tip_weight false w amount t d s k).
Proof.
  unfold debit. apply safe_bind; [apply safe_get_balance|]. intros b. apply safe_bind; [apply safe_lift|]. intros _. by apply safe_submit.
Qed.

Lemma safe_approve w id : safe (approve_transaction tip_weight false w id).
Proof.
  unfold approve_transaction. apply safe_bind; [apply safe_read_state|]. intros m.
  destruct (dict_get id (d_transactions m)); [|apply safe_ret]. apply safe_bind; [by apply safe_submit|]. intros tx. apply safe_ret.
Qed.

Lemma safe_create_wallet w n k : safe (create_wallet w n k).
Proof. apply safe_with_lock; [auto with lock_free | apply kb_create_wallet]. Qed.

Lemma safe_register w key : safe (register_wallet_public_key w key).
Proof.
  apply safe_bind; [|intros _; by apply safe_update_state]. apply safe_with_lock; [unfold commit; lock_free | apply kb_public_key].
Qed.

Lemma safe_link_eth w a : safe (link_eth_address w a).
Proof.
  apply safe_bind; [apply safe_lift|]. intros _. apply safe_bind; [apply safe_lift|]. intros _.
  apply safe_with_lock; [unfold commit; lock_free | apply kb_link_eth].
Qed.

Lemma safe_row {A} w (f : option WalletRow → A) : safe (r ← execute (SelectWallet w); mret (f r)).
Proof. apply safe_bind; [by apply safe_read|]. intros r. apply safe_ret. Qed.
End Safe.
#[export] Hint Resolve safe_lift safe_ret safe_read_state safe_get_transaction safe_get_balance safe_debit safe_approve safe_create_wallet
  safe_register safe_link_eth : safe_calls.

Lemma idem_prefix key id : idempotent_id key = Some id → String.prefix "idem-" id = true.
Proof.
  unfold idempotent_id. destruct key as [k|]; [|done]. destruct (str_nonempty k); [|done]. generalize (stake 48 (sha256_hex (utf8 k))).
  intros s [= <-]. by destruct s.
Qed.

(** ** The pool *)

Section Calls.
Context `{Externals}.
Variable sql_sum : list pyfloat → pyfloat.
Variable tip_weight : Z → pyfloat.

(** A pool of calls from a ledger *)
Definition started (l : Ledger) : list (prog ledger_io unit) * LedgerWorld := ([], {| lw_ledger := l; lw_held := ∅ |}).
Definition ledger_step := pool_step (node_exec sql_sum) (dag_call tip_weight).

Section Booted.
Variable t0 : LedgerTables.
Variable x0 : string.
Abbreviation J := (ledger_inv t0 x0).
Abbreviation lrg := (rg (node_exec sql_sum) lw_held lock_after ledger_rely (lock_inv J)).

Lemma run_safe {A} (m : M ledger_io unit A) w :
  lrgm sql_sum J ∅ m (λ _ _ L' _, L' = ∅) tt w → lrg ∅ (run_call m) (λ _ L _, L = ∅) w.
Proof. intros Hm. apply rg_bind. eapply rg_mono; [|exact Hm]. by intros [r []] L w' ->. Qed.

Lemma run_any {A} (m : M ledger_io unit A) w :
  safe sql_sum t0 x0 (λ _, True) m → lrg ∅ (run_call m) (λ _ L _, L = ∅) w.
Proof. intros Hm. by apply run_safe, Hm. Qed.

Lemma run_keyed {A} key (m : M ledger_io unit A) w :
  safe sql_sum t0 x0 (λ L, ∀ id, idempotent_id key = Some id → Key id ∈ L) m → lrg ∅ (run_call (keyed key m)) (λ _ L _, L = ∅) w.
Proof.
  intros Hm. apply run_safe. unfold keyed. destruct (idempotent_id key) as [id|] eqn:E; [|by apply Hm].
  unfold with_lock. apply lrgm_bind, lrgm_acquire.
  { intros id' [= <-]. by eapply idem_prefix. }
  intros w1 w2 _ _ _. apply lrgm_bind, lrgm_try. eapply lrgm_mono; [apply Hm; [set_solver|]|].
  { intros id' [= <-]. set_solver. }
  intros r s L w3 ->. apply lrgm_bind, lrgm_release; [set_solver | done |]. intros w4 w5 _ _. apply lrgm_ret. set_solver.
Qed.

Lemma dag_call_safe p w : dag_call tip_weight p → lrg ∅ p (λ _ L _, L = ∅) w.
Proof.
  intros Hc. destruct Hc; try solve [apply run_any; auto with safe_calls | apply run_any, safe_row].
  - apply run_any. unfold wallet_for_eth_address. destruct (str_nonempty a); [by apply safe_read | apply safe_ret].
  - apply run_any, safe_with_lock; [unfold commit; lock_free | apply kb_set_requires].
  - apply run_any, safe_with_lock; [unfold commit; lock_free | apply kb_bump].
  - apply run_any, safe_with_lock; [unfold commit; lock_free | apply kb_cas].
  - apply run_any, safe_bind; [by apply safe_read|]. intros r. apply safe_ret.
  - by apply run_any, safe_read.
  - apply run_any, safe_with_lock; [unfold commit; lock_free | apply kb_record].
  - apply run_any, safe_with_lock; [unfold commit; lock_free | apply kb_release].
  - by apply run_any, safe_submit.
  - apply run_keyed, safe_credit. intros L id HL Hid. by apply HL.
  - apply run_keyed, safe_grant. intros L id HL Hid. by apply HL.
Qed.
End Booted.

(** The state of the ledger, whenever nobody has the lock *)
Record settled (l0 : LedgerTables) (x0 : string) (l : Ledger) (new : list (string * DAGTransaction)) : Prop := {
  se_committed : c_disk (l_db l) = c_tables (l_db l) ∧ c_open (l_db l) = false ∧ c_saves (l_db l) = [];
  se_log : log (t_transactions (c_disk (l_db l))) = log (t_transactions l0) ++ new;
  se_chain : ∃ x, t_tips (c_disk (l_db l)) = [x] ∧ d_tips (l_state l) = [x] ∧ chained x0 new x;
  se_versions : versions_agree (c_disk (l_db l)) (d_balance_version_cache (l_state l));
  se_balances w : tbal (c_disk (l_db l)) w = replay (tbal l0) (moves new) w;
  se_covered : covered (tbal l0) (moves new);
  se_nonneg : (∀ w, fnonneg (tbal l0 w) = true) → ∀ w, fnonneg (tbal (c_disk (l_db l)) w) = true
}.

Lemma booted_inv l t x : booted l t x → ledger_inv t x (core l).
Proof.
  intros (vs & p & Hc & Hv & Ht). split. exists t, x, vs, p, []. split_and!; try done.
  - by rewrite app_nil_r.
  - by intros [|] ? ? ?.
Qed.

Lemma inv_settled l t x : ledger_inv t x (core l) → ∃ new, settled t x l new.
Proof.
  intros [(t' & x' & vs & p & new & Hc & Hv & Ht & Hl & Hch & Hb & Hcov & Hg)]. exists new.
  destruct l as [[disk tables open saves] [tips txs vers keys pend]]. cbv [core idle core_at] in Hc. cbn in Hc. inversion Hc; subst.
  split; cbn; try done.
  - by exists x'.
  - intros H0 w. rewrite Hb. by apply replay_nonneg.
Qed.
End Calls.

