(* ===== verification/DagSolo.v ===== *)
(** * Methods of the DAG ledger that run alone

    What the walk of _update_weights and the start of the ledger
    (prsm/node/dag_ledger.py; PRSMNode._seed_welcome_grant of prsm/node/node.py) do when no
    other coroutine runs. *)
From Stdlib Require Import ZArith Lia.
From S2P Require Import PyStd.
From S2P Require Import Externals.
From S2P Require Import PyNumbers.
From S2P Require Import Effects.
From S2P Require Import DagLedger.
From S2P Require Import DagSteps.
From S2P Require Import DagSafety.
From S2P Require Import Prelude.
From stdpp Require Import relations.

#[local] Open Scope string_scope.
#[local] Open Scope list_scope.
#[local] Open Scope Z_scope.

(** ** Rules *)

Section Solo.
Variable sql_sum : list pyfloat → pyfloat.

Definition solo_exec (e : ledger_io) (l : Ledger) (r : response e) (l' : Ledger) : Prop := ledger_exec sql_sum e l r l'.

Context {S : Type}.
Implicit Types (st : S) (l : Ledger).
Definition solo {A} (m : M ledger_io S A) (Q : result A → S → Ledger → Prop) st l : Prop :=
  wpm solo_exec (λ _, True) m Q st l.

Lemma solo_bind {A B} (m : M ledger_io S A) (f : A → M ledger_io S B) Q st l :
  solo m (λ r st l, match r with Ok a => solo (f a) Q st l | Err e => Q (Err e) st l end) st l → solo (m ≫= f) Q st l.
Proof. apply wpm_bind. Qed.
Lemma solo_ret {A} (a : A) (Q : result A → S → Ledger → Prop) st l : Q (Ok a) st l → solo (mret a) Q st l.
Proof. by apply wpm_ret. Qed.
Lemma solo_mono {A} (m : M ledger_io S A) (Q Q' : result A → S → Ledger → Prop) st l :
  solo m Q st l → (∀ r st l, Q r st l → Q' r st l) → solo m Q' st l.
Proof. intros Hm HQ. eapply wpm_mono; [exact Hm|]. eauto. Qed.

Lemma solo_execute s (Q : result (answer s) → S → Ledger → Prop) st l :
  (let '(a, db) := db_execute sql_sum s (l_db l) in Q a st (on_db l db)) → solo (execute s) Q st l.
Proof.
  intros HQ. apply solo_bind, (wpm_perform (E := ledger_io)); [done|]. intros r l' Hx. split; [done|]. unfold solo_exec in Hx. simpl in Hx.
  destruct (db_execute sql_sum s (l_db l)) as [a db]. destruct Hx as [-> ->]. by apply wpm_lift.
Qed.
Lemma solo_read (Q : result DAGState → S → Ledger → Prop) st l : Q (Ok (l_state l)) st l → solo read_state Q st l.
Proof. intros HQ. apply (wpm_perform (E := ledger_io)); [done|]. intros r l' [-> ->]. by split. Qed.
Lemma solo_update f (Q : result unit → S → Ledger → Prop) st l :
  Q (Ok tt) st {| l_db := l_db l; l_state := f (l_state l) |} → solo (update_state f) Q st l.
Proof.
  intros HQ. apply (wpm_perform (E := ledger_io)); [done|]. intros [] l' Hx. unfold solo_exec in Hx. simpl in Hx. subst l'. by split.
Qed.
Lemma solo_commit (Q : result unit → S → Ledger → Prop) st l : Q (Ok tt) st (on_db l (db_commit (l_db l))) → solo commit Q st l.
Proof.
  intros HQ. apply (wpm_perform (E := ledger_io)); [done|]. intros [] l' Hx. unfold solo_exec in Hx. simpl in Hx. subst l'. by split.
Qed.

(** A loop that only updates the object *)
Lemma solo_for_each_update {A} (f : A → DAGState → DAGState) xs (Q : result unit → S → Ledger → Prop) st l :
  Q (Ok tt) st {| l_db := l_db l; l_state := fold_left (λ m x, f x m) xs (l_state l) |} →
  solo (for_each xs (λ x, update_state (f x))) Q st l.
Proof.
  revert l. induction xs as [|x xs IH]; intros l HQ; cbn [for_each].
  - apply solo_ret. by destruct l.
  - apply solo_bind, solo_update, IH, HQ.
Qed.

(** ** The walk that adds weights *)

Definition bump (tx : DAGTransaction) : DAGTransaction :=
  with_weight (dt_cumulative_weight tx + 1) (confirmation (dt_cumulative_weight tx + 1)) tx.

Lemma children_bump x id tx (d : dict string DAGTransaction) :
  dict_get id d = Some tx → children x (dict_set id (bump tx) d) = children x d.
Proof.
  unfold children. change (dict string DAGTransaction) with (list (string * DAGTransaction)) in *.
  induction d as [|[k v] d IH]; [done|]. cbn [dict_get dict_set]. destruct (decide (id = k)) as [->|Hne].
  - intros [= ->]. rewrite !filter_cons. by repeat case_decide.
  - intros Hg. rewrite !filter_cons. case_decide; [rewrite !fmap_cons; f_equal|]; by apply IH.
Qed.

Section Walk.
Variable l0 : Ledger.
Variable parents : list string.
Abbreviation g := (d_transactions (l_state l0)).
Abbreviation db0 := (t_transactions (c_tables (l_db l0))).

(** The walk goes on from the transactions that the object has. *)
Definition edge (a b : string) : Prop := a ∈ dict_keys g ∧ b ∈ children a g.
Definition reached (id : string) : Prop := ∃ p, p ∈ parents ∧ rtc edge p id.

(** What the object and the table hold when [seen] was visited *)
Record walked (seen : list string) (l : Ledger) : Prop := {
  wk_memory id : dict_get id (d_transactions (l_state l)) = if decide (id ∈ seen) then bump <$> dict_get id g else dict_get id g;
  wk_children x : children x (d_transactions (l_state l)) = children x g;
  wk_rows id : dict_get id (t_transactions (c_tables (l_db l))) =
    match dict_get id g with
    | Some tx => if decide (id ∈ seen) then with_weight (dt_cumulative_weight tx + 1) (confirmation (dt_cumulative_weight tx + 1)) <$> dict_get id db0
                 else dict_get id db0
    | None => dict_get id db0
    end
}.

Definition unvisited (seen : list string) : nat := length (filter (λ k, k ∉ seen) (dict_keys g)).
Abbreviation width := (Datatypes.S (length g)).

Lemma unvisited_cons x seen : x ∈ dict_keys g → x ∉ seen → (unvisited (x :: seen) < unvisited seen)%nat.
Proof.
  unfold unvisited. intros Hx Hn. induction (dict_keys g) as [|k ks IH]; [by apply elem_of_nil in Hx|].
  assert (length (filter (λ k, k ∉ x :: seen) ks) ≤ length (filter (λ k, k ∉ seen) ks))%nat as Hle.
  { clear. induction ks as [|k ks IH]; [done|]. rewrite !filter_cons. repeat case_decide; cbn; [lia | | lia | lia]. set_solver. }
  rewrite !filter_cons. apply elem_of_cons in Hx as [->|Hx].
  - rewrite decide_False by set_solver. rewrite decide_True by done. cbn. lia.
  - specialize (IH Hx). repeat case_decide; cbn; [lia | set_solver | lia | lia].
Qed.

Lemma unvisited_mono x seen : (unvisited (x :: seen) ≤ unvisited seen)%nat.
Proof.
  unfold unvisited. induction (dict_keys g) as [|k ks IH]; [done|]. rewrite !filter_cons. repeat case_decide; cbn; [lia | | lia | lia]. set_solver.
Qed.

Lemma children_short x : (length (children x g) ≤ length g)%nat.
Proof. unfold children. rewrite length_fmap. apply length_filter. Qed.

Lemma walked_step x tx seen l :
  walked seen l → x ∉ seen → dict_get x (d_transactions (l_state l)) = Some tx →
  walked (x :: seen)
    {| l_db := (db_execute sql_sum (UpdateWeight x (dt_cumulative_weight tx + 1) (confirmation (dt_cumulative_weight tx + 1))) (l_db l)).2;
       l_state := with_transactions (dict_set x (bump tx)) (l_state l) |}.
Proof.
  intros [Hm Hc Hr] Hn Hx. pose proof (Hm x) as Hgx. rewrite Hx, decide_False in Hgx by done. symmetry in Hgx. split; cbn.
  - intros id. rewrite dict_get_set. destruct (decide (x = id)) as [->|Hne].
    + rewrite decide_True by set_solver. by rewrite Hgx.
    + rewrite Hm. repeat case_decide; try done; set_solver.
  - intros y. etrans; [by apply (children_bump y x tx) | apply Hc].
  - intros id. unfold dict_update. pose proof (Hr x) as Hrx. rewrite Hgx, decide_False in Hrx by done. rewrite Hrx.
    destruct (decide (x = id)) as [->|Hne].
    + rewrite Hgx, decide_True by set_solver. destruct (dict_get id db0) as [row|]; [by rewrite dict_get_set_eq | done].
    + assert (dict_get id match dict_get x db0 with
                          | Some row => dict_set x (with_weight (dt_cumulative_weight tx + 1) (confirmation (dt_cumulative_weight tx + 1)) row)
                                          (t_transactions (c_tables (l_db l)))
                          | None => t_transactions (c_tables (l_db l)) end = dict_get id (t_transactions (c_tables (l_db l)))) as ->
        by (destruct (dict_get x db0); [by rewrite dict_get_set_ne | done]).
      rewrite Hr. destruct (dict_get id g); [|done]. repeat case_decide; try done; set_solver.
Qed.

(** Everything visited was reached, and what can be reached is visited or in the queue. *)
Record frontier (queue seen : list string) : Prop := {
  fr_reached id : id ∈ seen ++ queue → reached id;
  fr_parents p : p ∈ parents → p ∈ seen ++ queue;
  fr_closed a b : a ∈ seen → edge a b → b ∈ seen ++ queue
}.

Lemma frontier_skip x queue seen : frontier (x :: queue) seen → x ∈ seen → frontier queue seen.
Proof.
  intros [H1 H2 H3] Hx. split.
  - intros id Hid. apply H1. set_solver.
  - intros p Hp. specialize (H2 p Hp). set_solver.
  - intros a b Ha Hab. specialize (H3 a b Ha Hab). set_solver.
Qed.

Lemma frontier_missing x queue seen : frontier (x :: queue) seen → x ∉ dict_keys g → frontier queue (x :: seen).
Proof.
  intros [H1 H2 H3] Hx. split.
  - intros id Hid. apply H1. set_solver.
  - intros p Hp. specialize (H2 p Hp). set_solver.
  - intros a b [->|Ha]%elem_of_cons Hab; [by destruct Hab|]. specialize (H3 a b Ha Hab). set_solver.
Qed.

Lemma frontier_visit x queue seen :
  frontier (x :: queue) seen → x ∈ dict_keys g →
  frontier (queue ++ filter (λ c, c ∉ x :: seen) (children x g)) (x :: seen).
Proof.
  intros [H1 H2 H3] Hx. split.
  - intros id. rewrite !elem_of_app, list_elem_of_filter. intros [Hid|[Hid|[_ Hid]]]; [apply H1; set_solver | apply H1; set_solver |].
    destruct (H1 x) as (p & Hp & Hpx); [set_solver|]. exists p. split; [done|]. by eapply rtc_r.
  - intros p Hp. specialize (H2 p Hp). set_solver.
  - intros a b [->|Ha]%elem_of_cons Hab.
    + rewrite elem_of_app. destruct (decide (b ∈ x :: seen)) as [|Hb]; [by left|]. right. rewrite elem_of_app. right.
      apply list_elem_of_filter. split; [done | apply Hab].
    + specialize (H3 a b Ha Hab). set_solver.
Qed.

Lemma frontier_done seen : frontier [] seen → ∀ id, id ∈ seen ↔ reached id.
Proof.
  intros [H1 H2 H3] id. rewrite app_nil_r in *. split; [apply H1|]. intros (p & Hp & Hpid). specialize (H2 p Hp).
  clear Hp. induction Hpid as [|a b c Hab _ IH]; [done|]. by apply IH, (H3 a b).
Qed.

Lemma solo_walk fuel queue seen l st :
  walked seen l → frontier queue seen → (length queue + width * unvisited seen ≤ fuel)%nat →
  solo (update_weights_loop fuel queue seen) (λ r _ l', r = Ok tt ∧ ∃ seen', walked seen' l' ∧ ∀ id, id ∈ seen' ↔ reached id) st l.
Proof.
  revert queue seen l. induction fuel as [|fuel IH]; intros queue seen l Hw Hf Hfuel.
  { destruct queue as [|x queue]; [|cbn in Hfuel; lia]. apply solo_ret. split; [done|]. exists seen. split; [done | by apply frontier_done]. }
  cbn [update_weights_loop]. destruct queue as [|x queue].
  { apply solo_ret. split; [done|]. exists seen. split; [done | by apply frontier_done]. }
  cbn [length] in Hfuel. case_bool_decide as Hx.
  { apply IH; [done | by eapply frontier_skip | lia]. }
  apply solo_bind, solo_read. pose proof (wk_memory _ _ Hw x) as Hm. rewrite decide_False in Hm by done.
  destruct (dict_get x (d_transactions (l_state l))) as [tx|] eqn:Ex.
  - assert (x ∈ dict_keys g) as Hxg by (apply dec_stable; intros Hn%dict_get_None; congruence).
    apply solo_bind, solo_update, solo_bind, solo_execute. cbn [l_db].
    pose proof (walked_step x tx seen l Hw Hx Ex) as Hw'.
    destruct (db_execute sql_sum _ (l_db l)) as [a db] eqn:Edb. cbn [snd] in Hw'.
    assert (a = Ok tt) as -> by (unfold db_execute in Edb; cbn in Edb; by injection Edb as <- _).
    apply solo_bind, solo_read. cbn [l_state on_db]. apply IH; [exact Hw' | |].
    + rewrite (wk_children _ _ Hw'). by apply frontier_visit.
    + rewrite (wk_children _ _ Hw'). pose proof (unvisited_cons x seen Hxg Hx). rewrite length_app.
      pose proof (length_filter (λ c, c ∉ x :: seen) (children x g)). pose proof (children_short x). nia.
  - apply IH; [|apply frontier_missing; [done | by apply dict_get_None]|].
    + destruct Hw as [H1 H2 H3]. split; [|done|].
      * intros id. rewrite H1. destruct (decide (id ∈ seen)), (decide (id ∈ x :: seen)); try done; [set_solver|].
        assert (id = x) as -> by set_solver. by rewrite <-Hm.
      * intros id. rewrite H3. destruct (dict_get id g) as [tx|] eqn:Eg; [|done].
        destruct (decide (id ∈ seen)), (decide (id ∈ x :: seen)); try done; [set_solver|]. assert (id = x) as -> by set_solver. congruence.
    + pose proof (unvisited_mono x seen). nia.
Qed.
End Walk.
End Solo.


(** ** The start *)

(** A database nobody uses: the rows' keys are theirs, and there is one tip if there are
    transactions. *)
Record closed_tables (t : LedgerTables) : Prop := {
  cl_wallets : NoDup (t_wallets t).*1;
  cl_keys : NoDup (t_transactions t).*1;
  cl_ids : Forall (λ kv, kv.1 = dt_tx_id kv.2) (t_transactions t);
  cl_tips : match t_transactions t with [] => t_tips t = [] | _ => ∃ x, t_tips t = [x] end
}.

Definition blank : DAGState :=
  {| d_tips := []; d_transactions := []; d_balance_version_cache := []; d_wallet_public_keys := []; d_pending_verification := None |}.

Definition opened (t : LedgerTables) : Ledger :=
  {| l_db := {| c_disk := t; c_tables := t; c_open := false; c_saves := [] |}; l_state := blank |}.

Section Start.
Variable sql_sum : list pyfloat → pyfloat.
Context {S : Type}.
Implicit Types (st : S) (l : Ledger).
Abbreviation solo' := (solo sql_sum).

(** A statement on a committed database that writes nothing *)
Lemma solo_select s (Q : result (answer s) → S → Ledger → Prop) st l :
  writes s = false →
  (∀ a, run_statement sql_sum s (c_tables (l_db l)) = Ok (c_tables (l_db l), a) → Q (Ok a) st l) → solo' (execute s) Q st l.
Proof.
  intros Hw HQ. apply solo_execute. unfold db_execute. rewrite Hw, orb_false_r.
  destruct l as [[disk t open saves] m]. cbn [l_db c_tables c_disk c_open c_saves] in *.
  destruct s; try done; cbn [run_statement] in *; by apply HQ.
Qed.

Lemma solo_load_rows rows st l (Q : result unit → S → Ledger → Prop) :
  Forall (λ row, dict_get (dt_tx_id row) (t_transactions (c_tables (l_db l))) = Some row) rows →
  Q (Ok tt) st {| l_db := l_db l; l_state := with_transactions (λ d, fold_left (λ d tx, dict_set (dt_tx_id tx) tx d) rows d) (l_state l) |} →
  solo' (for_each rows (λ row,
          row2 ← execute (SelectTransaction (dt_tx_id row));
          match row2 with
          | Some row2 => update_state (with_transactions (dict_set (dt_tx_id row) (loaded_transaction row row2)))
          | None => mret tt
          end)) Q st l.
Proof.
  revert l. induction rows as [|row rows IH]; intros l Hr HQ; cbn [for_each].
  - apply solo_ret. by destruct l as [db []].
  - inversion Hr as [|? ? Hrow Hrows]; subst. apply solo_bind, solo_bind, solo_select; [done|]. intros a [= <-]. rewrite Hrow.
    assert (loaded_transaction row row = row) as -> by by destruct row.
    apply solo_update, IH; [exact Hrows | exact HQ].
Qed.

Lemma fold_with_key keys m :
  ∃ ks, fold_left (λ m (kv : string * string), with_key kv.1 kv.2 m) keys m =
    {| d_tips := d_tips m; d_transactions := d_transactions m; d_balance_version_cache := d_balance_version_cache m;
       d_wallet_public_keys := ks; d_pending_verification := d_pending_verification m |}.
Proof.
  revert m. induction keys as [|kv keys IH]; intros m; cbn; [exists (d_wallet_public_keys m); by destruct m|].
  destruct (IH (with_key kv.1 kv.2 m)) as [ks ->]. by eexists.
Qed.

(** What the object holds after [_load_state] *)
Lemma solo_load_state t st (Q : result unit → S → Ledger → Prop) :
  closed_tables t →
  (∀ t' x ks, t_wallets t' = t_wallets t → t_tips t' = [x] →
     (t_transactions t = [] ∧ x = "genesis" ∧ t_transactions t' = [("genesis", genesis)] ∨ t_transactions t ≠ [] ∧ t' = t) →
     Q (Ok tt) st {| l_db := {| c_disk := t'; c_tables := t'; c_open := false; c_saves := [] |};
                     l_state := {| d_tips := [x]; d_transactions := t_transactions t; d_balance_version_cache := [];
                                   d_wallet_public_keys := ks; d_pending_verification := None |} |}) →
  solo' load_state Q st (opened t).
Proof.
  intros [_ Hk Hi Ht] HQ. unfold load_state. apply solo_bind, solo_select; [done|]. intros rows [= <-].
  apply solo_bind, solo_load_rows.
  { apply Forall_forall. intros tx. cbn. unfold dict_values. rewrite list_elem_of_fmap. intros ([k tx'] & -> & Hin).
    pose proof Hi as Hi'. rewrite Forall_forall in Hi'. specialize (Hi' _ Hin). cbn in *. subst k. apply elem_dict_get; [exact Hk | exact Hin]. }
  assert (fold_left (λ d tx, dict_set (dt_tx_id tx) tx d) (dict_values (t_transactions t)) [] = t_transactions t) as Hload.
  { rewrite <-(dict_of_list_NoDup (t_transactions t)) at 2 by done. unfold dict_of_list, dict_values. generalize (@nil (string * DAGTransaction)).
    clear -Hi. induction Hi as [|[k tx] d Hkv _ IH]; intros acc; [done|]. cbn in *. subst k. apply IH. }
  apply solo_bind, solo_select; [done|]. intros tips [= <-]. apply solo_bind, solo_for_each_update.
  apply solo_bind, solo_select; [done|]. intros keys [= <-]. apply solo_bind, solo_for_each_update.
  match goal with |- solo _ _ _ _ ?l1 =>
    assert (∃ ks, l1 = {| l_db := l_db (opened t);
                          l_state := {| d_tips := t_tips t; d_transactions := t_transactions t; d_balance_version_cache := [];
                                        d_wallet_public_keys := ks; d_pending_verification := None |} |}) as [ks ->]
  end.
  { destruct (fold_with_key (key_rows t) {| d_tips := t_tips t; d_transactions := t_transactions t; d_balance_version_cache := [];
                                            d_wallet_public_keys := []; d_pending_verification := None |}) as [ks Hks].
    exists ks. cbn [l_db l_state]. f_equal. etrans; [|exact Hks]. cbn [c_tables opened l_db]. f_equal.
    unfold with_transactions at 1. cbn [l_state opened blank d_tips d_transactions d_balance_version_cache d_wallet_public_keys d_pending_verification].
    rewrite Hload. destruct (t_transactions t); [by rewrite Ht|]. by destruct Ht as [x ->]. }
  apply solo_bind, solo_read. cbn [l_state d_transactions].
  destruct (t_transactions t) as [|kv txs] eqn:Etx.
  - rewrite Ht. unfold create_genesis, store_transaction. apply solo_bind, solo_execute.
    cbn [db_execute run_statement l_db opened c_tables c_disk c_open c_saves on_db l_state orb writes].
    apply solo_bind, solo_update. apply solo_bind, solo_execute.
    cbn [db_execute run_statement l_db c_tables c_disk c_open c_saves on_db l_state orb writes].
    assert (t_tips (set_transactions (dict_set (dt_tx_id genesis) genesis) t) = []) as -> by exact Ht.
    rewrite decide_False by (by intros ?%elem_of_nil). apply solo_commit. apply HQ; [done | cbn; by rewrite Ht | left].
    split_and!; [done | done |]. cbn. by rewrite Etx.
  - destruct Ht as [x Ht]. rewrite Ht. apply solo_ret. apply HQ; [done | done | by right].
Qed.

(** The balance cache once it is rebuilt *)
Definition rebuilt (t : LedgerTables) : LedgerTables := set_balances (λ _, rebuilt_balances sql_sum t) t.

Lemma solo_rebuild t tips txs vs ks p st (Q : result unit → S → Ledger → Prop) :
  NoDup (t_wallets t).*1 →
  Q (Ok tt) st {| l_db := {| c_disk := rebuilt t; c_tables := rebuilt t; c_open := false; c_saves := [] |};
                  l_state := {| d_tips := tips; d_transactions := txs;
                                d_balance_version_cache := (λ kv : string * WalletRow, (kv.1, 1)) <$> t_wallets t;
                                d_wallet_public_keys := ks; d_pending_verification := p |} |} →
  solo' rebuild_balances Q st
    {| l_db := {| c_disk := t; c_tables := t; c_open := false; c_saves := [] |};
       l_state := {| d_tips := tips; d_transactions := txs; d_balance_version_cache := vs; d_wallet_public_keys := ks;
                     d_pending_verification := p |} |}.
Proof.
  intros Hw HQ. unfold rebuild_balances. apply solo_bind, solo_execute.
  cbn [db_execute run_statement l_db c_tables c_disk c_open c_saves on_db l_state orb writes].
  apply solo_bind, solo_execute. unfold db_execute.
  cbn [run_statement l_db c_tables c_disk c_open c_saves on_db l_state orb writes t_balances set_balances].
  assert (∀ l : list string, existsb (λ w, dict_has w (@nil (string * (pyfloat * Z)))) l = false) as -> by (induction l; done).
  cbn [app]. apply solo_bind, solo_commit. apply solo_bind, solo_update, solo_bind, solo_select; [done|]. intros rows [= <-].
  apply solo_for_each_update. cbn [l_db l_state on_db db_commit c_open c_tables].
  assert (rebuilt_balances sql_sum (set_balances (λ _, []) t) = rebuilt_balances sql_sum t) as Hb by done.
  assert (∀ (rows : list (string * Z)) m, fold_left (λ m kv, with_versions (dict_set kv.1 kv.2) m) rows m =
     with_versions (λ v, fold_left (λ v kv, dict_set kv.1 kv.2 v) rows v) m) as ->.
  { clear. induction rows as [|kv rows IH]; intros m; [by destruct m|]. cbn. by rewrite IH. }
  match type of HQ with Q _ _ ?want => match goal with |- Q _ _ ?l1 => enough (want = l1) as <-; [exact HQ|] end end.
  f_equal. unfold with_versions. cbn [d_tips d_transactions d_balance_version_cache d_wallet_public_keys d_pending_verification]. f_equal.
  symmetry. etrans; [apply dict_of_list_NoDup|]; cbn; unfold rebuilt_balances; rewrite <-!list_fmap_compose; [exact Hw | done].
Qed.
End Start.

Lemma get_fmap_key {A B} (f : string → A → B) (d : list (string * A)) w :
  dict_get w ((λ kv : string * A, (kv.1, f kv.1 kv.2)) <$> d) = f w <$> dict_get w d.
Proof.
  induction d as [|[k v] d IH]; [done|]. rewrite fmap_cons. cbn [dict_get fst snd]. destruct (decide (w = k)) as [->|]; [done | exact IH].
Qed.

(** C26 The start of the ledger, from a closed database: the tables are committed, the
    object holds the transactions and the single tip (the genesis of an empty ledger),
    every wallet's cached balance is what its transactions sum to, and the version of
    every balance row is cached: the ledger is booted, as the safety of its calls asks. *)
Theorem start_boots sql_sum {S} t (st : S) :
  closed_tables t →
  solo sql_sum (_ ← load_state; rebuild_balances) (λ r _ l, r = Ok tt ∧ ∃ t' x,
    booted l t' x ∧ d_transactions (l_state l) = t_transactions t ∧
    (t_transactions t ≠ [] → t_transactions t' = t_transactions t ∧ t_tips t' = t_tips t) ∧
    ∀ w, tbal t' w = if dict_has w (t_wallets t) then rebuilt_balance sql_sum w t' else fzero) st (opened t).
Proof.
  intros Hc. pose proof (cl_wallets _ Hc) as Hw. apply solo_bind, solo_load_state; [done|]. intros t1 x ks Hwal Hti Hcase.
  apply solo_rebuild; [by rewrite Hwal|]. split; [done|]. exists (rebuilt sql_sum t1), x. split_and!.
  - eexists _, None. split_and!; [done | | exact Hti]. intros w. unfold rebuilt, rebuilt_balances. cbn [t_balances set_balances].
    rewrite (get_fmap_key (λ k _, (rebuilt_balance sql_sum k t1, 1))).
    etrans; [|symmetry; apply (get_fmap_key (λ _ (_ : WalletRow), 1))]. by destruct (dict_get w (t_wallets t1)).
  - done.
  - intros Hne. destruct Hcase as [(He & _)|[_ ->]]; [done | by split].
  - intros w. unfold tbal, balance_row, rebuilt at 1, rebuilt_balances. cbn [t_balances set_balances].
    rewrite (get_fmap_key (λ k _, (rebuilt_balance sql_sum k t1, 1))), Hwal. unfold dict_has. by destruct (dict_get w (t_wallets t)).
Qed.
