(* ===== verification/DagExample.v ===== *)
(** * The DAG ledger, executed

    The steps of the scheduler of [Effects] on a ledger; the witnesses of the theorems on the ledger, and what happens when
    two credits with one idempotency key overlap. *)
From Stdlib Require Import ZArith Lia.
From S2P Require Import PyStd.
From S2P Require Import Externals.
From S2P Require Import PyNumbers.
From S2P Require Import Effects.
From S2P Require Import ClientExample.
From S2P Require Import DagLedger.
From S2P Require Import DagSteps.
From S2P Require Import DagSafety.
From S2P Require Import DagSolo.
From S2P Require Import Prelude.
From stdpp Require Import relations.

#[local] Open Scope string_scope.
#[local] Open Scope list_scope.
#[local] Open Scope Z_scope.

Import Toy.

(** ** A scheduler *)

Section Scheduler.
Variable sql_sum : list pyfloat → pyfloat.

(** Names that are not in use *)
Definition fresh_id (l : Ledger) : string := "tx-" +:+ stake (length (known_ids l)) "aaaaaaaaaaaaaaaaaaaaaaaaaaaaaaaa".

Definition step_ledger (e : ledger_request) (l : Ledger) : option (@response ledger_io e * Ledger) :=
  match e return option (@response ledger_io e * Ledger) with
  | Execute s => let '(a, c) := db_execute sql_sum s (l_db l) in Some (a, on_db l c)
  | Commit => Some (tt, on_db l (db_commit (l_db l)))
  | SetSavepoint => Some (tt, on_db l (db_savepoint (l_db l)))
  | ReleaseSavepoint => let '(a, c) := db_release (l_db l) in Some (a, on_db l c)
  | RollbackToSavepoint => let '(a, c) := db_rollback_to (l_db l) in Some (a, on_db l c)
  | ReadState => Some (l_state l, l)
  | UpdateState f => Some (tt, {| l_db := l_db l; l_state := f (l_state l) |})
  | ListTips => Some (d_tips (l_state l), l)
  | NewUuid =>
      let id := fresh_id l in
      if decide ((id ∉ known_ids l) ∧ String.prefix "idem-" id = false) then Some (id, l) else None
  | TimeNow | Random => Some (fzero, l)
  | Acquire _ | Release _ => None
  end.

Definition keep_held {R} (w : LedgerWorld) (x : option (R * Ledger)) : option (R * LedgerWorld) :=
  match x with Some (r, l) => Some (r, {| lw_ledger := l; lw_held := lw_held w |}) | None => None end.

Definition step_world (e : ledger_request) (w : LedgerWorld) : option (@response ledger_io e * LedgerWorld) :=
  match e return option (@response ledger_io e * LedgerWorld) with
  | Acquire t =>
      if decide (t ∈ lw_held w) then None else Some (tt, {| lw_ledger := lw_ledger w; lw_held := {[t]} ∪ lw_held w |})
  | Release t => Some (tt, {| lw_ledger := lw_ledger w; lw_held := lw_held w ∖ {[t]} |})
  | e => keep_held w (step_ledger e (lw_ledger w))
  end.

Lemma step_ledger_sound e l r l' : step_ledger e l = Some (r, l') → ledger_exec sql_sum e l r l'.
Proof.
  destruct e; simpl; try (by intros [= <- <-]).
  - by destruct (db_execute sql_sum s (l_db l)); intros [= <- <-].
  - by destruct (db_release (l_db l)); intros [= <- <-].
  - by destruct (db_rollback_to (l_db l)); intros [= <- <-].
  - case_decide as Hd; [|done]. destruct Hd. by intros [= <- <-].
Qed.

Lemma step_world_sound e w r w' : step_world e w = Some (r, w') → node_exec sql_sum e w r w'.
Proof.
  intros Hs. destruct e; unfold step_world, keep_held in Hs;
    try (destruct (step_ledger _ (lw_ledger w)) as [[r0 l']|] eqn:E; [|done]; injection Hs as <- <-; by apply step_ledger_sound in E).
  - case_decide as Hd; [done|]. by injection Hs as <- <-.
  - by injection Hs as <- <-.
Qed.

Definition run_ledger := run_pool (A := unit) (E := ledger_io) step_world.
End Scheduler.

(** ** A ledger with its genesis *)

Definition empty_tables : LedgerTables :=
  {| t_wallets := []; t_transactions := []; t_tips := []; t_balances := []; t_nonces := []; t_gossip := [] |}.

Lemma start_boots_witness :
  closed_tables empty_tables ∧
  solo fsum (_ ← load_state; rebuild_balances) (λ r _ l, r = Ok tt ∧ ∃ t' x,
    booted l t' x ∧ d_transactions (l_state l) = t_transactions empty_tables ∧
    (t_transactions empty_tables ≠ [] → t_transactions t' = t_transactions empty_tables ∧ t_tips t' = t_tips empty_tables) ∧
    ∀ w, tbal t' w = if dict_has w (t_wallets empty_tables) then rebuilt_balance fsum w t' else fzero) tt (opened empty_tables).
Proof.
  assert (closed_tables empty_tables) as Hc by (split; [constructor | constructor | constructor | reflexivity]).
  split; [exact Hc | exact (start_boots fsum empty_tables tt Hc)].
Defined.

(** The ledger that starts there *)
Definition tables0 : LedgerTables := set_tips (λ _, ["genesis"]) (set_transactions (λ _, [("genesis", genesis)]) empty_tables).
Definition ledger0 : Ledger :=
  {| l_db := {| c_disk := tables0; c_tables := tables0; c_open := false; c_saves := [] |};
     l_state := {| d_tips := ["genesis"]; d_transactions := []; d_balance_version_cache := []; d_wallet_public_keys := [];
                   d_pending_verification := None |} |}.

Definition weight_of (w : Z) : pyfloat := float_of_int w.

Definition funded : list (prog ledger_io unit) :=
  [run_call (keyed (Some "deposit") (credit weight_of false "alice" (float_of_int 100) BRIDGE_DEPOSIT "" None None (Some "deposit")))].
Definition payments : list (prog ledger_io unit) :=
  [run_call (transfer weight_of false "alice" "bob" (float_of_int 60) "" None None);
   run_call (transfer weight_of false "alice" "carol" (float_of_int 70) "" None None);
   run_call (keyed (Some "deposit") (credit weight_of false "alice" (float_of_int 100) BRIDGE_DEPOSIT "" None None (Some "deposit")))].

(** The deposit; then two payments that together are more than it, and the deposit again,
    step by step in turn. *)
Definition after_deposit := run_ledger fsum (round_robin 1 60) (funded, {| lw_ledger := ledger0; lw_held := ∅ |}).
Definition after_payments :=
  run_ledger fsum (round_robin 4 200) (after_deposit.1 ++ payments, after_deposit.2).

Definition shown (l : Ledger) : list (string * string) := (λ kv, (kv.1, float_repr kv.2.1)) <$> t_balances (c_disk (l_db l)).
Definition entries (l : Ledger) : list (string * list string) := (λ kv, (kv.1, dt_parent_ids kv.2)) <$> t_transactions (c_disk (l_db l)).

Lemma booted0 : booted ledger0 tables0 "genesis".
Proof. exists [], None. split_and!; [done | by intros w | done]. Qed.

Lemma funded_calls : Forall (dag_call weight_of) funded.
Proof. constructor; [apply (call_credit weight_of) | constructor]. Qed.
Lemma payment_calls : Forall (dag_call weight_of) payments.
Proof.
  constructor; [apply (call_transfer weight_of)|]. constructor; [apply (call_transfer weight_of)|].
  constructor; [apply (call_credit weight_of) | constructor].
Qed.

Lemma reach_deposit : rtc (ledger_step fsum weight_of) (started ledger0) after_deposit.
Proof. etrans; [apply (call_all (node_exec fsum) (dag_call weight_of) [] funded), funded_calls | apply run_pool_sound, step_world_sound]. Qed.

Lemma reach_payments : rtc (ledger_step fsum weight_of) (started ledger0) after_payments.
Proof.
  etrans; [apply reach_deposit|]. unfold after_payments. generalize after_deposit. intros n.
  etrans; [|apply run_pool_sound, step_world_sound]. destruct n as [ps w]. apply call_all, payment_calls.
Qed.


(** ** Two credits with one key that overlap

    Both look the transaction up before either has the lock; there is one transaction and
    the balance is credited twice. *)
Definition twice : list (prog ledger_io unit) :=
  [run_call (credit weight_of false "alice" (float_of_int 100) BRIDGE_DEPOSIT "" None None (Some "deposit"));
   run_call (credit weight_of false "alice" (float_of_int 100) BRIDGE_DEPOSIT "" None None (Some "deposit"))].

Definition after_twice := run_ledger fsum (round_robin 2 120) (twice, {| lw_ledger := ledger0; lw_held := ∅ |}).

Lemma overlapping_credits :
  shown (lw_ledger after_twice.2) = [("alice", "200.0")] ∧ length (entries (lw_ledger after_twice.2)) = 2%nat ∧
  ((λ p : prog ledger_io unit, match p with Ret _ => true | Do _ _ => false end) <$> after_twice.1) = [true; true].
Proof. split_and!; vm_compute; reflexivity. Qed.

(** ** A commit without the lock

    [log_gossip] commits while a transfer is between its deduction and its release of the
    savepoint: the release raises, alice has paid, bob was not credited, and the next
    commit keeps it. *)
Definition gossiping : list (prog ledger_io unit) :=
  [run_call (transfer weight_of false "alice" "bob" (float_of_int 60) "" None None);
   run_call (log_gossip "n" "row"); run_call (create_wallet "carol" "" None)].

Definition after_gossip :=
  run_ledger fsum (replicate 24 1%nat ++ replicate 2 2%nat ++ replicate 60 1%nat ++ replicate 20 3%nat)
    (after_deposit.1 ++ gossiping, after_deposit.2).

Lemma gossip_breaks_transfer :
  shown (lw_ledger after_gossip.2) = [("alice", "40.0")] ∧
  ((λ kv, (dt_from_wallet kv.2, dt_to_wallet kv.2)) <$> t_transactions (c_disk (l_db (lw_ledger after_gossip.2)))) =
    [(None, "network"); (None, "alice"); (Some "alice", "bob")] ∧
  ((λ p : prog ledger_io unit, match p with Ret _ => true | Do _ _ => false end) <$> after_gossip.1) = [true; true; true; true].
Proof. split_and!; vm_compute; reflexivity. Qed.
