(* ===== verification/EscrowExample.v ===== *)
(** * The payment escrow, executed

    An escrow that is created, released and refunded at once; the witnesses of the
    theorems on the escrow, and a split release that a balance error tears. *)
From Stdlib Require Import ZArith Lia.
From S2P Require Import PyStd.
From S2P Require Import PyNumbers.
From S2P Require Import Effects.
From S2P Require Import DagLedger.
From S2P Require Import Escrow.
From S2P Require Import EscrowSafety.
From S2P Require Import Prelude.
From stdpp Require Import relations.

#[local] Open Scope string_scope.
#[local] Open Scope list_scope.
#[local] Open Scope Z_scope.

(** ** A ledger that answers

    Its balances are what the transfers left of [initial]; a transfer to a wallet in
    [fails] raises. *)
Section Answers.
Variable initial : string → pyfloat.
Variable fails : string → option exn.

Definition balance_of (w : string) (trace : list Tx) : pyfloat :=
  fold_left (λ b tx, let b := if decide (tr_from tx = w) then fsub b (tr_amount tx) else b in
                     if decide (tr_to tx = w) then fadd b (tr_amount tx) else b) trace (initial w).

Definition step_escrow (e : escrow_request) (w : EscrowWorld) : option (@response escrow_io e * EscrowWorld) :=
  match e return option (@response escrow_io e * EscrowWorld) with
  | GetBalance a => Some (Ok (balance_of a (ew_trace w)), w)
  | LedgerTransfer from to amount _ =>
      match fails to with
      | Some exc => Some (Err exc, w)
      | None =>
          let tx := {| tr_id := "tx-" +:+ str_of_int (zlen (ew_trace w)); tr_from := from; tr_to := to; tr_amount := amount |} in
          Some (Ok tx, {| ew_escrows := ew_escrows w; ew_ids := ew_ids w; ew_trace := ew_trace w ++ [tx]; ew_held := ew_held w |})
      end
  | BroadcastTx _ | GossipTx _ => Some (Ok tt, w)
  | Now => Some (fzero, w)
  | EscrowUuid job =>
      let id := "e" +:+ str_of_int (zlen (ew_ids w)) in
      if decide ((id ∉ (ew_ids w).*1) ∧ Forall (λ tx, tr_from tx ≠ escrow_wallet id) (ew_trace w)) then
        Some (id, {| ew_escrows := ew_escrows w; ew_ids := ew_ids w ++ [(id, job)]; ew_trace := ew_trace w; ew_held := ew_held w |})
      else None
  | ReadEscrows => Some (ew_escrows w, w)
  | Register e => Some (tt, {| ew_escrows := dict_set (ee_escrow_id e) e (ew_escrows w); ew_ids := ew_ids w; ew_trace := ew_trace w; ew_held := ew_held w |})
  | Mutate id f => Some (tt, {| ew_escrows := dict_update id f (ew_escrows w); ew_ids := ew_ids w; ew_trace := ew_trace w; ew_held := ew_held w |})
  | LockJob j =>
      if decide (j ∈ ew_held w) then None
      else Some (tt, {| ew_escrows := ew_escrows w; ew_ids := ew_ids w; ew_trace := ew_trace w; ew_held := {[j]} ∪ ew_held w |})
  | UnlockJob j => Some (tt, {| ew_escrows := ew_escrows w; ew_ids := ew_ids w; ew_trace := ew_trace w; ew_held := ew_held w ∖ {[j]} |})
  end.

Lemma step_escrow_sound e w r w' : step_escrow e w = Some (r, w') → escrow_exec e w r w'.
Proof.
  unfold escrow_exec. destruct e; simpl; try (by intros [= <- <-]).
  - destruct (fails to); intros [= <- <-]; [done | by split_and!].
  - case_decide as Hd; [|done]. destruct Hd. by intros [= <- <-].
  - case_decide; [done|]. by intros [= <- <-].
Qed.

Definition run_escrows := run_pool (A := unit) (E := escrow_io) step_escrow.
End Answers.

Definition hundred (w : string) : pyfloat := if decide (w = "alice") then float_of_int 100 else fzero.
Definition service : EscrowConfig := {| ec_node_id := "alice"; ec_broadcast := true; ec_gossip := true; ec_default_timeout := lit "3600.0" |}.

Definition statuses (w : EscrowWorld) : list (string * EscrowStatus) := (λ kv : string * EscrowEntry, (kv.1, ee_status kv.2)) <$> ew_escrows w.
Definition transfers (w : EscrowWorld) : list (string * string * string) := (λ tx, (tr_from tx, tr_to tx, float_repr (tr_amount tx))) <$> ew_trace w.

(** Two creations of one job, then a partial release and a refund of it, in turn *)
Definition creations : list (prog escrow_io unit) :=
  [run_escrow (create_escrow service "job" (float_of_int 60) None); run_escrow (create_escrow service "job" (float_of_int 60) None)].
Definition outcomes : list (prog escrow_io unit) :=
  [run_escrow (release_escrow service "job" "bob" false (Some (float_of_int 40))); run_escrow (refund_escrow "job" "cancelled")].

Definition after_creations := run_escrows hundred (λ _, None) (round_robin 2 40) (creations, no_escrows).
Definition after_outcomes := run_escrows hundred (λ _, None) (round_robin 4 60) (after_creations.1 ++ outcomes, after_creations.2).

Lemma reach_outcomes : rtc (pool_step escrow_exec (escrow_call service)) ([], no_escrows) after_outcomes.
Proof.
  assert (rtc (pool_step escrow_exec (escrow_call service)) ([], no_escrows) after_creations) as H1.
  { etrans; [apply (call_all escrow_exec (escrow_call service) [] creations) | apply run_pool_sound, step_escrow_sound].
    constructor; [by apply call_create|]. constructor; [by apply call_create | constructor]. }
  etrans; [exact H1|]. unfold after_outcomes. generalize after_creations. intros [ps w].
  etrans; [|apply run_pool_sound, step_escrow_sound]. apply call_all. constructor; [apply call_release|].
  constructor; [apply (call_refund service) | constructor].
Qed.

Lemma escrow_settles_once_witness :
  ("job" ∉ ew_held after_outcomes.2) ∧
  ((∀ id e, dict_get id (ew_escrows after_outcomes.2) = Some e → ee_job_id e = "job" →
     settled_as e (filter (λ tx, tr_from tx = escrow_wallet id) (ew_trace after_outcomes.2))) ∧
   (∀ id1 e1 id2 e2, dict_get id1 (ew_escrows after_outcomes.2) = Some e1 → dict_get id2 (ew_escrows after_outcomes.2) = Some e2 →
     ee_job_id e1 = "job" → ee_job_id e2 = "job" → ee_status e1 = PENDING → ee_status e2 = PENDING → id1 = id2)) ∧
  statuses after_outcomes.2 = [("e0", RELEASED)] ∧
  transfers after_outcomes.2 = [("alice", "escrow-e0", "60.0"); ("escrow-e0", "bob", "40.0"); ("escrow-e0", "alice", "20.0")].
Proof.
  assert ("job" ∉ ew_held after_outcomes.2) as Hj by (apply (bool_decide_unpack _); vm_compute; exact I).
  split; [exact Hj|]. split; [exact (escrow_settles_once service after_outcomes "job" reach_outcomes Hj)|].
  split; vm_compute; reflexivity.
Defined.

(** ** A split release *)

Definition held_entry : EscrowEntry :=
  {| ee_escrow_id := "e0"; ee_job_id := "job"; ee_requester_id := "alice"; ee_amount := float_of_int 60; ee_status := PENDING;
     ee_provider_winner := None; ee_tx_lock := Some "tx-0"; ee_tx_release := None; ee_created_at := fzero; ee_completed_at := None;
     ee_metadata := no_metadata |}.
Definition held_core : JobCore := {| jc_entries := [("e0", held_entry)]; jc_ids := ["e0"]; jc_out := [] |}.
Definition shares : list (string * pyfloat) := [("bob", float_of_int 40); ("carol", float_of_int 15)].

Lemma held_core_ok : job_ok held_core.
Proof.
  split.
  - intros id e. cbn. destruct (decide (id = "e0")) as [->|]; [|done]. by intros [= <-].
  - intros id _. cbn. by destruct (decide (id = "e0")).
  - intros id1 e1 id2 e2. cbn. by destruct (decide (id1 = "e0")) as [->|], (decide (id2 = "e0")) as [->|].
Qed.


(** The second leg raises what the node's ledger raises when the balance does not cover
    it, which is no ValueError: bob stays paid, and the escrow says nothing of it. *)
Definition after_split (fail : exn) :=
  run_escrows hundred (λ w, if decide (w = "carol") then Some fail else None) (replicate 60 2%nat)
    (after_creations.1 ++ [run_escrow (release_escrow_split service "job" shares true true)], after_creations.2).

Lemma split_torn_by_balance :
  transfers (after_split InsufficientBalanceError).2 = [("alice", "escrow-e0", "60.0"); ("escrow-e0", "bob", "40.0")] ∧
  statuses (after_split InsufficientBalanceError).2 = [("e0", PENDING)] ∧
  ((λ kv : string * EscrowEntry, ee_metadata kv.2) <$> ew_escrows (after_split InsufficientBalanceError).2) = [no_metadata].
Proof. split_and!; vm_compute; reflexivity. Qed.

(** After a ValueError it is sent back. *)
Lemma split_rolled_back_on_value_error :
  transfers (after_split ValueError).2 = [("alice", "escrow-e0", "60.0"); ("escrow-e0", "bob", "40.0"); ("bob", "escrow-e0", "40.0")] ∧
  statuses (after_split ValueError).2 = [("e0", PENDING)].
Proof. split_and!; vm_compute; reflexivity. Qed.
